(* ===== verification/_CoqProject ===== *)
-Q . S2P
Prelude.v
Floats.v
Deps.v
Effects.v
Contract.v
RunState.v
Projector.v
Idempotency.v
Breakers.v
SampleRate.v
Proto.v
SubMeter.v
FailPolicy.v
Auth.v
Sidecar.v
Decision.v
Settle.v
Concurrency.v
Fencing.v
Adapter.v
Resume.v
Serve.v
Leases.v
Cursor.v
Predict.v
EndpointCache.v
Signing.v
Canonical.v
Ingest.v
Chain.v
Stranded.v
Query.v
Signed.v
Outbox.v
Forwarder.v
LedgerDb.v
Ledger.v
Posting.v
Books.v
ControlPlane.v
LedgerRun.v
Balances.v
Cap.v
TtlSweeper.v
Lifecycle.v
Approvals.v
Retention.v
CapDemo.v
Sse.v
Routing.v
Egress.v
EgressRun.v
