(* ===== verification/Prelude.v ===== *)
(** * SpendGuard: a verification development (root file)

    SpendGuard puts a spending gate in front of the calls an agent makes to
    language models. A _sidecar_ in the agent's pod is asked for a decision before
    each call: it evaluates the operator's contract on the call's claims, asks the
    _run cost projector_ what the whole run will cost (which asks the _output
    predictor_ and the _tokenizer_ for token counts), reserves the amount in the
    _ledger_, and later commits what the provider reports or releases the
    reservation. Every decision leaves a signed audit event. Around this, codecs
    and proxies bring the traffic of particular clients to the sidecar, and
    background workers elect a leader by a _lease_.

    ** How the code is modelled

    Definitions carry the names of the Rust items they translate and read in the
    same order. A pure function is a Gallina function. A handler that awaits is a
    program over effects (file [Effects]): each effect is one section under a
    lock, one remote call or one reading of the clock, and the tree continues with
    whatever the effect answers. Theorems hold for every answer of the remote
    services, and the theorems about several handlers hold for every interleaving
    of them, effect by effect ([pool_run], [pool_follows]). What a theorem says of a
    request or an answer it says in terms of its own, field by field, in predicates
    that follow the program ([says], [due], [told], [reports], ...), not by the
    function that built it.
    Fallible code returns [result]; [i64], [u32] and the like are [Z] with the
    wrap-around, saturation or refusal of the source written out; [f32] and [f64]
    are the IEEE 754 values of the Standard Library; maps are [gmap]s, or
    association lists where order or duplicates matter; shared mutable state behind
    an [Arc] is a heap of locations. A clock reading is an argument or an effect's
    answer, in nanoseconds.
    Code outside the repository is a class of operations with the documented laws
    the code relies on: uuid, num-bigint, lru, hex, sha2 and chrono ([Deps]), prost
    ([Proto.ProstLib], [Cursor.CursorProst]), chrono's calendar
    ([SubMeter.Calendar]) and microsecond times ([Leases.MicroTimeLib]), the
    Kubernetes API server ([Leases.KubeApi]). The modules called [...Demo] run the
    handlers on concrete instances.

    ** The files

    [Prelude]: results, options, machine integers, decimal text and the string
    functions of Rust's standard library that the code calls ([trim],
    [to_lower], [parse_i64], ...), lists, the development's tactics and hints.
    [Floats]: [f32] and [f64]. [Deps]: third-party interfaces. [Effects]: programs,
    their executions, finite prefixes, pools over a shared state, and the rules
    that derive properties of pools from properties of single programs.

    [Contract] (services/sidecar/src/contract: types.rs, parse.rs, evaluate.rs):
    the contract language. [parse_yaml] checks a document into a [Contract];
    [evaluate] merges the rules that the claims match. Theorems: the evaluator
    equals a reference definition (the most restrictive of the matching pairs,
    earliest first), never relaxes as claims are added, and the loader only accepts
    contracts inside the allowed-pairs table.

    [RunState], [Projector] (services/run_cost_projector/src: state_cache.rs,
    signal_1.rs to signal_3.rs, layering.rs, recovery.rs, server.rs): the projector
    keeps a state per run in an LRU cache with a time to live; [project] is a
    thread of atomic sections - read a snapshot, compute without the lock, commit
    if the snapshot is still current, else start again. The abstract specification
    is the sequential application of committed calls ([explains]); every
    interleaving refines it. Termination of an undisturbed call is a theorem.

    [Idempotency] (sidecar/src/decision/idempotency.rs), [Breakers]
    (output_predictor/src/circuit_breaker.rs and tokenizer/src/shadow/
    circuit_breaker.rs), [SampleRate] (tokenizer/src/shadow/sample_rate_state.rs),
    [SubMeter] (sidecar/src/subscription_meter), [FailPolicy] (policy/src/lib.rs),
    [Auth] (auth/src: rbac.rs, approver_policy.rs, lib.rs): self-contained state
    machines and decision tables, with their invariants over all sequences of
    operations.

    [Proto]: the messages of proto/spendguard that the handlers read or build.
    [Sidecar] (sidecar/src/domain: error.rs, state.rs, audit.rs): the errors, the
    shared state and the effects of the sidecar. [Decision]
    (sidecar/src/decision/transaction.rs, first half): [run_through_reserve] -
    gates, replay by idempotency key, evaluation, projection, reservation or the
    record of a denial. [Settle] (the second half): [run_commit_estimated] and
    [run_release]. [Fencing] (sidecar/src/fencing/mod.rs): the fencing lease and
    its renewer. [Concurrency]: transactions, commits and releases interleaved.
    [Adapter], [Resume] (sidecar/src/server/adapter_uds.rs): the RPC handlers, the
    event stream, and the resumption of an approved decision from the payload that
    a REQUIRE_APPROVAL decision recorded. [Serve]: all of these interleaved.
    Theorems: a CONTINUE is always backed by a reservation for the same key and
    claims, every other answer by a recorded denial; the order of gates and calls;
    what commits and releases may reach the ledger; uniqueness of producer
    sequences and of signatures across interleaved handlers; the round trip of the
    resumption payload.

    [Leases] (leases/src/lib.rs): the lease back ends and the loop over them;
    replicas interleaved over one store and one clock. Of replicas with one lease
    duration at most one leads (two with different durations can), and a lease
    released on Kubernetes is never taken again.

    [Cursor] (cursor_codec/src: framing.rs, reencode.rs, translate.rs,
    mitm_session.rs): framing, translation and the session that reserves, forwards
    and settles one request.

    [Predict] and [EndpointCache] (output_predictor/src: server.rs, selector.rs,
    strategy_a.rs to strategy_c.rs, classifier.rs, cold_start_loader.rs, cache.rs,
    fingerprint.rs, endpoint_cache.rs): the Predict handler around the breaker of
    [Breakers], and the cache of the plugin registry.

    [Signing] (signing/src/lib.rs): the local, KMS and disabled signers, the trust
    store read from a directory and the verification of one message against it.
    What the KMS signer signs is never accepted, the digest being hashed once too
    often. [Canonical] (canonical_ingest/src: classify.rs, verifier.rs,
    producer_identity.rs, the pure half of handlers/append_events.rs): the bytes
    that are signed, the columns derived from an event, its stored JSON form and
    the binding of a producer to its certificate. [Ingest]: the RPC AppendEvents
    over the tables of Postgres - statements, unique indexes, CHECK constraints
    and triggers are functions on a [Db] record, a transaction is all or nothing,
    and an outage may cut one off before or after its commit. [Chain]: what any
    interleaving of such calls keeps true of the tables, and what their answers
    promise; [Stranded]: the outcomes that no call releases any more. [Query]
    (handlers/query_audit_chain.rs, handlers/verify_schema_bundle.rs): the readers,
    and what they return of what was appended. [Signed] joins [Concurrency],
    [Resume], [Signing] and [Canonical]: the events that decisions, commits, releases
    and resumptions send verify at canonical ingest, under conditions on the key. [Outbox] (ledger/src/handlers/audit_payload.rs and
    replay.rs, outbox_forwarder/src/decode.rs): an event's way through the ledger's
    outbox as JSON and back. [Forwarder] (outbox_forwarder/src: poll.rs,
    forward.rs): a batch; joined with [Chain], a row is marked as forwarded only
    when the chain or its quarantine knows its event; and two ways in which the
    outbox stops (a poll skips the rows that another transaction has locked, so the one
    is claimed for polls that do not overlap).

    [LedgerDb] (ledger/migrations): the tables of the ledger and the stored
    procedures that write them - a reservation and a deposit
    (post_ledger_transaction, 0063), a commit (0013), a release (0019), a denial
    (0020) and one that wants an approval (0045), a provider's report (0014), the
    fencing lease (0023), an approval's resolution (0035) and its use (0036). A
    procedure is a function on the tables that may raise, one transaction and one
    step. [Ledger] (ledger/src: handlers, domain, persistence): the RPC handlers as
    programs over these statements - validation, request hashes, lock tokens,
    errors, replies to a repeated request. [Posting]: what each procedure does to
    the tables. [Books]: the invariant of the tables and that every procedure keeps
    it - accounts, transactions and keys unique, every transaction balanced and
    audited, a hold paid out once, the transactions of a scope in the order of
    their epochs. [ControlPlane] (control_plane/src/main.rs): tenants and approvals.
    [LedgerRun]: the run of the handlers over the tables, and the rules for it.
    [Cap]: all these calls interleaved, with outages and with the other writers of
    the tables: the hard cap (provider reports and invoices aside, which do not ask for
    the floor), the books, keys used once, no split brain, no effect
    without its audit. [Balances]: the balances that two readers answer are those
    the postings go by, up to the snapshot and within the window that are asked. [Lifecycle]: a reservation is settled once. [Approvals]: an
    approval is decided once; and nobody is kept from deciding it. [TtlSweeper]
    (ttl_sweeper/src): the release of expired reservations. [Retention]
    (retention_sweeper/src, 0064): redaction, which changes nothing else, and never
    reaches a prompt. [CapDemo] runs a tenant's calls: the witnesses, a report that
    overdraws, a tombstone that is no barrier, a repeated request that asks twice.

    [Sse] (services/egress_proxy/src/forward.rs, its stream parser): events, lines
    and usage of a streamed answer; the loop over chunks equals a reader of the whole
    text. [Routing] (crates/spendguard-provider-routing/src/lib.rs): which upstream a
    path leads to. [Egress] (egress_proxy/src: forward.rs, decision.rs; ids/src/
    lib.rs): the estimate of a call, the request to the sidecar, the handler and the
    tasks it leaves behind a stream. [EgressRun]: nothing is forwarded without a
    CONTINUE, each forwarded request is settled by what came of it, and runs of the
    cases in which completed spend is not charged.

    ** Bounds and fuel

    A loop that the code ends by its data is a structural recursion. Where it is
    not, the recursion has fuel, and the definitions carry enough: printing decimal
    digits and trimming take the length of the text or a bound above the width of
    the integer; re-encoding a wire takes one more than its length, since a frame
    consumes at least its header ([Cursor.fuel_for], and [Cursor.stream_roundtrip]
    shows that it never runs out). The lease loop never ends by itself: its fuel
    counts its turns, the theorems hold for every number of them.

    ** What is not modelled

    Log lines, metrics and latencies, everywhere. The sidecar's start-up, hot
    reload and HTTP mirror. Start-up and transport (TLS, SVIDs) of every service.
    Requests to Postgres are open answers, except those of canonical ingest
    ([Ingest]), of the ledger and of the control plane ([LedgerDb]), whose tables
    are modelled; the sidecar's theorems hold whatever the ledger answers. Of the
    ledger: invoice reconciliation (which debits the available budget without asking
    for its floor), session reservations, the audit stream from a
    cursor, cost findings, partition upkeep, and the trigger that mirrors the
    prediction columns of an audit row, which is a parameter. Of the control plane:
    the tokenizer's sampling and security settings, the plugin registry, the
    notifications of an approval and the audit forwarder. The lease loops of the
    sweepers are those of [Leases]. [serde_yaml], [serde_json] and [toml] are taken
    after parsing, or their parser is a parameter: a document is the tree they
    return. Of the Predict RPC, the rate
    limiter answers openly, and strategies B and C, which the code joins, run one
    after the other, since they share no state. Of the egress proxy, start-up and the
    usage extractors of the other providers, which its handlers do not call; a call
    to its predictors that runs out of time is one that answers an error.
    The remaining services - the dashboard, installer, importers, pollers, report
    and registry tools - are HTTP, SQL and file system front ends;
    PROJECT.json lists each with the reason.

    ** Plan

    Left for later: the Windsurf codec, the Envoy external processor and the proxy's
    other providers; of the ledger, invoice reconciliation and session reservations;
    the drift detector of the statistics aggregator. *)

From Stdlib Require Export ZArith Lia String Ascii List Bool.
From stdpp Require Export base option strings gmap sets countable list.

#[global] Open Scope string_scope.
#[global] Open Scope list_scope.
#[global] Open Scope Z_scope.
#[global] Set Default Proof Using "Type".
#[global] Generalizable All Variables.
#[export] Set Warnings "-clear-no-such-hyp".

(** ** Notations of the development *)

Declare Scope guard_scope.
Delimit Scope guard_scope with guard.

(** ** Fallible code: Rust's [Result<A, E>] *)

Inductive result (E A : Type) : Type :=
  | Ok (a : A)
  | Err (e : E).
Arguments Ok {E A} a.
Arguments Err {E A} e.

#[export] Instance result_ret {E} : MRet (result E) := fun A a => Ok a.
#[export] Instance result_bind {E} : MBind (result E) := fun A B f m =>
  match m with Ok a => f a | Err e => Err e end.
#[export] Instance result_fmap {E} : FMap (result E) := fun A B f m =>
  match m with Ok a => Ok (f a) | Err e => Err e end.

#[export] Instance result_eq_dec {E A} `{!EqDecision E, !EqDecision A} :
  EqDecision (result E A).
Proof. solve_decision. Defined.

(** [?] on an option with [ok_or]: the error is raised when there is no value. *)
Definition ok_or {E A} (o : option A) (e : E) : result E A :=
  match o with Some a => Ok a | None => Err e end.

Definition is_ok {E A} (r : result E A) : bool :=
  match r with Ok _ => true | Err _ => false end.

(** [guard b else e]: the early return [if !b { return Err(e) }]. *)
Definition ensure {E} (b : bool) (e : E) : result E unit :=
  if b then Ok tt else Err e.

Notation "'require' b 'else' e ; k" := (ensure b e ≫= fun _ : unit => k)
  (at level 100, b at level 99, e at level 99, k at level 200, right associativity)
  : stdpp_scope.

(** [.map(f).collect::<Result<Vec<_>>>()]: the first error wins. *)
Fixpoint collect {E A B} (f : A -> result E B) (l : list A) : result E (list B) :=
  match l with
  | [] => Ok []
  | a :: l =>
      b ← f a;
      bs ← collect f l;
      mret (b :: bs)
  end.

(** ** Machine integers: a value is a [Z], its width is written out *)

Definition i32_min : Z := -2147483648.
Definition i32_max : Z := 2147483647.
Definition u32_max : Z := 4294967295.
Definition i64_min : Z := -9223372036854775808.
Definition i64_max : Z := 9223372036854775807.
Definition u64_max : Z := 18446744073709551615.

(** Saturation to a range: [saturating_add], [try_from(..).unwrap_or(MAX)], ... *)
Definition clamp (lo hi z : Z) : Z := Z.max lo (Z.min hi z).

Definition i32_sat (z : Z) : Z := clamp i32_min i32_max z.
Definition i64_sat (z : Z) : Z := clamp i64_min i64_max z.
Definition u32_sat (z : Z) : Z := clamp 0 u32_max z.
Definition u64_sat (z : Z) : Z := clamp 0 u64_max z.

(** [as u64], [as i64]: two's complement wrap-around. *)
Definition u64_wrap (z : Z) : Z := z mod 2 ^ 64.
Definition u32_wrap (z : Z) : Z := z mod 2 ^ 32.
Definition i64_wrap (z : Z) : Z := (z + 2 ^ 63) mod 2 ^ 64 - 2 ^ 63.
Definition i32_wrap (z : Z) : Z := (z + 2 ^ 31) mod 2 ^ 32 - 2 ^ 31.

Definition is_i64 (z : Z) : bool := (i64_min <=? z) && (z <=? i64_max).
Definition is_u64 (z : Z) : bool := (0 <=? z) && (z <=? u64_max).
Definition is_i32 (z : Z) : bool := (i32_min <=? z) && (z <=? i32_max).
Definition is_u32 (z : Z) : bool := (0 <=? z) && (z <=? u32_max).

(** Unfolds the width constants so that [lia] sees numerals. *)
Ltac widths :=
  unfold i32_sat, i64_sat, u32_sat, u64_sat, clamp, is_i64, is_u64, is_i32, is_u32,
    i32_min, i32_max, u32_max, i64_min, i64_max, u64_max in *.
(** Comparisons of [Z] in bool to propositions, then [lia]. *)
Ltac b2p :=
  rewrite ?Z.ltb_lt, ?Z.ltb_ge, ?Z.leb_le, ?Z.leb_gt, ?Z.eqb_eq, ?Z.eqb_neq,
    ?andb_true_iff, ?orb_false_iff, ?negb_true_iff, ?negb_false_iff in *.
Ltac blia := b2p; lia.
Ltac width_lia := widths; lia.

Lemma clamp_bounds lo hi z : lo <= hi -> lo <= clamp lo hi z <= hi.
Proof. unfold clamp; lia. Qed.

Lemma clamp_id lo hi z : lo <= z <= hi -> clamp lo hi z = z.
Proof. unfold clamp; lia. Qed.

Lemma clamp_mono lo hi a b : a <= b -> clamp lo hi a <= clamp lo hi b.
Proof. unfold clamp; lia. Qed.

(** Adding nonnegative amounts one by one with saturation is adding them at once. *)
Lemma clamp_add_assoc lo hi a b :
  0 <= b -> lo <= hi -> clamp lo hi (clamp lo hi a + b) = clamp lo hi (Z.max lo a + b).
Proof. unfold clamp; lia. Qed.

(** ** Time: nanoseconds; chrono's [num_seconds] truncates toward zero *)

Definition NANOS : Z := 1000000000.
Definition secs (n : Z) : Z := n * NANOS.
Definition millis (n : Z) : Z := n * 1000000.
Definition num_seconds (d : Z) : Z := Z.quot d NANOS.

(** [Instant::elapsed], [duration_since]: never negative. *)
Definition elapsed (now since : Z) : Z := Z.max 0 (now - since).

(** ** Strings: UTF-8 bytes; [len()] is [String.length] *)

Definition is_empty (s : string) : bool :=
  match s with EmptyString => true | _ => false end.

Definition slen (s : string) : Z := Z.of_nat (String.length s).

#[global] Notation "s1 =?s s2" := (String.eqb s1 s2) (at level 70) : bool_scope.

Lemma is_empty_spec s : is_empty s = true <-> s = EmptyString.
Proof. destruct s; simpl; split; congruence. Qed.

(** [str::trim] removes Unicode white space, here in its UTF-8 encoding: the
    characters of one byte, U+0085 and U+00A0, U+1680, U+2000 to U+200A, U+2028,
    U+2029, U+202F, U+205F and U+3000. *)
Definition byte_of (c : ascii) : Z := Z.of_nat (nat_of_ascii c).

Definition is_space1 (a : Z) : bool := ((9 <=? a) && (a <=? 13)) || (a =? 32).
Definition is_space2 (a b : Z) : bool := (a =? 194) && ((b =? 133) || (b =? 160)).
Definition is_space3 (a b c : Z) : bool :=
  ((a =? 225) && (b =? 154) && (c =? 128)) ||
  ((a =? 226) && (b =? 128) &&
     (((128 <=? c) && (c <=? 138)) || (c =? 168) || (c =? 169) || (c =? 175))) ||
  ((a =? 226) && (b =? 129) && (c =? 159)) ||
  ((a =? 227) && (b =? 128) && (c =? 128)).

(** Strips leading white space; [rev] says that the bytes come in reverse order. *)
Fixpoint strip (rev : bool) (fuel : nat) (l : list ascii) : list ascii :=
  match fuel with
  | O => l
  | S fuel =>
      match l with
      | [] => []
      | a :: l1 =>
          if is_space1 (byte_of a) then strip rev fuel l1
          else match l1 with
               | [] => l
               | b :: l2 =>
                   if (if rev then is_space2 (byte_of b) (byte_of a)
                       else is_space2 (byte_of a) (byte_of b))
                   then strip rev fuel l2
                   else match l2 with
                        | [] => l
                        | c :: l3 =>
                            if (if rev then is_space3 (byte_of c) (byte_of b) (byte_of a)
                                else is_space3 (byte_of a) (byte_of b) (byte_of c))
                            then strip rev fuel l3 else l
                        end
               end
      end
  end.

Definition trim (s : string) : string :=
  let l := list_ascii_of_string s in
  let l := strip false (length l) l in
  string_of_list_ascii (rev (strip true (length l) (rev l))).

Example trim_ex : trim "  a b
 " = "a b".
Proof. reflexivity. Qed.

(** [eq_ignore_ascii_case]. *)
Definition lower_ascii (c : ascii) : ascii :=
  let n := nat_of_ascii c in
  if (65 <=? n)%nat && (n <=? 90)%nat then ascii_of_nat (n + 32) else c.

Fixpoint to_lower (s : string) : string :=
  match s with EmptyString => EmptyString | String c s => String (lower_ascii c) (to_lower s) end.

Definition eq_ignore_ascii_case (a b : string) : bool := to_lower a =?s to_lower b.

(** [starts_with]. *)
Definition starts_with (p s : string) : bool := String.prefix p s.

(** [str::contains]. *)
Fixpoint str_contains (needle hay : string) : bool :=
  String.prefix needle hay ||
  match hay with EmptyString => false | String _ hay => str_contains needle hay end.


(** Decimal [str::parse] of the standard library's integers: an optional sign,
    at least one digit, nothing else, and the value in range. *)
Definition digit_val (c : ascii) : option Z :=
  let n := Z.of_nat (nat_of_ascii c) in
  if (48 <=? n) && (n <=? 57) then Some (n - 48) else None.

Fixpoint parse_digits (acc : Z) (s : string) : option Z :=
  match s with
  | EmptyString => Some acc
  | String c s => v ← digit_val c; parse_digits (acc * 10 + v) s
  end.

Definition parse_nat_str (s : string) : option Z :=
  if is_empty s then None else parse_digits 0 s.

Definition parse_signed (s : string) : option Z :=
  match s with
  | String "-" s' => Z.opp <$> parse_nat_str s'
  | String "+" s' => parse_nat_str s'
  | _ => parse_nat_str s
  end.

Definition parse_i64 (s : string) : option Z :=
  v ← parse_signed s; if is_i64 v then Some v else None.

Example parse_i64_ex :
  (parse_i64 "-42", parse_i64 "+7", parse_i64 "9223372036854775808", parse_i64 "-")
  = (Some (-42), Some 7, None, None).
Proof. reflexivity. Qed.

Lemma parse_i64_range s v : parse_i64 s = Some v -> i64_min <= v <= i64_max.
Proof.
  unfold parse_i64. destruct (parse_signed s) as [w|]; simpl; [|congruence].
  destruct (is_i64 w) eqn:H; [|congruence]. intros [= ->]. width_lia.
Qed.

(** [parse::<u64>()]: no minus sign. *)
Definition parse_u64 (s : string) : option Z :=
  v ← match s with String "+" s' => parse_nat_str s' | _ => parse_nat_str s end;
  if is_u64 v then Some v else None.

(** [s.split(p)] for a one-byte pattern: always at least one piece. *)
Fixpoint split_on (p : ascii -> bool) (s : string) : list string :=
  match s with
  | EmptyString => [EmptyString]
  | String c s =>
      if p c then EmptyString :: split_on p s
      else match split_on p s with
           | w :: ws => String c w :: ws
           | [] => [String c EmptyString]
           end
  end.

Definition upper_ascii (c : ascii) : ascii :=
  let n := nat_of_ascii c in
  if (97 <=? n)%nat && (n <=? 122)%nat then ascii_of_nat (n - 32) else c.

Fixpoint to_upper (s : string) : string :=
  match s with EmptyString => EmptyString | String c s => String (upper_ascii c) (to_upper s) end.

(** [sort_by_key]: a stable insertion sort by a string key. *)
Fixpoint insert_by {A} (key : A -> string) (a : A) (l : list A) : list A :=
  match l with
  | [] => [a]
  | b :: l => if String.leb (key a) (key b) then a :: b :: l else b :: insert_by key a l
  end.

Definition sort_by {A} (key : A -> string) (l : list A) : list A := foldr (insert_by key) [] l.

Lemma elem_of_insert_by {A} (key : A -> string) a l x : x ∈ insert_by key a l <-> x = a \/ x ∈ l.
Proof.
  induction l as [|b l IH]; cbn [insert_by]; [set_solver|].
  case_match; set_unfold; naive_solver.
Qed.

Lemma elem_of_sort_by {A} (key : A -> string) l x : x ∈ sort_by key l <-> x ∈ l.
Proof.
  induction l as [|a l IH]; [done|]. cbn [sort_by foldr]. rewrite elem_of_insert_by.
  change (foldr (insert_by key) [] l) with (sort_by key l). set_solver.
Qed.

(** ** Association with Rust's iterator idioms *)

(** [iter().any(..)] and [iter().all(..)] are [existsb] and [forallb]; [find] is
    [List.find]. *)
Lemma existsb_Exists {A} (f : A -> bool) l :
  existsb f l = true <-> Exists (fun x => f x = true) l.
Proof.
  rewrite existsb_exists, Exists_exists.
  split; intros (x & Hx & Hf); exists x; split; auto; by apply list_elem_of_In.
Qed.

Lemma forallb_Forall {A} (f : A -> bool) l :
  forallb f l = true <-> Forall (fun x => f x = true) l.
Proof. rewrite forallb_forall, List.Forall_forall. reflexivity. Qed.

(** ** Automation *)

Create HintDb guard.
Create Rewrite HintDb guard.
Create Rewrite HintDb result.
Create Rewrite HintDb lru.
#[export] Hint Resolve clamp_bounds clamp_mono : guard.
#[export] Hint Rewrite clamp_id using lia : guard.

(** Case analysis on the innermost [match] or [if] of the goal or a hypothesis. *)
Ltac case_match_in H :=
  match type of H with
  | context [ match ?x with _ => _ end ] =>
      lazymatch x with context [ match _ with _ => _ end ] => fail | _ => destruct x eqn:? end
  end.

Lemma result_bind_ok {E A B} (m : result E A) (f : A -> result E B) b :
  m ≫= f = Ok b <-> exists a, m = Ok a /\ f a = Ok b.
Proof. destruct m; cbn; naive_solver. Qed.

Lemma ensure_ok {E} b (e : E) u : ensure b e = Ok u <-> b = true.
Proof. destruct b, u; cbn; naive_solver. Qed.

Lemma ok_or_ok {E A} (o : option A) (e : E) a : ok_or o e = Ok a <-> o = Some a.
Proof. destruct o; cbn; naive_solver. Qed.

#[export] Hint Rewrite @result_bind_ok @ensure_ok @ok_or_ok : result.

(** Splits a hypothesis [e = Ok v], with [e] a monadic computation, into the
    steps that succeeded. *)
Ltac mon_inv H :=
  lazymatch type of H with
  | (_ ≫= _) = Ok _ =>
      let a := fresh "v" in let Ha := fresh "E" in
      apply result_bind_ok in H as (a & Ha & H); mon_inv Ha; mon_inv H
  | ensure _ _ = Ok _ => apply ensure_ok in H
  | ok_or _ _ = Ok _ => apply ok_or_ok in H
  | mret _ = Ok _ => injection H as <-
  | Ok _ = Ok _ => injection H as <-
  | Err _ = Ok _ => discriminate H
  | _ => idtac
  end.

(** A successful [collect] maps every element, in order. *)
Lemma collect_ok {E A B} (f : A -> result E B) l bs :
  collect f l = Ok bs <-> Forall2 (fun a b => f a = Ok b) l bs.
Proof.
  revert bs; induction l as [|a l IH]; intros bs; cbn [collect].
  - split; [intros [= <-]; constructor | inversion 1; reflexivity].
  - rewrite result_bind_ok. setoid_rewrite result_bind_ok. setoid_rewrite IH. split.
    + intros (b & Hb & bs' & Hbs & [= <-]). by constructor.
    + inversion 1; naive_solver.
Qed.

Lemma collect_Forall {E A B} (f : A -> result E B) (P : B -> Prop) l bs :
  (forall a b, f a = Ok b -> P b) -> collect f l = Ok bs -> Forall P bs.
Proof. intros HP H%collect_ok. induction H; constructor; eauto. Qed.

Lemma collect_Forall_src {E A B} (f : A -> result E B) (P : A -> Prop) l bs :
  (forall a b, f a = Ok b -> P a) -> collect f l = Ok bs -> Forall P l.
Proof. intros HP H%collect_ok. induction H; constructor; eauto. Qed.

Lemma collect_fmap {E A B C} (f : A -> result E B) (g : B -> C) (h : A -> C) l bs :
  (forall a b, f a = Ok b -> g b = h a) -> collect f l = Ok bs -> g <$> bs = h <$> l.
Proof. intros Hgh H%collect_ok. induction H; cbn; [done|]. f_equal; eauto. Qed.

(** ** Decimal printing: [to_string] of an integer, and its round trip *)

(** Decimal digits of a natural number, most significant first. *)
Fixpoint digits (fuel : nat) (n : Z) (acc : string) : string :=
  match fuel with
  | O => acc
  | S fuel =>
      let acc := String (ascii_of_nat (Z.to_nat (48 + n mod 10))) acc in
      if n <? 10 then acc else digits fuel (n / 10) acc
  end.

Definition nat_str (n : Z) : string := digits (S (Z.to_nat (Z.log2 n))) n EmptyString.

Definition z_str (z : Z) : string :=
  if z <? 0 then String "-" (nat_str (- z)) else nat_str z.

Lemma digit_val_digit d :
  0 <= d < 10 -> digit_val (ascii_of_nat (Z.to_nat (48 + d))) = Some d.
Proof.
  intros Hd. assert (Hc : d = 0 \/ d = 1 \/ d = 2 \/ d = 3 \/ d = 4 \/ d = 5 \/ d = 6 \/ d = 7
    \/ d = 8 \/ d = 9) by lia.
  repeat destruct Hc as [-> | Hc]; try reflexivity. subst; reflexivity.
Qed.

(** Printing then parsing with accumulator [a] continues as if [a] were followed by [n]. *)
Lemma parse_digits_digits fuel n acc :
  0 <= n < 2 ^ Z.of_nat fuel ->
  (exists w, 0 < w /\ forall a, parse_digits a (digits fuel n acc) = parse_digits (a * w + n) acc)
  \/ fuel = O.
Proof.
  revert n acc; induction fuel as [|fuel IH]; intros n acc Hn; [by right | left].
  cbn [digits]. pose proof (Z.mod_pos_bound n 10 ltac:(lia)) as Hm.
  assert (Hstep : forall a s, parse_digits a (String (ascii_of_nat (Z.to_nat (48 + n mod 10))) s)
                       = parse_digits (a * 10 + n mod 10) s).
  { intros a s. cbn [parse_digits]. rewrite digit_val_digit by lia. reflexivity. }
  destruct (n <? 10) eqn:E.
  - exists 10. split; [lia|]. intros a. rewrite Hstep, (Z.mod_small n 10) by lia. reflexivity.
  - pose proof (Z.div_mod n 10 ltac:(lia)).
    assert (Hd : 0 <= n / 10 < 2 ^ Z.of_nat fuel).
    { rewrite Nat2Z.inj_succ, Z.pow_succ_r in Hn by lia. split; [apply Z.div_pos; lia|].
      apply Z.div_lt_upper_bound; lia. }
    destruct (IH (n / 10) (String (ascii_of_nat (Z.to_nat (48 + n mod 10))) acc) Hd) as [(w & Hw & IHw) | ->].
    + exists (w * 10). split; [lia|]. intros a. rewrite IHw, Hstep. f_equal. lia.
    + simpl in Hd. lia.
Qed.

Lemma digits_nonempty fuel n acc : is_empty (digits (S fuel) n acc) = false.
Proof.
  revert n acc; induction fuel as [|fuel IH]; intros n acc; cbn [digits].
  - destruct (n <? 10); reflexivity.
  - destruct (n <? 10); [reflexivity|]. apply IH.
Qed.

Lemma parse_nat_str_nat_str n : 0 <= n -> parse_nat_str (nat_str n) = Some n.
Proof.
  intros Hn. unfold parse_nat_str, nat_str. rewrite digits_nonempty.
  destruct (parse_digits_digits (S (Z.to_nat (Z.log2 n))) n EmptyString) as [(w & Hw & E) | E].
  - split; [lia|]. rewrite Nat2Z.inj_succ, Z2Nat.id by apply Z.log2_nonneg.
    destruct (decide (n = 0)) as [->|]; [cbn; lia|]. apply Z.log2_spec; lia.
  - rewrite E. cbn. f_equal; lia.
  - discriminate E.
Qed.

(** The first character of a printed number is a digit, not a sign. *)
Lemma digits_head fuel n acc :
  0 <= n -> exists d s, 0 <= d < 10 /\ digits (S fuel) n acc = String (ascii_of_nat (Z.to_nat (48 + d))) s.
Proof.
  revert n acc; induction fuel as [|fuel IH]; intros n acc Hn; cbn [digits];
    pose proof (Z.mod_pos_bound n 10 ltac:(lia)).
  - destruct (n <? 10); eauto.
  - destruct (n <? 10); [eauto|]. apply IH. apply Z.div_pos; lia.
Qed.

Lemma parse_signed_unsigned n : 0 <= n -> parse_signed (nat_str n) = parse_nat_str (nat_str n).
Proof.
  intros Hn. unfold nat_str.
  destruct (digits_head (Z.to_nat (Z.log2 n)) n EmptyString Hn) as (d & s & Hd & ->).
  assert (Hc : d = 0 \/ d = 1 \/ d = 2 \/ d = 3 \/ d = 4 \/ d = 5 \/ d = 6 \/ d = 7
    \/ d = 8 \/ d = 9) by lia.
  repeat destruct Hc as [-> | Hc]; try reflexivity. subst; reflexivity.
Qed.

Lemma parse_signed_z_str z : parse_signed (z_str z) = Some z.
Proof.
  unfold z_str. destruct (z <? 0) eqn:E.
  - cbn [parse_signed]. rewrite parse_nat_str_nat_str by lia. cbn. f_equal; lia.
  - rewrite parse_signed_unsigned, parse_nat_str_nat_str by lia. reflexivity.
Qed.

(** [i64::to_string] is the standard library's decimal printer. *)
Definition i64_to_string (z : Z) : string := z_str z.

Lemma parse_i64_to_string z : is_i64 z = true -> parse_i64 (i64_to_string z) = Some z.
Proof.
  intros Hz. unfold parse_i64, i64_to_string. rewrite parse_signed_z_str. cbn. by rewrite Hz.
Qed.
