(* ===== verification/Floats.v ===== *)
(** * IEEE 754 arithmetic of the services

    [f32] and [f64] values are the Standard Library's [spec_float], the
    executable specification of binary floating point; arithmetic rounds to
    nearest, ties to even, as Rust's does. *)

From Stdlib Require Export Floats.SpecFloat.
From S2P Require Import Prelude.

Definition f64_prec : Z := 53.
Definition f64_emax : Z := 1024.
Definition f32_prec : Z := 24.
Definition f32_emax : Z := 128.

(** [z as f64], [z as f32]: the nearest float. *)
Definition f64_of_Z (z : Z) : spec_float := binary_normalize f64_prec f64_emax z 0 false.
Definition f32_of_Z (z : Z) : spec_float := binary_normalize f32_prec f32_emax z 0 false.

(** [n / d] as an [f64] literal, for the decimal constants of the sources. *)
Definition f64_div (x y : spec_float) : spec_float := SFdiv f64_prec f64_emax x y.
Definition f64_mul (x y : spec_float) : spec_float := SFmul f64_prec f64_emax x y.
Definition f64_add (x y : spec_float) : spec_float := SFadd f64_prec f64_emax x y.
Definition f64_sub (x y : spec_float) : spec_float := SFsub f64_prec f64_emax x y.
Definition f32_div (x y : spec_float) : spec_float := SFdiv f32_prec f32_emax x y.
Definition f32_mul (x y : spec_float) : spec_float := SFmul f32_prec f32_emax x y.

(** The literal [n / d]; decimal literals of the sources are correctly rounded
    quotients of small integers. *)
Definition f64_lit (n d : Z) : spec_float := f64_div (f64_of_Z n) (f64_of_Z d).
Definition f32_lit (n d : Z) : spec_float := f32_div (f32_of_Z n) (f32_of_Z d).

(** [x > y] is false on NaN. *)
Definition f_gt (x y : spec_float) : bool := SFltb y x.
Definition f_ge (x y : spec_float) : bool := SFleb y x.

Definition f_is_nan (x : spec_float) : bool := match x with S754_nan => true | _ => false end.

Definition f_is_finite (x : spec_float) : bool :=
  match x with S754_zero _ | S754_finite _ _ _ => true | _ => false end.

(** [f32::max], [f64::max]: NaN is ignored. *)
Definition f_max (x y : spec_float) : spec_float :=
  if f_is_nan x then y else if f_is_nan y then x else if SFltb x y then y else x.

(** The integer part, truncated toward zero. *)
Definition f_trunc (x : spec_float) : Z :=
  match x with
  | S754_finite s m e =>
      let a := if 0 <=? e then Zpos m * 2 ^ e else Zpos m / 2 ^ (- e) in
      if s then - a else a
  | _ => 0
  end.

(** [x as iN]: truncates, saturates, NaN gives 0. *)
Definition f_to_int (lo hi : Z) (x : spec_float) : Z :=
  match x with
  | S754_nan => 0
  | S754_infinity s => if s then lo else hi
  | _ => clamp lo hi (f_trunc x)
  end.

Definition f_to_i32 (x : spec_float) : Z := f_to_int i32_min i32_max x.
Definition f_to_i64 (x : spec_float) : Z := f_to_int i64_min i64_max x.
Definition f_to_u64 (x : spec_float) : Z := f_to_int 0 u64_max x.

Example f64_ratio : f_gt (f64_div (f64_of_Z 131) (f64_of_Z 100)) (f64_lit 13 10) = true.
Proof. reflexivity. Qed.

Lemma f_to_int_bounds lo hi x : lo <= 0 <= hi -> lo <= f_to_int lo hi x <= hi.
Proof.
  intros H. unfold f_to_int. repeat case_match; try lia; apply clamp_bounds; lia.
Qed.

(** A float that [max(0.0)] was applied to converts to a nonnegative integer. *)
Lemma f_to_int_max_zero lo hi x :
  lo <= 0 <= hi -> 0 <= f_to_int lo hi (f_max x (S754_zero false)).
Proof.
  intros H. unfold f_max. destruct x as [s|s| |s m e]; cbn; try (unfold clamp; lia).
  - destruct s; cbn; unfold clamp; lia.
  - destruct s; cbn; [unfold clamp; lia|].
    case_match; unfold clamp; [|pose proof (Z.div_pos (Zpos m) (2 ^ (- e)) ltac:(lia))].
    + pose proof (Z.pow_nonneg 2 e ltac:(lia)). lia.
    + pose proof (Z.pow_pos_nonneg 2 (- e)). lia.
Qed.

(** [x as f32] *)
Definition f32_of (x : spec_float) : spec_float :=
  match x with
  | S754_finite s m e => binary_normalize f32_prec f32_emax (if s then Zneg m else Zpos m) e s
  | _ => x
  end.

Lemma f32_of_valid x : valid_binary f32_prec f32_emax x = true -> f32_of x = x.
Proof.
  destruct x as [s|s| |s m e]; [done..|]. unfold valid_binary, bounded, canonical_mantissa.
  intros [Hc He]%andb_true_iff. apply Z.eqb_eq in Hc.
  assert (Hr : binary_round f32_prec f32_emax s m e = S754_finite s m e).
  { unfold binary_round, shl_align. rewrite Hc, Z.sub_diag.
    unfold binary_round_aux, shr_fexp. cbn [Zdigits2 shr_record_of_loc].
    rewrite Hc, Z.sub_diag. cbn [shr loc_of_shr_record round_nearest_even shr_m Zdigits2 shr_record_of_loc].
    rewrite Hc, Z.sub_diag. cbn [shr shr_m]. by rewrite He. }
  by destruct s.
Qed.
