(* ===== verification/Deps.v ===== *)
(** * Third-party code, as interfaces

    What the services call but do not define: the uuid and num-bigint crates.
    Each is a class, a record of operations with the documented laws the
    services rely on; every component is proved against the class, and the
    witnesses instantiate it with the concrete functions at the end. *)

From S2P Require Import Prelude.

(** ** The uuid crate: [Uuid::parse_str], [to_string] and equality *)

Class UuidLib := {
  uuid : Type;
  uuid_eq_dec :: EqDecision uuid;
  uuid_countable :: Countable uuid;
  uuid_parse : string -> option uuid;
  uuid_str : uuid -> string;
  (** [Uuid::nil()] *)
  uuid_nil : uuid;
  uuid_parse_str u : uuid_parse (uuid_str u) = Some u;
}.

Lemma uuid_str_inj `{UuidLib} u v : uuid_str u = uuid_str v -> u = v.
Proof. intros E%(f_equal uuid_parse). rewrite !uuid_parse_str in E. congruence. Qed.

(** ** num-bigint: [parse::<BigInt>] and [to_string]; a [BigInt] is a [Z] *)

Class BigIntLib := {
  bigint_parse : string -> option Z;
  bigint_str : Z -> string;
  bigint_parse_str z : bigint_parse (bigint_str z) = Some z;
}.

(** ** The lru crate: [LruCache<K, V>]

    [lru_items] lists the entries from the most to the least recently used
    one, as [LruCache::iter] does. *)

Section AssocList.
Context {K V : Type} `{!EqDecision K}.

Fixpoint al_get (k : K) (l : list (K * V)) : option V :=
  match l with
  | [] => None
  | (k', v) :: l => if decide (k = k') then Some v else al_get k l
  end.

Definition al_remove (k : K) (l : list (K * V)) : list (K * V) :=
  filter (fun kv => kv.1 <> k) l.

#[global] Arguments al_remove : simpl never.

Lemma al_remove_cons k k' v l :
  al_remove k ((k', v) :: l) =
    if decide (k' = k) then al_remove k l else (k', v) :: al_remove k l.
Proof. unfold al_remove. rewrite filter_cons. cbn. by repeat case_decide. Qed.

Lemma al_get_remove k k' l :
  al_get k (al_remove k' l) = if decide (k = k') then None else al_get k l.
Proof.
  induction l as [|[k0 v0] l IH]; [by case_decide|].
  rewrite al_remove_cons. cbn.
  repeat case_decide; cbn; simplify_eq/=; repeat case_decide; by simplify_eq/=.
Qed.

Lemma al_get_elem k v l : al_get k l = Some v -> (k, v) ∈ l.
Proof.
  induction l as [|[k0 v0] l IH]; cbn; [done|].
  case_decide; intros; simplify_eq; [left | right; auto].
Qed.

Lemma al_remove_length k l : (length (al_remove k l) <= length l)%nat.
Proof. apply length_filter. Qed.

Lemma al_remove_fmap_fst k (l : list (K * V)) k' :
  k' ∈ (al_remove k l).*1 <-> k' <> k /\ k' ∈ l.*1.
Proof.
  rewrite !list_elem_of_fmap. setoid_rewrite list_elem_of_filter. naive_solver.
Qed.

Lemma al_remove_NoDup k (l : list (K * V)) : NoDup l.*1 -> NoDup (al_remove k l).*1.
Proof.
  induction l as [|[k0 v0] l IH]; [done|]. rewrite fmap_cons, NoDup_cons. intros [Hn Hl].
  rewrite al_remove_cons. case_decide; [by auto|].
  rewrite fmap_cons, NoDup_cons. split; [|by auto].
  cbn. by intros (_ & ?)%(al_remove_fmap_fst k).
Qed.

End AssocList.

Class LruLib := {
  lru : Type -> Type -> Type;
  lru_new {K V} : nat -> lru K V;
  lru_cap {K V} : lru K V -> nat;
  lru_items {K V} : lru K V -> list (K * V);
  (** [get], [put] and [pop]: the result with the cache it leaves. *)
  lru_get {K V} `{!EqDecision K} : K -> lru K V -> option V * lru K V;
  lru_put {K V} `{!EqDecision K} : K -> V -> lru K V -> lru K V;
  lru_pop {K V} `{!EqDecision K} : K -> lru K V -> option V * lru K V;

  lru_new_items {K V} cap : lru_items (@lru_new K V cap) = [];
  lru_new_cap {K V} cap : lru_cap (@lru_new K V cap) = cap;
  lru_get_result {K V} `{!EqDecision K} k (c : lru K V) :
    (lru_get k c).1 = al_get k (lru_items c);
  lru_get_items {K V} `{!EqDecision K} k (c : lru K V) :
    lru_items (lru_get k c).2 =
      match al_get k (lru_items c) with
      | Some v => (k, v) :: al_remove k (lru_items c)
      | None => lru_items c
      end;
  lru_get_cap {K V} `{!EqDecision K} k (c : lru K V) : lru_cap (lru_get k c).2 = lru_cap c;
  lru_put_items {K V} `{!EqDecision K} k v (c : lru K V) :
    lru_items (lru_put k v c) = take (lru_cap c) ((k, v) :: al_remove k (lru_items c));
  lru_put_cap {K V} `{!EqDecision K} k v (c : lru K V) : lru_cap (lru_put k v c) = lru_cap c;
  lru_pop_result {K V} `{!EqDecision K} k (c : lru K V) :
    (lru_pop k c).1 = al_get k (lru_items c);
  lru_pop_items {K V} `{!EqDecision K} k (c : lru K V) :
    lru_items (lru_pop k c).2 = al_remove k (lru_items c);
  lru_pop_cap {K V} `{!EqDecision K} k (c : lru K V) : lru_cap (lru_pop k c).2 = lru_cap c;
}.
#[export] Hint Rewrite @lru_new_items @lru_new_cap @lru_get_result @lru_get_items @lru_get_cap
  @lru_put_items @lru_put_cap @lru_pop_result @lru_pop_items @lru_pop_cap : lru.

(** What the crate keeps true: distinct keys, at most [cap] entries. *)
Definition lru_wf `{LruLib} {K V} (c : lru K V) : Prop :=
  NoDup (lru_items c).*1 /\ (length (lru_items c) <= lru_cap c)%nat.

Section LruFacts.
Context `{LruLib} {K V : Type} `{!EqDecision K}.
Implicit Types (c : lru K V).

Lemma lru_new_wf cap : lru_wf (lru_new (K := K) (V := V) cap).
Proof. unfold lru_wf. autorewrite with lru. cbn. split; [constructor | lia]. Qed.

Lemma lru_get_Some_length k v (l : list (K * V)) :
  al_get k l = Some v -> (length ((k, v) :: al_remove k l) <= length l)%nat.
Proof.
  induction l as [|[k0 v0] l IH]; [done|]. rewrite al_remove_cons. cbn.
  repeat case_decide; simplify_eq; intros Hk; cbn in *.
  - pose proof (al_remove_length k l). lia.
  - apply IH in Hk. lia.
Qed.

Lemma lru_get_wf k c : lru_wf c -> lru_wf (lru_get k c).2.
Proof.
  unfold lru_wf. autorewrite with lru. intros [Hn Hl].
  destruct (al_get k (lru_items c)) eqn:E; [|done]. split.
  - cbn. rewrite NoDup_cons. split; [by intros []%al_remove_fmap_fst | by apply al_remove_NoDup].
  - etrans; [by apply lru_get_Some_length | done].
Qed.

Lemma lru_put_wf k v c : lru_wf c -> lru_wf (lru_put k v c).
Proof.
  unfold lru_wf. autorewrite with lru. intros [Hn Hl]. split.
  - rewrite fmap_take. apply (sublist_NoDup _ (((k, v) :: al_remove k (lru_items c)).*1)).
    + cbn. rewrite NoDup_cons. split; [by intros []%al_remove_fmap_fst | by apply al_remove_NoDup].
    + apply sublist_take.
  - rewrite length_take. lia.
Qed.

Lemma lru_pop_wf k c : lru_wf c -> lru_wf (lru_pop k c).2.
Proof.
  unfold lru_wf. autorewrite with lru. intros [Hn Hl].
  split; [by apply al_remove_NoDup|]. pose proof (al_remove_length k (lru_items c)). lia.
Qed.

End LruFacts.

(** ** sha2, hex and the byte views of a uuid *)

Class CryptoLib := {
  sha256 : string -> string;
  hex_encode : string -> string;
  sha256_length s : String.length (sha256 s) = 32%nat;
}.

(** [hex::decode], which accepts what [hex::encode] writes. *)
Class HexLib `{CryptoLib} := {
  hex_decode : string -> option string;
  hex_decode_encode s : hex_decode (hex_encode s) = Some s;
}.

Class UuidBytes `{UuidLib} := {
  (** [as_bytes], [into_bytes] and [from_bytes]: 16 bytes *)
  uuid_bytes : uuid -> string;
  uuid_from_bytes : string -> uuid;
}.

(** One byte of a buffer. *)
Definition set_byte (n : nat) (f : Z -> Z) (s : string) : string :=
  string_of_list_ascii
    (alter (fun c => ascii_of_nat (Z.to_nat (f (byte_of c)))) n (list_ascii_of_string s)).

(** ** chrono: [DateTime::from_timestamp], an instant in nanoseconds *)

Class ChronoLib := {
  from_timestamp : Z -> Z -> option Z;
}.

(** ** Concrete instances, for witnesses *)

Module Demo.

(** A toy uuid: the letter [u] and a name. *)
Definition demo_uuid_parse (s : string) : option string :=
  match s with String "u" r => Some r | _ => None end.

#[export] Instance demo_uuid : UuidLib.
Proof.
  refine {| uuid := string; uuid_parse := demo_uuid_parse;
            uuid_str := String "u"; uuid_nil := EmptyString |}.
  reflexivity.
Defined.

(** A toy digest: the first 32 bytes, padded. *)
Definition pad32 (s : string) : string := String.substring 0 32 (s +:+ "00000000000000000000000000000000").

Lemma substring_length n s : (n <= String.length s)%nat -> String.length (String.substring 0 n s) = n.
Proof.
  revert s; induction n as [|n IH]; intros [|c s]; cbn; intros Hn; try lia.
  rewrite IH; lia.
Qed.

Lemma string_length_app s s' : String.length (s +:+ s') = (String.length s + String.length s')%nat.
Proof. induction s as [|c s IH]; [done|]. exact (f_equal S IH). Qed.

#[export] Instance demo_crypto : CryptoLib.
Proof.
  refine {| sha256 := pad32; hex_encode := fun s => s |}.
  intros s. apply substring_length. rewrite string_length_app. cbn. lia.
Defined.

#[export] Instance demo_hex : HexLib := {| hex_decode := Some; hex_decode_encode := fun s => eq_refl |}.

#[export] Instance demo_uuid_bytes : UuidBytes (H := demo_uuid) :=
  Build_UuidBytes demo_uuid (fun u => u) (fun s => s).

#[export] Instance demo_chrono : ChronoLib :=
  {| from_timestamp := fun s n => if is_i64 s then Some (secs s + n) else None |}.

#[export] Instance demo_bigint : BigIntLib :=
  {| bigint_parse := parse_signed; bigint_str := z_str;
     bigint_parse_str := parse_signed_z_str |}.

Definition demo_lru_get {K V} `{!EqDecision K} (k : K) (c : nat * list (K * V))
    : option V * (nat * list (K * V)) :=
  match al_get k c.2 with
  | Some v => (Some v, (c.1, (k, v) :: al_remove k c.2))
  | None => (None, c)
  end.

#[export] Instance demo_lru : LruLib.
Proof.
  refine {| lru K V := (nat * list (K * V))%type;
            lru_new K V cap := (cap, []);
            lru_cap K V c := c.1;
            lru_items K V c := c.2;
            lru_get K V _ k c := demo_lru_get k c;
            lru_put K V _ k v c := (c.1, take c.1 ((k, v) :: al_remove k c.2));
            lru_pop K V _ k c := (al_get k c.2, (c.1, al_remove k c.2)) |}; try done.
  all: intros; unfold demo_lru_get; by destruct (al_get k c.2).
Defined.

End Demo.
