(* ===== verification/Effects.v ===== *)
(** * Handlers as programs over effects

    The sidecar's handlers are asynchronous: between two awaits, and between
    two acquisitions of a lock, any other handler may run. A handler is a tree
    of effects ([prog]): an effect is one atomic step - one section under a lock,
    one remote call, one reading of the clock - and the tree continues with
    whatever answer the step gives. [exec p t r] says that [p] runs with the
    trace [t] of effects and answers to the result [r]; it leaves every answer
    open, so a property of all executions holds under every interleaving with
    other handlers and for every behaviour of the remote services. [prefix] is
    the same for unfinished runs, [run] executes a program against an oracle,
    and [pool] interleaves a set of programs over a shared state. *)

From S2P Require Import Prelude.

Section Prog.
Context {E : Type -> Type}.

(** [Vis e k]: perform [e], continue with its answer. *)
Inductive prog (R : Type) : Type :=
  | Ret (r : R)
  | Vis {X : Type} (e : E X) (k : X -> prog R).
Arguments Ret {R} r.
Arguments Vis {R X} e k.

Inductive event :=
  | Ev {X : Type} (e : E X) (x : X).

Fixpoint pbind {A B} (p : prog A) (f : A -> prog B) : prog B :=
  match p with
  | Ret a => f a
  | Vis e k => Vis e (fun x => pbind (k x) f)
  end.

Fixpoint exec {R} (p : prog R) (t : list event) (r : R) : Prop :=
  match p with
  | Ret r' => t = [] /\ r = r'
  | Vis e k => exists x t', t = Ev e x :: t' /\ exec (k x) t' r
  end.

Fixpoint prefix {R} (p : prog R) (t : list event) : Prop :=
  t = [] \/
  match p with
  | Ret _ => False
  | Vis e k => exists x t', t = Ev e x :: t' /\ prefix (k x) t'
  end.

Lemma exec_pbind {A B} (p : prog A) (f : A -> prog B) t r :
  exec (pbind p f) t r <-> exists t1 t2 a, t = t1 ++ t2 /\ exec p t1 a /\ exec (f a) t2 r.
Proof.
  revert t; induction p as [a|X e k IH]; intros t; cbn.
  - split; [intros H; by exists [], t, a|]. by intros (? & ? & ? & -> & [-> ->] & H).
  - split.
    + intros (x & t' & -> & (t1 & t2 & a & -> & H1 & H2)%IH).
      exists (Ev e x :: t1), t2, a. split; [done|]. eauto.
    + intros (? & t2 & a & -> & (x & t1 & -> & H1) & H2). exists x, (t1 ++ t2). split; [done|].
      apply IH. by exists t1, t2, a.
Qed.

Lemma prefix_nil {R} (p : prog R) : prefix p [].
Proof. destruct p; by left. Qed.

Lemma exec_prefix {R} (p : prog R) t r : exec p t r -> prefix p t.
Proof.
  revert t; induction p as [a|X e k IH]; intros t; cbn.
  - intros [-> _]. by left.
  - intros (x & t' & -> & H). right. eauto.
Qed.

Lemma prefix_pbind {A B} (p : prog A) (f : A -> prog B) t :
  prefix (pbind p f) t <->
  prefix p t \/ exists t1 t2 a, t = t1 ++ t2 /\ exec p t1 a /\ prefix (f a) t2.
Proof.
  revert t; induction p as [a|X e k IH]; intros t; cbn.
  - split.
    + intros H. right. by exists [], t, a.
    + intros [[->|[]]|(? & ? & ? & -> & [-> ->] & H)]; [apply prefix_nil|done].
  - split.
    + intros [->|(x & t' & -> & [H|(t1 & t2 & a & -> & H1 & H2)]%IH)]; [by left; left|left; eauto|].
      right. exists (Ev e x :: t1), t2, a. split; [done|]. eauto 6.
    + intros [[->|(x & t' & -> & H)]|(? & t2 & a & -> & (x & t1 & -> & H1) & H2)].
      * by left.
      * right. exists x, t'. rewrite IH. auto.
      * right. exists x, (t1 ++ t2). rewrite IH. split; [done|]. right. by exists t1, t2, a.
Qed.

(** Executing against an oracle. *)
Fixpoint run {R} (answer : forall X, E X -> X) (p : prog R) : list event * R :=
  match p with
  | Ret r => ([], r)
  | Vis e k => let x := answer _ e in
               let '(t, r) := run answer (k x) in (Ev e x :: t, r)
  end.

Lemma run_exec {R} answer (p : prog R) : exec p (run answer p).1 (run answer p).2.
Proof.
  induction p as [a|X e k IH]; cbn; [done|].
  specialize (IH (answer X e)). destruct (run answer (k (answer X e))); cbn in *. eauto.
Qed.

(** Every effect the program may perform satisfies [P]. *)
Fixpoint all_effects {R} (P : forall X, E X -> Prop) (p : prog R) : Prop :=
  match p with
  | Ret _ => True
  | Vis e k => P _ e /\ forall x, all_effects P (k x)
  end.

Definition ev_sat (P : forall X, E X -> Prop) (ev : event) : Prop :=
  match ev with Ev e _ => P _ e end.

Lemma all_effects_prefix {R} P (p : prog R) t : all_effects P p -> prefix p t -> Forall (ev_sat P) t.
Proof.
  revert t; induction p as [a|X e k IH]; intros t; cbn.
  - intros _ [->|[]]. done.
  - intros [He Hk] [->|(x & t' & -> & H)]; [done|]. constructor; [done|]. by eapply IH.
Qed.

Lemma all_effects_exec {R} P (p : prog R) t r : all_effects P p -> exec p t r -> Forall (ev_sat P) t.
Proof. intros HP H%exec_prefix. by eapply all_effects_prefix. Qed.

Lemma all_effects_weaken {R} (P Q : forall X, E X -> Prop) (p : prog R) :
  (forall X e, P X e -> Q X e) -> all_effects P p -> all_effects Q p.
Proof. intros HPQ. induction p as [a|X e k IH]; cbn; [done|]. intros [He Hk]. eauto. Qed.

Lemma all_effects_pbind {A B} P (p : prog A) (f : A -> prog B) :
  all_effects P p -> (forall a, all_effects P (f a)) -> all_effects P (pbind p f).
Proof. induction p as [a|X e k IH]; cbn; [auto|]. intros [He Hk] Hf. eauto. Qed.

(** [G] holds of every effect performed, given the effects before it: a
    property of all prefixes, checked by running the program symbolically. *)
Fixpoint upholds {R} (G : list event -> event -> Prop) (h : list event) (p : prog R) : Prop :=
  match p with
  | Ret _ => True
  | Vis e k => forall x, G h (Ev e x) /\ upholds G (h ++ [Ev e x]) (k x)
  end.

Lemma upholds_prefix {R} G h (p : prog R) t1 ev t2 :
  upholds G h p -> prefix p (t1 ++ ev :: t2) -> G (h ++ t1) ev.
Proof.
  revert h t1; induction p as [a|X e k IH]; intros h t1; cbn.
  - intros _ [Ht|[]]. by destruct t1.
  - intros Hk [Ht|(x & t' & Ht & Hp)]; [by destruct t1|]. destruct (Hk x) as [HG Hk'].
    destruct t1 as [|ev' t1]; injection Ht as -> Ht; [by rewrite app_nil_r|].
    rewrite <- Ht in Hp. apply (IH x _ _ Hk') in Hp. by rewrite <- app_assoc in Hp.
Qed.

Lemma upholds_weaken {R} (G G' : list event -> event -> Prop) h (p : prog R) :
  (forall h ev, G h ev -> G' h ev) -> upholds G h p -> upholds G' h p.
Proof.
  intros HG. revert h; induction p as [a|X e k IH]; intros h; cbn; [done|].
  intros Hk x. destruct (Hk x). eauto.
Qed.

Lemma upholds_pbind {A B} G h (p : prog A) (f : A -> prog B) :
  upholds G h p -> (forall t a, exec p t a -> upholds G (h ++ t) (f a)) -> upholds G h (pbind p f).
Proof.
  revert h; induction p as [a|X e k IH]; intros h; cbn.
  - intros _ Hf. rewrite <- (app_nil_r h). by apply Hf.
  - intros Hk Hf x. destruct (Hk x) as [HG Hk']. split; [done|]. apply IH; [done|].
    intros t a Ht. rewrite <- app_assoc. apply Hf. eauto.
Qed.

Lemma upholds_all {R} (P : forall X, E X -> Prop) (G : list event -> event -> Prop) (p : prog R) h :
  (forall h X e x, P X e -> G h (Ev e x)) -> all_effects P p -> upholds G h p.
Proof.
  intros HPG. revert h; induction p as [a|X e k IH]; intros h; cbn; [done|].
  intros [He Hk] x. split; [by apply HPG|]. by apply IH.
Qed.

(** ** Handlers that may fail *)

Context {D : Type}.

Definition M (A : Type) : Type := prog (result D A).

#[global] Instance M_ret : MRet M := fun A a => Ret (Ok a).
#[global] Instance M_bind : MBind M := fun A B f m =>
  pbind m (fun r => match r with Ok a => f a | Err e => Ret (Err e) end).

(** A pure step that may fail. *)
Definition lift {A} (r : result D A) : M A := Ret r.
Definition fail {A} (e : D) : M A := Ret (Err e).
(** An effect that cannot fail. *)
Definition act {A} (e : E A) : M A := Vis e (fun x => Ret (Ok x)).
(** A call that returns a [result]. *)
Definition call {A} (e : E (result D A)) : M A := Vis e (fun x => Ret x).
(** The result of [m] as a value, [Result::ok] and friends. *)
Definition attempt {A} (m : M A) : M (result D A) := pbind m (fun r => Ret (Ok r)).

Lemma exec_bind {A B} (m : M A) (f : A -> M B) t r :
  exec (m ≫= f) t r <->
  (exists t1 t2 a, t = t1 ++ t2 /\ exec m t1 (Ok a) /\ exec (f a) t2 r) \/
  (exists e, r = Err e /\ exec m t (Err e)).
Proof.
  unfold mbind, M_bind. rewrite exec_pbind. split.
  - intros (t1 & t2 & [a|e] & -> & H1 & H2); [left; eauto 10|].
    right. destruct H2 as [-> ->]. exists e. by rewrite app_nil_r.
  - intros [(t1 & t2 & a & -> & H1 & H2)|(e & -> & H)]; [exists t1, t2, (Ok a); eauto|].
    exists t, [], (Err e). rewrite app_nil_r. done.
Qed.

Lemma exec_bind_ok {A B} (m : M A) (f : A -> M B) t b :
  exec (m ≫= f) t (Ok b) <->
  exists t1 t2 a, t = t1 ++ t2 /\ exec m t1 (Ok a) /\ exec (f a) t2 (Ok b).
Proof. rewrite exec_bind. naive_solver. Qed.

Lemma exec_lift {A} (x : result D A) t r : exec (lift x) t r <-> t = [] /\ r = x.
Proof. done. Qed.
Lemma exec_ret {A} (a : A) t r : exec (mret a : M A) t r <-> t = [] /\ r = Ok a.
Proof. done. Qed.
Lemma exec_act {A} (e : E A) t r : exec (act e) t r <-> exists x, t = [Ev e x] /\ r = Ok x.
Proof. cbn. split; [intros (x & t' & -> & -> & ->); eauto|]. intros (x & -> & ->). eauto. Qed.
Lemma exec_call {A} (e : E (result D A)) t r : exec (call e) t r <-> t = [Ev e r].
Proof. cbn. split; [intros (x & t' & -> & -> & ->); eauto|]. intros ->. eauto. Qed.
Lemma exec_attempt {A} (m : M A) t r : exec (attempt m) t r <-> exists x, r = Ok x /\ exec m t x.
Proof.
  unfold attempt. rewrite exec_pbind. split.
  - intros (t1 & t2 & x & -> & H & -> & ->). rewrite app_nil_r. eauto.
  - intros (x & -> & H). exists t, [], x. rewrite app_nil_r. done.
Qed.

Lemma prefix_bind {A B} (m : M A) (f : A -> M B) t :
  prefix (m ≫= f) t <->
  prefix m t \/ exists t1 t2 a, t = t1 ++ t2 /\ exec m t1 (Ok a) /\ prefix (f a) t2.
Proof.
  unfold mbind, M_bind. rewrite prefix_pbind. split.
  - intros [H|(t1 & t2 & [a|e] & -> & H1 & H2)]; [by left|eauto 10|].
    left. destruct H2 as [->|[]]. rewrite app_nil_r. by eapply exec_prefix.
  - intros [H|(t1 & t2 & a & -> & H1 & H2)]; [by left|]. right. exists t1, t2, (Ok a). done.
Qed.

Lemma all_effects_bind {A B} P (m : M A) (f : A -> M B) :
  all_effects P m -> (forall a, all_effects P (f a)) -> all_effects P (m ≫= f).
Proof. intros Hm Hf. apply all_effects_pbind; [done|]. intros [a|e]; cbn; auto. Qed.

Lemma upholds_bind {A B} G h (m : M A) (f : A -> M B) :
  upholds G h m -> (forall t a, exec m t (Ok a) -> upholds G (h ++ t) (f a)) -> upholds G h (m ≫= f).
Proof. intros Hm Hf. apply upholds_pbind; [done|]. intros t [a|e] Ht; cbn; auto. Qed.

Lemma prefix_lift {A} (x : result D A) t : prefix (lift x) t <-> t = [].
Proof. cbn. naive_solver. Qed.
Lemma prefix_ret {A} (a : A) t : prefix (mret a : M A) t <-> t = [].
Proof. cbn. naive_solver. Qed.

(** ** A pool of handlers over a shared state

    [handle e s x s']: the effect [e] in state [s] may answer [x] and leave
    [s']. A step lets one handler perform its next effect, or lets the
    environment change the state by [other]. *)
Context {S R : Type} (handle : forall X, E X -> S -> X -> S -> Prop) (other : S -> S -> Prop).

Inductive pool_step : S * list (prog R) -> list (nat * event) -> S * list (prog R) -> Prop :=
  | pool_thread s ps i X (e : E X) k x s' :
      ps !! i = Some (Vis e k) -> handle X e s x s' ->
      pool_step (s, ps) [(i, Ev e x)] (s', <[i := k x]> ps)
  | pool_other s ps s' : other s s' -> pool_step (s, ps) [] (s', ps).

Inductive pool_run (c : S * list (prog R)) : list (nat * event) -> S * list (prog R) -> Prop :=
  | pool_nil : pool_run c [] c
  | pool_snoc log c1 l c2 : pool_run c log c1 -> pool_step c1 l c2 -> pool_run c (log ++ l) c2.

Lemma pool_cons c l c1 log c2 : pool_step c l c1 -> pool_run c1 log c2 -> pool_run c (l ++ log) c2.
Proof.
  intros Hs H. induction H as [|log c2 l' c3 Hrun IH Hstep].
  - rewrite app_nil_r. rewrite <- (app_nil_l l). econstructor; [constructor|done].
  - rewrite app_assoc. by econstructor.
Qed.

Lemma pool_app c log c1 log' c2 : pool_run c log c1 -> pool_run c1 log' c2 -> pool_run c (log ++ log') c2.
Proof.
  intros H H'. induction H' as [|log' c2 l c3 _ IH Hstep]; [by rewrite app_nil_r|].
  rewrite app_assoc. by econstructor.
Qed.

(** One handler alone, whose effects leave the state as it is. *)
Lemma pool_exec s p t r :
  exec p t r -> Forall (fun ev => match ev with Ev e x => handle _ e s x s end) t ->
  pool_run (s, [p]) (pair 0%nat <$> t) (s, [Ret r]).
Proof.
  intros Hx Hs. revert p Hx; induction Hs as [|ev t He Hs IH]; intros p.
  - destruct p; [|by intros (? & ? & ? & _)]. intros [_ ->]. constructor.
  - destruct p as [|X e' k]; [by intros [? _]|]. intros (x & t' & [= -> ->] & Hk). eapply (pool_cons _ [_]); [|by apply IH].
    by apply (pool_thread s [Vis e' k] 0%nat).
Qed.

(** Running a schedule, with an executable meaning [step] of the effects. *)
Fixpoint schedule (step : forall X, E X -> S -> X * S) (order : list nat) (c : S * list (prog R))
    : list (nat * event) * (S * list (prog R)) :=
  match order with
  | [] => ([], c)
  | i :: order =>
      match c.2 !! i with
      | Some (Vis e k) =>
          let r := step _ e c.1 in
          let rest := schedule step order (r.2, <[i := k r.1]> c.2) in
          ((i, Ev e r.1) :: rest.1, rest.2)
      | _ => schedule step order c
      end
  end.

Lemma schedule_run step order c :
  (forall X (e : E X) s, handle X e s (step X e s).1 (step X e s).2) ->
  pool_run c (schedule step order c).1 (schedule step order c).2.
Proof.
  intros Hstep. revert c; induction order as [|i order IH]; intros c; cbn; [constructor|].
  destruct (c.2 !! i) as [[|X e k]|] eqn:Hi; [apply IH| |apply IH].
  eapply (pool_cons _ [_]); [|apply IH]. destruct c as [s ps]. by apply pool_thread.
Qed.

(** The events of one handler. *)
Definition of_thread (i : nat) (log : list (nat * event)) : list event :=
  (filter (fun x => x.1 = i) log).*2.

(** [p] has run with the trace [t] to [p']. *)
Fixpoint reaches (p : prog R) (t : list event) (p' : prog R) {struct t} : Prop :=
  match t with
  | [] => p' = p
  | ev :: t => match p with
               | Ret _ => False
               | Vis e k => exists x, ev = Ev e x /\ reaches (k x) t p'
               end
  end.

Lemma reaches_snoc p t X (e : E X) k x :
  reaches p t (Vis e k) -> reaches p (t ++ [Ev e x]) (k x).
Proof.
  revert p; induction t as [|ev t IH]; intros p; cbn.
  - intros <-. eauto.
  - destruct p; [done|]. intros (y & -> & H). eauto.
Qed.

Lemma reaches_prefix p t p' : reaches p t p' -> prefix p t.
Proof.
  revert p; induction t as [|ev t IH]; intros p; [intros _; apply prefix_nil|].
  destruct p; cbn; [done|]. intros (y & -> & H). right. eauto.
Qed.

Lemma reaches_exec p t r : reaches p t (Ret r) -> exec p t r.
Proof.
  revert p; induction t as [|ev t IH]; intros p; cbn; [by intros <-|].
  destruct p; [done|]. intros (y & -> & H). cbn. eauto.
Qed.

Lemma of_thread_app i l1 l2 : of_thread i (l1 ++ l2) = of_thread i l1 ++ of_thread i l2.
Proof. unfold of_thread. by rewrite filter_app, fmap_app. Qed.

(** Every handler of the pool has run its own program. *)
Lemma pool_reaches s ps log s' ps' :
  pool_run (s, ps) log (s', ps') ->
  length ps' = length ps /\
  forall i p, ps !! i = Some p -> exists p', ps' !! i = Some p' /\ reaches p (of_thread i log) p'.
Proof.
  remember (s, ps) as c eqn:Hc. remember (s', ps') as c' eqn:Hc'. intros H. revert s' ps' Hc'.
  induction H as [|log c1 l c2 Hrun IH Hstep]; intros s' ps' Hc'.
  - rewrite Hc in Hc'. simplify_eq. split; [done|]. intros i p Hp. by exists p.
  - subst c.
    inversion Hstep as [s1 ps1 j X e k x s2 Hj Hh|s1 ps1 s2 Ho]; subst; simplify_eq;
      destruct (IH _ _ eq_refl) as [Hlen Hps].
    + split; [by rewrite length_insert|]. intros i p Hp.
      destruct (Hps i p Hp) as (p' & Hp' & Hr). rewrite of_thread_app. unfold of_thread at 2.
      rewrite filter_cons, filter_nil. cbn. destruct (decide (j = i)) as [->|Hne]; cbn.
      * exists (k x). rewrite list_lookup_insert_eq by (by eapply lookup_lt_Some).
        split; [done|]. apply reaches_snoc. rewrite Hp' in Hj. by simplify_eq.
      * exists p'. by rewrite list_lookup_insert_ne, app_nil_r.
    + split; [done|]. intros i p Hp. rewrite app_nil_r. eauto.
Qed.

Lemma elem_of_thread i (log : list (nat * event)) ev : ev ∈ of_thread i log <-> (i, ev) ∈ log.
Proof.
  unfold of_thread. rewrite list_elem_of_fmap. setoid_rewrite list_elem_of_filter. split.
  - intros ([j e] & -> & [Hj Hin]). cbn in *. by subst.
  - intros Hin. by exists (i, ev).
Qed.

(** Only handlers of the pool perform effects. *)
Lemma pool_range c log c' i ev :
  pool_run c log c' -> (i, ev) ∈ log -> is_Some (c.2 !! i).
Proof.
  intros H. assert (Hlen : length c'.2 = length c.2 /\ forall i ev, (i, ev) ∈ log -> is_Some (c.2 !! i));
    [|by apply Hlen].
  induction H as [|log c1 l c2 Hrun [IHl IH] Hstep]; [split; [done|set_solver]|].
  destruct Hstep as [s ps j X e k x s' Hj Hh|s ps s' Ho]; cbn in *.
  - rewrite length_insert. split; [done|]. intros i' ev' [Hin|[= -> _]%list_elem_of_singleton]%elem_of_app; [eauto|].
    apply lookup_lt_is_Some. rewrite <- IHl. by eapply lookup_lt_Some.
  - split; [done|]. intros i' ev' Hin. rewrite app_nil_r in Hin. eauto.
Qed.

(** Values drawn without repetition in a log differ between handlers. *)
Lemma threads_disjoint {A} (f : event -> option A) log i j a :
  NoDup (omap f log.*2) -> a ∈ omap f (of_thread i log) -> a ∈ omap f (of_thread j log) -> i = j.
Proof.
  setoid_rewrite list_elem_of_omap. setoid_rewrite elem_of_thread.
  intros Hn (ev & Hi & Ha) (ev' & Hj & Ha').
  induction log as [|[k e] log IH]; [by apply not_elem_of_nil in Hi|].
  assert (Hrest : forall k' e', (k', e') ∈ log -> f e' = Some a -> a ∈ omap f log.*2).
  { intros k' e' Hin Hf. apply list_elem_of_omap. exists e'. split; [|done].
    apply list_elem_of_fmap. by exists (k', e'). }
  cbn in Hn. rewrite !elem_of_cons in *. destruct Hi as [[= -> ->]|Hi], Hj as [[= -> ->]|Hj]; [done|..].
  - rewrite Ha in Hn. apply NoDup_cons in Hn as [Hn _]. exfalso. eauto.
  - rewrite Ha' in Hn. apply NoDup_cons in Hn as [Hn _]. exfalso. eauto.
  - destruct (f e); [apply NoDup_cons in Hn as [_ Hn]|]; auto.
Qed.

End Prog.

Arguments prog : clear implicits.
Arguments event : clear implicits.
Arguments M : clear implicits.
Arguments Ret {E R} r.
Arguments Vis {E R X} e k.
Arguments Ev {E X} e x.

(** ** Rely and guarantee

    A handler of a pool, started in [s], may assume that the others and the
    environment change the state only by [rely], and that the invariant [Inv]
    holds whenever it runs; [follows] says that each of its effects then keeps
    [Inv] and changes the state only by [guar], and that it ends in [Q]. *)
Section RelyGuarantee.
Context {E : Type -> Type} {S : Type}.
Context (handle : forall X, E X -> S -> X -> S -> Prop) (Inv : S -> Prop).

Fixpoint follows {R} (rely guar : S -> S -> Prop) (Q : R -> S -> Prop) (p : prog E R) (s : S) : Prop :=
  match p with
  | Ret r => Q r s
  | Vis e k => forall s1 x s2, rely s s1 -> Inv s1 -> handle _ e s1 x s2 ->
                 guar s1 s2 /\ Inv s2 /\ follows rely guar Q (k x) s2
  end.

Lemma follows_pbind {A B} rely guar (Q : B -> S -> Prop) (p : prog E A) (f : A -> prog E B) s :
  follows rely guar (fun a s' => follows rely guar Q (f a) s') p s ->
  follows rely guar Q (pbind p f) s.
Proof.
  revert s; induction p as [a|X e k IH]; intros s; cbn; [done|].
  intros Hk s1 x s2 Hr HI Hh. destruct (Hk s1 x s2 Hr HI Hh) as (Hg & HI' & Hf). auto.
Qed.

Lemma follows_weaken {R} rely guar (Q Q' : R -> S -> Prop) (p : prog E R) s :
  (forall r s', Q r s' -> Q' r s') -> follows rely guar Q p s -> follows rely guar Q' p s.
Proof.
  intros HQ. revert s; induction p as [a|X e k IH]; intros s; cbn; [apply HQ|].
  intros Hk s1 x s2 Hr HI Hh. destruct (Hk s1 x s2 Hr HI Hh) as (Hg & HI' & Hf). auto.
Qed.

(** What a handler may still do is not affected by what it relies on. *)
Lemma follows_stable {R} rely guar `{!PreOrder rely} (Q : R -> S -> Prop) (p : prog E R) s s' :
  (forall r s1 s2, rely s1 s2 -> Q r s1 -> Q r s2) ->
  rely s s' -> follows rely guar Q p s -> follows rely guar Q p s'.
Proof.
  intros HQ Hr. destruct p as [a|X e k]; cbn; [by apply HQ|]. intros Hk s1 x s2 Hr' HI Hh.
  apply (Hk s1 x s2); [by etrans|done|done].
Qed.

(** What no one undoes still holds at the end. *)
Lemma follows_keep {R} rely guar (P : S -> Prop) (Q : R -> S -> Prop) (p : prog E R) s :
  (forall s1 s2, rely s1 s2 \/ guar s1 s2 -> P s1 -> P s2) -> P s ->
  follows rely guar Q p s -> follows rely guar (fun r s' => P s' /\ Q r s') p s.
Proof.
  intros HP. revert s; induction p as [r|X e k IH]; intros s Hs; cbn; [done|].
  intros Hk s1 x s2 Hr HI Hh. destruct (Hk s1 x s2 Hr HI Hh) as (Hg & HI' & Hf).
  split; [done|]. split; [done|]. apply IH; [|done]. eauto.
Qed.

(** A pool whose handlers respect each other keeps the invariant. *)
Lemma pool_follows {R} (other : S -> S -> Prop) (rely guar : nat -> S -> S -> Prop)
    (Q : nat -> R -> S -> Prop) (s : S) (ps : list (prog E R)) log s' ps' :
  (forall i, PreOrder (rely i)) -> (forall i r s1 s2, rely i s1 s2 -> Q i r s1 -> Q i r s2) ->
  (forall i j s1 s2, is_Some (ps !! i) -> is_Some (ps !! j) -> i <> j -> guar i s1 s2 -> rely j s1 s2) ->
  (forall s1 s2, Inv s1 -> other s1 s2 -> Inv s2 /\ forall i, rely i s1 s2) ->
  Inv s -> (forall i p, ps !! i = Some p -> follows (rely i) (guar i) (Q i) p s) ->
  pool_run handle other (s, ps) log (s', ps') ->
  Inv s' /\ length ps' = length ps /\
  forall i p, ps' !! i = Some p -> follows (rely i) (guar i) (Q i) p s'.
Proof.
  intros Hpre HQ Hcompat Hother HI Hps Hrun.
  remember (s, ps) as c eqn:Hc. remember (s', ps') as c' eqn:Hc'. revert s' ps' Hc'.
  induction Hrun as [|log c1 l c2 Hrun IH Hstep]; intros s' ps' Hc'.
  { rewrite Hc in Hc'. by simplify_eq. }
  subst c. inversion Hstep as [s1 ps1 j X e k x s2 Hj Hh|s1 ps1 s2 Ho]; subst; simplify_eq;
    destruct (IH _ _ eq_refl) as (HI1 & Hlen & Hps1).
  - pose proof (Hps1 j _ Hj) as Hf. cbn in Hf.
    destruct (Hf s1 x s') as (Hg & HI2 & Hk); [reflexivity|done|done|].
    split; [done|]. rewrite length_insert. split; [done|]. intros i p.
    assert (Hin : forall i q, ps1 !! i = Some q -> is_Some (ps !! i)).
    { intros i' q Hi'. apply lookup_lt_is_Some. rewrite <- Hlen. by eapply lookup_lt_Some. }
    rewrite list_lookup_insert_Some. intros [(<- & <- & _)|[Hne Hi]]; [done|].
    apply (follows_stable _ _ _ _ s1); [by apply HQ| |by apply Hps1]. apply (Hcompat j); [by eapply Hin..|done|done].
  - destruct (Hother s1 s' HI1 Ho) as [HI2 Hr]. split; [done|]. split; [done|].
    intros i p Hi. apply (follows_stable _ _ _ _ s1); [by apply HQ|apply Hr|by apply Hps1].
Qed.

End RelyGuarantee.

(** A handler may be trusted with a smaller invariant that its steps keep. *)
Lemma follows_inv_and {E : Type -> Type} {S R : Type}
    (handle : forall X, E X -> S -> X -> S -> Prop) (Inv P : S -> Prop) rely guar
    (Q : R -> S -> Prop) (p : prog E R) s :
  (forall s1 s2, guar s1 s2 -> P s1 -> P s2) ->
  follows handle Inv rely guar Q p s ->
  follows handle (fun s => Inv s /\ P s) rely guar Q p s.
Proof.
  intros HP. revert s; induction p as [r|X e k IH]; intros s; cbn; [done|].
  intros Hk s1 x s2 Hr [HI Hs] Hh. destruct (Hk s1 x s2 Hr HI Hh) as (Hg & HI' & Hf). eauto 10.
Qed.

(** ** Programs inside larger effects

    A handler that uses another as a subroutine performs that one's effects among
    its own: [inject] names each inner effect as an outer one. *)
Section Embed.
Context {E F : Type -> Type} (inject : forall X, E X -> F X).

Fixpoint embed {R} (p : prog E R) : prog F R :=
  match p with
  | Ret r => Ret r
  | Vis e k => Vis (inject _ e) (fun x => embed (k x))
  end.

Definition inject_ev (ev : event E) : event F :=
  match ev with Ev e x => Ev (inject _ e) x end.

Lemma exec_embed {R} (p : prog E R) t r :
  exec (embed p) t r <-> exists t', t = inject_ev <$> t' /\ exec p t' r.
Proof.
  revert t; induction p as [a|X e k IH]; intros t; cbn.
  - split; [intros [-> ->]; by exists []|]. by intros (t' & -> & -> & ->).
  - split.
    + intros (x & t1 & -> & (t' & -> & H)%IH). exists (Ev e x :: t'). split; [done|]. eauto.
    + intros (t' & -> & x & t1 & -> & H). exists x, (inject_ev <$> t1). split; [done|].
      apply IH. eauto.
Qed.

Lemma prefix_embed {R} (p : prog E R) t :
  prefix (embed p) t <-> exists t', t = inject_ev <$> t' /\ prefix p t'.
Proof.
  revert t; induction p as [a|X e k IH]; intros t; cbn.
  - split; [intros [->|[]]; exists []; auto|]. intros (t' & -> & [->|[]]). by left.
  - split.
    + intros [->|(x & t1 & -> & (t' & -> & H)%IH)]; [exists []; auto|].
      exists (Ev e x :: t'). split; [done|]. eauto.
    + intros (t' & -> & [->|(x & t1 & -> & H)]); [by left|]. right.
      exists x, (inject_ev <$> t1). split; [done|]. apply IH. eauto.
Qed.

Lemma all_effects_embed {R} (P : forall X, F X -> Prop) (p : prog E R) :
  all_effects (fun X e => P X (inject X e)) p -> all_effects P (embed p).
Proof. induction p as [a|X e k IH]; cbn; [done|]. intros [He Hk]. auto. Qed.

Lemma upholds_embed {R} (G : list (event F) -> event F -> Prop) h (p : prog E R) :
  upholds (fun h' ev => G (h ++ (inject_ev <$> h')) (inject_ev ev)) [] p -> upholds G h (embed p).
Proof.
  enough (Hgen : forall h', upholds (fun h' ev => G (h ++ (inject_ev <$> h')) (inject_ev ev)) h' p ->
                 upholds G (h ++ (inject_ev <$> h')) (embed p)).
  { intros Hp. apply (Hgen []) in Hp. by rewrite app_nil_r in Hp. }
  induction p as [a|X e k IH]; intros h'; cbn; [done|].
  intros Hk x. destruct (Hk x) as [HG Hk']. split; [done|].
  apply IH in Hk'. by rewrite fmap_app, app_assoc in Hk'.
Qed.

End Embed.

(** Decides [all_effects] on a program without recursion. *)
Ltac effs :=
  repeat first
    [ progress intros
    | apply all_effects_bind
    | match goal with |- all_effects _ (match ?x with _ => _ end) => destruct x end
    | progress cbn
    | split; [done|]
    | done ].

(** Programs known to perform only harmless effects. *)
Create HintDb quiet.
