(* ===== verification/Contract.v ===== *)
(** * The contract DSL of the sidecar

    [services/sidecar/src/contract]: the contract and its rules ([types.rs]),
    the loader that turns a deserialised YAML document into a contract
    ([parse.rs]) and the hot-path evaluator that merges the rules matched by
    the claims of a decision request into one outcome ([evaluate.rs]). The
    YAML and tarball readers are third-party: a document is the [YamlContract]
    that [serde_yaml] returns. Log lines are not modelled. *)

From S2P Require Import Prelude Deps.

(** ** Types *)

(** [decision_response::Decision], the generated enum of the adapter protocol. *)
Inductive decision :=
  | Unspecified | Continue | Degrade | Skip | Stop | RequireApproval | StopRunProjection.

#[export] Instance decision_eq_dec : EqDecision decision.
Proof. solve_decision. Defined.

Inductive PredictionPolicy := StrictCeiling | EmpiricalRunCeiling | AdaptiveCeiling | ShadowOnly.

Definition policy_as_str (p : PredictionPolicy) : string :=
  match p with
  | StrictCeiling => "STRICT_CEILING"
  | EmpiricalRunCeiling => "EMPIRICAL_RUN_CEILING"
  | AdaptiveCeiling => "ADAPTIVE_CEILING"
  | ShadowOnly => "SHADOW_ONLY"
  end.

Definition policy_from_str (s : string) : option PredictionPolicy :=
  if s =?s "STRICT_CEILING" then Some StrictCeiling
  else if s =?s "EMPIRICAL_RUN_CEILING" then Some EmpiricalRunCeiling
  else if s =?s "ADAPTIVE_CEILING" then Some AdaptiveCeiling
  else if s =?s "SHADOW_ONLY" then Some ShadowOnly
  else None.

Definition policy_default : PredictionPolicy := StrictCeiling.

Inductive RunProjectionAction := BlockNextCall | ActRequireApproval | AlertOnly.

Definition action_as_str (a : RunProjectionAction) : string :=
  match a with
  | BlockNextCall => "BLOCK_NEXT_CALL"
  | ActRequireApproval => "REQUIRE_APPROVAL"
  | AlertOnly => "ALERT_ONLY"
  end.

Definition action_from_str (s : string) : option RunProjectionAction :=
  if s =?s "BLOCK_NEXT_CALL" then Some BlockNextCall
  else if s =?s "REQUIRE_APPROVAL" then Some ActRequireApproval
  else if s =?s "ALERT_ONLY" then Some AlertOnly
  else None.

Definition action_default : RunProjectionAction := BlockNextCall.

Inductive RunCode := BudgetProjectionExceeded | DriftDetected | StepsExceeded.

#[export] Instance RunCode_eq_dec : EqDecision RunCode.
Proof. solve_decision. Defined.

Definition run_code_as_str (c : RunCode) : string :=
  match c with
  | BudgetProjectionExceeded => "RUN_BUDGET_PROJECTION_EXCEEDED"
  | DriftDetected => "RUN_DRIFT_DETECTED"
  | StepsExceeded => "RUN_STEPS_EXCEEDED"
  end.

Definition run_code_from_str (s : string) : option RunCode :=
  if s =?s "RUN_BUDGET_PROJECTION_EXCEEDED" then Some BudgetProjectionExceeded
  else if s =?s "RUN_DRIFT_DETECTED" then Some DriftDetected
  else if s =?s "RUN_STEPS_EXCEEDED" then Some StepsExceeded
  else None.

(** The (policy, action) pairs a bundle may declare. *)
Definition is_allowed_pair (policy : PredictionPolicy) (action : RunProjectionAction) : bool :=
  match policy, action with
  | StrictCeiling, BlockNextCall => true
  | StrictCeiling, _ => false
  | EmpiricalRunCeiling, _ => true
  | AdaptiveCeiling, _ => true
  | ShadowOnly, AlertOnly => true
  | ShadowOnly, _ => false
  end.

(** The three enums print to distinct strings and parse back. *)
Lemma policy_roundtrip p : policy_from_str (policy_as_str p) = Some p.
Proof. by destruct p. Qed.
Lemma action_roundtrip a : action_from_str (action_as_str a) = Some a.
Proof. by destruct a. Qed.
Lemma run_code_roundtrip c : run_code_from_str (run_code_as_str c) = Some c.
Proof. by destruct c. Qed.
#[export] Hint Rewrite policy_roundtrip action_roundtrip run_code_roundtrip : guard.

Lemma run_code_from_str_inv s c : run_code_from_str s = Some c -> s = run_code_as_str c.
Proof.
  unfold run_code_from_str. intros H.
  repeat case_match; simplify_eq; by (apply String.eqb_eq).
Qed.

Section Contract.
Context `{UuidLib, BigIntLib}.

Record Budget := {
  b_id : uuid;
  b_limit_amount_atomic : string;
  b_currency : string;
  b_reservation_ttl_seconds : Z;
  b_require_hard_cap : bool;
}.

Record Condition := {
  w_budget_id : uuid;
  claim_amount_atomic_gt : option string;
  claim_amount_atomic_gte : option string;
}.

Record Action := {
  a_decision : decision;
  a_reason_code : string;
  a_approver_role : option string;
}.

Record Rule := {
  r_id : string;
  r_when : Condition;
  r_then : Action;
  r_run_projection_action : RunProjectionAction;
}.

Record Contract := {
  c_id : uuid;
  c_name : string;
  c_budgets : list Budget;
  c_rules : list Rule;
  c_prediction_policy : PredictionPolicy;
  c_api_version : string;
}.

Record EvalOutcome := {
  o_decision : decision;
  o_reason_codes : list string;
  o_matched_rule_ids : list string;
}.

Definition continue_default : EvalOutcome :=
  {| o_decision := Continue; o_reason_codes := []; o_matched_rule_ids := [] |}.

(** The fields of [common.v1.BudgetClaim] the evaluator reads. *)
Record Claim := {
  cl_budget_id : string;
  cl_amount_atomic : string;
}.

(** ** The evaluator *)

(** A present threshold that does not parse is skipped; a rule without any
    threshold never matches. *)
Definition rule_matches_claim (rule : Rule) (claim_amount : Z) : bool :=
  let below_gt :=
    match claim_amount_atomic_gt (r_when rule) with
    | Some gt => match bigint_parse gt with
                 | Some threshold => negb (threshold <? claim_amount)
                 | None => false
                 end
    | None => false
    end in
  let below_gte :=
    match claim_amount_atomic_gte (r_when rule) with
    | Some gte => match bigint_parse gte with
                  | Some threshold => negb (threshold <=? claim_amount)
                  | None => false
                  end
    | None => false
    end in
  if below_gt then false
  else if below_gte then false
  else bool_decide (is_Some (claim_amount_atomic_gt (r_when rule)))
       || bool_decide (is_Some (claim_amount_atomic_gte (r_when rule))).

Definition rule_ref (contract : Contract) (rule : Rule) : string :=
  uuid_str (c_id contract) +:+ ":" +:+ uuid_str (w_budget_id (r_when rule)) +:+ ":" +:+ r_id rule.

Definition handle_run_code (contract : Contract) (rule : Rule) (code : RunCode)
    (action : RunProjectionAction) : EvalOutcome :=
  {| o_decision := match action with
                   | BlockNextCall => Stop
                   | ActRequireApproval => RequireApproval
                   | AlertOnly => Continue
                   end;
     o_reason_codes := [run_code_as_str code];
     o_matched_rule_ids := [rule_ref contract rule] |}.

Definition rule_outcome (contract : Contract) (rule : Rule) : EvalOutcome :=
  match run_code_from_str (a_reason_code (r_then rule)) with
  | Some run_code => handle_run_code contract rule run_code (r_run_projection_action rule)
  | None =>
      {| o_decision := a_decision (r_then rule);
         o_reason_codes := [a_reason_code (r_then rule)];
         o_matched_rule_ids := [rule_ref contract rule] |}
  end.

Definition restrictiveness (d : decision) : Z :=
  match d with
  | Unspecified => 0
  | Continue => 1
  | Skip => 2
  | Degrade => 3
  | RequireApproval => 4
  | Stop => 5
  | StopRunProjection => 5
  end.

(** Both branches of the source's [merge] concatenate the same two lists. *)
Definition merge (a b : EvalOutcome) : EvalOutcome :=
  let pick_b := restrictiveness (o_decision a) <? restrictiveness (o_decision b) in
  {| o_decision := if pick_b then o_decision b else o_decision a;
     o_reason_codes := o_reason_codes a ++ o_reason_codes b;
     o_matched_rule_ids := o_matched_rule_ids a ++ o_matched_rule_ids b |}.

Definition merge_outcomes (a b : EvalOutcome) : EvalOutcome := merge a b.

(** The inner loop over the rules, for a claim that parsed. *)
Definition eval_rule (contract : Contract) (claim_budget_id : uuid) (claim_amount : Z)
    (current : EvalOutcome) (rule : Rule) : EvalOutcome :=
  if negb (bool_decide (w_budget_id (r_when rule) = claim_budget_id)) then current
  else if negb (rule_matches_claim rule claim_amount) then current
  else merge current (rule_outcome contract rule).

(** One iteration of the loop over the claims; a malformed claim is skipped. *)
Definition eval_claim (contract : Contract) (current : EvalOutcome) (claim : Claim) : EvalOutcome :=
  match uuid_parse (cl_budget_id claim) with
  | None => current
  | Some claim_budget_id =>
      match bigint_parse (cl_amount_atomic claim) with
      | None => current
      | Some claim_amount =>
          fold_left (eval_rule contract claim_budget_id claim_amount) (c_rules contract) current
      end
  end.

Definition evaluate (contract : Contract) (claims : list Claim) : EvalOutcome :=
  fold_left (eval_claim contract) claims continue_default.

(** The outcome of a code the run cost projector returned. *)
Definition apply_projector_code (contract : Contract) (code_str : string) : option EvalOutcome :=
  code ← run_code_from_str code_str;
  let action := match c_prediction_policy contract with
                | ShadowOnly => AlertOnly
                | StrictCeiling | EmpiricalRunCeiling | AdaptiveCeiling => BlockNextCall
                end in
  Some {| o_decision := match action with
                        | BlockNextCall => StopRunProjection
                        | ActRequireApproval => RequireApproval
                        | AlertOnly => Continue
                        end;
          o_reason_codes := [run_code_as_str code];
          o_matched_rule_ids :=
            [uuid_str (c_id contract) +:+ ":projector:" +:+ run_code_as_str code] |}.

(** ** The loader: [parse_yaml] after [serde_yaml] *)

Record YamlBudget := {
  yb_id : string;
  yb_limit_amount_atomic : string;
  yb_currency : string;
  yb_reservation_ttl_seconds : Z;
  yb_require_hard_cap : bool;
}.

Record YamlCondition := {
  yc_budget_id : string;
  yc_claim_amount_atomic_gt : option string;
  yc_claim_amount_atomic_gte : option string;
}.

Record YamlAction := {
  ya_decision : string;
  ya_reason_code : string;
  ya_approver_role : option string;
}.

Record YamlRule := {
  yr_id : string;
  yr_when : YamlCondition;
  yr_then : YamlAction;
  yr_run_projection_action : option string;
  yr_condition : option string;
}.

Record YamlContract := {
  y_api_version : string;
  y_kind : string;
  y_metadata_id : string;
  y_metadata_name : string;
  y_budgets : list YamlBudget;
  y_rules : list YamlRule;
  y_prediction_policy : option string;
}.

Definition LEGACY_API_VERSION_V1ALPHA1 : string := "contract.spendguard.io/v1alpha1".
Definition CANONICAL_API_VERSION_V1ALPHA1 : string := "spendguard.ai/v1alpha1".
Definition CANONICAL_API_VERSION_V1ALPHA2 : string := "spendguard.ai/v1alpha2".
Definition SUPPORTED_KIND : string := "Contract".

Inductive ApiVersion := V1alpha1 | V1alpha2.

Definition classify_api_version (s : string) : option ApiVersion :=
  if (s =?s LEGACY_API_VERSION_V1ALPHA1) || (s =?s CANONICAL_API_VERSION_V1ALPHA1)
  then Some V1alpha1
  else if s =?s CANONICAL_API_VERSION_V1ALPHA2 then Some V1alpha2
  else None.

(** The [anyhow!] messages, by what they are about. *)
Inductive ParseError :=
  | UnsupportedApiVersion (v : string)
  | UnsupportedKind (k : string)
  | MetadataIdNotUuid (s : string)
  | BudgetIdNotUuid (s : string)
  | UnknownPredictionPolicy (s : string)
  | RuleBudgetIdNotUuid (rule : string)
  | CelConditionUnsupported (rule : string)
  | UnknownDecision (rule d : string)
  | UnknownAction (rule a : string)
  | DisallowedPair (rule : string) (p : PredictionPolicy) (a : RunProjectionAction).

Definition parse_budget (b : YamlBudget) : result ParseError Budget :=
  id ← ok_or (uuid_parse (yb_id b)) (BudgetIdNotUuid (yb_id b));
  mret {| b_id := id;
          b_limit_amount_atomic := yb_limit_amount_atomic b;
          b_currency := yb_currency b;
          b_reservation_ttl_seconds := yb_reservation_ttl_seconds b;
          b_require_hard_cap := yb_require_hard_cap b |}.

Definition parse_policy (v : ApiVersion) (hint : option string)
    : result ParseError PredictionPolicy :=
  match v with
  | V1alpha1 => Ok policy_default
  | V1alpha2 => match hint with
                | Some s => ok_or (policy_from_str s) (UnknownPredictionPolicy s)
                | None => Ok policy_default
                end
  end.

Definition parse_decision (rule d : string) : result ParseError decision :=
  if d =?s "CONTINUE" then Ok Continue
  else if d =?s "DEGRADE" then Ok Degrade
  else if d =?s "SKIP" then Ok Skip
  else if d =?s "STOP" then Ok Stop
  else if d =?s "REQUIRE_APPROVAL" then Ok RequireApproval
  else Err (UnknownDecision rule d).

Definition parse_action (v : ApiVersion) (rule : string) (hint : option string)
    : result ParseError RunProjectionAction :=
  match v with
  | V1alpha1 => Ok action_default
  | V1alpha2 => match hint with
                | Some s => ok_or (action_from_str s) (UnknownAction rule s)
                | None => Ok action_default
                end
  end.

(** The closure mapped over the rules. *)
Definition parse_rule (v : ApiVersion) (r : YamlRule) : result ParseError Rule :=
  budget_id ← ok_or (uuid_parse (yc_budget_id (yr_when r))) (RuleBudgetIdNotUuid (yr_id r));
  require negb (bool_decide (is_Some (yr_condition r)) &&
                match v with V1alpha2 => true | V1alpha1 => false end)
    else CelConditionUnsupported (yr_id r);
  d ← parse_decision (yr_id r) (ya_decision (yr_then r));
  act ← parse_action v (yr_id r) (yr_run_projection_action r);
  mret {| r_id := yr_id r;
          r_when := {| w_budget_id := budget_id;
                       claim_amount_atomic_gt := yc_claim_amount_atomic_gt (yr_when r);
                       claim_amount_atomic_gte := yc_claim_amount_atomic_gte (yr_when r) |};
          r_then := {| a_decision := d;
                       a_reason_code := ya_reason_code (yr_then r);
                       a_approver_role := ya_approver_role (yr_then r) |};
          r_run_projection_action := act |}.

(** The loop that checks the allowed pairs: the first offending rule is reported. *)
Fixpoint check_pairs (policy : PredictionPolicy) (rules : list Rule) : result ParseError unit :=
  match rules with
  | [] => Ok tt
  | rule :: rules =>
      require is_allowed_pair policy (r_run_projection_action rule)
        else DisallowedPair (r_id rule) policy (r_run_projection_action rule);
      check_pairs policy rules
  end.

Definition parse_yaml (parsed : YamlContract) : result ParseError Contract :=
  v ← ok_or (classify_api_version (y_api_version parsed))
            (UnsupportedApiVersion (y_api_version parsed));
  require y_kind parsed =?s SUPPORTED_KIND else UnsupportedKind (y_kind parsed);
  id ← ok_or (uuid_parse (y_metadata_id parsed)) (MetadataIdNotUuid (y_metadata_id parsed));
  budgets ← collect parse_budget (y_budgets parsed);
  policy ← parse_policy v (y_prediction_policy parsed);
  rules ← collect (parse_rule v) (y_rules parsed);
  _ ← check_pairs policy rules;
  mret {| c_id := id;
          c_name := y_metadata_name parsed;
          c_budgets := budgets;
          c_rules := rules;
          c_prediction_policy := policy;
          c_api_version := y_api_version parsed |}.

(** ** The specification of the evaluator *)

(** The outcomes of the (claim, rule) pairs that match, in the order of the loops. *)
Definition claim_matches (contract : Contract) (claim : Claim) : list EvalOutcome :=
  match uuid_parse (cl_budget_id claim), bigint_parse (cl_amount_atomic claim) with
  | Some b, Some amount =>
      rule_outcome contract <$>
        filter (fun r => w_budget_id (r_when r) = b /\ rule_matches_claim r amount = true)
          (c_rules contract)
  | _, _ => []
  end.

Definition matches (contract : Contract) (claims : list Claim) : list EvalOutcome :=
  claims ≫= claim_matches contract.

(** The most restrictive of the decisions, the earliest of equals. *)
Definition most_restrictive (d : decision) (ds : list decision) : decision :=
  fold_left (fun d d' => if restrictiveness d <? restrictiveness d' then d' else d) ds d.

Lemma merge_decision a b :
  restrictiveness (o_decision (merge a b)) =
    Z.max (restrictiveness (o_decision a)) (restrictiveness (o_decision b)).
Proof. unfold merge; cbn. case_match; lia. Qed.

Lemma merge_assoc a b c : merge a (merge b c) = merge (merge a b) c.
Proof.
  unfold merge; cbn. rewrite !app_assoc. f_equal.
  repeat case_match; try reflexivity; lia.
Qed.

Lemma fold_eval_rule contract b amount rules o :
  fold_left (eval_rule contract b amount) rules o =
    fold_left merge (rule_outcome contract <$>
      filter (fun r => w_budget_id (r_when r) = b /\ rule_matches_claim r amount = true) rules) o.
Proof.
  revert o; induction rules as [|r rules IH]; intros o; [done|].
  cbn [fold_left]. rewrite IH, filter_cons. unfold eval_rule at 1.
  destruct (rule_matches_claim r amount) eqn:Hm; case_bool_decide; case_decide;
    cbn; try done; by intuition.
Qed.

Lemma eval_claim_merge contract o claim :
  eval_claim contract o claim = fold_left merge (claim_matches contract claim) o.
Proof.
  unfold eval_claim, claim_matches.
  destruct (uuid_parse _); [|done]. destruct (bigint_parse _); [|done].
  apply fold_eval_rule.
Qed.

Lemma evaluate_fold contract claims :
  evaluate contract claims = fold_left merge (matches contract claims) continue_default.
Proof.
  unfold evaluate, matches. generalize continue_default.
  induction claims as [|claim claims IH]; intros o; [done|].
  cbn [fold_left mbind list_bind]. by rewrite IH, fold_left_app, eval_claim_merge.
Qed.

Lemma fold_merge os o :
  fold_left merge os o =
    {| o_decision := most_restrictive (o_decision o) (o_decision <$> os);
       o_reason_codes := o_reason_codes o ++ (os ≫= o_reason_codes);
       o_matched_rule_ids := o_matched_rule_ids o ++ (os ≫= o_matched_rule_ids) |}.
Proof.
  revert o; induction os as [|o' os IH]; intros o.
  - destruct o; cbn. by rewrite !(right_id_L [] (++)).
  - cbn [fold_left]. rewrite IH. cbn. by rewrite <- !app_assoc.
Qed.

Lemma most_restrictive_spec d ds :
  (most_restrictive d ds = d \/ most_restrictive d ds ∈ ds) /\
  Forall (fun d' => restrictiveness d' <= restrictiveness (most_restrictive d ds)) (d :: ds).
Proof.
  unfold most_restrictive. revert d; induction ds as [|d' ds IH]; intros d; cbn [fold_left].
  - split; [by left|]. apply Forall_singleton. lia.
  - destruct (IH (if restrictiveness d <? restrictiveness d' then d' else d)) as [Hin Hle].
    inversion Hle as [|? ? Hd Hds]; subst. split.
    + rewrite elem_of_cons. destruct Hin as [Hin|Hin]; [|by right; right].
      rewrite Hin. case_match; [by right; left | by left].
    + repeat (apply Forall_cons; split); [| |done]; revert Hd; case_match; lia.
Qed.

Lemma evaluate_merge contract claims :
  evaluate contract claims =
    {| o_decision := most_restrictive Continue (o_decision <$> matches contract claims);
       o_reason_codes := matches contract claims ≫= o_reason_codes;
       o_matched_rule_ids := matches contract claims ≫= o_matched_rule_ids |}.
Proof. by rewrite evaluate_fold, fold_merge. Qed.

(** *** What a contract's author means by it

    Nothing here mentions the evaluator: when a rule applies to a claim, what a rule
    says, and which of several decisions is the strictest. *)

(** The claim names the rule's budget and an amount, the rule has a bound, and the
    amount exceeds it (or reaches it, for [gte]) wherever the bound is a number. *)
Definition applies (claim : Claim) (rule : Rule) : Prop :=
  uuid_parse (cl_budget_id claim) = Some (w_budget_id (r_when rule)) /\
  exists amount, bigint_parse (cl_amount_atomic claim) = Some amount /\
    (is_Some (claim_amount_atomic_gt (r_when rule)) \/ is_Some (claim_amount_atomic_gte (r_when rule))) /\
    (forall bound, claim_amount_atomic_gt (r_when rule) ≫= bigint_parse = Some bound -> bound < amount) /\
    (forall bound, claim_amount_atomic_gte (r_when rule) ≫= bigint_parse = Some bound -> bound <= amount).

(** The author's decision, except that next to one of the three run codes it is the
    action declared for run projections that decides. *)
Definition says (rule : Rule) : decision :=
  if decide (a_reason_code (r_then rule) ∈
       ["RUN_BUDGET_PROJECTION_EXCEEDED"; "RUN_DRIFT_DETECTED"; "RUN_STEPS_EXCEEDED"])
  then match r_run_projection_action rule with
       | BlockNextCall => Stop
       | ActRequireApproval => RequireApproval
       | AlertOnly => Continue
       end
  else a_decision (r_then rule).

(** The strictest of a list: the first that stops, else the first that asks for
    approval, else the first that degrades, else the first that skips, else CONTINUE. *)
Definition strictest (ds : list decision) : decision :=
  default Continue (head
    (filter (fun d => d ∈ [Stop; StopRunProjection]) ds ++
     filter (fun d => d ∈ [RequireApproval]) ds ++
     filter (fun d => d ∈ [Degrade]) ds ++
     filter (fun d => d ∈ [Skip]) ds)).

(** A bound that is no number does not bind. *)
Lemma unbound (o : option string) (over : Z -> bool) (ok : Z -> Prop) :
  (forall b, over b = false <-> ok b) ->
  match o with
  | Some s => match bigint_parse s with Some b => over b | None => false end
  | None => false
  end = false <-> (forall b, o ≫= bigint_parse = Some b -> ok b).
Proof.
  intros Hok. destruct o as [s|]; cbn; [|naive_solver].
  destruct (bigint_parse s); [|naive_solver]. rewrite Hok. naive_solver.
Qed.

Lemma rule_matches_applies rule amount :
  rule_matches_claim rule amount = true <->
  (is_Some (claim_amount_atomic_gt (r_when rule)) \/ is_Some (claim_amount_atomic_gte (r_when rule))) /\
  (forall bound, claim_amount_atomic_gt (r_when rule) ≫= bigint_parse = Some bound -> bound < amount) /\
  (forall bound, claim_amount_atomic_gte (r_when rule) ≫= bigint_parse = Some bound -> bound <= amount).
Proof.
  pose proof (unbound (claim_amount_atomic_gt (r_when rule)) (fun b => negb (b <? amount))
    (fun b => b < amount) ltac:(intros b; rewrite negb_false_iff; lia)) as Hgt.
  pose proof (unbound (claim_amount_atomic_gte (r_when rule)) (fun b => negb (b <=? amount))
    (fun b => b <= amount) ltac:(intros b; rewrite negb_false_iff; lia)) as Hgte.
  unfold rule_matches_claim. rewrite <- Hgt, <- Hgte. cbn zeta.
  destruct (match claim_amount_atomic_gt _ with Some _ => _ | None => _ end); [naive_solver|].
  destruct (match claim_amount_atomic_gte _ with Some _ => _ | None => _ end); [naive_solver|].
  rewrite orb_true_iff, !bool_decide_eq_true. naive_solver.
Qed.

#[export] Instance applies_dec claim rule : Decision (applies claim rule).
Proof.
  unfold applies. destruct (uuid_parse (cl_budget_id claim)) as [b|]; [|right; by intros [[=] _]].
  destruct (decide (b = w_budget_id (r_when rule))) as [->|Hne]; [|right; by intros [[= ->] _]].
  destruct (bigint_parse (cl_amount_atomic claim)) as [amount|]; [|right; by intros (_ & ? & [=] & _)].
  destruct (rule_matches_claim rule amount) eqn:Hm; [left|right].
  - split; [done|]. exists amount. split; [done|]. by apply rule_matches_applies.
  - intros (_ & ? & [= <-] & Hma%rule_matches_applies). by rewrite Hma in Hm.
Defined.

(** The pairs of a claim and a rule that applies to it, claim by claim. *)
Definition applicable (contract : Contract) (claims : list Claim) : list (Claim * Rule) :=
  filter (fun p => applies p.1 p.2) (claims ≫= fun claim => pair claim <$> c_rules contract).

Lemma rule_outcome_says contract rule :
  rule_outcome contract rule =
    {| o_decision := says rule; o_reason_codes := [a_reason_code (r_then rule)];
       o_matched_rule_ids := [uuid_str (c_id contract) +:+ ":" +:+ uuid_str (w_budget_id (r_when rule))
                              +:+ ":" +:+ r_id rule] |}.
Proof.
  unfold rule_outcome, handle_run_code, says, rule_ref.
  destruct (run_code_from_str (a_reason_code (r_then rule))) as [code|] eqn:Hc.
  - apply run_code_from_str_inv in Hc as ->. by rewrite decide_True by (destruct code; set_solver).
  - rewrite decide_False; [done|]. rewrite !elem_of_cons, elem_of_nil.
    by intros [Hs|[Hs|[Hs|[]]]]; rewrite Hs in Hc.
Qed.

Lemma claim_matches_applicable contract claim :
  claim_matches contract claim =
    (fun p => rule_outcome contract p.2) <$>
      filter (fun p => applies p.1 p.2) (pair claim <$> c_rules contract).
Proof.
  unfold claim_matches. induction (c_rules contract) as [|rule rules IH].
  { by repeat case_match. }
  rewrite fmap_cons, filter_cons. cbn [fst snd].
  destruct (decide (applies claim rule)) as [Ha|Ha]; unfold applies in Ha;
    destruct (uuid_parse (cl_budget_id claim)) as [b|] eqn:Eb; try done;
    try (by destruct Ha as [[=] _]);
    destruct (bigint_parse (cl_amount_atomic claim)) as [amount|] eqn:Ea; try done;
    try (by destruct Ha as (_ & ? & [=] & _));
    rewrite filter_cons; destruct (decide (_ = b /\ _)) as [[<- Hm]|Hno].
  - by rewrite !fmap_cons, IH.
  - destruct Ha as ([= ->] & ? & [= <-] & Hma%rule_matches_applies). by destruct Hno.
  - destruct Ha. split; [done|]. exists amount. split; [done|]. by apply rule_matches_applies.
  - exact IH.
Qed.

Lemma matches_applicable contract claims :
  matches contract claims = (fun p => rule_outcome contract p.2) <$> applicable contract claims.
Proof.
  unfold matches, applicable. induction claims as [|claim claims IH]; [done|]. cbn.
  by rewrite filter_app, fmap_app, claim_matches_applicable, <- IH.
Qed.

(** *** Strictness *)

(** The rung of a decision on the ladder that [strictest] goes down. *)
Definition rung (d : decision) : Z :=
  match d with Stop | StopRunProjection => 4 | RequireApproval => 3 | Degrade => 2 | Skip => 1 | _ => 0 end.

(** The first of a list that none after it exceeds and that exceeds those before it,
    starting from [d]. *)
Fixpoint first_highest (d : decision) (ds : list decision) : decision :=
  match ds with
  | [] => d
  | d' :: ds => first_highest (if rung d <? rung d' then d' else d) ds
  end.

Lemma first_highest_strictest d ds :
  first_highest d ds = default d (head
    (filter (fun d => d ∈ [Stop; StopRunProjection]) (d :: ds) ++ filter (fun d => d ∈ [RequireApproval]) (d :: ds) ++
     filter (fun d => d ∈ [Degrade]) (d :: ds) ++ filter (fun d => d ∈ [Skip]) (d :: ds))).
Proof.
  revert d; induction ds as [|d' ds IH]; intros d.
  { by destruct d. }
  cbn [first_highest]. rewrite IH, !filter_cons.
  generalize (filter (fun d => d ∈ [Stop; StopRunProjection]) ds) (filter (fun d => d ∈ [RequireApproval]) ds)
    (filter (fun d => d ∈ [Degrade]) ds) (filter (fun d => d ∈ [Skip]) ds).
  intros [] [] [] []; by destruct d, d'.
Qed.

Lemma most_restrictive_strictest ds : most_restrictive Continue ds = strictest ds.
Proof.
  assert (Hm : forall d, d <> Unspecified -> most_restrictive d ds = first_highest d ds).
  { induction ds as [|d' ds IH]; intros d Hd; [done|]. cbn.
    replace (restrictiveness d <? restrictiveness d') with (rung d <? rung d').
    - apply IH. by case_match; [destruct d, d'|].
    - destruct d, d'; done. }
  rewrite Hm by done. by rewrite first_highest_strictest, !filter_cons.
Qed.


(** A (claim, rule) pair the evaluator matches. *)
Definition pair_matches (contract : Contract) (claim : Claim) (rule : Rule) : Prop :=
  exists amount,
    rule ∈ c_rules contract /\
    uuid_parse (cl_budget_id claim) = Some (w_budget_id (r_when rule)) /\
    bigint_parse (cl_amount_atomic claim) = Some amount /\
    rule_matches_claim rule amount = true.

Lemma elem_of_matches contract claims o :
  o ∈ matches contract claims <->
  exists claim rule, claim ∈ claims /\ pair_matches contract claim rule /\
                     o = rule_outcome contract rule.
Proof.
  unfold matches, claim_matches, pair_matches. rewrite list_elem_of_bind. split.
  - intros (claim & Ho & Hc). destruct (uuid_parse _) eqn:Eu; [|by set_solver].
    destruct (bigint_parse _) eqn:Eb; [|by set_solver].
    apply list_elem_of_fmap in Ho as (rule & -> & Hr).
    apply list_elem_of_filter in Hr. naive_solver.
  - intros (claim & rule & Hc & (amount & Hr & Eu & Eb & Hm) & ->).
    exists claim. rewrite Eu, Eb. split; [|done].
    apply list_elem_of_fmap. exists rule. split; [done|]. by apply list_elem_of_filter.
Qed.

Lemma evaluate_upper contract claims :
  Forall (fun o => restrictiveness (o_decision o)
                   <= restrictiveness (o_decision (evaluate contract claims)))
    (matches contract claims).
Proof.
  rewrite evaluate_merge; cbn.
  destruct (most_restrictive_spec Continue (o_decision <$> matches contract claims)) as [_ Hle].
  inversion Hle as [|? ? _ Hds]; subst. by rewrite Forall_fmap in Hds.
Qed.

Lemma evaluate_attained contract claims :
  o_decision (evaluate contract claims) = Continue \/
  exists o, o ∈ matches contract claims /\ o_decision (evaluate contract claims) = o_decision o.
Proof.
  rewrite evaluate_merge; cbn.
  destruct (most_restrictive_spec Continue (o_decision <$> matches contract claims)) as [[->|Hin] _];
    [by left|right].
  apply list_elem_of_fmap in Hin as (o & Heq & Ho). eauto.
Qed.

(** A decision no stricter than CONTINUE means that no rule that applies says more. *)
Lemma evaluate_lets contract claims :
  restrictiveness (o_decision (evaluate contract claims)) <= restrictiveness Continue ->
  forall claim rule, claim ∈ claims -> rule ∈ c_rules contract -> applies claim rule ->
    says rule ∈ [Continue; Unspecified].
Proof.
  intros Hle claim rule Hc Hr Ha. pose proof (evaluate_upper contract claims) as Hup.
  rewrite Forall_forall in Hup. specialize (Hup (rule_outcome contract rule)).
  rewrite rule_outcome_says in Hup at 2. cbn in Hup.
  assert (Hin : rule_outcome contract rule ∈ matches contract claims).
  { rewrite matches_applicable. apply list_elem_of_fmap. exists (claim, rule). split; [done|].
    apply list_elem_of_filter. split; [done|]. apply list_elem_of_bind. exists claim. split; [|done].
    by apply list_elem_of_fmap_2. }
  apply Hup in Hin. cbn in Hle. destruct (says rule); cbn in Hin; try lia; set_solver.
Qed.

Lemma check_pairs_ok policy rules u :
  check_pairs policy rules = Ok u <->
  Forall (fun r => is_allowed_pair policy (r_run_projection_action r) = true) rules.
Proof.
  induction rules as [|r rules IH]; cbn [check_pairs].
  - destruct u. split; [constructor | done].
  - rewrite Forall_cons, <- IH. unfold ensure.
    destruct (is_allowed_pair _ _); cbn; naive_solver.
Qed.

(** The decisions a rule's author may write: never the projector's. *)
Definition authored_decision (d : decision) : Prop :=
  d ∈ [Continue; Degrade; Skip; Stop; RequireApproval].

Lemma parse_decision_ok rule s d : parse_decision rule s = Ok d -> authored_decision d.
Proof. unfold parse_decision, authored_decision. intros Hd. repeat case_match; simplify_eq; set_solver. Qed.

Lemma parse_rule_ok v r rule :
  parse_rule v r = Ok rule ->
  authored_decision (a_decision (r_then rule)) /\
  r_id rule = yr_id r /\
  uuid_parse (yc_budget_id (yr_when r)) = Some (w_budget_id (r_when rule)) /\
  match v with
  | V1alpha1 => r_run_projection_action rule = BlockNextCall
  | V1alpha2 => yr_condition r = None
  end.
Proof.
  unfold parse_rule. intros HR. mon_inv HR. cbn. split_and!; try done.
  - by eapply parse_decision_ok.
  - destruct v; cbn in *; [by simplify_eq|]. by destruct (yr_condition r).
Qed.

(** C39: a document that loads gives a contract whose rules are those of the
    document, in order, each with an author's decision and an action its policy
    allows; a v1alpha1 document is loaded with STRICT_CEILING and BLOCK_NEXT_CALL
    whatever hints it carries, and a v1alpha2 document has no CEL condition. *)
Theorem parse_yaml_sound parsed c :
  parse_yaml parsed = Ok c ->
  y_kind parsed = SUPPORTED_KIND /\
  c_api_version c = y_api_version parsed /\
  r_id <$> c_rules c = yr_id <$> y_rules parsed /\
  Forall (fun r => authored_decision (a_decision (r_then r)) /\
                   is_allowed_pair (c_prediction_policy c) (r_run_projection_action r) = true)
    (c_rules c) /\
  match classify_api_version (y_api_version parsed) with
  | None => False
  | Some V1alpha1 =>
      c_prediction_policy c = StrictCeiling /\
      Forall (fun r => r_run_projection_action r = BlockNextCall) (c_rules c)
  | Some V1alpha2 => Forall (fun r => yr_condition r = None) (y_rules parsed)
  end.
Proof.
  unfold parse_yaml. intros HP. mon_inv HP. cbn.
  rename select (collect (parse_rule v) _ = _) into Hrules.
  rename select (check_pairs _ _ = _) into Hpairs. apply check_pairs_ok in Hpairs.
  split_and!; [by apply String.eqb_eq | done | | |].
  - eapply collect_fmap; [|exact Hrules]. intros r rule Hr. by apply parse_rule_ok in Hr as (? & ? & ?).
  - apply Forall_and. split; [|exact Hpairs].
    eapply collect_Forall; [|exact Hrules]. by intros r rule (? & _)%parse_rule_ok.
  - rename select (classify_api_version _ = _) into Hv. rewrite Hv. destruct v.
    + cbn in *. simplify_eq. split; [done|].
      eapply collect_Forall; [|exact Hrules]. by intros r rule (_ & _ & _ & ?)%parse_rule_ok.
    + eapply collect_Forall_src; [|exact Hrules]. by intros r rule (_ & _ & _ & ?)%parse_rule_ok.
Qed.

(** Adding claims, in any order, or the outcome of the run cost projector,
    never makes the decision less restrictive: a deny found by one claim cannot
    be turned into an allow. *)
Theorem evaluate_monotone contract claims claims' p :
  claims ⊆+ claims' ->
  restrictiveness (o_decision (evaluate contract claims))
    <= restrictiveness (o_decision (merge_outcomes (evaluate contract claims') p)).
Proof.
  intros Hsub. unfold merge_outcomes. rewrite merge_decision.
  pose proof (evaluate_upper contract claims') as Hup. rewrite Forall_forall in Hup.
  destruct (evaluate_attained contract claims) as [->|(o & Ho & ->)].
  - pose proof (evaluate_merge contract claims') as ->. cbn.
    pose proof (most_restrictive_spec Continue (o_decision <$> matches contract claims')) as [_ Hle].
    inversion Hle; subst. cbn in *. lia.
  - enough (Ho' : o ∈ matches contract claims') by (specialize (Hup o Ho'); lia).
    apply elem_of_matches in Ho as (claim & rule & Hc & Hr). apply elem_of_matches.
    exists claim, rule. split; [by eapply elem_of_submseteq | exact Hr].
Qed.

Lemma rule_outcome_run_code contract rule code :
  a_reason_code (r_then rule) = run_code_as_str code ->
  rule_outcome contract rule =
    handle_run_code contract rule code (r_run_projection_action rule).
Proof. intros Hc. unfold rule_outcome. by rewrite Hc, run_code_roundtrip. Qed.

(** The declared policy bounds what a run code can do, whether it comes from
    a rule or from the projector. Under STRICT_CEILING a matching run-code rule
    stops the call, and so does a projector code; under SHADOW_ONLY neither
    raises the decision above CONTINUE, so that when all matching rules carry
    run codes the call is let through. The decision the author wrote next to a
    run code has no effect. *)
Theorem run_code_policy parsed c claims code :
  parse_yaml parsed = Ok c ->
  match c_prediction_policy c with
  | StrictCeiling =>
      (forall claim rule, claim ∈ claims -> pair_matches c claim rule ->
         a_reason_code (r_then rule) = run_code_as_str code ->
         restrictiveness (o_decision (evaluate c claims)) = restrictiveness Stop) /\
      o_decision <$> apply_projector_code c (run_code_as_str code) = Some StopRunProjection
  | ShadowOnly =>
      ((forall claim rule, claim ∈ claims -> pair_matches c claim rule ->
          exists code', a_reason_code (r_then rule) = run_code_as_str code') ->
       o_decision (evaluate c claims) = Continue) /\
      o_decision <$> apply_projector_code c (run_code_as_str code) = Some Continue
  | _ => o_decision <$> apply_projector_code c (run_code_as_str code) = Some StopRunProjection
  end.
Proof.
  intros HP. apply parse_yaml_sound in HP as (_ & _ & _ & Hrules & _).
  rewrite Forall_forall in Hrules.
  unfold apply_projector_code. rewrite run_code_roundtrip. cbn.
  destruct (c_prediction_policy c) eqn:Hpol; cbn; try done; (split; [|done]).
  - intros claim rule Hin Hm Hcode.
    assert (Ho : rule_outcome c rule ∈ matches c claims) by (apply elem_of_matches; eauto).
    pose proof (evaluate_upper c claims) as Hup. rewrite Forall_forall in Hup. apply Hup in Ho.
    destruct Hm as (? & Hr & _). specialize (Hrules rule Hr) as [_ Hpair].
    rewrite (rule_outcome_run_code c rule code Hcode) in Ho.
    destruct (r_run_projection_action rule); try discriminate Hpair. cbn in Ho.
    cbn. destruct (o_decision (evaluate c claims)); cbn in *; lia.
  - intros Hall. destruct (evaluate_attained c claims) as [|(o & Ho & ->)]; [done|].
    apply elem_of_matches in Ho as (claim & rule & Hin & Hm & ->).
    destruct (Hall claim rule Hin Hm) as [code' Hcode]. destruct Hm as (? & Hr & _).
    specialize (Hrules rule Hr) as [_ Hpair].
    rewrite (rule_outcome_run_code c rule code' Hcode).
    by destruct (r_run_projection_action rule).
Qed.

End Contract.

(** ** Concrete contracts: the theorems' hypotheses hold *)

Module ContractDemo.
Import Demo.

Definition doc (version : string) (policy action : option string) (code : string) : YamlContract :=
  {| y_api_version := version; y_kind := "Contract"; y_metadata_id := "u1"; y_metadata_name := "demo";
     y_budgets := [{| yb_id := "ub"; yb_limit_amount_atomic := "1000"; yb_currency := "USD";
                      yb_reservation_ttl_seconds := 600; yb_require_hard_cap := false |}];
     y_rules := [{| yr_id := "r"; yr_condition := None; yr_run_projection_action := action;
                    yr_when := {| yc_budget_id := "ub"; yc_claim_amount_atomic_gt := Some "100";
                                  yc_claim_amount_atomic_gte := None |};
                    yr_then := {| ya_decision := "DEGRADE"; ya_reason_code := code;
                                  ya_approver_role := None |} |}];
     y_prediction_policy := policy |}.

Definition claim (amount : string) : Claim :=
  {| cl_budget_id := "ub"; cl_amount_atomic := amount |}.

(** The contract the document loads to, whatever it is when it does not load. *)
Definition load (d : YamlContract) : Contract :=
  match parse_yaml d with
  | Ok c => c
  | Err _ => {| c_id := EmptyString; c_name := EmptyString; c_budgets := []; c_rules := [];
                c_prediction_policy := StrictCeiling; c_api_version := EmptyString |}
  end.

Definition shadow_doc : YamlContract :=
  doc CANONICAL_API_VERSION_V1ALPHA2 (Some "SHADOW_ONLY") (Some "ALERT_ONLY") "RUN_DRIFT_DETECTED".
Definition legacy_doc : YamlContract :=
  doc LEGACY_API_VERSION_V1ALPHA1 (Some "SHADOW_ONLY") None "RUN_DRIFT_DETECTED".

(** A SHADOW_ONLY bundle must spell ALERT_ONLY on every rule: the default action is refused. *)
Example shadow_default_action_refused :
  parse_yaml (doc CANONICAL_API_VERSION_V1ALPHA2 (Some "SHADOW_ONLY") None "X")
  = Err (DisallowedPair "r" ShadowOnly BlockNextCall).
Proof. reflexivity. Qed.

Lemma parse_yaml_sound_witness :
  parse_yaml legacy_doc = Ok (load legacy_doc) /\ c_prediction_policy (load legacy_doc) = StrictCeiling.
Proof.
  split; [reflexivity|].
  destruct (parse_yaml_sound legacy_doc (load legacy_doc) eq_refl) as (_ & _ & _ & _ & Hv & _).
  exact Hv.
Defined.

Lemma evaluate_monotone_witness :
  o_decision (evaluate (load legacy_doc) [claim "101"]) = Stop /\
  5 <= restrictiveness (o_decision (merge_outcomes
         (evaluate (load legacy_doc) [claim "7"; claim "101"]) continue_default)).
Proof.
  split; [reflexivity|].
  exact (evaluate_monotone (load legacy_doc) [claim "101"] [claim "7"; claim "101"] continue_default
           (submseteq_cons _ _ _ (submseteq_skip _ _ _ (submseteq_nil)))).
Defined.

Lemma run_code_policy_witness :
  o_decision <$> apply_projector_code (load shadow_doc) "RUN_DRIFT_DETECTED" = Some Continue.
Proof. exact (proj2 (run_code_policy shadow_doc (load shadow_doc) [claim "101"] DriftDetected eq_refl)). Defined.

End ContractDemo.
