(* ===== verification/RunState.v ===== *)
(** * Per-run state and its cache

    [services/run_cost_projector/src/state_cache.rs]: the state the projector
    keeps for each run, the bounded idempotency map inside it, and the LRU and
    TTL cache of shared run states. An [Arc<Mutex<RunState>>] is a location in
    a heap, so that a state evicted from the cache can still be updated by the
    requests that hold it. [Instant::now()] is an argument; the clock readings
    of one locked section are one reading, the last of which is the one kept. *)

From S2P Require Import Prelude Deps Floats.

(** [common.v1] protocol messages of the projector. *)
Record ProjectResponse := {
  run_projection_at_decision_atomic : Z;
  run_predicted_remaining_steps : Z;
  run_steps_completed_so_far : Z;
  strategy_used : Z;
  emitted_code : string;
  considered_codes : list string;
  projection_confidence : spec_float;
}.

Definition PROJECT_RESPONSE_CACHE_CAP : Z := 256.
Definition HISTORY_CAP : Z := 256.

Section RunState.
Context `{UuidLib, LruLib}.

Record RunState := {
  st_tenant_id : uuid;
  st_run_id : uuid;
  st_agent_id : string;
  st_model : string;
  steps_completed : Z;
  cumulative_cost_atomic : Z;
  per_step_costs : list Z;
  last_predicted_remaining_cost : option Z;
  drift_consecutive_count : Z;
  signal3_hint_planned_steps : option Z;
  last_activity_at : Z;
  started_at : Z;
  project_responses_by_decision_id : gmap string ProjectResponse;
  project_response_order : list string;
}.

Definition run_state_new (now : Z) (tenant_id run_id : uuid) (agent_id model : string) : RunState :=
  {| st_tenant_id := tenant_id; st_run_id := run_id; st_agent_id := agent_id; st_model := model;
     steps_completed := 0; cumulative_cost_atomic := 0; per_step_costs := [];
     last_predicted_remaining_cost := None; drift_consecutive_count := 0;
     signal3_hint_planned_steps := None; last_activity_at := now; started_at := now;
     project_responses_by_decision_id := ∅; project_response_order := [] |}.

(** Field updates. *)
Definition touch (now : Z) (st : RunState) : RunState :=
  {| st_tenant_id := st_tenant_id st; st_run_id := st_run_id st;
     st_agent_id := st_agent_id st; st_model := st_model st;
     steps_completed := steps_completed st;
     cumulative_cost_atomic := cumulative_cost_atomic st;
     per_step_costs := per_step_costs st;
     last_predicted_remaining_cost := last_predicted_remaining_cost st;
     drift_consecutive_count := drift_consecutive_count st;
     signal3_hint_planned_steps := signal3_hint_planned_steps st;
     last_activity_at := now; started_at := started_at st;
     project_responses_by_decision_id := project_responses_by_decision_id st;
     project_response_order := project_response_order st |}.

Definition set_signals (last : option Z) (count : Z) (hint : option Z) (st : RunState) : RunState :=
  {| st_tenant_id := st_tenant_id st; st_run_id := st_run_id st;
     st_agent_id := st_agent_id st; st_model := st_model st;
     steps_completed := steps_completed st;
     cumulative_cost_atomic := cumulative_cost_atomic st;
     per_step_costs := per_step_costs st;
     last_predicted_remaining_cost := last;
     drift_consecutive_count := count;
     signal3_hint_planned_steps := hint;
     last_activity_at := last_activity_at st; started_at := started_at st;
     project_responses_by_decision_id := project_responses_by_decision_id st;
     project_response_order := project_response_order st |}.

Definition set_responses (m : gmap string ProjectResponse) (order : list string)
    (st : RunState) : RunState :=
  {| st_tenant_id := st_tenant_id st; st_run_id := st_run_id st;
     st_agent_id := st_agent_id st; st_model := st_model st;
     steps_completed := steps_completed st;
     cumulative_cost_atomic := cumulative_cost_atomic st;
     per_step_costs := per_step_costs st;
     last_predicted_remaining_cost := last_predicted_remaining_cost st;
     drift_consecutive_count := drift_consecutive_count st;
     signal3_hint_planned_steps := signal3_hint_planned_steps st;
     last_activity_at := last_activity_at st; started_at := started_at st;
     project_responses_by_decision_id := m;
     project_response_order := order |}.

(** [per_step_costs.drain(0..overflow)] when longer than the cap. *)
Definition push_capped (costs : list Z) (c : Z) : list Z :=
  let costs := costs ++ [c] in
  if HISTORY_CAP <? Z.of_nat (length costs)
  then drop (length costs - Z.to_nat HISTORY_CAP) costs
  else costs.

Definition record_step (now step_cost_atomic : Z) (st : RunState) : RunState :=
  {| st_tenant_id := st_tenant_id st; st_run_id := st_run_id st;
     st_agent_id := st_agent_id st; st_model := st_model st;
     steps_completed := i64_wrap (steps_completed st + 1);
     cumulative_cost_atomic := i64_sat (cumulative_cost_atomic st + step_cost_atomic);
     per_step_costs := push_capped (per_step_costs st) step_cost_atomic;
     last_predicted_remaining_cost := last_predicted_remaining_cost st;
     drift_consecutive_count := drift_consecutive_count st;
     signal3_hint_planned_steps := signal3_hint_planned_steps st;
     last_activity_at := now; started_at := started_at st;
     project_responses_by_decision_id := project_responses_by_decision_id st;
     project_response_order := project_response_order st |}.

Definition cached_project_response (now : Z) (decision_id : string) (st : RunState)
    : option ProjectResponse * RunState :=
  if is_empty decision_id then (None, st)
  else match project_responses_by_decision_id st !! decision_id with
       | Some response => (Some response, touch now st)
       | None => (None, st)
       end.

(** The eviction loop: pops the oldest identifiers until the map fits. The
    recursion is on the order queue: an empty queue is the source's [break]. *)
Fixpoint evict (m : gmap string ProjectResponse) (order : list string)
    : gmap string ProjectResponse * list string :=
  if PROJECT_RESPONSE_CACHE_CAP <? Z.of_nat (size m) then
    match order with
    | oldest :: order => evict (delete oldest m) order
    | [] => (m, [])
    end
  else (m, order).

Definition record_project_response (now : Z) (decision_id : string) (response : ProjectResponse)
    (st : RunState) : RunState :=
  if is_empty decision_id then st
  else
    let m := project_responses_by_decision_id st in
    let order := match m !! decision_id with
                 | None => project_response_order st ++ [decision_id]
                 | Some _ => project_response_order st
                 end in
    let '(m, order) := evict (<[decision_id := response]> m) order in
    touch now (set_responses m order st).

(** ** The cache of run states *)

Record RunStateKey := {
  k_tenant_id : uuid;
  k_run_id : uuid;
}.

#[export] Instance RunStateKey_eq_dec : EqDecision RunStateKey.
Proof. solve_decision. Defined.

(** The heap of shared states and the cache that points into it. *)
Record RunStateCache := {
  inner : lru RunStateKey nat;
  ttl : Z;
  heap : gmap nat RunState;
}.

Definition cache_new (capacity ttl : Z) : RunStateCache :=
  {| inner := lru_new (Z.to_nat (Z.max capacity 1)); ttl := ttl; heap := ∅ |}.

Definition set_inner (i : lru RunStateKey nat) (c : RunStateCache) : RunStateCache :=
  {| inner := i; ttl := ttl c; heap := heap c |}.

(** [Arc::new(Mutex::new(state))]. *)
Definition alloc (st : RunState) (c : RunStateCache) : nat * RunStateCache :=
  let a := fresh (dom (heap c)) in
  (a, {| inner := inner c; ttl := ttl c; heap := <[a := st]> (heap c) |}).

(** A mutation of the state behind an [Arc], under its lock. *)
Definition update_cell (a : nat) (st : RunState) (c : RunStateCache) : RunStateCache :=
  {| inner := inner c; ttl := ttl c; heap := <[a := st]> (heap c) |}.

Definition is_expired (now : Z) (c : RunStateCache) (st : RunState) : bool :=
  ttl c <=? elapsed now (last_activity_at st).

Definition cache_get (now : Z) (key : RunStateKey) (c : RunStateCache)
    : option nat * RunStateCache :=
  match lru_get key (inner c) with
  | (None, i) => (None, set_inner i c)
  | (Some a, i) =>
      let expired := match heap c !! a with
                     | Some st => is_expired now c st
                     | None => false
                     end in
      if expired then (None, set_inner (lru_pop key i).2 c)
      else (Some a, set_inner i c)
  end.

Definition cache_insert (key : RunStateKey) (st : RunState) (c : RunStateCache)
    : nat * RunStateCache :=
  let '(a, c) := alloc st c in
  (a, set_inner (lru_put key a (inner c)) c).

Definition cache_get_or_insert (key : RunStateKey) (st : RunState) (c : RunStateCache)
    : nat * RunStateCache :=
  match lru_get key (inner c) with
  | (Some existing, i) => (existing, set_inner i c)
  | (None, i) => cache_insert key st (set_inner i c)
  end.

Definition cache_remove (key : RunStateKey) (c : RunStateCache) : bool * RunStateCache :=
  let '(r, i) := lru_pop key (inner c) in
  (bool_decide (is_Some r), set_inner i c).

Definition cache_len (c : RunStateCache) : Z := Z.of_nat (length (lru_items (inner c))).

(** ** Invariants *)

(** The queue lists the keys of the map, each once, and fits the cap. *)
Definition responses_wf (st : RunState) : Prop :=
  NoDup (project_response_order st) /\
  dom (project_responses_by_decision_id st) = list_to_set (project_response_order st) /\
  Z.of_nat (length (project_response_order st)) <= PROJECT_RESPONSE_CACHE_CAP.

Definition run_state_wf (st : RunState) : Prop :=
  responses_wf st /\ Z.of_nat (length (per_step_costs st)) <= HISTORY_CAP.

(** Every cached location is allocated, and the crate's own invariant holds. *)
Definition cache_wf (c : RunStateCache) : Prop :=
  lru_wf (inner c) /\
  (forall k a, al_get k (lru_items (inner c)) = Some a -> is_Some (heap c !! a)).

(** ** The idempotency map *)

Lemma responses_size st :
  responses_wf st ->
  size (project_responses_by_decision_id st) = length (project_response_order st).
Proof.
  intros (Hn & Hd & _). rewrite <- (size_dom (D := gset string)), Hd.
  by apply size_list_to_set.
Qed.

(** One eviction is enough after one insertion. *)
Lemma evict_one m oldest order :
  NoDup (oldest :: order) -> dom m = list_to_set (oldest :: order) ->
  Z.of_nat (length order) <= PROJECT_RESPONSE_CACHE_CAP ->
  evict m (oldest :: order) =
    if PROJECT_RESPONSE_CACHE_CAP <? Z.of_nat (S (length order))
    then (delete oldest m, order) else (m, oldest :: order).
Proof.
  intros Hn Hd Hl.
  assert (Hs : size m = S (length order)).
  { rewrite <- (size_dom (D := gset string)), Hd. by rewrite size_list_to_set. }
  cbn [evict]. rewrite Hs. case_match eqn:Hcap; [|done].
  assert (Hs' : size (delete oldest m) = length order).
  { rewrite map_size_delete, Hs.
    assert (Hm : is_Some (m !! oldest)) by (apply elem_of_dom; set_solver).
    destruct Hm as [? ->]. cbn. lia. }
  destruct order as [|o order]; cbn [evict]; rewrite Hs'; [done|].
  case_match; [lia | done].
Qed.

Lemma record_project_response_wf now id r st :
  responses_wf st -> responses_wf (record_project_response now id r st) /\
  (is_empty id = false ->
   project_responses_by_decision_id (record_project_response now id r st) !! id = Some r).
Proof.
  intros Hwf. pose proof (responses_size st Hwf) as Hsize. destruct Hwf as (Hn & Hd & Hl).
  unfold record_project_response. destruct (is_empty id); [by split|].
  destruct st as [? ? ? ? ? ? ? ? ? ? ? ? m order]; cbn in *.
  destruct (m !! id) as [r0|] eqn:Hm.
  - assert (Hs : size (<[id := r]> m) = size m) by (by rewrite map_size_insert, Hm).
    assert (Hev : evict (<[id:=r]> m) order = (<[id:=r]> m, order)).
    { destruct order; cbn [evict]; rewrite Hs, Hsize; (case_match; [lia | done]). }
    rewrite Hev. cbn. split; [|intros; apply lookup_insert_eq].
    split_and!; cbn; [done | | done].
    rewrite dom_insert_L. assert (id ∈ dom m) by (by apply elem_of_dom_2 in Hm). set_solver.
  - assert (Hid : id ∉ order).
    { intros Hin. assert (Hin' : id ∈ dom m) by (rewrite Hd; set_solver).
      apply elem_of_dom in Hin'. rewrite Hm in Hin'. by destruct Hin'. }
    assert (Hn' : NoDup (order ++ [id])).
    { apply NoDup_app. split_and!; [done | set_solver | apply NoDup_singleton]. }
    assert (Hd' : dom (<[id:=r]> m) = list_to_set (order ++ [id])) by set_solver.
    destruct order as [|o order]; cbn [app] in *.
    + rewrite evict_one by (done || (cbn; unfold PROJECT_RESPONSE_CACHE_CAP; lia)).
      change (PROJECT_RESPONSE_CACHE_CAP <? _) with false.
      split; [|intros; apply lookup_insert_eq].
      split_and!; cbn; [done | set_solver | unfold PROJECT_RESPONSE_CACHE_CAP; lia].
    + rewrite evict_one by (try done; rewrite length_app; cbn [length] in *; lia).
      assert (Ho : o <> id) by set_solver.
      destruct (PROJECT_RESPONSE_CACHE_CAP <? _) eqn:Hcap; cbn; (split; [split_and!; cbn|]).
      * by apply NoDup_cons in Hn' as [_ ?].
      * apply NoDup_cons in Hn' as [Ho' _]. rewrite dom_delete_L, Hd'. set_solver.
      * b2p; cbn [length] in *; rewrite length_app in *; cbn [length] in *; lia.
      * intros _. rewrite lookup_delete_ne by done. apply lookup_insert_eq.
      * done.
      * done.
      * b2p; cbn [length] in *; rewrite length_app in *; cbn [length] in *; lia.
      * intros _. apply lookup_insert_eq.
Qed.

Lemma evict_subseteq m order : (evict m order).1 ⊆ m.
Proof.
  revert m; induction order as [|o order IH]; intros m; cbn [evict]; (case_match; [|done]); [done|].
  etrans; [apply IH | apply delete_subseteq].
Qed.

(** Recording adds the response and forgets, it never alters another one. *)
Lemma record_project_response_lookup now id r st id' r' :
  project_responses_by_decision_id (record_project_response now id r st) !! id' = Some r' ->
  (id' = id /\ r' = r /\ is_empty id = false) \/ project_responses_by_decision_id st !! id' = Some r'.
Proof.
  unfold record_project_response. destruct (is_empty id); [by right|].
  pose proof (evict_subseteq (<[id:=r]> (project_responses_by_decision_id st))
    (match project_responses_by_decision_id st !! id with
     | Some _ => project_response_order st | None => project_response_order st ++ [id] end)) as Hsub.
  destruct (evict _ _) as [m' order']. cbn in *. intros Hl.
  eapply map_subseteq_spec in Hsub; [|exact Hl].
  apply lookup_insert_Some in Hsub. naive_solver.
Qed.

(** A new identifier goes to the end of the queue, which keeps the last ones. *)
Lemma record_project_response_order now id r st :
  responses_wf st -> is_empty id = false ->
  project_responses_by_decision_id st !! id = None ->
  project_response_order (record_project_response now id r st) =
    drop (length (project_response_order st ++ [id]) - Z.to_nat PROJECT_RESPONSE_CACHE_CAP)
      (project_response_order st ++ [id]).
Proof.
  intros (Hn & Hd & Hl) Hid Hm. unfold record_project_response. rewrite Hid, Hm.
  assert (Hin : id ∉ project_response_order st).
  { intros Hin. assert (Hin' : id ∈ dom (project_responses_by_decision_id st)) by (rewrite Hd; set_solver).
    apply elem_of_dom in Hin'. rewrite Hm in Hin'. by destruct Hin'. }
  assert (Hn' : NoDup (project_response_order st ++ [id])).
  { apply NoDup_app. split_and!; [done | set_solver | apply NoDup_singleton]. }
  assert (Hd' : dom (<[id:=r]> (project_responses_by_decision_id st))
                = list_to_set (project_response_order st ++ [id])) by set_solver.
  assert (Hlen : Z.of_nat (length (project_response_order st ++ [id])) <= PROJECT_RESPONSE_CACHE_CAP + 1)
    by (rewrite length_app; cbn [length]; lia).
  destruct (project_response_order st ++ [id]) as [|o order] eqn:Ho; [by destruct (project_response_order st)|].
  cbn [length] in Hlen. rewrite evict_one by (done || lia).
  destruct (PROJECT_RESPONSE_CACHE_CAP <? _) eqn:Hcap; b2p; cbn [project_response_order touch set_responses length].
  - replace (S (length order) - _)%nat with 1%nat by lia. done.
  - replace (S (length order) - _)%nat with 0%nat by lia. done.
Qed.

Lemma push_capped_length costs c :
  Z.of_nat (length costs) <= HISTORY_CAP ->
  Z.of_nat (length (push_capped costs c)) <= HISTORY_CAP.
Proof.
  unfold push_capped. intros Hl. case_match; [|lia].
  rewrite length_drop. unfold HISTORY_CAP in *. lia.
Qed.

(** After any sequence of steps the history is its most recent [HISTORY_CAP] costs. *)
Lemma push_capped_fold costs :
  fold_left push_capped costs [] =
    drop (length costs - Z.to_nat HISTORY_CAP) costs.
Proof.
  induction costs as [|c costs IH] using rev_ind; [done|].
  rewrite fold_left_app, IH. cbn [fold_left]. unfold push_capped, HISTORY_CAP.
  rewrite !length_app, length_drop. cbn [length].
  change (Z.to_nat 256) with 256%nat. destruct (256 <? _) eqn:Hc; b2p.
  - rewrite drop_app_le by (rewrite length_drop; lia).
    rewrite drop_app_le by lia. rewrite drop_drop. do 2 f_equal. lia.
  - destruct (decide (length costs <= 256)%nat).
    + replace (length costs - 256)%nat with 0%nat by lia.
      replace (length costs + 1 - 256)%nat with 0%nat by lia. done.
    + lia.
Qed.

Lemma run_state_new_wf now t r a m : run_state_wf (run_state_new now t r a m).
Proof.
  split; [split_and!|]; cbn; [apply NoDup_nil_2 | set_solver | | ];
    unfold PROJECT_RESPONSE_CACHE_CAP, HISTORY_CAP; lia.
Qed.

(** ** The cache *)

Lemma cache_get_Some now key c a c' :
  cache_get now key c = (Some a, c') ->
  al_get key (lru_items (inner c)) = Some a /\
  heap c' = heap c /\
  al_get key (lru_items (inner c')) = Some a /\
  (forall st, heap c !! a = Some st -> elapsed now (last_activity_at st) < ttl c).
Proof.
  unfold cache_get. pose proof (lru_get_result key (inner c)) as Hr.
  pose proof (lru_get_items key (inner c)) as Hi.
  destruct (lru_get key (inner c)) as [[a0|] i]; cbn in *; [|done].
  intros Hg. destruct (heap c !! a0) as [st|] eqn:Hh; [destruct (is_expired now c st) eqn:He|];
    simplify_eq; cbn; rewrite Hi, <- Hr; cbn; rewrite decide_True by done;
    split_and!; try done; intros st' Hst; simplify_eq.
  unfold is_expired in He. lia.
Qed.

Lemma cache_get_wf now key c : cache_wf c -> cache_wf (cache_get now key c).2.
Proof.
  intros [Hl Hp]. unfold cache_get.
  pose proof (lru_get_wf key (inner c) Hl) as Hl'. pose proof (lru_get_items key (inner c)) as Hi.
  pose proof (lru_get_result key (inner c)) as Hr.
  destruct (lru_get key (inner c)) as [o i]; cbn in *.
  assert (Hpi : forall k a, al_get k (lru_items i) = Some a -> is_Some (heap c !! a)).
  { intros k a. rewrite Hi. destruct (al_get key _) as [v|] eqn:Ek; [|by apply Hp]. cbn.
    case_decide; [intros; simplify_eq; eauto|]. rewrite al_get_remove. case_decide; [done|]. apply Hp. }
  destruct o as [a|]; [|by split].
  destruct (match heap c !! a with Some _ => _ | None => _ end); [|by split].
  split; cbn; [by apply lru_pop_wf|].
  intros k a'. rewrite lru_pop_items, al_get_remove. case_decide; [done|]. apply Hpi.
Qed.

Lemma alloc_fresh st c a c' :
  alloc st c = (a, c') ->
  heap c !! a = None /\ heap c' = <[a := st]> (heap c) /\ inner c' = inner c /\ ttl c' = ttl c.
Proof.
  unfold alloc. cbn zeta. intros [= <- <-]. cbn. split_and!; try done.
  apply not_elem_of_dom. apply is_fresh.
Qed.

Lemma al_get_take {V} k (v : V) n (l : list (RunStateKey * V)) :
  al_get k (take n l) = Some v -> al_get k l = Some v.
Proof.
  revert n; induction l as [|[k0 v0] l IH]; intros [|n]; cbn; try done.
  case_decide; [done|]. apply IH.
Qed.

Lemma cache_insert_wf key st c : cache_wf c -> cache_wf (cache_insert key st c).2.
Proof.
  intros [Hl Hp]. unfold cache_insert. destruct (alloc st c) as [a c'] eqn:Ha.
  apply alloc_fresh in Ha as (Hf & Hh & Hi & _). split; cbn; rewrite Hi.
  - by apply lru_put_wf.
  - intros k a'. rewrite lru_put_items, Hh. intros Hk%al_get_take. cbn in Hk.
    rewrite lookup_insert_is_Some'. case_decide; [simplify_eq; by left|].
    rewrite al_get_remove in Hk. case_decide; [done|]. right. by eapply Hp.
Qed.

Lemma cache_get_or_insert_wf key st c : cache_wf c -> cache_wf (cache_get_or_insert key st c).2.
Proof.
  intros [Hl Hp]. unfold cache_get_or_insert.
  pose proof (lru_get_wf key (inner c) Hl) as Hl'. pose proof (lru_get_items key (inner c)) as Hi.
  pose proof (lru_get_result key (inner c)) as Hr.
  destruct (lru_get key (inner c)) as [[a|] i]; cbn [fst snd] in *.
  - split; cbn; [done|]. intros k a'. rewrite Hi, <- Hr. cbn.
    case_decide; [intros; simplify_eq; eauto|]. rewrite al_get_remove. case_decide; [done|]. apply Hp.
  - apply (cache_insert_wf key st (set_inner i c)). split; cbn; [done|]. rewrite Hi, <- Hr. apply Hp.
Qed.

Lemma cache_remove_wf key c : cache_wf c -> cache_wf (cache_remove key c).2.
Proof.
  intros [Hl Hp]. unfold cache_remove. pose proof (lru_pop_wf key (inner c) Hl) as Hw.
  pose proof (lru_pop_items key (inner c)) as Hi.
  destruct (lru_pop key (inner c)) as [r i]; cbn in *. split; cbn; [done|].
  intros k a. rewrite Hi, al_get_remove. case_decide; [done|]. apply Hp.
Qed.

(** A run that is cached keeps its state: a concurrent recovery never replaces it. *)
Lemma cache_get_or_insert_existing key st c a :
  al_get key (lru_items (inner c)) = Some a ->
  (cache_get_or_insert key st c).1 = a /\ heap (cache_get_or_insert key st c).2 = heap c.
Proof.
  intros Ha. unfold cache_get_or_insert. pose proof (lru_get_result key (inner c)) as Hr.
  destruct (lru_get key (inner c)) as [o i]; cbn in *. rewrite Hr, Ha. done.
Qed.

Lemma cache_get_heap now key c o c' : cache_get now key c = (o, c') -> heap c' = heap c.
Proof.
  unfold cache_get. destruct (lru_get key (inner c)) as [[a|] i]; intros Hg;
    [destruct (match heap c !! a with Some _ => _ | None => _ end)|]; by simplify_eq.
Qed.

Lemma update_cell_wf a st c : cache_wf c -> cache_wf (update_cell a st c).
Proof.
  intros [Hl Hp]. split; cbn; [done|]. intros k a' Hk. rewrite lookup_insert_is_Some'. right. by eapply Hp.
Qed.

Lemma cache_get_or_insert_allocated key st c :
  cache_wf c -> is_Some (heap (cache_get_or_insert key st c).2 !! (cache_get_or_insert key st c).1).
Proof.
  intros [Hl Hp]. unfold cache_get_or_insert. pose proof (lru_get_result key (inner c)) as Hr.
  destruct (lru_get key (inner c)) as [[a|] i]; cbn in *; [by eapply (Hp key)|].
  rewrite lookup_insert_eq. eauto.
Qed.

End RunState.
