(* ===== verification/Projector.v ===== *)
(** * The run cost projector

    [services/run_cost_projector/src]: the three signals ([signal_1.rs],
    [signal_2.rs], [signal_3.rs]), their layering into a projection and a run
    code ([layering.rs]) and the RPC handlers ([server.rs]). [project] reads a
    snapshot of the run state under its lock, computes without the lock, and
    commits only when the snapshot is still current, else it starts again: the
    handler is a thread of atomic sections and the theorems are about every
    interleaving of such threads. The database queries (the p95 run length and
    the recovery row) are inputs. *)

From S2P Require Import Prelude Deps Floats RunState.

(** ** Signal 1: the historical run length *)

(** [(p95_int as i64 - steps).max(0).min(i32::MAX as i64) as i32]. *)
Definition remaining_steps (planned steps_completed : Z) : Z :=
  Z.min (Z.max (planned - steps_completed) 0) i32_max.

Definition signal_1_from_p95 (p95_steps : option spec_float) (steps_completed : Z)
    (cold_start_default_run_length : Z) : Z * bool :=
  match p95_steps with
  | Some p95 => (remaining_steps (f_to_i32 (f_max p95 (S754_zero false))) steps_completed, false)
  | None => (remaining_steps cold_start_default_run_length steps_completed, true)
  end.

(** ** Signal 2: drift of the predicted remaining cost *)

Inductive DriftVerdict := NoDrift | Suspect | Confirmed.

#[export] Instance DriftVerdict_eq_dec : EqDecision DriftVerdict.
Proof. solve_decision. Defined.

Definition evaluate_drift (predicted_remaining_cost_now : Z)
    (last_predicted_remaining_cost : option Z) (drift_consecutive_count : Z)
    (drift_ratio_threshold : spec_float) (drift_consecutive_threshold : Z)
    : DriftVerdict * Z :=
  match last_predicted_remaining_cost with
  | None => (NoDrift, 0)
  | Some prior =>
      if prior <=? 0 then (NoDrift, 0)
      else
        let ratio := f64_div (f64_of_Z predicted_remaining_cost_now) (f64_of_Z prior) in
        let delta := SFabs (f64_sub ratio (f64_of_Z 1)) in
        if f_gt delta drift_ratio_threshold then
          let new_count := u32_sat (drift_consecutive_count + 1) in
          if drift_consecutive_threshold <=? new_count then (Confirmed, new_count)
          else (Suspect, new_count)
        else (NoDrift, 0)
  end.

Definition compute_projection (cumulative this_call remaining_cost : Z) : Z :=
  i64_sat (i64_sat (cumulative + this_call) + remaining_cost).

(** ** Signal 3: the planned steps declared by the caller *)

Definition apply_signal3_override (signal1_predicted_steps planned_steps_hint steps_completed : Z) : Z :=
  if planned_steps_hint <=? 0 then signal1_predicted_steps
  else remaining_steps planned_steps_hint steps_completed.

Definition steps_exceeded (planned_steps_hint steps_completed : Z) : bool :=
  if planned_steps_hint <=? 0 then false else planned_steps_hint <? steps_completed.

(** ** Layering *)

Inductive RunCode := BudgetProjectionExceeded | StepsExceeded | DriftDetected.

#[export] Instance RunCode_eq_dec : EqDecision RunCode.
Proof. solve_decision. Defined.

Definition code_as_str (c : RunCode) : string :=
  match c with
  | BudgetProjectionExceeded => "RUN_BUDGET_PROJECTION_EXCEEDED"
  | StepsExceeded => "RUN_STEPS_EXCEEDED"
  | DriftDetected => "RUN_DRIFT_DETECTED"
  end.

(** [run_cost_projector.v1.StrategyUsed] with its protocol numbers. *)
Inductive StrategyUsed := STRATEGY_USED_UNSPECIFIED | ColdStart | S1 | S1s2 | S3 | S1s2s3.

Definition strategy_number (s : StrategyUsed) : Z :=
  match s with
  | STRATEGY_USED_UNSPECIFIED => 0 | ColdStart => 1 | S1 => 2 | S1s2 => 3 | S3 => 4 | S1s2s3 => 5
  end.

Record LayeringInputs := {
  in_cumulative_cost_atomic : Z;
  in_this_call_reservation_atomic : Z;
  in_steps_completed : Z;
  in_budget_remaining_atomic : Z;
  in_signal1_predicted_remaining_steps : Z;
  in_signal1_is_cold_start : bool;
  in_planned_steps_hint : Z;
  in_drift_confirmed : bool;
  in_per_step_baseline_atomic : Z;
}.

Record LayeringResult := {
  lr_projection_atomic : Z;
  lr_predicted_remaining_steps : Z;
  lr_steps_completed_so_far : Z;
  lr_predicted_remaining_cost_atomic : Z;
  lr_strategy_used : StrategyUsed;
  lr_emitted_code : option RunCode;
  lr_considered_codes : list RunCode;
}.

Definition compute_layering (i : LayeringInputs) : LayeringResult :=
  let signal3_active := 0 <? in_planned_steps_hint i in
  let predicted_remaining_steps :=
    if signal3_active then
      apply_signal3_override (in_signal1_predicted_remaining_steps i)
        (in_planned_steps_hint i) (in_steps_completed i)
    else in_signal1_predicted_remaining_steps i in
  let predicted_remaining_cost_atomic :=
    i64_sat (predicted_remaining_steps * Z.max (in_per_step_baseline_atomic i) 0) in
  let projection_atomic :=
    compute_projection (in_cumulative_cost_atomic i) (in_this_call_reservation_atomic i)
      predicted_remaining_cost_atomic in
  let future_commitment_atomic :=
    i64_sat (in_this_call_reservation_atomic i + predicted_remaining_cost_atomic) in
  let considered :=
    (if in_budget_remaining_atomic i <? future_commitment_atomic
     then [BudgetProjectionExceeded] else []) ++
    (if signal3_active && steps_exceeded (in_planned_steps_hint i) (in_steps_completed i)
     then [StepsExceeded] else []) ++
    (if in_drift_confirmed i then [DriftDetected] else []) in
  let emitted :=
    if bool_decide (BudgetProjectionExceeded ∈ considered) then Some BudgetProjectionExceeded
    else if bool_decide (StepsExceeded ∈ considered) then Some StepsExceeded
    else if bool_decide (DriftDetected ∈ considered) then Some DriftDetected
    else None in
  let strategy :=
    match signal3_active, in_signal1_is_cold_start i, in_drift_confirmed i with
    | true, true, _ => S3
    | true, false, true => S1s2s3
    | true, false, false => S1s2s3
    | false, true, _ => ColdStart
    | false, false, true => S1s2
    | false, false, false => S1s2
    end in
  {| lr_projection_atomic := projection_atomic;
     lr_predicted_remaining_steps := predicted_remaining_steps;
     lr_steps_completed_so_far := in_steps_completed i;
     lr_predicted_remaining_cost_atomic := predicted_remaining_cost_atomic;
     lr_strategy_used := strategy;
     lr_emitted_code := emitted;
     lr_considered_codes := considered |}.

(** ** The handlers *)

Definition MAX_RUN_ID_LEN : Z := 64.
Definition MAX_AGENT_ID_LEN : Z := 256.
Definition MAX_MODEL_LEN : Z := 128.
Definition MAX_DECISION_ID_LEN : Z := 64.
Definition MAX_PLANNED_STEPS : Z := 10000.

Record ProjectRequest := {
  rq_tenant_id : string;
  rq_run_id : string;
  rq_agent_id : string;
  rq_model : string;
  rq_decision_id : string;
  rq_this_call_reservation_atomic : Z;
  rq_budget_remaining_atomic : Z;
  rq_planned_steps_hint : Z;
}.

Record Config := {
  cold_start_run_length : Z;
  drift_ratio_threshold : spec_float;
  drift_consecutive_threshold : Z;
}.

(** [Status::invalid_argument], by what is wrong. *)
Inductive InvalidArgument :=
  | TenantIdNotUuid | RunIdNotUuid | AgentIdRequired | AgentIdTooLong | RunIdTooLong
  | ModelTooLong | DecisionIdTooLong | NegativeReservation | NegativeBudget | HintOutOfRange.

Section Projector.
Context `{UuidLib, LruLib}.

Definition validate_project_request (req : ProjectRequest)
    : result InvalidArgument (uuid * uuid) :=
  tenant_id ← ok_or (uuid_parse (rq_tenant_id req)) TenantIdNotUuid;
  run_id ← ok_or (uuid_parse (rq_run_id req)) RunIdNotUuid;
  require negb (is_empty (rq_agent_id req)) else AgentIdRequired;
  require negb (MAX_AGENT_ID_LEN <? slen (rq_agent_id req)) else AgentIdTooLong;
  require negb (MAX_RUN_ID_LEN <? slen (rq_run_id req)) else RunIdTooLong;
  require negb (MAX_MODEL_LEN <? slen (rq_model req)) else ModelTooLong;
  require negb (MAX_DECISION_ID_LEN <? slen (rq_decision_id req)) else DecisionIdTooLong;
  require negb (rq_this_call_reservation_atomic req <? 0) else NegativeReservation;
  require negb (rq_budget_remaining_atomic req <? 0) else NegativeBudget;
  require negb ((rq_planned_steps_hint req <? 0)
                || (MAX_PLANNED_STEPS <? rq_planned_steps_hint req)) else HintOutOfRange;
  mret (tenant_id, run_id).

Definition validate_terminate_request (tenant_id_str run_id_str : string)
    : result InvalidArgument (uuid * uuid) :=
  tenant_id ← ok_or (uuid_parse tenant_id_str) TenantIdNotUuid;
  run_id ← ok_or (uuid_parse run_id_str) RunIdNotUuid;
  require negb (MAX_RUN_ID_LEN <? slen run_id_str) else RunIdTooLong;
  mret (tenant_id, run_id).

(** The five fields the handler copies out under the lock, and compares again
    before it commits. *)
Record Snapshot := {
  sn_cumulative_cost_atomic : Z;
  sn_steps_completed : Z;
  sn_last_predicted_remaining_cost : option Z;
  sn_drift_consecutive_count : Z;
  sn_hint_latched : option Z;
}.

#[export] Instance Snapshot_eq_dec : EqDecision Snapshot.
Proof. solve_decision. Defined.

Definition snapshot (st : RunState) : Snapshot :=
  {| sn_cumulative_cost_atomic := cumulative_cost_atomic st;
     sn_steps_completed := steps_completed st;
     sn_last_predicted_remaining_cost := last_predicted_remaining_cost st;
     sn_drift_consecutive_count := drift_consecutive_count st;
     sn_hint_latched := signal3_hint_planned_steps st |}.

(** The result of the Signal 1 query: an error, or the stored p95 if any. *)
Definition P95 := option (option spec_float).

Definition effective_hint (req : ProjectRequest) (sn : Snapshot) : Z :=
  match sn_hint_latched sn with
  | Some h => h
  | None => if 0 <? rq_planned_steps_hint req then rq_planned_steps_hint req else 0
  end.

(** What the lock-free part computes: the response, and the values a commit stores. *)
Record Computed := {
  cp_response : ProjectResponse;
  cp_predicted_remaining_cost : Z;
  cp_new_drift_count : Z;
}.

Definition inputs_of (cfg : Config) (req : ProjectRequest) (p95 : P95) (sn : Snapshot)
    (drift_confirmed : bool) : LayeringInputs :=
  let '(s1_predicted_steps, s1_is_cold) :=
    match p95 with
    | None => (cold_start_run_length cfg, true)
    | Some p95_steps_cached =>
        signal_1_from_p95 p95_steps_cached (sn_steps_completed sn) (cold_start_run_length cfg)
    end in
  {| in_cumulative_cost_atomic := sn_cumulative_cost_atomic sn;
     in_this_call_reservation_atomic := rq_this_call_reservation_atomic req;
     in_steps_completed := sn_steps_completed sn;
     in_budget_remaining_atomic := rq_budget_remaining_atomic req;
     in_signal1_predicted_remaining_steps := s1_predicted_steps;
     in_signal1_is_cold_start := s1_is_cold;
     in_planned_steps_hint := effective_hint req sn;
     in_drift_confirmed := drift_confirmed;
     in_per_step_baseline_atomic := rq_this_call_reservation_atomic req |}.

Definition compute (cfg : Config) (req : ProjectRequest) (p95 : P95) (sn : Snapshot) : Computed :=
  let inputs := inputs_of cfg req p95 sn false in
  let provisional := compute_layering inputs in
  let '(drift_verdict, new_drift_count) :=
    evaluate_drift (lr_predicted_remaining_cost_atomic provisional)
      (sn_last_predicted_remaining_cost sn) (sn_drift_consecutive_count sn)
      (drift_ratio_threshold cfg) (drift_consecutive_threshold cfg) in
  let drift_confirmed := bool_decide (drift_verdict = Confirmed) in
  let res := compute_layering (inputs_of cfg req p95 sn drift_confirmed) in
  {| cp_response :=
       {| run_projection_at_decision_atomic := lr_projection_atomic res;
          run_predicted_remaining_steps := lr_predicted_remaining_steps res;
          run_steps_completed_so_far := lr_steps_completed_so_far res;
          strategy_used := strategy_number (lr_strategy_used res);
          emitted_code := match lr_emitted_code res with
                          | Some c => code_as_str c
                          | None => EmptyString
                          end;
          considered_codes := code_as_str <$> lr_considered_codes res;
          projection_confidence := if in_signal1_is_cold_start inputs
                                   then f32_lit 5 10 else f32_lit 9 10 |};
     cp_predicted_remaining_cost := lr_predicted_remaining_cost_atomic res;
     cp_new_drift_count := new_drift_count |}.

(** The first locked section: a cached response, or a snapshot. *)
Definition read_section (now : Z) (req : ProjectRequest) (st : RunState)
    : RunState * (ProjectResponse + Snapshot) :=
  match cached_project_response now (rq_decision_id req) st with
  | (Some response, st) => (st, inl response)
  | (None, st) => (st, inr (snapshot st))
  end.

(** What a commit writes. *)
Definition commit_writes (now : Z) (req : ProjectRequest) (sn : Snapshot) (cp : Computed)
    (st : RunState) : RunState :=
  let st := record_step now (rq_this_call_reservation_atomic req) st in
  let hint := effective_hint req sn in
  let latched := match signal3_hint_planned_steps st with
                 | None => if 0 <? hint then Some hint else None
                 | Some h => Some h
                 end in
  let st := set_signals (Some (cp_predicted_remaining_cost cp)) (cp_new_drift_count cp) latched st in
  record_project_response now (rq_decision_id req) (cp_response cp) st.

(** The second locked section: a cached response, a retry, or a commit. *)
Inductive commit_outcome := Replayed (r : ProjectResponse) | Retry | Committed (r : ProjectResponse).

Definition commit_section (now : Z) (cfg : Config) (req : ProjectRequest) (p95 : P95)
    (sn : Snapshot) (st : RunState) : RunState * commit_outcome :=
  let cp := compute cfg req p95 sn in
  match cached_project_response now (rq_decision_id req) st with
  | (Some cached, st) => (st, Replayed cached)
  | (None, st) =>
      if negb (bool_decide (snapshot st = sn)) then (st, Retry)
      else (commit_writes now req sn cp st, Committed (cp_response cp))
  end.

(** What recovery leaves of an audit row: the step counter only. The row, if
    any, holds [run_steps_completed_so_far]. *)
Definition recover_from_audit_chain (now : Z) (tenant_id run_id : uuid) (agent_id model : string)
    (row : option (option Z)) : option RunState :=
  match row with
  | None => None
  | Some steps =>
      let steps_completed := Z.max (default 0 steps) 0 in
      let st := run_state_new now tenant_id run_id agent_id model in
      Some {| st_tenant_id := st_tenant_id st; st_run_id := st_run_id st;
              st_agent_id := st_agent_id st; st_model := st_model st;
              steps_completed := steps_completed;
              cumulative_cost_atomic := 0; per_step_costs := [];
              last_predicted_remaining_cost := None; drift_consecutive_count := 0;
              signal3_hint_planned_steps := signal3_hint_planned_steps st;
              last_activity_at := last_activity_at st; started_at := started_at st;
              project_responses_by_decision_id := project_responses_by_decision_id st;
              project_response_order := project_response_order st |}
  end.

(** *** [project] as a thread *)

Inductive Thread :=
  | TStart (req : ProjectRequest)
  | TRecover (req : ProjectRequest) (key : RunStateKey)
  | TFetch (req : ProjectRequest) (a : nat)
  | TRead (req : ProjectRequest) (a : nat) (p95 : P95)
  | TCommit (req : ProjectRequest) (a : nat) (p95 : P95) (sn : Snapshot)
  | TDone (req : ProjectRequest) (a : nat) (r : ProjectResponse)
  | TFailed (e : InvalidArgument).

(** What the environment gives a step: the clock, the recovery row, the p95. *)
Record StepInput := {
  si_now : Z;
  si_recovered : option (option Z);
  si_p95 : P95;
}.

(** A committed call: the location, the request, the p95 and the response sent. *)
Record Commit := {
  cm_cell : nat;
  cm_req : ProjectRequest;
  cm_p95 : P95;
  cm_response : ProjectResponse;
}.

(** One atomic step of a thread; the third component is the commit it made. *)
Definition thread_step (cfg : Config) (i : StepInput) (t : Thread) (c : RunStateCache)
    : Thread * RunStateCache * option Commit :=
  match t with
  | TStart req =>
      match validate_project_request req with
      | Err e => (TFailed e, c, None)
      | Ok (tenant_id, run_id) =>
          let key := {| k_tenant_id := tenant_id; k_run_id := run_id |} in
          match cache_get (si_now i) key c with
          | (Some a, c) => (TFetch req a, c, None)
          | (None, c) => (TRecover req key, c, None)
          end
      end
  | TRecover req key =>
      let recovered := recover_from_audit_chain (si_now i) (k_tenant_id key) (k_run_id key)
                         (rq_agent_id req) (rq_model req) (si_recovered i) in
      let fresh_state := match recovered with
                         | Some st => st
                         | None => run_state_new (si_now i) (k_tenant_id key) (k_run_id key)
                                     (rq_agent_id req) (rq_model req)
                         end in
      let '(a, c) := cache_get_or_insert key fresh_state c in
      (TFetch req a, c, None)
  | TFetch req a => (TRead req a (si_p95 i), c, None)
  | TRead req a p95 =>
      match heap c !! a with
      | None => (t, c, None)
      | Some st =>
          match read_section (si_now i) req st with
          | (st, inl r) => (TDone req a r, update_cell a st c, None)
          | (st, inr sn) => (TCommit req a p95 sn, update_cell a st c, None)
          end
      end
  | TCommit req a p95 sn =>
      match heap c !! a with
      | None => (t, c, None)
      | Some st =>
          match commit_section (si_now i) cfg req p95 sn st with
          | (st, Replayed r) => (TDone req a r, update_cell a st c, None)
          | (st, Retry) => (TRead req a p95, update_cell a st c, None)
          | (st, Committed r) =>
              (TDone req a r, update_cell a st c,
               Some {| cm_cell := a; cm_req := req; cm_p95 := p95; cm_response := r |})
          end
      end
  | TDone _ _ _ | TFailed _ => (t, c, None)
  end.

Definition terminate_run (tenant_id_str run_id_str : string) (c : RunStateCache)
    : result InvalidArgument (bool * RunStateCache) :=
  '(tenant_id, run_id) ← validate_terminate_request tenant_id_str run_id_str;
  mret (cache_remove {| k_tenant_id := tenant_id; k_run_id := run_id |} c).

(** *** The service: threads interleaved over the shared cache *)

Record System := {
  sys_threads : gmap nat Thread;
  sys_cache : RunStateCache;
  (** the commits so far, oldest first *)
  sys_log : list Commit;
}.

Inductive system_step (cfg : Config) : System -> System -> Prop :=
  | sys_spawn s tid req :
      sys_threads s !! tid = None ->
      system_step cfg s {| sys_threads := <[tid := TStart req]> (sys_threads s);
                           sys_cache := sys_cache s; sys_log := sys_log s |}
  | sys_thread s tid t i t' c' ev :
      sys_threads s !! tid = Some t ->
      thread_step cfg i t (sys_cache s) = (t', c', ev) ->
      system_step cfg s {| sys_threads := <[tid := t']> (sys_threads s);
                           sys_cache := c'; sys_log := sys_log s ++ option_list ev |}
  | sys_terminate s tenant run removed c' :
      terminate_run tenant run (sys_cache s) = Ok (removed, c') ->
      system_step cfg s {| sys_threads := sys_threads s; sys_cache := c'; sys_log := sys_log s |}.

Definition system_init (capacity ttl : Z) : System :=
  {| sys_threads := ∅; sys_cache := cache_new capacity ttl; sys_log := [] |}.

Inductive reachable (cfg : Config) (capacity ttl : Z) : System -> Prop :=
  | reach_init : reachable cfg capacity ttl (system_init capacity ttl)
  | reach_step s s' :
      reachable cfg capacity ttl s -> system_step cfg s s' -> reachable cfg capacity ttl s'.

(** ** The specification: one atomic call *)

(** The call applied to the accounting fields alone, in one piece. *)
Definition project_atomic (cfg : Config) (req : ProjectRequest) (p95 : P95) (sn : Snapshot)
    : Snapshot * ProjectResponse :=
  let cp := compute cfg req p95 sn in
  ({| sn_cumulative_cost_atomic :=
        i64_sat (sn_cumulative_cost_atomic sn + rq_this_call_reservation_atomic req);
      sn_steps_completed := i64_wrap (sn_steps_completed sn + 1);
      sn_last_predicted_remaining_cost := Some (cp_predicted_remaining_cost cp);
      sn_drift_consecutive_count := cp_new_drift_count cp;
      sn_hint_latched := match sn_hint_latched sn with
                         | Some h => Some h
                         | None => if 0 <? rq_planned_steps_hint req
                                   then Some (rq_planned_steps_hint req) else None
                         end |},
   cp_response cp).

(** A log of atomic calls leads from one state to another, each response being
    the one computed from the state its call started from. *)
Fixpoint explains (cfg : Config) (log : list Commit) (sn sn' : Snapshot) : Prop :=
  match log with
  | [] => sn' = sn
  | cm :: log =>
      let '(sn1, r) := project_atomic cfg (cm_req cm) (cm_p95 cm) sn in
      r = cm_response cm /\ explains cfg log sn1 sn'
  end.

(** A state no call has touched: new, or recovered with a step counter. *)
Definition fresh_snapshot (sn : Snapshot) : Prop :=
  sn_cumulative_cost_atomic sn = 0 /\ 0 <= sn_steps_completed sn /\
  sn_last_predicted_remaining_cost sn = None /\ sn_drift_consecutive_count sn = 0 /\
  sn_hint_latched sn = None.

Definition log_of (a : nat) (log : list Commit) : list Commit :=
  filter (fun cm => cm_cell cm = a) log.

(** The idempotency keys of a log. *)
Definition ids_of (log : list Commit) : list string :=
  filter (fun id => is_empty id = false) ((fun cm => rq_decision_id (cm_req cm)) <$> log).

(** ** The accounting of concurrent calls *)

Lemma explains_snoc cfg log cm sn sn' sn'' r :
  explains cfg log sn sn' ->
  project_atomic cfg (cm_req cm) (cm_p95 cm) sn' = (sn'', r) -> r = cm_response cm ->
  explains cfg (log ++ [cm]) sn sn''.
Proof.
  intros Hlog Hcm Hr. revert sn Hlog.
  induction log as [|cm0 log IH]; intros sn; cbn [explains app].
  - intros ->. by rewrite Hcm.
  - destruct (project_atomic cfg (cm_req cm0) _ sn) as [sn1 r1]. intros [Hr1 Hlog]. eauto.
Qed.

Lemma snapshot_touch now st : snapshot (touch now st) = snapshot st.
Proof. done. Qed.

Lemma snapshot_record_response now id r st :
  snapshot (record_project_response now id r st) = snapshot st.
Proof. unfold record_project_response. repeat case_match; done. Qed.

Lemma costs_record_response now id r st :
  per_step_costs (record_project_response now id r st) = per_step_costs st.
Proof. unfold record_project_response. repeat case_match; done. Qed.

Lemma cached_response_snapshot now id st o st' :
  cached_project_response now id st = (o, st') ->
  snapshot st' = snapshot st /\
  project_response_order st' = project_response_order st /\
  project_responses_by_decision_id st' = project_responses_by_decision_id st /\
  per_step_costs st' = per_step_costs st.
Proof. unfold cached_project_response. intros Hc. repeat case_match; by simplify_eq. Qed.

(** A commit is the atomic call on the state it finds: the snapshot it computed
    from is the one it still sees. *)
Lemma commit_atomic now cfg req p95 sn st st' r :
  commit_section now cfg req p95 sn st = (st', Committed r) ->
  project_atomic cfg req p95 (snapshot st) = (snapshot st', r) /\
  cached_project_response now (rq_decision_id req) st = (None, st) /\
  st' = commit_writes now req (snapshot st) (compute cfg req p95 (snapshot st)) st.
Proof.
  unfold commit_section. intros Hc.
  destruct (cached_project_response _ _ st) as [[cached|] st1] eqn:Hcache; [done|].
  assert (Hst : st1 = st).
  { unfold cached_project_response in Hcache. repeat case_match; by simplify_eq. }
  subst st1. case_bool_decide as Hsn; [|done]. cbn in Hc.
  injection Hc as Hst' Hr. subst r sn. split_and!; [|done|done].
  subst st'. unfold commit_writes. rewrite snapshot_record_response.
  unfold project_atomic, snapshot; cbn. unfold effective_hint; cbn.
  repeat f_equal. destruct (signal3_hint_planned_steps st); [done|].
  destruct (0 <? rq_planned_steps_hint req) eqn:Hh; [by rewrite Hh | done].
Qed.

Lemma commit_not_cached now id st :
  cached_project_response now id st = (None, st) -> is_empty id = false ->
  project_responses_by_decision_id st !! id = None.
Proof. unfold cached_project_response. intros Hc Hid. rewrite Hid in Hc. by case_match. Qed.

Section Invariant.
Context (cfg : Config).

(** What holds of the state in a location, given the commits made so far. *)
Record cell_inv (log : list Commit) (a : nat) (st : RunState) : Prop := {
  ci_wf : run_state_wf st;
  ci_explained : exists sn0, fresh_snapshot sn0 /\ explains cfg (log_of a log) sn0 (snapshot st);
  ci_order : project_response_order st =
    drop (length (ids_of (log_of a log)) - Z.to_nat PROJECT_RESPONSE_CACHE_CAP)
      (ids_of (log_of a log));
  ci_responses id r : project_responses_by_decision_id st !! id = Some r ->
    exists cm, cm ∈ log_of a log /\ rq_decision_id (cm_req cm) = id /\ cm_response cm = r;
}.

Definition thread_inv (log : list Commit) (c : RunStateCache) (t : Thread) : Prop :=
  match t with
  | TStart _ | TFailed _ | TRecover _ _ => True
  | TFetch _ a | TRead _ a _ | TCommit _ a _ _ => is_Some (heap c !! a)
  | TDone req a r =>
      exists cm, cm ∈ log_of a log /\ rq_decision_id (cm_req cm) = rq_decision_id req /\
                 cm_response cm = r
  end.

Record sys_inv (s : System) : Prop := {
  si_cache : cache_wf (sys_cache s);
  si_cells a st : heap (sys_cache s) !! a = Some st -> cell_inv (sys_log s) a st;
  si_threads tid t : sys_threads s !! tid = Some t -> thread_inv (sys_log s) (sys_cache s) t;
  si_log cm : cm ∈ sys_log s -> is_Some (heap (sys_cache s) !! cm_cell cm);
}.

Lemma log_of_snoc a log cm :
  log_of a (log ++ [cm]) = log_of a log ++ (if decide (cm_cell cm = a) then [cm] else []).
Proof. unfold log_of. rewrite filter_app, filter_cons, filter_nil. by case_decide. Qed.

Lemma ids_of_snoc log cm :
  ids_of (log ++ [cm]) =
    ids_of log ++ (if is_empty (rq_decision_id (cm_req cm)) then [] else [rq_decision_id (cm_req cm)]).
Proof.
  unfold ids_of. rewrite fmap_app, filter_app. cbn [fmap list_fmap]. rewrite filter_cons, filter_nil.
  case_decide as Hd; destruct (is_empty _); done.
Qed.

Lemma cell_inv_fresh log a st :
  (forall cm, cm ∈ log -> cm_cell cm <> a) -> run_state_wf st -> fresh_snapshot (snapshot st) ->
  project_responses_by_decision_id st = ∅ -> cell_inv log a st.
Proof.
  intros Hlog Hwf Hfresh Hm.
  assert (Hnil : log_of a log = []).
  { apply list.elem_of_nil_inv. intros cm [Ha Hcm]%list_elem_of_filter. by apply (Hlog cm). }
  split; rewrite ?Hnil; cbn; [done | by eauto | | by rewrite Hm].
  destruct Hwf as [(Hn & Hd & _) _]. rewrite Hm, dom_empty_L in Hd.
  destruct (project_response_order st); [done | set_solver].
Qed.

(** A locked section that only reads keeps the invariant. *)
Lemma cell_inv_cached log a now id st o st' :
  cell_inv log a st -> cached_project_response now id st = (o, st') -> cell_inv log a st'.
Proof.
  intros [Hwf (sn0 & Hf & Hx) Ho Hr] Hc.
  apply cached_response_snapshot in Hc as (Hs & Hord & Hm & Hp).
  split; rewrite ?Hs, ?Hord, ?Hm; [|by eauto|done|done].
  unfold run_state_wf, responses_wf in *. by rewrite Hord, Hm, Hp.
Qed.

Lemma commit_writes_wf now req sn cp st : run_state_wf st -> run_state_wf (commit_writes now req sn cp st).
Proof.
  intros [Hr Hc]. unfold commit_writes. split.
  - by apply record_project_response_wf.
  - rewrite costs_record_response. cbn. by apply push_capped_length.
Qed.

Lemma cell_inv_commit log a now req p95 sn st st' r :
  cell_inv log a st -> commit_section now cfg req p95 sn st = (st', Committed r) ->
  cell_inv (log ++ [{| cm_cell := a; cm_req := req; cm_p95 := p95; cm_response := r |}]) a st'.
Proof.
  intros [Hwf (sn0 & Hf & Hx) Ho Hr] Hc. apply commit_atomic in Hc as (Hat & Hca & ->).
  set (cm := {| cm_cell := a |}).
  split; rewrite ?log_of_snoc; try (rewrite decide_True by done); rewrite ?ids_of_snoc.
  - by apply commit_writes_wf.
  - exists sn0. split; [done|]. by eapply explains_snoc.
  - unfold commit_writes. cbn [cm cm_req]. destruct (is_empty (rq_decision_id req)) eqn:Hid.
    + unfold record_project_response. rewrite Hid, app_nil_r. exact Ho.
    + rewrite record_project_response_order; [|apply Hwf|done|exact (commit_not_cached _ _ _ Hca Hid)].
      cbn [project_response_order set_signals record_step]. rewrite Ho.
      rewrite !length_app, length_drop. cbn [length]. set (ids := ids_of _).
      set (n := Z.to_nat PROJECT_RESPONSE_CACHE_CAP). assert (Hn : (0 < n)%nat) by (unfold n, PROJECT_RESPONSE_CACHE_CAP; lia).
      rewrite (drop_app_le (drop _ ids)) by (rewrite length_drop; lia).
      rewrite (drop_app_le ids) by lia. rewrite drop_drop. do 2 f_equal. lia.
  - intros id r' Hl. unfold commit_writes in Hl.
    assert (Hresp : cp_response (compute cfg req p95 (snapshot st)) = r).
    { unfold project_atomic in Hat. by injection Hat. }
    apply record_project_response_lookup in Hl as [(-> & -> & _)|Hl].
    + exists cm. split_and!; [set_solver | done | by rewrite Hresp].
    + apply Hr in Hl as (cm' & Hin & Hid & Hre). exists cm'. split_and!; [set_solver | done | done].
Qed.

Lemma cell_inv_other log a cm st :
  cm_cell cm <> a -> cell_inv log a st -> cell_inv (log ++ [cm]) a st.
Proof.
  intros Ha [Hwf Hx Ho Hr]. split; rewrite ?log_of_snoc, ?decide_False, ?app_nil_r by done; done.
Qed.

Lemma thread_inv_mono log log' c c' t :
  (forall cm, cm ∈ log -> cm ∈ log') -> (forall a, is_Some (heap c !! a) -> is_Some (heap c' !! a)) ->
  thread_inv log c t -> thread_inv log' c' t.
Proof.
  intros Hlog Hheap. destruct t; cbn; auto.
  intros (cm & Hin & Hid & Hr). exists cm. split_and!; try done.
  unfold log_of in *. rewrite list_elem_of_filter in *. naive_solver.
Qed.

Record shared_inv (log : list Commit) (c : RunStateCache) : Prop := {
  sh_cache : cache_wf c;
  sh_cells a st : heap c !! a = Some st -> cell_inv log a st;
  sh_log cm : cm ∈ log -> is_Some (heap c !! cm_cell cm);
}.

Lemma shared_inv_heap log c c' :
  shared_inv log c -> cache_wf c' -> heap c' = heap c -> shared_inv log c'.
Proof. intros [Hc Hcells Hlog] Hc' Hh. split; rewrite ?Hh; auto. Qed.

(** Replacing the state in one location, with the commit that did it if any. *)
Lemma shared_inv_update log c a st st' ev :
  shared_inv log c -> heap c !! a = Some st ->
  (forall cm, ev = Some cm -> cm_cell cm = a) ->
  cell_inv (log ++ option_list ev) a st' ->
  shared_inv (log ++ option_list ev) (update_cell a st' c).
Proof.
  intros [[Hl Hp] Hcells Hlog] Ha Hev Hst'. split.
  - split; cbn; [done|]. intros k a' Hk. rewrite lookup_insert_is_Some'. right. by eapply Hp.
  - intros a' st0. cbn. rewrite lookup_insert_Some. intros [[<- <-]|[Hne Hst0]]; [done|].
    destruct ev as [cm|]; cbn; [|rewrite app_nil_r; auto].
    apply cell_inv_other; [rewrite (Hev cm eq_refl); congruence | auto].
  - intros cm. cbn. rewrite elem_of_app, lookup_insert_is_Some'.
    intros [Hin|Hin]; [right; auto|]. destruct ev as [cm'|]; cbn in Hin; [|set_solver].
    apply list_elem_of_singleton in Hin as ->. left. symmetry. auto.
Qed.

Lemma recovered_fresh now t r a m row st :
  recover_from_audit_chain now t r a m row = Some st ->
  run_state_wf st /\ fresh_snapshot (snapshot st) /\ project_responses_by_decision_id st = ∅.
Proof.
  pose proof (run_state_new_wf now t r a m) as Hwf. destruct row as [steps|]; [|done].
  cbn. intros [= <-]. split_and!; [exact Hwf | | done].
  split_and!; cbn; [done|lia|done|done|done].
Qed.

Lemma new_fresh now t r a m :
  fresh_snapshot (snapshot (run_state_new now t r a m)).
Proof. by split_and!. Qed.

Lemma shared_inv_insert log c key st a c' :
  shared_inv log c -> run_state_wf st -> fresh_snapshot (snapshot st) ->
  project_responses_by_decision_id st = ∅ ->
  cache_get_or_insert key st c = (a, c') ->
  shared_inv log c' /\ is_Some (heap c' !! a) /\
  (forall a, is_Some (heap c !! a) -> is_Some (heap c' !! a)).
Proof.
  intros Hsh Hwf Hf Hm Hg. pose proof Hsh as [Hc Hcells Hlog].
  pose proof (cache_get_or_insert_wf key st c Hc) as Hwf'. rewrite Hg in Hwf'. cbn in Hwf'.
  unfold cache_get_or_insert in Hg. pose proof (lru_get_result key (inner c)) as Hr.
  destruct (lru_get key (inner c)) as [[a0|] i].
  - simplify_eq. split_and!; [by eapply shared_inv_heap | | done]. cbn.
    destruct Hc as [_ Hp]. by eapply (Hp key).
  - unfold cache_insert in Hg. destruct (alloc st (set_inner i c)) as [a1 c1] eqn:Hal.
    apply alloc_fresh in Hal as (Hnone & Hh & _). cbn in Hnone, Hh. simplify_eq. cbn in *.
    split_and!; [split; [done| |]| |]; cbn; rewrite ?Hh.
    + intros a' st0. rewrite lookup_insert_Some. intros [[<- <-]|[Hne Hst0]]; [|auto].
      apply cell_inv_fresh; try done. intros cm Hcm Heq. apply Hlog in Hcm.
      rewrite Heq, Hnone in Hcm. by destruct Hcm.
    + intros cm Hcm. rewrite lookup_insert_is_Some'. right; auto.
    + rewrite lookup_insert_eq. eauto.
    + intros a' Ha'. rewrite lookup_insert_is_Some'. by right.
Qed.

Lemma update_cell_allocated a st c a' :
  is_Some (heap c !! a') -> is_Some (heap (update_cell a st c) !! a').
Proof. cbn. rewrite lookup_insert_is_Some'. by right. Qed.

(** A locked section that finds a cached response, or nothing, and only reads. *)
Lemma cached_section_inv log c a now req st o st' :
  shared_inv log c -> heap c !! a = Some st ->
  cached_project_response now (rq_decision_id req) st = (o, st') ->
  shared_inv log (update_cell a st' c) /\
  (forall r, o = Some r -> thread_inv log c (TDone req a r)).
Proof.
  intros Hsh Ha Hca.
  pose proof (cell_inv_cached _ _ _ _ _ _ _ (sh_cells _ _ Hsh a st Ha) Hca) as Hst.
  pose proof (shared_inv_update log c a st st' None Hsh Ha ltac:(done)) as Hup.
  cbn in Hup. rewrite app_nil_r in Hup. split; [by apply Hup|].
  intros r ->. unfold cached_project_response in Hca. repeat case_match; simplify_eq.
  destruct (ci_responses _ _ _ (sh_cells _ _ Hsh a st Ha) _ _ ltac:(eassumption)) as (cm & ? & ? & ?).
  by exists cm.
Qed.

Lemma start_step_inv i req c log t' c' ev :
  shared_inv log c -> thread_step cfg i (TStart req) c = (t', c', ev) ->
  ev = None /\ shared_inv log c' /\ thread_inv log c' t' /\ heap c' = heap c.
Proof.
  intros Hsh Hstep. cbn in Hstep.
  destruct (validate_project_request req) as [[t r]|e]; [|by simplify_eq].
  set (key := {| k_tenant_id := t |}) in *.
  pose proof (cache_get_wf (si_now i) key c (sh_cache _ _ Hsh)) as Hwf.
  destruct (cache_get _ _ c) as [[a|] c1] eqn:Hg; simplify_eq;
    pose proof Hg as Hh; apply cache_get_heap in Hh; cbn in *.
  - apply cache_get_Some in Hg as (Hk & _). split_and!; [done | by eapply shared_inv_heap | | done].
    rewrite Hh. destruct (sh_cache _ _ Hsh) as [_ Hp]. by eapply Hp.
  - split_and!; [done | by eapply shared_inv_heap | done | done].
Qed.

Lemma commit_step_inv i req a p95 sn c log t' c' ev :
  shared_inv log c -> thread_step cfg i (TCommit req a p95 sn) c = (t', c', ev) ->
  is_Some (heap c !! a) ->
  shared_inv (log ++ option_list ev) c' /\ thread_inv (log ++ option_list ev) c' t' /\
  (forall a, is_Some (heap c !! a) -> is_Some (heap c' !! a)).
Proof.
  intros Hsh Hstep [st Ha]. cbn in Hstep. rewrite Ha in Hstep.
  destruct (commit_section _ _ _ _ _ st) as [st1 out] eqn:Hco.
  destruct out as [r| |r]; simplify_eq;
    (split_and!; [| | intros; by apply update_cell_allocated]).
  1-4: unfold commit_section in Hco;
    destruct (cached_project_response _ _ st) as [[r0|] st2] eqn:Hca; try done;
    try (case_match; try done); simplify_eq; cbn; rewrite ?app_nil_r;
    eapply cached_section_inv in Hca as [Hsh' Hdone]; try done.
  - by apply Hdone.
  - cbn. rewrite lookup_insert_eq. eauto.
  - eapply shared_inv_update; [done | done | by intros cm [= <-] |].
    by eapply cell_inv_commit; [apply (sh_cells _ _ Hsh)|].
  - exists {| cm_cell := a; cm_req := req; cm_p95 := p95; cm_response := r |}.
    split_and!; [|done|done]. unfold option_list, option_rect. rewrite log_of_snoc, decide_True by done. set_solver.
Qed.

(** Every atomic step of a thread keeps the shared invariant and its own. *)
Lemma thread_step_inv i t c log t' c' ev :
  shared_inv log c -> thread_inv log c t -> thread_step cfg i t c = (t', c', ev) ->
  shared_inv (log ++ option_list ev) c' /\ thread_inv (log ++ option_list ev) c' t' /\
  (forall a, is_Some (heap c !! a) -> is_Some (heap c' !! a)).
Proof.
  intros Hsh Ht Hstep. destruct t as [req|req key|req a|req a p95|req a p95 sn|req a r|e].
  - apply (start_step_inv i req c log) in Hstep as (-> & ? & ? & Hh); [|done].
    cbn. rewrite app_nil_r, Hh. by split_and!.
  - cbn in Hstep. destruct (cache_get_or_insert _ _ c) as [a c1] eqn:Hg. simplify_eq. rewrite app_nil_r.
    destruct (recover_from_audit_chain _ _ _ _ _ _) as [st|] eqn:Hrec.
    + apply recovered_fresh in Hrec as (? & ? & ?). by eapply (shared_inv_insert log c) in Hg as (? & ? & ?).
    + eapply (shared_inv_insert log c) in Hg as (? & ? & ?);
        [done | done | apply run_state_new_wf | apply new_fresh | done].
  - cbn in Hstep. simplify_eq. by rewrite app_nil_r.
  - cbn in Hstep. destruct Ht as [st Ha]. rewrite Ha in Hstep. unfold read_section in Hstep.
    destruct (cached_project_response _ _ st) as [o st1] eqn:Hca.
    eapply cached_section_inv in Hca as [Hsh' Hdone]; [|done|done].
    destruct o as [r|]; simplify_eq; cbn; rewrite ?app_nil_r;
      (split_and!; [done | | intros; by apply update_cell_allocated]).
    + by apply Hdone.
    + rewrite lookup_insert_eq. eauto.
  - by eapply commit_step_inv.
  - cbn in Hstep. simplify_eq. by rewrite app_nil_r.
  - cbn in Hstep. simplify_eq. by rewrite app_nil_r.
Qed.

Lemma sys_step_inv s s' : sys_inv s -> system_step cfg s s' -> sys_inv s'.
Proof.
  intros [Hc Hcells Hth Hlog] Hstep.
  destruct Hstep as [s tid req Hnone | s tid t i t' c' ev Ht Hstep | s tenant run removed c' Hterm].
  - split; cbn; [done|done| |done]. intros tid' t'. rewrite lookup_insert_Some.
    intros [[<- <-]|[_ ?]]; [done | by eapply Hth].
  - eapply (thread_step_inv i t _ (sys_log s)) in Hstep as ([Hc' Hcells' Hlog'] & Ht' & Hheap);
      [|by split|by eapply Hth].
    split; cbn; [done|done| |done]. intros tid' t0. rewrite lookup_insert_Some.
    intros [[<- <-]|[_ Ht0]]; [done|].
    eapply thread_inv_mono; [| exact Hheap | by eapply Hth]. set_solver.
  - unfold terminate_run in Hterm. destruct (validate_terminate_request tenant run) as [[t r]|]; [|done].
    cbn in Hterm. unfold cache_remove in Hterm.
    pose proof (cache_remove_wf {| k_tenant_id := t; k_run_id := r |} (sys_cache s) Hc) as Hwf.
    unfold cache_remove in Hwf. destruct (lru_pop _ _) as [o j]. injection Hterm as _ <-.
    split; cbn; done.
Qed.

Lemma reachable_inv capacity ttl s : reachable cfg capacity ttl s -> sys_inv s.
Proof.
  induction 1 as [|s s' _ IH Hstep]; [|by eapply sys_step_inv].
  split; cbn; try done; try (by intros ? ?; rewrite lookup_empty).
  - split; cbn; [apply lru_new_wf|]. intros k a. by rewrite lru_new_items.
  - set_solver.
Qed.

End Invariant.

Lemma explains_cumulative cfg log sn sn' :
  explains cfg log sn sn' ->
  sn_cumulative_cost_atomic sn' =
    fold_left (fun c cm => i64_sat (c + rq_this_call_reservation_atomic (cm_req cm))) log
      (sn_cumulative_cost_atomic sn).
Proof.
  revert sn; induction log as [|cm log IH]; intros sn; cbn [explains fold_left]; [by intros ->|].
  unfold project_atomic. intros [_ Hx]. by apply IH in Hx.
Qed.

(** *** Which run a state belongs to *)

Definition run_key (st : RunState) : RunStateKey :=
  {| k_tenant_id := st_tenant_id st; k_run_id := st_run_id st |}.

(** The tenant and the run that a request names. *)
Definition names (req : ProjectRequest) (tenant_id run_id : uuid) : Prop :=
  uuid_parse (rq_tenant_id req) = Some tenant_id /\ uuid_parse (rq_run_id req) = Some run_id.

(** The state in a location is of this run. *)
Definition cell_of (c : RunStateCache) (a : nat) (tenant_id run_id : uuid) : Prop :=
  exists st, heap c !! a = Some st /\ st_tenant_id st = tenant_id /\ st_run_id st = run_id.

Definition req_cell (c : RunStateCache) (req : ProjectRequest) (a : nat) : Prop :=
  exists t r, names req t r /\ cell_of c a t r.

Definition thread_keyed (c : RunStateCache) (t : Thread) : Prop :=
  match t with
  | TStart _ | TFailed _ => True
  | TRecover req key => names req (k_tenant_id key) (k_run_id key)
  | TFetch req a | TRead req a _ | TCommit req a _ _ | TDone req a _ => req_cell c req a
  end.

Definition cache_keyed (c : RunStateCache) : Prop :=
  forall k a, al_get k (lru_items (inner c)) = Some a -> cell_of c a (k_tenant_id k) (k_run_id k).

Record keyed (s : System) : Prop := {
  kd_wf : cache_wf (sys_cache s);
  kd_cache : cache_keyed (sys_cache s);
  kd_threads tid t : sys_threads s !! tid = Some t -> thread_keyed (sys_cache s) t;
  kd_log cm : cm ∈ sys_log s -> req_cell (sys_cache s) (cm_req cm) (cm_cell cm);
}.

(** Locations stay, and stay of their run. *)
Definition keeps_cells (c c' : RunStateCache) : Prop := forall a t r, cell_of c a t r -> cell_of c' a t r.

Lemma keeps_refl c : keeps_cells c c.
Proof. by intros a t r. Qed.

Lemma req_cell_keeps c c' req a : keeps_cells c c' -> req_cell c req a -> req_cell c' req a.
Proof. intros Hk (t & r & Hn & Hc). exists t, r. auto. Qed.

Lemma thread_keyed_keeps c c' t : keeps_cells c c' -> thread_keyed c t -> thread_keyed c' t.
Proof. intros Hk. destruct t; cbn; eauto using req_cell_keeps. Qed.

Lemma heap_keeps c c' : heap c' = heap c -> keeps_cells c c'.
Proof. intros Hh a t r. unfold cell_of. by rewrite Hh. Qed.

Lemma update_keeps c a st st' :
  heap c !! a = Some st -> run_key st' = run_key st -> keeps_cells c (update_cell a st' c).
Proof.
  intros Ha Hk a' t r (st0 & Ha' & Ht & Hr). unfold cell_of. cbn.
  destruct (decide (a = a')) as [<-|Hne]; [|rewrite lookup_insert_ne by done; eauto].
  exists st'. rewrite lookup_insert_eq. unfold run_key in Hk. simplify_eq. auto.
Qed.

Lemma cached_response_key now id st : run_key (cached_project_response now id st).2 = run_key st.
Proof. unfold cached_project_response. repeat case_match; done. Qed.

Lemma record_response_key now id r st : run_key (record_project_response now id r st) = run_key st.
Proof. unfold record_project_response. repeat case_match; done. Qed.

Lemma commit_section_key now cfg req p95 sn st :
  run_key (commit_section now cfg req p95 sn st).1 = run_key st.
Proof.
  unfold commit_section. pose proof (cached_response_key now (rq_decision_id req) st) as Hk.
  destruct (cached_project_response _ _ _) as [[r|] st1]; cbn in Hk; [done|].
  case_match; [done|]. cbn. unfold commit_writes. by rewrite record_response_key.
Qed.

Lemma cache_get_items now key c k a :
  al_get k (lru_items (inner (cache_get now key c).2)) = Some a ->
  al_get k (lru_items (inner c)) = Some a.
Proof.
  unfold cache_get. pose proof (lru_get_items key (inner c)) as Hi.
  destruct (lru_get key (inner c)) as [o i]; cbn in *.
  assert (Hii : al_get k (lru_items i) = Some a -> al_get k (lru_items (inner c)) = Some a).
  { rewrite Hi. destruct (al_get key _) as [v|] eqn:Ek; [|done]. cbn.
    case_decide; [intros; by simplify_eq|]. rewrite al_get_remove. by case_decide. }
  destruct o as [a0|]; [|done]. destruct (match heap c !! a0 with Some _ => _ | None => _ end); [|done]. cbn.
  rewrite lru_pop_items, al_get_remove. by case_decide.
Qed.

Lemma recovered_key now t r agent model row :
  run_key (match recover_from_audit_chain now t r agent model row with
           | Some st => st | None => run_state_new now t r agent model end) =
    {| k_tenant_id := t; k_run_id := r |}.
Proof. by destruct row. Qed.

Lemma insert_keyed key st c a c' :
  cache_keyed c -> run_key st = key -> cache_get_or_insert key st c = (a, c') ->
  cache_keyed c' /\ keeps_cells c c' /\ cell_of c' a (k_tenant_id key) (k_run_id key).
Proof.
  intros Hc Hk Hg. unfold cache_get_or_insert in Hg.
  pose proof (lru_get_result key (inner c)) as Hr. pose proof (lru_get_items key (inner c)) as Hi.
  destruct (lru_get key (inner c)) as [[a0|] i]; cbn in Hr, Hi; rewrite <- Hr in Hi.
  - simplify_eq. symmetry in Hr. split_and!; [|by apply heap_keeps|by apply Hc].
    intros k a'. cbn. rewrite Hi. cbn. case_decide; [intros; simplify_eq; by apply Hc|].
    rewrite al_get_remove. case_decide; [done|]. apply Hc.
  - unfold cache_insert in Hg. destruct (alloc st (set_inner i c)) as [a1 c1] eqn:Hal.
    apply alloc_fresh in Hal as (Hnone & Hh & Hin & _). cbn in Hnone, Hh, Hin. simplify_eq.
    assert (Hkeep : keeps_cells c (set_inner (lru_put (run_key st) a (inner c1)) c1)).
    { intros a' t r (st0 & Ha' & ?). exists st0. cbn. rewrite Hh, lookup_insert_ne by congruence. done. }
    assert (Hcell : cell_of (set_inner (lru_put (run_key st) a (inner c1)) c1) a (st_tenant_id st) (st_run_id st)).
    { exists st. cbn. by rewrite Hh, lookup_insert_eq. }
    split_and!; [|done|done].
    intros k a'. cbn. rewrite lru_put_items. intros Hl%al_get_take. cbn in Hl.
    case_decide; [by simplify_eq|]. rewrite al_get_remove in Hl. case_decide; [done|].
    rewrite Hi in Hl. by apply Hkeep, Hc.
Qed.

Lemma thread_step_keyed cfg i t c t' c' ev :
  cache_keyed c -> thread_keyed c t -> thread_step cfg i t c = (t', c', ev) ->
  cache_keyed c' /\ thread_keyed c' t' /\ keeps_cells c c' /\
  (forall cm, ev = Some cm -> req_cell c' (cm_req cm) (cm_cell cm)).
Proof.
  intros Hc Ht Hstep. destruct t as [req|req key|req a|req a p95|req a p95 sn|req a r|e]; cbn in Hstep.
  - destruct (validate_project_request req) as [[t r]|e] eqn:Hv; [|simplify_eq; split_and!; try done; apply keeps_refl].
    assert (Hn : names req t r) by (unfold validate_project_request in Hv; remember (t, r) as p eqn:Hp; mon_inv Hv; by simplify_eq).
    set (key := {| k_tenant_id := t |}) in *.
    pose proof (cache_get_items (si_now i) key c) as Hsub.
    destruct (cache_get _ _ c) as [o c1] eqn:Hg. cbn in Hsub. pose proof Hg as Hh. apply cache_get_heap in Hh.
    pose proof (heap_keeps c c1 Hh) as Hk.
    assert (Hc1 : cache_keyed c1) by (intros k a Ha; by apply Hk, Hc, Hsub).
    destruct o as [a|]; simplify_eq; (split_and!; [done| |done|done]); [|done].
    apply cache_get_Some in Hg as (Ha & _). exists t, r. split; [done|]. by apply Hk, (Hc key).
  - destruct (cache_get_or_insert _ _ c) as [a c1] eqn:Hg. simplify_eq.
    eapply insert_keyed in Hg as (? & ? & ?); [|done|by rewrite recovered_key; destruct key].
    split_and!; [done| |done|done]. by exists (k_tenant_id key), (k_run_id key).
  - simplify_eq. split_and!; try done; apply keeps_refl.
  - destruct (heap c !! a) as [st|] eqn:Ha; [|simplify_eq; split_and!; try done; apply keeps_refl].
    assert (Hk : forall st', run_key st' = run_key st ->
      cache_keyed (update_cell a st' c) /\ keeps_cells c (update_cell a st' c)).
    { intros st' Hst'. pose proof (update_keeps c a st st' Ha Hst') as Hkp. split; [|done].
      intros k a' Hl. by apply Hkp, Hc. }
    pose proof (cached_response_key (si_now i) (rq_decision_id req) st) as Hkey.
    unfold read_section in Hstep. destruct (cached_project_response _ _ _) as [o st1]; cbn in Hkey.
    apply Hk in Hkey as [? Hkp].
    destruct o; simplify_eq; (split_and!; [done| |done|done]); by eapply req_cell_keeps.
  - destruct (heap c !! a) as [st|] eqn:Ha; [|simplify_eq; split_and!; try done; apply keeps_refl].
    pose proof (commit_section_key (si_now i) cfg req p95 sn st) as Hkey.
    destruct (commit_section _ _ _ _ _ st) as [st1 out]. cbn in Hkey.
    pose proof (update_keeps c a st st1 Ha Hkey) as Hkp.
    assert (Hc1 : cache_keyed (update_cell a st1 c)) by (intros k a' Hl; by apply Hkp, Hc).
    destruct out; simplify_eq; (split_and!; [done|by eapply req_cell_keeps|done|]); try done.
    intros cm [= <-]. by eapply req_cell_keeps.
  - simplify_eq. split_and!; try done; apply keeps_refl.
  - simplify_eq. split_and!; try done; apply keeps_refl.
Qed.

Lemma reachable_keyed cfg capacity ttl s : reachable cfg capacity ttl s -> keyed s.
Proof.
  intros Hr. induction Hr as [|s s' Hr IH Hstep].
  - split; cbn; try (by intros ? ?; rewrite lookup_empty).
    + exact (si_cache cfg _ (reachable_inv cfg capacity ttl _ (reach_init _ _ _))).
    + intros k a. cbn. by rewrite lru_new_items.
    + set_solver.
  - pose proof (si_cache _ _ (reachable_inv _ _ _ _ (reach_step _ _ _ _ _ Hr Hstep))) as Hwf.
    destruct IH as [_ Hc Hth Hlog].
    destruct Hstep as [s tid req Hnone | s tid t i t' c' ev Ht Hst | s tenant run removed c' Hterm].
    + split; cbn; [done|done| |done]. intros tid' t'. rewrite lookup_insert_Some.
      intros [[<- <-]|[_ ?]]; [done | by eapply Hth].
    + eapply thread_step_keyed in Hst as (Hc' & Ht' & Hk & Hev); [|done|by eapply Hth].
      split; cbn; [done|done| |].
      * intros tid' t0. rewrite lookup_insert_Some. intros [[<- <-]|[_ Ht0]]; [done|].
        eapply thread_keyed_keeps; [exact Hk|by eapply Hth].
      * intros cm [Hin|Hin]%elem_of_app; [by eapply req_cell_keeps, Hlog|].
        destruct ev as [cm'|]; cbn in Hin; [|set_solver]. apply list_elem_of_singleton in Hin as ->. by apply Hev.
    + unfold terminate_run in Hterm. destruct (validate_terminate_request tenant run) as [[t r]|]; [|done].
      cbn in Hterm. unfold cache_remove in Hterm.
      pose proof (lru_pop_items {| k_tenant_id := t; k_run_id := r |} (inner (sys_cache s))) as Hi.
      destruct (lru_pop _ _) as [o j]. injection Hterm as _ <-. cbn in Hi.
      split; cbn; [done| |done|done]. intros k a. cbn. rewrite Hi, al_get_remove. case_decide; [done|]. apply Hc.
Qed.


(** Retries are idempotent. A call that completes answers with a response
    committed on its run under its own decision id, and the decision ids that a
    run committed most recently, as many as the response cache holds, are all
    different: none of them was charged twice. *)
Theorem project_idempotent cfg capacity ttl s tid req a r :
  reachable cfg capacity ttl s -> sys_threads s !! tid = Some (TDone req a r) ->
  (exists cm, cm ∈ log_of a (sys_log s) /\ rq_decision_id (cm_req cm) = rq_decision_id req /\
              cm_response cm = r) /\
  NoDup (drop (length (ids_of (log_of a (sys_log s))) - Z.to_nat PROJECT_RESPONSE_CACHE_CAP)
           (ids_of (log_of a (sys_log s)))).
Proof.
  intros Hr Ht. apply reachable_inv in Hr as Hinv.
  pose proof (si_threads _ _ Hinv tid _ Ht) as Hdone. split; [exact Hdone|].
  destruct Hdone as (cm & Hin & _). apply list_elem_of_filter in Hin as [Hcell Hin].
  destruct (si_log _ _ Hinv cm Hin) as [st Hst]. rewrite Hcell in Hst.
  destruct (si_cells _ _ Hinv a st Hst) as [[(Hn & _) _] _ <- _]. exact Hn.
Qed.

(** *** Progress *)

Fixpoint run_thread (cfg : Config) (inputs : list StepInput) (t : Thread) (c : RunStateCache)
    : Thread * RunStateCache :=
  match inputs with
  | [] => (t, c)
  | i :: inputs => let '(t, c, _) := thread_step cfg i t c in run_thread cfg inputs t c
  end.

Definition thread_done (t : Thread) : Prop :=
  match t with TDone _ _ _ | TFailed _ => True | _ => False end.

(** The steps a thread needs when no other thread commits. *)
Definition steps_needed (t : Thread) : nat :=
  match t with
  | TStart _ => 5 | TRecover _ _ => 4 | TFetch _ _ => 3 | TRead _ _ _ => 2 | TCommit _ _ _ _ => 1
  | TDone _ _ _ | TFailed _ => 0
  end.

(** A snapshot just taken is current. *)
Definition current (t : Thread) (c : RunStateCache) : Prop :=
  match t with
  | TCommit req a p95 sn => exists st, heap c !! a = Some st /\ snapshot st = sn
  | TFetch _ a | TRead _ a _ => is_Some (heap c !! a)
  | _ => True
  end.

Lemma run_thread_done cfg inputs t c : thread_done t -> thread_done (run_thread cfg inputs t c).1.
Proof.
  revert t c; induction inputs as [|i inputs IH]; intros t c Ht; [done|].
  destruct t; try done; cbn; by apply IH.
Qed.

Lemma solo_step cfg i t c t' c' ev :
  cache_wf c -> current t c -> thread_step cfg i t c = (t', c', ev) ->
  thread_done t' \/
  (cache_wf c' /\ current t' c' /\ (steps_needed t' < steps_needed t)%nat).
Proof.
  intros Hwf Hcur Hstep. destruct t as [req|req key|req a|req a p95|req a p95 sn|req a r|e]; cbn in Hstep.
  - destruct (validate_project_request req) as [[t r]|e]; [|simplify_eq; by left].
    set (key := {| k_tenant_id := t |}) in *.
    pose proof (cache_get_wf (si_now i) key c Hwf) as Hwf'.
    destruct (cache_get _ _ c) as [[a|] c1] eqn:Hg; simplify_eq; right; (split_and!; [done| |cbn; lia]).
    + pose proof (cache_get_heap _ _ _ _ _ Hg) as Hh. apply cache_get_Some in Hg as (Hk & _).
      cbn. rewrite Hh. destruct Hwf as [_ Hp]. by eapply Hp.
    + done.
  - match type of Hstep with context [cache_get_or_insert ?k ?st ?c0] =>
      pose proof (cache_get_or_insert_wf k st c0 Hwf) as Hwf';
      pose proof (cache_get_or_insert_allocated k st c0 Hwf) as Hal;
      destruct (cache_get_or_insert k st c0) as [a c1] end.
    simplify_eq. right. split_and!; [done|done|cbn; lia].
  - simplify_eq. right. split_and!; [done|done|cbn; lia].
  - destruct Hcur as [st Ha]. rewrite Ha in Hstep. unfold read_section in Hstep.
    destruct (cached_project_response _ _ st) as [o st1] eqn:Hca.
    apply cached_response_snapshot in Hca as (Hs & _).
    destruct o; simplify_eq; [by left|]. right. split_and!; [by apply update_cell_wf| |cbn; lia].
    exists st1. cbn. by rewrite lookup_insert_eq.
  - destruct Hcur as (st & Ha & Hs). rewrite Ha in Hstep. unfold commit_section in Hstep.
    destruct (cached_project_response _ _ st) as [[r|] st1] eqn:Hca; [simplify_eq; by left|].
    apply cached_response_snapshot in Hca as (Hs' & _).
    rewrite bool_decide_true in Hstep by congruence. cbn in Hstep. simplify_eq. by left.
  - simplify_eq. by left.
  - simplify_eq. by left.
Qed.

(** C40: [project] is lock-free and terminates: a call that is not disturbed
    by the commit of another one completes within five of its atomic sections,
    from any stage whose snapshot is current, whatever the database returns. *)
Theorem project_completes cfg inputs t c :
  cache_wf c -> current t c -> (steps_needed t <= length inputs)%nat ->
  thread_done (run_thread cfg inputs t c).1.
Proof.
  revert t c; induction inputs as [|i inputs IH]; intros t c Hwf Hcur Hlen.
  - destruct t; cbn in *; try lia; done.
  - cbn [run_thread]. destruct (thread_step cfg i t c) as [[t' c'] ev] eqn:Hstep.
    destruct (solo_step _ _ _ _ _ _ _ Hwf Hcur Hstep) as [Hd|(Hwf' & Hcur' & Hlt)].
    + by apply run_thread_done.
    + apply IH; [done|done|]. cbn in Hlen. lia.
Qed.

(** ** The values of a projection *)

(** A configured, validated situation: what deployments run with. *)
Definition sane (cfg : Config) (req : ProjectRequest) (sn : Snapshot) : Prop :=
  0 <= cold_start_run_length cfg <= i32_max /\
  0 <= rq_this_call_reservation_atomic req <= i64_max /\
  0 <= rq_planned_steps_hint req <= MAX_PLANNED_STEPS /\
  0 <= sn_cumulative_cost_atomic sn <= i64_max /\
  0 <= sn_steps_completed sn <= i64_max.

Lemma remaining_steps_bounds planned steps : 0 <= remaining_steps planned steps <= i32_max.
Proof. unfold remaining_steps. width_lia. Qed.

Lemma signal_1_bounds p95 steps cold : 0 <= (signal_1_from_p95 p95 steps cold).1 <= i32_max.
Proof. destruct p95; apply remaining_steps_bounds. Qed.

Lemma predicted_steps_bounds cfg req p95 sn b :
  0 <= cold_start_run_length cfg <= i32_max ->
  0 <= lr_predicted_remaining_steps (compute_layering (inputs_of cfg req p95 sn b)) <= i32_max.
Proof.
  intros Hc. unfold inputs_of, compute_layering, apply_signal3_override.
  pose proof (signal_1_bounds (default None p95) (sn_steps_completed sn) (cold_start_run_length cfg)) as Hs.
  destruct p95 as [p95|]; cbn in *;
    [destruct (signal_1_from_p95 p95 (sn_steps_completed sn) (cold_start_run_length cfg)) as [k cold]; cbn in *|];
    repeat case_match; cbn; auto using remaining_steps_bounds.
Qed.

(** The layering of nonnegative inputs, with its saturations spelled out. *)
Lemma layering_spec i :
  let r := compute_layering i in
  let rem := lr_predicted_remaining_steps r in
  0 <= rem -> 0 <= in_cumulative_cost_atomic i -> 0 <= in_this_call_reservation_atomic i ->
  0 <= in_per_step_baseline_atomic i ->
  lr_projection_atomic r =
    Z.min i64_max (in_cumulative_cost_atomic i + in_this_call_reservation_atomic i
                   + rem * in_per_step_baseline_atomic i) /\
  lr_emitted_code r =
    (if in_budget_remaining_atomic i <?
          Z.min i64_max (in_this_call_reservation_atomic i + rem * in_per_step_baseline_atomic i)
     then Some BudgetProjectionExceeded
     else if (0 <? in_planned_steps_hint i) && (in_planned_steps_hint i <? in_steps_completed i)
     then Some StepsExceeded
     else if in_drift_confirmed i then Some DriftDetected else None).
Proof.
  cbn zeta. intros Hrem Hc Ht Hb.
  assert (Hprod := Z.mul_nonneg_nonneg _ _ Hrem Hb).
  destruct i as [cum this steps budget s1 cold hint drift base]; cbn in *.
  revert Hprod Hrem. unfold steps_exceeded, compute_projection.
  set (rem := if 0 <? hint then _ else _). rewrite (Z.max_l base 0) by done.
  generalize (rem * base). intros q Hprod Hrem.
  assert (Hfut : i64_sat (this + i64_sat q) = Z.min i64_max (this + q)) by width_lia.
  split; [width_lia|]. rewrite Hfut.
  destruct (budget <? _); [done|]. cbn [app].
  destruct (0 <? hint) eqn:Eh; cbn [andb].
  - replace (hint <=? 0) with false by lia. by destruct (hint <? steps), drift.
  - by destruct drift.
Qed.


(** ** Drift over a run *)

(** The Signal 2 fields after one more predicted cost. *)
Definition drift_step (ratio : spec_float) (threshold : Z) (s : option Z * Z * DriftVerdict) (now : Z)
    : option Z * Z * DriftVerdict :=
  let '(last, count, _) := s in
  let '(verdict, n) := evaluate_drift now last count ratio threshold in
  (Some now, n, verdict).

Definition drifts (ratio : spec_float) (prior now : Z) : bool :=
  (0 <? prior) &&
  f_gt (SFabs (f64_sub (f64_div (f64_of_Z now) (f64_of_Z prior)) (f64_of_Z 1))) ratio.

(** The number of consecutive drifting costs, the latest first. *)
Fixpoint streak (ratio : spec_float) (costs : list Z) : Z :=
  match costs with
  | [] => 0
  | now :: rest =>
      match rest with
      | prior :: _ => if drifts ratio prior now then 1 + streak ratio rest else 0
      | [] => 0
      end
  end.

Lemma streak_nonneg ratio costs : 0 <= streak ratio costs.
Proof.
  induction costs as [|now costs IH]; cbn [streak]; [lia|]. repeat case_match; lia.
Qed.

(** Drift is confirmed exactly when the last predicted costs of the run
    drifted at least the threshold number of times in a row; one quiet cost, an
    empty history or a nonpositive prior resets the count, and the counter
    saturates at the width of a [u32] instead of wrapping to zero. *)
Theorem drift_confirmed_iff ratio threshold costs now :
  let '(last, count, verdict) :=
    fold_left (drift_step ratio threshold) (costs ++ [now]) (None, 0, NoDrift) in
  let n := streak ratio (now :: rev costs) in
  last = Some now /\ count = u32_sat n /\
  verdict = (if n =? 0 then NoDrift
             else if threshold <=? u32_sat n then Confirmed else Suspect).
Proof.
  revert now; induction costs as [|prior costs IH] using rev_ind; intros now; [done|].
  rewrite fold_left_app. specialize (IH prior).
  destruct (fold_left _ (costs ++ [prior]) _) as [[last count] verdict].
  destruct IH as (-> & -> & _). rewrite rev_app_distr. cbn [rev app].
  set (n := streak ratio (prior :: rev costs)). pose proof (streak_nonneg ratio (prior :: rev costs)) as Hn.
  cbn [fold_left drift_step evaluate_drift].
  replace (streak ratio (now :: prior :: rev costs)) with (if drifts ratio prior now then 1 + n else 0) by done.
  unfold drifts. destruct (prior <=? 0) eqn:Hp; b2p.
  { replace (0 <? prior) with false by lia. done. }
  replace (0 <? prior) with true by lia. cbn [andb].
  destruct (f_gt _ _); [|done].
  replace (1 + n =? 0) with false by (subst n; lia).
  assert (Hs : u32_sat (u32_sat n + 1) = u32_sat (1 + n)) by (subst n; width_lia).
  rewrite Hs. by destruct (threshold <=? _).
Qed.

(** *** Concrete schedules *)

(** A schedule: spawn a call, or let a thread take a step. *)
Inductive event := Spawn (tid : nat) (req : ProjectRequest) | Step (tid : nat) (i : StepInput).

Definition run_event (cfg : Config) (s : System) (e : event) : System :=
  match e with
  | Spawn tid req =>
      match sys_threads s !! tid with
      | Some _ => s
      | None => {| sys_threads := <[tid := TStart req]> (sys_threads s);
                   sys_cache := sys_cache s; sys_log := sys_log s |}
      end
  | Step tid i =>
      match sys_threads s !! tid with
      | None => s
      | Some t =>
          let '(t', c', ev) := thread_step cfg i t (sys_cache s) in
          {| sys_threads := <[tid := t']> (sys_threads s);
             sys_cache := c'; sys_log := sys_log s ++ option_list ev |}
      end
  end.

Definition run_schedule (cfg : Config) (es : list event) (s : System) : System :=
  fold_left (run_event cfg) es s.

Lemma run_schedule_reachable cfg capacity ttl es s :
  reachable cfg capacity ttl s -> reachable cfg capacity ttl (run_schedule cfg es s).
Proof.
  revert s; induction es as [|e es IH]; intros s Hs; [done|]. cbn. apply IH.
  destruct e as [tid req|tid i]; cbn; destruct (sys_threads s !! tid) as [t|] eqn:Ht; try done.
  - eapply reach_step; [done|]. by constructor.
  - destruct (thread_step _ _ _ _) as [[t' c'] ev] eqn:Hst.
    eapply reach_step; [done|]. by eapply sys_thread.
Qed.

End Projector.

(** ** Two concurrent calls of one run *)

Module ProjectorDemo.
Import Demo.

Definition cfg : Config :=
  {| cold_start_run_length := 10; drift_ratio_threshold := f64_lit 3 10; drift_consecutive_threshold := 3 |}.

Definition req (id : string) (amount : Z) : ProjectRequest :=
  {| rq_tenant_id := "ut"; rq_run_id := "ur"; rq_agent_id := "agent"; rq_model := "m";
     rq_decision_id := id; rq_this_call_reservation_atomic := amount;
     rq_budget_remaining_atomic := 1000; rq_planned_steps_hint := 0 |}.

Definition tick (n : Z) : StepInput := {| si_now := n; si_recovered := None; si_p95 := None |}.

(** Both calls take their snapshots before either commits: the second one retries. *)
Definition schedule : list event :=
  [Spawn 0 (req "d0" 5); Spawn 1 (req "d1" 200); Step 0 (tick 1); Step 0 (tick 2); Step 0 (tick 3);
   Step 1 (tick 4); Step 1 (tick 5); Step 0 (tick 6); Step 1 (tick 7); Step 0 (tick 8);
   Step 1 (tick 9); Step 1 (tick 10); Step 1 (tick 11)].

Definition final : System := run_schedule cfg schedule (system_init 16 (secs 1800)).

Definition view (t : option Thread) : option (Z * string) :=
  match t with
  | Some (TDone _ _ r) => Some (run_projection_at_decision_atomic r, emitted_code r)
  | _ => None
  end.

Example final_threads :
  (view (sys_threads final !! 0%nat), view (sys_threads final !! 1%nat)) =
  (Some (55, EmptyString), Some (2205, "RUN_BUDGET_PROJECTION_EXCEEDED")).
Proof. vm_compute. reflexivity. Qed.

Lemma final_reachable : reachable cfg 16 (secs 1800) final.
Proof. apply run_schedule_reachable. constructor. Qed.

Definition final_state : RunState :=
  default (run_state_new 0 EmptyString EmptyString EmptyString EmptyString) (heap (sys_cache final) !! 0%nat).


Definition final_done (tid : nat) : ProjectRequest * nat * ProjectResponse :=
  match sys_threads final !! tid with
  | Some (TDone q a r) => (q, a, r)
  | _ => (req "d" 0, 0%nat, {| run_projection_at_decision_atomic := 0;
            run_predicted_remaining_steps := 0; run_steps_completed_so_far := 0; strategy_used := 0;
            emitted_code := EmptyString; considered_codes := []; projection_confidence := S754_nan |})
  end.

Lemma project_idempotent_witness :
  exists cm, cm ∈ log_of 0 (sys_log final) /\ rq_decision_id (cm_req cm) = "d1".
Proof.
  assert (Ht : sys_threads final !! 1%nat =
    Some (TDone (req "d1" 200) 0 (final_done 1).2)) by (vm_compute; reflexivity).
  destruct (project_idempotent cfg 16 (secs 1800) final 1 _ _ _ final_reachable Ht)
    as [(cm & Hin & Hid & _) _].
  exists cm. split; [exact Hin | exact Hid].
Defined.

Lemma project_completes_witness :
  thread_done (run_thread cfg [tick 1; tick 2; tick 3; tick 4; tick 5] (TStart (req "d0" 5))
                 (cache_new 16 (secs 1800))).1.
Proof.
  apply project_completes; [|exact I|cbn; lia].
  exact (si_cache cfg (system_init 16 (secs 1800)) (reachable_inv cfg 16 (secs 1800) _ (reach_init _ _ _))).
Defined.


End ProjectorDemo.
