(* ===== verification/Idempotency.v ===== *)
(** * The decision idempotency cache

    [services/sidecar/src/decision/idempotency.rs]: a bounded FIFO map from
    idempotency keys to the response already given, with the fingerprint of the
    request it answered. [Utc::now()] is an argument, in nanoseconds. The
    response type is abstract: the cache only stores and returns it. *)

From S2P Require Import Prelude.

Section Idempotency.
Context {DecisionResponse : Type}.

Inductive Lookup :=
  | Hit (r : DecisionResponse)
  | Miss
  | Conflict (existing_fingerprint_hex : string).

Record Entry := {
  request_fingerprint_hex : string;
  response : DecisionResponse;
  inserted_at : Z;
}.

Record IdempotencyCache := {
  map : gmap string Entry;
  order : list string;
  capacity : Z;
  ttl_secs : Z;
}.

Definition cache_new (capacity ttl_secs : Z) : IdempotencyCache :=
  {| map := ∅; order := []; capacity := Z.max capacity 1; ttl_secs := Z.max ttl_secs 1 |}.

Definition with_map (m : gmap string Entry) (o : list string) (c : IdempotencyCache)
    : IdempotencyCache :=
  {| map := m; order := o; capacity := capacity c; ttl_secs := ttl_secs c |}.

Definition is_live (now : Z) (c : IdempotencyCache) (e : Entry) : bool :=
  num_seconds (now - inserted_at e) <=? ttl_secs c.

(** What [get] does when the key is absent or its entry has expired. *)
Definition drop_stale (key : string) (c : IdempotencyCache) : IdempotencyCache :=
  match map c !! key with
  | Some _ => with_map (delete key (map c)) (filter (fun k => k <> key) (order c)) c
  | None => c
  end.

Definition get (now : Z) (key fingerprint : string) (c : IdempotencyCache)
    : Lookup * IdempotencyCache :=
  match map c !! key with
  | Some entry =>
      if is_live now c entry then
        if request_fingerprint_hex entry =?s fingerprint then (Hit (response entry), c)
        else (Conflict (request_fingerprint_hex entry), c)
      else (Miss, drop_stale key c)
  | None => (Miss, drop_stale key c)
  end.

Definition put (now : Z) (key fingerprint : string) (r : DecisionResponse) (c : IdempotencyCache)
    : IdempotencyCache :=
  let entry := {| request_fingerprint_hex := fingerprint; response := r; inserted_at := now |} in
  match map c !! key with
  | Some _ => with_map (<[key := entry]> (map c)) (order c) c
  | None =>
      let '(m, o) :=
        if capacity c <=? Z.of_nat (length (order c)) then
          match order c with
          | oldest :: o => (delete oldest (map c), o)
          | [] => (map c, order c)
          end
        else (map c, order c) in
      with_map (<[key := entry]> m) (o ++ [key]) c
  end.

(** ** Traces of the cache *)

Inductive op :=
  | Get (now : Z) (key fingerprint : string)
  | Put (now : Z) (key fingerprint : string) (r : DecisionResponse).

Definition run_op (c : IdempotencyCache) (o : op) : IdempotencyCache :=
  match o with
  | Get now key fp => (get now key fp c).2
  | Put now key fp r => put now key fp r c
  end.

Definition run (ops : list op) (c : IdempotencyCache) : IdempotencyCache := fold_left run_op ops c.

(** The queue lists the keys of the map, each once, and fits the capacity. *)
Record cache_wf (c : IdempotencyCache) : Prop := {
  wf_nodup : NoDup (order c);
  wf_dom : dom (map c) = list_to_set (order c);
  wf_len : Z.of_nat (length (order c)) <= capacity c;
  wf_cap : 1 <= capacity c;
}.

Lemma new_wf cap ttl : cache_wf (cache_new cap ttl).
Proof. split; cbn; [apply NoDup_nil_2 | set_solver | lia | lia]. Qed.

Lemma filter_ne_list_to_set (k : string) (l : list string) :
  NoDup l -> list_to_set (C := gset string) (filter (fun x => x <> k) l) = list_to_set l ∖ {[ k ]}.
Proof. intros Hn. apply set_eq. intros x. rewrite elem_of_list_to_set, list_elem_of_filter. set_solver. Qed.

Lemma drop_stale_wf key c : cache_wf c -> cache_wf (drop_stale key c).
Proof.
  intros [Hn Hd Hl Hc]. unfold drop_stale. destruct (map c !! key) eqn:Hk; [|done].
  split; cbn; [by apply NoDup_filter | | | done].
  - by rewrite dom_delete_L, Hd, filter_ne_list_to_set.
  - pose proof (length_filter (fun k => k <> key) (order c)). lia.
Qed.

Lemma get_wf now key fp c : cache_wf c -> cache_wf (get now key fp c).2.
Proof.
  intros Hwf. unfold get. repeat case_match; try done; by apply drop_stale_wf.
Qed.

Lemma elem_of_order c k : cache_wf c -> k ∈ order c <-> is_Some (map c !! k).
Proof. intros [_ Hd _ _]. rewrite <- elem_of_dom, Hd. set_solver. Qed.

Lemma put_wf now key fp r c : cache_wf c -> cache_wf (put now key fp r c).
Proof.
  intros Hwf. pose proof Hwf as [Hn Hd Hl Hc]. unfold put.
  destruct (map c !! key) as [e|] eqn:Hk.
  - split; cbn; try done. rewrite dom_insert_L, Hd.
    assert (key ∈ order c) by (apply elem_of_order; eauto). set_solver.
  - assert (Hnot : key ∉ order c).
    { intros Hin. apply elem_of_order in Hin; [|done]. rewrite Hk in Hin. by destruct Hin. }
    destruct (capacity c <=? _) eqn:Hcap; [destruct (order c) as [|o os] eqn:Ho|]; b2p;
      split; cbn; rewrite ?length_app; cbn [length] in *; try done; try lia.
    + apply NoDup_cons in Hn as [Hno Hn]. apply NoDup_app. split_and!; [done | set_solver | apply NoDup_singleton].
    + apply NoDup_cons in Hn as [Hno Hn]. rewrite dom_insert_L, dom_delete_L, Hd. set_solver.
    + apply NoDup_app. split_and!; [done | set_solver | apply NoDup_singleton].
    + rewrite dom_insert_L, Hd. set_solver.
Qed.

Lemma cache_run_wf ops c : cache_wf c -> cache_wf (run ops c).
Proof.
  revert c; induction ops as [|o ops IH]; intros c Hc; [done|]. apply IH.
  destruct o; cbn; [by apply get_wf | by apply put_wf].
Qed.

Lemma run_config ops c : capacity (run ops c) = capacity c /\ ttl_secs (run ops c) = ttl_secs c.
Proof.
  revert c; induction ops as [|o ops IH]; intros c; [done|].
  change (run (o :: ops) c) with (run ops (run_op c o)). destruct (IH (run_op c o)) as [-> ->].
  destruct o; cbn; unfold get, put, drop_stale; repeat case_match; done.
Qed.

(** Every entry was put by the trace. *)
Lemma run_entry ops c k e :
  map c = ∅ -> map (run ops c) !! k = Some e ->
  Put (inserted_at e) k (request_fingerprint_hex e) (response e) ∈ ops.
Proof.
  intros Hempty. revert k e. induction ops as [|o ops IH] using rev_ind; intros k e.
  - cbn. by rewrite Hempty, lookup_empty.
  - unfold run. rewrite fold_left_app. cbn. change (fold_left run_op ops c) with (run ops c).
    intros He. rewrite elem_of_app. destruct o as [now key fp|now key fp r]; cbn in He.
    + left. apply IH. unfold get, drop_stale in He. repeat case_match; try done; cbn in He;
        by apply lookup_delete_Some in He as [_ ?].
    + unfold put in He. repeat case_match; simplify_eq; cbn in He;
        apply lookup_insert_Some in He as [[<- <-]|[_ He]];
        try (right; set_solver); left; apply IH; try done;
        by apply lookup_delete_Some in He as [_ ?].
Qed.

(** The cache replays only what it was given: in any trace from an empty
    cache, a hit for a key and a fingerprint returns a response put earlier for
    that key and that same fingerprint, no longer ago than the time to live; a
    conflict reports the fingerprint of an entry put for that key. *)
Theorem idempotent_hit_sound ops cap ttl now key fp :
  match (get now key fp (run ops (cache_new cap ttl))).1 with
  | Hit r => exists t, Put t key fp r ∈ ops /\ num_seconds (now - t) <= Z.max ttl 1
  | Conflict fp' => fp' <> fp /\ exists t r, Put t key fp' r ∈ ops
  | Miss => True
  end.
Proof.
  unfold get. destruct (map _ !! key) as [e|] eqn:He; [|done].
  pose proof (run_entry ops (cache_new cap ttl) key e eq_refl He) as Hput.
  destruct (is_live _ _ e) eqn:Hlive; [|done].
  unfold is_live in Hlive. rewrite (proj2 (run_config ops _)) in Hlive. b2p.
  destruct (request_fingerprint_hex e =?s fp) eqn:Hfp; cbn.
  - apply String.eqb_eq in Hfp as <-. eauto.
  - apply String.eqb_neq in Hfp. eauto.
Qed.

(** ** Retention *)

(** The number of puts of other keys in a trace. *)
Fixpoint other_puts (key : string) (ops : list op) : Z :=
  match ops with
  | [] => 0
  | Put _ k _ _ :: ops => (if k =?s key then 0 else 1) + other_puts key ops
  | Get _ _ _ :: ops => other_puts key ops
  end.

(** A trace that neither puts the key again nor looks it up. *)
Definition leaves_alone (key : string) (o : op) : Prop :=
  match o with Get _ k _ => k <> key | Put _ k _ _ => k <> key end.

(** [key] holds [e] and at most [n] keys came after it. *)
Definition holds (key : string) (e : Entry) (n : Z) (c : IdempotencyCache) : Prop :=
  map c !! key = Some e /\
  exists before after, order c = before ++ key :: after /\ Z.of_nat (length after) <= n.

Lemma drop_stale_holds key e n k c :
  k <> key -> holds key e n c -> holds key e n (drop_stale k c).
Proof.
  intros Hne (Hm & before & after & Ho & Hn). unfold drop_stale.
  destruct (map c !! k) eqn:Hk; [|split; eauto].
  split; cbn; [by rewrite lookup_delete_ne|].
  rewrite Ho, filter_app, filter_cons, decide_True by done.
  eexists _, _. split; [done|]. pose proof (length_filter (fun x => x <> k) after). lia.
Qed.

Lemma put_holds key e n now k fp r c :
  cache_wf c -> k <> key -> 0 <= n -> n + 1 < capacity c -> holds key e n c ->
  holds key e (n + 1) (put now k fp r c).
Proof.
  intros [Hnd _ _ _] Hne Hn Hcap (Hm & before & after & Ho & Hlen). unfold put.
  destruct (map c !! k) eqn:Hk.
  - split; cbn; [by rewrite lookup_insert_ne|]. exists before, after. split; [done|lia].
  - destruct (capacity c <=? _) eqn:Hfull; b2p.
    + destruct before as [|b before].
      { rewrite Ho in Hfull. cbn [app length] in Hfull. lia. }
      assert (Hb : b <> key).
      { intros ->. rewrite Ho in Hnd. cbn in Hnd. apply NoDup_cons in Hnd as [Hnot _]. set_solver. }
      rewrite Ho. cbn [app]. split; cbn.
      * by rewrite lookup_insert_ne, lookup_delete_ne.
      * exists before, (after ++ [k]). rewrite length_app. cbn [length].
        split; [by rewrite <- app_assoc | lia].
    + split; cbn; [by rewrite lookup_insert_ne|].
      exists before, (after ++ [k]). rewrite length_app, Ho. cbn [length].
      split; [by rewrite <- app_assoc | lia].
Qed.

Lemma get_holds key e n now k fp c :
  k <> key -> holds key e n c -> holds key e n (get now k fp c).2.
Proof.
  intros Hne Hh. unfold get. repeat case_match; try done; by apply drop_stale_holds.
Qed.

Lemma other_puts_nonneg key ops : 0 <= other_puts key ops.
Proof. induction ops as [|[|] ops IH]; cbn; repeat case_match; lia. Qed.

Lemma run_holds key e ops n c :
  cache_wf c -> Forall (leaves_alone key) ops -> 0 <= n -> n + other_puts key ops < capacity c ->
  holds key e n c -> holds key e (n + other_puts key ops) (run ops c).
Proof.
  revert n c; induction ops as [|o ops IH]; intros n c Hwf Hall Hn Hcap Hh.
  - cbn. by replace (n + 0) with n by lia.
  - apply Forall_cons in Hall as [Ho Hall]. pose proof (other_puts_nonneg key ops) as Hp.
    change (run (o :: ops) c) with (run ops (run_op c o)).
    destruct (run_config [o] c) as [Hc _]. cbn in Hc.
    destruct o as [now k fp|now k fp r]; cbn [run_op other_puts] in *.
    + apply IH; rewrite ?Hc; try done; [by apply get_wf | by apply get_holds].
    + rewrite (proj2 (String.eqb_neq k key)) in * by done.
      replace (n + (1 + other_puts key ops)) with ((n + 1) + other_puts key ops) by lia.
      apply IH; rewrite ?Hc; try done; try lia; [by apply put_wf | by apply put_holds; try lia].
Qed.

(** A retry within the time to live is recognised: a response put under a
    new key is still returned for that key and fingerprint, and a different
    fingerprint is refused as a conflict, as long as fewer than [capacity] other
    keys were put in between, whatever else was looked up or expired. *)
Theorem idempotent_retention ops0 ops cap ttl t key fp r now fp' :
  let c := run ops0 (cache_new cap ttl) in
  map c !! key = None ->
  Forall (leaves_alone key) ops ->
  other_puts key ops < Z.max cap 1 ->
  num_seconds (now - t) <= Z.max ttl 1 ->
  (get now key fp' (run ops (put t key fp r c))).1 =
    if fp =?s fp' then Hit r else Conflict fp.
Proof.
  cbn zeta. set (c := run ops0 _). intros Hnew Hall Hputs Hage.
  assert (Hwf : cache_wf c) by (apply cache_run_wf, new_wf).
  destruct (run_config ops0 (cache_new cap ttl)) as [Hcap Httl].
  destruct (run_config ops (put t key fp r c)) as [Hcap' Httl'].
  destruct (run_config [Put t key fp r] c) as [Hcap1 Httl1]. cbn in Hcap, Httl, Hcap1, Httl1.
  assert (Hh : holds key {| request_fingerprint_hex := fp; response := r; inserted_at := t |} 0 (put t key fp r c)).
  { unfold put. rewrite Hnew. destruct (if _ <=? _ then _ else _) as [m o].
    split; cbn; [apply lookup_insert_eq | by exists o, []]. }
  apply (run_holds key _ ops) in Hh as [Hm _];
    [| by apply put_wf | done | lia | rewrite Hcap1; fold c in Hcap; lia].
  unfold get. rewrite Hm. unfold is_live. cbn [inserted_at]. rewrite Httl', Httl1. fold c in Httl. rewrite Httl.
  replace (num_seconds (now - t) <=? _) with true by lia. cbn. by destruct (fp =?s fp').
Qed.

End Idempotency.

(** A retry with another payload is refused after unrelated traffic. *)
Lemma idempotent_retention_witness :
  (get (secs 5) "k" "other"
     (run [Put (secs 2) "k2" "g" 8; Get (secs 3) "k3" "h"] (put (secs 1) "k" "fp" 7 (cache_new 2 60)))).1
  = Conflict "fp".
Proof.
  refine (idempotent_retention [] [Put (secs 2) "k2" "g" 8; Get (secs 3) "k3" "h"] 2 60 (secs 1)
            "k" "fp" 7 (secs 5) "other" _ _ _ _);
    [reflexivity | repeat constructor; discriminate | reflexivity | discriminate].
Defined.
