(* ===== verification/Breakers.v ===== *)
(** * Circuit breakers

    The output predictor's breaker around customer plugins
    ([services/output_predictor/src/circuit_breaker.rs], one entry per tenant)
    and the tokenizer's breaker around provider count APIs
    ([services/tokenizer/src/shadow/circuit_breaker.rs], one entry per tenant
    and model). Both are maps of small state machines behind one lock, so an
    execution is a sequence of operations; [Instant::now()] is an argument. *)

From S2P Require Import Prelude.

Inductive BreakerStateName := Closed | Open | HalfOpen.

#[export] Instance BreakerStateName_eq_dec : EqDecision BreakerStateName.
Proof. solve_decision. Defined.

Definition as_label (s : BreakerStateName) : string :=
  match s with Closed => "closed" | Open => "open" | HalfOpen => "half_open" end.

Inductive Permit := Allow | SkipOpen.

#[export] Instance Permit_eq_dec : EqDecision Permit.
Proof. solve_decision. Defined.

Record CircuitBreakerConfig := {
  failure_threshold : Z;
  open_duration : Z;
}.

Definition DEFAULT_FAILURE_THRESHOLD : Z := 10.
Definition DEFAULT_OPEN_DURATION : Z := secs 300.

Definition config_default : CircuitBreakerConfig :=
  {| failure_threshold := DEFAULT_FAILURE_THRESHOLD; open_duration := DEFAULT_OPEN_DURATION |}.

(** ** The plugin breaker *)

Module Plugin.

Record BreakerEntry := {
  state : BreakerStateName;
  consecutive_failures : Z;
  open_until : option Z;
  half_open_probe_inflight : bool;
}.

Definition entry_default : BreakerEntry :=
  {| state := Closed; consecutive_failures := 0; open_until := None;
     half_open_probe_inflight := false |}.

(** The body of [permit_request_at], on the entry of the tenant. *)
Definition permit_entry (now : Z) (e : BreakerEntry) : Permit * BreakerEntry :=
  match state e with
  | Closed => (Allow, e)
  | HalfOpen =>
      if half_open_probe_inflight e then (SkipOpen, e)
      else (Allow, {| state := state e; consecutive_failures := consecutive_failures e;
                      open_until := open_until e; half_open_probe_inflight := true |})
  | Open =>
      match open_until e with
      | Some until =>
          if until <=? now then
            (Allow, {| state := HalfOpen; consecutive_failures := consecutive_failures e;
                       open_until := None; half_open_probe_inflight := true |})
          else (SkipOpen, e)
      | None =>
          (Allow, {| state := HalfOpen; consecutive_failures := consecutive_failures e;
                     open_until := open_until e; half_open_probe_inflight := true |})
      end
  end.

Definition success_entry (e : BreakerEntry) : BreakerEntry :=
  {| state := Closed; consecutive_failures := 0; open_until := None;
     half_open_probe_inflight := false |}.

Definition failure_entry (cfg : CircuitBreakerConfig) (now : Z) (e : BreakerEntry) : BreakerEntry :=
  let e' :=
    match state e with
    | Closed =>
        let n := u32_sat (consecutive_failures e + 1) in
        if failure_threshold cfg <=? n then
          {| state := Open; consecutive_failures := n; open_until := Some (now + open_duration cfg);
             half_open_probe_inflight := half_open_probe_inflight e |}
        else
          {| state := Closed; consecutive_failures := n; open_until := open_until e;
             half_open_probe_inflight := half_open_probe_inflight e |}
    | HalfOpen =>
        {| state := Open; consecutive_failures := failure_threshold cfg;
           open_until := Some (now + open_duration cfg);
           half_open_probe_inflight := half_open_probe_inflight e |}
    | Open =>
        {| state := Open; consecutive_failures := consecutive_failures e;
           open_until := Some (now + open_duration cfg);
           half_open_probe_inflight := half_open_probe_inflight e |}
    end in
  {| state := state e'; consecutive_failures := consecutive_failures e';
     open_until := open_until e'; half_open_probe_inflight := false |}.

Definition health_fail_entry (cfg : CircuitBreakerConfig) (now : Z) (e : BreakerEntry) : BreakerEntry :=
  {| state := Open; consecutive_failures := failure_threshold cfg;
     open_until := Some (now + open_duration cfg); half_open_probe_inflight := false |}.

Section Map.
Context `{Countable K}.

Local Abbreviation Entries := (gmap K BreakerEntry).

(** [entries.entry(tenant).or_default()]. *)
Definition entry_of (m : Entries) (t : K) : BreakerEntry := default entry_default (m !! t).

Definition permit_request_at (t : K) (now : Z) (m : Entries) : Permit * Entries :=
  let '(p, e) := permit_entry now (entry_of m t) in (p, <[t := e]> m).

Definition record_success (t : K) (m : Entries) : Entries :=
  <[t := success_entry (entry_of m t)]> m.

Definition record_failure_at (cfg : CircuitBreakerConfig) (t : K) (now : Z) (m : Entries) : Entries :=
  <[t := failure_entry cfg now (entry_of m t)]> m.

Definition force_reset (t : K) (m : Entries) : Entries := <[t := success_entry (entry_of m t)]> m.

Definition record_health_ok (t : K) (m : Entries) : Entries :=
  <[t := success_entry (entry_of m t)]> m.

Definition record_health_fail_at (cfg : CircuitBreakerConfig) (t : K) (now : Z) (m : Entries)
    : Entries :=
  <[t := health_fail_entry cfg now (entry_of m t)]> m.

Definition state_of (t : K) (m : Entries) : BreakerStateName :=
  match m !! t with Some e => state e | None => Closed end.

Definition consecutive_failures_of (t : K) (m : Entries) : Z :=
  match m !! t with Some e => consecutive_failures e | None => 0 end.

(** *** Executions *)

Inductive op :=
  | OpPermit (t : K) (now : Z)
  | OpSuccess (t : K)
  | OpFailure (t : K) (now : Z)
  | OpReset (t : K)
  | OpHealthOk (t : K)
  | OpHealthFail (t : K) (now : Z).

Definition op_tenant (o : op) : K :=
  match o with
  | OpPermit t _ | OpSuccess t | OpFailure t _ | OpReset t | OpHealthOk t | OpHealthFail t _ => t
  end.

(** The permit given, if the operation asks for one. *)
Definition run_op (cfg : CircuitBreakerConfig) (m : Entries) (o : op) : Entries * option Permit :=
  match o with
  | OpPermit t now => let '(p, m) := permit_request_at t now m in (m, Some p)
  | OpSuccess t => (record_success t m, None)
  | OpFailure t now => (record_failure_at cfg t now m, None)
  | OpReset t => (force_reset t m, None)
  | OpHealthOk t => (record_health_ok t m, None)
  | OpHealthFail t now => (record_health_fail_at cfg t now m, None)
  end.

Fixpoint run (cfg : CircuitBreakerConfig) (ops : list op) (m : Entries) : Entries * list (option Permit) :=
  match ops with
  | [] => (m, [])
  | o :: ops =>
      let '(m, p) := run_op cfg m o in
      let '(m, ps) := run cfg ops m in
      (m, p :: ps)
  end.

(** The number of calls of [t] let through. *)
Fixpoint allowed (t : K) (ops : list op) (ps : list (option Permit)) : nat :=
  match ops, ps with
  | OpPermit t' _ :: ops, Some Allow :: ps =>
      (if decide (t' = t) then 1 else 0) + allowed t ops ps
  | _ :: ops, _ :: ps => allowed t ops ps
  | _, _ => 0
  end%nat.

(** An operation on [t] that reports an outcome. *)
Definition reports (t : K) (o : op) : Prop :=
  op_tenant o = t /\ match o with OpPermit _ _ => False | _ => True end.

(** The per-tenant invariant: the timer runs exactly when open, a half-open
    tenant always has its probe out, and a closed one is under the threshold. *)
Definition entry_wf (cfg : CircuitBreakerConfig) (e : BreakerEntry) : Prop :=
  match state e with
  | Closed => open_until e = None /\ half_open_probe_inflight e = false /\
              0 <= consecutive_failures e < Z.max 1 (failure_threshold cfg)
  | Open => is_Some (open_until e) /\ half_open_probe_inflight e = false
  | HalfOpen => open_until e = None /\ half_open_probe_inflight e = true
  end.

Definition entries_wf (cfg : CircuitBreakerConfig) (m : Entries) : Prop :=
  forall t, entry_wf cfg (entry_of m t).

Lemma entry_of_insert t t' e (m : Entries) :
  entry_of (<[t := e]> m) t' = if decide (t = t') then e else entry_of m t'.
Proof. unfold entry_of. rewrite lookup_insert. by case_decide. Qed.

Lemma permit_entry_wf cfg now e : entry_wf cfg e -> entry_wf cfg (permit_entry now e).2.
Proof.
  destruct e as [[] n u b]; unfold entry_wf, permit_entry; cbn; try done.
  - intros [[until ->] ->]. destruct (until <=? now); cbn; [by split | by split; eauto].
  - by intros [-> ->].
Qed.

Lemma failure_entry_wf cfg now e :
  failure_threshold cfg <= u32_max -> entry_wf cfg e -> entry_wf cfg (failure_entry cfg now e).
Proof.
  intros Hcfg. destruct e as [[] n u b]; unfold entry_wf, failure_entry; cbn.
  - intros (-> & -> & Hn). destruct (failure_threshold cfg <=? _) eqn:Ht; cbn; [by split|]. b2p.
    split_and!; try done; width_lia.
  - by intros [? ->].
  - by intros [-> ->].
Qed.

Lemma run_op_wf cfg m o :
  failure_threshold cfg <= u32_max -> entries_wf cfg m -> entries_wf cfg (run_op cfg m o).1.
Proof.
  intros Hcfg Hwf t. destruct o as [t' now|t'|t' now|t'|t'|t' now]; cbn.
  1: { pose proof (permit_entry_wf cfg now _ (Hwf t')) as Hp.
       unfold permit_request_at. destruct (permit_entry _ _) as [p e]. cbn in *.
       rewrite entry_of_insert. by case_decide. }
  all: unfold record_success, record_failure_at, force_reset, record_health_ok, record_health_fail_at;
    rewrite entry_of_insert; case_decide; [|done].
  all: try (split_and!; cbn; [done | done | lia | lia]).
  - by apply failure_entry_wf.
  - by split; cbn.
Qed.

Lemma empty_wf cfg : entries_wf cfg ∅.
Proof.
  intros t. unfold entry_of. rewrite lookup_empty. cbn. split_and!; [done|done|lia|lia].
Qed.

Lemma run_op_other cfg m o t : op_tenant o <> t -> entry_of (run_op cfg m o).1 t = entry_of m t.
Proof.
  intros Hne. destruct o as [t' now|t'|t' now|t'|t'|t' now]; cbn in *;
    unfold permit_request_at, record_success, record_failure_at, force_reset, record_health_ok,
      record_health_fail_at; try (destruct (permit_entry _ _)); cbn;
    rewrite entry_of_insert; by rewrite decide_False.
Qed.

(** Out of an open or half-open state, calls are let through one at a time. *)
Lemma allowed_half_open cfg t ops m :
  failure_threshold cfg <= u32_max -> entries_wf cfg m ->
  Forall (fun o => ~ reports t o) ops -> state (entry_of m t) <> Closed ->
  (allowed t ops (run cfg ops m).2
     <= match state (entry_of m t) with Open => 1 | _ => 0 end)%nat.
Proof.
  intros Hcfg. revert m; induction ops as [|o ops IH]; intros m Hwf Hall Hst; [cbn; lia|].
  apply Forall_cons in Hall as [Ho Hall]. pose proof (run_op_wf cfg m o Hcfg Hwf) as Hwf'.
  pose proof (run_op_other cfg m o t) as Hother.
  cbn [run]. destruct (run_op cfg m o) as [m' p] eqn:Hrun. cbn [fst] in *.
  specialize (IH m' Hwf' Hall). destruct (run cfg ops m') as [m'' ps]. cbn [snd] in *.
  destruct (decide (op_tenant o = t)) as [Ht|Hne].
  - destruct o as [t' now|t'|t' now|t'|t'|t' now]; cbn in Ht; subst t';
      try (exfalso; apply Ho; by split).
    specialize (Hwf t). cbn in Hrun. unfold permit_request_at in Hrun.
    destruct (permit_entry now (entry_of m t)) as [q e] eqn:Hp. injection Hrun as <- <-.
    rewrite entry_of_insert, decide_True in IH by done. cbn [allowed].
    unfold permit_entry in Hp. unfold entry_wf in Hwf.
    destruct (state (entry_of m t)) eqn:Es; [done| |].
    + destruct Hwf as [[until Hu] _]. rewrite Hu in Hp.
      destruct (until <=? now); simplify_eq; cbn in *; rewrite ?Es in *; specialize (IH ltac:(done)).
      * rewrite decide_True by done. lia.
      * done.
    + destruct Hwf as [_ Hb]. rewrite Hb in Hp. simplify_eq. rewrite Es in IH. cbn. by apply IH.
  - rewrite Hother in IH by done. specialize (IH Hst).
    destruct o as [t' now|t'|t' now|t'|t'|t' now]; cbn [allowed]; try done.
    cbn in Hne. destruct p as [[]|]; cbn; [|done|done]. rewrite decide_False by done. done.
Qed.

Lemma run_wf cfg ops m :
  failure_threshold cfg <= u32_max -> entries_wf cfg m -> entries_wf cfg (run cfg ops m).1.
Proof.
  intros Hcfg. revert m; induction ops as [|o ops IH]; intros m Hwf; [done|].
  cbn [run]. pose proof (run_op_wf cfg m o Hcfg Hwf) as Hwf'.
  destruct (run_op cfg m o) as [m' p]. specialize (IH m' Hwf').
  by destruct (run cfg ops m').
Qed.

Lemma state_of_entry t m : state_of t m = state (entry_of m t).
Proof. unfold state_of, entry_of. by destruct (m !! t). Qed.

(** After a trip, a tenant's plugin receives at most one probe: from any
    reachable state in which the breaker of a tenant is not closed, whatever
    the other tenants do and however often and whenever permission is asked for,
    at most one call of that tenant is allowed until an outcome, a reset or a
    health check of that tenant is recorded. *)
Theorem plugin_single_probe cfg ops0 ops t :
  failure_threshold cfg <= u32_max ->
  let m := (run cfg ops0 ∅).1 in
  state_of t m <> Closed ->
  Forall (fun o => ~ reports t o) ops ->
  (allowed t ops (run cfg ops m).2 <= 1)%nat.
Proof.
  cbn zeta. intros Hcfg Hst Hall.
  assert (Hwf : entries_wf cfg (run cfg ops0 ∅).1) by (apply run_wf; [done | apply empty_wf]).
  rewrite state_of_entry in Hst.
  pose proof (allowed_half_open cfg t ops _ Hcfg Hwf Hall Hst). repeat case_match; lia.
Qed.

(** [n] failures of a tenant in a row, at the given times. *)
Definition failures (t : K) (times : list Z) : list op := OpFailure t <$> times.

Lemma failures_entry cfg t times m :
  0 < failure_threshold cfg <= u32_max -> entries_wf cfg m ->
  let e := entry_of m t in
  let e' := entry_of (run cfg (failures t times) m).1 t in
  state e = Closed ->
  consecutive_failures e + Z.of_nat (length times) < failure_threshold cfg ->
  state e' = Closed /\ consecutive_failures e' = consecutive_failures e + Z.of_nat (length times).
Proof.
  cbn zeta. intros Hcfg. revert m; induction times as [|now times IH]; intros m Hwf Hc Hlt.
  { cbn in *. split; [done|lia]. }
  pose proof (run_op_wf cfg m (OpFailure t now) (proj2 Hcfg) Hwf) as Hwf'.
  cbn [failures fmap list_fmap run run_op]. cbn [run_op] in Hwf'. cbn [length] in *.
  specialize (IH (record_failure_at cfg t now m)). unfold failures in IH.
  destruct (run cfg _ (record_failure_at cfg t now m)) as [m' ps]. cbn [fst] in *.
  assert (He : entry_of (record_failure_at cfg t now m) t = failure_entry cfg now (entry_of m t)).
  { unfold record_failure_at. by rewrite entry_of_insert, decide_True. }
  rewrite He in IH. unfold failure_entry in IH. rewrite Hc in IH.
  pose proof (Hwf t) as He'. unfold entry_wf in He'. rewrite Hc in He'.
  replace (u32_sat (consecutive_failures (entry_of m t) + 1)) with (consecutive_failures (entry_of m t) + 1)
    in IH by width_lia.
  replace (failure_threshold cfg <=? _) with false in IH by lia. cbn in IH.
  destruct (IH Hwf' eq_refl) as [-> ->]; [lia|]. split; [done|lia].
Qed.

(** The breaker trips exactly at its threshold and rests for its open
    duration: starting from a tenant just reset, fewer failures than the
    threshold leave every call allowed; the failure that reaches the threshold,
    at time [last], opens the breaker, so that calls are skipped strictly before
    [last + open_duration] and the first call from then on is the probe. *)
Theorem plugin_trip cfg ops0 t times last now :
  0 < failure_threshold cfg <= u32_max ->
  let m := (run cfg (failures t times) (force_reset t (run cfg ops0 ∅).1)).1 in
  Z.of_nat (length times) + 1 = failure_threshold cfg ->
  (permit_request_at t now m).1 = Allow /\
  let m' := record_failure_at cfg t last m in
  state_of t m' = Open /\
  (permit_request_at t now m').1 = (if now <? last + open_duration cfg then SkipOpen else Allow) /\
  state_of t (permit_request_at t now m').2 = (if now <? last + open_duration cfg then Open else HalfOpen).
Proof.
  cbn zeta. intros Hcfg Hlen. set (m0 := (run cfg ops0 ∅).1).
  assert (Hwf : entries_wf cfg m0) by (apply run_wf; [lia | apply empty_wf]).
  pose proof (run_op_wf cfg m0 (OpReset t) (proj2 Hcfg) Hwf) as Hwf1. cbn [run_op fst] in Hwf1.
  pose proof (run_wf cfg (failures t times) _ (proj2 Hcfg) Hwf1 t) as Hwf2.
  pose proof (failures_entry cfg t times (force_reset t m0) Hcfg Hwf1) as Hf. cbn zeta in Hf.
  assert (He0 : entry_of (force_reset t m0) t = success_entry (entry_of m0 t)).
  { unfold force_reset. by rewrite entry_of_insert, decide_True. }
  rewrite He0 in Hf. cbn [state consecutive_failures success_entry] in Hf.
  destruct Hf as [Hs Hn]; [done|lia|]. set (m := (run cfg (failures t times) (force_reset t m0)).1) in *.
  split.
  { unfold permit_request_at, permit_entry. by rewrite Hs. }
  rewrite !state_of_entry.
  assert (He : entry_of (record_failure_at cfg t last m) t =
    {| state := Open; consecutive_failures := failure_threshold cfg;
       open_until := Some (last + open_duration cfg); half_open_probe_inflight := false |}).
  { unfold record_failure_at. rewrite entry_of_insert, decide_True by done.
    unfold failure_entry. rewrite Hs, Hn.
    replace (u32_sat (0 + Z.of_nat (length times) + 1)) with (failure_threshold cfg) by width_lia.
    by rewrite Z.leb_refl. }
  unfold permit_request_at. rewrite He. split; [done|]. unfold permit_entry. cbn [state open_until].
  rewrite (Z.leb_antisym now). destruct (now <? last + open_duration cfg); cbn;
    (split; [done|]); by rewrite entry_of_insert, decide_True.
Qed.

End Map.
End Plugin.

(** ** The shadow breaker *)

Module Shadow.

Record BreakerEntry := {
  state : BreakerStateName;
  consecutive_failures : Z;
  open_until : option Z;
}.

Definition entry_default : BreakerEntry :=
  {| state := Closed; consecutive_failures := 0; open_until := None |}.

Definition permit_entry (now : Z) (e : BreakerEntry) : Permit * BreakerEntry :=
  match state e with
  | Closed | HalfOpen => (Allow, e)
  | Open =>
      match open_until e with
      | Some until =>
          if until <=? now then
            (Allow, {| state := HalfOpen; consecutive_failures := consecutive_failures e;
                       open_until := None |})
          else (SkipOpen, e)
      | None =>
          (Allow, {| state := HalfOpen; consecutive_failures := consecutive_failures e;
                     open_until := open_until e |})
      end
  end.

Definition success_entry (e : BreakerEntry) : BreakerEntry :=
  {| state := Closed; consecutive_failures := 0; open_until := None |}.

Definition failure_entry (cfg : CircuitBreakerConfig) (now : Z) (e : BreakerEntry) : BreakerEntry :=
  match state e with
  | Closed =>
      let n := u32_sat (consecutive_failures e + 1) in
      if failure_threshold cfg <=? n then
        {| state := Open; consecutive_failures := n; open_until := Some (now + open_duration cfg) |}
      else {| state := Closed; consecutive_failures := n; open_until := open_until e |}
  | HalfOpen =>
      {| state := Open; consecutive_failures := failure_threshold cfg;
         open_until := Some (now + open_duration cfg) |}
  | Open =>
      {| state := Open; consecutive_failures := consecutive_failures e;
         open_until := Some (now + open_duration cfg) |}
  end.

Section Map.
Context `{Countable K}.
Local Abbreviation Entries := (gmap K BreakerEntry).

Definition entry_of (m : Entries) (k : K) : BreakerEntry := default entry_default (m !! k).

Definition permit_request_at (k : K) (now : Z) (m : Entries) : Permit * Entries :=
  let '(p, e) := permit_entry now (entry_of m k) in (p, <[k := e]> m).

Definition record_success (k : K) (m : Entries) : Entries :=
  <[k := success_entry (entry_of m k)]> m.

Definition record_failure_at (cfg : CircuitBreakerConfig) (k : K) (now : Z) (m : Entries) : Entries :=
  <[k := failure_entry cfg now (entry_of m k)]> m.

Definition state_of (k : K) (m : Entries) : BreakerStateName :=
  match m !! k with Some e => state e | None => Closed end.

Definition consecutive_failures_of (k : K) (m : Entries) : Z :=
  match m !! k with Some e => consecutive_failures e | None => 0 end.

Inductive op := OpPermit (k : K) (now : Z) | OpSuccess (k : K) | OpFailure (k : K) (now : Z).

Definition run_op (cfg : CircuitBreakerConfig) (m : Entries) (o : op) : Entries * option Permit :=
  match o with
  | OpPermit k now => let '(p, m) := permit_request_at k now m in (m, Some p)
  | OpSuccess k => (record_success k m, None)
  | OpFailure k now => (record_failure_at cfg k now m, None)
  end.

Fixpoint run (cfg : CircuitBreakerConfig) (ops : list op) (m : Entries) : Entries * list (option Permit) :=
  match ops with
  | [] => (m, [])
  | o :: ops =>
      let '(m, p) := run_op cfg m o in
      let '(m, ps) := run cfg ops m in
      (m, p :: ps)
  end.

(** The plugin breaker without its probe flag. *)
Definition erase (e : Plugin.BreakerEntry) : BreakerEntry :=
  {| state := Plugin.state e; consecutive_failures := Plugin.consecutive_failures e;
     open_until := Plugin.open_until e |}.

Definition lift_op (o : op) : Plugin.op (K := K) :=
  match o with
  | OpPermit k now => Plugin.OpPermit k now
  | OpSuccess k => Plugin.OpSuccess k
  | OpFailure k now => Plugin.OpFailure k now
  end.

(** [q] is at least as permissive as [p]. *)
Definition permits_le (p q : option Permit) : Prop :=
  match p, q with Some Allow, Some SkipOpen => False | None, Some _ | Some _, None => False | _, _ => True end.

Lemma run_op_erase cfg o (m : gmap K Plugin.BreakerEntry) :
  (run_op cfg (erase <$> m) o).1 = erase <$> (Plugin.run_op cfg m (lift_op o)).1 /\
  permits_le (Plugin.run_op cfg m (lift_op o)).2 (run_op cfg (erase <$> m) o).2.
Proof.
  assert (He : forall k, entry_of (erase <$> m) k = erase (Plugin.entry_of m k)).
  { intros k. unfold entry_of, Plugin.entry_of. rewrite lookup_fmap. by destruct (m !! k). }
  destruct o as [k now|k|k now]; cbn.
  - unfold permit_request_at, Plugin.permit_request_at. rewrite He.
    destruct (Plugin.entry_of m k) as [[] n u b]; unfold permit_entry, Plugin.permit_entry; cbn.
    + by rewrite fmap_insert.
    + destruct u as [until|]; [destruct (until <=? now)|]; cbn; by rewrite fmap_insert.
    + destruct b; cbn; by rewrite fmap_insert.
  - unfold record_success, Plugin.record_success. by rewrite He, fmap_insert.
  - unfold record_failure_at, Plugin.record_failure_at. rewrite He, fmap_insert. split; [|done].
    f_equal. destruct (Plugin.entry_of m k) as [[] n u b]; unfold failure_entry, Plugin.failure_entry; cbn;
      try done. by destruct (failure_threshold cfg <=? _).
Qed.

Lemma run_erase cfg ops (m : gmap K Plugin.BreakerEntry) :
  (run cfg ops (erase <$> m)).1 = erase <$> (Plugin.run cfg (lift_op <$> ops) m).1 /\
  Forall2 permits_le (Plugin.run cfg (lift_op <$> ops) m).2 (run cfg ops (erase <$> m)).2.
Proof.
  revert m; induction ops as [|o ops IH]; intros m; [by split; [|constructor]|].
  rewrite fmap_cons. cbn [run Plugin.run]. destruct (run_op_erase cfg o m) as [H1 H2].
  destruct (run_op cfg (erase <$> m) o) as [ms p]. destruct (Plugin.run_op cfg m (lift_op o)) as [mp q].
  cbn [fst snd] in *. subst ms. destruct (IH mp) as [H3 H4].
  destruct (run cfg ops (erase <$> mp)) as [ms' ps].
  destruct (Plugin.run cfg (lift_op <$> ops) mp) as [mp' qs].
  cbn in *. split; [done | by constructor].
Qed.

(** The tokenizer's breaker is the predictor's without the probe limit:
    on the same sequence of permissions, successes and failures both are in the
    same state, with the same failure counts and timers, for every key, and the
    tokenizer's allows every call the predictor's allows. *)
Theorem shadow_erases_plugin cfg ops :
  (run cfg ops ∅).1 = erase <$> (Plugin.run cfg (lift_op <$> ops) ∅).1 /\
  Forall2 permits_le (Plugin.run cfg (lift_op <$> ops) ∅).2 (run cfg ops ∅).2.
Proof. pose proof (run_erase cfg ops ∅) as Hr. by rewrite fmap_empty in Hr. Qed.

End Map.
End Shadow.

(** ** Concrete runs *)

Module BreakerDemo.

Definition cfg : CircuitBreakerConfig := {| failure_threshold := 2; open_duration := secs 10 |}.

Definition trip : list (Plugin.op (K := string)) :=
  [Plugin.OpFailure "t" 0; Plugin.OpFailure "t" (secs 1); Plugin.OpPermit "other" 0].

Lemma plugin_single_probe_witness :
  (Plugin.allowed "t" [Plugin.OpPermit "t" (secs 20); Plugin.OpPermit "t" (secs 21)]
     (Plugin.run cfg [Plugin.OpPermit "t" (secs 20); Plugin.OpPermit "t" (secs 21)]
        (Plugin.run cfg trip ∅).1).2 <= 1)%nat.
Proof.
  apply (Plugin.plugin_single_probe cfg trip); [discriminate | vm_compute; discriminate |].
  repeat constructor; by intros [_ []].
Defined.

(** The entry is trained by one failure, tripped by the second at one second. *)
Definition tripped : gmap string Plugin.BreakerEntry :=
  Plugin.record_failure_at cfg "t" (secs 1)
    (Plugin.run cfg (Plugin.failures "t" [0]) (Plugin.force_reset "t" (Plugin.run cfg [] ∅).1)).1.

Lemma plugin_trip_witness :
  (Plugin.permit_request_at "t" (secs 5) tripped).1 = SkipOpen.
Proof.
  assert (Hc : 0 < failure_threshold cfg <= u32_max) by (vm_compute; split; congruence).
  assert (Hl : Z.of_nat (length [0]) + 1 = failure_threshold cfg) by (vm_compute; reflexivity).
  destruct (Plugin.plugin_trip cfg [] "t" [0] (secs 1) (secs 5) Hc Hl) as (_ & _ & Hp & _).
  unfold tripped. rewrite Hp. vm_compute. reflexivity.
Defined.

End BreakerDemo.
