(* ===== verification/SampleRate.v ===== *)
(** * Shadow sampling rates

    [services/tokenizer/src/shadow/sample_rate_state.rs]: per (tenant, model)
    sampling rate with a cool-down after an alert and the escalation of repeated
    alerts. Rates are [f64] values; instants are nanoseconds and the platform's
    earliest instant, below which [checked_sub] has no result, is a parameter.
    The random draw of [should_sample] is an argument. *)

From stdpp Require Import sorting.
From S2P Require Import Prelude Floats.

Record ShadowKey := {
  tenant_id : string;
  model : string;
}.

#[export] Instance ShadowKey_eq_dec : EqDecision ShadowKey.
Proof. solve_decision. Defined.

#[export] Instance ShadowKey_countable : Countable ShadowKey.
Proof.
  refine (inj_countable' (fun k => (tenant_id k, model k))
            (fun p => {| tenant_id := p.1; model := p.2 |}) _).
  by intros [].
Defined.

Record SampleRateConfig := {
  default_rate : spec_float;
  cool_down : Z;
  cool_down_rate : spec_float;
}.

Definition config_default : SampleRateConfig :=
  {| default_rate := f64_lit 1 100; cool_down := secs 3600; cool_down_rate := f64_of_Z 1 |}.

Record SampleRateEntry := {
  override_rate : option spec_float;
  cool_down_until : option Z;
  last_alert_at : option Z;
  recent_alerts : list Z;
}.

Definition entry_default : SampleRateEntry :=
  {| override_rate := None; cool_down_until := None; last_alert_at := None; recent_alerts := [] |}.

Definition ESCALATION_WINDOW : Z := secs 3600.
Definition ESCALATION_THRESHOLD : Z := 3.

Record SampleRateSnapshot := {
  effective : spec_float;
  in_cool_down : bool;
  cool_down_remaining : option Z;
}.

Abbreviation Entries := (gmap ShadowKey SampleRateEntry).

Section SampleRate.
Context (config : SampleRateConfig) (instant_min : Z).

Definition checked_sub (now d : Z) : option Z :=
  if instant_min <=? now - d then Some (now - d) else None.

Definition entry_of (m : Entries) (key : ShadowKey) : SampleRateEntry :=
  default entry_default (m !! key).

Definition rate_of (e : SampleRateEntry) : spec_float := default (default_rate config) (override_rate e).

(** The read-locked fast path, then the write-locked path that clears an
    expired cool-down: the entry is read again under the write lock. *)
Definition effective_rate_at (key : ShadowKey) (now : Z) (m : Entries) : spec_float * Entries :=
  let slow :=
    match m !! key with
    | Some e =>
        let e := match cool_down_until e with
                 | Some until =>
                     if until <=? now then
                       {| override_rate := override_rate e; cool_down_until := None;
                          last_alert_at := last_alert_at e; recent_alerts := recent_alerts e |}
                     else e
                 | None => e
                 end in
        (rate_of e, <[key := e]> m)
    | None => (default_rate config, m)
    end in
  match m !! key with
  | Some e =>
      match cool_down_until e with
      | Some until => if now <? until then (cool_down_rate config, m) else slow
      | None => (rate_of e, m)
      end
  | None => (default_rate config, m)
  end.

(** [draw] is the uniform random number of the sampler. *)
Definition should_sample (key : ShadowKey) (now : Z) (draw : spec_float) (m : Entries)
    : bool * Entries :=
  let '(rate, m) := effective_rate_at key now m in
  (if f_ge rate (f64_of_Z 1) then true
   else if SFleb rate (S754_zero false) then false
   else SFltb draw rate, m).

Definition enter_cool_down_at (key : ShadowKey) (now : Z) (m : Entries) : Entries :=
  let e := entry_of m key in
  <[key := {| override_rate := override_rate e; cool_down_until := Some (now + cool_down config);
              last_alert_at := Some now; recent_alerts := recent_alerts e |}]> m.

Definition record_alert_at (key : ShadowKey) (now : Z) (m : Entries) : bool * Entries :=
  let e := entry_of m key in
  let cutoff := default now (checked_sub now ESCALATION_WINDOW) in
  let alerts := filter (fun t => cutoff < t) (recent_alerts e) ++ [now] in
  (ESCALATION_THRESHOLD <=? Z.of_nat (length alerts),
   <[key := {| override_rate := override_rate e; cool_down_until := cool_down_until e;
               last_alert_at := last_alert_at e; recent_alerts := alerts |}]> m).

Definition set_override_rate (key : ShadowKey) (rate : option spec_float) (m : Entries) : Entries :=
  let e := entry_of m key in
  <[key := {| override_rate := rate; cool_down_until := cool_down_until e;
              last_alert_at := last_alert_at e; recent_alerts := recent_alerts e |}]> m.

Definition snapshot_at (key : ShadowKey) (now : Z) (m : Entries) : SampleRateSnapshot :=
  match m !! key with
  | Some e =>
      let cooling := match cool_down_until e with Some until => now <? until | None => false end in
      {| effective := if cooling then cool_down_rate config else rate_of e;
         in_cool_down := cooling;
         cool_down_remaining :=
           if cooling then (fun until => elapsed until now) <$> cool_down_until e else None |}
  | None =>
      {| effective := default_rate config; in_cool_down := false; cool_down_remaining := None |}
  end.

(** ** Theorems *)

(** The operations on a key. *)
Inductive op :=
  | Effective (now : Z)
  | EnterCoolDown (now : Z)
  | Alert (now : Z)
  | SetOverride (rate : option spec_float).

Definition run_op (m : Entries) (ko : ShadowKey * op) : Entries :=
  let '(key, o) := ko in
  match o with
  | Effective now => (effective_rate_at key now m).2
  | EnterCoolDown now => enter_cool_down_at key now m
  | Alert now => (record_alert_at key now m).2
  | SetOverride rate => set_override_rate key rate m
  end.

Definition run (ops : list (ShadowKey * op)) (m : Entries) : Entries := fold_left run_op ops m.

(** Two maps that answer alike for every key from time [now] on. *)
Definition same_from (now : Z) (m m' : Entries) : Prop :=
  forall key t, now <= t -> snapshot_at key t m = snapshot_at key t m' .

(** The lock-upgrading reader is the plain one: [effective_rate_at]
    returns the rate of the snapshot at that instant, in cool-down or not, and
    clearing the expired cool-down on the way changes no later snapshot of any
    key; a cool-down entered at [t0] lasts exactly the configured time. *)
Theorem effective_rate_is_snapshot key now m t0 :
  (effective_rate_at key now m).1 = effective (snapshot_at key now m) /\
  same_from now m (effective_rate_at key now m).2 /\
  in_cool_down (snapshot_at key now (enter_cool_down_at key t0 m)) = (now <? t0 + cool_down config).
Proof.
  split_and!.
  - unfold effective_rate_at, snapshot_at. destruct (m !! key) as [e|]; [|done].
    destruct (cool_down_until e) as [until|]; [|done]. cbn. destruct (now <? until) eqn:E; [done|].
    replace (until <=? now) with true by blia. done.
  - intros key' t Ht. unfold effective_rate_at. destruct (m !! key) as [e|] eqn:Hk; [|done].
    destruct (cool_down_until e) as [until|] eqn:Hu; [|done].
    destruct (now <? until) eqn:E; [done|]. replace (until <=? now) with true by blia.
    unfold snapshot_at. cbn. rewrite lookup_insert. case_decide as Heq; [|done]. subst key'.
    rewrite Hk, Hu. cbn. replace (t <? until) with false by blia. done.
  - unfold enter_cool_down_at, snapshot_at. by rewrite lookup_insert_eq.
Qed.

(** The instants of the alerts a trace records for a key. *)
Definition alert_times (key : ShadowKey) (ops : list (ShadowKey * op)) : list Z :=
  omap (fun ko => match ko.2 with
                  | Alert t => if decide (ko.1 = key) then Some t else None
                  | _ => None
                  end) ops.

Lemma rate_op_other key ko m :
  alert_times key [ko] = [] ->
  recent_alerts (entry_of (run_op m ko) key) = recent_alerts (entry_of m key).
Proof.
  destruct ko as [k o]. intros Hk. unfold entry_of.
  destruct o as [now|now|now|rate]; cbn in *;
    [|unfold enter_cool_down_at|unfold record_alert_at|unfold set_override_rate]; cbn.
  - unfold effective_rate_at. destruct (m !! k) as [e|] eqn:Hm; [|done].
    destruct (cool_down_until e); [|done]. destruct (now <? _); [done|]. cbn.
    rewrite lookup_insert. case_decide; [|done]. subst k. rewrite Hm. by destruct (_ <=? now).
  - rewrite lookup_insert. case_decide; [by subst|done].
  - rewrite lookup_insert. by case_decide.
  - rewrite lookup_insert. case_decide; [by subst|done].
Qed.

(** Filtering by an older cutoff first changes nothing. *)
Lemma filter_cutoff (c1 c2 : Z) (l : list Z) :
  c1 <= c2 -> filter (fun t => c2 < t) (filter (fun t => c1 < t) l) = filter (fun t => c2 < t) l.
Proof.
  intros Hc. induction l as [|t l IH]; [done|]. rewrite !filter_cons.
  repeat case_decide; rewrite ?filter_cons; repeat case_decide; rewrite ?IH; done || lia.
Qed.

Lemma record_alert_alerts key now m :
  instant_min <= now - ESCALATION_WINDOW ->
  recent_alerts (entry_of (record_alert_at key now m).2 key) =
    filter (fun t => now - ESCALATION_WINDOW < t) (recent_alerts (entry_of m key)) ++ [now].
Proof.
  intros Hmin. unfold record_alert_at, checked_sub.
  replace (instant_min <=? now - ESCALATION_WINDOW) with true by lia.
  unfold entry_of at 1. cbn. by rewrite lookup_insert_eq.
Qed.

Lemma alert_times_snoc key ops ko : alert_times key (ops ++ [ko]) = alert_times key ops ++ alert_times key [ko].
Proof. apply omap_app. Qed.

(** The alerts kept, seen through a later cutoff, are those of the trace. *)
Lemma recent_alerts_trace key ops now :
  StronglySorted Z.le (alert_times key ops ++ [now]) ->
  Forall (fun t => instant_min <= t - ESCALATION_WINDOW) (alert_times key ops) ->
  filter (fun t => now - ESCALATION_WINDOW < t) (recent_alerts (entry_of (run ops ∅) key)) =
    filter (fun t => now - ESCALATION_WINDOW < t) (alert_times key ops).
Proof.
  revert now; induction ops as [|[k o] ops IH] using rev_ind; intros now Hs Hmin.
  { unfold entry_of. cbn. by rewrite lookup_empty. }
  unfold run. rewrite fold_left_app. cbn [fold_left]. change (fold_left run_op ops ∅) with (run ops ∅).
  rewrite alert_times_snoc in *. destruct (alert_times key [(k, o)]) as [|t ts] eqn:Ht.
  { rewrite app_nil_r in *. rewrite rate_op_other by done. by apply IH. }
  destruct o as [| |t'|]; try discriminate. cbn in Ht. case_decide; [|discriminate].
  simplify_eq. cbn [run_op]. rewrite Forall_app, Forall_singleton in Hmin. destruct Hmin as [Hmin Ht].
  rewrite record_alert_alerts by done.
  assert (Hle : t <= now).
  { apply (StronglySorted_app_1_elem_of Z.le (alert_times key ops ++ [t]) [now]); [done|set_solver|set_solver]. }
  rewrite !filter_app, filter_cutoff by lia. f_equal.
  rewrite <- (filter_cutoff (t - ESCALATION_WINDOW) (now - ESCALATION_WINDOW) (recent_alerts _)) by lia.
  apply StronglySorted_app_1_l in Hs.
  rewrite (IH t) by done. by apply filter_cutoff; lia.
Qed.

(** An alert escalates exactly when it is at least the third of its key in
    the last hour, whatever else happened in between to this key or the others. *)
Theorem alert_escalates_iff key ops now :
  StronglySorted Z.le (alert_times key ops ++ [now]) ->
  Forall (fun t => instant_min <= t - ESCALATION_WINDOW) (alert_times key ops ++ [now]) ->
  (record_alert_at key now (run ops ∅)).1 =
    (ESCALATION_THRESHOLD <=?
       Z.of_nat (length (filter (fun t => now - ESCALATION_WINDOW < t) (alert_times key ops)) + 1)).
Proof.
  rewrite Forall_app, Forall_singleton. intros Hs [Hmin Hnow].
  pose proof (recent_alerts_trace key ops now Hs Hmin) as Hr.
  unfold record_alert_at, checked_sub.
  replace (instant_min <=? now - ESCALATION_WINDOW) with true by lia.
  cbn [fst]. change (default now (Some (now - ESCALATION_WINDOW))) with (now - ESCALATION_WINDOW).
  by rewrite length_app, Hr.
Qed.

End SampleRate.

(** Three alerts within the hour, with a cool-down and another key in between. *)
Module SampleRateDemo.

Definition k : ShadowKey := {| tenant_id := "t"; model := "m" |}.
Definition k' : ShadowKey := {| tenant_id := "t"; model := "other" |}.

Definition trace : list (ShadowKey * op) :=
  [(k, Alert (secs 7000)); (k', Alert (secs 7100)); (k, EnterCoolDown (secs 7200)); (k, Alert (secs 7500))].

Lemma trace_alerts : alert_times k trace = [secs 7000; secs 7500].
Proof. vm_compute. reflexivity. Qed.

Lemma alert_escalates_iff_witness :
  (record_alert_at 0 k (secs 8000) (run config_default 0 trace ∅)).1 = true.
Proof.
  rewrite (alert_escalates_iff config_default 0 k trace (secs 8000)); rewrite trace_alerts.
  - vm_compute. reflexivity.
  - unfold secs, NANOS. repeat constructor; lia.
  - unfold ESCALATION_WINDOW, secs, NANOS. repeat constructor; lia.
Defined.

End SampleRateDemo.
