(* ===== verification/Proto.v ===== *)
(** * Protocol messages

    The messages of [proto/spendguard] that the modelled handlers read or
    build, field by field (fields no modelled code touches are left out), with
    the numbers of their enums: generated code keeps an enum field as an [i32].
    [google.protobuf.Value] and [serde_json::Value] are trees; a map field is
    an association list whose first binding of a key counts. Byte strings are
    strings. *)

From S2P Require Import Prelude Deps Floats.

(** ** Well-known types *)

Record Timestamp := {
  seconds : Z;
  nanos : Z;
}.

(** [prost_types::Timestamp] of an instant in nanoseconds. *)
Definition timestamp_of (t : Z) : Timestamp :=
  {| seconds := t / NANOS; nanos := t mod NANOS |}.

Inductive Kind :=
  | NullValue
  | NumberValue (n : spec_float)
  | StringValue (s : string)
  | BoolValue (b : bool)
  | StructValue (fields : list (string * option Kind))
  | ListValue (l : list (option Kind)).

(** A [prost_types::Value]: its kind may be unset. *)
Definition Value := option Kind.
Definition Struct := list (string * Value).

Definition field (k : string) (s : Struct) : option Value := al_get k s.

Inductive json :=
  | JNull
  | JBool (b : bool)
  | JInt (z : Z)
  | JFloat (f : spec_float)
  | JStr (s : string)
  | JArr (l : list json)
  | JObj (o : list (string * json)).

(** [Map::insert]: the key is replaced if present. *)
Definition obj_insert (k : string) (v : json) (o : list (string * json)) : list (string * json) :=
  (k, v) :: al_remove k o.

(** ** common.v1 *)

Record SpendGuardIds := {
  ids_run_id : string;
  ids_step_id : string;
  ids_llm_call_id : string;
  ids_tool_call_id : string;
  ids_decision_id : string;
}.

Record UnitRef := {
  unit_id : string;
  unit_kind : Z;
  token_kind : string;
  model_family : string;
}.

Definition KIND_MONETARY : Z := 1.
Definition KIND_TOKEN : Z := 2.
Definition KIND_CREDIT : Z := 3.
Definition KIND_NON_MONETARY : Z := 4.

Record BudgetClaim := {
  bc_budget_id : string;
  bc_unit : option UnitRef;
  bc_amount_atomic : string;
  bc_direction : Z;
  bc_window_instance_id : string;
}.

Definition DIRECTION_UNSPECIFIED : Z := 0.
Definition DIRECTION_DEBIT : Z := 1.
Definition DIRECTION_CREDIT : Z := 2.

Record PricingFreeze := {
  pf_pricing_version : string;
  pf_price_snapshot_hash : string;
  pf_fx_rate_version : string;
  pf_unit_conversion_version : string;
}.

#[export] Instance PricingFreeze_eq_dec : EqDecision PricingFreeze.
Proof. solve_decision. Defined.

Record Fencing := {
  fc_epoch : Z;
  fc_scope_id : string;
  fc_workload_instance_id : string;
}.

Record Idempotency := {
  idem_key : string;
  idem_request_hash : string;
}.

Record ContractBundleRef := {
  cbr_bundle_id : string;
  cbr_bundle_hash : string;
  cbr_bundle_signature : string;
  cbr_signing_key_id : string;
}.

Record ProtoError := {
  pe_code : Z;
  pe_message : string;
  pe_summary : string;
}.

(** [common.v1.Error.Code]. *)
Inductive Code :=
  | CODE_UNSPECIFIED | FENCING_EPOCH_STALE | LOCK_ORDER_TOKEN_MISMATCH | PRICING_VERSION_UNKNOWN
  | UNIT_NORMALIZATION_REQUIRED | BUDGET_EXHAUSTED | DEADLOCK_TIMEOUT | SYNC_REPLICA_UNAVAILABLE
  | TENANT_DISABLED | SCHEMA_BUNDLE_UNKNOWN | SIGNATURE_INVALID | AUDIT_INVARIANT_VIOLATED
  | DUPLICATE_DECISION_EVENT | RESERVATION_STATE_CONFLICT | PRICING_FREEZE_MISMATCH
  | OVERRUN_RESERVATION | RESERVATION_TTL_EXPIRED | MULTI_RESERVATION_COMMIT_DEFERRED
  | IDEMPOTENCY_CONFLICT.

#[export] Instance Code_eq_dec : EqDecision Code.
Proof. solve_decision. Defined.

Definition all_codes : list Code :=
  [CODE_UNSPECIFIED; FENCING_EPOCH_STALE; LOCK_ORDER_TOKEN_MISMATCH; PRICING_VERSION_UNKNOWN;
   UNIT_NORMALIZATION_REQUIRED; BUDGET_EXHAUSTED; DEADLOCK_TIMEOUT; SYNC_REPLICA_UNAVAILABLE;
   TENANT_DISABLED; SCHEMA_BUNDLE_UNKNOWN; SIGNATURE_INVALID; AUDIT_INVARIANT_VIOLATED;
   DUPLICATE_DECISION_EVENT; RESERVATION_STATE_CONFLICT; PRICING_FREEZE_MISMATCH;
   OVERRUN_RESERVATION; RESERVATION_TTL_EXPIRED; MULTI_RESERVATION_COMMIT_DEFERRED;
   IDEMPOTENCY_CONFLICT].

(** [code as i32] is the position in the enum; [try_from] is its inverse. *)
Definition code_try_from (z : Z) : option Code :=
  if z <? 0 then None else all_codes !! Z.to_nat z.

Fixpoint position (c : Code) (l : list Code) : Z :=
  match l with
  | [] => 0
  | c' :: l => if decide (c = c') then 0 else 1 + position c l
  end.

Definition code_number (c : Code) : Z := position c all_codes.

Lemma code_roundtrip c : code_try_from (code_number c) = Some c.
Proof. by destruct c. Qed.

(** [common.v1.Replay]. *)
Record Replay := {
  rp_ledger_transaction_id : string;
  rp_operation_kind : string;
  rp_audit_decision_event_id : string;
  rp_operation_id : string;
  rp_decision_id : string;
  rp_projection_ids : list string;
  rp_ttl_expires_at : option Timestamp;
}.

(** The data of an event: a tree where it is built, bytes on the wire. *)
Section CloudEvent.
Context {D : Type}.

Record CloudEventOf := {
  ce_specversion : string;
  ce_type : string;
  ce_source : string;
  ce_id : string;
  ce_time : option Timestamp;
  ce_datacontenttype : string;
  ce_data : D;
  ce_tenant_id : string;
  ce_run_id : string;
  ce_decision_id : string;
  ce_schema_bundle_id : string;
  ce_producer_id : string;
  ce_producer_sequence : Z;
  ce_producer_signature : string;
  ce_signing_key_id : string;
  ce_predicted_a_tokens : Z;
  ce_predicted_b_tokens : Z;
  ce_predicted_c_tokens : Z;
  ce_reserved_strategy : string;
  ce_prediction_strategy_used : string;
  ce_prediction_policy_used : string;
  ce_tokenizer_tier : string;
  ce_tokenizer_version_id : string;
  ce_prediction_confidence : spec_float;
  ce_prediction_sample_size : Z;
  ce_cold_start_layer_used : string;
  ce_run_projection_at_decision_atomic : Z;
  ce_run_predicted_remaining_steps : Z;
  ce_run_steps_completed_so_far : Z;
  ce_actual_input_tokens : Z;
  ce_actual_output_tokens : Z;
  ce_delta_b_ratio : spec_float;
  ce_delta_c_ratio : spec_float;
}.

End CloudEvent.

Definition with_signature {D} (sig : string) (ce : @CloudEventOf D) : @CloudEventOf D :=
  {| ce_specversion := ce_specversion ce; ce_type := ce_type ce; ce_source := ce_source ce;
     ce_id := ce_id ce; ce_time := ce_time ce; ce_datacontenttype := ce_datacontenttype ce;
     ce_data := ce_data ce; ce_tenant_id := ce_tenant_id ce; ce_run_id := ce_run_id ce;
     ce_decision_id := ce_decision_id ce; ce_schema_bundle_id := ce_schema_bundle_id ce;
     ce_producer_id := ce_producer_id ce; ce_producer_sequence := ce_producer_sequence ce;
     ce_producer_signature := sig; ce_signing_key_id := ce_signing_key_id ce;
     ce_predicted_a_tokens := ce_predicted_a_tokens ce;
     ce_predicted_b_tokens := ce_predicted_b_tokens ce;
     ce_predicted_c_tokens := ce_predicted_c_tokens ce;
     ce_reserved_strategy := ce_reserved_strategy ce;
     ce_prediction_strategy_used := ce_prediction_strategy_used ce;
     ce_prediction_policy_used := ce_prediction_policy_used ce;
     ce_tokenizer_tier := ce_tokenizer_tier ce;
     ce_tokenizer_version_id := ce_tokenizer_version_id ce;
     ce_prediction_confidence := ce_prediction_confidence ce;
     ce_prediction_sample_size := ce_prediction_sample_size ce;
     ce_cold_start_layer_used := ce_cold_start_layer_used ce;
     ce_run_projection_at_decision_atomic := ce_run_projection_at_decision_atomic ce;
     ce_run_predicted_remaining_steps := ce_run_predicted_remaining_steps ce;
     ce_run_steps_completed_so_far := ce_run_steps_completed_so_far ce;
     ce_actual_input_tokens := ce_actual_input_tokens ce;
     ce_actual_output_tokens := ce_actual_output_tokens ce;
     ce_delta_b_ratio := ce_delta_b_ratio ce; ce_delta_c_ratio := ce_delta_c_ratio ce |}.

Definition with_data {D D'} (data : D') (ce : @CloudEventOf D) : @CloudEventOf D' :=
  {| ce_specversion := ce_specversion ce; ce_type := ce_type ce; ce_source := ce_source ce;
     ce_id := ce_id ce; ce_time := ce_time ce; ce_datacontenttype := ce_datacontenttype ce;
     ce_data := data; ce_tenant_id := ce_tenant_id ce; ce_run_id := ce_run_id ce;
     ce_decision_id := ce_decision_id ce; ce_schema_bundle_id := ce_schema_bundle_id ce;
     ce_producer_id := ce_producer_id ce; ce_producer_sequence := ce_producer_sequence ce;
     ce_producer_signature := ce_producer_signature ce;
     ce_signing_key_id := ce_signing_key_id ce;
     ce_predicted_a_tokens := ce_predicted_a_tokens ce;
     ce_predicted_b_tokens := ce_predicted_b_tokens ce;
     ce_predicted_c_tokens := ce_predicted_c_tokens ce;
     ce_reserved_strategy := ce_reserved_strategy ce;
     ce_prediction_strategy_used := ce_prediction_strategy_used ce;
     ce_prediction_policy_used := ce_prediction_policy_used ce;
     ce_tokenizer_tier := ce_tokenizer_tier ce;
     ce_tokenizer_version_id := ce_tokenizer_version_id ce;
     ce_prediction_confidence := ce_prediction_confidence ce;
     ce_prediction_sample_size := ce_prediction_sample_size ce;
     ce_cold_start_layer_used := ce_cold_start_layer_used ce;
     ce_run_projection_at_decision_atomic := ce_run_projection_at_decision_atomic ce;
     ce_run_predicted_remaining_steps := ce_run_predicted_remaining_steps ce;
     ce_run_steps_completed_so_far := ce_run_steps_completed_so_far ce;
     ce_actual_input_tokens := ce_actual_input_tokens ce;
     ce_actual_output_tokens := ce_actual_output_tokens ce;
     ce_delta_b_ratio := ce_delta_b_ratio ce; ce_delta_c_ratio := ce_delta_c_ratio ce |}.

Abbreviation CloudEvent := (@CloudEventOf json).

(** [ReservationSource::SubscriptionMeter]. *)
Definition RESERVATION_SOURCE_SUBSCRIPTION_METER : Z := 2.

Record SubscriptionMeter := {
  sm_plan : string;
  sm_period_start : option Timestamp;
  sm_period_end : option Timestamp;
  sm_consumed_atomic : Z;
  sm_monthly_cap_atomic : Z;
  sm_alert_at_atomic : Z;
  sm_hard_cap_at_atomic : Z;
  sm_cap_decision : Z;
  sm_retry_after_seconds : Z;
}.

(** ** sidecar_adapter.v1 *)

Record ClaimEstimate := {
  est_tokenizer_tier : string;
  est_tokenizer_version_id : string;
  est_input_tokens : Z;
  est_predicted_a_tokens : Z;
  est_predicted_b_tokens : Z;
  est_predicted_c_tokens : Z;
  est_reserved_strategy : string;
  est_prediction_strategy_used : string;
  est_prediction_policy_used : string;
  est_prediction_confidence : spec_float;
  est_prediction_sample_size : Z;
  est_cold_start_layer_used : string;
  est_classifier_version : string;
  est_fingerprint_version : string;
  est_prompt_class_fingerprint : string;
  est_run_projection_at_decision_atomic : Z;
  est_run_predicted_remaining_steps : Z;
  est_run_steps_completed_so_far : Z;
  est_run_code_triggered : string;
  est_model : string;
  est_prompt_class : string;
}.

Record Inputs := {
  in_projected_claims : list BudgetClaim;
  in_projected_unit : option UnitRef;
  in_runtime_metadata : option Struct;
  in_claim_estimate : option ClaimEstimate;
}.

Record DecisionRequest := {
  dr_session_id : string;
  dr_trigger : Z;
  dr_ids : option SpendGuardIds;
  dr_route : string;
  dr_inputs : option Inputs;
  dr_idempotency : option Idempotency;
  dr_planned_steps_hint : Z;
  dr_reservation_source : Z;
}.

Record DecisionResponse := {
  rs_decision_id : string;
  rs_audit_decision_event_id : string;
  rs_decision : Z;
  rs_reason_codes : list string;
  rs_matched_rule_ids : list string;
  rs_effect_hash : string;
  rs_ledger_transaction_id : string;
  rs_reservation_ids : list string;
  rs_ttl_expires_at : option Timestamp;
  rs_approval_request_id : string;
  rs_terminal : bool;
  rs_run_code_triggered : string;
  rs_subscription_meter : option SubscriptionMeter;
}.

Record LlmCallPostPayload := {
  lp_reservation_id : string;
  lp_provider_reported_amount_atomic : string;
  lp_unit : option UnitRef;
  lp_pricing : option PricingFreeze;
  lp_provider_event_id : string;
  lp_outcome : Z;
  lp_estimated_amount_atomic : string;
  lp_actual_input_tokens : option Z;
  lp_actual_output_tokens : option Z;
  lp_delta_b_ratio : option spec_float;
  lp_delta_c_ratio : option spec_float;
}.

(** [llm_call_post_payload::Outcome]; every other number is [Unspecified]. *)
Definition LLM_SUCCESS : Z := 1.
Definition LLM_PROVIDER_ERROR : Z := 2.
Definition LLM_CLIENT_TIMEOUT : Z := 3.
Definition LLM_RUN_ABORTED : Z := 4.

(** [trace_event::EventKind::LlmCallPost]. *)
Definition EVENT_LLM_CALL_POST : Z := 4.

(** A [TraceEvent]; its payload is kept when it is the typed one of an LLM call. *)
Record TraceEvent := {
  te_session_id : string;
  te_ids : option SpendGuardIds;
  te_kind : Z;
  te_event_time : option Timestamp;
  te_llm_call_post : option LlmCallPostPayload;
}.

(** [trace_event_ack::Status]. *)
Definition ACK_ACCEPTED : Z := 1.
Definition ACK_REJECTED : Z := 3.

Record TraceEventAck := {
  ta_event_id : string;
  ta_status : Z;
  ta_error : option ProtoError;
}.

(** [publish_outcome_request::Outcome]: [Applied] and [ApplyFailed]. *)
Definition OUTCOME_APPLIED : Z := 1.
Definition OUTCOME_APPLY_FAILED : Z := 3.

Record PublishOutcomeRequest := {
  po_session_id : string;
  po_decision_id : string;
  po_effect_hash : string;
  po_outcome : Z;
  po_adapter_error : string;
}.

Record PublishOutcomeResponse := {
  pu_audit_outcome_event_id : string;
  pu_recorded_at : option Timestamp;
}.

Record ReleaseReservationRequest := {
  rlr_tenant_id : string;
  rlr_reservation_id : string;
  rlr_session_id : string;
  rlr_workload_instance_id : string;
  rlr_idempotency_key : string;
  rlr_reason_codes : list string;
}.

Record ReleaseReservationResponse := {
  rz_audit_event_signature : string;
  rz_ledger_transaction_id : string;
  rz_released_reservation_ids : list string;
}.

Record ResumeAfterApprovalRequest := {
  ra_tenant_id : string;
  ra_decision_id : string;
  ra_approval_id : string;
  ra_session_id : string;
  ra_workload_instance_id : string;
}.

(** The encoding of a request, [prost::Message::encode]. *)
Class ProstLib := {
  encode_request : DecisionRequest -> string;
}.

(** ** ledger.v1 *)

(** The [oneof] of a response: unset, or one of its cases. *)
Inductive Outcome (S : Type) :=
  | Success (s : S)
  | Replayed (r : Replay)
  | Failure (e : ProtoError).
Arguments Success {S} s.
Arguments Replayed {S} r.
Arguments Failure {S} e.

Record QueryDecisionOutcomeRequest := {
  qd_tenant_id : string;
  qd_decision_id : string;
  qd_idempotency_key : string;
}.

Record QueryDecisionOutcomeResponse := {
  qo_stage : Z;
  qo_ledger_transaction_id : string;
  qo_audit_decision_event_id : string;
  qo_decision_id : string;
  qo_operation_kind : string;
  qo_operation_id : string;
  qo_projection_ids : list string;
  qo_ttl_expires_at : option Timestamp;
  qo_final_decision : string;
  qo_matched_rule_ids : list string;
  qo_reason_codes : list string;
  qo_run_code_triggered : string;
  qo_request_fingerprint_hex : string;
}.

(** [Stage::AuditDecisionRecorded], [AuditOutcomeRecorded]; every other number
    is [Unspecified] or [NotFound]. *)
Definition STAGE_AUDIT_DECISION_RECORDED : Z := 2.
Definition STAGE_AUDIT_OUTCOME_RECORDED : Z := 3.

Record QueryBudgetStateRequest := {
  qb_tenant_id : string;
  qb_budget_id : string;
  qb_window_instance_id : string;
  qb_snapshot_at : option Timestamp;
  qb_unit_id : string;
}.

Record QueryBudgetStateResponse := { qb_available_atomic : string }.

Record Reservation := {
  rv_reservation_id : string;
  rv_budget_id : string;
  rv_window_instance_id : string;
  rv_unit : option UnitRef;
  rv_amount_atomic : string;
  rv_ttl_expires_at : option Timestamp;
}.

Record ReserveSetRequest := {
  rr_tenant_id : string;
  rr_decision_id : string;
  rr_audit_decision_event_id : string;
  rr_producer_sequence : Z;
  rr_idempotency : option Idempotency;
  rr_fencing : option Fencing;
  rr_claims : list BudgetClaim;
  rr_ttl_expires_at : option Timestamp;
  rr_audit_event : option CloudEvent;
  rr_pricing : option PricingFreeze;
  rr_contract_bundle : option ContractBundleRef;
  rr_lock_order_token : option string;
}.

Record ReserveSetSuccess := {
  rs_ok_ledger_transaction_id : string;
  rs_ok_reservation_set_id : string;
  rs_ok_reservations : list Reservation;
  rs_ok_audit_decision_event_id : string;
}.

Record RecordDeniedDecisionRequest := {
  rd_tenant_id : string;
  rd_decision_id : string;
  rd_audit_decision_event_id : string;
  rd_producer_sequence : Z;
  rd_idempotency : option Idempotency;
  rd_fencing : option Fencing;
  rd_attempted_claims : list BudgetClaim;
  rd_matched_rule_ids : list string;
  rd_reason_codes : list string;
  rd_final_decision : string;
  rd_audit_event : option CloudEvent;
  rd_contract_bundle : option ContractBundleRef;
  rd_pricing : option PricingFreeze;
  (** JSON texts; [None] is the empty byte string *)
  rd_decision_context_json : option json;
  rd_requested_effect_json : option json;
  rd_approval_ttl_seconds : Z;
}.

Record RecordDeniedDecisionSuccess := {
  rd_ok_ledger_transaction_id : string;
  rd_ok_approval_id : string;
}.

Record CommitEstimatedRequest := {
  cr_tenant_id : string;
  cr_reservation_id : string;
  cr_estimated_amount_atomic : string;
  cr_unit : option UnitRef;
  cr_idempotency : option Idempotency;
  cr_fencing : option Fencing;
  cr_pricing : option PricingFreeze;
  cr_audit_event : option CloudEvent;
  cr_decision_id : string;
  cr_producer_sequence : Z;
}.

Record CommitSuccess := {
  cs_ledger_transaction_id : string;
  cs_reservation_id : string;
  cs_delta_to_reserved_atomic : string;
}.

Record ReleaseRequest := {
  rl_tenant_id : string;
  rl_reservation_set_id : string;
  rl_idempotency : option Idempotency;
  rl_fencing : option Fencing;
  rl_reason : Z;
  rl_audit_event : option CloudEvent;
  rl_decision_id : string;
  rl_producer_sequence : Z;
}.

Record ReleaseSuccess := {
  rl_ok_ledger_transaction_id : string;
  rl_ok_released_reservation_ids : list string;
}.

Record QueryReservationContextRequest := {
  qr_tenant_id : string;
  qr_reservation_id : string;
}.

Record ReservationContext := {
  rc_tenant_id : string;
  rc_budget_id : string;
  rc_window_instance_id : string;
  rc_unit : option UnitRef;
  rc_original_reserved_amount_atomic : string;
  rc_pricing : option PricingFreeze;
  rc_fencing_scope_id : string;
  rc_fencing_epoch_at_post : Z;
  rc_decision_id : string;
  rc_ttl_expires_at : option Timestamp;
  rc_current_state : string;
}.

Record GetApprovalForResumeRequest := {
  ga_approval_id : string;
  ga_tenant_id : string;
}.

(** The two JSON texts of an approval, as [serde_json] reads them: [None] is a
    text that is not JSON. *)
Record ApprovalResumeContext := {
  ac_approval_id : string;
  ac_tenant_id : string;
  ac_decision_id : string;
  ac_state : string;
  ac_decision_context_json : option json;
  ac_requested_effect_json : option json;
  ac_bundled_ledger_transaction_id : string;
}.

Record MarkApprovalBundledRequest := {
  mb_approval_id : string;
  mb_ledger_transaction_id : string;
}.

Record MarkApprovalBundledSuccess := {
  mb_was_first_bundling : bool;
  mb_ok_ledger_transaction_id : string;
}.

(** ** run_cost_projector.v1, as the sidecar fills and reads it *)

Record ProjectRequest := {
  pq_tenant_id : string;
  pq_run_id : string;
  pq_agent_id : string;
  pq_model : string;
  pq_step_id : string;
  pq_decision_id : string;
  pq_this_call_reservation_atomic : Z;
  pq_unit_id : string;
  pq_budget_remaining_atomic : Z;
  pq_planned_steps_hint : Z;
  pq_planned_tools_hint : Z;
}.

Record ProjectResponse := {
  pr_run_projection_at_decision_atomic : Z;
  pr_run_predicted_remaining_steps : Z;
  pr_run_steps_completed_so_far : Z;
  pr_emitted_code : string;
}.
