(* ===== verification/SubMeter.v ===== *)
(** * The subscription meter

    [services/sidecar/src/subscription_meter]: classification of subscription
    traffic ([classifier.rs]), the meter-only estimate ([estimator.rs]), the
    caps ([hard_cap.rs]), the alert cool-down ([alerts.rs]) and the lane that
    answers a decision request from them ([route.rs]). The calendar of the
    chrono crate is an interface. *)

From S2P Require Import Prelude Deps Floats Proto Contract.

(** ** chrono: the UTC calendar *)

Class Calendar := {
  year : Z -> Z;
  month : Z -> Z;
  (** [with_ymd_and_hms(y, m, 1, 0, 0, 0)] *)
  month_start : Z -> Z -> Z;
  month_range t : 1 <= month t <= 12;
  (** an instant is in its own month and before the next one *)
  month_start_le t : month_start (year t) (month t) <= t;
  month_end_gt t :
    t < (if month t =? 12 then month_start (year t + 1) 1 else month_start (year t) (month t + 1));
}.

(** ** Classification *)

Inductive SubscriptionKind := Byok | ClaudeCodePro | CodexChatGpt | UnknownSubscription.

#[export] Instance SubscriptionKind_eq_dec : EqDecision SubscriptionKind.
Proof. solve_decision. Defined.

Definition kind_as_str (k : SubscriptionKind) : string :=
  match k with
  | Byok => "byok"
  | ClaudeCodePro => "claude_code_pro"
  | CodexChatGpt => "codex_chatgpt"
  | UnknownSubscription => "unknown"
  end.

Definition is_subscription (k : SubscriptionKind) : bool :=
  match k with ClaudeCodePro | CodexChatGpt | UnknownSubscription => true | Byok => false end.

Definition AUTH_TOKEN_PREFIX_CAP : Z := 13.

Record ClassifierInput := {
  provider : string;
  model_id : string;
  auth_token_prefix : string;
  user_agent : string;
}.

(** A byte that continues a UTF-8 character. *)
Definition is_continuation (c : ascii) : bool :=
  let n := Z.of_nat (nat_of_ascii c) in (128 <=? n) && (n <? 192).

(** [s.get(..n)]: none when [n] is past the end or inside a character. *)
Definition str_prefix (s : string) (n : nat) : option string :=
  if (String.length s <? n)%nat then None
  else match String.get n s with
       | Some c => if is_continuation c then None else Some (String.substring 0 n s)
       | None => Some (String.substring 0 n s)
       end.

Definition is_likely_jwt_prefix (prefix : string) : bool := starts_with "eyJ" prefix.

Definition classify (input : ClassifierInput) : SubscriptionKind :=
  let full := auth_token_prefix input in
  let prefix :=
    default EmptyString (str_prefix full (Nat.min (String.length full) (Z.to_nat AUTH_TOKEN_PREFIX_CAP))) in
  let ua := user_agent input in
  let claude_token := starts_with "sk-ant-oat01" prefix in
  let claude_ua := starts_with "claude-cli/" ua || starts_with "claude-code/" ua in
  let codex_token := is_likely_jwt_prefix prefix in
  let codex_ua := starts_with "codex_cli_rs/" ua || starts_with "codex_cli/" ua in
  if (provider input =?s "anthropic") && claude_token && claude_ua then ClaudeCodePro
  else if (provider input =?s "openai") && codex_token && codex_ua then CodexChatGpt
  else if claude_token && claude_ua then UnknownSubscription
  else if codex_token && codex_ua then UnknownSubscription
  else Byok.

(** ** Alerts *)

Inductive AlertDecision :=
  | Emit (cooldown_seconds : Z)
  | Suppress (remaining_seconds : Z).

Definition DEFAULT_COOLDOWN_SECONDS : Z := 3600.

Definition should_emit_alert (last_fired_at row_cooldown_seconds : option Z) (now : Z) : AlertDecision :=
  let cooldown := match row_cooldown_seconds with
                  | Some n => if 0 <=? n then n else DEFAULT_COOLDOWN_SECONDS
                  | None => DEFAULT_COOLDOWN_SECONDS
                  end in
  match last_fired_at with
  | None => Emit cooldown
  | Some last =>
      let elapsed := num_seconds (now - last) in
      if cooldown <=? elapsed then Emit cooldown else Suppress (cooldown - elapsed)
  end.

Definition cooldown_deadline (last_fired_at cooldown_seconds : Z) : Z :=
  last_fired_at + secs (Z.max cooldown_seconds 0).

(** ** Caps *)

Definition HARD_CAP_RETRY_AFTER_MAX_SECONDS : Z := 86400.

Inductive CapDecision :=
  | Pass
  | SoftCapAlert (threshold_atomic projected_atomic : Z)
  | HardCapBlock (threshold_atomic projected_atomic retry_after_seconds : Z).

Definition is_block (d : CapDecision) : bool :=
  match d with HardCapBlock _ _ _ => true | _ => false end.

Definition is_alert (d : CapDecision) : bool :=
  match d with SoftCapAlert _ _ => true | _ => false end.

Record CapEvaluation := {
  cap_decision : CapDecision;
  current_consumed_atomic : Z;
  projected_consumed_atomic : Z;
  alert_at_atomic : Z;
  hard_cap_at_atomic : option Z;
}.

Definition evaluate_cap (current delta alert_at : Z) (hard_cap : option Z) (period_end now : Z)
    : CapEvaluation :=
  let current := Z.max current 0 in
  let delta := Z.max delta 0 in
  let projected := i64_sat (current + delta) in
  let soft :=
    if (0 <? alert_at) && (alert_at <=? projected) then SoftCapAlert alert_at projected else Pass in
  let decision :=
    match hard_cap with
    | Some hard =>
        if (0 <? hard) && (hard <=? projected) then
          let secs_until_reset := num_seconds (period_end - now) in
          HardCapBlock hard projected (clamp 1 HARD_CAP_RETRY_AFTER_MAX_SECONDS secs_until_reset)
        else soft
    | None => soft
    end in
  {| cap_decision := decision; current_consumed_atomic := current;
     projected_consumed_atomic := projected; alert_at_atomic := alert_at;
     hard_cap_at_atomic := hard_cap |}.

(** ** The request's metadata *)

Definition number_value (v : Value) : option Z :=
  match v with
  | Some (NumberValue n) => Some (f_to_i64 n)
  | Some (StringValue s) => parse_i64 s
  | _ => None
  end.

Definition string_value (v : Value) : option string :=
  match v with Some (StringValue s) => Some s | _ => None end.

(** [runtime_metadata.subscription], when it is a structure. *)
Definition subscription_struct (req : DecisionRequest) : option Struct :=
  i ← dr_inputs req;
  md ← in_runtime_metadata i;
  sub ← field "subscription" md;
  match sub with Some (StructValue s) => Some s | _ => None end.

Definition extract_token_estimates (req : DecisionRequest) : Z * Z :=
  match dr_inputs req ≫= in_claim_estimate with
  | None => (0, 0)
  | Some claim =>
      let output := if est_reserved_strategy claim =?s "C" then est_predicted_c_tokens claim
                    else if est_reserved_strategy claim =?s "B" then est_predicted_b_tokens claim
                    else est_predicted_a_tokens claim in
      (Z.max (est_input_tokens claim) 0, Z.max output 0)
  end.

Definition extract_retail_prices (req : DecisionRequest) : option (Z * Z) :=
  s ← subscription_struct req;
  in_v ← field "retail_input_price_micro_per_million" s;
  out_v ← field "retail_output_price_micro_per_million" s;
  in_price ← number_value in_v;
  out_price ← number_value out_v;
  Some (in_price, out_price).

(** [(alert_at, hard_cap, current_consumed)]. *)
Definition extract_cap_config (req : DecisionRequest) : Z * option Z * Z :=
  match subscription_struct req with
  | None => (0, None, 0)
  | Some sub =>
      (default 0 (field "alert_at_atomic" sub ≫= number_value),
       field "hard_cap_at_atomic" sub ≫= number_value,
       default 0 (field "current_consumed_atomic" sub ≫= number_value))
  end.

Definition classify_from_request (req : DecisionRequest) : option SubscriptionKind :=
  s ← subscription_struct req;
  p ← field "provider" s;
  token ← field "auth_token_prefix" s;
  ua ← field "user_agent" s;
  Some (classify {| provider := default EmptyString (string_value p);
                    model_id := default EmptyString (field "model_id" s ≫= string_value);
                    auth_token_prefix := default EmptyString (string_value token);
                    user_agent := default EmptyString (string_value ua) |}).

Definition is_subscription_request (req : DecisionRequest) : bool :=
  dr_reservation_source req =? RESERVATION_SOURCE_SUBSCRIPTION_METER.

(** ** The estimate and the lane *)

Definition DEFAULT_INPUT_PRICE_MICRO_PER_MILLION : Z := 3000000.
Definition DEFAULT_OUTPUT_PRICE_MICRO_PER_MILLION : Z := 15000000.

Record MeterEstimate := {
  me_tenant_id : string;
  me_kind : SubscriptionKind;
  me_plan : string;
  period_start : Z;
  period_end : Z;
  estimated_amount_atomic : Z;
  increment_applied : bool;
}.

(** The numbers of [SubscriptionMeter.CapDecision]. *)
Definition cap_decision_to_proto (d : CapDecision) : Z :=
  match d with Pass => 1 | SoftCapAlert _ _ => 2 | HardCapBlock _ _ _ => 3 end.

(** [transaction.rs]'s [DecisionOutput]; the 32 bytes of the effect hash are a string. *)
Record DecisionOutput `{UuidLib} := {
  do_decision_id : uuid;
  do_audit_decision_event_id : uuid;
  do_effect_hash : string;
  do_decision : decision;
  do_reservation_set_id : string;
  do_reservation_ids : list string;
  do_ledger_transaction_id : string;
  do_approval_request_id : string;
  do_ttl_expires_at : option Timestamp;
  do_matched_rule_ids : list string;
  do_reason_codes : list string;
  do_run_code_triggered : string;
  do_subscription_meter : option SubscriptionMeter;
}.

Section SubMeter.
Context `{Calendar}.

Definition utc_calendar_month_bounds (now : Z) : Z * Z :=
  let y := year now in
  let m := month now in
  let '(ny, nm) := if m =? 12 then (y + 1, 1) else (y, m + 1) in
  (month_start y m, month_start ny nm).

(** [saturating_mul(..) / 1_000_000] of nonnegative values. *)
Definition price (tokens micro_per_million : Z) : Z :=
  i64_sat (tokens * micro_per_million) / 1000000.

Definition meter_only_estimate (tenant_id : string) (kind : SubscriptionKind)
    (input_tokens predicted_output_tokens in_price out_price now : Z) : MeterEstimate :=
  let '(start, end_) := utc_calendar_month_bounds now in
  let in_amt := price (Z.max input_tokens 0) (Z.max in_price 0) in
  let out_amt := price (Z.max predicted_output_tokens 0) (Z.max out_price 0) in
  {| me_tenant_id := tenant_id; me_kind := kind; me_plan := kind_as_str kind;
     period_start := start; period_end := end_;
     estimated_amount_atomic := i64_sat (in_amt + out_amt); increment_applied := true |}.

Context `{UuidLib}.

(** [uuid_bytes] is [Uuid::into_bytes]; the two identifiers are [Uuid::now_v7]. *)
Definition route_decision_request (uuid_bytes : uuid -> string) (tenant_id : string)
    (decision_id audit_decision_event_id : uuid) (now : Z) (req : DecisionRequest) : DecisionOutput :=
  let kind := default UnknownSubscription (classify_from_request req) in
  let '(input_tokens, predicted_output_tokens) := extract_token_estimates req in
  let '(in_price, out_price) :=
    default (DEFAULT_INPUT_PRICE_MICRO_PER_MILLION, DEFAULT_OUTPUT_PRICE_MICRO_PER_MILLION)
      (extract_retail_prices req) in
  let estimate := meter_only_estimate tenant_id kind input_tokens predicted_output_tokens
                    in_price out_price now in
  let '(alert_at, hard_cap, current_consumed) := extract_cap_config req in
  let cap_eval := evaluate_cap current_consumed (estimated_amount_atomic estimate) alert_at hard_cap
                    (period_end estimate) now in
  let cap_pb := cap_decision_to_proto (cap_decision cap_eval) in
  let retry_after_seconds :=
    match cap_decision cap_eval with HardCapBlock _ _ r => r | _ => 0 end in
  let meter := {| sm_plan := me_plan estimate;
                  sm_period_start := Some (timestamp_of (period_start estimate));
                  sm_period_end := Some (timestamp_of (period_end estimate));
                  sm_consumed_atomic := projected_consumed_atomic cap_eval;
                  sm_monthly_cap_atomic := default 0 hard_cap;
                  sm_alert_at_atomic := alert_at;
                  sm_hard_cap_at_atomic := default 0 hard_cap;
                  sm_cap_decision := cap_pb;
                  sm_retry_after_seconds := retry_after_seconds |} in
  let '(decision_kind, reason_codes) :=
    match cap_decision cap_eval with
    | HardCapBlock _ _ _ =>
        (Stop, ["subscription_cap_exceeded"; "spendguard.http_status=429";
                "spendguard.retry_after_seconds=" +:+ i64_to_string retry_after_seconds])
    | SoftCapAlert _ _ => (Continue, ["subscription_soft_cap_alert"])
    | Pass => (Continue, ["subscription_meter_pass"])
    end in
  {| do_decision_id := decision_id; do_audit_decision_event_id := audit_decision_event_id;
     do_effect_hash := uuid_bytes decision_id
       +:+ String (ascii_of_nat (Z.to_nat cap_pb))
             (string_of_list_ascii (replicate 15 "000"%char));
     do_decision := decision_kind;
     do_reservation_set_id := EmptyString; do_reservation_ids := [];
     do_ledger_transaction_id := EmptyString; do_approval_request_id := EmptyString;
     do_ttl_expires_at := None; do_matched_rule_ids := []; do_reason_codes := reason_codes;
     do_run_code_triggered := EmptyString; do_subscription_meter := Some meter |}.

(** ** Theorems *)

Lemma evaluate_cap_block current delta alert_at hard_cap period_end now :
  is_block (cap_decision (evaluate_cap current delta alert_at hard_cap period_end now)) =
    match hard_cap with
    | Some hard => (0 <? hard) && (hard <=? i64_sat (Z.max current 0 + Z.max delta 0))
    | None => false
    end.
Proof. unfold evaluate_cap. cbn. repeat case_match; done. Qed.

(** The price of a number of tokens is the floor of the exact price. *)
Lemma price_bounds tokens p :
  0 <= tokens -> 0 <= p -> 0 <= price tokens p <= tokens * p / 1000000.
Proof.
  intros Ht Hp. unfold price. pose proof (Z.mul_nonneg_nonneg _ _ Ht Hp) as Hm.
  split; [apply Z.div_pos; width_lia | apply Z.div_le_mono; width_lia].
Qed.

Lemma month_bounds now :
  (utc_calendar_month_bounds now).1 <= now < (utc_calendar_month_bounds now).2.
Proof.
  unfold utc_calendar_month_bounds. pose proof (month_start_le now). pose proof (month_end_gt now).
  destruct (month now =? 12); cbn; lia.
Qed.

Lemma retry_after_bounds d :
  0 < d ->
  let r := clamp 1 HARD_CAP_RETRY_AFTER_MAX_SECONDS (num_seconds d) in
  1 <= r <= HARD_CAP_RETRY_AFTER_MAX_SECONDS /\ secs (r - 1) <= d.
Proof.
  intros Hd. cbn zeta. split; [apply clamp_bounds; unfold HARD_CAP_RETRY_AFTER_MAX_SECONDS; lia|].
  unfold num_seconds, secs, clamp, HARD_CAP_RETRY_AFTER_MAX_SECONDS, NANOS.
  pose proof (Z.mul_quot_le d 1000000000 ltac:(lia) ltac:(lia)).
  pose proof (Z.quot_pos d 1000000000 ltac:(lia) ltac:(lia)). lia.
Qed.

(** The metered lane enforces the cap and nothing else: the decision is STOP
    exactly when a positive hard cap is reached by the saturating sum of what was
    consumed and the nonnegative estimate, else CONTINUE; a stop tells the caller
    to come back after between one second and a day, and less than a second past
    the end of the calendar month; no answer of the lane names a reservation or a
    ledger transaction. *)
Theorem metered_lane_spec uuid_bytes tenant_id decision_id event_id now req :
  let out := route_decision_request uuid_bytes tenant_id decision_id event_id now req in
  let '(_, hard_cap, current) := extract_cap_config req in
  exists meter estimate, do_subscription_meter out = Some meter /\ 0 <= estimate <= i64_max /\
    sm_consumed_atomic meter = i64_sat (Z.max current 0 + estimate) /\
    do_decision out =
      (if match hard_cap with
          | Some hard => (0 <? hard) && (hard <=? sm_consumed_atomic meter)
          | None => false
          end then Stop else Continue) /\
    (do_decision out = Stop ->
       1 <= sm_retry_after_seconds meter <= HARD_CAP_RETRY_AFTER_MAX_SECONDS /\
       secs (sm_retry_after_seconds meter - 1) <= (utc_calendar_month_bounds now).2 - now) /\
    do_reservation_ids out = [] /\ do_ledger_transaction_id out = EmptyString.
Proof.
  cbn zeta. unfold route_decision_request.
  destruct (extract_token_estimates req) as [it ot].
  destruct (default (_, _) (extract_retail_prices req)) as [ip op].
  destruct (extract_cap_config req) as [[alert_at hard_cap] current].
  pose proof (month_bounds now) as Hmonth.
  unfold meter_only_estimate. destruct (utc_calendar_month_bounds now) as [start end_].
  cbn [estimated_amount_atomic period_end fst snd] in *.
  pose proof (price_bounds (Z.max it 0) (Z.max ip 0) ltac:(lia) ltac:(lia)) as Hp1.
  pose proof (price_bounds (Z.max ot 0) (Z.max op 0) ltac:(lia) ltac:(lia)) as Hp2.
  set (est := i64_sat (price (Z.max it 0) (Z.max ip 0) + price (Z.max ot 0) (Z.max op 0))).
  assert (Hest : 0 <= est <= i64_max) by (subst est; width_lia).
  pose proof (retry_after_bounds (end_ - now) ltac:(lia)) as Hretry. cbn zeta in Hretry.
  destruct (match cap_decision (evaluate_cap _ _ _ _ _ _) with HardCapBlock _ _ _ => _ | _ => _ end)
    as [dk rc] eqn:Hdk.
  eexists _, est. split; [reflexivity|]. split; [done|].
  unfold evaluate_cap in *. cbn in *. rewrite (Z.max_l est 0) in * by lia.
  split; [done|]. revert Hdk.
  destruct hard_cap as [hard|]; [destruct ((0 <? hard) && _)|]; cbn; try (destruct ((0 <? alert_at) && _); cbn);
    intros; by simplify_eq.
Qed.

(** An alert is emitted exactly from its cool-down deadline on: with a clock
    that has not gone back, [should_emit_alert] emits when [now] has reached the
    deadline of the effective cool-down, and otherwise reports a positive wait,
    at most the cool-down, after which it emits. *)
Theorem alert_emitted_from_deadline last row now :
  last <= now ->
  let cooldown := match row with
                  | Some n => if 0 <=? n then n else DEFAULT_COOLDOWN_SECONDS
                  | None => DEFAULT_COOLDOWN_SECONDS
                  end in
  match should_emit_alert (Some last) row now with
  | Emit c => c = cooldown /\ cooldown_deadline last cooldown <= now
  | Suppress r => now < cooldown_deadline last cooldown /\ 0 < r <= cooldown /\
                  should_emit_alert (Some last) row (now + secs r) = Emit cooldown
  end.
Proof.
  intros Hle. cbn zeta. unfold should_emit_alert, cooldown_deadline.
  set (c := match row with Some n => _ | None => _ end).
  assert (Hc : 0 <= c).
  { subst c. destruct row as [n|]; [destruct (0 <=? n) eqn:E|]; b2p;
      unfold DEFAULT_COOLDOWN_SECONDS; lia. }
  assert (Hq : forall t, last <= t -> num_seconds (t - last) = (t - last) / NANOS).
  { intros t Ht. unfold num_seconds. apply Z.quot_div_nonneg; unfold NANOS; lia. }
  rewrite (Hq now Hle), (Z.max_l c 0) by done.
  pose proof (Z.div_mod (now - last) NANOS ltac:(unfold NANOS; lia)) as Hdm.
  pose proof (Z.mod_pos_bound (now - last) NANOS ltac:(unfold NANOS; lia)) as Hm.
  pose proof (Z.div_pos (now - last) NANOS ltac:(lia) ltac:(unfold NANOS; lia)) as Hpos.
  destruct (c <=? (now - last) / NANOS) eqn:E; b2p; unfold secs, NANOS in *; [split; [done|lia]|].
  split_and!; try lia. rewrite Hq by lia.
  replace (now + (c - (now - last) / 1000000000) * 1000000000 - last)
    with ((now - last) + (c - (now - last) / 1000000000) * 1000000000) by lia.
  rewrite Z.div_add by lia.
  by replace (c <=? (now - last) / 1000000000 + (c - (now - last) / 1000000000)) with true by lia.
Qed.

End SubMeter.

Lemma alert_emitted_from_deadline_witness :
  should_emit_alert (Some 0) (Some 60) (secs 59) = Suppress 1 /\ secs 59 < cooldown_deadline 0 60.
Proof.
  split; [vm_compute; reflexivity|].
  assert (Hle : 0 <= secs 59) by (vm_compute; discriminate).
  pose proof (alert_emitted_from_deadline 0 (Some 60) (secs 59) Hle) as Hw.
  assert (He : should_emit_alert (Some 0) (Some 60) (secs 59) = Suppress 1) by (vm_compute; reflexivity).
  cbn zeta in Hw. rewrite He in Hw. exact (proj1 Hw).
Defined.

(** ** A calendar of thirty-day months, for the instances of the interface *)

Module CalendarDemo.

Definition MONTH : Z := secs 2592000.

#[export] Instance demo_calendar : Calendar.
Proof.
  refine {| year t := t / MONTH / 12; month t := (t / MONTH) mod 12 + 1;
            month_start y m := (y * 12 + (m - 1)) * MONTH |}.
  - intros t. pose proof (Z.mod_pos_bound (t / MONTH) 12). lia.
  - intros t. pose proof (Z.div_mod (t / MONTH) 12). pose proof (Z.mul_div_le t MONTH).
    unfold MONTH, secs, NANOS in *. lia.
  - intros t. pose proof (Z.div_mod (t / MONTH) 12). pose proof (Z.mul_succ_div_gt t MONTH).
    unfold MONTH, secs, NANOS in *. case_match; lia.
Defined.

End CalendarDemo.
