(* ===== verification/FailPolicy.v ===== *)
(** * The fail-policy matrix

    [services/policy/src/lib.rs]: what the sidecar does when a dependency is
    unhealthy, by dependency and class of workflow. The JSON reader is a
    parameter; [Uuid::now_v7] and [Utc::now] are arguments; a hash map is
    iterated in some order, that of the list. *)

From S2P Require Import Prelude Deps Proto.

Inductive WorkflowClass := Monetary | NonMonetaryTool | ObservabilityOnly.

Definition wf_parse (s : string) : option WorkflowClass :=
  if s =?s "monetary" then Some Monetary
  else if s =?s "non_monetary_tool" then Some NonMonetaryTool
  else if s =?s "observability_only" then Some ObservabilityOnly
  else None.

Definition wf_as_str (w : WorkflowClass) : string :=
  match w with
  | Monetary => "monetary"
  | NonMonetaryTool => "non_monetary_tool"
  | ObservabilityOnly => "observability_only"
  end.

Inductive Dependency :=
  | Ledger | CanonicalIngest | Pricing | Signing | ProviderReconciliation | Approval | Dashboard
  | Export.

Definition dep_parse (s : string) : option Dependency :=
  if s =?s "ledger" then Some Ledger
  else if s =?s "canonical_ingest" then Some CanonicalIngest
  else if s =?s "pricing" then Some Pricing
  else if s =?s "signing" then Some Signing
  else if s =?s "provider_reconciliation" then Some ProviderReconciliation
  else if s =?s "approval" then Some Approval
  else if s =?s "dashboard" then Some Dashboard
  else if s =?s "export" then Some Export
  else None.

Definition dep_as_str (d : Dependency) : string :=
  match d with
  | Ledger => "ledger"
  | CanonicalIngest => "canonical_ingest"
  | Pricing => "pricing"
  | Signing => "signing"
  | ProviderReconciliation => "provider_reconciliation"
  | Approval => "approval"
  | Dashboard => "dashboard"
  | Export => "export"
  end.

Lemma wf_roundtrip w : wf_parse (wf_as_str w) = Some w.
Proof. by destruct w. Qed.
Lemma dep_roundtrip d : dep_parse (dep_as_str d) = Some d.
Proof. by destruct d. Qed.

#[export] Instance WorkflowClass_eq_dec : EqDecision WorkflowClass.
Proof. solve_decision. Defined.
#[export] Instance Dependency_eq_dec : EqDecision Dependency.
Proof. solve_decision. Defined.

(** Keys are encoded by their printed form. *)
#[export] Instance WorkflowClass_countable : Countable WorkflowClass.
Proof. exact (inj_countable wf_as_str wf_parse wf_roundtrip). Defined.
#[export] Instance Dependency_countable : Countable Dependency.
Proof. exact (inj_countable dep_as_str dep_parse dep_roundtrip). Defined.

Inductive FailPolicyKind := FailClosed | FailOpenWithMarker.

#[export] Instance FailPolicyKind_eq_dec : EqDecision FailPolicyKind.
Proof. solve_decision. Defined.

(** serde's [rename_all = "snake_case"]. *)
Definition policy_parse (s : string) : option FailPolicyKind :=
  if s =?s "fail_closed" then Some FailClosed
  else if s =?s "fail_open_with_marker" then Some FailOpenWithMarker
  else None.

Inductive PolicyError :=
  | ParseError (what : string)
  | FailOpenWithoutAck.

Section FailPolicy.
Context `{UuidLib}.

Record AuditMarker := {
  marker_id : uuid;
  am_decision_id : string;
  am_tenant_id : string;
  am_dependency : Dependency;
  am_workflow_class : WorkflowClass;
  am_reason : string;
  am_policy_version : string;
  admitted_at : Z;
}.

Inductive FailMode :=
  | Block (reason : string)
  | Admit (marker : AuditMarker).

Record FailPolicyMatrix := {
  cells : gmap (Dependency * WorkflowClass) FailPolicyKind;
  policy_version : string;
}.

Definition all_deps : list Dependency :=
  [Ledger; CanonicalIngest; Pricing; Signing; ProviderReconciliation; Approval; Dashboard; Export].
Definition all_wfs : list WorkflowClass := [Monetary; NonMonetaryTool; ObservabilityOnly].

Definition default_fail_closed : FailPolicyMatrix :=
  {| cells := fold_left (fun m dep => fold_left (fun m wf => <[(dep, wf) := FailClosed]> m) all_wfs m)
                all_deps ∅;
     policy_version := "default-fail-closed" |}.

Definition observability_open : FailPolicyMatrix :=
  {| cells := fold_left (fun m dep => <[(dep, ObservabilityOnly) := FailOpenWithMarker]> m)
                all_deps (cells default_fail_closed);
     policy_version := "observability-open-v1" |}.

Definition profile_is_demo (profile : string) : bool :=
  eq_ignore_ascii_case (trim profile) "demo".

(** [value.as_object_mut().and_then(|m| m.remove(k))], with the value it leaves. *)
Definition obj_remove (k : string) (v : json) : option json * json :=
  match v with
  | JObj o => (al_get k o, JObj (al_remove k o))
  | _ => (None, v)
  end.

(** [serde_json::from_value::<HashMap<String, HashMap<String, String>>>]. *)
Definition as_string (v : json) : option string :=
  match v with JStr s => Some s | _ => None end.

Definition as_policy_map (v : json) : option (list (string * list (string * string))) :=
  match v with
  | JObj o =>
      mapM (fun kv : string * json =>
              match kv.2 with
              | JObj inner =>
                  wfs ← mapM (fun kv : string * json => s ← as_string kv.2; Some (kv.1, s)) inner;
                  Some (kv.1, wfs)
              | _ => None
              end) o
  | _ => None
  end.

(** The body of the inner loop: the cells and the fail-open flag. *)
Definition add_cell (dep_str : string) (dep : Dependency)
    (acc : gmap (Dependency * WorkflowClass) FailPolicyKind * bool) (entry : string * string)
    : result PolicyError (gmap (Dependency * WorkflowClass) FailPolicyKind * bool) :=
  let '(m, any_fail_open) := acc in
  let '(wf_str, policy_str) := entry in
  wf ← ok_or (wf_parse wf_str) (ParseError ("unknown workflow_class: " +:+ wf_str));
  policy ← ok_or (policy_parse policy_str) (ParseError ("policy " +:+ policy_str));
  match policy, wf with
  | FailOpenWithMarker, Monetary =>
      Err (ParseError ("fail_open_with_marker is forbidden for monetary workflows (" +:+ dep_str +:+ ")"))
  | FailOpenWithMarker, _ => Ok (<[(dep, wf) := policy]> m, true)
  | FailClosed, _ => Ok (<[(dep, wf) := policy]> m, any_fail_open)
  end.

(** A loop whose body may return early with an error. *)
Fixpoint try_fold {S A} (f : S -> A -> result PolicyError S) (s : S) (l : list A)
    : result PolicyError S :=
  match l with
  | [] => Ok s
  | a :: l => s ← f s a; try_fold f s l
  end.

Definition add_dep (acc : gmap (Dependency * WorkflowClass) FailPolicyKind * bool)
    (entry : string * list (string * string))
    : result PolicyError (gmap (Dependency * WorkflowClass) FailPolicyKind * bool) :=
  let '(dep_str, wf_map) := entry in
  dep ← ok_or (dep_parse dep_str) (ParseError ("unknown dep: " +:+ dep_str));
  try_fold (add_cell dep_str dep) acc wf_map.

(** [from_json]; [parse] is [serde_json::from_str]. *)
Definition from_json (parse : string -> option json) (raw profile : string)
    : result PolicyError FailPolicyMatrix :=
  value ← ok_or (parse raw) (ParseError "not valid JSON");
  let '(version, value) := obj_remove "_version" value in
  let policy_version :=
    default "operator-supplied-unversioned" (version ≫= as_string) in
  let '(ack, value) := obj_remove "_acknowledge_risk_of_fail_open" value in
  let explicit_ack := match ack with Some (JBool b) => b | _ => false end in
  dep_map ← ok_or (as_policy_map value) (ParseError "expected map<dep, map<wf, policy>>");
  '(m, any_fail_open) ← try_fold add_dep (cells default_fail_closed, false) dep_map;
  require negb (any_fail_open && negb (profile_is_demo profile) && negb explicit_ack)
    else FailOpenWithoutAck;
  mret {| cells := m; policy_version := policy_version |}.

Definition lookup_policy (m : FailPolicyMatrix) (dep : Dependency) (wf : WorkflowClass) : FailPolicyKind :=
  default FailClosed (cells m !! (dep, wf)).

Definition decide_mode (m : FailPolicyMatrix) (dep : Dependency) (wf : WorkflowClass)
    (reason decision_id tenant_id : string) (fresh_id : uuid) (now : Z) : FailMode :=
  match lookup_policy m dep wf with
  | FailClosed => Block ("dependency " +:+ dep_as_str dep +:+ " unhealthy: " +:+ reason)
  | FailOpenWithMarker =>
      Admit {| marker_id := fresh_id; am_decision_id := decision_id; am_tenant_id := tenant_id;
               am_dependency := dep; am_workflow_class := wf; am_reason := reason;
               am_policy_version := policy_version m; admitted_at := now |}
  end.

(** [env] is [std::env::var(..).ok()]. *)
Definition matrix_from_env (env : string -> option string) (parse : string -> option json)
    (prefix profile : string) : result PolicyError FailPolicyMatrix :=
  match env (prefix +:+ "_FAIL_POLICY_JSON") with
  | Some raw => if negb (is_empty (trim raw)) then from_json parse raw profile
                else Ok default_fail_closed
  | None => Ok default_fail_closed
  end.

(** ** Theorems *)

(** The matrices the library builds. *)
Inductive built (env : string -> option string) (parse : string -> option json) (profile : string)
    : FailPolicyMatrix -> Prop :=
  | built_default : built env parse profile default_fail_closed
  | built_open : built env parse profile observability_open
  | built_json raw m : from_json parse raw profile = Ok m -> built env parse profile m
  | built_env prefix m : matrix_from_env env parse prefix profile = Ok m -> built env parse profile m.

Definition monetary_closed (m : gmap (Dependency * WorkflowClass) FailPolicyKind) : Prop :=
  forall dep, m !! (dep, Monetary) <> Some FailOpenWithMarker.

(** What the loops keep true: no open monetary cell, and the flag remembers every
    open cell. *)
Definition loop_inv (acc : gmap (Dependency * WorkflowClass) FailPolicyKind * bool) : Prop :=
  monetary_closed acc.1 /\
  (forall k, acc.1 !! k = Some FailOpenWithMarker -> acc.2 = true).

Lemma try_fold_inv {S A} (P : S -> Prop) (f : S -> A -> result PolicyError S) l s s' :
  (forall s a s', P s -> f s a = Ok s' -> P s') -> P s -> try_fold f s l = Ok s' -> P s'.
Proof.
  intros Hf. revert s; induction l as [|a l IH]; intros s Hs; cbn [try_fold]; [by intros [= <-]|].
  destruct (f s a) as [s1|] eqn:E; [|done]. cbn. eauto.
Qed.

Lemma add_cell_inv dep_str dep acc entry acc' :
  loop_inv acc -> add_cell dep_str dep acc entry = Ok acc' -> loop_inv acc'.
Proof.
  destruct acc as [m any], entry as [wf_str policy_str]. intros [Hm Hany] HR. unfold add_cell in HR.
  destruct (wf_parse wf_str) as [wf|]; [|done]. destruct (policy_parse policy_str) as [policy|]; [|done].
  cbn in *. destruct policy, wf; simplify_eq; unfold loop_inv, monetary_closed; cbn; split;
    intros k; rewrite lookup_insert; case_decide; try done; try apply Hm; apply Hany.
Qed.

Lemma add_dep_inv acc entry acc' : loop_inv acc -> add_dep acc entry = Ok acc' -> loop_inv acc'.
Proof.
  destruct entry as [dep_str wf_map]. unfold add_dep. intros Hacc HR.
  destruct (dep_parse dep_str) as [dep|]; [|done]. cbn in HR.
  eapply try_fold_inv; [|exact Hacc|exact HR]. intros s a s'. apply add_cell_inv.
Qed.

Lemma default_closed k : cells default_fail_closed !! k = Some FailClosed.
Proof. destruct k as [[] []]; vm_compute; reflexivity. Qed.

Lemma from_json_inv parse raw profile m :
  from_json parse raw profile = Ok m ->
  monetary_closed (cells m) /\
  (profile_is_demo profile = false ->
   (forall k, cells m !! k <> Some FailOpenWithMarker) \/
   exists v, parse raw = Some v /\
     (obj_remove "_acknowledge_risk_of_fail_open" (obj_remove "_version" v).2).1 = Some (JBool true)).
Proof.
  unfold from_json. destruct (parse raw) as [v|]; [|done]. cbn [ok_or mbind result_bind].
  destruct (obj_remove "_version" v) as [version v1] eqn:Hver.
  destruct (obj_remove "_acknowledge_risk_of_fail_open" v1) as [ack v2] eqn:Hack.
  destruct (as_policy_map v2) as [dep_map|]; [|done]. cbn [ok_or mbind result_bind].
  destruct (try_fold _ _ _) as [[cs any]|] eqn:Hfold; [|done]. cbn [mbind result_bind].
  assert (Hinv : loop_inv (cs, any)).
  { eapply try_fold_inv; [|split|exact Hfold].
    - intros s a s'. apply add_dep_inv.
    - intros dep. cbn. by rewrite default_closed.
    - intros k. cbn. by rewrite default_closed. }
  destruct Hinv as [Hm Hany]. cbn in Hm, Hany. unfold ensure.
  destruct (negb (any && _ && _)) eqn:Hreq; [|done]. cbn. intros [= <-]. cbn. split; [done|].
  intros Hdemo. rewrite Hdemo in Hreq. destruct any; cbn in Hreq.
  - right. exists v. split; [done|]. rewrite Hver. cbn [snd]. rewrite Hack. cbn.
    destruct ack as [[| [] | | | | |]|]; done.
  - left. intros k Hk. by apply Hany in Hk.
Qed.

Lemma observability_open_monetary dep : cells observability_open !! (dep, Monetary) = Some FailClosed.
Proof. destruct dep; vm_compute; reflexivity. Qed.

(** A monetary workflow is never admitted on a failure, whatever matrix an
    operator supplies: every matrix the library builds, from its presets, from
    JSON or from the environment, blocks it for every dependency. *)
Theorem monetary_never_admitted env parse profile m dep reason decision_id tenant_id id now :
  built env parse profile m ->
  decide_mode m dep Monetary reason decision_id tenant_id id now =
    Block ("dependency " +:+ dep_as_str dep +:+ " unhealthy: " +:+ reason).
Proof.
  intros Hb. unfold decide_mode, lookup_policy.
  assert (Hm : monetary_closed (cells m)).
  { destruct Hb as [| |raw m Hj|prefix m He].
    - intros d. by rewrite default_closed.
    - intros d. by rewrite observability_open_monetary.
    - by apply from_json_inv in Hj as [? _].
    - unfold matrix_from_env in He. repeat case_match; simplify_eq;
        try (intros d; by rewrite default_closed). by apply from_json_inv in He as [? _]. }
  specialize (Hm dep). destruct (cells m !! (dep, Monetary)) as [[]|]; done.
Qed.

(** Outside the demo profile a supplied matrix admits nothing unless the
    operator acknowledged the risk in it, and an admission always carries the
    dependency, workflow, reason and policy version it was decided under. *)
Theorem admission_acknowledged parse raw profile m dep wf reason decision_id tenant_id id now marker :
  from_json parse raw profile = Ok m -> profile_is_demo profile = false ->
  decide_mode m dep wf reason decision_id tenant_id id now = Admit marker ->
  wf <> Monetary /\
  (exists v, parse raw = Some v /\
     (obj_remove "_acknowledge_risk_of_fail_open" (obj_remove "_version" v).2).1 = Some (JBool true)) /\
  am_dependency marker = dep /\ am_workflow_class marker = wf /\ am_reason marker = reason /\
  am_policy_version marker = policy_version m.
Proof.
  intros Hj Hdemo. unfold decide_mode, lookup_policy.
  destruct (cells m !! (dep, wf)) as [[]|] eqn:Hc; cbn; [done| |done]. intros [= <-].
  apply from_json_inv in Hj as [Hm Hack]. destruct (Hack Hdemo) as [Hall|Hv].
  - by apply Hall in Hc.
  - split_and!; try done. intros ->. by apply Hm in Hc.
Qed.

End FailPolicy.

Module FailPolicyDemo.
Import Demo.

(** The reader of one fixed document. *)
Definition parse (raw : string) : option json :=
  if raw =?s "doc" then
    Some (JObj [("_acknowledge_risk_of_fail_open", JBool true);
                ("export", JObj [("observability_only", JStr "fail_open_with_marker")])])
  else None.

Definition loaded : FailPolicyMatrix :=
  match from_json parse "doc" "prod" with Ok m => m | Err _ => default_fail_closed end.

Lemma loaded_ok : from_json parse "doc" "prod" = Ok loaded.
Proof.
  unfold loaded. enough (is_ok (from_json parse "doc" "prod") = true) by by destruct (from_json _ _ _).
  vm_compute. reflexivity.
Qed.

Lemma monetary_never_admitted_witness :
  decide_mode loaded Export Monetary "down" "d" "t" uuid_nil 0
  = Block "dependency export unhealthy: down".
Proof.
  exact (monetary_never_admitted (fun _ => None) parse "prod" loaded Export "down" "d" "t" uuid_nil 0
           (built_json _ _ _ "doc" loaded loaded_ok)).
Defined.

Lemma admission_acknowledged_witness :
  exists marker, decide_mode loaded Export ObservabilityOnly "down" "d" "t" uuid_nil 7 = Admit marker /\
    am_reason marker = "down".
Proof.
  eexists. split; [vm_compute; reflexivity|].
  eapply (admission_acknowledged parse "doc" "prod" loaded Export ObservabilityOnly "down" "d" "t" uuid_nil 7);
    [exact loaded_ok | vm_compute; reflexivity | vm_compute; reflexivity].
Defined.

End FailPolicyDemo.
