(* ===== verification/Auth.v ===== *)
(** * Authentication and authorisation

    [services/auth/src]: roles, permissions and the group policy ([rbac.rs]),
    the approver policy of an approval ([approver_policy.rs]), and the
    authenticator with its JWKS cache ([lib.rs]). The JWT library, the JWKS
    endpoint, the JSON reader and the environment are parameters; the clock is
    an argument. *)

From S2P Require Import Prelude Deps Proto.

(** ** Roles and permissions *)

Inductive Role := Viewer | Operator | Approver | Admin | Auditor.

Definition role_parse (s : string) : option Role :=
  if s =?s "viewer" then Some Viewer
  else if s =?s "operator" then Some Operator
  else if s =?s "approver" then Some Approver
  else if s =?s "admin" then Some Admin
  else if s =?s "auditor" then Some Auditor
  else None.

Definition role_as_str (r : Role) : string :=
  match r with
  | Viewer => "viewer" | Operator => "operator" | Approver => "approver"
  | Admin => "admin" | Auditor => "auditor"
  end.

Lemma role_roundtrip r : role_parse (role_as_str r) = Some r.
Proof. by destruct r. Qed.

#[export] Instance Role_eq_dec : EqDecision Role.
Proof. solve_decision. Defined.
#[export] Instance Role_countable : Countable Role.
Proof. exact (inj_countable role_as_str role_parse role_roundtrip). Defined.

Inductive Permission := ReadView | TenantWrite | ApprovalResolve | AuditExport | BudgetWrite.

#[export] Instance Permission_eq_dec : EqDecision Permission.
Proof. solve_decision. Defined.

Definition permission_as_str (p : Permission) : string :=
  match p with
  | ReadView => "read_view" | TenantWrite => "tenant_write" | ApprovalResolve => "approval_resolve"
  | AuditExport => "audit_export" | BudgetWrite => "budget_write"
  end.

Definition permissions_for_role (r : Role) : list Permission :=
  match r with
  | Viewer => [ReadView]
  | Operator => [ReadView; BudgetWrite]
  | Approver => [ReadView; ApprovalResolve]
  | Admin => [ReadView; TenantWrite; BudgetWrite; ApprovalResolve; AuditExport]
  | Auditor => [ReadView; AuditExport]
  end.

Record GroupPolicy := {
  mapping : gmap string (list Role);
  default_viewer_on_miss : bool;
}.

Definition policy_empty : GroupPolicy := {| mapping := ∅; default_viewer_on_miss := false |}.

Definition demo_default : GroupPolicy :=
  {| mapping := {["demo-admins" := [Admin; Operator; Auditor; Approver; Viewer]]};
     default_viewer_on_miss := true |}.

Inductive AuthzError :=
  | PolicyParse (what : string)
  | MissingPermission (needed : Permission)
  | CrossTenant (requested : string)
  | NoTenantScope.

Definition as_str (v : json) : option string := match v with JStr s => Some s | _ => None end.

(** [serde_json::from_value::<HashMap<String, Vec<String>>>]. *)
Definition as_groups (v : json) : option (list (string * list string)) :=
  match v with
  | JObj o =>
      mapM (fun kv : string * json =>
              match kv.2 with
              | JArr l => rs ← mapM as_str l; Some (kv.1, rs)
              | _ => None
              end) o
  | _ => None
  end.

Definition parse_group (acc : gmap string (list Role)) (entry : string * list string)
    : result AuthzError (gmap string (list Role)) :=
  roles ← collect (fun s => ok_or (role_parse s) (PolicyParse ("unknown role: " +:+ s))) entry.2;
  mret (<[entry.1 := roles]> acc).

Fixpoint fold_groups (acc : gmap string (list Role)) (l : list (string * list string))
    : result AuthzError (gmap string (list Role)) :=
  match l with
  | [] => Ok acc
  | e :: l => acc ← parse_group acc e; fold_groups acc l
  end.

(** [parse] is [serde_json::from_str]. *)
Definition policy_parse_json (parse : string -> option json) (raw : string)
    : result AuthzError GroupPolicy :=
  if is_empty (trim raw) then Ok policy_empty
  else
    value ← ok_or (parse raw) (PolicyParse "not valid JSON");
    let '(flag, value) :=
      match value with
      | JObj o => (al_get "_default_viewer_on_miss" o, JObj (al_remove "_default_viewer_on_miss" o))
      | _ => (None, value)
      end in
    let default_viewer := match flag with Some (JBool b) => b | _ => false end in
    map ← ok_or (as_groups value) (PolicyParse "expected map<string, [string]>");
    m ← fold_groups ∅ map;
    mret {| mapping := m; default_viewer_on_miss := default_viewer |}.

(** The set of the roles of the known groups, and whether any was known. *)
Definition group_roles (p : GroupPolicy) (groups : list string) : gset Role * bool :=
  fold_left (fun acc g => match mapping p !! g with
                          | Some rs => (acc.1 ∪ list_to_set rs, true)
                          | None => acc
                          end) groups (∅, false).

Definition roles_for_groups (p : GroupPolicy) (groups : list string) : list string :=
  let '(roles, hit_any) := group_roles p groups in
  let roles := if negb hit_any && default_viewer_on_miss p then {[Viewer]} ∪ roles else roles in
  role_as_str <$> sort_by role_as_str (elements roles).

Record Principal := {
  issuer : string;
  subject : string;
  groups : list string;
  tenant_ids : list string;
  roles : list string;
  mode : string;
}.

Definition has_role (p : Principal) (r : Role) : bool := existsb (String.eqb (role_as_str r)) (roles p).

Definition has_permission (p : Principal) (q : Permission) : bool :=
  existsb (fun role_str => match role_parse role_str with
                           | Some role => existsb (fun x => bool_decide (x = q)) (permissions_for_role role)
                           | None => false
                           end) (roles p).

Definition require_permission (p : Principal) (q : Permission) : result AuthzError unit :=
  ensure (has_permission p q) (MissingPermission q).

Definition assert_tenant (p : Principal) (tenant_id : string) : result AuthzError unit :=
  match tenant_ids p with
  | [] => Err NoTenantScope
  | ts => ensure (existsb (String.eqb tenant_id) ts) (CrossTenant tenant_id)
  end.

Definition set_roles (rs : list string) (p : Principal) : Principal :=
  {| issuer := issuer p; subject := subject p; groups := groups p; tenant_ids := tenant_ids p;
     roles := rs; mode := mode p |}.

Definition override_tenant_scope (ts : list string) (p : Principal) : Principal :=
  {| issuer := issuer p; subject := subject p; groups := groups p; tenant_ids := ts;
     roles := roles p; mode := mode p |}.

(** ** The approver policy *)

Inductive ApproverPolicyParse :=
  | NoRestriction
  | Restrict (rs : list string)
  | Malformed.

Definition ARRAY_KEYS : list string := ["roles"; "required_roles"].
Definition STRING_OR_ARRAY_KEYS : list string := ["role"; "approver_role"].

(** The items of an array: nonempty strings, at least one. *)
Definition role_items (arr : list json) : option (list string) :=
  if bool_decide (arr = []) then None
  else mapM (fun item => match item with
                         | JStr s => if is_empty s then None else Some s
                         | _ => None
                         end) arr.

Definition array_key_roles (obj : list (string * json)) (key : string) : option (list string) :=
  match al_get key obj with
  | None => Some []
  | Some (JArr arr) => role_items arr
  | Some _ => None
  end.

Definition string_or_array_key_roles (obj : list (string * json)) (key : string) : option (list string) :=
  match al_get key obj with
  | None => Some []
  | Some (JStr s) => if is_empty s then None else Some [s]
  | Some (JArr arr) => role_items arr
  | Some _ => None
  end.

Definition parse_approver_policy (policy : json) : ApproverPolicyParse :=
  match policy with
  | JNull => NoRestriction
  | JObj obj =>
      if bool_decide (obj = []) then NoRestriction
      else if negb (existsb (fun k => bool_decide (is_Some (al_get k obj)))
                      (ARRAY_KEYS ++ STRING_OR_ARRAY_KEYS))
      then NoRestriction
      else
        match mapM (array_key_roles obj) ARRAY_KEYS with
        | None => Malformed
        | Some rs1 =>
            match mapM (string_or_array_key_roles obj) STRING_OR_ARRAY_KEYS with
            | None => Malformed
            | Some rs2 =>
                let roles := concat rs1 ++ concat rs2 in
                if bool_decide (roles = []) then Malformed else Restrict roles
            end
        end
  | _ => Malformed
  end.

(** ** The authenticator *)

Inductive AuthError :=
  | MissingAuthHeader | InvalidToken (what : string) | IssuerMismatch | AudienceMismatch | Expired
  | UnknownKid (kid : string) | JwksFetch (what : string) | StaticTokenOutsideDemo
  | StaticTokenMismatch | Infra (what : string).

Definition status_code (e : AuthError) : Z :=
  match e with
  | MissingAuthHeader | InvalidToken _ | IssuerMismatch | AudienceMismatch | Expired
  | UnknownKid _ | StaticTokenMismatch => 401
  | JwksFetch _ | Infra _ => 503
  | StaticTokenOutsideDemo => 500
  end.

Definition safe_public_message (e : AuthError) : string :=
  match e with
  | MissingAuthHeader => "missing authorization"
  | JwksFetch _ | Infra _ => "service temporarily unavailable"
  | StaticTokenOutsideDemo => "auth misconfigured"
  | _ => "unauthorized"
  end.

Inductive Algorithm := RS256 | RS384 | RS512 | PS256 | PS384 | PS512 | ES256 | ES384.

Definition default_allowed_algs : list Algorithm :=
  [RS256; RS384; RS512; PS256; PS384; PS512; ES256; ES384].

Definition alg_parse (name : string) : option Algorithm :=
  let n := to_upper name in
  if n =?s "RS256" then Some RS256 else if n =?s "RS384" then Some RS384
  else if n =?s "RS512" then Some RS512 else if n =?s "PS256" then Some PS256
  else if n =?s "PS384" then Some PS384 else if n =?s "PS512" then Some PS512
  else if n =?s "ES256" then Some ES256 else if n =?s "ES384" then Some ES384
  else None.

Definition is_alg_separator (c : ascii) : bool :=
  let n := byte_of c in (n =? 44) || (n =? 32) || (n =? 9) || (n =? 10).

Definition parse_allowed_algs (raw : string) : list Algorithm :=
  omap alg_parse (filter (fun s => is_empty s = false) (trim <$> split_on is_alg_separator raw)).

Record JwtConfig := {
  jc_issuer : string;
  jc_audience : string;
  jwks_url : string;
  clock_skew_seconds : Z;
  jwks_refresh_seconds : Z;
  jwks_max_stale_seconds : Z;
  allowed_algs : list Algorithm;
  groups_claim : string;
  tenant_ids_claim : string;
}.

Inductive AuthConfigKind :=
  | Jwt (c : JwtConfig)
  | StaticToken (token subject : string).

Record AuthConfig := {
  ac_kind : AuthConfigKind;
  ac_policy : GroupPolicy;
  static_token_tenant_ids : list string;
}.

Section Config.
Context (env : string -> option string) (parse : string -> option json).

Definition load_policy (prefix profile : string) : result AuthError GroupPolicy :=
  match env (prefix +:+ "_GROUP_POLICY_JSON") with
  | Some raw => match policy_parse_json parse raw with
                | Ok p => Ok p
                | Err _ => Err (Infra "group policy")
                end
  | None => if profile =?s "demo" then Ok demo_default else Ok policy_empty
  end.

Definition is_comma (c : ascii) : bool := byte_of c =? 44.

(** [env(key).ok().and_then(|s| s.parse().ok()).unwrap_or(d)]. *)
Definition env_u64 (key : string) (d : Z) : Z := default d (env key ≫= parse_u64).

Definition env_required (key : string) : result AuthError string :=
  ok_or (env key) (Infra (key +:+ " required")).

Definition jwt_config_from_env (prefix : string) : result AuthError JwtConfig :=
  issuer ← env_required (prefix +:+ "_OIDC_ISSUER");
  audience ← env_required (prefix +:+ "_OIDC_AUDIENCE");
  url ← env_required (prefix +:+ "_OIDC_JWKS_URL");
  let refresh := env_u64 (prefix +:+ "_OIDC_JWKS_REFRESH_SECONDS") 3600 in
  let algs := match parse_allowed_algs <$> env (prefix +:+ "_OIDC_ALLOWED_ALGS") with
              | Some [] | None => default_allowed_algs
              | Some algs => algs
              end in
  mret {| jc_issuer := issuer; jc_audience := audience; jwks_url := url;
          clock_skew_seconds := env_u64 (prefix +:+ "_OIDC_CLOCK_SKEW_SECONDS") 60;
          jwks_refresh_seconds := refresh;
          jwks_max_stale_seconds :=
            env_u64 (prefix +:+ "_OIDC_JWKS_MAX_STALE_SECONDS") (u64_sat (refresh * 4));
          allowed_algs := algs;
          groups_claim := default "groups" (env (prefix +:+ "_OIDC_GROUPS_CLAIM"));
          tenant_ids_claim :=
            default "spendguard:tenant_ids" (env (prefix +:+ "_OIDC_TENANT_IDS_CLAIM")) |}.

Definition from_env (prefix profile : string) : result AuthError AuthConfig :=
  let mode := default "jwt" (env (prefix +:+ "_AUTH_MODE")) in
  policy ← load_policy prefix profile;
  let tenants :=
    match env (prefix +:+ "_STATIC_TOKEN_TENANT_IDS") with
    | Some s => filter (fun t => is_empty t = false) (trim <$> split_on is_comma s)
    | None => []
    end in
  kind ← (if mode =?s "jwt" then c ← jwt_config_from_env prefix; mret (Jwt c)
          else if mode =?s "static_token" then
            require profile =?s "demo" else StaticTokenOutsideDemo;
            token ← env_required (prefix +:+ "_STATIC_TOKEN");
            mret (StaticToken token (default "operator" (env (prefix +:+ "_STATIC_TOKEN_SUBJECT"))))
          else Err (Infra ("unknown AUTH_MODE: " +:+ mode)));
  mret {| ac_kind := kind; ac_policy := policy; static_token_tenant_ids := tenants |}.

End Config.

(** *** The JWKS cache

    [Key] is the library's [DecodingKey]. The fetch is awaited without the
    lock, so a lookup is two atomic steps with any number of steps of other
    requests in between: [refresh_if_stale]'s write and [key_for]'s read. *)
Section Jwks.
Context {Key : Type}.

Record JwksState := {
  keys : gmap string Key;
  fetched_at : option Z;
}.

Definition jwks_new : JwksState := {| keys := ∅; fetched_at := None |}.

Definition cache_age_seconds (now : Z) (s : JwksState) : option Z :=
  (fun t => num_seconds (now - t)) <$> fetched_at s.

Definition cache_too_stale (cfg : JwtConfig) (now : Z) (s : JwksState) : bool :=
  match cache_age_seconds now s with
  | Some age => i64_wrap (jwks_max_stale_seconds cfg) <? age
  | None => false
  end.

Definition needs_refresh (cfg : JwtConfig) (now : Z) (s : JwksState) : bool :=
  match fetched_at s with
  | None => true
  | Some t => i64_wrap (jwks_refresh_seconds cfg) <? num_seconds (now - t)
  end.

(** After a fetch that returned [fetched] at time [now]: the state is the one
    found then, which another request may have refreshed. *)
Definition after_fetch (cfg : JwtConfig) (now : Z) (fetched : result AuthError (gmap string Key))
    (s : JwksState) : result AuthError unit * JwksState :=
  match fetched with
  | Ok new_keys => (Ok tt, {| keys := new_keys; fetched_at := Some now |})
  | Err e =>
      match fetched_at s with
      | None => (Err e, s)
      | Some t =>
          if i64_wrap (jwks_max_stale_seconds cfg) <? num_seconds (now - t)
          then (Err (JwksFetch "JWKS unreachable and cache exceeded max staleness"), s)
          else (Ok tt, s)
      end
  end.

(** The end of [key_for], under one read lock at time [now]. *)
Definition lookup_key (cfg : JwtConfig) (now : Z) (kid : string) (s : JwksState) : result AuthError Key :=
  if cache_too_stale cfg now s then Err (JwksFetch "JWKS cache exceeded max staleness")
  else ok_or (keys s !! kid) (UnknownKid kid).

(** [key_for] of one request alone: the clock at each read, and what a fetch
    would return. *)
Definition key_for (cfg : JwtConfig) (now0 now1 now2 : Z)
    (fetched : result AuthError (gmap string Key)) (kid : string) (s : JwksState)
    : result AuthError Key * JwksState :=
  if needs_refresh cfg now0 s then
    match after_fetch cfg now1 fetched s with
    | (Ok _, s) => (lookup_key cfg now2 kid s, s)
    | (Err e, s) => (Err e, s)
    end
  else (lookup_key cfg now2 kid s, s).

(** *** Token validation *)

Definition extract_string_array (claims : json) (name : string) : list string :=
  match claims with
  | JObj o => match al_get name o with Some (JArr arr) => omap as_str arr | _ => [] end
  | _ => []
  end.

(** The claims of a token that the library verified; [aud] and [exp] are not read. *)
Record JwtClaims := {
  cl_iss : string;
  cl_sub : string;
  cl_aud : json;
  cl_exp : Z;
  cl_groups : list string;
  cl_tenant_ids : list string;
}.

(** [serde_json::from_value::<JwtClaims>]: a member of an object per field, or the
    fields in their order as an array; the last two may be missing. *)
Definition string_list (v : json) : option (list string) :=
  match v with JArr l => mapM as_str l | _ => None end.
Definition as_i64 (v : json) : option Z :=
  match v with JInt z => if is_i64 z then Some z else None | _ => None end.
Definition list_or_default (v : option json) : option (list string) :=
  match v with Some v => string_list v | None => Some [] end.

Definition claims_of_fields (field : string -> nat -> option json) : option JwtClaims :=
  iss ← field "iss" 0%nat ≫= as_str;
  sub ← field "sub" 1%nat ≫= as_str;
  aud ← field "aud" 2%nat;
  exp ← field "exp" 3%nat ≫= as_i64;
  groups ← list_or_default (field "groups" 4%nat);
  tenant_ids ← list_or_default (field "spendguard:tenant_ids" 5%nat);
  Some {| cl_iss := iss; cl_sub := sub; cl_aud := aud; cl_exp := exp; cl_groups := groups;
          cl_tenant_ids := tenant_ids |}.

Definition claims_from_value (raw : json) : option JwtClaims :=
  match raw with
  | JObj o => claims_of_fields (fun name _ => al_get name o)
  | JArr l => if (length l <=? 6)%nat then claims_of_fields (fun _ i => l !! i) else None
  | _ => None
  end.

(** The JWT library. *)
Record JwtLib := {
  decode_header : string -> result string (option string);
  decode : list Algorithm -> string -> string -> Z -> Key -> string -> result AuthError json;
}.

Definition validate (jwt : JwtLib) (cfg : JwtConfig) (now0 now1 now2 : Z)
    (fetched : result AuthError (gmap string Key)) (token : string) (s : JwksState)
    : result AuthError Principal * JwksState :=
  match decode_header jwt token with
  | Err e => (Err (InvalidToken e), s)
  | Ok None => (Err (InvalidToken "missing kid"), s)
  | Ok (Some kid) =>
      match key_for cfg now0 now1 now2 fetched kid s with
      | (Err e, s) => (Err e, s)
      | (Ok key, s) =>
          (match allowed_algs cfg with
           | [] => Err (Infra "JWT allowed_algs is empty; refusing to validate")
           | algs =>
               raw ← decode jwt algs (jc_audience cfg) (jc_issuer cfg) (clock_skew_seconds cfg) key token;
               claims ← ok_or (claims_from_value raw) (InvalidToken "claims shape");
               mret {| issuer := cl_iss claims; subject := cl_sub claims;
                       groups := if groups_claim cfg =?s "groups" then cl_groups claims
                                 else extract_string_array raw (groups_claim cfg);
                       tenant_ids := if tenant_ids_claim cfg =?s "spendguard:tenant_ids"
                                     then cl_tenant_ids claims
                                     else extract_string_array raw (tenant_ids_claim cfg);
                       roles := []; mode := "jwt" |}
           end, s)
      end
  end.

(** Byte-wise comparison with no early exit. *)
Fixpoint xor_diff (a b : string) : Z :=
  match a, b with
  | String x a, String y b => Z.lor (Z.lxor (byte_of x) (byte_of y)) (xor_diff a b)
  | _, _ => 0
  end.

Definition subtle_eq (a b : string) : bool :=
  if negb (Nat.eqb (String.length a) (String.length b)) then false else xor_diff a b =? 0.

Definition authenticate (jwt : JwtLib) (cfg : AuthConfig) (now0 now1 now2 : Z)
    (fetched : result AuthError (gmap string Key)) (token : string) (s : JwksState)
    : result AuthError Principal * JwksState :=
  match ac_kind cfg with
  | Jwt c =>
      match validate jwt c now0 now1 now2 fetched token s with
      | (Ok p, s) => (Ok (set_roles (roles_for_groups (ac_policy cfg) (groups p)) p), s)
      | (Err e, s) => (Err e, s)
      end
  | StaticToken t sub =>
      if subtle_eq token t then
        let p := {| issuer := "static-token"; subject := sub; groups := ["demo-admins"];
                    tenant_ids := static_token_tenant_ids cfg; roles := []; mode := "static_token" |} in
        (Ok (set_roles (roles_for_groups (ac_policy cfg) (groups p)) p), s)
      else (Err StaticTokenMismatch, s)
  end.

(** ** Theorems *)

(** The roles of the known groups. *)
Lemma group_roles_spec p groups :
  (forall r, r ∈ (group_roles p groups).1 <-> exists g rs, g ∈ groups /\ mapping p !! g = Some rs /\ r ∈ rs) /\
  ((group_roles p groups).2 = true <-> exists g, g ∈ groups /\ is_Some (mapping p !! g)).
Proof.
  unfold group_roles. induction groups as [|g groups [IH1 IH2]] using rev_ind.
  - split; [|split]; [set_solver|done|set_solver].
  - rewrite fold_left_app. cbn [fold_left].
    set (acc := fold_left _ groups _) in *.
    destruct (mapping p !! g) as [rs|] eqn:Hg; cbn.
    + split; [intros r; rewrite elem_of_union, elem_of_list_to_set, IH1|split; [|done]].
      * split; [intros [(g' & rs' & ?)|?]; [exists g', rs'|exists g, rs]; set_solver|].
        intros (g' & rs' & [Hin| ->%list_elem_of_singleton]%elem_of_app & Hm & Hr); [left; eauto|].
        right. by simplify_eq.
      * intros _. exists g. rewrite Hg. set_solver.
    + split; [intros r; rewrite IH1|rewrite IH2].
      * split; intros (g' & rs' & Hin & Hm & Hr); exists g', rs'; [set_solver|].
        apply elem_of_app in Hin as [?| ->%list_elem_of_singleton]; [done|congruence].
      * split; intros (g' & Hin & Hm); exists g'; [set_solver|].
        apply elem_of_app in Hin as [?| ->%list_elem_of_singleton]; [done|].
        rewrite Hg in Hm. by destruct Hm.
Qed.

Lemma elem_of_roles_for_groups p groups s :
  s ∈ roles_for_groups p groups <->
  exists r, s = role_as_str r /\
    ((exists g rs, g ∈ groups /\ mapping p !! g = Some rs /\ r ∈ rs) \/
     (r = Viewer /\ default_viewer_on_miss p = true /\ forall g, g ∈ groups -> mapping p !! g = None)).
Proof.
  destruct (group_roles_spec p groups) as [H1 H2]. unfold roles_for_groups.
  destruct (group_roles p groups) as [rs hit]; cbn in *.
  rewrite list_elem_of_fmap. setoid_rewrite elem_of_sort_by. setoid_rewrite elem_of_elements.
  apply exist_proper. intros r. apply and_iff_compat_l. rewrite <- H1.
  assert (Hmiss : hit = false <-> forall g, g ∈ groups -> mapping p !! g = None).
  { rewrite <- not_true_iff_false, H2. setoid_rewrite eq_None_not_Some. naive_solver. }
  rewrite <- Hmiss. destruct hit, (default_viewer_on_miss p); cbn; set_solver.
Qed.

(** A principal whose roles come from its groups has a permission exactly
    when a role that the policy gives one of its groups carries it, or when no
    group is known, the policy says so, and the permission is to read. *)
Theorem permission_iff_granted pol p q :
  has_permission (set_roles (roles_for_groups pol (groups p)) p) q = true <->
  (exists g rs r, g ∈ groups p /\ mapping pol !! g = Some rs /\ r ∈ rs /\ q ∈ permissions_for_role r) \/
  (q = ReadView /\ default_viewer_on_miss pol = true /\ forall g, g ∈ groups p -> mapping pol !! g = None).
Proof.
  unfold has_permission. cbn [roles set_roles]. rewrite existsb_exists.
  setoid_rewrite <- list_elem_of_In. setoid_rewrite elem_of_roles_for_groups.
  assert (Hp : forall r, existsb (fun x => bool_decide (x = q)) (permissions_for_role r) = true <->
                    q ∈ permissions_for_role r).
  { intros r. rewrite existsb_exists. setoid_rewrite <- list_elem_of_In.
    setoid_rewrite bool_decide_eq_true. naive_solver. }
  split.
  - intros (? & (r & -> & Hr) & Hq). rewrite role_roundtrip, Hp in Hq.
    destruct Hr as [(g & rs & ?)|(-> & ?)]; [naive_solver|].
    cbn in Hq. apply list_elem_of_singleton in Hq. naive_solver.
  - intros [(g & rs & r & Hg & Hm & Hr & Hq)|(-> & Hd & Hmiss)].
    + exists (role_as_str r). rewrite role_roundtrip, Hp. naive_solver.
    + exists (role_as_str Viewer). split; [eauto 6|done].
Qed.

Lemma role_items_spec arr rs : role_items arr = Some rs -> rs <> [] /\ Forall (fun s => is_empty s = false) rs /\ JStr <$> rs = arr.
Proof.
  unfold role_items. case_bool_decide as Hne; [done|]. intros Hm%mapM_Some_1.
  assert (Forall (fun s => is_empty s = false) rs /\ JStr <$> rs = arr) as [??].
  { clear Hne. induction Hm as [|[] s ? ? Hs ? [IH1 IH2]]; cbn; [done|..]; try done.
    destruct (is_empty s0) eqn:He; [done|]. simplify_eq. split; [by constructor|done]. }
  split_and!; [|done|done]. intros ->. done.
Qed.

(** The roles that one key of the approver policy requires. *)
Definition key_requires (obj : list (string * json)) (key s : string) : Prop :=
  al_get key obj = Some (JStr s) \/ exists arr, al_get key obj = Some (JArr arr) /\ JStr s ∈ arr.

Lemma array_key_roles_spec obj key rs : array_key_roles obj key = Some rs ->
  Forall (fun s => is_empty s = false /\ key_requires obj key s) rs.
Proof.
  unfold array_key_roles, key_requires. destruct (al_get key obj) as [[]|] eqn:E; intros H; simplify_eq; [|done].
  apply role_items_spec in H as (_ & Hf & <-). rewrite Forall_forall in *. intros s Hs.
  split; [by apply Hf|]. right. eexists; split; [done|]. by apply list_elem_of_fmap_2.
Qed.

Lemma string_or_array_key_roles_spec obj key rs : string_or_array_key_roles obj key = Some rs ->
  Forall (fun s => is_empty s = false /\ key_requires obj key s) rs.
Proof.
  unfold string_or_array_key_roles, key_requires.
  destruct (al_get key obj) as [[]|] eqn:E; intros H; simplify_eq; [| |done].
  - destruct (is_empty _) eqn:He; [done|]. simplify_eq. constructor; [|done]. auto.
  - apply role_items_spec in H as (_ & Hf & <-). rewrite Forall_forall in *. intros s' Hs.
    split; [by apply Hf|]. right. eexists; split; [done|]. by apply list_elem_of_fmap_2.
Qed.

Lemma mapM_concat_Forall {A B} (f : A -> option (list B)) (P : A -> B -> Prop) ks rss :
  (forall k rs, f k = Some rs -> Forall (P k) rs) -> mapM f ks = Some rss ->
  Forall (fun b => exists k, k ∈ ks /\ P k b) (concat rss).
Proof.
  intros Hf Hm%mapM_Some_1. induction Hm as [|k rs ks rss Hk _ IH]; cbn; [done|].
  apply Forall_app. split; eapply Forall_impl; eauto; set_solver.
Qed.

(** The approver policy fails closed: only null, the empty object and an
    object with none of the four role keys lift the restriction; a restriction
    names at least one role, all of them nonempty and listed under one of the
    keys; everything else is malformed. *)
Theorem approver_policy_fails_closed policy :
  match parse_approver_policy policy with
  | NoRestriction =>
      policy = JNull \/
      exists obj, policy = JObj obj /\
        forall k, k ∈ ARRAY_KEYS ++ STRING_OR_ARRAY_KEYS -> al_get k obj = None
  | Restrict rs =>
      rs <> [] /\
      exists obj, policy = JObj obj /\
        Forall (fun s => is_empty s = false /\
                 exists k, k ∈ ARRAY_KEYS ++ STRING_OR_ARRAY_KEYS /\ key_requires obj k s) rs
  | Malformed =>
      policy <> JNull /\
      forall obj, policy = JObj obj ->
        exists k, k ∈ ARRAY_KEYS ++ STRING_OR_ARRAY_KEYS /\ is_Some (al_get k obj)
  end.
Proof.
  destruct policy as [| | | | | |obj]; cbn [parse_approver_policy]; try (split; [done|congruence]); [by left|].
  case_bool_decide as He.
  { right. exists obj. subst. done. }
  set (KS := ARRAY_KEYS ++ STRING_OR_ARRAY_KEYS).
  destruct (existsb _ KS) eqn:Hex; cbn [negb].
  - assert (Hk : exists k, k ∈ KS /\ is_Some (al_get k obj)).
    { apply existsb_exists in Hex as (k & Hin%list_elem_of_In & Hk%bool_decide_eq_true). eauto. }
    destruct (mapM (array_key_roles obj) ARRAY_KEYS) as [rs1|] eqn:H1; [|split; [done|by intros ? [= <-]]].
    destruct (mapM (string_or_array_key_roles obj) _) as [rs2|] eqn:H2; [|split; [done|by intros ? [= <-]]].
    case_bool_decide as Hne; [split; [done|by intros ? [= <-]]|]. split; [done|]. exists obj. split; [done|].
    apply (mapM_concat_Forall _ (fun k s => is_empty s = false /\ key_requires obj k s)) in H1;
      [|apply array_key_roles_spec].
    apply (mapM_concat_Forall _ (fun k s => is_empty s = false /\ key_requires obj k s)) in H2;
      [|apply string_or_array_key_roles_spec].
    apply Forall_app. split; [eapply (Forall_impl _ _ _ H1)|eapply (Forall_impl _ _ _ H2)];
      intros s (k & Hin & Hs & Hr); (split; [done|]); exists k; (split; [|done]); apply elem_of_app; auto.
  - right. exists obj. split; [done|]. intros k Hk.
    apply eq_None_not_Some. intros Hs. apply not_true_iff_false in Hex. apply Hex.
    apply existsb_exists. exists k. split; [by apply list_elem_of_In|]. by apply bool_decide_eq_true.
Qed.

(** A cache never fetched holds no key. *)
Definition jwks_wf (s : JwksState) : Prop := fetched_at s = None -> keys s = ∅.

Lemma after_fetch_wf cfg now fetched s : jwks_wf s -> jwks_wf (after_fetch cfg now fetched s).2.
Proof. intros Hs. unfold after_fetch. repeat case_match; cbn; done. Qed.

Lemma lookup_key_ok cfg now kid s key :
  jwks_wf s -> lookup_key cfg now kid s = Ok key ->
  keys s !! kid = Some key /\
  exists t, fetched_at s = Some t /\ num_seconds (now - t) <= i64_wrap (jwks_max_stale_seconds cfg).
Proof.
  intros Hwf. unfold lookup_key, cache_too_stale, cache_age_seconds.
  destruct (fetched_at s) as [t|] eqn:Ht; cbn.
  - destruct (_ <? _) eqn:E; [done|]. intros Hk%ok_or_ok. b2p. eauto.
  - intros Hk%ok_or_ok. rewrite (Hwf Ht), lookup_empty in Hk. done.
Qed.

Lemma xor_diff_nonneg a b : 0 <= xor_diff a b.
Proof.
  revert b; induction a as [|x a IH]; intros [|y b]; cbn; try lia.
  apply Z.lor_nonneg. split; [|done]. apply Z.lxor_nonneg. unfold byte_of. lia.
Qed.

Lemma subtle_eq_spec a b : subtle_eq a b = true <-> a = b.
Proof.
  unfold subtle_eq. revert b; induction a as [|x a IH]; intros [|y b]; cbn; try done.
  specialize (IH b). destruct (Nat.eqb (String.length a) (String.length b)); cbn in *.
  - rewrite Z.eqb_eq, Z.lor_eq_0_iff, Z.lxor_eq_0_iff. rewrite Z.eqb_eq in IH. rewrite IH.
    assert (Hb : byte_of x = byte_of y <-> x = y).
    { unfold byte_of. split; [|congruence]. intros E%Nat2Z.inj.
      rewrite <- (ascii_nat_embedding x), <- (ascii_nat_embedding y). congruence. }
    rewrite Hb. split; [intros [-> ->]; done | intros [= -> ->]; done].
  - split; [done|]. intros [= -> ->]. discriminate (proj2 IH eq_refl).
Qed.

(** The cache after a sequence of fetches by any requests, oldest first. *)
Definition fetches (cfg : JwtConfig) (hist : list (Z * result AuthError (gmap string Key))) : JwksState :=
  fold_left (fun s e => (after_fetch cfg e.1 e.2 s).2) hist jwks_new.

(** The cached keys are those of one successful fetch. *)
Definition jwks_from (hist : list (Z * result AuthError (gmap string Key))) (s : JwksState) : Prop :=
  match fetched_at s with
  | None => keys s = ∅
  | Some t => (t, Ok (keys s)) ∈ hist
  end.

Lemma jwks_from_wf hist s : jwks_from hist s -> jwks_wf s.
Proof. unfold jwks_from, jwks_wf. intros H E. by rewrite E in H. Qed.

Lemma jwks_from_mono hist hist' s : hist ⊆ hist' -> jwks_from hist s -> jwks_from hist' s.
Proof. unfold jwks_from. case_match; auto. Qed.

Lemma after_fetch_from cfg hist now fetched s :
  jwks_from hist s -> jwks_from (hist ++ [(now, fetched)]) (after_fetch cfg now fetched s).2.
Proof.
  intros Hs. assert (Hm : jwks_from (hist ++ [(now, fetched)]) s).
  { apply (jwks_from_mono hist); [set_solver|done]. }
  unfold after_fetch. destruct fetched as [ks|e].
  - unfold jwks_from; cbn. set_solver.
  - destruct (fetched_at s) as [t|]; [|done]. by destruct (_ <? _).
Qed.

Lemma fetches_from cfg hist : jwks_from hist (fetches cfg hist).
Proof.
  induction hist as [|e hist IH] using rev_ind; [done|].
  unfold fetches. rewrite fold_left_app. cbn.
  destruct e as [now f]. by apply after_fetch_from.
Qed.

Lemma key_for_from cfg now0 now1 now2 fetched kid hist s :
  jwks_from hist s ->
  jwks_from (hist ++ [(now1, fetched)]) (key_for cfg now0 now1 now2 fetched kid s).2.
Proof.
  intros Hs. pose proof (after_fetch_from cfg hist now1 fetched s Hs) as Hf.
  unfold key_for. destruct (needs_refresh cfg now0 s).
  - by destruct (after_fetch cfg now1 fetched s) as [[] s'].
  - apply (jwks_from_mono hist); [set_solver|done].
Qed.

Lemma key_for_ok cfg now0 now1 now2 fetched kid s key s' :
  key_for cfg now0 now1 now2 fetched kid s = (Ok key, s') -> lookup_key cfg now2 kid s' = Ok key.
Proof.
  unfold key_for. destruct (needs_refresh cfg now0 s); [|by intros [= <- <-]].
  destruct (after_fetch cfg now1 fetched s) as [[u|e] s1]; [|done]. by intros [= <- <-].
Qed.

(** The list [l] is what the claim [name] of the claims [o] says: under the usual name
    all its members are strings, or it is missing for none; under another, [l] is its
    members that are strings. *)
Definition claimed (name usual : string) (o : list (string * json)) (l : list string) : Prop :=
  if name =?s usual then al_get name o = Some (JArr (JStr <$> l)) \/ al_get name o = None /\ l = []
  else match al_get name o with
       | Some (JArr vs) => JStr <$> l = List.filter (fun v => match v with JStr _ => true | _ => false end) vs
       | _ => l = []
       end.

Lemma mapM_as_str vs l : mapM as_str vs = Some l -> vs = JStr <$> l.
Proof.
  revert l. induction vs as [|v vs IH]; cbn; intros l; [by intros [= <-]|].
  destruct v; cbn; try done. destruct (mapM as_str vs) as [l'|]; [|done]. cbn. intros [= <-]. cbn. by rewrite (IH l').
Qed.

Lemma omap_as_str vs :
  JStr <$> omap as_str vs = List.filter (fun v => match v with JStr _ => true | _ => false end) vs.
Proof. induction vs as [|v vs IH]; [done|]. destruct v; cbn; by rewrite ?IH. Qed.

Lemma claimed_default o l usual : list_or_default (al_get usual o) = Some l -> claimed usual usual o l.
Proof.
  unfold claimed. rewrite String.eqb_refl. destruct (al_get usual o) as [v|]; cbn; [|intros [= <-]; by right].
  destruct v; cbn; try done. intros ->%mapM_as_str. by left.
Qed.

Lemma claimed_array o l name usual :
  list_or_default (al_get usual o) = Some l ->
  claimed name usual o (if name =?s usual then l else extract_string_array (JObj o) name).
Proof.
  intros Hl. destruct (name =?s usual) eqn:E.
  - apply String.eqb_eq in E as ->. by apply claimed_default.
  - unfold claimed. rewrite E. unfold extract_string_array. destruct (al_get name o) as [[]|]; try done.
    apply omap_as_str.
Qed.

(** C38: in JWT mode, whatever fetches other requests made before, an
    authenticated principal is that of a token that the JWT library
    verified with the configured algorithms, issuer and audience under a key
    that a successful JWKS fetch returned for the token's key id no longer ago
    than the staleness bound. When the verified claims are an object, as RFC 7519 has
    them, its issuer and subject are theirs, and its groups and tenants the strings
    under the claims configured for them; its roles are those that the policy gives a
    group of it, or the viewer's when it knows none and the policy says so. *)
Theorem jwt_principal_verified jwt cfg c hist now0 now1 now2 fetched token p s' :
  ac_kind cfg = Jwt c ->
  authenticate jwt cfg now0 now1 now2 fetched token (fetches c hist) = (Ok p, s') ->
  exists kid ks key t raw,
    decode_header jwt token = Ok (Some kid) /\
    (t, Ok ks) ∈ hist ++ [(now1, fetched)] /\ ks !! kid = Some key /\
    num_seconds (now2 - t) <= i64_wrap (jwks_max_stale_seconds c) /\
    allowed_algs c <> [] /\
    decode jwt (allowed_algs c) (jc_audience c) (jc_issuer c) (clock_skew_seconds c) key token = Ok raw /\
    mode p = "jwt" /\
    (forall o, raw = JObj o ->
       al_get "iss" o = Some (JStr (issuer p)) /\ al_get "sub" o = Some (JStr (subject p)) /\
       claimed (groups_claim c) "groups" o (groups p) /\
       claimed (tenant_ids_claim c) "spendguard:tenant_ids" o (tenant_ids p)) /\
    forall role, role ∈ roles p <-> exists r, role = role_as_str r /\
      ((exists g rs, g ∈ groups p /\ mapping (ac_policy cfg) !! g = Some rs /\ r ∈ rs) \/
       (r = Viewer /\ default_viewer_on_miss (ac_policy cfg) = true /\
        forall g, g ∈ groups p -> mapping (ac_policy cfg) !! g = None)).
Proof.
  intros Hk. unfold authenticate. rewrite Hk.
  destruct (validate jwt c now0 now1 now2 fetched token _) as [[q|e] s1] eqn:Hv; [|done].
  intros [= <- <-]. revert Hv. unfold validate.
  destruct (decode_header jwt token) as [[kid|]|e] eqn:Hh; [|done|done].
  pose proof (key_for_from c now0 now1 now2 fetched kid hist _ (fetches_from c hist)) as Hfrom.
  destruct (key_for c now0 now1 now2 fetched kid (fetches c hist)) as [[key|e] s2] eqn:Hkey; [|done].
  cbn in Hfrom. apply key_for_ok, lookup_key_ok in Hkey as (Hl & t & Ht & Hage); [|by eapply jwks_from_wf].
  unfold jwks_from in Hfrom. rewrite Ht in Hfrom. intros Hv.
  apply (f_equal fst) in Hv. cbn [fst] in Hv.
  destruct (allowed_algs c) as [|a algs] eqn:Halgs; [done|].
  apply result_bind_ok in Hv as (raw & Hraw & Hv). apply result_bind_ok in Hv as (claims & Hc%ok_or_ok & Hv).
  cbn in Hv. injection Hv as <-.
  exists kid, (keys s2), key, t, raw. split_and!; try done.
  - intros o ->. cbn in Hc |- *. unfold claims_of_fields in Hc.
    apply bind_Some in Hc as (iss & (v1 & Hiss & H1)%bind_Some & Hc).
    apply bind_Some in Hc as (sub & (v2 & Hsub & H2)%bind_Some & Hc).
    apply bind_Some in Hc as (aud & _ & Hc). apply bind_Some in Hc as (ex & _ & Hc).
    apply bind_Some in Hc as (gs & Hgs & Hc). apply bind_Some in Hc as (ts & Hts & [= <-]). cbn.
    destruct v1, v2; cbn in H1, H2; simplify_eq. split_and!; [done..| |]; by apply claimed_array.
  - intros role. apply elem_of_roles_for_groups.
Qed.

(** Static-token authentication exists only in the demo profile, and
    then accepts exactly the configured token. *)
Theorem static_token_demo_only env parse jwt prefix profile cfg t sub now0 now1 now2 fetched token s :
  from_env env parse prefix profile = Ok cfg -> ac_kind cfg = StaticToken t sub ->
  profile = "demo" /\ env (prefix +:+ "_STATIC_TOKEN") = Some t /\
  (forall p, (authenticate jwt cfg now0 now1 now2 fetched token s).1 = Ok p ->
             token = t /\ tenant_ids p = static_token_tenant_ids cfg /\
             roles p = roles_for_groups (ac_policy cfg) ["demo-admins"]) /\
  (token = t -> exists p, (authenticate jwt cfg now0 now1 now2 fetched token s).1 = Ok p).
Proof.
  intros Hf Hk. unfold from_env in Hf. mon_inv Hf. cbn in Hk. subst.
  assert (profile = "demo" /\ env (prefix +:+ "_STATIC_TOKEN") = Some t) as [Hp Ht].
  { destruct (_ =?s "jwt"); [by apply result_bind_ok in E0 as (?&?&[=])|].
    destruct (_ =?s "static_token"); [|done].
    apply result_bind_ok in E0 as (_ & Hd%ensure_ok & E0).
    apply result_bind_ok in E0 as (tok & Htok%ok_or_ok & [= -> _]).
    split; [by apply String.eqb_eq|done]. }
  split; [done|]. split; [done|]. unfold authenticate. cbn.
  pose proof (subtle_eq_spec token t) as Hs. destruct (subtle_eq token t).
  - split; [|eauto]. intros p [= <-]. split; [by apply Hs|done].
  - split; [done|]. intros Ht'. by apply Hs in Ht'.
Qed.
End Jwks.


(** ** Witnesses *)
Module AuthDemo.

(** Tokens are key ids; the key of every id is the id. *)
Definition jwt : JwtLib (Key := string) :=
  {| decode_header := fun token => if is_empty token then Err "empty" else Ok (Some token);
     decode := fun _ _ _ _ key token =>
       if key =?s token
       then Ok (JObj [("iss", JStr "idp"); ("sub", JStr "alice"); ("aud", JStr "spendguard"); ("exp", JInt 9000);
                      ("groups", JArr [JStr "ops"]); ("spendguard:tenant_ids", JArr [JStr "t1"])])
       else Err (InvalidToken "signature") |}.

Definition jwt_cfg : JwtConfig :=
  {| jc_issuer := "idp"; jc_audience := "spendguard"; jwks_url := "https://idp/jwks";
     clock_skew_seconds := 60; jwks_refresh_seconds := 3600; jwks_max_stale_seconds := 14400;
     allowed_algs := default_allowed_algs; groups_claim := "groups";
     tenant_ids_claim := "spendguard:tenant_ids" |}.

Definition cfg : AuthConfig :=
  {| ac_kind := Jwt jwt_cfg;
     ac_policy := {| mapping := {["ops" := [Operator]]}; default_viewer_on_miss := false |};
     static_token_tenant_ids := [] |}.

Definition hist : list (Z * result AuthError (gmap string string)) := [(secs 10, Ok {["k1" := "k1"]})].
Definition fetched : result AuthError (gmap string string) := Err (JwksFetch "down").

(** Two hours after the last fetch the endpoint is down: the cached key still
    serves, within its staleness bound. *)
Lemma jwt_principal_verified_witness :
  exists p, (authenticate jwt cfg (secs 7210) (secs 7211) (secs 7212) fetched "k1" (fetches jwt_cfg hist)).1 = Ok p /\
  exists o, decode jwt default_allowed_algs "spendguard" "idp" 60 "k1" "k1" = Ok (JObj o) /\
    al_get "sub" o = Some (JStr "alice") /\
    claimed "groups" "groups" o ["ops"] /\ claimed "spendguard:tenant_ids" "spendguard:tenant_ids" o ["t1"] /\
    roles p = ["operator"].
Proof.
  eexists. split; [vm_compute; reflexivity|].
  edestruct (jwt_principal_verified jwt cfg jwt_cfg hist (secs 7210) (secs 7211) (secs 7212) fetched "k1")
    as (kid & ks & key & t & raw & H1 & H2 & H3 & H4 & H5 & H6 & H7 & H8 & H9);
    [reflexivity|vm_compute; reflexivity|].
  injection H1 as <-. cbn in H6. destruct (key =?s "k1") eqn:E; [|discriminate H6]. injection H6 as <-.
  eexists. split; [reflexivity|]. destruct (H8 _ eq_refl) as (_ & Hs & Hg & Ht). by split_and!.
Defined.

Definition demo_env (k : string) : option string :=
  if k =?s "X_AUTH_MODE" then Some "static_token"
  else if k =?s "X_STATIC_TOKEN" then Some "s3cret" else None.

Lemma static_token_demo_only_witness :
  exists cfg, from_env demo_env (fun _ => None) "X" "demo" = Ok cfg /\
    ac_kind cfg = StaticToken "s3cret" "operator" /\
    exists p, (authenticate jwt cfg 0 0 0 fetched "s3cret" jwks_new).1 = Ok p.
Proof.
  eexists. split; [vm_compute; reflexivity|]. split; [reflexivity|].
  eapply (static_token_demo_only demo_env (fun _ => None) jwt "X" "demo" _ "s3cret" "operator");
    [vm_compute; reflexivity|reflexivity|reflexivity].
Defined.

End AuthDemo.
