(* ===== verification/Sidecar.v ===== *)
(** * The sidecar: errors, state and effects

    [services/sidecar/src]: [domain/error.rs], the records of
    [domain/state.rs], and the effects the decision handlers perform on the
    shared state ([SidecarStateInner]), the clock, the random identifiers, the
    signer, the run cost projector and the ledger. Every lock acquisition is one
    effect. [handle] is the meaning of the effects on the state; what a remote
    service answers is left open. *)

From S2P Require Import Prelude Deps Effects Proto Contract.

(** ** Errors *)

Inductive DomainError :=
  | TrustBootstrap (d : string)
  | ManifestSignatureInvalid (d : string)
  | ManifestStale (d : string)
  | BundleSignatureInvalid (d : string)
  | FencingAcquire (d : string)
  | FencingEpochStale (d : string)
  | ReservationStateConflict (d : string)
  | ReservationTtlExpired (d : string)
  | PricingFreezeMismatch (d : string)
  | OverrunReservation (d : string)
  | MultiReservationCommitDeferred (d : string)
  | ReservationNotFound (d : string)
  | IdempotencyConflict (d : string)
  | LedgerClient (d : string)
  | CanonicalIngestClient (d : string)
  | DecisionStage (d : string)
  | AuditInvariantViolated (d : string)
  | Draining
  | InvalidRequest (d : string)
  | Internal (d : string).

(** [#[error("...")]], the [Display] of thiserror. *)
Definition error_to_string (e : DomainError) : string :=
  match e with
  | TrustBootstrap d => "trust bootstrap failed: " +:+ d
  | ManifestSignatureInvalid d => "manifest signature invalid: " +:+ d
  | ManifestStale d => "manifest critical_max_stale exceeded: " +:+ d
  | BundleSignatureInvalid d => "bundle signature invalid: " +:+ d
  | FencingAcquire d => "fencing acquire failed: " +:+ d
  | FencingEpochStale d => "fencing epoch stale: " +:+ d
  | ReservationStateConflict d => "reservation state conflict: " +:+ d
  | ReservationTtlExpired d => "reservation TTL expired: " +:+ d
  | PricingFreezeMismatch d => "pricing freeze mismatch: " +:+ d
  | OverrunReservation d => "overrun reservation: " +:+ d
  | MultiReservationCommitDeferred d => "multi-reservation commit deferred: " +:+ d
  | ReservationNotFound d => "reservation not found: " +:+ d
  | IdempotencyConflict d => "idempotency conflict: " +:+ d
  | LedgerClient d => "ledger client: " +:+ d
  | CanonicalIngestClient d => "canonical ingest client: " +:+ d
  | DecisionStage d => "decision transaction stage failed: " +:+ d
  | AuditInvariantViolated d => "audit invariant violated: " +:+ d
  | Draining => "draining; refusing new decisions"
  | InvalidRequest d => "invalid request: " +:+ d
  | Internal d => "internal: " +:+ d
  end.

Definition to_proto_code (e : DomainError) : Code * string :=
  match e with
  | FencingEpochStale d => (FENCING_EPOCH_STALE, d)
  | ReservationStateConflict d => (RESERVATION_STATE_CONFLICT, d)
  | ReservationTtlExpired d => (RESERVATION_TTL_EXPIRED, d)
  | PricingFreezeMismatch d => (PRICING_FREEZE_MISMATCH, d)
  | OverrunReservation d => (OVERRUN_RESERVATION, d)
  | MultiReservationCommitDeferred d => (MULTI_RESERVATION_COMMIT_DEFERRED, d)
  | ReservationNotFound d => (CODE_UNSPECIFIED, d)
  | IdempotencyConflict d => (IDEMPOTENCY_CONFLICT, d)
  | InvalidRequest d => (CODE_UNSPECIFIED, d)
  | TrustBootstrap d | ManifestSignatureInvalid d | BundleSignatureInvalid d => (SIGNATURE_INVALID, d)
  | ManifestStale d => (CODE_UNSPECIFIED, d)
  | FencingAcquire d => (FENCING_EPOCH_STALE, d)
  | LedgerClient d | CanonicalIngestClient d => (CODE_UNSPECIFIED, d)
  | DecisionStage d | AuditInvariantViolated d => (AUDIT_INVARIANT_VIOLATED, d)
  | Draining => (CODE_UNSPECIFIED, "draining")
  | Internal d => (CODE_UNSPECIFIED, d)
  end.

Definition to_proto (e : DomainError) : ProtoError :=
  let '(code, summary) := to_proto_code e in
  {| pe_code := code_number code; pe_message := error_to_string e; pe_summary := summary |}.

(** The [tonic::Code]s the sidecar answers with. *)
Inductive StatusCode :=
  | Unauthenticated | FailedPrecondition | NotFound | Unavailable | InvalidArgument | PermissionDenied
  | InternalError | Unimplemented.

Definition Status : Type := StatusCode * string.

Definition status_code (e : DomainError) : StatusCode :=
  match e with
  | TrustBootstrap _ | ManifestSignatureInvalid _ | BundleSignatureInvalid _ => Unauthenticated
  | ManifestStale _ => FailedPrecondition
  | FencingAcquire _ | FencingEpochStale _ => FailedPrecondition
  | ReservationStateConflict _ | ReservationTtlExpired _ | PricingFreezeMismatch _
  | OverrunReservation _ | MultiReservationCommitDeferred _ => FailedPrecondition
  | ReservationNotFound _ => NotFound
  | IdempotencyConflict _ => FailedPrecondition
  | LedgerClient _ | CanonicalIngestClient _ => Unavailable
  | Draining => Unavailable
  | InvalidRequest _ => InvalidArgument
  | DecisionStage _ | AuditInvariantViolated _ | Internal _ => InternalError
  end.

Definition to_status (e : DomainError) : Status := (status_code e, error_to_string e).

(** [map_proto_error_to_domain]. *)
Definition map_proto_error_to_domain (code : Z) (message : string) : DomainError :=
  match default CODE_UNSPECIFIED (code_try_from code) with
  | FENCING_EPOCH_STALE => FencingEpochStale message
  | RESERVATION_STATE_CONFLICT => ReservationStateConflict message
  | RESERVATION_TTL_EXPIRED => ReservationTtlExpired message
  | PRICING_FREEZE_MISMATCH => PricingFreezeMismatch message
  | OVERRUN_RESERVATION => OverrunReservation message
  | MULTI_RESERVATION_COMMIT_DEFERRED => MultiReservationCommitDeferred message
  | IDEMPOTENCY_CONFLICT => IdempotencyConflict message
  | _ => DecisionStage ("ledger error code=" +:+ z_str code +:+ " msg=" +:+ message)
  end.

(** The number of [decision_response::Decision]. *)
Definition decision_number (d : decision) : Z :=
  match d with
  | Unspecified => 0 | Continue => 1 | Degrade => 2 | Skip => 3 | Stop => 4 | RequireApproval => 5
  | StopRunProjection => 6
  end.

Inductive SignError :=
  | ModeUnavailable (msg : string)
  | OtherSignError (msg : string).

Section Sidecar.
Context `{UuidLib, BigIntLib}.

(** ** State *)

Record ReservationCtx := {
  rx_tenant_id : string;
  rx_budget_id : uuid;
  rx_window_instance_id : uuid;
  rx_unit_id : uuid;
  original_reserved_amount_atomic : string;
  rx_pricing_version : string;
  rx_price_snapshot_hash : string;
  rx_fx_rate_version : string;
  rx_unit_conversion_version : string;
  rx_fencing_scope_id : uuid;
  fencing_epoch_at_post : Z;
  rx_decision_id : uuid;
  rx_ttl_expires_at : Z;
  current_state : string;
}.

Record CachedReleaseSignature := {
  cached_signature : string;
  signature_expires_at : Z;
}.

Record CachedContractBundle := {
  cb_bundle_id : uuid;
  cb_bundle_hash : string;
  cb_signing_key_id : string;
  cb_pricing_version : string;
  cb_price_snapshot_hash : string;
  cb_fx_rate_version : string;
  cb_unit_conversion_version : string;
  cb_parsed : Contract;
}.

Record CachedSchemaBundle := {
  sb_bundle_id : uuid;
  sb_bundle_hash : string;
  sb_canonical_schema_version : string;
}.

Record ActiveFencing := {
  af_scope_id : uuid;
  af_epoch : Z;
  af_acquired_at : Z;
  af_renewed_at : Z;
  af_ttl_expires_at : Z;
}.

(** [SidecarStateInner]: what the handlers share and change. *)
Record SidecarState := {
  last_manifest_verified_at : option Z;
  contract_bundle : option CachedContractBundle;
  schema_bundle : option CachedSchemaBundle;
  fencing : option ActiveFencing;
  draining : bool;
  producer_sequence : Z;
  reservation_cache : gmap uuid ReservationCtx;
  decision_id_to_reservation : gmap uuid uuid;
  release_signature_cache : gmap string CachedReleaseSignature;
}.

(** What is fixed at start-up: from [Config] and [SidecarStateInner]. *)
Record SidecarConfig := {
  allow_untrusted_subscription_meter : bool;
  critical_max_stale_seconds : Z;
  reservation_ttl_seconds : Z;
  allow_untrusted_budget_metadata : bool;
  run_cost_projector_configured : bool;
  signer_key_id : string;
  cfg_tenant_id : string;
  cfg_workload_instance_id : string;
  cfg_region : string;
}.

Record DecisionContext := {
  dc_session_id : string;
  dc_workload_instance_id : string;
  dc_tenant_id : string;
  dc_region : string;
}.

(** ** Effects *)

Inductive sidecarE : Type -> Type :=
  | IsDraining : sidecarE bool
  | ReadManifestVerifiedAt : sidecarE (option Z)
  | ReadContractBundle : sidecarE (option CachedContractBundle)
  | ReadSchemaBundle : sidecarE (option CachedSchemaBundle)
  | ReadFencing : sidecarE (option ActiveFencing)
  | NextProducerSequence : sidecarE Z
  | ReservationGet (id : uuid) : sidecarE (option ReservationCtx)
  | ReservationInsert (l : list (uuid * ReservationCtx)) : sidecarE unit
  | ReservationRemove (id : uuid) : sidecarE unit
  | IndexGet (decision_id : uuid) : sidecarE (option uuid)
  | IndexInsert (decision_id reservation_id : uuid) : sidecarE unit
  | IndexRemove (decision_id : uuid) : sidecarE unit
  | SignatureStore (key signature : string) (now ttl_seconds : Z) : sidecarE unit
  | SignatureLookup (key : string) (now : Z) : sidecarE (option string)
  (* the clock, in nanoseconds, and [Uuid::now_v7] *)
  | Now : sidecarE Z
  | NewUuid : sidecarE uuid
  | Sign (event : CloudEvent) : sidecarE (result SignError string)
  | Project (req : ProjectRequest) : sidecarE (result DomainError ProjectResponse)
  | QueryDecisionOutcome (req : QueryDecisionOutcomeRequest)
      : sidecarE (result DomainError QueryDecisionOutcomeResponse)
  | QueryBudgetState (req : QueryBudgetStateRequest)
      : sidecarE (result DomainError QueryBudgetStateResponse)
  | ReserveSet (req : ReserveSetRequest)
      : sidecarE (result DomainError (option (Outcome ReserveSetSuccess)))
  | RecordDeniedDecision (req : RecordDeniedDecisionRequest)
      : sidecarE (result DomainError (option (Outcome RecordDeniedDecisionSuccess)))
  | CommitEstimated (req : CommitEstimatedRequest)
      : sidecarE (result DomainError (option (Outcome CommitSuccess)))
  | Release (req : ReleaseRequest)
      : sidecarE (result DomainError (option (Outcome ReleaseSuccess)))
  | QueryReservationContext (req : QueryReservationContextRequest)
      : sidecarE (result DomainError (option (ReservationContext + ProtoError))).

Definition handler (A : Type) : Type := M sidecarE DomainError A.

(** *** Their meaning on the state *)

Definition with_reservations (m : gmap uuid ReservationCtx) (s : SidecarState) : SidecarState :=
  {| last_manifest_verified_at := last_manifest_verified_at s; contract_bundle := contract_bundle s;
     schema_bundle := schema_bundle s; fencing := fencing s; draining := draining s;
     producer_sequence := producer_sequence s; reservation_cache := m;
     decision_id_to_reservation := decision_id_to_reservation s;
     release_signature_cache := release_signature_cache s |}.

Definition with_index (m : gmap uuid uuid) (s : SidecarState) : SidecarState :=
  {| last_manifest_verified_at := last_manifest_verified_at s; contract_bundle := contract_bundle s;
     schema_bundle := schema_bundle s; fencing := fencing s; draining := draining s;
     producer_sequence := producer_sequence s; reservation_cache := reservation_cache s;
     decision_id_to_reservation := m; release_signature_cache := release_signature_cache s |}.

Definition with_signatures (m : gmap string CachedReleaseSignature) (s : SidecarState) : SidecarState :=
  {| last_manifest_verified_at := last_manifest_verified_at s; contract_bundle := contract_bundle s;
     schema_bundle := schema_bundle s; fencing := fencing s; draining := draining s;
     producer_sequence := producer_sequence s; reservation_cache := reservation_cache s;
     decision_id_to_reservation := decision_id_to_reservation s; release_signature_cache := m |}.

(** [fetch_add(1)] on an [AtomicU64]. *)
Definition next_producer_sequence (s : SidecarState) : Z * SidecarState :=
  (producer_sequence s,
   {| last_manifest_verified_at := last_manifest_verified_at s; contract_bundle := contract_bundle s;
      schema_bundle := schema_bundle s; fencing := fencing s; draining := draining s;
      producer_sequence := u64_wrap (producer_sequence s + 1); reservation_cache := reservation_cache s;
      decision_id_to_reservation := decision_id_to_reservation s;
      release_signature_cache := release_signature_cache s |}).

Definition store_release_signature (cache : gmap string CachedReleaseSignature) (key signature : string)
    (now ttl_seconds : Z) : gmap string CachedReleaseSignature :=
  if is_empty signature then cache
  else <[key := {| cached_signature := signature;
                   signature_expires_at := now + secs (Z.max ttl_seconds 1) |}]>
         (filter (fun kv => now < signature_expires_at kv.2) cache).

Definition lookup_release_signature (cache : gmap string CachedReleaseSignature) (key : string) (now : Z)
    : option string * gmap string CachedReleaseSignature :=
  match cache !! key with
  | Some cached =>
      if now <? signature_expires_at cached then (Some (cached_signature cached), cache)
      else (None, delete key cache)
  | None => (None, cache)
  end.

(** [handle e s x s']: [e] in the state [s] may answer [x] and leaves [s']. *)
Definition handle (X : Type) (e : sidecarE X) (s : SidecarState) : X -> SidecarState -> Prop :=
  match e in sidecarE X return X -> SidecarState -> Prop with
  | IsDraining => fun x s' => x = draining s /\ s' = s
  | ReadManifestVerifiedAt => fun x s' => x = last_manifest_verified_at s /\ s' = s
  | ReadContractBundle => fun x s' => x = contract_bundle s /\ s' = s
  | ReadSchemaBundle => fun x s' => x = schema_bundle s /\ s' = s
  | ReadFencing => fun x s' => x = fencing s /\ s' = s
  | NextProducerSequence => fun x s' => (x, s') = next_producer_sequence s
  | ReservationGet id => fun x s' => x = reservation_cache s !! id /\ s' = s
  | ReservationInsert l => fun _ s' =>
      s' = with_reservations (fold_left (fun m kv => <[kv.1 := kv.2]> m) l (reservation_cache s)) s
  | ReservationRemove id => fun _ s' => s' = with_reservations (delete id (reservation_cache s)) s
  | IndexGet d => fun x s' => x = decision_id_to_reservation s !! d /\ s' = s
  | IndexInsert d r => fun _ s' => s' = with_index (<[d := r]> (decision_id_to_reservation s)) s
  | IndexRemove d => fun _ s' => s' = with_index (delete d (decision_id_to_reservation s)) s
  | SignatureStore key sig now ttl => fun _ s' =>
      s' = with_signatures (store_release_signature (release_signature_cache s) key sig now ttl) s
  | SignatureLookup key now => fun x s' =>
      exists m, (x, m) = lookup_release_signature (release_signature_cache s) key now /\
                s' = with_signatures m s
  | Now | NewUuid | Sign _ | Project _ | QueryDecisionOutcome _ | QueryBudgetState _ | ReserveSet _
  | RecordDeniedDecision _ | CommitEstimated _ | Release _ | QueryReservationContext _ =>
      fun _ s' => s' = s
  end.

(** The same as a function, for an oracle that answers for the outside world. *)
Definition perform (outside : forall X, sidecarE X -> SidecarState -> X) (X : Type) (e : sidecarE X)
    (s : SidecarState) : X * SidecarState :=
  match e in sidecarE X return X -> X * SidecarState with
  | IsDraining => fun _ => (draining s, s)
  | ReadManifestVerifiedAt => fun _ => (last_manifest_verified_at s, s)
  | ReadContractBundle => fun _ => (contract_bundle s, s)
  | ReadSchemaBundle => fun _ => (schema_bundle s, s)
  | ReadFencing => fun _ => (fencing s, s)
  | NextProducerSequence => fun _ => next_producer_sequence s
  | ReservationGet id => fun _ => (reservation_cache s !! id, s)
  | ReservationInsert l => fun _ =>
      (tt, with_reservations (fold_left (fun m kv => <[kv.1 := kv.2]> m) l (reservation_cache s)) s)
  | ReservationRemove id => fun _ => (tt, with_reservations (delete id (reservation_cache s)) s)
  | IndexGet d => fun _ => (decision_id_to_reservation s !! d, s)
  | IndexInsert d r => fun _ => (tt, with_index (<[d := r]> (decision_id_to_reservation s)) s)
  | IndexRemove d => fun _ => (tt, with_index (delete d (decision_id_to_reservation s)) s)
  | SignatureStore key sig now ttl => fun _ =>
      (tt, with_signatures (store_release_signature (release_signature_cache s) key sig now ttl) s)
  | SignatureLookup key now => fun _ =>
      let r := lookup_release_signature (release_signature_cache s) key now in
      (r.1, with_signatures r.2 s)
  | _ => fun x => (x, s)
  end (outside X e s).

Lemma perform_handle outside X (e : sidecarE X) s :
  handle X e s (perform outside X e s).1 (perform outside X e s).2.
Proof.
  destruct e; cbn; try done. eexists. split; [by rewrite <- surjective_pairing|done].
Qed.

(** What the rest of the sidecar (lease renewal, bundle and manifest refresh,
    drain) may do between two effects: change everything but the caches and the
    sequence. *)
Definition other (s s' : SidecarState) : Prop :=
  producer_sequence s' = producer_sequence s /\ reservation_cache s' = reservation_cache s /\
  decision_id_to_reservation s' = decision_id_to_reservation s /\
  release_signature_cache s' = release_signature_cache s.

(** *** The calls of a trace *)

Definition as_reserve (ev : event sidecarE)
    : option (ReserveSetRequest * result DomainError (option (Outcome ReserveSetSuccess))) :=
  match ev with
  | Ev e x => match e in sidecarE X return X -> _ with
              | ReserveSet req => fun x => Some (req, x)
              | _ => fun _ => None
              end x
  end.

Definition as_denied (ev : event sidecarE)
    : option (RecordDeniedDecisionRequest *
              result DomainError (option (Outcome RecordDeniedDecisionSuccess))) :=
  match ev with
  | Ev e x => match e in sidecarE X return X -> _ with
              | RecordDeniedDecision req => fun x => Some (req, x)
              | _ => fun _ => None
              end x
  end.

Definition as_query (ev : event sidecarE)
    : option (QueryDecisionOutcomeRequest * result DomainError QueryDecisionOutcomeResponse) :=
  match ev with
  | Ev e x => match e in sidecarE X return X -> _ with
              | QueryDecisionOutcome req => fun x => Some (req, x)
              | _ => fun _ => None
              end x
  end.

Definition as_project (ev : event sidecarE) : option (ProjectRequest * result DomainError ProjectResponse) :=
  match ev with
  | Ev e x => match e in sidecarE X return X -> _ with
              | Project req => fun x => Some (req, x)
              | _ => fun _ => None
              end x
  end.

Definition as_commit (ev : event sidecarE)
    : option (CommitEstimatedRequest * result DomainError (option (Outcome CommitSuccess))) :=
  match ev with
  | Ev e x => match e in sidecarE X return X -> _ with
              | CommitEstimated req => fun x => Some (req, x)
              | _ => fun _ => None
              end x
  end.

Definition as_release (ev : event sidecarE)
    : option (ReleaseRequest * result DomainError (option (Outcome ReleaseSuccess))) :=
  match ev with
  | Ev e x => match e in sidecarE X return X -> _ with
              | Release req => fun x => Some (req, x)
              | _ => fun _ => None
              end x
  end.

Definition as_sequence (ev : event sidecarE) : option Z :=
  match ev with
  | Ev e x => match e in sidecarE X return X -> _ with
              | NextProducerSequence => fun x => Some x
              | _ => fun _ => None
              end x
  end.

Definition as_store (ev : event sidecarE) : option (string * string) :=
  match ev with
  | Ev e x => match e in sidecarE X return X -> _ with
              | SignatureStore key sig _ _ => fun _ => Some (key, sig)
              | _ => fun _ => None
              end x
  end.

(** The lookups of a replayed signature. *)
Definition as_lookup (ev : event sidecarE) : option (string * Z * option string) :=
  match ev with
  | Ev e x => match e in sidecarE X return X -> _ with
              | SignatureLookup key now => fun x => Some (key, now, x)
              | _ => fun _ => None
              end x
  end.

(** The producer sequence of an audit event sent to the ledger. *)
Definition as_written (ev : event sidecarE) : option Z :=
  match ev with
  | Ev e _ => match e with
              | ReserveSet rq => Some (rr_producer_sequence rq)
              | RecordDeniedDecision rq => Some (rd_producer_sequence rq)
              | CommitEstimated rq => Some (cr_producer_sequence rq)
              | Release rq => Some (rl_producer_sequence rq)
              | _ => None
              end
  end.

Definition reserves (t : list (event sidecarE)) := omap as_reserve t.
Definition denials (t : list (event sidecarE)) := omap as_denied t.
Definition queries (t : list (event sidecarE)) := omap as_query t.
Definition projections (t : list (event sidecarE)) := omap as_project t.
Definition commits (t : list (event sidecarE)) := omap as_commit t.
Definition releases (t : list (event sidecarE)) := omap as_release t.
Definition sequences (t : list (event sidecarE)) := omap as_sequence t.
Definition stores (t : list (event sidecarE)) := omap as_store t.

End Sidecar.
