(* ===== verification/Decision.v ===== *)
(** * The decision transaction

    [services/sidecar/src/decision/transaction.rs], the stages of a decision up
    to the reservation: replay of an earlier decision by idempotency key,
    evaluation of the contract, projection of the run's cost, reservation in the
    ledger or record of the denial. Handlers are programs over the effects of
    [Sidecar]. Payloads of audit events stay JSON trees; their encoding to bytes
    is [serde_json]'s. Log lines are not modelled. *)

From S2P Require Import Prelude Floats Deps Effects Proto Contract SubMeter Sidecar.

Section Decision.
Context `{UuidLib, BigIntLib, CryptoLib, !UuidBytes, ProstLib, ChronoLib, Calendar}.

Implicit Types (ctx : DecisionContext) (req : DecisionRequest).

Definition act_ {A} (e : sidecarE A) : handler A := act e.
Definition call_ {A} (e : sidecarE (result DomainError A)) : handler A := call e.
Definition lift_ {A} (r : result DomainError A) : handler A := lift r.

(** ** Pure parts *)

Definition byte_str (z : Z) : string := String (ascii_of_nat (Z.to_nat (z mod 256))) EmptyString.

(** [to_be_bytes] of a [u64]. *)
Fixpoint be_bytes (n : nat) (z : Z) : string :=
  match n with
  | O => EmptyString
  | S n => be_bytes n (z / 256) +:+ byte_str z
  end.

Record AuditEnrichment := {
  run_id : string;
  agent_id : string;
  enr_model_family : string;
  prompt_hash : string;
  spendguard_context : json;
}.

Definition SPENDGUARD_ENRICHMENT_ALLOWLIST : list string :=
  ["integration"; "litellm_call_id"; "model"; "pricing_version"; "price_snapshot_hash_hex";
   "fx_rate_version"; "unit_conversion_version"; "prompt_hash"; "call_type"; "stream"; "mode"; "team_id"].

(** The JSON scalar of an allowlisted field; other kinds are dropped. *)
Definition enrichment_scalar (v : Value) : option json :=
  match v with
  | Some (StringValue s) => Some (JStr s)
  | Some (BoolValue b) => Some (JBool b)
  | Some (NumberValue n) => if f_is_finite n then Some (JFloat n) else None
  | Some NullValue => Some JNull
  | Some (StructValue _) | Some (ListValue _) | None => None
  end.

Definition extract_enrichment req : AuditEnrichment :=
  let ids := dr_ids req in
  let inputs := dr_inputs req in
  let metadata := inputs ≫= in_runtime_metadata in
  {| run_id := default EmptyString
       (i ← ids; if bool_decide (is_Some (uuid_parse (ids_run_id i))) then Some (ids_run_id i) else None);
     agent_id := default EmptyString
       (i ← ids; if is_empty (trim (ids_step_id i)) then None else Some (ids_step_id i));
     enr_model_family := default EmptyString
       (i ← inputs; u ← in_projected_unit i; Some (model_family u));
     prompt_hash := default EmptyString
       (m ← metadata; v ← field "prompt_hash" m;
        match v with Some (StringValue s) => Some s | _ => None end);
     spendguard_context :=
       match metadata with
       | None => JNull
       | Some m =>
           match omap (fun key => v ← field key m; j ← enrichment_scalar v; Some (key, j))
                   SPENDGUARD_ENRICHMENT_ALLOWLIST with
           | [] => JNull
           | obj => JObj obj
           end
       end |}.

Definition projector_decision_id_from_idempotency_key (key : string) : string :=
  hex_encode (sha256 ("spendguard:run-cost-projector:decision:v1:" +:+ key)).

Definition nonnegative_i64_from_decimal_str (raw : string) : option Z :=
  (fun v => Z.max v 0) <$> parse_i64 (trim raw).

Definition f_fract_is_zero (x : spec_float) : bool := SFeqb x (f64_of_Z (f_trunc x)).

Definition nonnegative_i64_from_struct_value (v : Value) : option Z :=
  match v with
  | Some (StringValue raw) => v ← parse_i64 (trim raw); if 0 <=? v then Some v else None
  | Some (NumberValue raw) =>
      if f_is_finite raw && f_fract_is_zero raw && f_ge raw (f64_of_Z 0)
         && SFleb raw (f64_of_Z i64_max)
      then Some (f_to_i64 raw) else None
  | _ => None
  end.

(** [["budget_remaining_atomic", "run_budget_remaining_atomic"].iter().find_map(..)]. *)
Definition projector_budget_remaining_from_runtime_metadata req : option Z :=
  i ← dr_inputs req;
  m ← in_runtime_metadata i;
  match field "budget_remaining_atomic" m ≫= nonnegative_i64_from_struct_value with
  | Some v => Some v
  | None => field "run_budget_remaining_atomic" m ≫= nonnegative_i64_from_struct_value
  end.

Definition idempotency_request_fingerprint_hex ctx req : string :=
  let encoded := encode_request req in
  hex_encode (sha256
    ("spendguard.sidecar.decision_idempotency_request.v1:"
     +:+ be_bytes 8 (slen (dc_tenant_id ctx)) +:+ dc_tenant_id ctx
     +:+ be_bytes 8 (slen (dc_region ctx)) +:+ dc_region ctx
     +:+ be_bytes 8 (slen encoded) +:+ encoded)).

Definition compute_snapshot_hash req (tenant_id : string) : string :=
  sha256 ("snapshot:v1:" +:+ tenant_id +:+ dr_session_id req +:+ dr_route req
    +:+ match dr_ids req with
        | Some ids => ids_run_id ids +:+ ids_step_id ids +:+ ids_llm_call_id ids
                      +:+ ids_tool_call_id ids +:+ ids_decision_id ids
        | None => EmptyString
        end
    +:+ byte_str (dr_trigger req)).

Definition compute_effect_hash (snapshot_hash : string) (d : decision) : string :=
  sha256 ("effect:v1:" +:+ snapshot_hash +:+ byte_str (decision_number d)).

Definition build_budget_claims req : result DomainError (list BudgetClaim) :=
  inputs ← ok_or (dr_inputs req) (InvalidRequest "DecisionRequest.inputs required");
  match in_projected_claims inputs with
  | [] => Err (InvalidRequest "DecisionRequest.inputs.projected_claims must be non-empty")
  | claims => Ok claims
  end.

Definition extract_claim_estimate req : option ClaimEstimate := dr_inputs req ≫= in_claim_estimate.

Definition is_ledger_budget_exhausted (error_code : Z) : bool :=
  error_code =? code_number BUDGET_EXHAUSTED.

Definition denied_decision_label (d : decision) : option string :=
  match d with
  | Stop | StopRunProjection => Some "STOP"
  | RequireApproval => Some "REQUIRE_APPROVAL"
  | Degrade => Some "DEGRADE"
  | Skip => Some "SKIP"
  | Continue | Unspecified => None
  end.

(** What the evaluator reads of a claim. *)
Definition claim_of (c : BudgetClaim) : Claim :=
  {| cl_budget_id := bc_budget_id c; cl_amount_atomic := bc_amount_atomic c |}.

(** Version 4, variant 10. *)
Definition derive_reservation_set_id (decision_id : uuid) : uuid :=
  let buf := String.substring 0 16 (sha256 (uuid_bytes decision_id +:+ ":reservation_set")) in
  let buf := set_byte 6 (fun b => Z.lor (Z.land b 15) 64) buf in
  let buf := set_byte 8 (fun b => Z.lor (Z.land b 63) 128) buf in
  uuid_from_bytes buf.

(** ** Calls *)

(** [sign_cloudevent_in_place]. *)
Definition with_signing_key (kid sig : string) (ce : CloudEvent) : CloudEvent :=
  {| ce_specversion := ce_specversion ce; ce_type := ce_type ce; ce_source := ce_source ce;
     ce_id := ce_id ce; ce_time := ce_time ce; ce_datacontenttype := ce_datacontenttype ce;
     ce_data := ce_data ce; ce_tenant_id := ce_tenant_id ce; ce_run_id := ce_run_id ce;
     ce_decision_id := ce_decision_id ce; ce_schema_bundle_id := ce_schema_bundle_id ce;
     ce_producer_id := ce_producer_id ce; ce_producer_sequence := ce_producer_sequence ce;
     ce_producer_signature := sig; ce_signing_key_id := kid;
     ce_predicted_a_tokens := ce_predicted_a_tokens ce;
     ce_predicted_b_tokens := ce_predicted_b_tokens ce;
     ce_predicted_c_tokens := ce_predicted_c_tokens ce;
     ce_reserved_strategy := ce_reserved_strategy ce;
     ce_prediction_strategy_used := ce_prediction_strategy_used ce;
     ce_prediction_policy_used := ce_prediction_policy_used ce;
     ce_tokenizer_tier := ce_tokenizer_tier ce; ce_tokenizer_version_id := ce_tokenizer_version_id ce;
     ce_prediction_confidence := ce_prediction_confidence ce;
     ce_prediction_sample_size := ce_prediction_sample_size ce;
     ce_cold_start_layer_used := ce_cold_start_layer_used ce;
     ce_run_projection_at_decision_atomic := ce_run_projection_at_decision_atomic ce;
     ce_run_predicted_remaining_steps := ce_run_predicted_remaining_steps ce;
     ce_run_steps_completed_so_far := ce_run_steps_completed_so_far ce;
     ce_actual_input_tokens := ce_actual_input_tokens ce;
     ce_actual_output_tokens := ce_actual_output_tokens ce;
     ce_delta_b_ratio := ce_delta_b_ratio ce; ce_delta_c_ratio := ce_delta_c_ratio ce |}.

Definition sign_cloudevent_in_place (cfg : SidecarConfig) (ce : CloudEvent) : handler CloudEvent :=
  let ce := with_signing_key (signer_key_id cfg) EmptyString ce in
  sig ← act_ (Sign ce);
  match sig with
  | Ok bytes => mret (with_signing_key (signer_key_id cfg) bytes ce)
  | Err (ModeUnavailable msg) => lift_ (Err (Internal ("signing mode unavailable: " +:+ msg)))
  | Err (OtherSignError msg) => lift_ (Err (Internal ("signing failed: " +:+ msg)))
  end.

(** [enforce_freshness_gate]: the age is taken against the clock read after the lock. *)
Definition enforce_freshness_gate (cfg : SidecarConfig) : handler unit :=
  verified ← act_ ReadManifestVerifiedAt;
  match verified with
  | None => lift_ (Err (ManifestStale "no manifest verified yet"))
  | Some t =>
      now ← act_ Now;
      lift_ (ensure (num_seconds (now - t) <=? i64_wrap (critical_max_stale_seconds cfg))
               (ManifestStale "manifest age > critical_max_stale"))
  end.

Definition read_fencing : handler ActiveFencing :=
  f ← act_ ReadFencing;
  lift_ (ok_or f (FencingAcquire "no active fencing scope")).

(** [check_active_lock]. *)
Definition check_active : handler unit :=
  active ← read_fencing;
  now ← act_ Now;
  lift_ (ensure (now <=? af_ttl_expires_at active) (FencingEpochStale "fencing scope TTL expired")).

(** [authoritative_budget_remaining_atomic]: the least remaining budget over the
    debit claims; any failure gives none. *)
Fixpoint authoritative_budget_remaining_atomic ctx (claims : list BudgetClaim) (min_remaining : option Z)
    : handler (option Z) :=
  match claims with
  | [] => mret min_remaining
  | claim :: claims =>
      if bc_direction claim =? DIRECTION_CREDIT
      then authoritative_budget_remaining_atomic ctx claims min_remaining
      else
        match bc_unit claim with
        | None => mret None
        | Some u =>
            now ← act_ Now;
            response ← attempt (call_ (QueryBudgetState
              {| qb_tenant_id := dc_tenant_id ctx; qb_budget_id := bc_budget_id claim;
                 qb_window_instance_id := bc_window_instance_id claim;
                 qb_snapshot_at := Some (timestamp_of now); qb_unit_id := unit_id u |}));
            match response with
            | Err _ => mret None
            | Ok response =>
                match nonnegative_i64_from_decimal_str (qb_available_atomic response) with
                | None => mret None
                | Some remaining =>
                    authoritative_budget_remaining_atomic ctx claims
                      (Some (match min_remaining with
                             | Some current => Z.min current remaining
                             | None => remaining
                             end))
                end
            end
        end
  end.

Definition projector_budget_remaining_atomic (cfg : SidecarConfig) ctx req (claims : list BudgetClaim)
    : handler Z :=
  if allow_untrusted_budget_metadata cfg
  then mret (default i64_max (projector_budget_remaining_from_runtime_metadata req))
  else r ← authoritative_budget_remaining_atomic ctx claims None;
       mret (default i64_max r).

Definition claims_total (claims : list BudgetClaim) : Z :=
  fold_left (fun total c => total + default 0 (bigint_parse (bc_amount_atomic c))) claims 0.

(** [call_projector_safe]. *)
Definition call_projector_safe (cfg : SidecarConfig) ctx req (claims : list BudgetClaim)
    (enrichment : AuditEnrichment) (adapter_idempotency_key : string) : handler ProjectResponse :=
  if negb (run_cost_projector_configured cfg)
  then lift_ (Err (DecisionStage "projector client not configured"))
  else
    let total := claims_total claims in
    let this_call_atomic := if is_i64 total then total else i64_max in
    budget_remaining ← projector_budget_remaining_atomic cfg ctx req claims;
    call_ (Project
      {| pq_tenant_id := dc_tenant_id ctx; pq_run_id := run_id enrichment;
         pq_agent_id := agent_id enrichment; pq_model := enr_model_family enrichment;
         pq_step_id := default EmptyString (ids_step_id <$> dr_ids req);
         pq_decision_id := projector_decision_id_from_idempotency_key adapter_idempotency_key;
         pq_this_call_reservation_atomic := this_call_atomic;
         pq_unit_id := default EmptyString (c ← head claims; u ← bc_unit c; Some (unit_id u));
         pq_budget_remaining_atomic := budget_remaining;
         pq_planned_steps_hint := Z.max (dr_planned_steps_hint req) 0;
         pq_planned_tools_hint := 0 |}).

(** ** Replay of an earlier decision *)

Definition parse_replay_uuid (field raw : string) : result DomainError uuid :=
  ok_or (uuid_parse raw)
    (DecisionStage ("ledger idempotency replay returned malformed " +:+ field +:+ " '" +:+ raw +:+ "'")).

Definition replay_decision_kind (operation_kind final_decision run_code_triggered : string)
    (reason_codes : list string) : result DomainError decision :=
  if operation_kind =?s "reserve" then Ok Continue
  else if negb (operation_kind =?s "denied_decision")
  then Err (DecisionStage "ledger idempotency replay returned unsupported operation_kind")
  else
    let run_projection :=
      negb (is_empty run_code_triggered) || existsb (starts_with "RUN_") reason_codes in
    if final_decision =?s "STOP" then Ok (if run_projection then StopRunProjection else Stop)
    else if final_decision =?s "REQUIRE_APPROVAL" then Ok RequireApproval
    else if final_decision =?s "DEGRADE" then Ok Degrade
    else if final_decision =?s "SKIP" then Ok Skip
    else Err (DecisionStage "ledger idempotency replay returned unsupported final_decision").

(** What a recorded outcome replays to, for a request with this fingerprint. *)
Definition replay_output ctx req (request_fingerprint_hex : string)
    (response : QueryDecisionOutcomeResponse) : result DomainError DecisionOutput :=
  require negb (is_empty (qo_request_fingerprint_hex response))
    else (IdempotencyConflict "ledger idempotency replay has no request fingerprint");
  require qo_request_fingerprint_hex response =?s request_fingerprint_hex
    else (IdempotencyConflict "idempotency.key reused with different request fingerprint");
  decision_id ← parse_replay_uuid "decision_id" (qo_decision_id response);
  audit_decision_event_id ←
    parse_replay_uuid "audit_decision_event_id" (qo_audit_decision_event_id response);
  decision ← replay_decision_kind (qo_operation_kind response) (qo_final_decision response)
               (qo_run_code_triggered response) (qo_reason_codes response);
  let reserve := qo_operation_kind response =?s "reserve" in
  mret {| do_decision_id := decision_id;
          do_audit_decision_event_id := audit_decision_event_id;
          do_effect_hash := compute_effect_hash (compute_snapshot_hash req (dc_tenant_id ctx)) decision;
          do_decision := decision;
          do_reservation_set_id :=
            if reserve then
              if is_empty (qo_operation_id response)
              then uuid_str (derive_reservation_set_id decision_id)
              else qo_operation_id response
            else EmptyString;
          do_reservation_ids := if reserve then qo_projection_ids response else [];
          do_ledger_transaction_id := qo_ledger_transaction_id response;
          do_approval_request_id := EmptyString;
          do_ttl_expires_at := qo_ttl_expires_at response;
          do_matched_rule_ids := qo_matched_rule_ids response;
          do_reason_codes := qo_reason_codes response;
          do_run_code_triggered :=
            if is_empty (qo_run_code_triggered response)
            then default EmptyString (List.find (starts_with "RUN_") (qo_reason_codes response))
            else qo_run_code_triggered response;
          do_subscription_meter := None |}.

Definition stage_recorded (stage : Z) : bool :=
  (stage =? STAGE_AUDIT_DECISION_RECORDED) || (stage =? STAGE_AUDIT_OUTCOME_RECORDED).

Definition replay_existing_decision_by_idempotency ctx req
    (adapter_idempotency_key request_fingerprint_hex : string) : handler (option DecisionOutput) :=
  response ← call_ (QueryDecisionOutcome
    {| qd_tenant_id := dc_tenant_id ctx; qd_decision_id := EmptyString;
       qd_idempotency_key := adapter_idempotency_key |});
  if negb (stage_recorded (qo_stage response)) then mret None
  else out ← lift_ (replay_output ctx req request_fingerprint_hex response);
       mret (Some out).

(** ** Audit events *)

Definition f64_zero : spec_float := S754_zero false.

(** The time of an event: the seconds of one reading of the clock, the
    nanoseconds of a second one. *)
Definition event_time (now1 now2 : Z) : Timestamp :=
  {| seconds := seconds (timestamp_of now1); nanos := nanos (timestamp_of now2) |}.

(** The two readings may straddle a second: the time then precedes both. *)
Example event_time_torn :
  event_time 1999999999 2000000001 = timestamp_of 1000000001.
Proof. reflexivity. Qed.

(** The envelope the sidecar's audit events share; the other fields are left
    to their defaults. *)
Definition cloudevent_envelope ctx (type id run decision_id schema_bundle_id : string) (seq : Z)
    (time : Timestamp) (data : json) : CloudEvent :=
  {| ce_specversion := "1.0"; ce_type := type;
     ce_source := "sidecar://" +:+ dc_region ctx +:+ "/" +:+ dc_workload_instance_id ctx;
     ce_id := id; ce_time := Some time; ce_datacontenttype := "application/json"; ce_data := data;
     ce_tenant_id := dc_tenant_id ctx; ce_run_id := run; ce_decision_id := decision_id;
     ce_schema_bundle_id := schema_bundle_id;
     ce_producer_id := "sidecar:" +:+ dc_workload_instance_id ctx;
     ce_producer_sequence := seq; ce_producer_signature := EmptyString;
     ce_signing_key_id := EmptyString;
     ce_predicted_a_tokens := 0; ce_predicted_b_tokens := 0; ce_predicted_c_tokens := 0;
     ce_reserved_strategy := EmptyString; ce_prediction_strategy_used := EmptyString;
     ce_prediction_policy_used := EmptyString; ce_tokenizer_tier := EmptyString;
     ce_tokenizer_version_id := EmptyString; ce_prediction_confidence := f64_zero;
     ce_prediction_sample_size := 0; ce_cold_start_layer_used := EmptyString;
     ce_run_projection_at_decision_atomic := 0; ce_run_predicted_remaining_steps := 0;
     ce_run_steps_completed_so_far := 0; ce_actual_input_tokens := 0; ce_actual_output_tokens := 0;
     ce_delta_b_ratio := f64_zero; ce_delta_c_ratio := f64_zero |}.

(** The run projection an event carries: the projector's answer, else the
    adapter's estimate, else 0, -1 and 0. *)
Definition event_projection (est : option ClaimEstimate) (resp : option ProjectResponse) : Z * Z * Z :=
  match resp with
  | Some resp => (pr_run_projection_at_decision_atomic resp, pr_run_predicted_remaining_steps resp,
                  pr_run_steps_completed_so_far resp)
  | None =>
      match est with
      | Some est => (est_run_projection_at_decision_atomic est, est_run_predicted_remaining_steps est,
                     est_run_steps_completed_so_far est)
      | None => (0, -1, 0)
      end
  end.

(** The prediction fields of a decision event. *)
Definition with_prediction (policy : string) (est : option ClaimEstimate) (resp : option ProjectResponse)
    (ce : CloudEvent) : CloudEvent :=
  let from {A} (f : ClaimEstimate -> A) (d : A) : A :=
    match est with Some est => f est | None => d end in
  let '(projection, remaining, completed) := event_projection est resp in
  {| ce_specversion := ce_specversion ce; ce_type := ce_type ce; ce_source := ce_source ce;
     ce_id := ce_id ce; ce_time := ce_time ce; ce_datacontenttype := ce_datacontenttype ce;
     ce_data := ce_data ce; ce_tenant_id := ce_tenant_id ce; ce_run_id := ce_run_id ce;
     ce_decision_id := ce_decision_id ce; ce_schema_bundle_id := ce_schema_bundle_id ce;
     ce_producer_id := ce_producer_id ce; ce_producer_sequence := ce_producer_sequence ce;
     ce_producer_signature := ce_producer_signature ce; ce_signing_key_id := ce_signing_key_id ce;
     ce_predicted_a_tokens := from est_predicted_a_tokens (ce_predicted_a_tokens ce);
     ce_predicted_b_tokens := from est_predicted_b_tokens (ce_predicted_b_tokens ce);
     ce_predicted_c_tokens := from est_predicted_c_tokens (ce_predicted_c_tokens ce);
     ce_reserved_strategy := from est_reserved_strategy (ce_reserved_strategy ce);
     ce_prediction_strategy_used := from est_prediction_strategy_used (ce_prediction_strategy_used ce);
     ce_prediction_policy_used := policy;
     ce_tokenizer_tier := from est_tokenizer_tier (ce_tokenizer_tier ce);
     ce_tokenizer_version_id := from est_tokenizer_version_id (ce_tokenizer_version_id ce);
     ce_prediction_confidence := from est_prediction_confidence (ce_prediction_confidence ce);
     ce_prediction_sample_size := from est_prediction_sample_size (ce_prediction_sample_size ce);
     ce_cold_start_layer_used := from est_cold_start_layer_used (ce_cold_start_layer_used ce);
     ce_run_projection_at_decision_atomic := projection;
     ce_run_predicted_remaining_steps := remaining;
     ce_run_steps_completed_so_far := completed;
     ce_actual_input_tokens := ce_actual_input_tokens ce;
     ce_actual_output_tokens := ce_actual_output_tokens ce;
     ce_delta_b_ratio := ce_delta_b_ratio ce; ce_delta_c_ratio := ce_delta_c_ratio ce |}.

Definition insert_claim_estimate_payload_mirrors (obj : list (string * json)) (est : ClaimEstimate)
    : list (string * json) :=
  let put k v o := if is_empty v then o else obj_insert k (JStr v) o in
  put "prompt_class_fingerprint" (est_prompt_class_fingerprint est)
    (put "prompt_class" (est_prompt_class est) (put "model" (est_model est) obj)).

Definition jstrs (l : list string) : json := JArr (JStr <$> l).

(** The payload of a decision event, with the members [extra] of its lane. *)
Definition decision_payload ctx (snapshot_hash : string) (matched_rules reason_codes : list string)
    (enrichment : AuditEnrichment) (request_fingerprint_hex : string)
    (extra : list (string * json)) (est : option ClaimEstimate) : json :=
  let obj := [("snapshot_hash", JStr (hex_encode snapshot_hash)); ("matched_rules", jstrs matched_rules);
              ("reason_codes", jstrs reason_codes);
              ("idempotency_request_fingerprint", JStr request_fingerprint_hex)]
             ++ extra ++
             [("session_id", JStr (dc_session_id ctx)); ("agent_id", JStr (agent_id enrichment));
              ("model_family", JStr (enr_model_family enrichment));
              ("prompt_hash", JStr (prompt_hash enrichment))] in
  let obj := match spendguard_context enrichment with
             | JNull => obj
             | c => obj_insert "spendguard" c obj
             end in
  JObj (match est with
        | Some est => insert_claim_estimate_payload_mirrors obj est
        | None => obj
        end).

Definition build_audit_decision_cloudevent ctx (decision_id audit_decision_event_id : uuid) (seq : Z)
    (snapshot_hash : string) (matched_rules reason_codes : list string) (enrichment : AuditEnrichment)
    (prediction_policy schema_bundle_id request_fingerprint_hex : string)
    (projector_response : option ProjectResponse) (claim_estimate : option ClaimEstimate)
    (now1 now2 : Z) : CloudEvent :=
  with_prediction prediction_policy claim_estimate projector_response
    (cloudevent_envelope ctx "spendguard.audit.decision" (uuid_str audit_decision_event_id)
       (run_id enrichment) (uuid_str decision_id) schema_bundle_id seq (event_time now1 now2)
       (decision_payload ctx snapshot_hash matched_rules reason_codes enrichment
          request_fingerprint_hex [] claim_estimate)).

Definition attempted_claim (c : BudgetClaim) : json :=
  JObj [("budget_id", JStr (bc_budget_id c)); ("amount_atomic", JStr (bc_amount_atomic c));
        ("window_instance_id", JStr (bc_window_instance_id c));
        ("unit_id", JStr (default EmptyString (unit_id <$> bc_unit c)))].

Definition build_denied_cloudevent ctx (decision_id audit_decision_event_id : uuid) (seq : Z)
    (snapshot_hash final_decision : string) (matched_rules reason_codes : list string)
    (claims : list BudgetClaim) (enrichment : AuditEnrichment)
    (prediction_policy schema_bundle_id request_fingerprint_hex : string)
    (projector_response : option ProjectResponse) (claim_estimate : option ClaimEstimate)
    (now1 now2 : Z) : CloudEvent :=
  with_prediction prediction_policy claim_estimate projector_response
    (cloudevent_envelope ctx "spendguard.audit.decision" (uuid_str audit_decision_event_id)
       (run_id enrichment) (uuid_str decision_id) schema_bundle_id seq (event_time now1 now2)
       (decision_payload ctx snapshot_hash matched_rules reason_codes enrichment
          request_fingerprint_hex
          [("final_decision", JStr final_decision);
           ("attempted_claims", JArr (attempted_claim <$> claims))] claim_estimate)).

Definition contract_bundle_ref (bundle : CachedContractBundle) : ContractBundleRef :=
  {| cbr_bundle_id := uuid_str (cb_bundle_id bundle); cbr_bundle_hash := cb_bundle_hash bundle;
     cbr_bundle_signature := EmptyString; cbr_signing_key_id := cb_signing_key_id bundle |}.

Definition pricing_of (bundle : CachedContractBundle) : PricingFreeze :=
  {| pf_pricing_version := cb_pricing_version bundle;
     pf_price_snapshot_hash := cb_price_snapshot_hash bundle;
     pf_fx_rate_version := cb_fx_rate_version bundle;
     pf_unit_conversion_version := cb_unit_conversion_version bundle |}.

(** ** Denials *)

Definition unit_kind_str (kind : Z) : string :=
  if kind =? KIND_MONETARY then "MONETARY"
  else if kind =? KIND_TOKEN then "TOKEN"
  else if kind =? KIND_CREDIT then "CREDIT"
  else if kind =? KIND_NON_MONETARY then "NON_MONETARY"
  else "MONETARY".

(** The context an approver resumes from; [schema] is the schema bundle as the
    two reads of the lock gave it. *)
Definition approval_decision_context ctx (decision_id : uuid) (matched_rules reason_codes : list string)
    (claim : option BudgetClaim) (fc : Fencing) (bundle : CachedContractBundle)
    (schema1 schema2 : option CachedSchemaBundle) : json :=
  JObj [("tenant_id", JStr (dc_tenant_id ctx));
        ("budget_id", JStr (default EmptyString (bc_budget_id <$> claim)));
        ("window_instance_id", JStr (default EmptyString (bc_window_instance_id <$> claim)));
        ("fencing_scope_id", JStr (fc_scope_id fc)); ("fencing_epoch", JInt (fc_epoch fc));
        ("decision_id", JStr (uuid_str decision_id));
        ("matched_rule_ids", jstrs matched_rules); ("reason_codes", jstrs reason_codes);
        ("contract_bundle_id", JStr (uuid_str (cb_bundle_id bundle)));
        ("contract_bundle_hash_hex", JStr (hex_encode (cb_bundle_hash bundle)));
        ("schema_bundle_id", JStr (default EmptyString ((fun s => uuid_str (sb_bundle_id s)) <$> schema1)));
        ("schema_bundle_canonical_version",
          JStr (default EmptyString (sb_canonical_schema_version <$> schema2)));
        ("pricing_version", JStr (cb_pricing_version bundle));
        ("price_snapshot_hash_hex", JStr (hex_encode (cb_price_snapshot_hash bundle)));
        ("fx_rate_version", JStr (cb_fx_rate_version bundle));
        ("unit_conversion_version", JStr (cb_unit_conversion_version bundle))].

Definition requested_effect (claim : option BudgetClaim) : json :=
  let u := claim ≫= bc_unit in
  JObj [("unit_id", JStr (default EmptyString (unit_id <$> u)));
        ("unit_kind", JStr (default "MONETARY" ((fun u => unit_kind_str (unit_kind u)) <$> u)));
        ("unit_token_kind", JStr (default EmptyString (token_kind <$> u)));
        ("amount_atomic", JStr (default EmptyString (bc_amount_atomic <$> claim)));
        ("direction", JStr (match claim with
                            | Some c => if bc_direction c =? DIRECTION_CREDIT then "CREDIT" else "DEBIT"
                            | None => "DEBIT"
                            end))].

(** Everything the stages of one decision have computed before the ledger is
    written. *)
Record Stage := {
  st_decision_id : uuid;
  st_audit_decision_event_id : uuid;
  st_producer_sequence : Z;
  st_snapshot_hash : string;
  st_matched_rules : list string;
  st_claims : list BudgetClaim;
  st_fencing : Fencing;
  st_bundle : CachedContractBundle;
  st_schema_bundle_id : string;
  st_key : string;
  st_fingerprint : string;
  st_enrichment : AuditEnrichment;
  st_projection : option ProjectResponse;
  st_claim_estimate : option ClaimEstimate;
}.

Definition run_code_of (resp : option ProjectResponse) : string :=
  default EmptyString (pr_emitted_code <$> resp).

Definition denied_output (st : Stage) (decision_kind : decision) (reason_codes : list string)
    (effect_hash : string) (decision_id audit_id : uuid) (tx approval : string) : DecisionOutput :=
  {| do_decision_id := decision_id; do_audit_decision_event_id := audit_id;
     do_effect_hash := effect_hash; do_decision := decision_kind;
     do_reservation_set_id := EmptyString; do_reservation_ids := [];
     do_ledger_transaction_id := tx; do_approval_request_id := approval;
     do_ttl_expires_at := None; do_matched_rule_ids := st_matched_rules st;
     do_reason_codes := reason_codes; do_run_code_triggered := run_code_of (st_projection st);
     do_subscription_meter := None |}.

Definition approval_payload ctx (st : Stage) (decision_kind : decision) (reason_codes : list string)
    : handler (option json * option json * Z) :=
  if bool_decide (decision_kind = RequireApproval) then
    let claim := head (st_claims st) in
    schema1 ← act_ ReadSchemaBundle;
    schema2 ← act_ ReadSchemaBundle;
    mret (Some (approval_decision_context ctx (st_decision_id st) (st_matched_rules st) reason_codes
                  claim (st_fencing st) (st_bundle st) schema1 schema2),
          Some (requested_effect claim), 3600)
  else mret (None, None, 0).

Definition run_record_denied_decision (cfg : SidecarConfig) ctx (st : Stage) (decision_kind : decision)
    (reason_codes : list string) (effect_hash : string) : handler DecisionOutput :=
  final_decision_str ← lift_ (ok_or (denied_decision_label decision_kind)
    (DecisionStage "run_record_denied_decision called with unsupported decision"));
  now1 ← act_ Now;
  now2 ← act_ Now;
  cloudevent ← sign_cloudevent_in_place cfg
    (build_denied_cloudevent ctx (st_decision_id st) (st_audit_decision_event_id st)
       (st_producer_sequence st) (st_snapshot_hash st) final_decision_str (st_matched_rules st)
       reason_codes (st_claims st) (st_enrichment st)
       (policy_as_str (c_prediction_policy (cb_parsed (st_bundle st)))) (st_schema_bundle_id st)
       (st_fingerprint st) (st_projection st) (st_claim_estimate st) now1 now2);
  approval ← approval_payload ctx st decision_kind reason_codes;
  let '(context_json, effect_json, ttl) := approval in
  response ← call_ (RecordDeniedDecision
    {| rd_tenant_id := dc_tenant_id ctx; rd_decision_id := uuid_str (st_decision_id st);
       rd_audit_decision_event_id := uuid_str (st_audit_decision_event_id st);
       rd_producer_sequence := st_producer_sequence st;
       rd_idempotency := Some {| idem_key := st_key st; idem_request_hash := EmptyString |};
       rd_fencing := Some (st_fencing st); rd_attempted_claims := st_claims st;
       rd_matched_rule_ids := st_matched_rules st; rd_reason_codes := reason_codes;
       rd_final_decision := final_decision_str; rd_audit_event := Some cloudevent;
       rd_contract_bundle := Some (contract_bundle_ref (st_bundle st));
       rd_pricing := Some (pricing_of (st_bundle st));
       rd_decision_context_json := context_json; rd_requested_effect_json := effect_json;
       rd_approval_ttl_seconds := ttl |});
  match response with
  | Some (Success s) =>
      mret (denied_output st decision_kind reason_codes effect_hash (st_decision_id st)
              (st_audit_decision_event_id st) (rd_ok_ledger_transaction_id s) (rd_ok_approval_id s))
  | Some (Replayed r) =>
      original_decision_id ← lift_ (ok_or (uuid_parse (rp_decision_id r))
        (DecisionStage "ledger denied replay returned malformed decision_id"));
      original_audit_id ← lift_ (ok_or (uuid_parse (rp_audit_decision_event_id r))
        (DecisionStage "ledger denied replay returned malformed audit_decision_event_id"));
      mret (denied_output st decision_kind reason_codes effect_hash original_decision_id
              original_audit_id (rp_ledger_transaction_id r) EmptyString)
  | Some (Failure e) => lift_ (Err (DecisionStage ("RecordDeniedDecision error code="
                                   +:+ z_str (pe_code e) +:+ " msg=" +:+ pe_message e)))
  | None => lift_ (Err (DecisionStage "RecordDeniedDecision response empty oneof"))
  end.

(** ** The reservation *)

(** The context of one reservation, if its identifiers parse; [fallback] is the
    clock, read when the ledger gave no usable expiry. *)
Definition reservation_ctx_of ctx (fencing_state : ActiveFencing) (decision_id : uuid)
    (bundle : CachedContractBundle) (r : Reservation) (fallback : Z) : option (uuid * ReservationCtx) :=
  rid ← uuid_parse (rv_reservation_id r);
  budget_id ← uuid_parse (rv_budget_id r);
  window_instance_id ← uuid_parse (rv_window_instance_id r);
  u ← rv_unit r;
  unit_id ← uuid_parse (unit_id u);
  Some (rid,
    {| rx_tenant_id := dc_tenant_id ctx; rx_budget_id := budget_id;
       rx_window_instance_id := window_instance_id; rx_unit_id := unit_id;
       original_reserved_amount_atomic := rv_amount_atomic r;
       rx_pricing_version := cb_pricing_version bundle;
       rx_price_snapshot_hash := cb_price_snapshot_hash bundle;
       rx_fx_rate_version := cb_fx_rate_version bundle;
       rx_unit_conversion_version := cb_unit_conversion_version bundle;
       rx_fencing_scope_id := af_scope_id fencing_state;
       fencing_epoch_at_post := af_epoch fencing_state; rx_decision_id := decision_id;
       rx_ttl_expires_at :=
         default fallback (t ← rv_ttl_expires_at r; from_timestamp (seconds t) (u32_wrap (nanos t)));
       current_state := "reserved" |}).

(** [populate_reservation_cache]; the cache's lock is held for the whole loop,
    whose clock readings come first here. *)
Definition populate_reservation_cache ctx (reservations : list Reservation)
    (fencing_state : ActiveFencing) (decision_id : uuid) (bundle : CachedContractBundle) : handler unit :=
  match r ← head reservations; uuid_parse (rv_reservation_id r) with
  | Some rid => act_ (IndexInsert decision_id rid)
  | None => mret tt
  end ≫= fun _ =>
  now ← act_ Now;
  act_ (ReservationInsert
    (omap (fun r => reservation_ctx_of ctx fencing_state decision_id bundle r now) reservations)).

(** The contract's outcome combined with the projector's. *)
Definition combine_outcomes (contract : Contract) (eval_outcome : EvalOutcome)
    (resp : option ProjectResponse) : EvalOutcome :=
  match resp with
  | Some resp =>
      if is_empty (pr_emitted_code resp) then eval_outcome
      else match apply_projector_code contract (pr_emitted_code resp) with
           | Some projector_outcome => merge_outcomes eval_outcome projector_outcome
           | None => eval_outcome
           end
  | None => eval_outcome
  end.

Definition ok {E A} (r : result E A) : option A := match r with Ok a => Some a | Err _ => None end.

(** The end of [run_through_reserve] on CONTINUE: the audit event, the request
    and the ledger's answer. *)
Definition reserve (cfg : SidecarConfig) ctx (st : Stage) (fencing_state : ActiveFencing)
    (reason_codes : list string) (effect_hash : string) : handler DecisionOutput :=
  let out decision_id audit_id set_id ids tx ttl : DecisionOutput :=
    {| do_decision_id := decision_id; do_audit_decision_event_id := audit_id;
       do_effect_hash := effect_hash; do_decision := Continue; do_reservation_set_id := set_id;
       do_reservation_ids := ids; do_ledger_transaction_id := tx;
       do_approval_request_id := EmptyString; do_ttl_expires_at := ttl;
       do_matched_rule_ids := st_matched_rules st; do_reason_codes := reason_codes;
       do_run_code_triggered := run_code_of (st_projection st); do_subscription_meter := None |} in
  now1 ← act_ Now;
  now2 ← act_ Now;
  cloudevent ← sign_cloudevent_in_place cfg
    (build_audit_decision_cloudevent ctx (st_decision_id st) (st_audit_decision_event_id st)
       (st_producer_sequence st) (st_snapshot_hash st) (st_matched_rules st) reason_codes
       (st_enrichment st) (policy_as_str (c_prediction_policy (cb_parsed (st_bundle st))))
       (st_schema_bundle_id st) (st_fingerprint st) (st_projection st) (st_claim_estimate st)
       now1 now2);
  now3 ← act_ Now;
  response ← call_ (ReserveSet
    {| rr_tenant_id := dc_tenant_id ctx; rr_decision_id := uuid_str (st_decision_id st);
       rr_audit_decision_event_id := uuid_str (st_audit_decision_event_id st);
       rr_producer_sequence := st_producer_sequence st;
       rr_idempotency := Some {| idem_key := st_key st; idem_request_hash := EmptyString |};
       rr_fencing := Some (st_fencing st); rr_claims := st_claims st;
       rr_ttl_expires_at :=
         Some {| seconds := seconds (timestamp_of (now3 + secs (reservation_ttl_seconds cfg)));
                 nanos := 0 |};
       rr_audit_event := Some cloudevent; rr_pricing := Some (pricing_of (st_bundle st));
       rr_contract_bundle := Some (contract_bundle_ref (st_bundle st)); rr_lock_order_token := None |});
  match response with
  | Some (Success s) =>
      _ ← populate_reservation_cache ctx (rs_ok_reservations s) fencing_state (st_decision_id st)
            (st_bundle st);
      mret (out (st_decision_id st) (st_audit_decision_event_id st) (rs_ok_reservation_set_id s)
              (rv_reservation_id <$> rs_ok_reservations s) (rs_ok_ledger_transaction_id s)
              (head (rs_ok_reservations s) ≫= rv_ttl_expires_at))
  | Some (Replayed r) =>
      original_audit_id ← lift_ (ok_or (uuid_parse (rp_audit_decision_event_id r))
        (DecisionStage "ledger replay returned malformed audit_decision_event_id"));
      original_decision_id ← lift_ (ok_or (uuid_parse (rp_decision_id r))
        (DecisionStage "ledger replay returned malformed decision_id"));
      mret (out original_decision_id original_audit_id (rp_operation_id r) (rp_projection_ids r)
              (rp_ledger_transaction_id r) (rp_ttl_expires_at r))
  | Some (Failure e) =>
      if is_ledger_budget_exhausted (pe_code e) then
        let deny_reason_codes :=
          if existsb (String.eqb "BUDGET_EXHAUSTED") reason_codes then reason_codes
          else reason_codes ++ ["BUDGET_EXHAUSTED"] in
        run_record_denied_decision cfg ctx st Stop deny_reason_codes
          (compute_effect_hash (st_snapshot_hash st) Stop)
      else lift_ (Err (DecisionStage ("ReserveSet error code=" +:+ z_str (pe_code e) +:+ " msg="
                                      +:+ pe_message e)))
  | None => lift_ (Err (DecisionStage "ReserveSet response empty oneof"))
  end.

(** The stages after the replay check: evaluate, project, decide, record. *)
Definition decide_and_record (cfg : SidecarConfig) ctx req (key fingerprint : string)
    : handler DecisionOutput :=
  _ ← act_ NewUuid;
  let snapshot_hash := compute_snapshot_hash req (dc_tenant_id ctx) in
  claims ← lift_ (build_budget_claims req);
  loaded ← act_ ReadContractBundle;
  bundle ← lift_ (ok_or loaded (DecisionStage "no contract bundle loaded"));
  let eval_outcome := evaluate (cb_parsed bundle) (claim_of <$> claims) in
  let enrichment := extract_enrichment req in
  projector_result ← attempt (call_projector_safe cfg ctx req claims enrichment key);
  let projection := ok projector_result in
  let combined := combine_outcomes (cb_parsed bundle) eval_outcome projection in
  let effect_hash := compute_effect_hash snapshot_hash (o_decision combined) in
  decision_id ← act_ NewUuid;
  audit_decision_event_id ← act_ NewUuid;
  seq ← act_ NextProducerSequence;
  fencing_state ← read_fencing;
  schema ← act_ ReadSchemaBundle;
  let st :=
    {| st_decision_id := decision_id; st_audit_decision_event_id := audit_decision_event_id;
       st_producer_sequence := seq; st_snapshot_hash := snapshot_hash;
       st_matched_rules := o_matched_rule_ids combined; st_claims := claims;
       st_fencing := {| fc_epoch := af_epoch fencing_state;
                        fc_scope_id := uuid_str (af_scope_id fencing_state);
                        fc_workload_instance_id := dc_workload_instance_id ctx |};
       st_bundle := bundle;
       st_schema_bundle_id := default EmptyString ((fun s => uuid_str (sb_bundle_id s)) <$> schema);
       st_key := key; st_fingerprint := fingerprint; st_enrichment := enrichment;
       st_projection := projection; st_claim_estimate := extract_claim_estimate req |} in
  if bool_decide (o_decision combined <> Continue)
  then run_record_denied_decision cfg ctx st (o_decision combined) (o_reason_codes combined) effect_hash
  else reserve cfg ctx st fencing_state (o_reason_codes combined) effect_hash.

(** The lane of a subscription meter: no ledger, no projector. *)
Definition subscription_lane (cfg : SidecarConfig) ctx req : handler DecisionOutput :=
  _ ← lift_ (ensure (allow_untrusted_subscription_meter cfg)
               (InvalidRequest "subscription-meter lane is not enabled on this sidecar"));
  now ← act_ Now;
  decision_id ← act_ NewUuid;
  event_id ← act_ NewUuid;
  mret (route_decision_request uuid_bytes (dc_tenant_id ctx) decision_id event_id now req).

Definition run_through_reserve (cfg : SidecarConfig) ctx req : handler DecisionOutput :=
  draining ← act_ IsDraining;
  _ ← lift_ (ensure (negb draining) Draining);
  _ ← enforce_freshness_gate cfg;
  if dr_reservation_source req =? RESERVATION_SOURCE_SUBSCRIPTION_METER
  then subscription_lane cfg ctx req
  else
    idem ← lift_ (ok_or (dr_idempotency req) (InvalidRequest "DecisionRequest.idempotency required"));
    _ ← lift_ (ensure (negb (is_empty (idem_key idem)))
                 (InvalidRequest "DecisionRequest.idempotency.key required"));
    let fingerprint := idempotency_request_fingerprint_hex ctx req in
    replay ← replay_existing_decision_by_idempotency ctx req (idem_key idem) fingerprint;
    match replay with
    | Some replay => mret replay
    | None => decide_and_record cfg ctx req (idem_key idem) fingerprint
    end.

Definition build_response (out : DecisionOutput) : DecisionResponse :=
  {| rs_decision_id := uuid_str (do_decision_id out);
     rs_audit_decision_event_id := uuid_str (do_audit_decision_event_id out);
     rs_decision := decision_number (do_decision out); rs_reason_codes := do_reason_codes out;
     rs_matched_rule_ids := do_matched_rule_ids out; rs_effect_hash := do_effect_hash out;
     rs_ledger_transaction_id := do_ledger_transaction_id out;
     rs_reservation_ids := do_reservation_ids out; rs_ttl_expires_at := do_ttl_expires_at out;
     rs_approval_request_id := do_approval_request_id out;
     rs_terminal := bool_decide (do_decision out = Stop) || bool_decide (do_decision out = StopRunProjection);
     rs_run_code_triggered := do_run_code_triggered out;
     rs_subscription_meter := do_subscription_meter out |}.

(** ** Reading traces *)

Lemma exec_act_ {A} (e : sidecarE A) t r : exec (act_ e) t r <-> exists x, t = [Ev e x] /\ r = Ok x.
Proof. apply exec_act. Qed.
Lemma exec_call_ {A} (e : sidecarE (result DomainError A)) t r : exec (call_ e) t r <-> t = [Ev e r].
Proof. apply exec_call. Qed.
Lemma exec_lift_ {A} (x : result DomainError A) t r : exec (lift_ x) t r <-> t = [] /\ r = x.
Proof. done. Qed.

(** Effects that neither write to the ledger, nor ask it for a decision, nor
    store a signature; [quiet] ones do not ask the projector either. *)
Definition readonly (X : Type) (e : sidecarE X) : Prop :=
  match e with
  | QueryDecisionOutcome _ | ReserveSet _ | RecordDeniedDecision _ | CommitEstimated _ | Release _
  | SignatureStore _ _ _ _ => False
  | _ => True
  end.

Definition quiet (X : Type) (e : sidecarE X) : Prop :=
  match e with Project _ => False | _ => readonly X e end.

Definition silent (t : list (event sidecarE)) : Prop := Forall (ev_sat readonly) t.

Lemma silent_calls t : silent t ->
  reserves t = [] /\ denials t = [] /\ queries t = [] /\ commits t = [] /\ releases t = [].
Proof.
  unfold reserves, denials, queries, commits, releases.
  induction 1 as [|[X e x] t He _ (IH1 & IH2 & IH3 & IH4 & IH5)]; [done|].
  destruct e; cbn in He; try done; cbn; rewrite ?IH1, ?IH2, ?IH3, ?IH4, ?IH5; done.
Qed.

Lemma quiet_silent t : Forall (ev_sat quiet) t -> silent t.
Proof. intros Ht. eapply Forall_impl; [exact Ht|]. intros [X e x]. by destruct e. Qed.

Lemma quiet_projections t : Forall (ev_sat quiet) t -> projections t = [].
Proof.
  unfold projections. induction 1 as [|[X e x] t He _ IH]; [done|].
  by destruct e; cbn in He; try done; cbn; rewrite IH.
Qed.

Lemma sign_quiet cfg ce : all_effects quiet (sign_cloudevent_in_place cfg ce).
Proof. unfold sign_cloudevent_in_place. effs. Qed.
Lemma freshness_quiet cfg : all_effects quiet (enforce_freshness_gate cfg).
Proof. unfold enforce_freshness_gate. effs. Qed.
Lemma read_fencing_quiet : all_effects quiet read_fencing.
Proof. unfold read_fencing. effs. Qed.
Lemma check_active_quiet : all_effects quiet check_active.
Proof. unfold check_active, read_fencing. effs. Qed.
Lemma budget_quiet ctx claims m : all_effects quiet (authoritative_budget_remaining_atomic ctx claims m).
Proof.
  revert m; induction claims as [|c claims IH]; intros m; [done|].
  cbn [authoritative_budget_remaining_atomic]. effs; apply IH.
Qed.
Lemma projector_readonly cfg ctx req claims enr key :
  all_effects readonly (call_projector_safe cfg ctx req claims enr key).
Proof.
  unfold call_projector_safe, projector_budget_remaining_atomic.
  destruct (negb _); [done|]. apply all_effects_bind; [|done].
  destruct (allow_untrusted_budget_metadata cfg); [done|].
  apply all_effects_bind; [|done].
  eapply all_effects_weaken; [|apply budget_quiet].
  intros X e. by destruct e.
Qed.
Lemma approval_quiet ctx st d rc : all_effects quiet (approval_payload ctx st d rc).
Proof. unfold approval_payload. effs. Qed.
Lemma populate_quiet ctx rs f d b : all_effects quiet (populate_reservation_cache ctx rs f d b).
Proof. unfold populate_reservation_cache. effs. Qed.
Lemma subscription_quiet cfg ctx req : all_effects quiet (subscription_lane cfg ctx req).
Proof. unfold subscription_lane. effs. Qed.

(** The ledger calls of a trace. *)
Definition lcalls (t : list (event sidecarE)) :=
  (reserves t, denials t, queries t, commits t, releases t).

Lemma lcalls_silent t1 t2 : silent t1 -> lcalls (t1 ++ t2) = lcalls t2.
Proof.
  intros (H1' & H2' & H3' & H4' & H5')%silent_calls.
  unfold lcalls, reserves, denials, queries, commits, releases in *.
  by rewrite !omap_app, H1', H2', H3', H4', H5'.
Qed.

Lemma lcalls_silent_nil t : silent t -> lcalls t = ([], [], [], [], []).
Proof. intros Ht. rewrite <- (app_nil_r t), lcalls_silent by done. done. Qed.

Lemma exec_quiet_bind {A B} (m : handler A) (f : A -> handler B) t r :
  all_effects quiet m -> exec (m ≫= f) t r ->
  (exists e, r = Err e /\ Forall (ev_sat quiet) t) \/
  (exists t1 t2 a, t = t1 ++ t2 /\ Forall (ev_sat quiet) t1 /\ exec m t1 (Ok a) /\ exec (f a) t2 r).
Proof.
  intros Hq [(t1 & t2 & a & -> & Hm & Hf)|(e & -> & Hm)]%exec_bind.
  - right. exists t1, t2, a. split; [done|]. split; [by eapply all_effects_exec|done].
  - left. exists e. split; [done|]. by eapply all_effects_exec.
Qed.

Lemma exec_readonly_bind {A B} (m : handler A) (f : A -> handler B) t r :
  all_effects readonly m -> exec (m ≫= f) t r ->
  (exists e, r = Err e /\ silent t) \/
  (exists t1 t2 a, t = t1 ++ t2 /\ silent t1 /\ exec m t1 (Ok a) /\ exec (f a) t2 r).
Proof.
  intros Hq [(t1 & t2 & a & -> & Hm & Hf)|(e & -> & Hm)]%exec_bind.
  - right. exists t1, t2, a. split; [done|]. split; [by eapply all_effects_exec|done].
  - left. exists e. split; [done|]. by eapply all_effects_exec.
Qed.

Lemma exec_call_bind {A B} (e : sidecarE (result DomainError A)) (f : A -> handler B) t r :
  exec (call_ e ≫= f) t r ->
  (exists er, t = [Ev e (Err er)] /\ r = Err er) \/
  (exists x t', t = Ev e (Ok x) :: t' /\ exec (f x) t' r).
Proof.
  intros [(t1 & t2 & a & -> & Hm%exec_call_ & Hf)|(er & -> & Hm%exec_call_)]%exec_bind; subst.
  - right. by exists a, t2.
  - left. by exists er.
Qed.

(** A pure continuation leaves no trace. *)
Lemma exec_lift_bind {A B} (x : result DomainError A) (f : A -> handler B) t r :
  exec (lift_ x ≫= f) t r ->
  (exists e, x = Err e /\ t = [] /\ r = Err e) \/ (exists a, x = Ok a /\ exec (f a) t r).
Proof.
  intros [(t1 & t2 & a & -> & [-> <-]%exec_lift_ & Hf)|(e & -> & [-> <-]%exec_lift_)]%exec_bind;
    naive_solver.
Qed.

Definition is_err {A} (r : result DomainError A) : Prop := exists e, r = Err e.

Lemma sign_ok cfg ce t ce' :
  exec (sign_cloudevent_in_place cfg ce) t (Ok ce') ->
  exists sig, ce' = with_signing_key (signer_key_id cfg) sig ce.
Proof.
  unfold sign_cloudevent_in_place. intros (t1 & t2 & a & -> & Hs & Hr)%exec_bind_ok.
  destruct a as [sig|[]]; [|by apply exec_lift_ in Hr as [_ Hr]..].
  apply exec_ret in Hr as [_ [= ->]]. by exists sig.
Qed.

(** The event carries the signer's key and a signature that the signer answered for
    just this event, all but the signature. *)
Definition signed_event (cfg : SidecarConfig) (t : list (event sidecarE)) (ce : CloudEvent) : Prop :=
  ce_signing_key_id ce = signer_key_id cfg /\
  Ev (Sign (with_signing_key (signer_key_id cfg) EmptyString ce)) (Ok (ce_producer_signature ce)) ∈ t.

Definition denial_signed cfg t (rq : RecordDeniedDecisionRequest) : Prop :=
  exists ce, rd_audit_event rq = Some ce /\ signed_event cfg t ce.

Lemma sign_asked cfg ce t ce' :
  exec (sign_cloudevent_in_place cfg ce) t (Ok ce') -> signed_event cfg t ce'.
Proof.
  unfold sign_cloudevent_in_place. intros (t1 & t2 & a & -> & (x & -> & [= <-])%exec_act_ & Hr)%exec_bind_ok.
  destruct a as [sig|[]]; [|by apply exec_lift_ in Hr as [_ Hr]..].
  apply exec_ret in Hr as [-> [= ->]]. split; [done|]. set_solver-.
Qed.

Lemma denial_signed_intro cfg t t' rq ce :
  rd_audit_event rq = Some ce -> signed_event cfg t ce -> t ⊆ t' -> denial_signed cfg t' rq.
Proof. intros Hce [Hk Hs] Ht. exists ce. split; [done|]. split; [done|]. by apply Ht. Qed.

Lemma denial_signed_mono cfg t t' rq : t ⊆ t' -> denial_signed cfg t rq -> denial_signed cfg t' rq.
Proof. intros Ht (ce & Hce & Hk & Hs). exists ce. split; [done|]. split; [done|]. by apply Ht. Qed.

(** The request of a denial and what its answer makes of it. *)
Definition denial_request (cfg : SidecarConfig) ctx (st : Stage) (d : decision) (reason_codes : list string)
    (rq : RecordDeniedDecisionRequest) : Prop :=
  denied_decision_label d = Some (rd_final_decision rq) /\
  rd_tenant_id rq = dc_tenant_id ctx /\ rd_decision_id rq = uuid_str (st_decision_id st) /\
  rd_idempotency rq = Some {| idem_key := st_key st; idem_request_hash := EmptyString |} /\
  rd_attempted_claims rq = st_claims st /\ rd_reason_codes rq = reason_codes /\
  rd_producer_sequence rq = st_producer_sequence st /\ rd_fencing rq = Some (st_fencing st) /\
  (is_Some (rd_decision_context_json rq) <-> d = RequireApproval) /\
  exists ce, rd_audit_event rq = Some ce /\ ce_signing_key_id ce = signer_key_id cfg /\
    ce_id ce = uuid_str (st_audit_decision_event_id st) /\
    ce_producer_sequence ce = st_producer_sequence st.

Definition denial_result (st : Stage) (d : decision) (reason_codes : list string) (effect_hash : string)
    (ans : result DomainError (option (Outcome RecordDeniedDecisionSuccess)))
    (r : result DomainError DecisionOutput) : Prop :=
  match ans with
  | Ok (Some (Success s)) =>
      r = Ok (denied_output st d reason_codes effect_hash (st_decision_id st)
                (st_audit_decision_event_id st) (rd_ok_ledger_transaction_id s) (rd_ok_approval_id s))
  | Ok (Some (Replayed p)) =>
      is_err r \/ exists a b, uuid_parse (rp_decision_id p) = Some a /\
        r = Ok (denied_output st d reason_codes effect_hash a b (rp_ledger_transaction_id p) EmptyString)
  | _ => is_err r
  end.

#[local] Hint Resolve sign_quiet freshness_quiet read_fencing_quiet check_active_quiet budget_quiet
  approval_quiet populate_quiet subscription_quiet : quiet.
#[local] Hint Extern 1 (all_effects quiet (act_ _)) => (split; [exact I|done]) : quiet.
#[local] Hint Extern 1 (all_effects quiet (lift_ _)) => exact I : quiet.

Ltac skip_quiet H :=
  apply exec_quiet_bind in H as [(?e & -> & ?Hs)|(?t1 & ?t2 & ?a & -> & ?Hs & ?Hm & H)];
  [left; split; [by apply lcalls_silent_nil, quiet_silent|by eexists]
  |rewrite lcalls_silent by (by apply quiet_silent)
  |auto with quiet].

(** Signing and predicting leave the envelope as it was. *)
Lemma signed_envelope cfg sig policy est resp ctx type id run did schema seq time data :
  let ce := with_signing_key (signer_key_id cfg) sig
              (with_prediction policy est resp
                 (cloudevent_envelope ctx type id run did schema seq time data)) in
  ce_signing_key_id ce = signer_key_id cfg /\ ce_id ce = id /\ ce_producer_sequence ce = seq.
Proof. unfold with_prediction. destruct (event_projection est resp) as [[??]?]. done. Qed.

Lemma approval_ok ctx st d rc t x :
  exec (approval_payload ctx st d rc) t (Ok x) -> (is_Some x.1.1 <-> d = RequireApproval).
Proof.
  unfold approval_payload. case_bool_decide as Hd.
  - intros (t1 & t2 & s1 & -> & _ & (t3 & t4 & s2 & -> & _ & [_ [= ->]]%exec_ret)%exec_bind_ok)%exec_bind_ok.
    cbn. split; [done|]. by eexists.
  - intros [_ [= ->]]%exec_ret. cbn. split; [by intros [? ?]|done].
Qed.

Lemma denied_calls cfg ctx st d rc eh t r :
  exec (run_record_denied_decision cfg ctx st d rc eh) t r ->
  (lcalls t = ([], [], [], [], []) /\ is_err r) \/
  exists rq ans, lcalls t = ([], [(rq, ans)], [], [], []) /\
    denial_request cfg ctx st d rc rq /\ denial_signed cfg t rq /\ denial_result st d rc eh ans r.
Proof.
  unfold run_record_denied_decision. intros He.
  skip_quiet He.
  apply exec_lift_ in Hm as [-> Hlabel]. symmetry in Hlabel. apply ok_or_ok in Hlabel.
  skip_quiet He. skip_quiet He. skip_quiet He.
  pose proof (sign_asked _ _ _ _ Hm1) as Hsigned. apply sign_ok in Hm1 as [sig ->].
  skip_quiet He. destruct a2 as [[context_json effect_json] ttl].
  apply approval_ok in Hm1. cbn in Hm1.
  apply exec_call_bind in He as [(er & -> & ->)|(x & t' & -> & He)].
  - right. eexists _, _. split; [reflexivity|]. split; [|split; [|by eexists]].
    + unfold denial_request. cbn. rewrite Hlabel. split_and!; try done.
      eexists; split; [done|]. apply signed_envelope.
    + eapply denial_signed_intro; [done|exact Hsigned|set_solver-].
  - assert (t' = [] /\ denial_result st d rc eh (Ok x) r) as [-> Hr].
    { destruct x as [[s|p|e]|]; cbn.
      - by apply exec_ret in He as [-> ->].
      - apply exec_lift_bind in He as [(? & _ & -> & ->)|(i1 & Hi1%ok_or_ok & He)]; [split; [done|by left; eexists]|].
        apply exec_lift_bind in He as [(? & _ & -> & ->)|(i2 & Hi2%ok_or_ok & He)]; [split; [done|by left; eexists]|].
        apply exec_ret in He as [-> ->]. split; [done|]. right. eauto.
      - apply exec_lift_ in He as [-> ->]. split; [done|by eexists].
      - apply exec_lift_ in He as [-> ->]. split; [done|by eexists]. }
    right. eexists _, _. split; [reflexivity|]. split; [|split; [|exact Hr]].
    + unfold denial_request. cbn. rewrite Hlabel. split_and!; try done.
      eexists; split; [done|]. apply signed_envelope.
    + eapply denial_signed_intro; [done|exact Hsigned|set_solver-].
Qed.

Definition reserve_request (cfg : SidecarConfig) ctx (st : Stage) (rq : ReserveSetRequest) : Prop :=
  rr_tenant_id rq = dc_tenant_id ctx /\ rr_decision_id rq = uuid_str (st_decision_id st) /\
  rr_idempotency rq = Some {| idem_key := st_key st; idem_request_hash := EmptyString |} /\
  rr_claims rq = st_claims st /\ rr_producer_sequence rq = st_producer_sequence st /\
  rr_fencing rq = Some (st_fencing st) /\ rr_pricing rq = Some (pricing_of (st_bundle st)) /\
  exists ce, rr_audit_event rq = Some ce /\ ce_signing_key_id ce = signer_key_id cfg /\
    ce_id ce = uuid_str (st_audit_decision_event_id st) /\
    ce_producer_sequence ce = st_producer_sequence st.

(** What an answer other than an exhausted budget makes of a reservation. *)
Definition reserve_result (st : Stage) (reason_codes : list string)
    (ans : result DomainError (option (Outcome ReserveSetSuccess)))
    (r : result DomainError DecisionOutput) : Prop :=
  match ans with
  | Ok (Some (Success s)) =>
      exists out, r = Ok out /\ do_decision out = Continue /\ do_decision_id out = st_decision_id st /\
        do_reservation_ids out = rv_reservation_id <$> rs_ok_reservations s /\
        do_ledger_transaction_id out = rs_ok_ledger_transaction_id s
  | Ok (Some (Replayed p)) =>
      is_err r \/
      exists out, r = Ok out /\ do_decision out = Continue /\
        uuid_parse (rp_decision_id p) = Some (do_decision_id out) /\
        do_reservation_ids out = rp_projection_ids p /\
        do_ledger_transaction_id out = rp_ledger_transaction_id p
  | _ => is_err r
  end.

Definition exhausted (ans : result DomainError (option (Outcome ReserveSetSuccess))) : Prop :=
  exists e, ans = Ok (Some (Failure e)) /\ pe_code e = code_number BUDGET_EXHAUSTED.

Lemma populate_total ctx rs f d b t r :
  exec (populate_reservation_cache ctx rs f d b) t r -> r = Ok tt.
Proof.
  unfold populate_reservation_cache.
  assert (Ha : forall t r, exec (now ← act_ Now; act_ (ReservationInsert
    (omap (fun r => reservation_ctx_of ctx f d b r now) rs))) t r -> r = Ok tt).
  { intros t0 r0 [(? & ? & now & -> & _ & ([] & -> & ->)%exec_act_)|(e & -> & (? & _ & [=])%exec_act_)]%exec_bind.
    done. }
  destruct (r ← head rs; uuid_parse (rv_reservation_id r)); intros Hx;
    apply exec_bind in Hx as [(? & ? & [] & -> & _ & Hx)|(e & -> & Hx)]; eauto.
  - by apply exec_act_ in Hx as (? & _ & [=]).
  - by apply exec_ret in Hx as [_ [=]].
Qed.

Lemma lcalls_reserve rq ans t :
  lcalls (Ev (ReserveSet rq) ans :: t) =
    ((rq, ans) :: reserves t, denials t, queries t, commits t, releases t).
Proof. done. Qed.

Lemma reserve_calls cfg ctx st f rc eh t r :
  exec (reserve cfg ctx st f rc eh) t r ->
  (lcalls t = ([], [], [], [], []) /\ is_err r) \/
  exists rq ans, reserve_request cfg ctx st rq /\
    ((lcalls t = ([(rq, ans)], [], [], [], []) /\ reserve_result st rc ans r) \/
     (exhausted ans /\ exists rc' rq' ans',
        "BUDGET_EXHAUSTED" ∈ rc' /\
        lcalls t = ([(rq, ans)], [(rq', ans')], [], [], []) /\
        denial_request cfg ctx st Stop rc' rq' /\ denial_signed cfg t rq' /\
        denial_result st Stop rc' (compute_effect_hash (st_snapshot_hash st) Stop) ans' r)).
Proof.
  unfold reserve. intros He.
  skip_quiet He. skip_quiet He. skip_quiet He. apply sign_ok in Hm1 as [sig ->]. skip_quiet He.
  match type of He with
  | exec (call_ (ReserveSet ?rq) ≫= _) _ _ =>
      assert (Hrq : reserve_request cfg ctx st rq);
      [split_and!; try done; eexists; split; [done|]; apply signed_envelope|]
  end.
  right. apply exec_call_bind in He as [(er & -> & ->)|(x & t' & -> & He)];
    eexists _, _; (split; [exact Hrq|]); clear Hrq.
  { left. split; [reflexivity|by eexists]. }
  destruct x as [[s|p|e]|].
  - left. apply exec_bind in He as [(t4 & t5 & u & -> & Hp & [-> ->]%exec_ret)|(er & -> & Hp)];
      [|by apply populate_total in Hp].
    rewrite app_nil_r, lcalls_reserve.
    apply (all_effects_exec quiet) in Hp; [|apply populate_quiet].
    apply quiet_silent, silent_calls in Hp as (-> & -> & -> & -> & ->). split; [reflexivity|].
    eexists. by split_and!.
  - left. assert (t' = [] /\ reserve_result st rc (Ok (Some (Replayed p))) r) as [-> Hr]; [|done].
    apply exec_lift_bind in He as [(? & _ & -> & ->)|(i1 & Hi1%ok_or_ok & He)]; [split; [done|by left; eexists]|].
    apply exec_lift_bind in He as [(? & _ & -> & ->)|(i2 & Hi2%ok_or_ok & He)]; [split; [done|by left; eexists]|].
    apply exec_ret in He as [-> ->]. split; [done|]. right. eexists. by split_and!.
  - revert He. cbv beta match. destruct (is_ledger_budget_exhausted (pe_code e)) eqn:Hex; intros He.
    + apply Z.eqb_eq in Hex. apply denied_calls in He as [[Hc Hr]|(rq' & ans' & Hc & Hrq & Hsg & Hr)].
      * left. rewrite lcalls_reserve. unfold lcalls in Hc. simplify_eq. split; [congruence|done].
      * right. split; [by exists e|]. eexists _, rq', ans'. split; [|split; [|split; [exact Hrq|split; [|exact Hr]]]].
        { destruct (existsb _ _) eqn:Hin; [|set_solver].
          apply existsb_exists in Hin as (c & Hc'%list_elem_of_In & <-%String.eqb_eq). done. }
        { rewrite lcalls_reserve. unfold lcalls in Hc. simplify_eq. congruence. }
        eapply denial_signed_mono, Hsg. set_solver-.
    + left. apply exec_lift_ in He as [-> ->]. split; [reflexivity|by eexists].
  - left. apply exec_lift_ in He as [-> ->]. split; [reflexivity|by eexists].
Qed.

(** What a decision asks the projector: the amount is the sum of the claims, cut off
    at [i64]. *)
Definition project_request ctx (claims : list BudgetClaim) (pq : ProjectRequest) : Prop :=
  pq_tenant_id pq = dc_tenant_id ctx /\
  let total := foldr Z.add 0 ((fun c => default 0 (bigint_parse (bc_amount_atomic c))) <$> claims) in
  pq_this_call_reservation_atomic pq =
    if (i64_min <=? total) && (total <=? i64_max) then total else i64_max.

Lemma claims_total_sum claims :
  claims_total claims = foldr Z.add 0 ((fun c => default 0 (bigint_parse (bc_amount_atomic c))) <$> claims).
Proof.
  unfold claims_total. enough (Hz : forall z, fold_left (fun t c => t + default 0 (bigint_parse (bc_amount_atomic c))) claims z
    = z + foldr Z.add 0 ((fun c => default 0 (bigint_parse (bc_amount_atomic c))) <$> claims)) by apply Hz.
  induction claims as [|c claims IH]; intros z; cbn; [lia|]. rewrite IH. lia.
Qed.

Lemma projections_quiet t1 t2 : Forall (ev_sat quiet) t1 -> projections (t1 ++ t2) = projections t2.
Proof. intros Hq%quiet_projections. unfold projections in *. by rewrite omap_app, Hq. Qed.

Lemma budget_total ctx claims m t r :
  exec (authoritative_budget_remaining_atomic ctx claims m) t r -> exists n, r = Ok n.
Proof.
  revert m t; induction claims as [|c claims IH]; intros m t; cbn [authoritative_budget_remaining_atomic].
  { intros [_ ->]. eauto. }
  destruct (_ =? _); [apply IH|]. destruct (bc_unit c); [|intros [_ ->]; eauto].
  intros [(t1 & t2 & now & -> & _ & Hx)|(e & _ & (? & _ & [=])%exec_act_)]%exec_bind.
  apply exec_bind in Hx as [(t3 & t4 & ans & -> & _ & Hx)|(e & _ & (? & [=] & _)%exec_attempt)].
  destruct ans as [resp|e]; [|destruct Hx as [_ ->]; eauto].
  destruct (nonnegative_i64_from_decimal_str _); [by eapply IH|destruct Hx as [_ ->]; eauto].
Qed.

Lemma budget_remaining_total cfg ctx req claims t r :
  exec (projector_budget_remaining_atomic cfg ctx req claims) t r ->
  Forall (ev_sat quiet) t /\ exists n, r = Ok n.
Proof.
  unfold projector_budget_remaining_atomic. destruct (allow_untrusted_budget_metadata cfg).
  { intros [-> ->]. split; [constructor|eauto]. }
  intros [(t1 & t2 & m & -> & Hm & [-> ->]%exec_ret)|(e & _ & [? [=]]%budget_total)]%exec_bind.
  rewrite app_nil_r. split; [|eauto]. by eapply all_effects_exec, Hm; apply budget_quiet.
Qed.

(** The projector is asked exactly once when there is one. *)
Definition projector_asked cfg ctx (claims : list BudgetClaim) (t : list (event sidecarE))
    (ans : result DomainError ProjectResponse) : Prop :=
  if run_cost_projector_configured cfg
  then exists pq, projections t = [(pq, ans)] /\ project_request ctx claims pq
  else projections t = [] /\ is_err ans.

Lemma projector_exec cfg ctx req claims enr key t r :
  exec (call_projector_safe cfg ctx req claims enr key) t r -> projector_asked cfg ctx claims t r.
Proof.
  unfold call_projector_safe, projector_asked. destruct (run_cost_projector_configured cfg); cbn [negb].
  2:{ intros [-> ->]%exec_lift_. split; [done|by eexists]. }
  intros [(t1 & t2 & b & -> & [Hq _]%budget_remaining_total & ->%exec_call_)
         |(e & _ & [_ [? [=]]]%budget_remaining_total)]%exec_bind.
  rewrite projections_quiet by done. eexists. split; [reflexivity|]. split; [done|].
  cbn zeta. by rewrite <- claims_total_sum.
Qed.

(** What follows the projection does not ask the projector again. *)
Definition unprojected (X : Type) (e : sidecarE X) : Prop := match e with Project _ => False | _ => True end.

Lemma unprojected_projections t : Forall (ev_sat unprojected) t -> projections t = [].
Proof.
  unfold projections. induction 1 as [|[X e x] t He _ IH]; [done|].
  by destruct e; cbn in He; try done; cbn; rewrite IH.
Qed.

Lemma quiet_unprojected {R} (p : prog sidecarE R) : all_effects quiet p -> all_effects unprojected p.
Proof. apply all_effects_weaken. intros X e. by destruct e. Qed.

Ltac unproj :=
  repeat first
    [ progress intros
    | solve [apply quiet_unprojected; auto with quiet]
    | apply all_effects_bind
    | match goal with |- all_effects _ (match ?x with _ => _ end) => destruct x end
    | exact I
    | split; [exact I|] ].

Lemma denied_unprojected cfg ctx st d rc eh :
  all_effects unprojected (run_record_denied_decision cfg ctx st d rc eh).
Proof. unfold run_record_denied_decision. unproj. Qed.

Lemma reserve_unprojected cfg ctx st f rc eh : all_effects unprojected (reserve cfg ctx st f rc eh).
Proof. unfold reserve. unproj; apply denied_unprojected. Qed.

(** What the stages before the ledger's write have established. *)
Record staged cfg ctx req (key fingerprint : string) (t : list (event sidecarE)) (st : Stage)
    (fencing_state : ActiveFencing) (combined : EvalOutcome) : Prop := {
  sg_claims : build_budget_claims req = Ok (st_claims st);
  sg_bundle : Ev ReadContractBundle (Some (st_bundle st)) ∈ t;
  sg_key : st_key st = key;
  sg_fingerprint : st_fingerprint st = fingerprint;
  sg_sequence : Ev NextProducerSequence (st_producer_sequence st) ∈ t;
  sg_fencing : Ev ReadFencing (Some fencing_state) ∈ t;
  sg_epoch : fc_epoch (st_fencing st) = af_epoch fencing_state;
  sg_projector : exists ans, projector_asked cfg ctx (st_claims st) t ans /\ st_projection st = ok ans;
  sg_outcome : combined = combine_outcomes (cb_parsed (st_bundle st))
    (evaluate (cb_parsed (st_bundle st)) (claim_of <$> st_claims st)) (st_projection st);
}.

Ltac skip_act H :=
  apply exec_bind in H as [(?t1 & ?t2 & ?v & -> & (?x' & -> & [= <-])%exec_act_ & H)
                          |(?e & -> & (?x' & _ & [=])%exec_act_)];
  rewrite lcalls_silent by (by repeat constructor).

Ltac skip_lift H :=
  apply exec_lift_bind in H as [(?e & _ & -> & ->)|(?v & ?Hv & H)];
  [left; split; [reflexivity|by eexists]|].

Lemma read_fencing_ok t f : exec read_fencing t (Ok f) -> t = [Ev ReadFencing (Some f)].
Proof.
  unfold read_fencing. intros (t1 & t2 & x & -> & (? & -> & [= <-])%exec_act_ & [-> Hx]%exec_lift_)%exec_bind_ok.
  symmetry in Hx. apply ok_or_ok in Hx as ->. done.
Qed.

Lemma decide_cases cfg ctx req key fp t r :
  exec (decide_and_record cfg ctx req key fp) t r ->
  (lcalls t = ([], [], [], [], []) /\ is_err r) \/
  exists t1 t2 st f comb, t = t1 ++ t2 /\ silent t1 /\ staged cfg ctx req key fp t1 st f comb /\
    exec (if bool_decide (o_decision comb <> Continue)
          then run_record_denied_decision cfg ctx st (o_decision comb) (o_reason_codes comb)
                 (compute_effect_hash (compute_snapshot_hash req (dc_tenant_id ctx)) (o_decision comb))
          else reserve cfg ctx st f (o_reason_codes comb)
                 (compute_effect_hash (compute_snapshot_hash req (dc_tenant_id ctx)) (o_decision comb))) t2 r.
Proof.
  unfold decide_and_record. intros He.
  skip_act He. skip_lift He. skip_act He. skip_lift He.
  apply exec_readonly_bind in He as [(e & -> & Hs)|(t3 & t4 & pr & -> & Hs & Hpr & He)]; 
    [left; split; [by apply lcalls_silent_nil|by eexists]
    |rewrite lcalls_silent by done
    |unfold attempt; apply all_effects_pbind; [apply projector_readonly|done]].
  skip_act He. skip_act He. skip_act He.
  apply exec_bind in He as [(t7 & t8 & f & -> & Hf%read_fencing_ok & He)|(e & -> & Hf)];
    [subst t7|left; split; [|by eexists]; apply lcalls_silent_nil, quiet_silent;
              by eapply all_effects_exec, Hf; apply read_fencing_quiet].
  skip_act He. right.
  rewrite !app_assoc. eexists _, _, _, f, _. split; [reflexivity|]. split; [|split; [|exact He]].
  { repeat (apply Forall_app; split); try done; repeat constructor. }
  apply exec_attempt in Hpr as (pr' & [= <-] & Hpr). apply projector_exec in Hpr.
  constructor; try done; try (by set_solver-).
  - apply ok_or_ok in Hv0 as ->. cbn [st_bundle]. set_solver-.
  - exists pr. split; [|done]. cbn [st_claims]. unfold projector_asked in *.
    match goal with |- context [projections ?t] =>
      assert (projections t = projections t3) as -> by (unfold projections; rewrite !omap_app; cbn; by rewrite !app_nil_r) end.
    done.
Qed.

Lemma staged_mono cfg ctx req key fp t1 t2 st f comb :
  projections t2 = [] ->
  staged cfg ctx req key fp t1 st f comb -> staged cfg ctx req key fp (t1 ++ t2) st f comb.
Proof.
  intros Ht2 [? ? ? ? ? ? ? Hp ?]. constructor; try done; try (apply elem_of_app; by left).
  destruct Hp as (ans & Hans & Hp). exists ans. split; [|done].
  unfold projector_asked, projections in *. by rewrite omap_app, Ht2, app_nil_r.
Qed.

(** How the stages after the replay check can end. *)
Inductive recorded (cfg : SidecarConfig) ctx req (key fp : string) (t : list (event sidecarE))
    (r : result DomainError DecisionOutput) : Prop :=
  | rec_failed : lcalls t = ([], [], [], [], []) -> is_err r -> recorded cfg ctx req key fp t r
  | rec_denied st f comb rq ans :
      staged cfg ctx req key fp t st f comb -> o_decision comb <> Continue ->
      lcalls t = ([], [(rq, ans)], [], [], []) ->
      denial_request cfg ctx st (o_decision comb) (o_reason_codes comb) rq -> denial_signed cfg t rq ->
      (exists eh, denial_result st (o_decision comb) (o_reason_codes comb) eh ans r) ->
      recorded cfg ctx req key fp t r
  | rec_reserved st f comb rq ans :
      staged cfg ctx req key fp t st f comb -> o_decision comb = Continue ->
      lcalls t = ([(rq, ans)], [], [], [], []) -> reserve_request cfg ctx st rq ->
      reserve_result st (o_reason_codes comb) ans r -> recorded cfg ctx req key fp t r
  | rec_exhausted st f comb rq ans rc' rq' ans' :
      staged cfg ctx req key fp t st f comb -> o_decision comb = Continue -> exhausted ans ->
      "BUDGET_EXHAUSTED" ∈ rc' ->
      lcalls t = ([(rq, ans)], [(rq', ans')], [], [], []) -> reserve_request cfg ctx st rq ->
      denial_request cfg ctx st Stop rc' rq' -> denial_signed cfg t rq' ->
      (exists eh, denial_result st Stop rc' eh ans' r) -> recorded cfg ctx req key fp t r.

Lemma decide_recorded cfg ctx req key fp t r :
  exec (decide_and_record cfg ctx req key fp) t r -> recorded cfg ctx req key fp t r.
Proof.
  intros [[Hc Hr]|(t1 & t2 & st & f & comb & -> & Hs & Hst & He)]%decide_cases; [by constructor 1|].
  apply (staged_mono _ _ _ _ _ _ t2) in Hst;
    [|by apply unprojected_projections; eapply all_effects_exec, He; destruct (bool_decide _);
      [apply denied_unprojected|apply reserve_unprojected]].
  case_bool_decide as Hd; [apply denied_calls in He as [[Hc Hr]|(rq & ans & Hc & Hq & Hsg & Hr)]
                          |apply reserve_calls in He as
                             [[Hc Hr]|(rq & ans & Hq & [[Hc Hr]|(Hx & rc' & rq' & ans' & Hrc & Hc & Hq' & Hsg & Hr)])]];
    rewrite <- (lcalls_silent t1 t2 Hs) in Hc;
    try (apply (denial_signed_mono _ _ (t1 ++ t2)) in Hsg; [|set_solver-]).
  - by constructor 1.
  - by eapply rec_denied; eauto.
  - by constructor 1.
  - eapply rec_reserved; eauto.
  - eapply rec_exhausted; eauto.
Qed.

Lemma replay_inv {B} ctx req key fp (f : option DecisionOutput -> handler B) t r :
  exec (replay_existing_decision_by_idempotency ctx req key fp ≫= f) t r ->
  exists ans t', t = Ev (QueryDecisionOutcome {| qd_tenant_id := dc_tenant_id ctx;
                           qd_decision_id := EmptyString; qd_idempotency_key := key |}) ans :: t' /\
    match ans with
    | Err e => t' = [] /\ r = Err e
    | Ok resp =>
        if stage_recorded (qo_stage resp)
        then match replay_output ctx req fp resp with
             | Ok out => exec (f (Some out)) t' r
             | Err e => t' = [] /\ r = Err e
             end
        else exec (f None) t' r
    end.
Proof.
  unfold replay_existing_decision_by_idempotency.
  intros [(t1 & t2 & x & -> & He & Hf)|(e & -> & He)]%exec_bind;
    apply exec_call_bind in He as [(er & -> & Hr)|(resp & t' & -> & He)].
  - done.
  - eexists _, _. split; [reflexivity|]. cbn. destruct (stage_recorded _); cbn in He.
    + destruct (replay_output _ _ _ _); cbn in He; destruct He as [-> [= ->]]. done.
    + by destruct He as [-> [= ->]].
  - eexists _, _. split; [reflexivity|]. by simplify_eq.
  - eexists _, _. split; [reflexivity|]. cbn. destruct (stage_recorded _); cbn in He.
    + destruct (replay_output _ _ _ _); cbn in He; destruct He as [-> [=]]. by subst.
    + by destruct He as [-> [=]].
Qed.

(** ** The whole transaction *)

Lemma freshness_ok cfg t u :
  exec (enforce_freshness_gate cfg) t (Ok u) ->
  exists verified now, Ev ReadManifestVerifiedAt (Some verified) ∈ t /\ Ev Now now ∈ t /\
    num_seconds (now - verified) <= i64_wrap (critical_max_stale_seconds cfg).
Proof.
  unfold enforce_freshness_gate.
  intros (t1 & t2 & v & -> & (? & -> & [= <-])%exec_act_ & Hg)%exec_bind_ok.
  destruct v as [t0|]; [|by apply exec_lift_ in Hg as [_ Hg]].
  apply exec_bind_ok in Hg as (t3 & t4 & now & -> & (? & -> & [= <-])%exec_act_ & [-> Hg]%exec_lift_).
  symmetry in Hg. apply ensure_ok in Hg. exists t0, now. split; [set_solver-|]. split; [set_solver-|]. blia.
Qed.

Lemma subscription_ok cfg ctx req t r :
  exec (subscription_lane cfg ctx req) t r ->
  is_err r \/
  (allow_untrusted_subscription_meter cfg = true /\
   exists now decision_id event_id,
     r = Ok (route_decision_request uuid_bytes (dc_tenant_id ctx) decision_id event_id now req)).
Proof.
  unfold subscription_lane.
  intros [(e & _ & _ & ->)|(v & Ha%ensure_ok & He)]%exec_lift_bind; [left; by eexists|right].
  split; [done|]. cbn in He. destruct He as (now & ? & _ & did & ? & _ & eid & ? & _ & _ & ->). eauto.
Qed.

Lemma gates_cases cfg ctx req t r :
  exec (run_through_reserve cfg ctx req) t r ->
  (Forall (ev_sat quiet) t /\ is_err r) \/
  exists t1 t2 verified now, t = t1 ++ t2 /\ Forall (ev_sat quiet) t1 /\
    Ev IsDraining false ∈ t1 /\ Ev ReadManifestVerifiedAt (Some verified) ∈ t1 /\ Ev Now now ∈ t1 /\
    num_seconds (now - verified) <= i64_wrap (critical_max_stale_seconds cfg) /\
    ((dr_reservation_source req = RESERVATION_SOURCE_SUBSCRIPTION_METER /\
      allow_untrusted_subscription_meter cfg = true /\ Forall (ev_sat quiet) t2 /\
      exists now decision_id event_id,
        r = Ok (route_decision_request uuid_bytes (dc_tenant_id ctx) decision_id event_id now req)) \/
     exists idem, dr_reservation_source req <> RESERVATION_SOURCE_SUBSCRIPTION_METER /\
       dr_idempotency req = Some idem /\ idem_key idem <> EmptyString /\
       exec (replay ← replay_existing_decision_by_idempotency ctx req (idem_key idem)
                        (idempotency_request_fingerprint_hex ctx req);
             match replay with
             | Some replay => mret replay
             | None => decide_and_record cfg ctx req (idem_key idem)
                         (idempotency_request_fingerprint_hex ctx req)
             end) t2 r).
Proof.
  unfold run_through_reserve. intros He.
  apply exec_bind in He as [(t1 & t2 & d & -> & (? & -> & [= <-])%exec_act_ & He)|(e & _ & (? & _ & [=])%exec_act_)].
  apply exec_lift_bind in He as [(e & _ & -> & ->)|(v & Hd%ensure_ok & He)];
    [left; split; [by repeat constructor|by eexists]|].
  destruct d; [done|].
  apply exec_quiet_bind in He as [(e & -> & Hs)|(t1 & t3 & u & -> & Hs & Hfresh & He)];
    [left; split; [by constructor|by eexists]| |apply freshness_quiet].
  apply freshness_ok in Hfresh as (verified & now & Hv & Hn & Hage).
  destruct (_ =? _) eqn:Hsrc.
  - pose proof (all_effects_exec quiet _ _ _ (subscription_quiet cfg ctx req) He) as Hq.
    apply subscription_ok in He as [He|[Hallow Hr]]; [left|right].
    { split; [|done]. by constructor; [|apply Forall_app]. }
    exists ([Ev IsDraining false] ++ t1), t3, verified, now. rewrite app_assoc.
    split; [done|]. split; [by constructor|]. do 3 (split; [cbn; rewrite elem_of_cons; auto|]).
    split; [done|]. left. split_and!; try done. by apply Z.eqb_eq.
  - apply Z.eqb_neq in Hsrc.
    apply exec_lift_bind in He as [(e & _ & -> & ->)|(idem & Hi%ok_or_ok & He)].
    { left. rewrite app_nil_r. split; [by constructor|by eexists]. }
    apply exec_lift_bind in He as [(e & _ & -> & ->)|(? & Hk%ensure_ok & He)].
    { left. rewrite app_nil_r. split; [by constructor|by eexists]. }
    right. exists ([Ev IsDraining false] ++ t1), t3, verified, now. rewrite app_assoc.
    split; [done|]. split; [by constructor|]. do 3 (split; [cbn; rewrite elem_of_cons; auto|]).
    split; [done|]. right. exists idem. split_and!; try done.
    intros Hempty. rewrite Hempty in Hk. done.
Qed.

(** The query of the replay check. *)
Definition replay_query ctx (key : string) : QueryDecisionOutcomeRequest :=
  {| qd_tenant_id := dc_tenant_id ctx; qd_decision_id := EmptyString; qd_idempotency_key := key |}.

Lemma lcalls_query t1 q ans t2 : Forall (ev_sat quiet) t1 ->
  lcalls (t1 ++ Ev (QueryDecisionOutcome q) ans :: t2) =
    (reserves t2, denials t2, (q, ans) :: queries t2, commits t2, releases t2).
Proof. intros Hq. by rewrite lcalls_silent by (by apply quiet_silent). Qed.

(** How a transaction can end: refused before any call, on the metered lane,
    by a replay, or by what the stages after the replay check recorded. *)
Inductive transacted (cfg : SidecarConfig) ctx req (t : list (event sidecarE))
    (r : result DomainError DecisionOutput) : Prop :=
  | tr_refused : Forall (ev_sat quiet) t -> is_err r -> transacted cfg ctx req t r
  | tr_metered now decision_id event_id :
      dr_reservation_source req = RESERVATION_SOURCE_SUBSCRIPTION_METER ->
      allow_untrusted_subscription_meter cfg = true -> Forall (ev_sat quiet) t ->
      r = Ok (route_decision_request uuid_bytes (dc_tenant_id ctx) decision_id event_id now req) ->
      transacted cfg ctx req t r
  | tr_replayed idem t1 ans :
      dr_idempotency req = Some idem -> Forall (ev_sat quiet) t1 ->
      t = t1 ++ [Ev (QueryDecisionOutcome (replay_query ctx (idem_key idem))) ans] ->
      r = (resp ← ans; require stage_recorded (qo_stage resp) else DecisionStage EmptyString;
           replay_output ctx req (idempotency_request_fingerprint_hex ctx req) resp) ->
      transacted cfg ctx req t r
  | tr_decided idem t1 t2 resp :
      dr_idempotency req = Some idem -> Forall (ev_sat quiet) t1 ->
      t = t1 ++ Ev (QueryDecisionOutcome (replay_query ctx (idem_key idem))) (Ok resp) :: t2 ->
      stage_recorded (qo_stage resp) = false ->
      recorded cfg ctx req (idem_key idem) (idempotency_request_fingerprint_hex ctx req) t2 r ->
      transacted cfg ctx req t r.

Lemma run_transacted cfg ctx req t r :
  exec (run_through_reserve cfg ctx req) t r -> transacted cfg ctx req t r.
Proof.
  intros [[Hq Hr]|(t1 & t2 & v & n & -> & Hq & _ & _ & _ & _ &
    [(Hs & Ha & Hq2 & now & did & eid & ->)|(idem & Hs & Hi & Hk & He)])]%gates_cases.
  - by constructor 1.
  - eapply tr_metered; try done. by apply Forall_app.
  - apply replay_inv in He as (ans & t' & -> & Hans). destruct ans as [resp|e].
    + destruct (stage_recorded (qo_stage resp)) eqn:Hst.
      * assert (t' = [] /\ r = replay_output ctx req (idempotency_request_fingerprint_hex ctx req) resp)
          as [-> ->].
        { destruct (replay_output _ _ _ _) as [o|e']; cbn in Hans; destruct Hans as [-> ->]; done. }
        eapply (tr_replayed _ _ _ _ _ idem t1 (Ok resp)); try done.
        unfold mbind, result_bind at 1. by rewrite Hst.
      * eapply tr_decided; try done. by apply decide_recorded.
    + destruct Hans as [-> ->]. by eapply (tr_replayed _ _ _ _ _ idem t1 (Err e)).
Qed.

Lemma replay_output_ok ctx req fp resp out :
  replay_output ctx req fp resp = Ok out ->
  qo_request_fingerprint_hex resp = fp /\ fp <> EmptyString /\
  uuid_parse (qo_decision_id resp) = Some (do_decision_id out) /\
  do_ledger_transaction_id out = qo_ledger_transaction_id resp /\
  (do_decision out = Continue <-> qo_operation_kind resp = "reserve") /\
  (do_decision out <> Continue -> qo_operation_kind resp = "denied_decision") /\
  do_reservation_ids out = (if decide (do_decision out = Continue) then qo_projection_ids resp else []).
Proof.
  unfold replay_output. intros Hr. mon_inv Hr. apply String.eqb_eq in E0 as <-.
  unfold parse_replay_uuid in *. apply ok_or_ok in E1. cbn.
  assert (Hk : (v3 = Continue <-> qo_operation_kind resp = "reserve") /\
               (v3 <> Continue -> qo_operation_kind resp = "denied_decision")).
  { revert E3. unfold replay_decision_kind.
    destruct (qo_operation_kind resp =?s "reserve") eqn:Hk.
    { apply String.eqb_eq in Hk. intros [= <-]. done. }
    apply String.eqb_neq in Hk. destruct (_ =?s "denied_decision") eqn:Hk2; [|done].
    apply String.eqb_eq in Hk2. intros Hd. split; [|done]. split; [|done]. intros ->.
    cbn in Hd. repeat case_match; simplify_eq. }
  destruct Hk as [Hk1 Hk2]. split_and!; try done.
  - intros Hemp. by rewrite Hemp in E.
  - destruct (decide (v3 = Continue)) as [Hc|Hc].
    + by apply Hk1, String.eqb_eq in Hc as ->.
    + destruct (_ =?s "reserve") eqn:He; [|done]. apply String.eqb_eq in He. tauto.
Qed.

(** An answer of the ledger that a reservation stands behind. *)
Definition reserved_answer (ans : result DomainError (option (Outcome ReserveSetSuccess))) : Prop :=
  exists o, ans = Ok (Some o) /\ match o with Failure _ => False | _ => True end.

Definition denied_answer (ans : result DomainError (option (Outcome RecordDeniedDecisionSuccess))) : Prop :=
  exists o, ans = Ok (Some o) /\ match o with Failure _ => False | _ => True end.

Lemma denial_result_ok st d rc eh ans out :
  denial_result st d rc eh ans (Ok out) -> denied_answer ans /\ do_decision out = d /\ do_reservation_ids out = [].
Proof.
  destruct ans as [[[s|p|e]|]|e]; cbn.
  - intros [= ->]. split; [|done]. by eexists.
  - intros [[? [=]]|(a & b & _ & [= ->])]. split; [|done]. by eexists.
  - by intros [? [=]].
  - by intros [? [=]].
  - by intros [? [=]].
Qed.

Lemma reserve_result_ok st rc ans out :
  reserve_result st rc ans (Ok out) -> reserved_answer ans /\ do_decision out = Continue.
Proof.
  destruct ans as [[[s|p|e]|]|e]; cbn.
  - intros (o & [= ->] & ? & _). split; [|done]. by eexists.
  - intros [[? [=]]|(o & [= ->] & ? & _)]. split; [|done]. by eexists.
  - by intros [? [=]].
  - by intros [? [=]].
  - by intros [? [=]].
Qed.

Lemma build_budget_claims_ok req claims :
  build_budget_claims req = Ok claims -> claims <> [] /\ exists i, dr_inputs req = Some i /\ in_projected_claims i = claims.
Proof.
  unfold build_budget_claims. intros Hb. apply result_bind_ok in Hb as (i & Hi%ok_or_ok & Hb).
  destruct (in_projected_claims i) eqn:Hc; [done|]. simplify_eq. eauto.
Qed.

Lemma no_decide {A} (r : result DomainError A) a : is_err r -> r = Ok a -> False.
Proof. by intros [e ->]. Qed.

(** The projector's answer does not object: it names no run code, unless the bundle
    only shadows. *)
Definition raises_no_code (contract : Contract) (p : ProjectResponse) : Prop :=
  pr_emitted_code p ∈ ["RUN_BUDGET_PROJECTION_EXCEEDED"; "RUN_DRIFT_DETECTED"; "RUN_STEPS_EXCEEDED"] ->
  c_prediction_policy contract = ShadowOnly.

(** The answer of the ledger is a reservation, and the one that [out] names. *)
Definition backs (ans : result DomainError (option (Outcome ReserveSetSuccess))) (out : DecisionOutput) : Prop :=
  match ans with
  | Ok (Some (Success s)) =>
      do_reservation_ids out = rv_reservation_id <$> rs_ok_reservations s /\
      do_ledger_transaction_id out = rs_ok_ledger_transaction_id s
  | Ok (Some (Replayed p)) =>
      do_reservation_ids out = rp_projection_ids p /\ do_ledger_transaction_id out = rp_ledger_transaction_id p
  | _ => False
  end.

Lemma reserve_result_backs st rc ans out : reserve_result st rc ans (Ok out) -> backs ans out.
Proof.
  destruct ans as [[[s|p|e]|]|e]; cbn; [| |by intros [? [=]]..].
  - by intros (o & [= ->] & _ & _ & ?).
  - by intros [[? [=]]|(o & [= ->] & _ & _ & ?)].
Qed.

Lemma combine_continue contract claims proj :
  o_decision (combine_outcomes contract (evaluate contract claims) proj) = Continue ->
  (forall claim rule, claim ∈ claims -> rule ∈ c_rules contract -> applies claim rule ->
     says rule ∈ [Continue; Unspecified]) /\
  (forall p, proj = Some p -> raises_no_code contract p).
Proof.
  intros Hc. assert (Hmax : forall o, o_decision (merge_outcomes (evaluate contract claims) o) = Continue ->
    restrictiveness (o_decision (evaluate contract claims)) <= restrictiveness Continue /\
    restrictiveness (o_decision o) <= restrictiveness Continue).
  { intros o Ho. pose proof (merge_decision (evaluate contract claims) o) as Hm.
    unfold merge_outcomes in Ho. rewrite Ho in Hm. lia. }
  unfold combine_outcomes in Hc. split.
  - apply evaluate_lets. destruct proj as [p|]; [|rewrite Hc; lia].
    destruct (is_empty _); [rewrite Hc; lia|].
    destruct (apply_projector_code _ _) as [o|]; [by apply Hmax in Hc as [? _]|rewrite Hc; lia].
  - intros p -> Hin.
    assert (Hcode : exists code, pr_emitted_code p = Contract.run_code_as_str code).
    { rewrite !elem_of_cons, elem_of_nil in Hin. destruct Hin as [->|[->|[->|[]]]];
        [by exists BudgetProjectionExceeded|by exists DriftDetected|by exists StepsExceeded]. }
    destruct Hcode as [code Hcode]. rewrite Hcode in Hc.
    replace (is_empty _) with false in Hc by (by destruct code).
    destruct (apply_projector_code _ _) as [o|] eqn:Ho; unfold apply_projector_code in Ho;
      rewrite run_code_roundtrip in Ho; [|done].
    apply Hmax in Hc as [_ Hc]. injection Ho as <-. cbn in Hc.
    destruct (c_prediction_policy contract); cbn in Hc; [lia..|done].
Qed.


(** The ledger recorded the denial, and [out] names what it recorded. *)
Definition denied_as (ans : result DomainError (option (Outcome RecordDeniedDecisionSuccess)))
    (out : DecisionOutput) : Prop :=
  match ans with
  | Ok (Some (Success s)) =>
      do_ledger_transaction_id out = rd_ok_ledger_transaction_id s /\
      do_approval_request_id out = rd_ok_approval_id s
  | Ok (Some (Replayed p)) =>
      do_ledger_transaction_id out = rp_ledger_transaction_id p /\
      uuid_parse (rp_decision_id p) = Some (do_decision_id out)
  | _ => False
  end.

Lemma denial_result_as st d rc eh ans out : denial_result st d rc eh ans (Ok out) -> denied_as ans out.
Proof.
  destruct ans as [[[s|p|e]|]|e]; cbn; [| |by intros [? [=]]..].
  - by intros [= ->].
  - by intros [[? [=]]|(a & b & ? & [= ->])].
Qed.

Lemma denied_label d s :
  denied_decision_label d = Some s ->
  (d, s) ∈ [(Stop, "STOP"); (StopRunProjection, "STOP"); (RequireApproval, "REQUIRE_APPROVAL");
            (Degrade, "DEGRADE"); (Skip, "SKIP")].
Proof. destruct d; intros [= <-]; set_solver. Qed.

Lemma denial_recorded cfg ctx req key fp t t2 out st f comb d rc rq ans eh :
  staged cfg ctx req key fp t2 st f comb -> denial_request cfg ctx st d rc rq -> denial_signed cfg t2 rq ->
  denial_result st d rc eh ans (Ok out) -> t2 ⊆ t ->
  do_reservation_ids out = [] /\ do_decision out = d /\ rd_reason_codes rq = rc /\
  exists inputs ce, denied_as ans out /\ dr_inputs req = Some inputs /\
    (do_decision out, rd_final_decision rq) ∈
      [(Stop, "STOP"); (StopRunProjection, "STOP"); (RequireApproval, "REQUIRE_APPROVAL");
       (Degrade, "DEGRADE"); (Skip, "SKIP")] /\
    rd_attempted_claims rq = in_projected_claims inputs /\ rd_tenant_id rq = dc_tenant_id ctx /\
    rd_idempotency rq = Some {| idem_key := key; idem_request_hash := EmptyString |} /\
    rd_audit_event rq = Some ce /\ ce_signing_key_id ce = signer_key_id cfg /\
    (exists unsigned, Ev (Sign unsigned) (Ok (ce_producer_signature ce)) ∈ t /\
       unsigned = with_signing_key (signer_key_id cfg) EmptyString ce /\
       ce_id unsigned = ce_id ce /\ ce_data unsigned = ce_data ce) /\
    (is_Some (rd_decision_context_json rq) <-> do_decision out = RequireApproval).
Proof.
  intros Hg Hrq (ce & Hce & Hkid & Hsig) Hr Ht.
  pose proof (denial_result_ok _ _ _ _ _ _ Hr) as (_ & Hdec & Hids). apply denial_result_as in Hr.
  destruct Hrq as (Hlab & Htn & _ & Hkey & Hcl & Hrc & _ & _ & Happ & _).
  pose proof (sg_claims _ _ _ _ _ _ _ _ _ Hg) as (Hne & i & Hin & Hcl')%build_budget_claims_ok.
  split; [done|]. split; [done|]. split; [done|]. exists i, ce.
  rewrite Hdec, Hcl, Hcl', Hkey, (sg_key _ _ _ _ _ _ _ _ _ Hg). split_and!; try done; [by apply denied_label|].
  eexists. split; [apply Ht, Hsig|]. done.
Qed.


Lemma reserves_lcalls t x : lcalls t = x -> reserves t = x.1.1.1.1.
Proof. by intros <-. Qed.
Lemma denials_lcalls t x : lcalls t = x -> denials t = x.1.1.1.2.
Proof. by intros <-. Qed.

(** An error leaves nothing behind. When a transaction fails, no ReserveSet
    of it was
    answered with a new reservation and no denial of it was newly recorded. *)
Theorem error_holds_nothing cfg ctx req t e :
  exec (run_through_reserve cfg ctx req) t (Err e) ->
  (forall rq s, (rq, Ok (Some (Success s))) ∉ reserves t) /\
  (forall rq s, (rq, Ok (Some (Success s))) ∉ denials t).
Proof.
  intros Ht%run_transacted. destruct Ht as
    [Hq _|now did eid Hs Ha Hq [=]|idem t1 ans Hi Hq -> Hr|idem t1 t2 resp Hi Hq -> Hst Hrec].
  - apply quiet_silent, silent_calls in Hq as (-> & -> & _). split; set_solver.
  - rewrite (reserves_lcalls _ _ (lcalls_query t1 _ ans [] Hq)),
      (denials_lcalls _ _ (lcalls_query t1 _ ans [] Hq)). split; set_solver.
  - rewrite (reserves_lcalls _ _ (lcalls_query t1 _ (Ok resp) t2 Hq)),
      (denials_lcalls _ _ (lcalls_query t1 _ (Ok resp) t2 Hq)). cbn.
    destruct Hrec as [Hl _|st f comb rq ans Hg Hd Hl Hrq _ [eh Hr]|st f comb rq ans Hg Hd Hl _ Hr
                     |st f comb rq ans rc' rq' ans' Hg Hd [? [-> _]] Hrc Hl _ Hrq _ [eh Hr]];
      rewrite (reserves_lcalls _ _ Hl), (denials_lcalls _ _ Hl); cbn.
    + split; set_solver.
    + split; [set_solver|]. intros rq0 s [= -> <-]%list_elem_of_singleton. discriminate Hr.
    + split; [|set_solver]. intros rq0 s [= -> <-]%list_elem_of_singleton. by destruct Hr as (? & ? & _).
    + split; intros rq0 s [=]%list_elem_of_singleton. subst. discriminate Hr.
Qed.

Lemma prefix_quiet_bind {A B} (m : handler A) (f : A -> handler B) t :
  all_effects quiet m -> prefix (m ≫= f) t ->
  Forall (ev_sat quiet) t \/
  (exists t1 t2 a, t = t1 ++ t2 /\ Forall (ev_sat quiet) t1 /\ exec m t1 (Ok a) /\ prefix (f a) t2).
Proof.
  intros Hq [Hm|(t1 & t2 & a & -> & Hm & Hf)]%prefix_bind.
  - left. by eapply all_effects_prefix.
  - right. exists t1, t2, a. split; [done|]. split; [by eapply all_effects_exec|done].
Qed.

Lemma prefix_lift_bind {A B} (x : result DomainError A) (f : A -> handler B) t :
  prefix (lift_ x ≫= f) t -> t = [] \/ exists a, x = Ok a /\ prefix (f a) t.
Proof.
  intros [->%prefix_lift|(t1 & t2 & a & -> & [-> <-]%exec_lift_ & Hf)]%prefix_bind; [by left|].
  right. by exists a.
Qed.

Lemma quiet_split (a b c d : list (event sidecarE)) ev :
  Forall (ev_sat quiet) a -> ~ ev_sat quiet ev -> a ++ b = c ++ ev :: d ->
  exists c', c = a ++ c' /\ b = c' ++ ev :: d.
Proof.
  intros Hq Hev. revert c. induction Hq as [|e a He Hq IH]; intros c Heq; [by exists c|].
  destruct c as [|e' c]; injection Heq as -> Heq; [done|].
  apply IH in Heq as (c' & -> & ->). by exists c'.
Qed.

Lemma gates_prefix cfg ctx req t :
  prefix (run_through_reserve cfg ctx req) t ->
  Forall (ev_sat quiet) t \/
  exists t1 t2 verified now idem, t = t1 ++ t2 /\ Forall (ev_sat quiet) t1 /\
    Ev IsDraining false ∈ t1 /\ Ev ReadManifestVerifiedAt (Some verified) ∈ t1 /\ Ev Now now ∈ t1 /\
    num_seconds (now - verified) <= i64_wrap (critical_max_stale_seconds cfg) /\
    dr_idempotency req = Some idem /\ idem_key idem <> EmptyString /\
    prefix (replay ← replay_existing_decision_by_idempotency ctx req (idem_key idem)
                       (idempotency_request_fingerprint_hex ctx req);
            match replay with
            | Some replay => mret replay
            | None => decide_and_record cfg ctx req (idem_key idem)
                        (idempotency_request_fingerprint_hex ctx req)
            end) t2.
Proof.
  unfold run_through_reserve. intros He.
  apply prefix_quiet_bind in He as [Hq|(t1 & t2 & d & -> & Hq1 & (? & -> & [= <-])%exec_act_ & He)];
    [by left| |auto with quiet].
  apply prefix_lift_bind in He as [->|(v & Hd%ensure_ok & He)]; [left; by rewrite app_nil_r|].
  destruct d; [done|].
  apply prefix_quiet_bind in He as [Hq|(t1 & t3 & u & -> & Hs & Hfresh & He)];
    [left; by apply Forall_app| |apply freshness_quiet].
  apply freshness_ok in Hfresh as (verified & now & Hv & Hn & Hage).
  assert (Hq : Forall (ev_sat quiet) ([Ev IsDraining false] ++ t1)) by (by apply Forall_app).
  rewrite app_assoc.
  destruct (_ =? _) eqn:Hsrc.
  { left. apply Forall_app. split; [done|]. eapply all_effects_prefix; [|done]. apply subscription_quiet. }
  apply prefix_lift_bind in He as [->|(idem & Hi%ok_or_ok & He)]; [left; by rewrite app_nil_r|].
  apply prefix_lift_bind in He as [->|(w & Hk%ensure_ok & He)]; [left; by rewrite app_nil_r|].
  right. exists ([Ev IsDraining false] ++ t1), t3, verified, now, idem.
  split; [done|]. split; [done|]. do 3 (split; [cbn; rewrite elem_of_cons; auto|]).
  split_and!; try done. intros Hempty. by rewrite Hempty in Hk.
Qed.

(** The gates come first. Whatever other handlers do meanwhile, a
    transaction makes no call to the ledger or the projector before it found the
    sidecar not draining and the manifest verified within its staleness bound;
    its first call asks the ledger for the outcome recorded under its nonempty
    idempotency key, and it calls anything else only after the ledger answered
    that nothing is recorded. *)
Theorem gates_first cfg ctx req t1 ev t2 :
  prefix (run_through_reserve cfg ctx req) (t1 ++ ev :: t2) -> ~ ev_sat quiet ev ->
  Ev IsDraining false ∈ t1 /\
  (exists verified now, Ev ReadManifestVerifiedAt (Some verified) ∈ t1 /\ Ev Now now ∈ t1 /\
     num_seconds (now - verified) <= i64_wrap (critical_max_stale_seconds cfg)) /\
  exists idem, dr_idempotency req = Some idem /\ idem_key idem <> EmptyString /\
    ((exists ans, ev = Ev (QueryDecisionOutcome (replay_query ctx (idem_key idem))) ans) \/
     exists resp, Ev (QueryDecisionOutcome (replay_query ctx (idem_key idem))) (Ok resp) ∈ t1 /\
       stage_recorded (qo_stage resp) = false).
Proof.
  intros Hp Hev. assert (Hloud : ~ Forall (ev_sat quiet) (t1 ++ ev :: t2)).
  { rewrite Forall_app, Forall_cons. tauto. }
  apply gates_prefix in Hp as [|(a & b & v & n & idem & Heq & Hq & Hd & Hv & Hn & Hage & Hi & Hk & Hp)]; [done|].
  symmetry in Heq. apply quiet_split in Heq as (c & -> & ->); [|done..].
  split; [by apply elem_of_app; left|]. split.
  { exists v, n. split; [by apply elem_of_app; left|]. split; [by apply elem_of_app; left|done]. }
  exists idem. split; [done|]. split; [done|].
  assert (Hfirst : exists ans c', c ++ ev :: t2 =
    Ev (QueryDecisionOutcome (replay_query ctx (idem_key idem))) ans :: c' /\
    (c' = [] \/ exists resp, ans = Ok resp /\ stage_recorded (qo_stage resp) = false)).
  { destruct Hp as [Hx|(ans & c' & Hx & Hp)]; [by destruct c|]. exists ans, c'. split; [done|].
    destruct ans as [resp|e]; cbn in Hp; [|left; naive_solver].
    destruct (stage_recorded (qo_stage resp)) eqn:Hst; [|right; by exists resp].
    left. cbn in Hp. destruct (replay_output _ _ _ _); cbn in Hp; naive_solver. }
  destruct Hfirst as (ans & c' & Hx & Hc'). destruct c as [|e0 c]; injection Hx as -> Hx.
  - left. by exists ans.
  - right. destruct Hc' as [->|(resp & -> & Hst)]; [by destruct c|].
    exists resp. split; [|done]. apply elem_of_app. right. by left.
Qed.

End Decision.

#[export] Hint Resolve sign_quiet freshness_quiet read_fencing_quiet check_active_quiet budget_quiet
  approval_quiet populate_quiet subscription_quiet : quiet.
#[export] Hint Extern 1 (all_effects quiet (act_ _)) => (split; [exact I|done]) : quiet.
#[export] Hint Extern 1 (all_effects quiet (lift_ _)) => exact I : quiet.

(** Quiet steps satisfy a guard on one kind of call. *)
Ltac up_quiet :=
  apply upholds_bind;
  [apply (upholds_all quiet); [intros ? ? [] ? ?; cbn in *; try done; intros; simplify_eq|auto with quiet]
  |let t := fresh "t" in let a := fresh "a" in let Ha := fresh "Ha" in let Hq := fresh "Hq" in
   intros t a Ha; eassert (Hq : Forall (ev_sat quiet) t)
     by (eapply all_effects_exec, Ha; auto with quiet)].

(** Decides [all_effects] for a predicate that quiet effects satisfy. *)
Ltac eff_all :=
  repeat first
    [ progress intros
    | solve [eapply all_effects_weaken; [|solve [auto with quiet]]; intros ? []; done]
    | apply all_effects_bind
    | match goal with |- all_effects _ (match ?x with _ => _ end) => destruct x end
    | exact I
    | split; [exact I|] ].

(** ** Witnesses *)
Module DecisionDemo.
Import Demo CalendarDemo.

#[export] Instance demo_prost : ProstLib := {| encode_request := dr_session_id |}.

Definition cfg : SidecarConfig :=
  {| allow_untrusted_subscription_meter := false; critical_max_stale_seconds := 300;
     reservation_ttl_seconds := 600; allow_untrusted_budget_metadata := false;
     run_cost_projector_configured := true; signer_key_id := "key-1"; cfg_tenant_id := "t1";
     cfg_workload_instance_id := "w1"; cfg_region := "eu" |}.

Definition ctx : DecisionContext :=
  {| dc_session_id := "s1"; dc_workload_instance_id := "w1"; dc_tenant_id := "t1"; dc_region := "eu" |}.

Definition usd : UnitRef :=
  {| unit_id := "uusd"; unit_kind := KIND_MONETARY; token_kind := EmptyString; model_family := "m" |}.

Definition claim (amount : string) : BudgetClaim :=
  {| bc_budget_id := "ub"; bc_unit := Some usd; bc_amount_atomic := amount;
     bc_direction := DIRECTION_DEBIT; bc_window_instance_id := "uw" |}.

Definition request (amount : string) : DecisionRequest :=
  {| dr_session_id := "s1"; dr_trigger := 1; dr_ids := None; dr_route := "llm.call";
     dr_inputs := Some {| in_projected_claims := [claim amount]; in_projected_unit := Some usd;
                          in_runtime_metadata := None; in_claim_estimate := None |};
     dr_idempotency := Some {| idem_key := "k1"; idem_request_hash := EmptyString |};
     dr_planned_steps_hint := 0; dr_reservation_source := 0 |}.

(** A budget's rule that stops claims above 100. *)
Definition bundle : CachedContractBundle :=
  {| cb_bundle_id := uuid_nil; cb_bundle_hash := "h"; cb_signing_key_id := "key-0";
     cb_pricing_version := "p1"; cb_price_snapshot_hash := "ph"; cb_fx_rate_version := "f1";
     cb_unit_conversion_version := "c1";
     cb_parsed :=
       {| c_id := uuid_nil; c_name := "demo"; c_budgets := [];
          c_rules := [{| r_id := "r1";
                         r_when := {| w_budget_id := "b"; claim_amount_atomic_gt := Some "100";
                                      claim_amount_atomic_gte := None |};
                         r_then := {| a_decision := Stop; a_reason_code := "TOO_MUCH";
                                      a_approver_role := None |};
                         r_run_projection_action := BlockNextCall |}];
          c_prediction_policy := StrictCeiling; c_api_version := "spendguard.ai/v1alpha1" |} |}.

Definition fence : ActiveFencing :=
  {| af_scope_id := uuid_nil; af_epoch := 7; af_acquired_at := 0; af_renewed_at := 0;
     af_ttl_expires_at := secs 1000 |}.

Definition not_recorded : QueryDecisionOutcomeResponse :=
  {| qo_stage := 1; qo_ledger_transaction_id := EmptyString; qo_audit_decision_event_id := EmptyString;
     qo_decision_id := EmptyString; qo_operation_kind := EmptyString; qo_operation_id := EmptyString;
     qo_projection_ids := []; qo_ttl_expires_at := None; qo_final_decision := EmptyString;
     qo_matched_rule_ids := []; qo_reason_codes := []; qo_run_code_triggered := EmptyString;
     qo_request_fingerprint_hex := EmptyString |}.

Definition reservation : Reservation :=
  {| rv_reservation_id := "ur1"; rv_budget_id := "ub"; rv_window_instance_id := "uw";
     rv_unit := Some usd; rv_amount_atomic := "50"; rv_ttl_expires_at := None |}.

(** An environment whose ledger reserves unless its budget is [spent]. *)
Definition answer (spent : bool) (X : Type) (e : sidecarE X) : X :=
  match e in sidecarE X return X with
  | IsDraining => false
  | ReadManifestVerifiedAt => Some (secs 90)
  | ReadContractBundle => Some bundle
  | ReadSchemaBundle => None
  | ReadFencing => Some fence
  | NextProducerSequence => 41
  | ReservationGet _ => None
  | ReservationInsert _ => tt
  | ReservationRemove _ => tt
  | IndexGet _ => None
  | IndexInsert _ _ => tt
  | IndexRemove _ => tt
  | SignatureStore _ _ _ _ => tt
  | SignatureLookup _ _ => None
  | Now => secs 100
  | NewUuid => uuid_nil
  | Sign _ => Ok "sig"
  | Project _ => Err (LedgerClient "projector down")
  | QueryDecisionOutcome _ => Ok not_recorded
  | QueryBudgetState _ => Ok {| qb_available_atomic := "1000" |}
  | ReserveSet _ =>
      Ok (Some (if spent
                then Failure {| pe_code := 5; pe_message := "floor"; pe_summary := EmptyString |}
                else Success {| rs_ok_ledger_transaction_id := "tx1"; rs_ok_reservation_set_id := "set1";
                                rs_ok_reservations := [reservation];
                                rs_ok_audit_decision_event_id := EmptyString |}))
  | RecordDeniedDecision _ =>
      Ok (Some (Success {| rd_ok_ledger_transaction_id := "tx2"; rd_ok_approval_id := EmptyString |}))
  | CommitEstimated _ => Ok None
  | Release _ => Ok None
  | QueryReservationContext _ => Ok None
  end.

Definition outcome (spent : bool) (amount : string) : list (event sidecarE) * result DomainError DecisionOutput :=
  run (answer spent) (run_through_reserve cfg ctx (request amount)).

Definition the_output (r : result DomainError DecisionOutput) : DecisionOutput :=
  match r with
  | Ok o => o
  | Err _ => {| do_decision_id := uuid_nil; do_audit_decision_event_id := uuid_nil;
                do_effect_hash := EmptyString; do_decision := Unspecified;
                do_reservation_set_id := EmptyString; do_reservation_ids := [];
                do_ledger_transaction_id := EmptyString; do_approval_request_id := EmptyString;
                do_ttl_expires_at := None; do_matched_rule_ids := []; do_reason_codes := [];
                do_run_code_triggered := EmptyString; do_subscription_meter := None |}
  end.

Lemma outcome_exec spent amount r :
  (outcome spent amount).2 = r ->
  exec (run_through_reserve cfg ctx (request amount)) (outcome spent amount).1 r.
Proof. intros <-. apply run_exec. Qed.



(** The budget is spent: the same claim is stopped, nothing is reserved. *)
Example spent_budget_stops :
  do_decision (the_output (outcome true "50").2) = Stop /\
  length (reserves (outcome true "50").1) = 1%nat /\ length (denials (outcome true "50").1) = 1%nat.
Proof. vm_compute. auto. Qed.

(** A request without claims fails. *)
Definition empty_request : DecisionRequest :=
  {| dr_session_id := "s1"; dr_trigger := 1; dr_ids := None; dr_route := "llm.call"; dr_inputs := None;
     dr_idempotency := Some {| idem_key := "k1"; idem_request_hash := EmptyString |};
     dr_planned_steps_hint := 0; dr_reservation_source := 0 |}.

Lemma error_holds_nothing_witness :
  (run (answer false) (run_through_reserve cfg ctx empty_request)).2
    = Err (InvalidRequest "DecisionRequest.inputs required") /\
  forall rq s, (rq, Ok (Some (Success s))) ∉
    reserves (run (answer false) (run_through_reserve cfg ctx empty_request)).1.
Proof.
  split; [vm_compute; reflexivity|].
  apply (error_holds_nothing cfg ctx empty_request _ (InvalidRequest "DecisionRequest.inputs required")).
  apply (run_exec (answer false) (run_through_reserve cfg ctx empty_request)).
Defined.

Lemma gates_first_witness :
  exists t1 ev t2, (outcome false "50").1 = t1 ++ ev :: t2 /\ ~ ev_sat quiet ev /\ Ev IsDraining false ∈ t1.
Proof.
  exists (take 3 (outcome false "50").1),
    (Ev (QueryDecisionOutcome (replay_query ctx "k1")) (Ok not_recorded)), (drop 4 (outcome false "50").1).
  assert (Heq : (outcome false "50").1 = take 3 (outcome false "50").1
    ++ Ev (QueryDecisionOutcome (replay_query ctx "k1")) (Ok not_recorded) :: drop 4 (outcome false "50").1)
    by (vm_compute; reflexivity).
  assert (Hev : ~ ev_sat quiet (Ev (QueryDecisionOutcome (replay_query ctx "k1")) (Ok not_recorded)))
    by (intros []).
  split; [exact Heq|]. split; [exact Hev|].
  refine (proj1 (gates_first cfg ctx (request "50") _ _ (drop 4 (outcome false "50").1) _ Hev)).
  rewrite <- Heq. eapply exec_prefix. apply outcome_exec. reflexivity.
Defined.

End DecisionDemo.
