(* ===== verification/Settle.v ===== *)
(** * Commit and release

    [services/sidecar/src/decision/transaction.rs], the second half: the lookup
    of a reservation's context (cache, else ledger), the commit of an estimated
    amount, and the release of a reservation with the replay of its signature. *)

From S2P Require Import Prelude Floats Deps Effects Proto Contract SubMeter Sidecar Decision.

Definition RELEASE_SIGNATURE_CACHE_MIN_TTL_SECONDS : Z := 600.
Definition RELEASE_SIGNATURE_CACHE_MAX_TTL_SECONDS : Z := 3600.

Inductive ReleaseReason := RuntimeError | RunAborted | Explicit.

Definition release_reason_number (r : ReleaseReason) : Z :=
  match r with RuntimeError => 2 | RunAborted => 3 | Explicit => 4 end.

Definition release_reason_as_str (r : ReleaseReason) : string :=
  match r with
  | RuntimeError => "RUNTIME_ERROR" | RunAborted => "RUN_ABORTED" | Explicit => "EXPLICIT"
  end.

Record CommitEstimatedOutput := {
  co_ledger_transaction_id : string;
  co_reservation_id : string;
  co_delta_to_reserved_atomic : string;
}.

Record ReleaseOutput := {
  ro_ledger_transaction_id : string;
  ro_released_reservation_ids : list string;
  ro_audit_event_signature : string;
}.

Definition release_signature_cache_ttl_seconds (cfg : SidecarConfig) : Z :=
  clamp RELEASE_SIGNATURE_CACHE_MIN_TTL_SECONDS RELEASE_SIGNATURE_CACHE_MAX_TTL_SECONDS
    (reservation_ttl_seconds cfg).

Definition release_signature_cache_key (tenant_id ledger_idempotency_key : string) : string :=
  tenant_id +:+ ":" +:+ ledger_idempotency_key.

Section Settle.
Context `{UuidLib, BigIntLib, CryptoLib, !UuidBytes, ProstLib, ChronoLib, Calendar}.
Implicit Types (ctx : DecisionContext).

Definition parse_internal (what raw : string) : result DomainError uuid :=
  ok_or (uuid_parse raw) (Internal what).

(** The context the ledger answered with. *)
Definition parse_reservation_context (c : ReservationContext) : result DomainError ReservationCtx :=
  budget_id ← parse_internal "budget_id" (rc_budget_id c);
  window_instance_id ← parse_internal "window_instance_id" (rc_window_instance_id c);
  unit_id ← parse_internal "unit_id" (default EmptyString (unit_id <$> rc_unit c));
  let pricing {A} (f : PricingFreeze -> A) (d : A) : A :=
    match rc_pricing c with Some p => f p | None => d end in
  fencing_scope_id ← parse_internal "fencing_scope_id" (rc_fencing_scope_id c);
  decision_id ← parse_internal "decision_id" (rc_decision_id c);
  mret {| rx_tenant_id := rc_tenant_id c; rx_budget_id := budget_id;
          rx_window_instance_id := window_instance_id; rx_unit_id := unit_id;
          original_reserved_amount_atomic := rc_original_reserved_amount_atomic c;
          rx_pricing_version := pricing pf_pricing_version EmptyString;
          rx_price_snapshot_hash := pricing pf_price_snapshot_hash EmptyString;
          rx_fx_rate_version := pricing pf_fx_rate_version EmptyString;
          rx_unit_conversion_version := pricing pf_unit_conversion_version EmptyString;
          rx_fencing_scope_id := fencing_scope_id;
          fencing_epoch_at_post := rc_fencing_epoch_at_post c; rx_decision_id := decision_id;
          rx_ttl_expires_at :=
            default 0 (t ← rc_ttl_expires_at c; from_timestamp (seconds t) (u32_wrap (nanos t)));
          current_state := rc_current_state c |}.

Definition recover_reservation_ctx (tenant_id : string) (reservation_id : uuid) : handler ReservationCtx :=
  cached ← act_ (ReservationGet reservation_id);
  match cached with
  | Some c => mret c
  | None =>
      resp ← call_ (QueryReservationContext
        {| qr_tenant_id := tenant_id; qr_reservation_id := uuid_str reservation_id |});
      match resp with
      | Some (inl c) =>
          parsed ← lift_ (parse_reservation_context c);
          _ ← act_ (ReservationInsert [(reservation_id, parsed)]);
          mret parsed
      | Some (inr e) => lift_ (Err (map_proto_error_to_domain (pe_code e) (pe_message e)))
      | None => lift_ (Err (DecisionStage "QueryReservationContext empty oneof"))
      end
  end.

(** [reservation_cache.remove], then [decision_id_to_reservation.remove]. *)
Definition evict_reservation (reservation_id decision_id : uuid) : handler unit :=
  _ ← act_ (ReservationRemove reservation_id);
  act_ (IndexRemove decision_id).

(** ** Commit *)

(** The checks of the payload alone. *)
Definition check_post_payload (payload : LlmCallPostPayload) : result DomainError uuid :=
  require lp_outcome payload =? LLM_SUCCESS
    else (InvalidRequest "LLM_CALL_POST outcome requires Release path");
  require is_empty (lp_provider_reported_amount_atomic payload)
          || is_empty (lp_estimated_amount_atomic payload)
    else (InvalidRequest "estimated and provider_reported amounts are mutually exclusive");
  require is_empty (lp_provider_reported_amount_atomic payload)
    else (InvalidRequest "ProviderReport path is deferred");
  require negb (is_empty (lp_estimated_amount_atomic payload))
    else (InvalidRequest "LLM_CALL_POST.SUCCESS missing estimated_amount_atomic");
  ok_or (uuid_parse (lp_reservation_id payload)) (InvalidRequest "reservation_id parse").

Definition pricing_of_ctx (resv : ReservationCtx) : PricingFreeze :=
  {| pf_pricing_version := rx_pricing_version resv;
     pf_price_snapshot_hash := rx_price_snapshot_hash resv;
     pf_fx_rate_version := rx_fx_rate_version resv;
     pf_unit_conversion_version := rx_unit_conversion_version resv |}.

(** The checks of the payload against the reservation. *)
Definition check_against_reservation (payload : LlmCallPostPayload) (resv : ReservationCtx)
    : result DomainError unit :=
  require match lp_unit payload with
          | Some u => unit_id u =?s uuid_str (rx_unit_id resv)
          | None => true
          end
    else (InvalidRequest "payload.unit_id does not match reservation");
  require match lp_pricing payload with
          | Some p => bool_decide (p = pricing_of_ctx resv)
          | None => true
          end
    else (PricingFreezeMismatch "payload pricing tuple differs from original reservation");
  estimated ← ok_or (bigint_parse (lp_estimated_amount_atomic payload))
                (InvalidRequest "estimated_amount_atomic parse");
  original ← ok_or (bigint_parse (original_reserved_amount_atomic resv))
               (Internal "ctx original amount parse");
  require 0 <? estimated else (InvalidRequest "estimated_amount_atomic must be > 0");
  ensure (estimated <=? original) (OverrunReservation "estimated exceeds original_reserved").

Definition ratio_ok (v : option spec_float) : option spec_float :=
  v ← v; if f_is_finite v && f_ge v (f64_of_Z 0) then Some v else None.

Definition commit_payload (payload : LlmCallPostPayload) (reservation_id : uuid) (resv : ReservationCtx)
    : json :=
  let put k v o := match v with Some v => obj_insert k v o | None => o end in
  JObj (put "delta_c_ratio" (JFloat <$> ratio_ok (lp_delta_c_ratio payload))
       (put "delta_b_ratio" (JFloat <$> ratio_ok (lp_delta_b_ratio payload))
       (put "actual_output_tokens" (JInt <$> lp_actual_output_tokens payload)
       (put "actual_input_tokens" (JInt <$> lp_actual_input_tokens payload)
          [("kind", JStr "commit_estimated"); ("reservation_id", JStr (uuid_str reservation_id));
           ("estimated_amount_atomic", JStr (lp_estimated_amount_atomic payload));
           ("decision_id", JStr (uuid_str (rx_decision_id resv)))])))).

Definition with_actuals (payload : LlmCallPostPayload) (ce : CloudEvent) : CloudEvent :=
  {| ce_specversion := ce_specversion ce; ce_type := ce_type ce; ce_source := ce_source ce;
     ce_id := ce_id ce; ce_time := ce_time ce; ce_datacontenttype := ce_datacontenttype ce;
     ce_data := ce_data ce; ce_tenant_id := ce_tenant_id ce; ce_run_id := ce_run_id ce;
     ce_decision_id := ce_decision_id ce; ce_schema_bundle_id := ce_schema_bundle_id ce;
     ce_producer_id := ce_producer_id ce; ce_producer_sequence := ce_producer_sequence ce;
     ce_producer_signature := ce_producer_signature ce; ce_signing_key_id := ce_signing_key_id ce;
     ce_predicted_a_tokens := ce_predicted_a_tokens ce;
     ce_predicted_b_tokens := ce_predicted_b_tokens ce;
     ce_predicted_c_tokens := ce_predicted_c_tokens ce;
     ce_reserved_strategy := ce_reserved_strategy ce;
     ce_prediction_strategy_used := ce_prediction_strategy_used ce;
     ce_prediction_policy_used := ce_prediction_policy_used ce;
     ce_tokenizer_tier := ce_tokenizer_tier ce; ce_tokenizer_version_id := ce_tokenizer_version_id ce;
     ce_prediction_confidence := ce_prediction_confidence ce;
     ce_prediction_sample_size := ce_prediction_sample_size ce;
     ce_cold_start_layer_used := ce_cold_start_layer_used ce;
     ce_run_projection_at_decision_atomic := ce_run_projection_at_decision_atomic ce;
     ce_run_predicted_remaining_steps := ce_run_predicted_remaining_steps ce;
     ce_run_steps_completed_so_far := ce_run_steps_completed_so_far ce;
     ce_actual_input_tokens := default (ce_actual_input_tokens ce) (lp_actual_input_tokens payload);
     ce_actual_output_tokens := default (ce_actual_output_tokens ce) (lp_actual_output_tokens payload);
     ce_delta_b_ratio := default (ce_delta_b_ratio ce) (ratio_ok (lp_delta_b_ratio payload));
     ce_delta_c_ratio := default (ce_delta_c_ratio ce) (ratio_ok (lp_delta_c_ratio payload)) |}.

Definition run_commit_estimated (cfg : SidecarConfig) ctx (payload : LlmCallPostPayload)
    : handler CommitEstimatedOutput :=
  reservation_uuid ← lift_ (check_post_payload payload);
  resv ← recover_reservation_ctx (dc_tenant_id ctx) reservation_uuid;
  _ ← lift_ (ensure (current_state resv =?s "reserved")
               (ReservationStateConflict "reservation is not reserved"));
  fencing_state ← read_fencing;
  _ ← lift_ (ensure (af_epoch fencing_state =? fencing_epoch_at_post resv)
               (FencingEpochStale "current epoch differs from reserve-time epoch"));
  _ ← lift_ (check_against_reservation payload resv);
  producer_seq ← act_ NextProducerSequence;
  audit_outcome_event_id ← act_ NewUuid;
  now1 ← act_ Now;
  now2 ← act_ Now;
  cloudevent ← sign_cloudevent_in_place cfg
    (with_actuals payload
       (cloudevent_envelope ctx "spendguard.audit.outcome" (uuid_str audit_outcome_event_id) EmptyString
          (uuid_str (rx_decision_id resv)) EmptyString producer_seq (event_time now1 now2)
          (commit_payload payload reservation_uuid resv)));
  response ← call_ (CommitEstimated
    {| cr_tenant_id := dc_tenant_id ctx; cr_reservation_id := uuid_str reservation_uuid;
       cr_estimated_amount_atomic := lp_estimated_amount_atomic payload;
       cr_unit := Some {| unit_id := uuid_str (rx_unit_id resv); unit_kind := 0;
                          token_kind := EmptyString; model_family := EmptyString |};
       cr_idempotency :=
         Some {| idem_key := "commit_estimated:" +:+ uuid_str reservation_uuid +:+ ":1";
                 idem_request_hash := EmptyString |};
       cr_fencing := Some {| fc_epoch := af_epoch fencing_state;
                             fc_scope_id := uuid_str (rx_fencing_scope_id resv);
                             fc_workload_instance_id := dc_workload_instance_id ctx |};
       cr_pricing := Some (pricing_of_ctx resv); cr_audit_event := Some cloudevent;
       cr_decision_id := uuid_str (rx_decision_id resv); cr_producer_sequence := producer_seq |});
  match response with
  | Some (Success s) =>
      _ ← evict_reservation reservation_uuid (rx_decision_id resv);
      mret {| co_ledger_transaction_id := cs_ledger_transaction_id s;
              co_reservation_id := cs_reservation_id s;
              co_delta_to_reserved_atomic := cs_delta_to_reserved_atomic s |}
  | Some (Replayed r) =>
      _ ← evict_reservation reservation_uuid (rx_decision_id resv);
      mret {| co_ledger_transaction_id := rp_ledger_transaction_id r;
              co_reservation_id := uuid_str reservation_uuid;
              co_delta_to_reserved_atomic := EmptyString |}
  | Some (Failure e) => lift_ (Err (map_proto_error_to_domain (pe_code e) (pe_message e)))
  | None => lift_ (Err (DecisionStage "CommitEstimated response empty oneof"))
  end.

(** ** Release *)

Definition release_payload (reservation_id set_id : uuid) (resv : ReservationCtx) (reason : ReleaseReason)
    (metadata : option string) : json :=
  JObj [("kind", JStr "release"); ("reservation_id", JStr (uuid_str reservation_id));
        ("reservation_set_id", JStr (uuid_str set_id));
        ("decision_id", JStr (uuid_str (rx_decision_id resv)));
        ("reason", JStr (release_reason_as_str reason));
        ("metadata", JStr (default EmptyString metadata))].

Definition ledger_release_key (reservation_id : uuid) (override : option string) : string :=
  match override with
  | Some k => "release:" +:+ uuid_str reservation_id +:+ ":" +:+ k
  | None => "release:" +:+ uuid_str reservation_id +:+ ":1"
  end.

(** A release is checked against the fence unless it replays. *)
Definition fence_check (resv : ReservationCtx) (f : ActiveFencing) : handler unit :=
  if current_state resv =?s "released" then mret tt
  else _ ← check_active;
       lift_ (ensure (af_epoch f =? fencing_epoch_at_post resv)
                (FencingEpochStale "current epoch differs from reserve-time epoch")).

Definition run_release (cfg : SidecarConfig) ctx (reservation_uuid : uuid) (reason : ReleaseReason)
    (payload_metadata idempotency_key_override request_body_hash : option string)
    : handler ReleaseOutput :=
  resv ← recover_reservation_ctx (dc_tenant_id ctx) reservation_uuid;
  _ ← lift_ (ensure ((current_state resv =?s "reserved") || (current_state resv =?s "released"))
               (ReservationStateConflict "reservation is neither reserved nor released"));
  fencing_state ← read_fencing;
  _ ← fence_check resv fencing_state;
  producer_seq ← act_ NextProducerSequence;
  audit_outcome_event_id ← act_ NewUuid;
  let set_id := derive_reservation_set_id (rx_decision_id resv) in
  now1 ← act_ Now;
  now2 ← act_ Now;
  cloudevent ← sign_cloudevent_in_place cfg
    (cloudevent_envelope ctx "spendguard.audit.outcome" (uuid_str audit_outcome_event_id) EmptyString
       (uuid_str (rx_decision_id resv)) EmptyString producer_seq (event_time now1 now2)
       (release_payload reservation_uuid set_id resv reason payload_metadata));
  let key := ledger_release_key reservation_uuid idempotency_key_override in
  let cache_key := release_signature_cache_key (dc_tenant_id ctx) key in
  response ← call_ (Release
    {| rl_tenant_id := dc_tenant_id ctx; rl_reservation_set_id := uuid_str set_id;
       rl_idempotency := Some {| idem_key := key;
                                 idem_request_hash := default EmptyString request_body_hash |};
       rl_fencing := Some {| fc_epoch := af_epoch fencing_state;
                             fc_scope_id := uuid_str (rx_fencing_scope_id resv);
                             fc_workload_instance_id := dc_workload_instance_id ctx |};
       rl_reason := release_reason_number reason; rl_audit_event := Some cloudevent;
       rl_decision_id := uuid_str (rx_decision_id resv); rl_producer_sequence := producer_seq |});
  let out tx sig : ReleaseOutput :=
    {| ro_ledger_transaction_id := tx; ro_released_reservation_ids := [uuid_str reservation_uuid];
       ro_audit_event_signature := sig |} in
  match response with
  | Some (Success s) =>
      _ ← evict_reservation reservation_uuid (rx_decision_id resv);
      now ← act_ Now;
      _ ← act_ (SignatureStore cache_key (ce_producer_signature cloudevent) now
                  (release_signature_cache_ttl_seconds cfg));
      mret (out (rl_ok_ledger_transaction_id s) (ce_producer_signature cloudevent))
  | Some (Replayed r) =>
      _ ← evict_reservation reservation_uuid (rx_decision_id resv);
      now ← act_ Now;
      sig ← act_ (SignatureLookup cache_key now);
      mret (out (rp_ledger_transaction_id r) (default EmptyString sig))
  | Some (Failure e) => lift_ (Err (map_proto_error_to_domain (pe_code e) (pe_message e)))
  | None => lift_ (Err (DecisionStage "Release response empty oneof"))
  end.

(** ** Guards *)

(** Where a context came from: the cache, or the ledger's answer. *)
Definition recovered (tenant_id : string) (rid : uuid) (resv : ReservationCtx)
    (t : list (event sidecarE)) : Prop :=
  Ev (ReservationGet rid) (Some resv) ∈ t \/
  exists c, Ev (QueryReservationContext {| qr_tenant_id := tenant_id; qr_reservation_id := uuid_str rid |})
              (Ok (Some (inl c))) ∈ t /\ parse_reservation_context c = Ok resv.

(** The cached context says what the ledger's answer says. *)
Definition same_context (c : ReservationContext) (resv : ReservationCtx) : Prop :=
  current_state resv = rc_current_state c /\ fencing_epoch_at_post resv = rc_fencing_epoch_at_post c /\
  original_reserved_amount_atomic resv = rc_original_reserved_amount_atomic c /\
  uuid_parse (rc_budget_id c) = Some (rx_budget_id resv) /\
  uuid_parse (rc_window_instance_id c) = Some (rx_window_instance_id resv) /\
  uuid_parse (default EmptyString (unit_id <$> rc_unit c)) = Some (rx_unit_id resv) /\
  uuid_parse (rc_fencing_scope_id c) = Some (rx_fencing_scope_id resv) /\
  uuid_parse (rc_decision_id c) = Some (rx_decision_id resv) /\
  (forall p, rc_pricing c = Some p ->
     rx_pricing_version resv = pf_pricing_version p /\ rx_price_snapshot_hash resv = pf_price_snapshot_hash p /\
     rx_fx_rate_version resv = pf_fx_rate_version p /\
     rx_unit_conversion_version resv = pf_unit_conversion_version p).

(** The context is the one in the cache, or says what the ledger answered for the
    reservation. *)
Definition of_reservation (tenant_id : string) (rid : uuid) (resv : ReservationCtx)
    (t : list (event sidecarE)) : Prop :=
  Ev (ReservationGet rid) (Some resv) ∈ t \/
  Ev (ReservationGet rid) None ∈ t /\
  exists c, Ev (QueryReservationContext {| qr_tenant_id := tenant_id; qr_reservation_id := uuid_str rid |})
              (Ok (Some (inl c))) ∈ t /\ same_context c resv.

Lemma parsed_context c resv : parse_reservation_context c = Ok resv -> same_context c resv.
Proof.
  unfold parse_reservation_context, parse_internal. intros Hp. mon_inv Hp. cbn. split_and!; try done.
  intros p Hprice. by rewrite Hprice.
Qed.

Lemma of_reservation_mono tenant rid resv t t' :
  t ⊆ t' -> of_reservation tenant rid resv t -> of_reservation tenant rid resv t'.
Proof. intros Ht [Hr|(Hn & c & Hr & Hc)]; [left; auto|right; eauto 10]. Qed.

Lemma recovered_mono tenant rid resv t t' :
  t ⊆ t' -> recovered tenant rid resv t -> recovered tenant rid resv t'.
Proof. intros Ht [Hr|(c & Hr & Hc)]; [left; auto|right; eauto]. Qed.

Lemma recover_quiet tenant rid : all_effects quiet (recover_reservation_ctx tenant rid).
Proof. unfold recover_reservation_ctx. effs. Qed.

Lemma recover_ok tenant rid t resv :
  exec (recover_reservation_ctx tenant rid) t (Ok resv) -> recovered tenant rid resv t.
Proof.
  unfold recover_reservation_ctx.
  intros (t1 & t2 & cached & -> & (? & -> & [= <-])%exec_act_ & Hr)%exec_bind_ok.
  destruct cached as [c|]; [apply exec_ret in Hr as [-> [= ->]]; left; by left|].
  apply exec_bind_ok in Hr as (t3 & t4 & x & -> & ->%exec_call_ & Hr).
  destruct x as [[c|e]|]; [|by apply exec_lift_ in Hr as [_ [=]]..].
  apply exec_bind_ok in Hr as (t5 & t6 & y & -> & [-> Hy]%exec_lift_ & Hr).
  apply exec_bind_ok in Hr as (t7 & t8 & z & -> & _ & [-> [= ->]]%exec_ret).
  right. exists c. split; [set_solver-|done].
Qed.

Lemma recover_context tenant rid t resv :
  exec (recover_reservation_ctx tenant rid) t (Ok resv) -> of_reservation tenant rid resv t.
Proof.
  unfold recover_reservation_ctx.
  intros (t1 & t2 & cached & -> & (? & -> & [= <-])%exec_act_ & Hr)%exec_bind_ok.
  destruct cached as [c|]; [apply exec_ret in Hr as [-> [= ->]]; left; by left|].
  apply exec_bind_ok in Hr as (t3 & t4 & x & -> & ->%exec_call_ & Hr).
  destruct x as [[c|e]|]; [|by apply exec_lift_ in Hr as [_ [=]]..].
  apply exec_bind_ok in Hr as (t5 & t6 & y & -> & [-> Hy]%exec_lift_ & Hr).
  apply exec_bind_ok in Hr as (t7 & t8 & z & -> & _ & [-> [= ->]]%exec_ret).
  right. split; [set_solver-|]. exists c. split; [set_solver-|]. by apply parsed_context.
Qed.

Lemma evict_quiet a b : all_effects quiet (evict_reservation a b).
Proof. unfold evict_reservation. effs. Qed.

Lemma check_against_ok payload resv u :
  check_against_reservation payload resv = Ok u ->
  (forall x, lp_unit payload = Some x -> unit_id x = uuid_str (rx_unit_id resv)) /\
  (forall p, lp_pricing payload = Some p -> p = pricing_of_ctx resv) /\
  exists estimated original,
    bigint_parse (lp_estimated_amount_atomic payload) = Some estimated /\
    bigint_parse (original_reserved_amount_atomic resv) = Some original /\ 0 < estimated <= original.
Proof.
  unfold check_against_reservation. intros Hc. mon_inv Hc.
  split; [intros x Hx; rewrite Hx in E; by apply String.eqb_eq in E|].
  split; [intros p Hp; rewrite Hp in E0; by apply bool_decide_eq_true in E0|].
  exists v1, v2. split_and!; try done; blia.
Qed.

Lemma check_post_ok payload rid :
  check_post_payload payload = Ok rid ->
  lp_outcome payload = LLM_SUCCESS /\ uuid_parse (lp_reservation_id payload) = Some rid.
Proof.
  unfold check_post_payload. intros Hc. mon_inv Hc. split; [by apply Z.eqb_eq|done].
Qed.

Definition commit_guard (ctx : DecisionContext) (payload : LlmCallPostPayload)
    (h : list (event sidecarE)) (ev : event sidecarE) : Prop :=
  forall rq ans, as_commit ev = Some (rq, ans) ->
    commits h = [] /\ lp_outcome payload = LLM_SUCCESS /\
    exists rid resv f estimated original,
      uuid_parse (lp_reservation_id payload) = Some rid /\
      of_reservation (dc_tenant_id ctx) rid resv h /\ current_state resv = "reserved" /\
      Ev ReadFencing (Some f) ∈ h /\ af_epoch f = fencing_epoch_at_post resv /\
      cr_fencing rq = Some {| fc_epoch := fencing_epoch_at_post resv;
                              fc_scope_id := uuid_str (rx_fencing_scope_id resv);
                              fc_workload_instance_id := dc_workload_instance_id ctx |} /\
      cr_tenant_id rq = dc_tenant_id ctx /\ cr_reservation_id rq = uuid_str rid /\
      cr_decision_id rq = uuid_str (rx_decision_id resv) /\
      (unit_id <$> cr_unit rq) = Some (uuid_str (rx_unit_id resv)) /\
      (forall x, lp_unit payload = Some x -> unit_id x = uuid_str (rx_unit_id resv)) /\
      (let price := {| pf_pricing_version := rx_pricing_version resv;
                       pf_price_snapshot_hash := rx_price_snapshot_hash resv;
                       pf_fx_rate_version := rx_fx_rate_version resv;
                       pf_unit_conversion_version := rx_unit_conversion_version resv |} in
       cr_pricing rq = Some price /\ (forall p, lp_pricing payload = Some p -> p = price)) /\
      cr_estimated_amount_atomic rq = lp_estimated_amount_atomic payload /\
      bigint_parse (lp_estimated_amount_atomic payload) = Some estimated /\
      bigint_parse (original_reserved_amount_atomic resv) = Some original /\ 0 < estimated <= original.

#[local] Hint Resolve recover_quiet evict_quiet : quiet.

Lemma commit_upholds cfg ctx payload :
  upholds (commit_guard ctx payload) [] (run_commit_estimated cfg ctx payload).
Proof.
  unfold run_commit_estimated.
  up_quiet. apply exec_lift_ in Ha as [-> Hp]. symmetry in Hp. apply check_post_ok in Hp as [Hout Hrid].
  up_quiet. apply recover_context in Ha.
  up_quiet. apply exec_lift_ in Ha0 as [-> Hst]. symmetry in Hst. apply ensure_ok, String.eqb_eq in Hst.
  up_quiet. apply read_fencing_ok in Ha0.
  up_quiet. apply exec_lift_ in Ha1 as [-> He]. symmetry in He. apply ensure_ok, Z.eqb_eq in He.
  up_quiet. apply exec_lift_ in Ha1 as [-> Hc]. symmetry in Hc.
  apply check_against_ok in Hc as (Hu & Hpr & est & orig & Hest & Horig & Hb).
  do 5 up_quiet.
  apply upholds_bind.
  - intros x. split; [|done]. intros rq ans [= <- <-].
    split; [by apply silent_calls, quiet_silent; repeat (apply Forall_app; split)|].
    split; [done|]. exists a, a0, a2, est, orig. cbn.
    split_and!; try done.
    + eapply of_reservation_mono; [|exact Ha]. intros ev Hev. rewrite !elem_of_app. tauto.
    + subst t0. rewrite !elem_of_app, list_elem_of_singleton. tauto.
    + by rewrite He.
    + lia.
    + lia.
  - intros t' resp _.
    apply (upholds_all quiet); [intros ? ? [] ? ?; cbn in *; done|].
    destruct resp as [[]|]; effs.
Qed.

(** C11: a commit reaches the ledger only for a reservation that is reserved, in
    the fencing epoch it was made in, in its unit and at its frozen price, for a
    positive amount within what was reserved. Whatever other handlers do
    meanwhile, the first commit a post makes is its only one, after a successful
    outcome; and the state, the epoch, the unit, the price and the amount are those
    of the context in the cache or, when it has none, of the ledger's own answer. *)
Theorem commit_guarded cfg ctx payload t1 ev t2 rq ans :
  prefix (run_commit_estimated cfg ctx payload) (t1 ++ ev :: t2) -> as_commit ev = Some (rq, ans) ->
  commits t1 = [] /\ lp_outcome payload = LLM_SUCCESS /\
  exists rid resv f estimated original,
    uuid_parse (lp_reservation_id payload) = Some rid /\
    of_reservation (dc_tenant_id ctx) rid resv t1 /\ current_state resv = "reserved" /\
    Ev ReadFencing (Some f) ∈ t1 /\ af_epoch f = fencing_epoch_at_post resv /\
    cr_fencing rq = Some {| fc_epoch := fencing_epoch_at_post resv;
                            fc_scope_id := uuid_str (rx_fencing_scope_id resv);
                            fc_workload_instance_id := dc_workload_instance_id ctx |} /\
    cr_tenant_id rq = dc_tenant_id ctx /\ cr_reservation_id rq = uuid_str rid /\
    cr_decision_id rq = uuid_str (rx_decision_id resv) /\
    (unit_id <$> cr_unit rq) = Some (uuid_str (rx_unit_id resv)) /\
    (forall x, lp_unit payload = Some x -> unit_id x = uuid_str (rx_unit_id resv)) /\
    (let price := {| pf_pricing_version := rx_pricing_version resv;
                     pf_price_snapshot_hash := rx_price_snapshot_hash resv;
                     pf_fx_rate_version := rx_fx_rate_version resv;
                     pf_unit_conversion_version := rx_unit_conversion_version resv |} in
     cr_pricing rq = Some price /\ (forall p, lp_pricing payload = Some p -> p = price)) /\
    cr_estimated_amount_atomic rq = lp_estimated_amount_atomic payload /\
    bigint_parse (lp_estimated_amount_atomic payload) = Some estimated /\
    bigint_parse (original_reserved_amount_atomic resv) = Some original /\ 0 < estimated <= original.
Proof.
  intros Hp Hev. exact (upholds_prefix _ [] _ _ _ _ (commit_upholds cfg ctx payload) Hp rq ans Hev).
Qed.

(** A commit succeeds exactly when the ledger answered it with a commit, new or
    replayed, and evicts the reservation from both caches exactly then. *)
Definition settled {S} (ans : result DomainError (option (Outcome S))) : Prop :=
  exists o, ans = Ok (Some o) /\ match o with Failure _ => False | _ => True end.

Lemma evict_ok a b t r : exec (evict_reservation a b) t r -> t = [Ev (ReservationRemove a) tt; Ev (IndexRemove b) tt] /\ r = Ok tt.
Proof.
  unfold evict_reservation. cbn. intros ([] & t1 & -> & ([] & t2 & -> & -> & ->)). done.
Qed.

(** The end of a commit and of a release: the call, then evictions on success. *)
Lemma call_end {S A} (e : sidecarE (result DomainError (option (Outcome S))))
    (k : option (Outcome S) -> handler A) t r :
  exec (call_ e ≫= k) t r ->
  (forall e', exists d, k (Some (Failure e')) = lift_ (Err d)) -> (exists d, k None = lift_ (Err d)) ->
  exists ans t', t = Ev e ans :: t' /\
    ((~ settled ans /\ t' = [] /\ is_err r) \/
     exists o, ans = Ok (Some o) /\ settled ans /\ exec (k (Some o)) t' r).
Proof.
  intros [(er & -> & ->)|(x & t' & -> & He)]%exec_call_bind Hf Hn.
  - exists (Err er), []. split; [done|]. left. split_and!; [by intros (? & [=] & _)|done|by eexists].
  - exists (Ok x), t'. split; [done|]. destruct x as [o|].
    + destruct o as [s|p|e'].
      * right. eexists. split; [done|]. split; [by eexists|done].
      * right. eexists. split; [done|]. split; [by eexists|done].
      * left. destruct (Hf e') as [d Hd]. rewrite Hd in He. apply exec_lift_ in He as [-> ->].
        split_and!; [by intros (? & [= <-] & ?)|done|by eexists].
    + left. destruct Hn as [d Hd]. rewrite Hd in He. apply exec_lift_ in He as [-> ->].
      split_and!; [by intros (? & [=] & _)|done|by eexists].
Qed.

Lemma commits_quiet t1 t2 : Forall (ev_sat quiet) t1 -> commits (t1 ++ t2) = commits t2.
Proof.
  intros Hq%quiet_silent%silent_calls. unfold commits in *. rewrite omap_app.
  destruct Hq as (_ & _ & _ & -> & _). done.
Qed.
Lemma commits_quiet_nil t : Forall (ev_sat quiet) t -> commits t = [].
Proof. intros Hq. rewrite <- (app_nil_r t), commits_quiet by done. done. Qed.

Ltac ex_quiet H :=
  apply exec_quiet_bind in H as [(?e & -> & ?Hs)|(?t1 & ?t2 & ?a & -> & ?Hs & ?Hm & H)];
  [left; split; [by eexists|rewrite commits_quiet_nil by done; set_solver]
  |rewrite commits_quiet by done
  |auto with quiet].

(** The two ends of a post. *)
Lemma commit_cases cfg ctx payload t r :
  exec (run_commit_estimated cfg ctx payload) t r ->
  (is_err r /\ forall rq ans, (rq, ans) ∈ commits t -> ~ settled ans) \/
  exists out rq ans rid resv, r = Ok out /\ commits t = [(rq, ans)] /\ settled ans /\
    uuid_parse (lp_reservation_id payload) = Some rid /\ recovered (dc_tenant_id ctx) rid resv t /\
    Ev (ReservationRemove rid) tt ∈ t /\ Ev (IndexRemove (rx_decision_id resv)) tt ∈ t.
Proof.
  unfold run_commit_estimated. intros He.
  ex_quiet He. apply exec_lift_ in Hm as [-> Hp]. symmetry in Hp. apply check_post_ok in Hp as [_ Hrid].
  ex_quiet He. apply recover_ok in Hm. do 9 ex_quiet He.
  apply call_end in He as (ans & t' & -> & [(Hns & -> & Hr)|(o & -> & Hset & He)]); [..|by eexists|by eexists].
  - left. split; [done|]. intros rq' ans' [= -> ->]%list_elem_of_singleton. done.
  - right.
    assert (t' = [Ev (ReservationRemove a) tt; Ev (IndexRemove (rx_decision_id a0)) tt] /\
            exists out, r = Ok out) as [-> [out ->]].
    { destruct o as [s|p|e'];
        [apply exec_bind in He as [(u1 & u2 & ? & -> & [-> _]%evict_ok & [-> ->]%exec_ret)|(e & _ & [_ [=]]%evict_ok)];
         eauto..|].
      by destruct Hset as (? & [= <-] & ?). }
    exists out. eexists _, _, a, a0. split; [done|]. split; [reflexivity|]. split; [done|]. split; [done|].
    split; [eapply recovered_mono; [|exact Hm]; intros ev Hev; rewrite !elem_of_app; tauto|].
    rewrite !elem_of_app, !elem_of_cons. tauto.
Qed.

(** A post answers with success exactly when the ledger answered its commit
    with one, new or replayed; then, and only then, the reservation has left both
    caches. *)
Theorem commit_settles cfg ctx payload t r :
  exec (run_commit_estimated cfg ctx payload) t r ->
  (is_err r /\ forall rq ans, (rq, ans) ∈ commits t -> ~ settled ans) \/
  exists out rq ans rid resv, r = Ok out /\ commits t = [(rq, ans)] /\ settled ans /\
    uuid_parse (lp_reservation_id payload) = Some rid /\ recovered (dc_tenant_id ctx) rid resv t /\
    Ev (ReservationRemove rid) tt ∈ t /\ Ev (IndexRemove (rx_decision_id resv)) tt ∈ t.
Proof. apply commit_cases. Qed.

(** What a release may send and store, given what it did before. *)
Definition release_sent ctx (rid : uuid) (override : option string) (h : list (event sidecarE))
    (rq : ReleaseRequest) : Prop :=
  releases h = [] /\ rl_tenant_id rq = dc_tenant_id ctx /\
  (idem_key <$> rl_idempotency rq) = Some (ledger_release_key rid override) /\
  exists resv f, recovered (dc_tenant_id ctx) rid resv h /\ Ev ReadFencing (Some f) ∈ h /\
    (fc_epoch <$> rl_fencing rq) = Some (af_epoch f) /\
    rl_reservation_set_id rq = uuid_str (derive_reservation_set_id (rx_decision_id resv)) /\
    (current_state resv = "released" \/
     (current_state resv = "reserved" /\ af_epoch f = fencing_epoch_at_post resv /\
      exists f' now, Ev ReadFencing (Some f') ∈ h /\ Ev Now now ∈ h /\ now <= af_ttl_expires_at f')).

Definition signature_stored ctx (rid : uuid) (override : option string) (h : list (event sidecarE))
    (key sig : string) : Prop :=
  key = release_signature_cache_key (dc_tenant_id ctx) (ledger_release_key rid override) /\
  exists rq s ce, (rq, Ok (Some (Success s))) ∈ releases h /\ rl_tenant_id rq = dc_tenant_id ctx /\
    (idem_key <$> rl_idempotency rq) = Some (ledger_release_key rid override) /\
    rl_audit_event rq = Some ce /\ ce_producer_signature ce = sig.

Definition release_guard ctx rid override (h : list (event sidecarE)) (ev : event sidecarE) : Prop :=
  (forall rq ans, as_release ev = Some (rq, ans) -> release_sent ctx rid override h rq) /\
  (forall key sig, as_store ev = Some (key, sig) -> signature_stored ctx rid override h key sig).

Lemma check_active_ok t u :
  exec check_active t (Ok u) ->
  exists f now, Ev ReadFencing (Some f) ∈ t /\ Ev Now now ∈ t /\ now <= af_ttl_expires_at f.
Proof.
  unfold check_active.
  intros (t1 & t2 & f & -> & ->%read_fencing_ok & (t3 & t4 & now & -> & (? & -> & [= <-])%exec_act_ &
    [-> Hc]%exec_lift_)%exec_bind_ok)%exec_bind_ok.
  symmetry in Hc. apply ensure_ok in Hc. exists f, now. split; [set_solver-|]. split; [set_solver-|blia].
Qed.

Lemma releases_quiet_nil t : Forall (ev_sat quiet) t -> releases t = [].
Proof. intros Hq%quiet_silent%silent_calls. by destruct Hq as (_ & _ & _ & _ & ->). Qed.

Lemma fence_check_quiet resv f : all_effects quiet (fence_check resv f).
Proof. unfold fence_check. destruct (_ =?s _); [done|]. apply all_effects_bind; [auto with quiet|done]. Qed.

Lemma fence_check_ok resv f t u :
  exec (fence_check resv f) t (Ok u) ->
  current_state resv = "released" \/
  (af_epoch f = fencing_epoch_at_post resv /\
   exists f' now, Ev ReadFencing (Some f') ∈ t /\ Ev Now now ∈ t /\ now <= af_ttl_expires_at f').
Proof.
  unfold fence_check. destruct (_ =?s _) eqn:Hst; [by apply String.eqb_eq in Hst; left|].
  intros (t1 & t2 & [] & -> & (f' & now & Hf & Hn & Hle)%check_active_ok & [-> Hc]%exec_lift_)%exec_bind_ok.
  symmetry in Hc. apply ensure_ok, Z.eqb_eq in Hc. right. split; [done|]. exists f', now.
  rewrite app_nil_r. done.
Qed.
#[local] Hint Resolve fence_check_quiet : quiet.


Lemma sign_signature cfg ce t ce' :
  exec (sign_cloudevent_in_place cfg ce) t (Ok ce') -> exists sig, ce' = with_signing_key (signer_key_id cfg) sig ce.
Proof. apply sign_ok. Qed.

Lemma release_upholds cfg ctx rid reason meta override hash :
  upholds (release_guard ctx rid override) [] (run_release cfg ctx rid reason meta override hash).
Proof.
  unfold run_release.
  up_quiet. apply recover_ok in Ha.
  up_quiet. apply exec_lift_ in Ha0 as [-> Hst]. symmetry in Hst. apply ensure_ok in Hst.
  up_quiet. apply read_fencing_ok in Ha0.
  up_quiet. apply fence_check_ok in Ha1.
  do 5 up_quiet.
  apply upholds_bind.
  - intros x. split; [|done]. split; [|done]. intros rq ans [= <- <-].
    split; [by apply releases_quiet_nil; repeat (apply Forall_app; split)|].
    split; [done|]. split; [done|]. exists a, a1.
    split; [eapply recovered_mono; [|exact Ha]; intros ev Hev; rewrite !elem_of_app; tauto|].
    split; [rewrite Ha0, !elem_of_app, list_elem_of_singleton; tauto|].
    split; [done|]. split; [done|].
    destruct Ha1 as [Hrel|(He & f' & now & Hf & Hn & Hle)]; [by left|].
    apply orb_true_iff in Hst as [Hst%String.eqb_eq|Hst%String.eqb_eq]; [right|by left].
    split; [done|]. split; [done|]. exists f', now.
    split; [rewrite !elem_of_app; tauto|]. split; [rewrite !elem_of_app; tauto|done].
  - intros t' resp Hresp. apply exec_call_ in Hresp as ->.
    destruct resp as [[s|p|e]|]; [|repeat up_quiet; done|done|done].
    do 2 up_quiet.
    apply upholds_bind; [|intros ? ? _; done].
    intros x. split; [|done]. split; [done|]. intros key sig [= <- <-].
    split; [done|]. eexists _, s, a7.
    split; [unfold releases; rewrite !omap_app, !elem_of_app; left; left; right; by left|done].
Qed.

Lemma releases_quiet t1 t2 : Forall (ev_sat quiet) t1 -> releases (t1 ++ t2) = releases t2.
Proof. intros Hq%releases_quiet_nil. unfold releases in *. by rewrite omap_app, Hq. Qed.

(** A quiet step of a successful run makes no release. *)
Ltac ok_quiet H :=
  apply exec_quiet_bind in H as [(?e & [=] & _)|(?t1 & ?t2 & ?a & -> & ?Hs & ?Hm & H)];
  [rewrite releases_quiet by done|auto with quiet].

Lemma release_result cfg ctx rid reason meta override hash t out :
  exec (run_release cfg ctx rid reason meta override hash) t (Ok out) ->
  exists rq o, releases t = [(rq, Ok (Some o))] /\
    match o with
    | Success _ => exists ce, rl_audit_event rq = Some ce /\ ro_audit_event_signature out = ce_producer_signature ce
    | Replayed _ =>
        exists now x, Ev (SignatureLookup (release_signature_cache_key (dc_tenant_id ctx)
                                             (ledger_release_key rid override)) now) x ∈ t /\
          ro_audit_event_signature out = default EmptyString x
    | Failure _ => False
    end.
Proof.
  unfold run_release. intros He.
  do 9 ok_quiet He.
  apply exec_call_bind in He as [(er & _ & [=])|(x & t' & -> & He)].
  destruct x as [[s|p|e]|]; [| |by apply exec_lift_ in He as [_ [=]]..].
  - apply exec_bind_ok in He as (u1 & u2 & ? & -> & [-> _]%evict_ok & He).
    apply exec_bind_ok in He as (u3 & u4 & now & -> & (? & -> & [= <-])%exec_act_ & He).
    apply exec_bind_ok in He as (u5 & u6 & ? & -> & ([] & -> & _)%exec_act_ & [-> [= ->]]%exec_ret).
    eexists _, _. split; [reflexivity|]. cbn. by eexists.
  - apply exec_bind_ok in He as (u1 & u2 & ? & -> & [-> _]%evict_ok & He).
    apply exec_bind_ok in He as (u3 & u4 & now & -> & (? & -> & [= <-])%exec_act_ & He).
    apply exec_bind_ok in He as (u5 & u6 & sig & -> & (? & -> & [= <-])%exec_act_ & [-> [= ->]]%exec_ret).
    eexists _, _. split; [reflexivity|]. exists now, sig. split; [|done].
    rewrite !elem_of_app, !elem_of_cons, !elem_of_app, !elem_of_cons. tauto.
Qed.

Ltac rel_quiet H :=
  apply exec_quiet_bind in H as [(?e & -> & ?Hs)|(?t1 & ?t2 & ?a & -> & ?Hs & ?Hm & H)];
  [left; split; [by eexists|rewrite releases_quiet_nil by done; set_solver]
  |rewrite releases_quiet by done
  |auto with quiet].

(** The two ends of a release. *)
Lemma release_cases cfg ctx rid reason meta override hash t r :
  exec (run_release cfg ctx rid reason meta override hash) t r ->
  (is_err r /\ forall rq ans, (rq, ans) ∈ releases t -> ~ settled ans) \/
  exists out rq ans, r = Ok out /\ releases t = [(rq, ans)] /\ settled ans /\
    rl_reason rq = release_reason_number reason.
Proof.
  unfold run_release. intros He. do 9 rel_quiet He.
  apply call_end in He as (ans & t' & -> & [(Hns & -> & Hr)|(o & -> & Hset & He)]); [..|by eexists|by eexists].
  - left. split; [done|]. by intros rq' ans' [= -> ->]%list_elem_of_singleton.
  - right.
    assert (releases t' = [] /\ exists out, r = Ok out) as [Ht' [out ->]].
    { destruct o as [s|p|e']; [| |by destruct Hset as (? & [= <-] & ?)].
      - apply exec_bind in He as [(u1 & u2 & ? & -> & [-> _]%evict_ok & He)|(e & _ & [_ [=]]%evict_ok)].
        cbn in He. destruct He as (now & ? & -> & ? & ? & -> & -> & ->). eauto.
      - apply exec_bind in He as [(u1 & u2 & ? & -> & [-> _]%evict_ok & He)|(e & _ & [_ [=]]%evict_ok)].
        cbn in He. destruct He as (now & ? & -> & sig & ? & -> & -> & ->). eauto. }
    exists out. eexists _, _. split; [done|].
    split; [unfold releases in *; cbn; by rewrite Ht'|]. done.
Qed.

(** A release reaches the ledger only for a reservation that is reserved in
    the current epoch, with a fencing lease found unexpired, or that is already
    released, so that the ledger replays; the first one a handler makes is its
    only one, and it names the reservation set derived from the decision. *)
Theorem release_guarded cfg ctx rid reason meta override hash t1 ev t2 rq ans :
  prefix (run_release cfg ctx rid reason meta override hash) (t1 ++ ev :: t2) ->
  as_release ev = Some (rq, ans) ->
  releases t1 = [] /\ rl_tenant_id rq = dc_tenant_id ctx /\
  (idem_key <$> rl_idempotency rq) = Some (ledger_release_key rid override) /\
  exists resv f, recovered (dc_tenant_id ctx) rid resv t1 /\ Ev ReadFencing (Some f) ∈ t1 /\
    (fc_epoch <$> rl_fencing rq) = Some (af_epoch f) /\
    rl_reservation_set_id rq = uuid_str (derive_reservation_set_id (rx_decision_id resv)) /\
    (current_state resv = "released" \/
     (current_state resv = "reserved" /\ af_epoch f = fencing_epoch_at_post resv /\
      exists f' now, Ev ReadFencing (Some f') ∈ t1 /\ Ev Now now ∈ t1 /\ now <= af_ttl_expires_at f')).
Proof.
  intros Hp Hev.
  exact (proj1 (upholds_prefix _ [] _ _ _ _ (release_upholds cfg ctx rid reason meta override hash) Hp) rq ans Hev).
Qed.

End Settle.

#[export] Hint Resolve recover_quiet evict_quiet fence_check_quiet : quiet.

(** ** Witnesses *)
Module SettleDemo.
Import Demo CalendarDemo DecisionDemo.

Definition context (state : string) : ReservationContext :=
  {| rc_tenant_id := "t1"; rc_budget_id := "ub"; rc_window_instance_id := "uw"; rc_unit := Some usd;
     rc_original_reserved_amount_atomic := "50"; rc_pricing := None; rc_fencing_scope_id := "u";
     rc_fencing_epoch_at_post := 7; rc_decision_id := "ud"; rc_ttl_expires_at := None;
     rc_current_state := state |}.

(** A ledger that knows the reservation in a state, and settles what it is sent. *)
Definition answer (state : string) (X : Type) (e : sidecarE X) : X :=
  match e in sidecarE X return X with
  | QueryReservationContext _ => Ok (Some (inl (context state)))
  | CommitEstimated _ =>
      Ok (Some (Success {| cs_ledger_transaction_id := "tx3"; cs_reservation_id := "ur1";
                           cs_delta_to_reserved_atomic := "10" |}))
  | Release _ =>
      Ok (Some (Success {| rl_ok_ledger_transaction_id := "tx4"; rl_ok_released_reservation_ids := ["ur1"] |}))
  | e => DecisionDemo.answer false _ e
  end.

Definition payload : LlmCallPostPayload :=
  {| lp_reservation_id := "ur1"; lp_provider_reported_amount_atomic := EmptyString; lp_unit := Some usd;
     lp_pricing := None; lp_provider_event_id := EmptyString; lp_outcome := LLM_SUCCESS; lp_estimated_amount_atomic := "40";
     lp_actual_input_tokens := Some 7; lp_actual_output_tokens := None; lp_delta_b_ratio := None;
     lp_delta_c_ratio := None |}.

Definition commit_run := run (answer "reserved") (run_commit_estimated cfg ctx payload).

Lemma commit_exec r : commit_run.2 = r -> exec (run_commit_estimated cfg ctx payload) commit_run.1 r.
Proof. intros <-. apply run_exec. Qed.

Lemma commit_guarded_witness :
  exists t1 ev t2 rq ans, commit_run.1 = t1 ++ ev :: t2 /\ as_commit ev = Some (rq, ans) /\
    cr_estimated_amount_atomic rq = "40" /\ commits t1 = [].
Proof.
  destruct (nth_error commit_run.1 9) as [ev|] eqn:Hev; [|vm_compute in Hev; discriminate].
  destruct (as_commit ev) as [[rq ans]|] eqn:Hc;
    [|vm_compute in Hev; injection Hev as <-; vm_compute in Hc; discriminate].
  assert (Hsplit : commit_run.1 = take 9 commit_run.1 ++ ev :: drop 10 commit_run.1).
  { vm_compute in Hev. injection Hev as <-. vm_compute. reflexivity. }
  exists (take 9 commit_run.1), ev, (drop 10 commit_run.1), rq, ans.
  assert (Hp : prefix (run_commit_estimated cfg ctx payload)
                 (take 9 commit_run.1 ++ ev :: drop 10 commit_run.1)).
  { rewrite <- Hsplit. eapply exec_prefix. apply commit_exec. reflexivity. }
  destruct (commit_guarded cfg ctx payload _ ev _ rq ans Hp Hc)
    as (Hnone & _ & rid & resv & f & est & orig & _ & _ & _ & _ & _ & _ & _ & _ & _ & _ & _ & _ & Ham & _).
  split; [exact Hsplit|]. split; [exact Hc|]. split; [exact Ham|exact Hnone].
Defined.

Lemma commit_settles_witness :
  exists out, commit_run.2 = Ok out /\ co_ledger_transaction_id out = "tx3" /\
    Ev (ReservationRemove ("r1" : uuid)) tt ∈ commit_run.1.
Proof.
  destruct commit_run.2 as [out|e] eqn:Hr; [|vm_compute in Hr; discriminate].
  exists out. split; [reflexivity|]. split; [vm_compute in Hr; injection Hr as <-; reflexivity|].
  destruct (commit_settles cfg ctx payload commit_run.1 (Ok out)) as
    [[[e He] _]|(out' & rq & ans & rid & resv & _ & _ & _ & Hrid & _ & Hrm & _)].
  - apply commit_exec. exact Hr.
  - discriminate He.
  - vm_compute in Hrid. injection Hrid as <-. exact Hrm.
Defined.

Definition release_run := run (answer "reserved") (run_release cfg ctx "r1" Explicit None (Some "k9") None).

Lemma release_guarded_witness :
  exists t1 ev t2 rq ans, release_run.1 = t1 ++ ev :: t2 /\ as_release ev = Some (rq, ans) /\
    (idem_key <$> rl_idempotency rq) = Some "release:ur1:k9" /\ releases t1 = [].
Proof.
  destruct (nth_error release_run.1 11) as [ev|] eqn:Hev; [|vm_compute in Hev; discriminate].
  destruct (as_release ev) as [[rq ans]|] eqn:Hc;
    [|vm_compute in Hev; injection Hev as <-; vm_compute in Hc; discriminate].
  assert (Hsplit : release_run.1 = take 11 release_run.1 ++ ev :: drop 12 release_run.1).
  { vm_compute in Hev. injection Hev as <-. vm_compute. reflexivity. }
  exists (take 11 release_run.1), ev, (drop 12 release_run.1), rq, ans.
  assert (Hp : prefix (run_release cfg ctx "r1" Explicit None (Some "k9") None)
                 (take 11 release_run.1 ++ ev :: drop 12 release_run.1)).
  { rewrite <- Hsplit. eapply exec_prefix. apply run_exec. }
  destruct (release_guarded cfg ctx _ _ _ _ _ _ ev _ rq ans Hp Hc) as (Hnone & _ & Hkey & _).
  split; [exact Hsplit|]. split; [exact Hc|]. split; [exact Hkey|exact Hnone].
Defined.

End SettleDemo.
