(* ===== verification/Concurrency.v ===== *)
(** * The sidecar's handlers, interleaved

    A pool of decision transactions, commits and releases over one
    [SidecarState], each a program of [Decision] or [Settle], interleaved effect
    by effect with each other and with the rest of the sidecar. *)

From S2P Require Import Prelude Deps Effects Proto Contract SubMeter Sidecar Decision Settle.

Section Concurrency.
Context `{UuidLib, BigIntLib, CryptoLib, !UuidBytes, ProstLib, ChronoLib, Calendar}.

Inductive job :=
  | JDecide (ctx : DecisionContext) (req : DecisionRequest)
  | JCommit (ctx : DecisionContext) (payload : LlmCallPostPayload)
  | JRelease (ctx : DecisionContext) (rid : uuid) (reason : ReleaseReason)
      (metadata key_override body_hash : option string).

Inductive reply :=
  | RDecide (r : result DomainError DecisionOutput)
  | RCommit (r : result DomainError CommitEstimatedOutput)
  | RRelease (r : result DomainError ReleaseOutput).

Definition program (cfg : SidecarConfig) (j : job) : prog sidecarE reply :=
  match j with
  | JDecide ctx req => pbind (run_through_reserve cfg ctx req) (fun r => Ret (RDecide r))
  | JCommit ctx payload => pbind (run_commit_estimated cfg ctx payload) (fun r => Ret (RCommit r))
  | JRelease ctx rid reason meta key hash =>
      pbind (run_release cfg ctx rid reason meta key hash) (fun r => Ret (RRelease r))
  end.

Definition run_pool := pool_run (E := sidecarE) (R := reply) handle other.

(** ** What is sent to the ledger *)

(** The producer sequence and the audit event of a request to record. *)
Definition as_sent (ev : event sidecarE) : option (Z * option CloudEvent) :=
  match ev with
  | Ev e _ => match e with
              | ReserveSet rq => Some (rr_producer_sequence rq, rr_audit_event rq)
              | RecordDeniedDecision rq => Some (rd_producer_sequence rq, rd_audit_event rq)
              | CommitEstimated rq => Some (cr_producer_sequence rq, cr_audit_event rq)
              | Release rq => Some (rl_producer_sequence rq, rl_audit_event rq)
              | _ => None
              end
  end.

(** The signer signed the event in [h], under the sidecar's key. *)
Definition signed (cfg : SidecarConfig) (h : list (event sidecarE)) (ce : CloudEvent) : Prop :=
  exists ce0 sig, Ev (Sign ce0) (Ok sig) ∈ h /\ ce_signing_key_id ce0 = signer_key_id cfg /\
    ce_producer_signature ce0 = EmptyString /\ starts_with "ledger:" (ce_producer_id ce0) = false /\
    ce = with_signing_key (signer_key_id cfg) sig ce0.

Lemma signed_mono cfg h h' ce : h ⊆ h' -> signed cfg h ce -> signed cfg h' ce.
Proof. intros Hs (ce0 & sig & Hin & ?). exists ce0, sig. split; [by apply Hs|done]. Qed.

Lemma sign_signed cfg ce t ce' :
  exec (sign_cloudevent_in_place cfg ce) t (Ok ce') ->
  starts_with "ledger:" (ce_producer_id ce) = false -> signed cfg t ce'.
Proof.
  unfold sign_cloudevent_in_place. intros (t1 & t2 & a & -> & (x & -> & [= <-])%exec_act_ & Hr)%exec_bind_ok Hp.
  destruct a as [sig|[]]; [|by apply exec_lift_ in Hr as [_ Hr]..].
  apply exec_ret in Hr as [-> [= ->]]. exists (with_signing_key (signer_key_id cfg) EmptyString ce), sig.
  split; [by left|]. done.
Qed.

Lemma not_the_ledger policy est resp ctx type id run did schema seq time data :
  starts_with "ledger:" (ce_producer_id (with_prediction policy est resp
    (cloudevent_envelope ctx type id run did schema seq time data))) = false.
Proof. unfold with_prediction. by destruct (event_projection est resp) as [[??]?]. Qed.

(** What is sent carries a sequence the handler drew and an event it signed. *)
Definition sent_guard (cfg : SidecarConfig) (h : list (event sidecarE)) (ev : event sidecarE) : Prop :=
  forall n ce, as_sent ev = Some (n, ce) -> n ∈ sequences h /\ exists ce', ce = Some ce' /\ signed cfg h ce'.

Definition sequence_guard (h : list (event sidecarE)) (ev : event sidecarE) : Prop :=
  forall n, as_written ev = Some n -> n ∈ sequences h.

Lemma in_sequences n t : Ev NextProducerSequence n ∈ t -> n ∈ sequences t.
Proof. intros Hin. apply list_elem_of_omap. by exists (Ev NextProducerSequence n). Qed.

Lemma next_sequence_ok t n : exec (act_ NextProducerSequence) t (Ok n) -> n ∈ sequences t.
Proof. intros (? & -> & [= <-])%exec_act_. by left. Qed.

Lemma sequences_app t t' : sequences (t ++ t') = sequences t ++ sequences t'.
Proof. apply omap_app. Qed.

(** The event just signed is sent with a sequence drawn before. *)
Lemma sends_guard cfg h t t' ce n ev x :
  as_sent ev = Some (n, Some ce) -> n ∈ sequences h -> exec (sign_cloudevent_in_place cfg x) t (Ok ce) ->
  starts_with "ledger:" (ce_producer_id x) = false -> sent_guard cfg ((h ++ t) ++ t') ev.
Proof.
  intros Hev Hn Hs Hp n' ce' He. rewrite Hev in He. injection He as <- <-. split.
  - rewrite !sequences_app, !elem_of_app. tauto.
  - exists ce. split; [done|]. apply (signed_mono cfg t); [set_solver-|by eapply sign_signed].
Qed.

Ltac up_end := apply (upholds_all quiet); [intros ? ? [] ? ?; cbn in *; done|].

Lemma commit_sent cfg ctx payload :
  upholds (sent_guard cfg) [] (run_commit_estimated cfg ctx payload).
Proof.
  unfold run_commit_estimated. do 6 up_quiet. up_quiet. apply next_sequence_ok in Ha5. do 4 up_quiet.
  apply upholds_bind.
  - intros x. split; [|done]. rewrite <- (app_nil_r (_ ++ t9)).
    eapply sends_guard; [done| |exact Ha9|done]. rewrite !sequences_app, !elem_of_app. tauto.
  - intros t' resp _. up_end. destruct resp as [[]|]; effs.
Qed.

Lemma release_sent cfg ctx rid reason meta key hash :
  upholds (sent_guard cfg) [] (run_release cfg ctx rid reason meta key hash).
Proof.
  unfold run_release. do 4 up_quiet. up_quiet. apply next_sequence_ok in Ha3. do 4 up_quiet.
  apply upholds_bind.
  - intros x. split; [|done]. rewrite <- (app_nil_r (_ ++ t7)).
    eapply sends_guard; [done| |exact Ha7|done]. rewrite !sequences_app, !elem_of_app. tauto.
  - intros t' resp _. destruct resp as [[]|]; [|repeat up_quiet; done|done|done].
    do 2 up_quiet. apply upholds_bind; [|done]. intros x. by split.
Qed.

Lemma denied_sent cfg ctx st d rc eh h :
  st_producer_sequence st ∈ sequences h ->
  upholds (sent_guard cfg) h (run_record_denied_decision cfg ctx st d rc eh).
Proof.
  intros Hn. unfold run_record_denied_decision. do 5 up_quiet. destruct a3 as [[c e] ttl].
  apply upholds_bind.
  - intros x. split; [|done]. eapply sends_guard; [done| |exact Ha2|apply not_the_ledger].
    rewrite !sequences_app, !elem_of_app. tauto.
  - intros t' resp _. up_end. destruct resp as [[]|]; effs.
Qed.

Lemma reserve_sent cfg ctx st f rc eh h :
  st_producer_sequence st ∈ sequences h ->
  upholds (sent_guard cfg) h (reserve cfg ctx st f rc eh).
Proof.
  intros Hn. unfold reserve. do 4 up_quiet. apply upholds_bind.
  - intros x. split; [|done]. eapply sends_guard; [done| |exact Ha1|apply not_the_ledger].
    rewrite !sequences_app, !elem_of_app. tauto.
  - intros t' resp _. destruct resp as [[s|p|e]|].
    + up_end. apply all_effects_bind; [auto with quiet|done].
    + up_end. effs.
    + destruct (is_ledger_budget_exhausted (pe_code e)); [|done].
      apply denied_sent. rewrite !sequences_app, !elem_of_app. tauto.
    + done.
Qed.

Lemma decide_sent cfg ctx req :
  upholds (sent_guard cfg) [] (run_through_reserve cfg ctx req).
Proof.
  unfold run_through_reserve. do 3 up_quiet.
  destruct (_ =? _); [up_end; auto with quiet|]. do 2 up_quiet.
  apply upholds_bind.
  { unfold replay_existing_decision_by_idempotency. apply upholds_bind; [intros x; by split|].
    intros t' resp _. destruct (negb (stage_recorded _)); [exact I|]. apply upholds_bind; [exact I|intros ? ? _; exact I]. }
  intros t' [replay|] _; [done|].
  unfold decide_and_record. do 4 up_quiet.
  apply upholds_bind.
  { apply (upholds_all readonly); [intros ? ? [] ?; cbn in *; done|].
    unfold attempt. apply all_effects_pbind; [apply projector_readonly|done]. }
  intros t'' pr _. do 2 up_quiet. up_quiet. apply next_sequence_ok in Ha10. do 2 up_quiet.
  case_bool_decide; [apply denied_sent|apply reserve_sent];
    cbn [st_producer_sequence]; rewrite !sequences_app, !elem_of_app; tauto.
Qed.

Lemma program_sent cfg j : upholds (sent_guard cfg) [] (program cfg j).
Proof.
  destruct j; apply upholds_pbind; try done; [apply decide_sent|apply commit_sent|apply release_sent].
Qed.

(** ** Producer sequences *)

Lemma program_sequence cfg j : upholds sequence_guard [] (program cfg j).
Proof.
  eapply upholds_weaken; [|apply program_sent]. intros h [X e x] Hg n Hn.
  destruct e; cbn in Hn; try done; injection Hn as <-; by eapply Hg.
Qed.

(** The sequences drawn in a log are those the counter gave, one by one. *)
Fixpoint counts_from (n : Z) (l : list Z) : Prop :=
  match l with [] => True | m :: l => m = n /\ counts_from (u64_wrap (n + 1)) l end.

Lemma counts_from_lookup n l (i : nat) m :
  u64_wrap n = n -> counts_from n l -> l !! i = Some m -> m = u64_wrap (n + Z.of_nat i).
Proof.
  revert n i; induction l as [|m' l IH]; intros n i Hn; cbn; [done|].
  intros [-> Hl] Hi. destruct i as [|i]; cbn in Hi.
  - simplify_eq. by rewrite Z.add_0_r.
  - eapply (IH _ i) in Hl; [|unfold u64_wrap; by rewrite Z.mod_mod|done]. subst.
    unfold u64_wrap. rewrite Zplus_mod_idemp_l. f_equal. lia.
Qed.

Lemma counts_from_NoDup n l :
  u64_wrap n = n -> counts_from n l -> Z.of_nat (length l) <= 2 ^ 64 -> NoDup l.
Proof.
  intros Hn Hc Hlen. apply NoDup_alt. intros i j m Hi Hj.
  pose proof (lookup_lt_Some _ _ _ Hi). pose proof (lookup_lt_Some _ _ _ Hj).
  pose proof (counts_from_lookup _ _ _ _ Hn Hc Hi) as Ei. pose proof (counts_from_lookup _ _ _ _ Hn Hc Hj) as Ej.
  rewrite Ei in Ej. unfold u64_wrap in Ej.
  assert (Hd : (Z.of_nat i - Z.of_nat j) mod 2 ^ 64 = 0).
  { replace (Z.of_nat i - Z.of_nat j) with ((n + Z.of_nat i) - (n + Z.of_nat j)) by lia. rewrite Zminus_mod, Ej, Z.sub_diag. done. }
  apply Z.mod_divide in Hd; [|lia]. destruct Hd as [q Hq].
  assert (q = 0) by nia. lia.
Qed.

Lemma counts_from_snoc n l m :
  u64_wrap n = n -> counts_from n l -> m = u64_wrap (n + Z.of_nat (length l)) -> counts_from n (l ++ [m]).
Proof.
  revert n; induction l as [|m' l IH]; intros n Hn; cbn [counts_from app].
  - intros _ ->. cbn. rewrite Z.add_0_r. done.
  - intros [-> Hl] ->. split; [done|]. apply IH; [unfold u64_wrap; by rewrite Z.mod_mod|done|].
    unfold u64_wrap. rewrite Zplus_mod_idemp_l. f_equal. cbn [length]. lia.
Qed.

(** What each effect does to the sequence and the signature cache. *)
Lemma handle_sequence X (e : sidecarE X) s x s' :
  handle X e s x s' ->
  (exists n, as_sequence (Ev e x) = Some n /\ n = producer_sequence s /\
             producer_sequence s' = u64_wrap (n + 1)) \/
  (as_sequence (Ev e x) = None /\ producer_sequence s' = producer_sequence s).
Proof.
  destruct e; cbn; intros Hh; try (right; naive_solver); try (right; destruct Hh as (? & _ & ->); done).
  left. unfold next_producer_sequence in Hh. simplify_eq. eauto.
Qed.

Lemma sequences_one (i : nat) ev :
  sequences [(i, ev)].*2 = from_option (fun n => [n]) [] (as_sequence ev).
Proof. unfold sequences. cbn. by destruct (as_sequence ev). Qed.

Lemma pool_sequences s0 ps0 log s ps :
  run_pool (s0, ps0) log (s, ps) -> u64_wrap (producer_sequence s0) = producer_sequence s0 ->
  counts_from (producer_sequence s0) (sequences log.*2) /\
  producer_sequence s = u64_wrap (producer_sequence s0 + Z.of_nat (length (sequences log.*2))).
Proof.
  intros Hrun Hn. remember (s, ps) as c eqn:Hc. revert s ps Hc.
  induction Hrun as [|log c1 l c2 Hrun IH Hstep]; intros s ps Hc.
  - injection Hc as <- <-. cbn. by rewrite Z.add_0_r.
  - destruct Hstep as [s1 ps1 i X e k x s2 Hi Hh|s1 ps1 s2 Ho]; simplify_eq;
      destruct (IH _ _ eq_refl) as [Hcount Hlast].
    + rewrite fmap_app, sequences_app, length_app, sequences_one.
      apply handle_sequence in Hh as [(n & -> & -> & ->)|[-> ->]]; cbn [from_option].
      * split; [by apply counts_from_snoc|]. rewrite Hlast. unfold u64_wrap.
        rewrite Zplus_mod_idemp_l. f_equal. cbn. lia.
      * rewrite app_nil_r. cbn. by rewrite Nat.add_0_r.
    + rewrite app_nil_r. destruct Ho as [-> _]. done.
Qed.

(** An event of the log belongs to a job's program, as far as it has run. *)
Lemma thread_job cfg s0 jobs log c k ev :
  run_pool (s0, program cfg <$> jobs) log c -> ev ∈ of_thread k log ->
  exists jb p', jobs !! k = Some jb /\ c.2 !! k = Some p' /\
    reaches (program cfg jb) (of_thread k log) p' /\ prefix (program cfg jb) (of_thread k log).
Proof.
  intros Hrun Hev. destruct c as [s ps].
  pose proof (pool_range _ _ _ _ _ k ev Hrun (proj1 (elem_of_thread k log ev) Hev)) as [p Hp]. cbn in Hp.
  destruct (pool_reaches _ _ _ _ _ _ _ Hrun) as [_ Hreach]. destruct (Hreach k p Hp) as (p' & Hp' & Hr).
  rewrite list_lookup_fmap in Hp. apply fmap_Some in Hp as (jb & Hjb & ->).
  exists jb, p'. split_and!; try done. by apply reaches_prefix in Hr.
Qed.

(** Audit events are told apart by their producer sequence: however any
    number of decisions, commits and releases interleave, two of them never send
    the ledger events with the same sequence, until the 64-bit counter has gone
    around once. *)
Theorem producer_sequences_unique cfg s0 jobs log s ps i j n :
  run_pool (s0, program cfg <$> jobs) log (s, ps) ->
  u64_wrap (producer_sequence s0) = producer_sequence s0 ->
  Z.of_nat (length (sequences log.*2)) <= 2 ^ 64 ->
  n ∈ omap as_written (of_thread i log) -> n ∈ omap as_written (of_thread j log) -> i = j.
Proof.
  intros Hrun Hn Hlen Hi Hj.
  destruct (pool_sequences _ _ _ _ _ Hrun Hn) as [Hc _].
  apply counts_from_NoDup in Hc; [|done..].
  assert (Hdrawn : forall k, n ∈ omap as_written (of_thread k log) -> n ∈ sequences (of_thread k log)).
  { intros k (ev & Hev & Hw)%list_elem_of_omap.
    destruct (thread_job _ _ _ _ _ _ _ Hrun Hev) as (jb & _ & _ & _ & _ & Hr).
    apply list_elem_of_split in Hev as (t1 & t2 & Ht). rewrite Ht in Hr.
    pose proof (upholds_prefix _ _ _ _ _ _ (program_sequence cfg jb) Hr n Hw) as Hin.
    rewrite Ht, sequences_app. apply elem_of_app. by left. }
  by apply (threads_disjoint as_sequence log i j n); [done|apply Hdrawn..].
Qed.

(** ** Signatures of replayed releases *)

Definition no_store (X : Type) (e : sidecarE X) : Prop :=
  match e with SignatureStore _ _ _ _ => False | _ => True end.

Lemma denied_no_store cfg ctx st d rc eh :
  all_effects no_store (run_record_denied_decision cfg ctx st d rc eh).
Proof. unfold run_record_denied_decision. eff_all. Qed.

Lemma decide_no_store cfg ctx req : all_effects no_store (run_through_reserve cfg ctx req).
Proof.
  unfold run_through_reserve. eff_all.
  - unfold attempt. apply all_effects_pbind; [|done].
    eapply all_effects_weaken; [|apply projector_readonly]. by intros ? [].
  - cbv zeta. destruct (bool_decide _); [apply denied_no_store|].
    unfold reserve. eff_all.
Qed.

Definition store_guard (j : job) (h : list (event sidecarE)) (ev : event sidecarE) : Prop :=
  forall key sig, as_store ev = Some (key, sig) ->
    match j with
    | JRelease ctx rid _ _ override _ => signature_stored ctx rid override h key sig
    | _ => False
    end.

Lemma program_store cfg j : upholds (store_guard j) [] (program cfg j).
Proof.
  destruct j; apply upholds_pbind; try done.
  - apply (upholds_all no_store); [|apply decide_no_store]. intros ? ? [] ? ?; cbn in *; done.
  - apply (upholds_all no_store); [intros ? ? [] ? ?; cbn in *; done|].
    unfold run_commit_estimated. eff_all.
  - eapply upholds_weaken; [|apply release_upholds]. by intros h ev [_ Hs].
Qed.

(** Where cached and looked-up signatures come from. *)
Lemma handle_signatures X (e : sidecarE X) s x s' :
  handle X e s x s' ->
  (forall key c, release_signature_cache s' !! key = Some c ->
     release_signature_cache s !! key = Some c \/ as_store (Ev e x) = Some (key, cached_signature c)) /\
  (forall key now sig, as_lookup (Ev e x) = Some (key, now, Some sig) ->
     exists c, release_signature_cache s !! key = Some c /\ cached_signature c = sig).
Proof.
  assert (Hsame : release_signature_cache s' = release_signature_cache s -> as_lookup (Ev e x) = None ->
    (forall key c, release_signature_cache s' !! key = Some c ->
       release_signature_cache s !! key = Some c \/ as_store (Ev e x) = Some (key, cached_signature c)) /\
    (forall key now sig, as_lookup (Ev e x) = Some (key, now, Some sig) ->
       exists c, release_signature_cache s !! key = Some c /\ cached_signature c = sig)).
  { intros -> ->. split; [auto|done]. }
  destruct e; cbn [handle as_store as_lookup] in *; intros Hh;
    try solve [apply Hsame; [by subst|done]];
    try solve [apply Hsame; [by destruct Hh as [_ Hh]; rewrite Hh|done]];
    try solve [apply Hsame; [by unfold next_producer_sequence in Hh; simplify_eq|done]].
  - split; [|done]. intros key0 c. subst s'. cbn. unfold store_release_signature.
    destruct (is_empty signature); [auto|].
    destruct (decide (key = key0)) as [<-|Hne].
    + rewrite lookup_insert_eq. intros [= <-]. auto.
    + rewrite lookup_insert_ne by done. intros [Hc _]%map_lookup_filter_Some. auto.
  - destruct Hh as (m & Hl & ->). unfold lookup_release_signature in Hl. cbn.
    destruct (release_signature_cache s !! key) as [c|] eqn:Hk; [destruct (now <? _)|]; simplify_eq.
    + split; [auto|]. intros key' now' sig [= <- <- <-]. eauto.
    + split; [|by intros ? ? ? [=]]. intros key' c' [_ Hc']%lookup_delete_Some. auto.
    + split; [auto|by intros ? ? ? [=]].
Qed.

Lemma pool_signatures s0 ps0 log s ps :
  run_pool (s0, ps0) log (s, ps) -> release_signature_cache s0 = ∅ ->
  (forall key c, release_signature_cache s !! key = Some c ->
     exists j, (key, cached_signature c) ∈ stores (of_thread j log)) /\
  (forall i key now sig, (key, now, Some sig) ∈ omap as_lookup (of_thread i log) ->
     exists j, (key, sig) ∈ stores (of_thread j log)).
Proof.
  intros Hrun Hempty. remember (s, ps) as c eqn:Hc. revert s ps Hc.
  induction Hrun as [|log c1 l c2 Hrun IH Hstep]; intros s ps Hc.
  - injection Hc as <- <-. rewrite Hempty. split; [intros ? ? [=]|intros ? ? ? ? []%not_elem_of_nil].
  - assert (Hmono : forall key sig j, (key, sig) ∈ stores (of_thread j log) ->
                      (key, sig) ∈ stores (of_thread j (log ++ l))).
    { intros key sig j Hin. unfold stores in *. rewrite of_thread_app, omap_app, elem_of_app. by left. }
    destruct Hstep as [s1 ps1 i X e k x s2 Hi Hh|s1 ps1 s2 Ho]; simplify_eq;
      destruct (IH _ _ eq_refl) as [IH1 IH2].
    + apply handle_signatures in Hh as [Hs Hl]. split.
      * intros key c [Hk|Hk]%Hs; [apply IH1 in Hk as [j Hj]; eauto|].
        exists i. unfold stores. rewrite of_thread_app, omap_app, elem_of_app. right.
        apply list_elem_of_omap. exists (Ev e x). split; [|done]. apply elem_of_thread. by left.
      * intros i' key now sig. rewrite of_thread_app, omap_app, elem_of_app.
        intros [[j Hj]%IH2|Hin]; [eauto|].
        apply list_elem_of_omap in Hin as (ev & Hev & Hlk).
        apply elem_of_thread, list_elem_of_singleton in Hev as [= -> ->].
        apply Hl in Hlk as (c & Hc & <-). apply IH1 in Hc as [j Hj]. eauto.
    + rewrite app_nil_r. destruct Ho as (_ & _ & _ & Hsig). rewrite Hsig. auto.
Qed.

(** A replayed release never fabricates a receipt. However decisions,
    commits and releases interleave, the nonempty signature a release answers
    with is that of the audit event of a release which the ledger answered as
    new, under the same tenant and ledger idempotency key: its own, or that of
    the handler it replays. *)
Theorem release_signature_original cfg s0 jobs log s ps i ctx rid reason meta override hash out :
  run_pool (s0, program cfg <$> jobs) log (s, ps) -> release_signature_cache s0 = ∅ ->
  jobs !! i = Some (JRelease ctx rid reason meta override hash) ->
  ps !! i = Some (Ret (RRelease (Ok out))) -> ro_audit_event_signature out <> EmptyString ->
  exists j ctx' rid' reason' meta' override' hash' rq ok ce,
    jobs !! j = Some (JRelease ctx' rid' reason' meta' override' hash') /\
    release_signature_cache_key (dc_tenant_id ctx') (ledger_release_key rid' override') =
      release_signature_cache_key (dc_tenant_id ctx) (ledger_release_key rid override) /\
    (rq, Ok (Some (Success ok))) ∈ releases (of_thread j log) /\
    (idem_key <$> rl_idempotency rq) = Some (ledger_release_key rid' override') /\
    rl_audit_event rq = Some ce /\ ro_audit_event_signature out = ce_producer_signature ce.
Proof.
  intros Hrun Hempty Hi Hps Hne.
  assert (He : exec (run_release cfg ctx rid reason meta override hash) (of_thread i log) (Ok out)).
  { destruct (pool_reaches _ _ _ _ _ _ _ Hrun) as [_ Hreach].
    destruct (Hreach i _ ltac:(by rewrite list_lookup_fmap, Hi)) as (p' & Hp' & Hr).
    rewrite Hps in Hp'. injection Hp' as <-. apply reaches_exec in Hr.
    apply exec_pbind in Hr as (t1 & t2 & a & -> & Hr & -> & [= ->]). by rewrite app_nil_r. }
  destruct (release_result _ _ _ _ _ _ _ _ _ He) as (rq & o & Hrel & Ho).
  destruct o as [ok|p|]; [| |done].
  - destruct Ho as (ce & Hce & Hsig).
    exists i, ctx, rid, reason, meta, override, hash, rq, ok, ce.
    assert (Hin : (rq, Ok (Some (Success ok))) ∈ releases (of_thread i log)) by (rewrite Hrel; by left).
    split_and!; try done.
    apply list_elem_of_omap in Hin as (ev & Hev & Has). apply list_elem_of_split in Hev as (t1 & t2 & Ht).
    rewrite Ht in He. apply exec_prefix in He.
    destruct (upholds_prefix _ _ _ _ _ _ (release_upholds cfg ctx rid reason meta override hash) He)
      as [Hsent _].
    by destruct (Hsent _ _ Has) as (_ & _ & Hkey & _).
  - destruct Ho as (now & x & Hlk & Hsig). destruct x as [sig|]; [|by rewrite Hsig in Hne].
    destruct (pool_signatures _ _ _ _ _ Hrun Hempty) as [_ Horig].
    destruct (Horig i _ now sig ltac:(apply list_elem_of_omap; eexists; split; [exact Hlk|done]))
      as (j & (ev & Hev & Has)%list_elem_of_omap).
    destruct (thread_job _ _ _ _ _ _ _ Hrun Hev) as (jb & _ & Hjb & _ & _ & Hr).
    apply list_elem_of_split in Hev as (t1 & t2 & Ht). rewrite Ht in Hr.
    pose proof (upholds_prefix _ _ _ _ _ _ (program_store cfg jb) Hr _ _ Has) as Hst.
    destruct jb as [| |ctx' rid' reason' meta' override' hash']; [done|done|].
    destruct Hst as (Hkey & rq' & ok & ce & Hin & _ & Hik & Hce & Hcs).
    exists j, ctx', rid', reason', meta', override', hash', rq', ok, ce.
    split_and!; try done.
    + rewrite Ht. unfold releases in *. rewrite omap_app. apply elem_of_app. by left.
    + by rewrite Hcs.
Qed.

End Concurrency.

(** ** Witnesses *)
Module ConcurrencyDemo.
Import Demo CalendarDemo DecisionDemo.

Definition init : SidecarState :=
  {| last_manifest_verified_at := Some (secs 90); contract_bundle := Some bundle; schema_bundle := None;
     fencing := Some fence; draining := false; producer_sequence := 41; reservation_cache := ∅;
     decision_id_to_reservation := ∅; release_signature_cache := ∅ |}.

(** The ledger replays a release once one was made; signatures name the event. *)
Definition outside (state : string) (X : Type) (e : sidecarE X) (s : SidecarState) : X :=
  match e in sidecarE X return X with
  | Sign ce => Ok ("sig-" +:+ z_str (ce_producer_sequence ce))
  | Release rq =>
      Ok (Some (if bool_decide (release_signature_cache s = ∅)
                then Success {| rl_ok_ledger_transaction_id := "tx4";
                                rl_ok_released_reservation_ids := ["ur1"] |}
                else Replayed {| rp_ledger_transaction_id := "tx4"; rp_operation_kind := "release";
                                 rp_audit_decision_event_id := EmptyString;
                                 rp_operation_id := EmptyString; rp_decision_id := EmptyString;
                                 rp_projection_ids := []; rp_ttl_expires_at := None |}))
  | e => SettleDemo.answer state _ e
  end.

Definition jobs : list job :=
  [JDecide ctx (request "50"); JRelease ctx "r1" Explicit None (Some "k9") None;
   JRelease ctx "r1" Explicit None (Some "k9") None].

(** The decision and the first release interleave; the second release follows. *)
Definition order : list nat := concat (replicate 30 [0; 1]%nat) ++ replicate 30 2%nat.

Definition pool_demo :=
  schedule (perform (outside "reserved")) order (init, program cfg <$> jobs).

Lemma pool_demo_run : run_pool (init, program cfg <$> jobs) pool_demo.1 pool_demo.2.
Proof.
  exact (schedule_run handle other (perform (outside "reserved")) order (init, program cfg <$> jobs)
           (perform_handle (outside "reserved"))).
Qed.

Lemma producer_sequences_unique_witness :
  omap as_written (of_thread 0 pool_demo.1) = [42] /\ omap as_written (of_thread 1 pool_demo.1) = [41] /\
  (forall n i j, n ∈ omap as_written (of_thread i pool_demo.1) ->
                 n ∈ omap as_written (of_thread j pool_demo.1) -> i = j).
Proof.
  split; [vm_compute; reflexivity|]. split; [vm_compute; reflexivity|].
  intros n i j Hi Hj.
  apply (producer_sequences_unique cfg init jobs pool_demo.1 pool_demo.2.1 pool_demo.2.2 i j n);
    [|vm_compute; reflexivity|vm_compute; discriminate|exact Hi|exact Hj].
  rewrite <- surjective_pairing. apply pool_demo_run.
Defined.

Definition third_reply : option (result DomainError ReleaseOutput) :=
  match pool_demo.2.2 !! 2%nat with Some (Ret (RRelease r)) => Some r | _ => None end.

(** The replay answers with the first release's signature, of event 41. *)
Lemma release_signature_original_witness :
  exists out, third_reply = Some (Ok out) /\ ro_audit_event_signature out = "sig-41" /\
    exists j rq ok ce, (rq, Ok (Some (Success ok))) ∈ releases (of_thread j pool_demo.1) /\
      rl_audit_event rq = Some ce /\ ro_audit_event_signature out = ce_producer_signature ce.
Proof.
  destruct third_reply as [[out|e]|] eqn:Hr; [|vm_compute in Hr; discriminate..].
  exists out. split; [reflexivity|].
  assert (Hsig : ro_audit_event_signature out = "sig-41")
    by (vm_compute in Hr; injection Hr as <-; reflexivity).
  split; [exact Hsig|].
  assert (Hps : pool_demo.2.2 !! 2%nat = Some (Ret (RRelease (Ok out)))).
  { unfold third_reply in Hr. destruct (pool_demo.2.2 !! 2%nat) as [[[]|]|] eqn:Hl; try discriminate Hr.
    congruence. }
  destruct (release_signature_original cfg init jobs pool_demo.1 pool_demo.2.1 pool_demo.2.2 2%nat
              ctx "r1" Explicit None (Some "k9") None out)
    as (j & ctx' & rid' & reason' & meta' & override' & hash' & rq & ok & ce & _ & _ & H1 & _ & H2 & H3).
  - rewrite <- surjective_pairing. apply pool_demo_run.
  - reflexivity.
  - reflexivity.
  - exact Hps.
  - rewrite Hsig. discriminate.
  - exists j, rq, ok, ce. auto.
Defined.

(** A lookup caches whatever state the ledger gives: a later hit may find a
    reservation that is not reserved. *)
Example cached_state_not_reserved :
  current_state <$> reservation_cache
    (schedule (perform (outside "committed")) (replicate 9 0%nat)
       (init, [program cfg (JCommit ctx SettleDemo.payload)])).2.1 !! ("r1" : uuid) = Some "committed".
Proof. vm_compute. reflexivity. Qed.

End ConcurrencyDemo.
