(* ===== verification/Fencing.v ===== *)
(** * The fencing lease

    [services/sidecar/src/fencing/mod.rs]: how an answer of the ledger becomes
    the active lease, and the background task that renews it and drains the
    sidecar when renewal keeps failing. The renewer is a function over what each
    turn of its loop meets: whether the sidecar is draining when it wakes, the
    ledger's answer, and the clock readings it takes. Log lines and the sleep
    itself are not modelled. *)

From S2P Require Import Prelude Deps Effects Proto Sidecar.

Section Fencing.
Context `{UuidLib, BigIntLib, ChronoLib}.

Record LeaseSuccess := {
  ls_epoch : Z;
  ls_ttl_expires_at : option Timestamp;
}.

Record LeaseDenied := {
  ld_current_holder_instance_id : string;
  ld_current_epoch : Z;
}.

(** [acquire_fencing_lease_response::Outcome]; the [oneof] may be unset. *)
Inductive LeaseOutcome :=
  | LeaseGranted (s : LeaseSuccess)
  | LeaseRefused (d : LeaseDenied)
  | LeaseError (e : ProtoError).

Definition AcquireFencingLeaseResponse : Type := option LeaseOutcome.

Definition with_fencing (f : option ActiveFencing) (s : SidecarState) : SidecarState :=
  {| last_manifest_verified_at := last_manifest_verified_at s; contract_bundle := contract_bundle s;
     schema_bundle := schema_bundle s; fencing := f; draining := draining s;
     producer_sequence := producer_sequence s; reservation_cache := reservation_cache s;
     decision_id_to_reservation := decision_id_to_reservation s;
     release_signature_cache := release_signature_cache s |}.

Definition mark_draining (s : SidecarState) : SidecarState :=
  {| last_manifest_verified_at := last_manifest_verified_at s; contract_bundle := contract_bundle s;
     schema_bundle := schema_bundle s; fencing := fencing s; draining := true;
     producer_sequence := producer_sequence s; reservation_cache := reservation_cache s;
     decision_id_to_reservation := decision_id_to_reservation s;
     release_signature_cache := release_signature_cache s |}.

Definition lease (scope_id : uuid) (epoch now expires : Z) : ActiveFencing :=
  {| af_scope_id := scope_id; af_epoch := epoch; af_acquired_at := now; af_renewed_at := now;
     af_ttl_expires_at := expires |}.

Definition install_active (now : Z) (scope_id : uuid) (epoch ttl_secs : Z) (s : SidecarState)
    : SidecarState :=
  with_fencing (Some (lease scope_id epoch now (now + secs ttl_secs))) s.

(** The lease of a grant: its own expiry if usable, else the requested one. *)
Definition granted (now : Z) (scope_id : uuid) (ttl_seconds : Z) (g : LeaseSuccess) : ActiveFencing :=
  lease scope_id (ls_epoch g) now
    (default (now + secs ttl_seconds)
       (t ← ls_ttl_expires_at g; from_timestamp (seconds t) (u32_wrap (nanos t)))).

Definition apply_lease_response (now : Z) (scope_id : uuid) (ttl_seconds : Z)
    (resp : AcquireFencingLeaseResponse) (s : SidecarState) : result DomainError unit * SidecarState :=
  match resp with
  | Some (LeaseGranted g) => (Ok tt, with_fencing (Some (granted now scope_id ttl_seconds g)) s)
  | Some (LeaseRefused d) =>
      (Err (FencingAcquire ("fencing lease denied: held by " +:+ ld_current_holder_instance_id d
                            +:+ " at epoch " +:+ z_str (ld_current_epoch d))), s)
  | Some (LeaseError e) =>
      (Err (FencingAcquire ("fencing lease error code=" +:+ z_str (pe_code e)
                            +:+ " msg=" +:+ pe_message e)), s)
  | None => (Err (FencingAcquire "AcquireFencingLease response empty oneof"), s)
  end.

Definition rpc_acquire (now : Z) (scope_id : uuid) (ttl_seconds : Z)
    (answer : result DomainError AcquireFencingLeaseResponse) (s : SidecarState)
    : result DomainError unit * SidecarState :=
  match answer with
  | Ok resp => apply_lease_response now scope_id ttl_seconds resp s
  | Err e => (Err e, s)
  end.

(** ** The renewer *)

(** What one turn of the loop meets. [tn_drained]: someone else began a drain
    before the renewer woke. The clock is read when a grant is applied
    ([tn_applied]) and after the call ([tn_now]). *)
Record Turn := {
  tn_drained : bool;
  tn_answer : result DomainError AcquireFencingLeaseResponse;
  tn_applied : Z;
  tn_now : Z;
}.

Record Renewer := {
  rn_state : SidecarState;
  rn_last_success : Z;
  rn_running : bool;
}.

(** [Duration::from_std(grace).unwrap_or_default()]: milliseconds within [i64]. *)
Definition grace_of (grace_window : Z) : Z :=
  if grace_window / 1000000 <=? i64_max then grace_window else 0.

Definition turn (scope_id : uuid) (ttl_seconds grace_window : Z) (r : Renewer) (i : Turn) : Renewer :=
  if negb (rn_running r) then r
  else
    let s := if tn_drained i then mark_draining (rn_state r) else rn_state r in
    if draining s then
      {| rn_state := s; rn_last_success := rn_last_success r; rn_running := false |}
    else
      match rpc_acquire (tn_applied i) scope_id ttl_seconds (tn_answer i) s with
      | (Ok _, s) => {| rn_state := s; rn_last_success := tn_now i; rn_running := true |}
      | (Err _, s) =>
          if grace_of grace_window <? tn_now i - rn_last_success r then
            {| rn_state := mark_draining s; rn_last_success := rn_last_success r; rn_running := false |}
          else {| rn_state := s; rn_last_success := rn_last_success r; rn_running := true |}
      end.

Definition spawn_renewer (scope_id : uuid) (ttl_seconds grace_window now : Z) (s : SidecarState)
    (turns : list Turn) : Renewer :=
  fold_left (turn scope_id ttl_seconds grace_window) turns
    {| rn_state := s; rn_last_success := now; rn_running := true |}.

(** ** What the renewer guarantees *)

(** The grant a turn obtained, if any. *)
Definition grant_of (i : Turn) : option LeaseSuccess :=
  match tn_answer i with Ok (Some (LeaseGranted g)) => Some g | _ => None end.

Definition failed (i : Turn) : Prop := grant_of i = None.

Lemma rpc_acquire_granted now scope ttl s i :
  rpc_acquire now scope ttl (tn_answer i) s =
    match grant_of i with
    | Some g => (Ok tt, with_fencing (Some (granted now scope ttl g)) s)
    | None => ((rpc_acquire now scope ttl (tn_answer i) s).1, s)
    end /\ (failed i -> exists e, (rpc_acquire now scope ttl (tn_answer i) s).1 = Err e).
Proof.
  unfold rpc_acquire, apply_lease_response, failed, grant_of.
  destruct (tn_answer i) as [[[]|]|]; (split; [reflexivity|try done; intros _; by eexists]).
Qed.

(** The state of a renewer that has met [turns]: the turns since the last grant
    all failed within the grace window, and the lease in force is that grant's. *)
Record renewed (scope : uuid) (ttl grace now : Z) (s : SidecarState) (turns : list Turn) (r : Renewer)
    : Prop := {
  rw_stopped : rn_running r = false -> draining (rn_state r) = true;
  rw_fresh : draining (rn_state r) = false ->
    exists before since, turns = before ++ since /\ Forall failed since /\
      Forall (fun i => tn_now i - rn_last_success r <= grace_of grace) since /\
      ((before = [] /\ rn_last_success r = now /\ fencing (rn_state r) = fencing s) \/
       exists i g, last before = Some i /\ grant_of i = Some g /\ rn_last_success r = tn_now i /\
         fencing (rn_state r) = Some (granted (tn_applied i) scope ttl g));
  rw_drained : draining (rn_state r) = true ->
    draining s = true \/
    exists i, i ∈ turns /\ (tn_drained i = true \/
                            (failed i /\ grace_of grace < tn_now i - rn_last_success r));
}.

Lemma spawn_renewed scope ttl grace now s turns :
  renewed scope ttl grace now s turns (spawn_renewer scope ttl grace now s turns).
Proof.
  unfold spawn_renewer. induction turns as [|i turns IH] using rev_ind.
  { split; [done| |by left]. intros _. exists [], []. split; [done|]. split; [constructor|].
    split; [constructor|]. by left. }
  rewrite fold_left_app. cbn [fold_left].
  set (r := fold_left _ turns _) in *. destruct IH as [Hstop Hfresh Hdrain].
  assert (Hold : draining (rn_state r) = true -> draining s = true \/
    exists j, j ∈ turns ++ [i] /\ (tn_drained j = true \/
                                   (failed j /\ grace_of grace < tn_now j - rn_last_success r))).
  { intros [?|(j & Hj & ?)]%Hdrain; [by left|]. right. exists j. rewrite elem_of_app. auto. }
  unfold turn. destruct (rn_running r) eqn:Hrun; cbn [negb].
  2:{ split; [auto| |exact Hold]. intros Hd. rewrite Hstop in Hd; done. }
  destruct (tn_drained i) eqn:Hi; cbn [mark_draining draining].
  { split; [done|done|]. intros _. right. exists i. rewrite elem_of_app, list_elem_of_singleton. auto. }
  destruct (draining (rn_state r)) eqn:Hd; [split; cbn; [done|congruence|intros _; by apply Hold]|].
  destruct (rpc_acquire_granted (tn_applied i) scope ttl (rn_state r) i) as [Hr Hf].
  rewrite Hr. clear Hr.
  destruct (grant_of i) as [g|] eqn:Hg.
  - split; [done| |cbn; congruence]. cbn. intros _. exists (turns ++ [i]), []. rewrite app_nil_r.
    split; [done|]. split; [constructor|]. split; [constructor|]. right. exists i, g.
    by rewrite last_snoc.
  - destruct (Hf Hg) as [e ->]. destruct (_ <? _) eqn:Hgrace.
    { split; [done|done|]. cbn. intros _. right. exists i. rewrite elem_of_app, list_elem_of_singleton.
      split; [by right|]. right. split; [done|blia]. }
    apply Z.ltb_ge in Hgrace. split; [done| |cbn; congruence]. cbn. intros _.
    destruct (Hfresh eq_refl) as (before & since & -> & Hfail & Hin & Hlast).
    exists before, (since ++ [i]). rewrite app_assoc. split; [done|].
    rewrite !Forall_app, !Forall_singleton. auto.
Qed.

(** C37: losing the lease drains the sidecar. Whatever answers the ledger gives
    and whenever someone else drains, once the renewer has met a list of turns
    either the sidecar is draining, or every turn since the last grant failed no
    later than the grace window after it and the lease in force is the one of
    that grant (the initial one before any); a refused renewal never changes the
    lease. And it drains for nothing else: a drain was there, was begun by
    another, or follows a turn that failed past the window. *)
Theorem renewer_fails_closed scope ttl grace now s turns :
  let r := spawn_renewer scope ttl grace now s turns in
  if draining (rn_state r) then
    draining s = true \/
    exists i, i ∈ turns /\ (tn_drained i = true \/
                            (failed i /\ grace_of grace < tn_now i - rn_last_success r))
  else
    exists before since, turns = before ++ since /\ Forall failed since /\
      Forall (fun i => tn_now i - rn_last_success r <= grace_of grace) since /\
      ((before = [] /\ rn_last_success r = now /\ fencing (rn_state r) = fencing s) \/
       exists i g, last before = Some i /\ grant_of i = Some g /\ rn_last_success r = tn_now i /\
         fencing (rn_state r) = Some (granted (tn_applied i) scope ttl g)).
Proof.
  intros r. destruct (spawn_renewed scope ttl grace now s turns) as [_ Hfresh Hdrain].
  destruct (draining (rn_state r)) eqn:Hd; [by apply Hdrain|by apply Hfresh].
Qed.

End Fencing.
