(* ===== verification/Adapter.v ===== *)
(** * The adapter's RPC handlers

    [services/sidecar/src/server/adapter_uds.rs]: what the sidecar answers an
    adapter on its socket. A handler is a program over [adapterE], the effects of
    [Sidecar] together with the idempotency cache of decisions, the ledger's
    approval calls and the stream of acknowledgements. Metrics, log lines, the
    unimplemented RPCs, the handshake and the drain stream are not modelled. *)

From S2P Require Import Prelude Idempotency Deps Effects Proto Contract SubMeter Sidecar Decision Settle.

Section Adapter.
Context `{UuidLib, BigIntLib, CryptoLib, !UuidBytes, ProstLib, ChronoLib, Calendar, !HexLib}.

(** ** Effects *)

Definition Cached := Lookup (DecisionResponse := DecisionResponse).

Inductive adapterE : Type -> Type :=
  | Side {X : Type} (e : sidecarE X) : adapterE X
  | IdempotencyGet (key fingerprint : string) : adapterE Cached
  | IdempotencyPut (key fingerprint : string) (r : DecisionResponse) : adapterE unit
  | GetApprovalForResume (req : GetApprovalForResumeRequest)
      : adapterE (result DomainError (option (ApprovalResumeContext + ProtoError)))
  | MarkApprovalBundled (req : MarkApprovalBundledRequest)
      : adapterE (result DomainError (option (MarkApprovalBundledSuccess + ProtoError)))
  (* the send on the channel of acknowledgements; its failure is ignored *)
  | SendAck (ack : result Status TraceEventAck) : adapterE unit.

Definition as_side (ev : event adapterE) : option (event sidecarE) :=
  match ev with
  | Ev e x => match e in adapterE X return X -> _ with
              | Side e => fun x => Some (Ev e x)
              | _ => fun _ => None
              end x
  end.

(** The effects of a trace on the sidecar, and its acknowledgements. *)
Definition side (t : list (event adapterE)) : list (event sidecarE) := omap as_side t.

Definition as_ack (ev : event adapterE) : option (result Status TraceEventAck) :=
  match ev with Ev (SendAck ack) _ => Some ack | _ => None end.

Definition acks (t : list (event adapterE)) := omap as_ack t.

Definition AdapterState : Type := SidecarState * IdempotencyCache (DecisionResponse := DecisionResponse).

Definition handle_adapter (X : Type) (e : adapterE X) (s : AdapterState) : X -> AdapterState -> Prop :=
  match e in adapterE X return X -> AdapterState -> Prop with
  | Side e => fun x s' => handle _ e s.1 x s'.1 /\ s'.2 = s.2
  | IdempotencyGet key fp => fun x s' => exists now, (x, s'.2) = get now key fp s.2 /\ s'.1 = s.1
  | IdempotencyPut key fp r => fun _ s' => exists now, s'.2 = put now key fp r s.2 /\ s'.1 = s.1
  | GetApprovalForResume _ | MarkApprovalBundled _ | SendAck _ => fun _ s' => s' = s
  end.

Definition other_adapter (s s' : AdapterState) : Prop := other s.1 s'.1 /\ s'.2 = s.2.

(** ** Handlers *)

Definition rpc (A : Type) : Type := M adapterE Status A.

Definition map_err {D D' A} (f : D -> D') (r : result D A) : result D' A :=
  match r with Ok a => Ok a | Err e => Err (f e) end.

(** A part of the handler that fails with a [DomainError]. *)
Definition domain {A} (m : handler A) : rpc A :=
  pbind (embed (@Side) m) (fun r => Ret (map_err to_status r)).

Definition side_ {A} (e : sidecarE A) : rpc A := act (Side e).

(** *** Decisions *)

Definition decision_context (cfg : SidecarConfig) (session_id : string) : DecisionContext :=
  {| dc_session_id := session_id; dc_workload_instance_id := cfg_workload_instance_id cfg;
     dc_tenant_id := cfg_tenant_id cfg; dc_region := cfg_region cfg |}.

Definition request_decision_inner (cfg : SidecarConfig) (req : DecisionRequest) : rpc DecisionResponse :=
  draining ← side_ IsDraining;
  _ ← lift (ensure (negb draining) (to_status Draining));
  let ctx := decision_context cfg (dr_session_id req) in
  let key := default EmptyString (idem_key <$> dr_idempotency req) in
  _ ← lift (ensure (negb (is_empty key))
              (to_status (InvalidRequest "DecisionRequest.idempotency.key required")));
  let fp := idempotency_request_fingerprint_hex ctx req in
  cached ← act (IdempotencyGet key fp);
  match cached with
  | Hit r => mret r
  | Conflict existing =>
      lift (Err (to_status (IdempotencyConflict
        ("DecisionRequest.idempotency.key reused with different request fingerprint (existing="
         +:+ existing +:+ ", current=" +:+ fp +:+ ")"))))
  | Miss =>
      _ ← domain check_active;
      out ← domain (run_through_reserve cfg ctx req);
      let response := build_response out in
      _ ← act (IdempotencyPut key fp response);
      mret response
  end.

(** *** Outcomes of an effect *)

Definition non_empty (s : string) : option string := if is_empty s then None else Some s.

Definition confirm_publish_outcome_inner (cfg : SidecarConfig) (req : PublishOutcomeRequest)
    : rpc PublishOutcomeResponse :=
  let answer event_id : rpc PublishOutcomeResponse :=
    now1 ← side_ Now;
    now2 ← side_ Now;
    mret {| pu_audit_outcome_event_id := event_id; pu_recorded_at := Some (event_time now1 now2) |} in
  if po_outcome req =? OUTCOME_APPLY_FAILED then
    decision_uuid ← lift (ok_or (uuid_parse (po_decision_id req)) (InvalidArgument, "decision_id parse"));
    reservation_id ← side_ (IndexGet decision_uuid);
    match reservation_id with
    | Some rid =>
        out ← domain (run_release cfg (decision_context cfg (po_session_id req)) rid RuntimeError
                        (non_empty (po_adapter_error req)) None None);
        answer (ro_ledger_transaction_id out)
    | None =>
        lift (Err (FailedPrecondition,
          "reservation context lost (sidecar restart); reservation will TTL-release"))
    end
  else answer EmptyString.

(** *** The event stream *)

Definition accepted (event_id : string) : TraceEventAck :=
  {| ta_event_id := event_id; ta_status := ACK_ACCEPTED; ta_error := None |}.

Definition rejected (event_id : string) (e : ProtoError) : TraceEventAck :=
  {| ta_event_id := event_id; ta_status := ACK_REJECTED; ta_error := Some e |}.

Definition unspecified_error (message : string) : ProtoError :=
  {| pe_code := code_number CODE_UNSPECIFIED; pe_message := message; pe_summary := EmptyString |}.

(** What an LLM_CALL_POST drives: a commit, a release, or nothing. A rejection
    is a [ProtoError] of its own. *)
Definition settle_post (cfg : SidecarConfig) (session_id : string) (payload : LlmCallPostPayload)
    : M sidecarE ProtoError string :=
  let dctx := decision_context cfg session_id in
  let outcome := lp_outcome payload in
  if outcome =? LLM_SUCCESS then
    pbind (run_commit_estimated cfg dctx payload)
      (fun r => Ret (map_err to_proto (co_ledger_transaction_id <$> r)))
  else if (outcome =? LLM_PROVIDER_ERROR) || (outcome =? LLM_CLIENT_TIMEOUT)
          || (outcome =? LLM_RUN_ABORTED) then
    let reason := if outcome =? LLM_RUN_ABORTED then RunAborted else RuntimeError in
    match uuid_parse (lp_reservation_id payload) with
    | None => Ret (Err (unspecified_error "reservation_id parse"))
    | Some rid =>
        pbind (run_release cfg dctx rid reason (non_empty (lp_provider_event_id payload)) None None)
          (fun r => Ret (map_err to_proto (ro_ledger_transaction_id <$> r)))
    end
  else Ret (Err (to_proto (InvalidRequest "LLM_CALL_POST outcome=UNSPECIFIED"))).

Definition trace_event (cfg : SidecarConfig) (ev : TraceEvent) : prog adapterE TraceEventAck :=
  Vis (Side NewUuid) (fun id =>
    let event_id := uuid_str id in
    if negb (te_kind ev =? EVENT_LLM_CALL_POST) then Ret (accepted event_id)
    else match te_llm_call_post ev with
         | None => Ret (rejected event_id (unspecified_error "LLM_CALL_POST missing typed payload"))
         | Some payload =>
             pbind (embed (@Side) (settle_post cfg (te_session_id ev) payload)) (fun r =>
               Ret (match r with Ok _ => accepted event_id | Err e => rejected event_id e end))
         end).

(** The task behind a stream, over the messages it receives: it ends with the
    stream, or after passing on the first transport error. *)
Fixpoint emit_trace_events_inner (cfg : SidecarConfig) (stream : list (result Status TraceEvent))
    : prog adapterE unit :=
  match stream with
  | [] => Ret tt
  | Err e :: _ => Vis (SendAck (Err e)) (fun _ => Ret tt)
  | Ok ev :: stream =>
      pbind (trace_event cfg ev) (fun ack =>
        Vis (SendAck (Ok ack)) (fun _ => emit_trace_events_inner cfg stream))
  end.

(** *** Explicit release *)

Definition release_reason_of (c : string) : option ReleaseReason :=
  if (c =?s "provider_error") || (c =?s "runtime_error") || (c =?s "client_timeout")
  then Some RuntimeError
  else if (c =?s "run_aborted") || (c =?s "run_cancelled") then Some RunAborted
  else None.

Definition release_reservation_inner (cfg : SidecarConfig) (req : ReleaseReservationRequest)
    : rpc ReleaseReservationResponse :=
  _ ← lift (ensure (is_empty (rlr_tenant_id req) || (rlr_tenant_id req =?s cfg_tenant_id cfg))
              (PermissionDenied, "tenant_id '" +:+ rlr_tenant_id req
                 +:+ "' does not match sidecar tenant '" +:+ cfg_tenant_id cfg +:+ "'"));
  reservation_uuid ← lift (ok_or (uuid_parse (rlr_reservation_id req))
    (InvalidArgument, "reservation_id '" +:+ rlr_reservation_id req +:+ "' is not a valid UUID"));
  let reason := default Explicit (head (omap release_reason_of (rlr_reason_codes req))) in
  let dctx :=
    {| dc_session_id := rlr_session_id req;
       dc_workload_instance_id := default (cfg_workload_instance_id cfg)
                                    (non_empty (rlr_workload_instance_id req));
       dc_tenant_id := cfg_tenant_id cfg; dc_region := cfg_region cfg |} in
  out ← domain (run_release cfg dctx reservation_uuid reason
                  (non_empty (String.concat "," (rlr_reason_codes req)))
                  (non_empty (rlr_idempotency_key req)) None);
  mret {| rz_audit_event_signature := ro_audit_event_signature out;
          rz_ledger_transaction_id := ro_ledger_transaction_id out;
          rz_released_reservation_ids := ro_released_reservation_ids out |}.

(** ** Reading traces *)

Abbreviation into := (inject_ev (@Side)).

Lemma side_into t : side (into <$> t) = t.
Proof. unfold side. induction t as [|[X e x] t IH]; [done|]. cbn. by rewrite IH. Qed.

Lemma side_app t1 t2 : side (t1 ++ t2) = side t1 ++ side t2.
Proof. apply omap_app. Qed.

Lemma acks_app t1 t2 : acks (t1 ++ t2) = acks t1 ++ acks t2.
Proof. apply omap_app. Qed.

Lemma acks_into t : acks (into <$> t) = [].
Proof. unfold acks. by induction t as [|[X e x] t IH]. Qed.

Lemma exec_domain {A} (m : handler A) t r :
  exec (domain m) t r <-> exists t' r', t = into <$> t' /\ exec m t' r' /\ r = map_err to_status r'.
Proof.
  unfold domain. rewrite exec_pbind. setoid_rewrite exec_embed. split.
  - intros (t1 & t2 & a & -> & (t' & -> & Ht) & -> & ->). rewrite app_nil_r. eauto.
  - intros (t' & r' & -> & Ht & ->). exists (into <$> t'), [], r'. rewrite app_nil_r. split; [done|]. split; [eauto|done].
Qed.

Lemma exec_domain_ok {A} (m : handler A) t a :
  exec (domain m) t (Ok a) <-> exists t', t = into <$> t' /\ exec m t' (Ok a).
Proof.
  rewrite exec_domain. split; [|intros (t' & -> & Ht); by exists t', (Ok a)].
  intros (t' & [b|e] & -> & Ht & Hr); simplify_eq/=. eauto.
Qed.

Lemma prefix_domain {A} (m : handler A) t :
  prefix (domain m) t <-> exists t', t = into <$> t' /\ prefix m t'.
Proof.
  unfold domain. rewrite prefix_pbind. setoid_rewrite prefix_embed. setoid_rewrite exec_embed.
  split; [|by left]. intros [?|(t1 & t2 & a & -> & (t' & -> & Ht) & Hr)]; [done|].
  exists t'. destruct Hr as [->|[]]. rewrite app_nil_r. split; [done|]. by eapply exec_prefix.
Qed.

Lemma exec_side {A} (e : sidecarE A) t r : exec (side_ e) t r <-> exists x, t = [into (Ev e x)] /\ r = Ok x.
Proof. apply exec_act. Qed.

(** ** A decision request *)

(** What opens the way to a transaction: the sidecar was not draining, and the
    fencing lease had not expired at a reading of the clock. *)
Definition leased (t : list (event sidecarE)) : Prop :=
  Ev IsDraining false ∈ t /\ Forall (ev_sat quiet) t /\
  exists f now, Ev ReadFencing (Some f) ∈ t /\ Ev Now now ∈ t /\ now <= af_ttl_expires_at f.

Definition request_key (req : DecisionRequest) : string :=
  default EmptyString (idem_key <$> dr_idempotency req).

Definition request_fingerprint (cfg : SidecarConfig) (req : DecisionRequest) : string :=
  idempotency_request_fingerprint_hex (decision_context cfg (dr_session_id req)) req.

(** The response says what the transaction decided; the decision's number is the one
    of the adapter protocol, and a stop is final. *)
Definition reports (out : DecisionOutput) (r : DecisionResponse) : Prop :=
  (do_decision out, rs_decision r) ∈
    [(Unspecified, 0); (Continue, 1); (Degrade, 2); (Skip, 3); (Stop, 4); (RequireApproval, 5);
     (StopRunProjection, 6)] /\
  (rs_terminal r = true <-> do_decision out = Stop \/ do_decision out = StopRunProjection) /\
  rs_decision_id r = uuid_str (do_decision_id out) /\
  rs_audit_decision_event_id r = uuid_str (do_audit_decision_event_id out) /\
  rs_reservation_ids r = do_reservation_ids out /\ rs_ledger_transaction_id r = do_ledger_transaction_id out /\
  rs_ttl_expires_at r = do_ttl_expires_at out /\ rs_approval_request_id r = do_approval_request_id out /\
  rs_reason_codes r = do_reason_codes out /\ rs_matched_rule_ids r = do_matched_rule_ids out /\
  rs_effect_hash r = do_effect_hash out /\ rs_run_code_triggered r = do_run_code_triggered out /\
  rs_subscription_meter r = do_subscription_meter out.

Lemma build_response_reports out : reports out (build_response out).
Proof.
  unfold reports. cbn. split_and!; try done; [destruct (do_decision out); set_solver|].
  rewrite orb_true_iff, !bool_decide_eq_true. done.
Qed.

(** [t] holds a leased transaction for [req] that ended with the response [r]. *)
Definition transacted_as (cfg : SidecarConfig) (req : DecisionRequest) (t : list (event sidecarE))
    (r : DecisionResponse) : Prop :=
  exists t0 t1 rest out, t = t0 ++ t1 ++ rest /\ leased t0 /\
    exec (run_through_reserve cfg (decision_context cfg (dr_session_id req)) req) t1 (Ok out) /\
    reports out r.

Lemma transacted_as_app cfg req t t' r : transacted_as cfg req t r -> transacted_as cfg req (t ++ t') r.
Proof.
  intros (t0 & t1 & rest & out & -> & Hl & He & Hr). exists t0, t1, (rest ++ t'), out.
  by rewrite !app_assoc.
Qed.

Definition as_put (ev : event adapterE) : option (string * string * DecisionResponse) :=
  match ev with Ev (IdempotencyPut key fp r) _ => Some (key, fp, r) | _ => None end.

(** What a request may do, given what it did before. *)
Definition request_guard (cfg : SidecarConfig) (req : DecisionRequest) (h : list (event adapterE))
    (ev : event adapterE) : Prop :=
  (forall sev, as_side ev = Some sev -> ~ ev_sat quiet sev ->
     request_key req <> EmptyString /\
     Ev (IdempotencyGet (request_key req) (request_fingerprint cfg req)) Miss ∈ h /\
     exists t0 t1, side h = t0 ++ t1 /\ leased t0) /\
  (forall key fp r, as_put ev = Some (key, fp, r) ->
     key = request_key req /\ fp = request_fingerprint cfg req /\ transacted_as cfg req (side h) r).

(** Reading steps satisfy it whatever came before. *)
Definition harmless (X : Type) (e : adapterE X) : Prop :=
  match e with Side e => quiet _ e | IdempotencyPut _ _ _ => False | _ => True end.

Lemma harmless_guard {R} cfg req h (p : prog adapterE R) :
  all_effects harmless p -> upholds (request_guard cfg req) h p.
Proof.
  apply upholds_all. intros h' X [] x He; (split; [|try done]); try done.
  cbn in He. intros sev [= <-]. done.
Qed.

Lemma harmless_domain {A} (m : handler A) : all_effects quiet m -> all_effects harmless (domain m).
Proof.
  intros Hm. apply all_effects_pbind; [|done]. apply all_effects_embed.
  eapply all_effects_weaken; [|done]. done.
Qed.

Lemma check_active_leased t t' u :
  Ev IsDraining false ∈ t -> Forall (ev_sat quiet) t -> exec check_active t' (Ok u) -> leased (t ++ t').
Proof.
  intros Hd Hq He. pose proof (all_effects_exec quiet _ _ _ check_active_quiet He) as Hq'.
  apply check_active_ok in He as (f & now & Hf & Hn & Hle).
  split; [apply elem_of_app; by left|]. split; [by apply Forall_app|].
  exists f, now. rewrite !elem_of_app. auto.
Qed.

Lemma request_upholds cfg req : upholds (request_guard cfg req) [] (request_decision_inner cfg req).
Proof.
  unfold request_decision_inner.
  apply upholds_bind; [by apply harmless_guard|]. intros t0 d (x & -> & [= <-])%exec_side.
  apply upholds_bind; [by apply harmless_guard|]. intros t1 u [-> Hd%symmetry%ensure_ok]%exec_lift.
  apply upholds_bind; [by apply harmless_guard|]. intros t1 v [-> Hk%symmetry%ensure_ok]%exec_lift.
  destruct d; [done|]. fold (request_key req) in *. fold (request_fingerprint cfg req).
  apply upholds_bind; [by apply harmless_guard|]. intros t1 c (x & -> & [= <-])%exec_act.
  destruct c as [r| |e]; [by apply harmless_guard| |by apply harmless_guard].
  apply upholds_bind; [apply harmless_guard, harmless_domain; auto with quiet|].
  intros t1 w (t' & -> & Ha)%exec_domain_ok.
  assert (Hl : leased ([Ev IsDraining false] ++ t')).
  { eapply check_active_leased; [by left|by repeat constructor|exact Ha]. }
  apply upholds_bind.
  { unfold domain. apply upholds_pbind; [|done]. apply upholds_embed.
    apply (upholds_all (fun _ _ => True)); [|]. 2:{ clear. induction (run_through_reserve _ _ _); cbn; auto. }
    intros h X e x' _. split; [|done]. intros sev [= <-] _. split; [intros Hempty; by rewrite Hempty in Hk|].
    split; [rewrite !elem_of_app, !list_elem_of_singleton; auto|].
    exists ([Ev IsDraining false] ++ t'), h. rewrite !side_app, !side_into. done. }
  intros t2 out (t2' & -> & Ho)%exec_domain_ok.
  apply upholds_bind; [|by intros; apply harmless_guard].
  intros []. split; [|done]. split; [done|]. intros key fp r [= <- <- <-].
  split; [done|]. split; [done|]. exists ([Ev IsDraining false] ++ t'), t2', [], out.
  split; [rewrite !side_app, !side_into; cbn; by rewrite !app_nil_r|].
  split; [done|]. split; [done|apply build_response_reports].
Qed.

(** No decision without a lease. A request makes no call to the ledger or the
    projector before it found the sidecar not draining, its key nonempty and not
    in the idempotency cache, and the fencing lease unexpired at a reading of the
    clock; whatever other handlers do meanwhile. *)
Theorem request_leased cfg req t1 ev t2 sev :
  prefix (request_decision_inner cfg req) (t1 ++ ev :: t2) ->
  as_side ev = Some sev -> ~ ev_sat quiet sev ->
  request_key req <> EmptyString /\
  Ev (IdempotencyGet (request_key req) (request_fingerprint cfg req)) Miss ∈ t1 /\
  exists t0 t3, side t1 = t0 ++ t3 /\ leased t0.
Proof.
  intros Hp Hev Hq. exact (proj1 (upholds_prefix _ [] _ _ _ _ (request_upholds cfg req) Hp) sev Hev Hq).
Qed.

Lemma request_answered cfg req t r :
  exec (request_decision_inner cfg req) t (Ok r) ->
  Ev (IdempotencyGet (request_key req) (request_fingerprint cfg req)) (Hit r) ∈ t \/
  transacted_as cfg req (side t) r.
Proof.
  unfold request_decision_inner.
  intros (t0 & t1 & d & -> & (x & -> & [= <-])%exec_side & He)%exec_bind_ok.
  apply exec_bind_ok in He as (t2 & t3 & u & -> & [-> Hd%symmetry%ensure_ok]%exec_lift & He).
  apply exec_bind_ok in He as (t2 & t4 & v & -> & [-> Hk%symmetry%ensure_ok]%exec_lift & He).
  destruct d; [done|]. fold (request_key req) in *. fold (request_fingerprint cfg req) in *.
  apply exec_bind_ok in He as (t2 & t5 & c & -> & (x & -> & [= <-])%exec_act & He).
  destruct c as [r0| |e]; [|right|by apply exec_lift in He as [_ [=]]].
  - left. apply exec_ret in He as [-> [= ->]]. rewrite !elem_of_app, !list_elem_of_singleton. auto.
  - apply exec_bind_ok in He as (t2 & t6 & w & -> & (t' & -> & Ha)%exec_domain_ok & He).
    apply exec_bind_ok in He as (t2 & t7 & out & -> & (t2' & -> & Ho)%exec_domain_ok & He).
    apply exec_bind_ok in He as (t2 & t8 & [] & -> & (x & -> & _)%exec_act & [-> [= ->]]%exec_ret).
    exists ([Ev IsDraining false] ++ t'), t2', [], out.
    split; [rewrite !side_app, !side_into; cbn; by rewrite !app_nil_r|].
    split; [eapply check_active_leased; [by left|by repeat constructor|exact Ha]|].
    split; [done|apply build_response_reports].
Qed.

(** ** The event stream *)

Definition no_commit (X : Type) (e : sidecarE X) : Prop :=
  match e with CommitEstimated _ => False | _ => True end.
Definition no_release (X : Type) (e : sidecarE X) : Prop :=
  match e with Release _ => False | _ => True end.

Lemma no_commit_nil t : Forall (ev_sat no_commit) t -> commits t = [].
Proof. unfold commits. induction 1 as [|[X e x] t He _ IH]; [done|]. by destruct e. Qed.
Lemma no_release_nil t : Forall (ev_sat no_release) t -> releases t = [].
Proof. unfold releases. induction 1 as [|[X e x] t He _ IH]; [done|]. by destruct e. Qed.

Lemma commit_no_release cfg ctx payload : all_effects no_release (run_commit_estimated cfg ctx payload).
Proof. unfold run_commit_estimated. eff_all. Qed.
Lemma release_no_commit cfg ctx rid reason meta override hash :
  all_effects no_commit (run_release cfg ctx rid reason meta override hash).
Proof. unfold run_release. eff_all. Qed.

(** The reason a failed call is released with. *)
Definition failure_reason (outcome : Z) : option ReleaseReason :=
  if (outcome =? LLM_PROVIDER_ERROR) || (outcome =? LLM_CLIENT_TIMEOUT) then Some RuntimeError
  else if outcome =? LLM_RUN_ABORTED then Some RunAborted
  else None.

(** What the calls of a post must be for its acknowledgement: an accepted one
    settled once, by a commit or by a release as the outcome says; a rejected one
    settled nothing. *)
Definition post_calls (payload : LlmCallPostPayload) (acc : bool) (t : list (event sidecarE)) : Prop :=
  if acc then
    (lp_outcome payload = LLM_SUCCESS /\ releases t = [] /\
       exists rq ans, commits t = [(rq, ans)] /\ settled ans) \/
    (commits t = [] /\ exists reason rq ans, failure_reason (lp_outcome payload) = Some reason /\
       releases t = [(rq, ans)] /\ settled ans /\ rl_reason rq = release_reason_number reason)
  else
    (forall rq ans, (rq, ans) ∈ commits t -> ~ settled ans) /\
    (forall rq ans, (rq, ans) ∈ releases t -> ~ settled ans).

Lemma settle_post_calls cfg sid payload t r :
  exec (settle_post cfg sid payload) t r -> post_calls payload (is_ok r) t.
Proof.
  assert (Hnil : post_calls payload false []).
  { split; intros ? ? []%not_elem_of_nil. }
  unfold settle_post. destruct (_ =? LLM_SUCCESS) eqn:Hs.
  { intros (t1 & t2 & a & -> & He & -> & ->)%exec_pbind. rewrite app_nil_r.
    pose proof (no_release_nil _ (all_effects_exec _ _ _ _ (commit_no_release _ _ _) He)) as Hr.
    apply commit_cases in He as [[[e ->] Hn]|(out & rq & ans & rid & resv & -> & Hc & Hset & _)]; cbn.
    - split; [done|]. rewrite Hr. intros ? ? []%not_elem_of_nil.
    - left. split; [by apply Z.eqb_eq|]. split; [done|]. eauto. }
  destruct (_ || _) eqn:Hf; [|by intros [-> ->]].
  destruct (uuid_parse _) as [rid|]; [|by intros [-> ->]].
  intros (t1 & t2 & a & -> & He & -> & ->)%exec_pbind. rewrite app_nil_r.
  pose proof (no_commit_nil _ (all_effects_exec _ _ _ _ (release_no_commit _ _ _ _ _ _ _) He)) as Hc.
  apply release_cases in He as [[[e ->] Hn]|(out & rq & ans & -> & Hr & Hset & Hreason)]; cbn.
  - split; [|done]. rewrite Hc. intros ? ? []%not_elem_of_nil.
  - right. split; [done|]. eexists _, rq, ans. split; [|split; [done|split; [done|exact Hreason]]].
    unfold failure_reason. destruct (_ =? LLM_RUN_ABORTED) eqn:Ha.
    + apply Z.eqb_eq in Ha as ->. done.
    + rewrite orb_false_r in Hf. by rewrite Hf.
Qed.

(** What one message of the stream must leave in the trace. *)
Inductive served : result Status TraceEvent -> list (event adapterE) -> Prop :=
  | served_error e t : side t = [] -> acks t = [Err e] -> served (Err e) t
  | served_event ev t id : te_kind ev <> EVENT_LLM_CALL_POST ->
      Forall (ev_sat quiet) (side t) -> acks t = [Ok (accepted id)] -> served (Ok ev) t
  | served_untyped ev t id : te_kind ev = EVENT_LLM_CALL_POST -> te_llm_call_post ev = None ->
      Forall (ev_sat quiet) (side t) ->
      acks t = [Ok (rejected id (unspecified_error "LLM_CALL_POST missing typed payload"))] -> served (Ok ev) t
  | served_post ev t payload ack : te_kind ev = EVENT_LLM_CALL_POST -> te_llm_call_post ev = Some payload ->
      acks t = [Ok ack] -> ta_status ack = (if ta_error ack is Some _ then ACK_REJECTED else ACK_ACCEPTED) ->
      post_calls payload (if ta_error ack is Some _ then false else true) (side t) -> served (Ok ev) t.

(** The messages the task reads: up to and with the first transport error. *)
Fixpoint read_messages (stream : list (result Status TraceEvent)) : list (result Status TraceEvent) :=
  match stream with
  | [] => []
  | Err e :: _ => [Err e]
  | Ok ev :: stream => Ok ev :: read_messages stream
  end.

Lemma trace_event_served cfg ev t ack :
  exec (trace_event cfg ev) t ack -> served (Ok ev) (t ++ [Ev (SendAck (Ok ack)) tt]).
Proof.
  unfold trace_event. cbn [exec]. intros (id & t' & -> & He).
  destruct (te_kind ev =? EVENT_LLM_CALL_POST) eqn:Hk; cbn [negb] in He.
  2:{ destruct He as [-> ->]. eapply served_event; [by apply Z.eqb_neq|by repeat constructor|done]. }
  apply Z.eqb_eq in Hk. destruct (te_llm_call_post ev) as [payload|] eqn:Hp.
  2:{ destruct He as [-> ->]. eapply served_untyped; [done|done|by repeat constructor|done]. }
  apply exec_pbind in He as (t1 & t2 & r & -> & (t1' & -> & He)%exec_embed & -> & ->).
  apply settle_post_calls in He. rewrite app_nil_r.
  change (Ev (Side NewUuid) id :: (into <$> t1')) with (into <$> (Ev NewUuid id :: t1')).
  eapply served_post; [done|done|by rewrite acks_app, acks_into|by destruct r|].
  rewrite side_app, side_into, app_nil_r.
  assert (Hnew : forall b, post_calls payload b t1' -> post_calls payload b (Ev NewUuid id :: t1')) by done.
  apply Hnew. by destruct r.
Qed.

(** Every event of a stream is acknowledged, in order, for what it did. The
    task answers each message it reads, up to the first transport error, with
    exactly one acknowledgement before it takes the next: an LLM call's post is
    accepted exactly when the ledger settled it, by one commit after a success
    and by one release with the matching reason after a failure; a rejected one
    settled nothing, and no other event calls the ledger. *)
Theorem stream_acknowledged cfg stream t :
  exec (emit_trace_events_inner cfg stream) t tt ->
  exists segments, t = concat segments /\ Forall2 served (read_messages stream) segments.
Proof.
  revert t; induction stream as [|[ev|e] stream IH]; intros t; cbn [emit_trace_events_inner read_messages].
  - intros [-> _]. by exists [].
  - intros (t1 & t2 & ack & -> & He & ([] & t3 & -> & Ht))%exec_pbind.
    destruct (IH _ Ht) as (segments & -> & Hs).
    exists ((t1 ++ [Ev (SendAck (Ok ack)) tt]) :: segments). cbn. rewrite <- app_assoc.
    split; [done|]. constructor; [by eapply trace_event_served|done].
  - intros ([] & t1 & -> & -> & _). exists [[Ev (SendAck (Err e)) tt]]. split; [done|].
    constructor; [by constructor|constructor].
Qed.

End Adapter.

(** ** Witnesses *)
Module AdapterDemo.
Import Demo CalendarDemo DecisionDemo.

(** An empty cache, a ledger that settles, and approvals unknown. *)
Definition answer (X : Type) (e : adapterE X) : X :=
  match e in adapterE X return X with
  | Side e => SettleDemo.answer "reserved" _ e
  | IdempotencyGet _ _ => Miss
  | IdempotencyPut _ _ _ => tt
  | GetApprovalForResume _ => Ok None
  | MarkApprovalBundled _ => Ok None
  | SendAck _ => tt
  end.

Definition request_run := run answer (request_decision_inner cfg (request "50")).

Lemma request_leased_witness :
  exists t1 ev t2, request_run.1 = t1 ++ ev :: t2 /\
    (exists q ans, as_side ev = Some (Ev (QueryDecisionOutcome q) ans)) /\
    request_key (request "50") = "k1" /\ exists t0 t3, side t1 = t0 ++ t3 /\ leased t0.
Proof.
  destruct (nth_error request_run.1 7) as [ev|] eqn:Hev; [|vm_compute in Hev; discriminate].
  assert (Hq : exists q ans, as_side ev = Some (Ev (QueryDecisionOutcome q) ans))
    by (vm_compute in Hev; injection Hev as <-; cbn; eauto).
  assert (Hsplit : request_run.1 = take 7 request_run.1 ++ ev :: drop 8 request_run.1).
  { vm_compute in Hev. injection Hev as <-. vm_compute. reflexivity. }
  exists (take 7 request_run.1), ev, (drop 8 request_run.1). split; [exact Hsplit|]. split; [exact Hq|].
  split; [reflexivity|]. destruct Hq as (q & ans & Hq).
  apply (request_leased cfg (request "50") (take 7 request_run.1) ev (drop 8 request_run.1)
           (Ev (QueryDecisionOutcome q) ans)); [|exact Hq|intros []].
  rewrite <- Hsplit. eapply exec_prefix, run_exec.
Defined.

Definition post (outcome : Z) : TraceEvent :=
  {| te_session_id := "s1"; te_ids := None; te_kind := EVENT_LLM_CALL_POST; te_event_time := None;
     te_llm_call_post := Some {| lp_reservation_id := "ur1"; lp_provider_reported_amount_atomic := EmptyString;
       lp_unit := Some usd; lp_pricing := None; lp_provider_event_id := EmptyString; lp_outcome := outcome;
       lp_estimated_amount_atomic := "40"; lp_actual_input_tokens := None; lp_actual_output_tokens := None;
       lp_delta_b_ratio := None; lp_delta_c_ratio := None |} |}.

(** A success, a client's time-out, a post without outcome, a broken stream. *)
Definition stream : list (result Status TraceEvent) :=
  [Ok (post LLM_SUCCESS); Ok (post LLM_CLIENT_TIMEOUT); Ok (post 0); Err (Unavailable, "reset");
   Ok (post LLM_SUCCESS)].

Definition stream_run := run answer (emit_trace_events_inner cfg stream).

Lemma stream_acknowledged_witness :
  map_err fst <$> ((fun r => ta_status <$> r) <$> acks stream_run.1) =
    [Ok ACK_ACCEPTED; Ok ACK_ACCEPTED; Ok ACK_REJECTED; Err Unavailable] /\
  length (commits (side stream_run.1)) = 1%nat /\ length (releases (side stream_run.1)) = 1%nat /\
  exists segments, stream_run.1 = concat segments /\ Forall2 served (read_messages stream) segments.
Proof.
  split; [vm_compute; reflexivity|]. split; [vm_compute; reflexivity|]. split; [vm_compute; reflexivity|].
  apply (stream_acknowledged cfg stream stream_run.1).
  assert (Hu : stream_run.2 = tt) by (destruct stream_run.2; reflexivity).
  rewrite <- Hu. apply run_exec.
Defined.

End AdapterDemo.
