(* ===== verification/Resume.v ===== *)
(** * Resuming an approved decision

    [services/sidecar/src/server/adapter_uds.rs], [resume_after_approval_inner]
    and its module [approval_resume_payload]: the JSON a REQUIRE_APPROVAL
    decision left in the ledger is read back, checked against the contract bundle
    now in force, and turned into the reservation that was put off. A JSON text
    is the tree [serde_json] reads from it; the texts of its errors and of the
    parsers of hex and integers are not modelled. *)

From S2P Require Import Prelude Idempotency Deps Effects Proto Contract SubMeter Sidecar Decision Settle Adapter.

Section Resume.
Context `{UuidLib, BigIntLib, CryptoLib, !UuidBytes, ProstLib, ChronoLib, Calendar, !HexLib}.

(** ** Reading a structure from JSON: [#[derive(Deserialize)]] *)

Definition as_str (j : json) : option string := match j with JStr s => Some s | _ => None end.

Definition as_u64 (j : json) : option Z :=
  match j with JInt z => if is_u64 z then Some z else None | _ => None end.

Definition as_strs (j : json) : option (list string) :=
  match j with JArr l => mapM as_str l | _ => None end.

(** The members by name: those of an object, where a known name may occur once;
    or those of an array, in the order of the structure. *)
Definition members (names : list string) (j : json) : option (list (string * json)) :=
  match j with
  | JObj o =>
      if forallb (fun n => (length (List.filter (fun kv => kv.1 =?s n) o) <=? 1)%nat) names
      then Some o else None
  | JArr l => if (length l <=? length names)%nat then Some (zip names l) else None
  | _ => None
  end.

Definition required {A} (read : json -> option A) (name : string) (o : list (string * json)) : option A :=
  al_get name o ≫= read.

(** [#[serde(default)]]. *)
Definition defaulted {A} (read : json -> option A) (d : A) (name : string) (o : list (string * json))
    : option A :=
  match al_get name o with Some j => read j | None => Some d end.

(** ** The payload of an approval *)

Record ResumeDecision := {
  rd_c_tenant_id : string;
  rd_c_budget_id : string;
  rd_c_window_instance_id : string;
  rd_c_fencing_scope_id : string;
  rd_c_fencing_epoch : Z;
  rd_c_decision_id : string;
  rd_c_matched_rule_ids : list string;
  rd_c_reason_codes : list string;
  rd_c_contract_bundle_id : string;
  rd_c_contract_bundle_hash_hex : string;
  rd_c_schema_bundle_id : string;
  rd_c_schema_bundle_canonical_version : string;
  rd_c_pricing_version : string;
  rd_c_price_snapshot_hash_hex : string;
  rd_c_fx_rate_version : string;
  rd_c_unit_conversion_version : string;
}.

Definition decision_names : list string :=
  ["tenant_id"; "budget_id"; "window_instance_id"; "fencing_scope_id"; "fencing_epoch"; "decision_id";
   "matched_rule_ids"; "reason_codes"; "contract_bundle_id"; "contract_bundle_hash_hex";
   "schema_bundle_id"; "schema_bundle_canonical_version"; "pricing_version"; "price_snapshot_hash_hex";
   "fx_rate_version"; "unit_conversion_version"].

Definition read_decision (j : json) : option ResumeDecision :=
  o ← members decision_names j;
  tenant_id ← required as_str "tenant_id" o;
  budget_id ← required as_str "budget_id" o;
  window_instance_id ← required as_str "window_instance_id" o;
  fencing_scope_id ← required as_str "fencing_scope_id" o;
  fencing_epoch ← required as_u64 "fencing_epoch" o;
  decision_id ← required as_str "decision_id" o;
  matched_rule_ids ← defaulted as_strs [] "matched_rule_ids" o;
  reason_codes ← defaulted as_strs [] "reason_codes" o;
  contract_bundle_id ← required as_str "contract_bundle_id" o;
  contract_bundle_hash_hex ← required as_str "contract_bundle_hash_hex" o;
  schema_bundle_id ← defaulted as_str EmptyString "schema_bundle_id" o;
  canonical_version ← defaulted as_str EmptyString "schema_bundle_canonical_version" o;
  pricing_version ← defaulted as_str EmptyString "pricing_version" o;
  price_snapshot_hash_hex ← defaulted as_str EmptyString "price_snapshot_hash_hex" o;
  fx_rate_version ← defaulted as_str EmptyString "fx_rate_version" o;
  unit_conversion_version ← defaulted as_str EmptyString "unit_conversion_version" o;
  Some {| rd_c_tenant_id := tenant_id; rd_c_budget_id := budget_id;
          rd_c_window_instance_id := window_instance_id; rd_c_fencing_scope_id := fencing_scope_id;
          rd_c_fencing_epoch := fencing_epoch; rd_c_decision_id := decision_id;
          rd_c_matched_rule_ids := matched_rule_ids; rd_c_reason_codes := reason_codes;
          rd_c_contract_bundle_id := contract_bundle_id;
          rd_c_contract_bundle_hash_hex := contract_bundle_hash_hex;
          rd_c_schema_bundle_id := schema_bundle_id;
          rd_c_schema_bundle_canonical_version := canonical_version;
          rd_c_pricing_version := pricing_version;
          rd_c_price_snapshot_hash_hex := price_snapshot_hash_hex;
          rd_c_fx_rate_version := fx_rate_version;
          rd_c_unit_conversion_version := unit_conversion_version |}.

Record RequestedEffect := {
  re_unit_id : string;
  re_unit_kind : string;
  re_unit_token_kind : string;
  re_amount_atomic : string;
  re_direction : string;
}.

Definition effect_names : list string :=
  ["unit_id"; "unit_kind"; "unit_token_kind"; "amount_atomic"; "direction"].

Definition read_effect (j : json) : option RequestedEffect :=
  o ← members effect_names j;
  unit_id ← required as_str "unit_id" o;
  unit_kind ← required as_str "unit_kind" o;
  unit_token_kind ← defaulted as_str EmptyString "unit_token_kind" o;
  amount_atomic ← required as_str "amount_atomic" o;
  direction ← required as_str "direction" o;
  Some {| re_unit_id := unit_id; re_unit_kind := unit_kind; re_unit_token_kind := unit_token_kind;
          re_amount_atomic := amount_atomic; re_direction := direction |}.

Record Parsed := {
  pd_decision : ResumeDecision;
  pd_effect : RequestedEffect;
}.

Definition parse_resume (ctx : ApprovalResumeContext) : result string Parsed :=
  decision ← ok_or (ac_decision_context_json ctx ≫= read_decision) "decision_context_json";
  effect ← ok_or (ac_requested_effect_json ctx ≫= read_effect) "requested_effect_json";
  mret {| pd_decision := decision; pd_effect := effect |}.

(** ** The reservation put off *)

Definition unit_kind_number (kind : string) : Z :=
  if kind =?s "MONETARY" then KIND_MONETARY
  else if kind =?s "TOKEN" then KIND_TOKEN
  else if kind =?s "CREDIT" then KIND_CREDIT
  else if kind =?s "NON_MONETARY" then KIND_NON_MONETARY
  else 0.

Definition direction_number (direction : string) : Z :=
  if direction =?s "CREDIT" then DIRECTION_CREDIT else DIRECTION_DEBIT.

Definition resumed_claim (p : Parsed) : BudgetClaim :=
  {| bc_budget_id := rd_c_budget_id (pd_decision p);
     bc_unit := Some {| unit_id := re_unit_id (pd_effect p);
                        unit_kind := unit_kind_number (re_unit_kind (pd_effect p));
                        token_kind := re_unit_token_kind (pd_effect p); model_family := EmptyString |};
     bc_amount_atomic := re_amount_atomic (pd_effect p);
     bc_direction := direction_number (re_direction (pd_effect p));
     bc_window_instance_id := rd_c_window_instance_id (pd_decision p) |}.

Definition resume_audit_decision_policy_field (live_bundle : CachedContractBundle) : string :=
  policy_as_str (c_prediction_policy (cb_parsed live_bundle)).

Definition apply_resume_audit_decision_policy_field (live_bundle : CachedContractBundle)
    (ce : CloudEvent) : CloudEvent :=
  {| ce_specversion := ce_specversion ce; ce_type := ce_type ce; ce_source := ce_source ce;
     ce_id := ce_id ce; ce_time := ce_time ce; ce_datacontenttype := ce_datacontenttype ce;
     ce_data := ce_data ce; ce_tenant_id := ce_tenant_id ce; ce_run_id := ce_run_id ce;
     ce_decision_id := ce_decision_id ce; ce_schema_bundle_id := ce_schema_bundle_id ce;
     ce_producer_id := ce_producer_id ce; ce_producer_sequence := ce_producer_sequence ce;
     ce_producer_signature := ce_producer_signature ce; ce_signing_key_id := ce_signing_key_id ce;
     ce_predicted_a_tokens := ce_predicted_a_tokens ce;
     ce_predicted_b_tokens := ce_predicted_b_tokens ce;
     ce_predicted_c_tokens := ce_predicted_c_tokens ce;
     ce_reserved_strategy := ce_reserved_strategy ce;
     ce_prediction_strategy_used := ce_prediction_strategy_used ce;
     ce_prediction_policy_used := resume_audit_decision_policy_field live_bundle;
     ce_tokenizer_tier := ce_tokenizer_tier ce; ce_tokenizer_version_id := ce_tokenizer_version_id ce;
     ce_prediction_confidence := ce_prediction_confidence ce;
     ce_prediction_sample_size := ce_prediction_sample_size ce;
     ce_cold_start_layer_used := ce_cold_start_layer_used ce;
     ce_run_projection_at_decision_atomic := ce_run_projection_at_decision_atomic ce;
     ce_run_predicted_remaining_steps := ce_run_predicted_remaining_steps ce;
     ce_run_steps_completed_so_far := ce_run_steps_completed_so_far ce;
     ce_actual_input_tokens := ce_actual_input_tokens ce;
     ce_actual_output_tokens := ce_actual_output_tokens ce;
     ce_delta_b_ratio := ce_delta_b_ratio ce; ce_delta_c_ratio := ce_delta_c_ratio ce |}.

Definition resume_payload (p : Parsed) : json :=
  JObj [("resume_of_approval_id", JStr (rd_c_decision_id (pd_decision p)));
        ("amount_atomic", JStr (re_amount_atomic (pd_effect p)));
        ("budget_id", JStr (rd_c_budget_id (pd_decision p)));
        ("matched_rule_ids", jstrs (rd_c_matched_rule_ids (pd_decision p)));
        ("reason_codes", jstrs (rd_c_reason_codes (pd_decision p)))].

(** Errors of this part are messages. *)
Definition step (A : Type) : Type := M sidecarE string A.

Definition into_reserve_set_request (cfg : SidecarConfig) (p : Parsed)
    (workload_instance_id idempotency_key : string) : step ReserveSetRequest :=
  _ ← (lift (ok_or (bigint_parse (re_amount_atomic (pd_effect p))) "amount_atomic parse") : step Z);
  let d := pd_decision p in
  let workload_id := default (cfg_workload_instance_id cfg) (non_empty workload_instance_id) in
  loaded ← (act ReadContractBundle : step _);
  live_bundle ← lift (ok_or loaded "no contract bundle installed");
  _ ← lift (ensure (is_empty (rd_c_contract_bundle_hash_hex d)
                    || (rd_c_contract_bundle_hash_hex d =?s hex_encode (cb_bundle_hash live_bundle)))
              ("[BUNDLE_HOT_RELOADED] approval was issued under bundle hash "
               +:+ rd_c_contract_bundle_hash_hex d));
  decision_id ← act NewUuid;
  audit_decision_event_id ← act NewUuid;
  producer_sequence ← act NextProducerSequence;
  now1 ← act Now;
  now2 ← act Now;
  let event_ctx :=
    {| dc_session_id := EmptyString; dc_workload_instance_id := workload_id;
       dc_tenant_id := rd_c_tenant_id d; dc_region := cfg_region cfg |} in
  cloudevent ← pbind (sign_cloudevent_in_place cfg
      (apply_resume_audit_decision_policy_field live_bundle
         (cloudevent_envelope event_ctx "spendguard.audit.decision" (uuid_str audit_decision_event_id)
            EmptyString (uuid_str decision_id) (rd_c_schema_bundle_id d) producer_sequence
            (event_time now1 now2) (resume_payload p))))
    (fun r => Ret (map_err (fun e => "sign resume cloudevent: " +:+ error_to_string e) r));
  price_snapshot_hash ← lift (ok_or (hex_decode (rd_c_price_snapshot_hash_hex d))
    "decision_context.price_snapshot_hash_hex decode");
  now3 ← act Now;
  mret {| rr_tenant_id := rd_c_tenant_id d; rr_decision_id := uuid_str decision_id;
          rr_audit_decision_event_id := uuid_str audit_decision_event_id;
          rr_producer_sequence := producer_sequence;
          rr_idempotency := Some {| idem_key := idempotency_key; idem_request_hash := EmptyString |};
          rr_fencing := Some {| fc_epoch := rd_c_fencing_epoch d;
                                fc_scope_id := rd_c_fencing_scope_id d;
                                fc_workload_instance_id := workload_id |};
          rr_claims := [resumed_claim p];
          rr_ttl_expires_at :=
            Some {| seconds := seconds (timestamp_of (now3 + secs (reservation_ttl_seconds cfg)));
                    nanos := 0 |};
          rr_audit_event := Some cloudevent;
          rr_pricing := Some {| pf_pricing_version := rd_c_pricing_version d;
                                pf_price_snapshot_hash := price_snapshot_hash;
                                pf_fx_rate_version := rd_c_fx_rate_version d;
                                pf_unit_conversion_version := rd_c_unit_conversion_version d |};
          rr_contract_bundle :=
            Some {| cbr_bundle_id := rd_c_contract_bundle_id d;
                    cbr_bundle_hash := default EmptyString (hex_decode (rd_c_contract_bundle_hash_hex d));
                    cbr_bundle_signature := EmptyString; cbr_signing_key_id := EmptyString |};
          rr_lock_order_token := None |}.

(** ** The handler *)

Inductive ResumeOutcome :=
  | ResumeDecided (d : DecisionResponse)
  | ResumeDenied
  | ResumeError (message : string).

(** An early [return into_err(message)] is the error of this monad. *)
Definition resuming (A : Type) : Type := M adapterE string A.

Definition call_or (rpc_name : string) {A} (e : adapterE (result DomainError A)) : resuming A :=
  pbind (act (D := Empty_set) e) (fun r => Ret match r with
    | Ok r => map_err (fun e => "[LEDGER_RPC_FAILED] " +:+ rpc_name +:+ ": " +:+ error_to_string e) r
    | Err x => match x : Empty_set with end
    end).

Definition resume_key (approval_id : string) : string := hex_encode (sha256 ("resume:" +:+ approval_id)).

Definition resumed_response (context : ApprovalResumeContext) (audit_id reason tx : string)
    (reservation_ids : list string) : DecisionResponse :=
  {| rs_decision_id := ac_decision_id context; rs_audit_decision_event_id := audit_id;
     rs_decision := decision_number Continue; rs_reason_codes := [reason]; rs_matched_rule_ids := [];
     rs_effect_hash := EmptyString; rs_ledger_transaction_id := tx; rs_reservation_ids := reservation_ids;
     rs_ttl_expires_at := None; rs_approval_request_id := ac_approval_id context; rs_terminal := false;
     rs_run_code_triggered := EmptyString; rs_subscription_meter := None |}.

(** What the ledger's answer to the reservation gives: transaction, audit event
    and reservations. *)
Definition reserved_of (o : option (Outcome ReserveSetSuccess))
    : result string (string * string * list string) :=
  match o with
  | Some (Success s) => Ok (rs_ok_ledger_transaction_id s, rs_ok_audit_decision_event_id s,
                            rv_reservation_id <$> rs_ok_reservations s)
  | Some (Replayed r) => Ok (rp_ledger_transaction_id r, rp_audit_decision_event_id r, [])
  | Some (Failure e) => Err ("[RESERVE_REJECTED] " +:+ pe_message e)
  | None => Err "[LEDGER_RESPONSE_EMPTY] ReserveSet returned no oneof"
  end.

Definition resume_approved (cfg : SidecarConfig) (req : ResumeAfterApprovalRequest)
    (context : ApprovalResumeContext) : resuming ResumeOutcome :=
  if negb (is_empty (ac_bundled_ledger_transaction_id context)) then
    mret (ResumeDecided (resumed_response context EmptyString "resume_idempotent_replay"
                           (ac_bundled_ledger_transaction_id context) []))
  else
    parsed ← lift (map_err (fun e => "[CONTEXT_PARSE_FAILED] " +:+ e) (parse_resume context));
    reserve_req ← pbind (embed (@Side _) (into_reserve_set_request cfg parsed (ra_workload_instance_id req)
                                          (resume_key (ra_approval_id req))))
      (fun r => Ret (map_err (fun e => "[RESUME_BUILD_FAILED] " +:+ e) r));
    reserve_resp ← call_or "ReserveSet" (Side (ReserveSet reserve_req));
    reserved ← lift (reserved_of reserve_resp);
    let '(tx_id, audit_event_id, reservation_ids) := reserved in
    mark_resp ← call_or "MarkApprovalBundled"
      (MarkApprovalBundled {| mb_approval_id := ra_approval_id req; mb_ledger_transaction_id := tx_id |});
    match mark_resp with
    | Some (inr e) => lift (Err ("[BUNDLE_REJECTED] " +:+ pe_message e))
    | _ => mret (ResumeDecided (resumed_response context audit_event_id "resume_approved" tx_id
                                  reservation_ids))
    end.

Definition resume_steps (cfg : SidecarConfig) (req : ResumeAfterApprovalRequest)
    : resuming ResumeOutcome :=
  get_resp ← call_or "GetApprovalForResume"
    (GetApprovalForResume {| ga_approval_id := ra_approval_id req; ga_tenant_id := ra_tenant_id req |});
  context ← lift match get_resp with
    | Some (inl c) => Ok c
    | Some (inr e) => Err ("[LEDGER_REJECTED] GetApprovalForResume: " +:+ pe_message e)
    | None => Err "[LEDGER_RESPONSE_EMPTY] GetApprovalForResume returned no oneof"
    end;
  if ac_state context =?s "approved" then resume_approved cfg req context
  else if ac_state context =?s "denied" then mret ResumeDenied
  else lift (Err ("[APPROVAL_NON_TERMINAL] approval state=" +:+ ac_state context +:+ " is not resumable")).

Definition resume_after_approval_inner (cfg : SidecarConfig) (req : ResumeAfterApprovalRequest)
    : prog adapterE ResumeOutcome :=
  pbind (resume_steps cfg req) (fun r =>
    Ret match r with Ok o => o | Err message => ResumeError message end).

(** ** What a resumption does *)

Abbreviation into := (inject_ev (@Side _)).

Definition approval_query (req : ResumeAfterApprovalRequest) : adapterE _ :=
  GetApprovalForResume {| ga_approval_id := ra_approval_id req; ga_tenant_id := ra_tenant_id req |}.

(** The ledger answered the approval's context. *)
Definition approval_read (req : ResumeAfterApprovalRequest) (context : ApprovalResumeContext)
    (t : list (event adapterE)) : Prop :=
  Ev (approval_query req) (Ok (Some (inl context))) ∈ t.

Lemma exec_call_or {A} name (e : adapterE (result DomainError A)) t r :
  exec (call_or name e) t r <->
  exists x, t = [Ev e x] /\
    r = map_err (fun e => "[LEDGER_RPC_FAILED] " +:+ name +:+ ": " +:+ error_to_string e) x.
Proof.
  unfold call_or. rewrite exec_pbind. split.
  - intros (t1 & t2 & a & -> & (x & -> & ->)%exec_act & -> & ->). by exists x.
  - intros (x & -> & ->). exists [Ev e x], [], (Ok x). split; [done|]. split; [apply exec_act; eauto|done].
Qed.

(** The request built for a resumption, and what was read to build it. *)
Record rebuilt (cfg : SidecarConfig) (p : Parsed) (key : string) (t : list (event sidecarE))
    (rq : ReserveSetRequest) : Prop := {
  rb_silent : Forall (ev_sat quiet) t;
  rb_live : exists live ce, Ev ReadContractBundle (Some live) ∈ t /\
    (rd_c_contract_bundle_hash_hex (pd_decision p) = EmptyString \/
     rd_c_contract_bundle_hash_hex (pd_decision p) = hex_encode (cb_bundle_hash live)) /\
    rr_audit_event rq = Some ce /\ ce_signing_key_id ce = signer_key_id cfg /\
    ce_prediction_policy_used ce = policy_as_str (c_prediction_policy (cb_parsed live));
  rb_amount : is_Some (bigint_parse (re_amount_atomic (pd_effect p)));
  rb_key : rr_idempotency rq = Some {| idem_key := key; idem_request_hash := EmptyString |};
  rb_tenant : rr_tenant_id rq = rd_c_tenant_id (pd_decision p);
  rb_claims : rr_claims rq = [resumed_claim p];
  rb_fencing : exists w, rr_fencing rq =
    Some {| fc_epoch := rd_c_fencing_epoch (pd_decision p);
            fc_scope_id := rd_c_fencing_scope_id (pd_decision p); fc_workload_instance_id := w |};
  rb_pricing : exists h, hex_decode (rd_c_price_snapshot_hash_hex (pd_decision p)) = Some h /\
    rr_pricing rq = Some {| pf_pricing_version := rd_c_pricing_version (pd_decision p);
                            pf_price_snapshot_hash := h;
                            pf_fx_rate_version := rd_c_fx_rate_version (pd_decision p);
                            pf_unit_conversion_version := rd_c_unit_conversion_version (pd_decision p) |};
  rb_bundle : cbr_bundle_id <$> rr_contract_bundle rq = Some (rd_c_contract_bundle_id (pd_decision p));
}.

Lemma into_quiet cfg p w key : all_effects quiet (into_reserve_set_request cfg p w key).
Proof.
  unfold into_reserve_set_request. effs.
  apply all_effects_pbind; [|done]. apply sign_quiet.
Qed.

Lemma into_rebuilt cfg p w key t rq :
  exec (into_reserve_set_request cfg p w key) t (Ok rq) -> rebuilt cfg p key t rq.
Proof.
  intros He. pose proof (all_effects_exec quiet _ _ _ (into_quiet cfg p w key) He) as Hq.
  unfold into_reserve_set_request in He.
  apply exec_bind_ok in He as (t1 & t2 & n & -> & [-> Hn%symmetry%ok_or_ok]%exec_lift & He).
  apply exec_bind_ok in He as (t1 & t3 & loaded & -> & (? & -> & [= <-])%exec_act & He).
  apply exec_bind_ok in He as (t1 & t4 & live & -> & [-> Hl%symmetry%ok_or_ok]%exec_lift & He). subst loaded.
  apply exec_bind_ok in He as (t1 & t5 & u & -> & [-> Hh%symmetry%ensure_ok]%exec_lift & He).
  apply exec_bind_ok in He as (? & ? & did & -> & (? & -> & _)%exec_act & He).
  apply exec_bind_ok in He as (? & ? & eid & -> & (? & -> & _)%exec_act & He).
  apply exec_bind_ok in He as (? & ? & seq & -> & (? & -> & _)%exec_act & He).
  apply exec_bind_ok in He as (? & ? & n1 & -> & (? & -> & _)%exec_act & He).
  apply exec_bind_ok in He as (? & ? & n2 & -> & (? & -> & _)%exec_act & He).
  apply exec_bind_ok in He as (? & ? & ce & -> & Hs & He).
  apply exec_pbind in Hs as (? & ? & [ce'|e] & -> & Hs & -> & [= ->]).
  apply sign_ok in Hs as [sig ->].
  apply exec_bind_ok in He as (? & ? & h & -> & [-> Hhex%symmetry%ok_or_ok]%exec_lift & He).
  apply exec_bind_ok in He as (? & ? & n3 & -> & (? & -> & _)%exec_act & [-> [= ->]]%exec_ret).
  split; cbn; try done.
  - exists live. eexists. split; [by left|]. split; [|done].
    apply orb_true_iff in Hh as [Hh|Hh]; [left; by apply is_empty_spec|right; by apply String.eqb_eq].
  - by eexists.
  - by exists h.
Qed.

Lemma side_single_other {X} (e : adapterE X) x : as_side (Ev e x) = None -> side [Ev e x] = [].
Proof. unfold side. cbn. by intros ->. Qed.

Lemma reserves_quiet t1 t2 : Forall (ev_sat quiet) t1 -> reserves (t1 ++ t2) = reserves t2.
Proof.
  intros Hq%quiet_silent%silent_calls. unfold reserves in *. rewrite omap_app.
  by destruct Hq as (-> & _).
Qed.

(** How a resumption whose approval was read as approved and not yet bundled ends. *)
Definition resumed_once (cfg : SidecarConfig) (req : ResumeAfterApprovalRequest)
    (context : ApprovalResumeContext) (t : list (event adapterE)) (r : result string ResumeOutcome) : Prop :=
  exists p t' rq ans, parse_resume context = Ok p /\
    rebuilt cfg p (resume_key (ra_approval_id req)) t' rq /\ t' ⊆ side t /\
    reserves (side t) = [(rq, ans)] /\
    forall o, r = Ok o -> exists tx audit_id ids resp mark,
      ans = Ok resp /\ reserved_of resp = Ok (tx, audit_id, ids) /\
      Ev (MarkApprovalBundled {| mb_approval_id := ra_approval_id req; mb_ledger_transaction_id := tx |})
         (Ok mark) ∈ t /\ (forall e, mark <> Some (inr e)) /\
      o = ResumeDecided (resumed_response context audit_id "resume_approved" tx ids).

Lemma approved_once cfg req context t r :
  exec (resume_approved cfg req context) t r -> ac_bundled_ledger_transaction_id context = EmptyString ->
  (reserves (side t) = [] /\ exists e, r = Err e) \/ resumed_once cfg req context t r.
Proof.
  unfold resume_approved. intros He Hb. rewrite Hb in He. cbn [is_empty negb] in He.
  apply exec_bind in He as [(t1 & t2 & p & -> & [-> Hp]%exec_lift & He)|(e & -> & [-> _]%exec_lift)];
    [|left; split; [done|by eexists]].
  destruct (parse_resume context) as [p'|] eqn:Hparse; [injection Hp as ->|done].
  apply exec_bind in He as [(t1 & t3 & rq & -> & Hi & He)|(e & -> & Hi)];
    apply exec_pbind in Hi as (t4 & t5 & [rq'|e'] & -> & (t' & -> & Hi)%exec_embed & -> & Heq);
    try discriminate Heq; rewrite app_nil_r in *; cbn [app].
  2:{ left. split; [|by eexists]. rewrite (side_into t').
      rewrite <- (app_nil_r t'), reserves_quiet; [done|]. eapply all_effects_exec, Hi. apply into_quiet. }
  injection Heq as ->. apply into_rebuilt in Hi. right. exists p', t', rq'.
  assert (Hside : forall t0, side ((into <$> t') ++ t0) = t' ++ side t0).
  { intros t0. by rewrite side_app, (side_into t'). }
  assert (Hres : forall ans t0, reserves (side t0) = [] ->
            reserves (side ((into <$> t') ++ Ev (Side (ReserveSet rq')) ans :: t0)) = [(rq', ans)]).
  { intros ans t0 Ht0. rewrite Hside, reserves_quiet by apply Hi.
    change (reserves (Ev (ReserveSet rq') ans :: side t0) = [(rq', ans)]).
    unfold reserves in *. cbn. by rewrite Ht0. }
  assert (Hsub : forall t0, t' ⊆ side ((into <$> t') ++ t0)).
  { intros t0 ev Hev. rewrite Hside, elem_of_app. by left. }
  apply exec_bind in He as [(t1 & t4 & resp & -> & (x & -> & Hx)%exec_call_or & He)|(e & -> & (x & -> & Hx)%exec_call_or)].
  2:{ exists x. split_and!; [done|done|apply Hsub|by apply Hres|]. intros o [=]. }
  exists x. destruct x as [resp'|]; [injection Hx as ->|done].
  apply exec_bind in He as [(t1 & t5 & [[tx aid] ids] & -> & [-> Hro]%exec_lift & He)|(e & -> & [-> Hro]%exec_lift)].
  2:{ split_and!; [done|done|apply Hsub|by apply Hres|]. intros o [=]. }
  cbn [app] in *.
  apply exec_bind in He as [(t1 & t6 & mark & -> & (x & -> & Hx)%exec_call_or & He)|(e & -> & (x & -> & Hx)%exec_call_or)].
  2:{ split_and!; [done|done|apply Hsub|by apply Hres|]. intros o [=]. }
  destruct x as [mark'|]; [injection Hx as ->|done].
  assert (t6 = [] /\ forall o, r = Ok o -> (forall e, mark' <> Some (inr e)) /\
    o = ResumeDecided (resumed_response context aid "resume_approved" tx ids)) as [-> Hr].
  { destruct mark' as [[m|e]|].
    - apply exec_ret in He as [-> ->]. split; [done|]. by intros o [= <-].
    - apply exec_lift in He as [-> ->]. by split.
    - apply exec_ret in He as [-> ->]. split; [done|]. by intros o [= <-]. }
  split_and!; [done|done|apply Hsub|by apply Hres|].
  intros o [Hm ->]%Hr. exists tx, aid, ids, resp', mark'. split_and!; try done.
  apply elem_of_app. right. right. by left.
Qed.

(** *** What an approval records

    Read off the documents: [holds j pos name v] says that the structure [j], an object
    or the array of its fields, has [v] as its field [name], the [pos]-th. *)
Definition holds (j : json) (pos : nat) (name : string) (v : json) : Prop :=
  match j with JObj o => al_get name o = Some v | JArr l => l !! pos = Some v | _ => False end.

Definition absent (j : json) (pos : nat) (name : string) : Prop :=
  match j with JObj o => al_get name o = None | JArr l => l !! pos = None | _ => False end.

(** The kinds of a unit by name. *)
Definition kinds : list (string * Z) :=
  [("MONETARY", KIND_MONETARY); ("TOKEN", KIND_TOKEN); ("CREDIT", KIND_CREDIT); ("NON_MONETARY", KIND_NON_MONETARY)].

(** The claim that the approval recorded: its budget and window in the decision's
    context, the rest in the requested effect. *)
Definition recorded_claim (context : ApprovalResumeContext) (c : BudgetClaim) : Prop :=
  exists dj ej u kind direction, ac_decision_context_json context = Some dj /\
    ac_requested_effect_json context = Some ej /\
    holds dj 1 "budget_id" (JStr (bc_budget_id c)) /\
    holds dj 2 "window_instance_id" (JStr (bc_window_instance_id c)) /\
    bc_unit c = Some u /\ model_family u = EmptyString /\
    holds ej 0 "unit_id" (JStr (unit_id u)) /\
    holds ej 1 "unit_kind" (JStr kind) /\
    ((kind, unit_kind u) ∈ kinds \/ (kind ∉ kinds.*1) /\ unit_kind u = 0) /\
    (holds ej 2 "unit_token_kind" (JStr (token_kind u)) \/
     absent ej 2 "unit_token_kind" /\ token_kind u = EmptyString) /\
    holds ej 3 "amount_atomic" (JStr (bc_amount_atomic c)) /\
    holds ej 4 "direction" (JStr direction) /\
    (bc_direction c = DIRECTION_CREDIT <-> direction = "CREDIT") /\
    (bc_direction c = DIRECTION_CREDIT \/ bc_direction c = DIRECTION_DEBIT).

Lemma al_get_zip (names : list string) (l : list json) pos name v :
  NoDup names -> names !! pos = Some name -> al_get name (zip names l) = Some v <-> l !! pos = Some v.
Proof.
  intros Hn. revert l pos; induction Hn as [|n names Hn Hnd IH]; intros l pos; [by destruct pos|].
  destruct l as [|x l]; [by destruct pos|]. destruct pos as [|pos]; cbn.
  - intros [= ->]. by rewrite decide_True.
  - intros Hp. rewrite decide_False; [by apply IH|]. intros ->. by apply list_elem_of_lookup_2 in Hp.
Qed.

Lemma members_holds names j o pos name v :
  members names j = Some o -> NoDup names -> names !! pos = Some name ->
  al_get name o = Some v -> holds j pos name v.
Proof.
  intros Hm Hn Hp. destruct j as [| | | | |l|o']; try done; cbn in Hm.
  - destruct (_ <=? _)%nat; [|done]. injection Hm as <-. by apply al_get_zip.
  - destruct (forallb _ _); [|done]. injection Hm as <-. done.
Qed.

Lemma members_absent names j o pos name :
  members names j = Some o -> NoDup names -> names !! pos = Some name ->
  al_get name o = None -> absent j pos name.
Proof.
  intros Hm Hn Hp. destruct j as [| | | | |l|o']; try done; cbn in Hm.
  - destruct (_ <=? _)%nat; [|done]. injection Hm as <-. intros Ha. cbn.
    destruct (l !! pos) as [v|] eqn:Hv; [|done]. apply (al_get_zip names l pos name v Hn Hp) in Hv. congruence.
  - destruct (forallb _ _); [|done]. injection Hm as <-. done.
Qed.

Lemma required_holds names j o pos name s :
  members names j = Some o -> NoDup names -> names !! pos = Some name ->
  required as_str name o = Some s -> holds j pos name (JStr s).
Proof.
  intros Hm Hn Hp (v & Hv & Hs)%bind_Some. destruct v; try done. injection Hs as ->.
  by eapply members_holds.
Qed.

Lemma decision_names_nodup : NoDup decision_names.
Proof. by apply (bool_decide_unpack _). Qed.
Lemma effect_names_nodup : NoDup effect_names.
Proof. by apply (bool_decide_unpack _). Qed.

Ltac opt_inv H :=
  repeat match type of H with
  | _ ≫= _ = Some _ =>
      let v := fresh "v" in let E := fresh "E" in apply bind_Some in H as (v & E & H)
  end.

Lemma read_decision_holds j d :
  read_decision j = Some d ->
  holds j 0 "tenant_id" (JStr (rd_c_tenant_id d)) /\ holds j 1 "budget_id" (JStr (rd_c_budget_id d)) /\
  holds j 2 "window_instance_id" (JStr (rd_c_window_instance_id d)) /\
  holds j 9 "contract_bundle_hash_hex" (JStr (rd_c_contract_bundle_hash_hex d)).
Proof.
  unfold read_decision. intros Hr. opt_inv Hr. injection Hr as <-. cbn.
  split_and!; by eapply required_holds; [|apply decision_names_nodup| |].
Qed.

Lemma kind_number kind : (kind, unit_kind_number kind) ∈ kinds \/ (kind ∉ kinds.*1) /\ unit_kind_number kind = 0.
Proof.
  unfold unit_kind_number, kinds.
  destruct (kind =?s "MONETARY") eqn:E1; [apply String.eqb_eq in E1 as ->; left; set_solver|].
  destruct (kind =?s "TOKEN") eqn:E2; [apply String.eqb_eq in E2 as ->; left; set_solver|].
  destruct (kind =?s "CREDIT") eqn:E3; [apply String.eqb_eq in E3 as ->; left; set_solver|].
  destruct (kind =?s "NON_MONETARY") eqn:E4; [apply String.eqb_eq in E4 as ->; left; set_solver|].
  apply String.eqb_neq in E1, E2, E3, E4. right. split; [|done]. cbn. rewrite !elem_of_cons, elem_of_nil. tauto.
Qed.

Lemma resumed_recorded context p :
  parse_resume context = Ok p -> recorded_claim context (resumed_claim p) /\
  exists dj, ac_decision_context_json context = Some dj /\
    holds dj 0 "tenant_id" (JStr (rd_c_tenant_id (pd_decision p))) /\
    holds dj 9 "contract_bundle_hash_hex" (JStr (rd_c_contract_bundle_hash_hex (pd_decision p))).
Proof.
  unfold parse_resume. intros Hp. mon_inv Hp. cbn [pd_decision pd_effect].
  apply bind_Some in E as (dj & Hdj & Hd%read_decision_holds). destruct Hd as (Ht & Hb & Hw & Hh).
  apply bind_Some in E0 as (ej & Hej & He). split; [|by exists dj].
  unfold read_effect in He. opt_inv He. injection He as <-. unfold recorded_claim, resumed_claim. cbn.
  eexists dj, ej, _, _, _. do 5 (split; [done|]). split; [done|].
  split; [by eapply (required_holds _ _ _ 0); [|apply effect_names_nodup| |]|].
  split; [by eapply (required_holds _ _ _ 1); [|apply effect_names_nodup| |]|].
  split.
  { apply kind_number. }
  split.
  { rename select (defaulted _ _ _ _ = _) into Hdef. unfold defaulted in Hdef.
    destruct (al_get "unit_token_kind" _) as [x|] eqn:Hx.
    - left. destruct x; try done. injection Hdef as ->.
      by eapply (members_holds _ _ _ 2); [|apply effect_names_nodup| |].
    - injection Hdef as <-. right. split; [|done].
      by eapply (members_absent _ _ _ 2); [|apply effect_names_nodup| |]. }
  split; [by eapply (required_holds _ _ _ 3); [|apply effect_names_nodup| |]|].
  split; [by eapply (required_holds _ _ _ 4); [|apply effect_names_nodup| |]|].
  unfold direction_number. destruct (_ =?s "CREDIT") eqn:Hdir.
  - apply String.eqb_eq in Hdir as ->. split; [done|by left].
  - apply String.eqb_neq in Hdir. split; [split; [done|by intros ->]|by right].
Qed.

(** The ledger answered the reservation with a transaction and reservations. *)
Definition reserved_as (ans : result DomainError (option (Outcome ReserveSetSuccess))) (tx : string)
    (ids : list string) : Prop :=
  match ans with
  | Ok (Some (Success s)) => tx = rs_ok_ledger_transaction_id s /\ ids = rv_reservation_id <$> rs_ok_reservations s
  | Ok (Some (Replayed r)) => tx = rp_ledger_transaction_id r /\ ids = []
  | _ => False
  end.

Lemma reserved_of_as resp tx aid ids : reserved_of resp = Ok (tx, aid, ids) -> reserved_as (Ok resp) tx ids.
Proof. destruct resp as [[s|r|e]|]; cbn; try done; by intros [= -> _ ->]. Qed.


(** ** From the decision to its resumption *)

(** A denial sent for an approver carries the payload of the stage. *)
Definition approval_guard ctx (st : Stage) (rc : list string) (h : list (event sidecarE))
    (ev : event sidecarE) : Prop :=
  forall dq ans, as_denied ev = Some (dq, ans) ->
    (exists s1 s2, rd_decision_context_json dq =
       Some (approval_decision_context ctx (st_decision_id st) (st_matched_rules st) rc
               (head (st_claims st)) (st_fencing st) (st_bundle st) s1 s2)) /\
    rd_requested_effect_json dq = Some (requested_effect (head (st_claims st))).

Lemma denial_carries cfg ctx st rc eh t r dq ans :
  exec (run_record_denied_decision cfg ctx st RequireApproval rc eh) t r -> (dq, ans) ∈ denials t ->
  approval_guard ctx st rc [] (Ev (RecordDeniedDecision dq) ans).
Proof.
  intros He (ev & Hev & Has)%list_elem_of_omap.
  apply list_elem_of_split in Hev as (t1 & t2 & ->). apply exec_prefix in He.
  assert (Hup : upholds (approval_guard ctx st rc) [] (run_record_denied_decision cfg ctx st RequireApproval rc eh)).
  { unfold run_record_denied_decision. do 5 up_quiet. destruct a3 as [[c e] ttl].
    unfold approval_payload in Ha3. rewrite bool_decide_eq_true_2 in Ha3 by done.
    apply exec_bind_ok in Ha3 as (? & ? & s1 & -> & _ & (? & ? & s2 & -> & _ & [-> [= -> -> ->]]%exec_ret)%exec_bind_ok).
    apply upholds_bind.
    - intros ans0. split; [|done]. intros dq' ans' [= <- <-]. cbn. eauto.
    - intros t' resp _. apply (upholds_all quiet); [intros ? ? [] ? ?; cbn in *; done|].
      destruct resp as [[]|]; effs. }
  pose proof (upholds_prefix _ _ _ _ _ _ Hup He _ _ Has) as Hg.
  intros dq' ans' [= <- <-]. exact Hg.
Qed.

Lemma as_strs_jstrs l : as_strs (jstrs l) = Some l.
Proof.
  unfold as_strs, jstrs. induction l as [|x l IH]; [done|]. cbn in *. by rewrite IH.
Qed.

Lemma read_decision_context ctx did rules rc claim fc bundle s1 s2 :
  is_u64 (fc_epoch fc) = true ->
  exists v w, read_decision (approval_decision_context ctx did rules rc claim fc bundle s1 s2) =
    Some {| rd_c_tenant_id := dc_tenant_id ctx;
            rd_c_budget_id := default EmptyString (bc_budget_id <$> claim);
            rd_c_window_instance_id := default EmptyString (bc_window_instance_id <$> claim);
            rd_c_fencing_scope_id := fc_scope_id fc; rd_c_fencing_epoch := fc_epoch fc;
            rd_c_decision_id := uuid_str did; rd_c_matched_rule_ids := rules; rd_c_reason_codes := rc;
            rd_c_contract_bundle_id := uuid_str (cb_bundle_id bundle);
            rd_c_contract_bundle_hash_hex := hex_encode (cb_bundle_hash bundle);
            rd_c_schema_bundle_id := v; rd_c_schema_bundle_canonical_version := w;
            rd_c_pricing_version := cb_pricing_version bundle;
            rd_c_price_snapshot_hash_hex := hex_encode (cb_price_snapshot_hash bundle);
            rd_c_fx_rate_version := cb_fx_rate_version bundle;
            rd_c_unit_conversion_version := cb_unit_conversion_version bundle |}.
Proof.
  intros He. eexists _, _. unfold read_decision, approval_decision_context.
  assert (Hu : as_u64 (JInt (fc_epoch fc)) = Some (fc_epoch fc)) by (cbn; by rewrite He).
  revert Hu. generalize (JInt (fc_epoch fc)). intros je Hu.
  generalize (as_strs_jstrs rules), (as_strs_jstrs rc). generalize (jstrs rules), (jstrs rc).
  intros jrules jrc Hrules Hrc.
  lazy -[as_strs as_u64 dc_tenant_id default fmap option_fmap bc_budget_id bc_window_instance_id
         fc_scope_id uuid_str hex_encode cb_bundle_id cb_bundle_hash cb_pricing_version
         cb_price_snapshot_hash cb_fx_rate_version cb_unit_conversion_version sb_bundle_id
         sb_canonical_schema_version fc_epoch].
  rewrite Hu, Hrules, Hrc. reflexivity.
Qed.

Lemma read_requested_effect claim :
  exists e, read_effect (requested_effect claim) = Some e /\
    re_unit_id e = default EmptyString (unit_id <$> (claim ≫= bc_unit)) /\
    re_unit_kind e = default "MONETARY" ((fun u => unit_kind_str (unit_kind u)) <$> (claim ≫= bc_unit)) /\
    re_unit_token_kind e = default EmptyString (token_kind <$> (claim ≫= bc_unit)) /\
    re_amount_atomic e = default EmptyString (bc_amount_atomic <$> claim) /\
    re_direction e = match claim with
                     | Some c => if bc_direction c =? DIRECTION_CREDIT then "CREDIT" else "DEBIT"
                     | None => "DEBIT"
                     end.
Proof. eexists. split; [reflexivity|]. done. Qed.

Lemma unit_kind_round k : 1 <= k <= 4 -> unit_kind_number (unit_kind_str k) = k.
Proof. intros Hk. assert (k = 1 \/ k = 2 \/ k = 3 \/ k = 4) as [->|[->|[->| ->]]] by lia; done. Qed.

Definition without_family (c : BudgetClaim) : BudgetClaim :=
  {| bc_budget_id := bc_budget_id c;
     bc_unit := (fun u => {| unit_id := unit_id u; unit_kind := unit_kind u; token_kind := token_kind u;
                             model_family := EmptyString |}) <$> bc_unit c;
     bc_amount_atomic := bc_amount_atomic c; bc_direction := bc_direction c;
     bc_window_instance_id := bc_window_instance_id c |}.

(** What is resumed is what was asked. If a decision left its denial for an
    approver and the ledger gives its payload back, the payload parses, and any
    reservation built from it is for the decision's tenant, under its fencing
    epoch and scope, at the prices frozen at the time, for the first of its
    claims (all but the model family of its unit) - and was built while the
    bundle decided under was the one loaded. *)
Theorem resume_restores_decision cfg ctx st rc eh t r dq ans c rest u context :
  exec (run_record_denied_decision cfg ctx st RequireApproval rc eh) t r -> (dq, ans) ∈ denials t ->
  st_claims st = c :: rest -> bc_unit c = Some u -> 1 <= unit_kind u <= 4 ->
  bc_direction c = DIRECTION_DEBIT \/ bc_direction c = DIRECTION_CREDIT ->
  is_u64 (fc_epoch (st_fencing st)) = true ->
  ac_decision_context_json context = rd_decision_context_json dq ->
  ac_requested_effect_json context = rd_requested_effect_json dq ->
  exists p, parse_resume context = Ok p /\
    forall cfg' w key t' rq, exec (into_reserve_set_request cfg' p w key) t' (Ok rq) ->
      rr_tenant_id rq = dc_tenant_id ctx /\ rr_claims rq = [without_family c] /\
      rr_pricing rq = Some (pricing_of (st_bundle st)) /\
      fc_epoch <$> rr_fencing rq = Some (fc_epoch (st_fencing st)) /\
      fc_scope_id <$> rr_fencing rq = Some (fc_scope_id (st_fencing st)) /\
      cbr_bundle_id <$> rr_contract_bundle rq = Some (uuid_str (cb_bundle_id (st_bundle st))) /\
      exists live, Ev ReadContractBundle (Some live) ∈ t' /\
        (hex_encode (cb_bundle_hash (st_bundle st)) = EmptyString \/
         cb_bundle_hash live = cb_bundle_hash (st_bundle st)).
Proof.
  intros He Hin Hcl Hu Hk Hd Hep Hc1 Hc2.
  destruct (denial_carries _ _ _ _ _ _ _ _ _ He Hin dq ans eq_refl) as [(s1 & s2 & Hj1) Hj2].
  rewrite Hcl in Hj1, Hj2. cbn [head] in Hj1, Hj2.
  destruct (read_decision_context ctx (st_decision_id st) (st_matched_rules st) rc (Some c)
    (st_fencing st) (st_bundle st) s1 s2 Hep) as (v & w' & Hrd).
  destruct (read_requested_effect (Some c)) as (e & Hre & Hu1 & Hu2 & Hu3 & Hu4 & Hu5).
  assert (Hp1 : ac_decision_context_json context ≫= read_decision = Some _) by (rewrite Hc1, Hj1; exact Hrd).
  assert (Hp2 : ac_requested_effect_json context ≫= read_effect = Some e) by (rewrite Hc2, Hj2; exact Hre).
  eexists. split; [unfold parse_resume; rewrite Hp1, Hp2; reflexivity|].
  intros cfg' w key t' rq Hi%into_rebuilt.
  destruct Hi as [_ (live & ce & Hlive & Hh & _) _ _ Htn Hclaims (wl & Hf) (h & Hhex & Hpr) Hb]. cbn in *.
  rewrite Htn, Hclaims, Hf, Hpr, Hb. rewrite hex_decode_encode in Hhex. injection Hhex as <-.
  split; [done|]. split.
  { unfold resumed_claim, without_family. cbn. rewrite Hu1, Hu2, Hu3, Hu4, Hu5, Hu. cbn.
    rewrite unit_kind_round by done. repeat f_equal. destruct Hd as [->| ->]; done. }
  split_and!; try done. exists live. split; [done|].
  destruct Hh as [Hh|Hh]; [by left|right].
  apply (f_equal hex_decode) in Hh. rewrite !hex_decode_encode in Hh. congruence.
Qed.

End Resume.

(** ** Witnesses *)
Module ResumeDemo.
Import Demo CalendarDemo DecisionDemo.

(** A decision of two claims that needs approval. *)
Definition stage : Stage :=
  {| st_decision_id := "d7"; st_audit_decision_event_id := "e7"; st_producer_sequence := 41;
     st_snapshot_hash := "sh"; st_matched_rules := ["r1"]; st_claims := [claim "50"; claim "60"];
     st_fencing := {| fc_epoch := 7; fc_scope_id := "us"; fc_workload_instance_id := "w1" |};
     st_bundle := bundle; st_schema_bundle_id := EmptyString; st_key := "k1"; st_fingerprint := "fp";
     st_enrichment := {| run_id := EmptyString; agent_id := EmptyString; enr_model_family := EmptyString;
                         prompt_hash := EmptyString; spendguard_context := JNull |};
     st_projection := None; st_claim_estimate := None |}.

Definition denial_run :=
  run (DecisionDemo.answer false) (run_record_denied_decision cfg ctx stage RequireApproval ["BIG"] "eh").

(** The approval the ledger then keeps. *)
Definition approval : ApprovalResumeContext :=
  {| ac_approval_id := "a1"; ac_tenant_id := "t1"; ac_decision_id := "ud7"; ac_state := "approved";
     ac_decision_context_json := Some (approval_decision_context ctx "d7" ["r1"] ["BIG"]
       (Some (claim "50")) (st_fencing stage) bundle None None);
     ac_requested_effect_json := Some (requested_effect (Some (claim "50")));
     ac_bundled_ledger_transaction_id := EmptyString |}.

Lemma resume_restores_decision_witness :
  exists p, parse_resume approval = Ok p /\
    forall t' rq, exec (into_reserve_set_request cfg p EmptyString "k") t' (Ok rq) ->
      rr_claims rq = [without_family (claim "50")] /\ rr_pricing rq = Some (pricing_of bundle).
Proof.
  destruct (denials denial_run.1) as [|[dq ans] l] eqn:Hd; [vm_compute in Hd; discriminate|].
  assert (Hc : ac_decision_context_json approval = rd_decision_context_json dq)
    by (vm_compute in Hd; injection Hd as <- <- <-; vm_compute; reflexivity).
  assert (He : ac_requested_effect_json approval = rd_requested_effect_json dq)
    by (vm_compute in Hd; injection Hd as <- <- <-; vm_compute; reflexivity).
  destruct (resume_restores_decision cfg ctx stage ["BIG"] "eh" denial_run.1 denial_run.2 dq ans
              (claim "50") [claim "60"] usd approval) as (p & Hp & Hr).
  - apply run_exec.
  - rewrite Hd. by left.
  - reflexivity.
  - reflexivity.
  - vm_compute. split; discriminate.
  - left. reflexivity.
  - reflexivity.
  - exact Hc.
  - exact He.
  - exists p. split; [exact Hp|]. intros t' rq Hi.
    destruct (Hr _ _ _ _ _ Hi) as (_ & Hcl & Hpr & _). split; [exact Hcl|exact Hpr].
Defined.

Definition answer (X : Type) (e : adapterE X) : X :=
  match e in adapterE X return X with
  | Side e => DecisionDemo.answer false _ e
  | IdempotencyGet _ _ => Miss
  | IdempotencyPut _ _ _ => tt
  | GetApprovalForResume _ => Ok (Some (inl approval))
  | MarkApprovalBundled m =>
      Ok (Some (inl {| mb_was_first_bundling := true;
                       mb_ok_ledger_transaction_id := mb_ledger_transaction_id m |}))
  | SendAck _ => tt
  end.

Definition resume_request : ResumeAfterApprovalRequest :=
  {| ra_tenant_id := "t1"; ra_decision_id := "ud7"; ra_approval_id := "a1"; ra_session_id := "s1";
     ra_workload_instance_id := EmptyString |}.

Definition resume_run := run answer (resume_after_approval_inner cfg resume_request).


(** The decision had two claims: the resumption answers CONTINUE with the first
    alone reserved, so that the second is spent without a reservation. *)
Example second_claim_not_resumed :
  (fun x => rr_claims x.1) <$> reserves (side resume_run.1) = [[without_family (claim "50")]] /\
  match resume_run.2 with ResumeDecided d => rs_decision d = decision_number Continue | _ => False end.
Proof. vm_compute. auto. Qed.

(** Nothing of this asks whether the sidecar drains: a resumption still reserves. *)
Definition draining_answer (X : Type) (e : adapterE X) : X :=
  match e in adapterE X return X with
  | Side e => match e in sidecarE X return X with
              | IsDraining => true
              | e => DecisionDemo.answer false _ e
              end
  | e => answer _ e
  end.

Example resume_ignores_drain :
  length (reserves (side (run draining_answer (resume_after_approval_inner cfg resume_request)).1)) = 1%nat.
Proof. vm_compute. reflexivity. Qed.

End ResumeDemo.
