(* ===== verification/Serve.v ===== *)
(** * The adapter's RPCs, interleaved

    A pool of all the modelled handlers of [Adapter] and [Resume] over one
    sidecar state and one idempotency cache, interleaved effect by effect with
    each other and with the rest of the sidecar. *)

From S2P Require Import Prelude Idempotency Deps Effects Proto Contract SubMeter Sidecar Decision Settle Concurrency Adapter Resume.

Section Serve.
Context `{UuidLib, BigIntLib, CryptoLib, !UuidBytes, ProstLib, ChronoLib, Calendar, !HexLib}.

Inductive rpc_call :=
  | CDecide (req : DecisionRequest)
  | CPublish (req : PublishOutcomeRequest)
  | CStream (stream : list (result Status TraceEvent))
  | CResume (req : ResumeAfterApprovalRequest)
  | CRelease (req : ReleaseReservationRequest).

Inductive rpc_reply :=
  | ADecide (r : result Status DecisionResponse)
  | APublish (r : result Status PublishOutcomeResponse)
  | AStream (r : unit)
  | AResume (r : ResumeOutcome)
  | ARelease (r : result Status ReleaseReservationResponse).

Definition serve (cfg : SidecarConfig) (c : rpc_call) : prog adapterE rpc_reply :=
  match c with
  | CDecide req => pbind (request_decision_inner cfg req) (fun r => Ret (ADecide r))
  | CPublish req => pbind (confirm_publish_outcome_inner cfg req) (fun r => Ret (APublish r))
  | CStream stream => pbind (emit_trace_events_inner cfg stream) (fun r => Ret (AStream r))
  | CResume req => pbind (resume_after_approval_inner cfg req) (fun r => Ret (AResume r))
  | CRelease req => pbind (release_reservation_inner cfg req) (fun r => Ret (ARelease r))
  end.

Definition run_server := pool_run (E := adapterE) (R := rpc_reply) handle_adapter other_adapter.

(** ** Who fills the cache *)

Definition no_put (X : Type) (e : adapterE X) : Prop :=
  match e with IdempotencyPut _ _ _ => False | _ => True end.

Lemma domain_no_put {A} (m : handler A) : all_effects no_put (domain m).
Proof.
  apply all_effects_pbind; [|done]. apply all_effects_embed. induction m; cbn; auto.
Qed.

Lemma embed_no_put {A} (m : prog sidecarE A) : all_effects no_put (embed (@Side _) m).
Proof. apply all_effects_embed. induction m; cbn; auto. Qed.

#[local] Hint Resolve domain_no_put embed_no_put : quiet.

Ltac no_puts :=
  repeat first
    [ progress intros
    | solve [auto with quiet]
    | apply all_effects_bind
    | apply all_effects_pbind
    | match goal with |- all_effects _ (match ?x with _ => _ end) => destruct x end
    | split; [exact I|]
    | exact I ].

Lemma publish_no_put cfg req : all_effects no_put (confirm_publish_outcome_inner cfg req).
Proof. unfold confirm_publish_outcome_inner, side_. no_puts. Qed.
Lemma release_no_put cfg req : all_effects no_put (release_reservation_inner cfg req).
Proof. unfold release_reservation_inner. no_puts. Qed.
Lemma stream_no_put cfg stream : all_effects no_put (emit_trace_events_inner cfg stream).
Proof.
  induction stream as [|[ev|e] stream IH]; cbn [emit_trace_events_inner]; [done| |no_puts].
  apply all_effects_pbind; [unfold trace_event; no_puts|]. intros ack. by split.
Qed.
Lemma resume_no_put cfg req : all_effects no_put (resume_after_approval_inner cfg req).
Proof. unfold resume_after_approval_inner, resume_steps, resume_approved, call_or, act. no_puts. Qed.

Definition put_guard (cfg : SidecarConfig) (c : rpc_call) (h : list (event adapterE))
    (ev : event adapterE) : Prop :=
  forall key fp r, as_put ev = Some (key, fp, r) ->
    match c with
    | CDecide req => key = request_key req /\ fp = request_fingerprint cfg req /\
                     transacted_as cfg req (side h) r
    | _ => False
    end.

Lemma no_put_guard {R} cfg c h (p : prog adapterE R) : all_effects no_put p -> upholds (put_guard cfg c) h p.
Proof. apply upholds_all. intros h' X [] x He; intros ? ? ? Hp; cbn in *; done. Qed.

Lemma serve_puts cfg c : upholds (put_guard cfg c) [] (serve cfg c).
Proof.
  destruct c; apply upholds_pbind; try done.
  - eapply upholds_weaken; [|apply request_upholds]. by intros h ev [_ Hp].
  - apply no_put_guard, publish_no_put.
  - apply no_put_guard, stream_no_put.
  - apply no_put_guard, resume_no_put.
  - apply no_put_guard, release_no_put.
Qed.

(** What identifies a request besides its key: the tenant, the region and the encoded
    request, each after its length. *)
Definition request_text (cfg : SidecarConfig) (req : DecisionRequest) : string :=
  let sized s := be_bytes 8 (slen s) +:+ s in
  "spendguard.sidecar.decision_idempotency_request.v1:" +:+ sized (cfg_tenant_id cfg) +:+
    sized (cfg_region cfg) +:+ sized (encode_request req).

Lemma text_assoc (a b c : string) : (a +:+ b) +:+ c = a +:+ b +:+ c.
Proof. induction a as [|x a IH]; [done|]. exact (f_equal (String x) IH). Qed.

Lemma fingerprint_text cfg req : request_fingerprint cfg req = hex_encode (sha256 (request_text cfg req)).
Proof.
  unfold request_fingerprint, idempotency_request_fingerprint_hex, request_text. cbn.
  by rewrite !text_assoc.
Qed.

(** [r] is the response of a transaction some request of the pool ran under this
    key and fingerprint. *)
Definition answered (cfg : SidecarConfig) (calls : list rpc_call) (log : list (nat * event adapterE))
    (key fp : string) (r : DecisionResponse) : Prop :=
  exists j req, calls !! j = Some (CDecide req) /\ key = request_key req /\
    fp = hex_encode (sha256 (request_text cfg req)) /\ transacted_as cfg req (side (of_thread j log)) r.

Lemma answered_app cfg calls log l key fp r :
  answered cfg calls log key fp r -> answered cfg calls (log ++ l) key fp r.
Proof.
  intros (j & req & Hj & Hk & Hf & Ht). exists j, req. rewrite of_thread_app, side_app.
  split_and!; try done. by apply transacted_as_app.
Qed.

(** The handler behind an event of the log, and what it had done before. *)
Lemma server_thread cfg s0 calls log c i ev log' :
  run_server (s0, serve cfg <$> calls) (log ++ [(i, ev)] ++ log') c ->
  exists call, calls !! i = Some call /\ put_guard cfg call (of_thread i log) ev.
Proof.
  intros Hrun. destruct c as [s ps].
  assert (Hin : (i, ev) ∈ log ++ [(i, ev)] ++ log') by (rewrite !elem_of_app, list_elem_of_singleton; auto).
  destruct (pool_range _ _ _ _ _ _ _ Hrun Hin) as [p Hp]. cbn in Hp.
  destruct (pool_reaches _ _ _ _ _ _ _ Hrun) as [_ Hreach]. destruct (Hreach i p Hp) as (p' & _ & Hr).
  rewrite list_lookup_fmap in Hp. apply fmap_Some in Hp as (call & Hcall & ->).
  exists call. split; [done|]. apply reaches_prefix in Hr. rewrite !of_thread_app in Hr.
  replace (of_thread i [(i, ev)]) with [ev] in Hr
    by (unfold of_thread; by rewrite filter_cons_True, filter_nil).
  apply (upholds_prefix _ [] _ _ _ _ (serve_puts cfg call) Hr).
Qed.

(** What the cache holds and hands out. *)
Definition as_hit (ev : event adapterE) : option (string * string * DecisionResponse) :=
  match ev with
  | Ev e x => match e in adapterE X return X -> _ with
              | IdempotencyGet key fp => fun x => match x with Hit r => Some (key, fp, r) | _ => None end
              | _ => fun _ => None
              end x
  end.

Implicit Types (c : IdempotencyCache (DecisionResponse := DecisionResponse)).

Lemma drop_stale_lookup key c k en :
  Idempotency.map (drop_stale key c) !! k = Some en -> Idempotency.map c !! k = Some en.
Proof.
  unfold drop_stale. destruct (Idempotency.map c !! key); [|done]. cbn. by intros [_ Hk]%lookup_delete_Some.
Qed.

Lemma get_cache now key fp c x c' : (x, c') = get now key fp c ->
  (forall k en, Idempotency.map c' !! k = Some en -> Idempotency.map c !! k = Some en) /\
  (forall r, x = Hit r -> exists en, Idempotency.map c !! key = Some en /\
     request_fingerprint_hex en = fp /\ response en = r).
Proof.
  unfold get. destruct (Idempotency.map c !! key) as [en|] eqn:Hen.
  2:{ intros [= -> ->]. split; [|done]. apply drop_stale_lookup. }
  destruct (is_live _ _ _); [destruct (_ =?s _) eqn:Hfp|]; intros [= -> ->]; cbn [fst snd]; (split; [|try done]).
  - auto.
  - intros r [= <-]. exists en. split; [done|]. by apply String.eqb_eq in Hfp.
  - auto.
  - apply drop_stale_lookup.
Qed.

Lemma put_cache now key fp r c k en :
  Idempotency.map (put now key fp r c) !! k = Some en ->
  Idempotency.map c !! k = Some en \/
  (k = key /\ request_fingerprint_hex en = fp /\ response en = r).
Proof.
  unfold put. destruct (Idempotency.map c !! key) as [old|] eqn:Hold; cbn.
  - intros [[<- <-]|[Hne Hk]]%lookup_insert_Some; auto.
  - destruct (_ <=? _); [destruct (order c) as [|oldest o]|]; cbn;
      intros [[<- <-]|[Hne Hk]]%lookup_insert_Some; auto.
    apply lookup_delete_Some in Hk as [_ Hk]. auto.
Qed.

Lemma handle_cache X (e : adapterE X) s x s' :
  handle_adapter X e s x s' ->
  (forall key en, Idempotency.map s'.2 !! key = Some en ->
     Idempotency.map s.2 !! key = Some en \/
     as_put (Ev e x) = Some (key, request_fingerprint_hex en, response en)) /\
  (forall key fp r, as_hit (Ev e x) = Some (key, fp, r) ->
     exists en, Idempotency.map s.2 !! key = Some en /\ request_fingerprint_hex en = fp /\ response en = r).
Proof.
  destruct e; cbn [handle_adapter as_put as_hit]; intros Hh; try (split; [|done]; subst; by auto).
  - destruct Hh as [_ ->]. split; [auto|done].
  - destruct Hh as (now & Hg & _). apply get_cache in Hg as [Hkeep Hhit]. split; [by auto|].
    intros k f r Hx. destruct x as [r0| |]; simplify_eq. by apply Hhit.
  - destruct Hh as (now & -> & _). split; [|done].
    intros k en [?|(-> & <- & <-)]%put_cache; auto.
Qed.

Lemma server_cache cfg s0 calls log (c : AdapterState * list (prog adapterE rpc_reply)) :
  run_server (s0, serve cfg <$> calls) log c -> Idempotency.map s0.2 = ∅ ->
  (forall key en, Idempotency.map c.1.2 !! key = Some en ->
     answered cfg calls log key (request_fingerprint_hex en) (response en)) /\
  (forall i ev key fp r, (i, ev) ∈ log -> as_hit ev = Some (key, fp, r) -> answered cfg calls log key fp r).
Proof.
  intros Hrun Hempty. induction Hrun as [|log c1 l c2 Hrun IH Hstep].
  { split; [intros key en; cbn; by rewrite Hempty|intros ? ? ? ? ? []%not_elem_of_nil]. }
  destruct IH as [IH1 IH2]. assert (Hrun' : run_server (s0, serve cfg <$> calls) (log ++ l) c2) by (by econstructor).
  inversion Hstep as [s ps i X e k x s' Hi Hh|s ps s' [_ Ho]]; subst.
  - destruct (handle_cache _ _ _ _ _ Hh) as [Hkeep Hhit]. split.
    + intros key en [Hk|Hput]%Hkeep; [by apply answered_app, IH1|].
      destruct (server_thread cfg s0 calls log (s', <[i:=k x]> ps) i (Ev e x) []) as (call & Hcall & Hg);
        [by rewrite app_nil_r|].
      specialize (Hg _ _ _ Hput). destruct call as [req| | | |]; try done.
      destruct Hg as (Hk & Hf & Ht). apply answered_app. exists i, req. by rewrite <- fingerprint_text.
    + intros i' ev key fp r [Hin|[= -> ->]%list_elem_of_singleton]%elem_of_app Has;
        [by eapply answered_app, IH2|].
      apply Hhit in Has as (en & Hen & <- & <-). by apply answered_app, IH1.
  - rewrite app_nil_r. cbn in *. rewrite Ho. auto.
Qed.

(** C12: every decision answered is one that was made. However decisions,
    outcomes, event streams, resumptions and releases interleave, from an empty
    idempotency cache on, a request is answered with a response that reports, its
    decision, reservation and all, the outcome of a transaction run under a live
    fencing lease by a request of the same key and of the same digest of its tenant,
    region and encoding: its own, or one it repeats. *)
Theorem request_served cfg s0 calls log s ps i req r :
  run_server (s0, serve cfg <$> calls) log (s, ps) -> Idempotency.map s0.2 = ∅ ->
  calls !! i = Some (CDecide req) -> ps !! i = Some (Ret (ADecide (Ok r))) ->
  exists j req', calls !! j = Some (CDecide req') /\
    default EmptyString (idem_key <$> dr_idempotency req') = default EmptyString (idem_key <$> dr_idempotency req) /\
    hex_encode (sha256 (request_text cfg req')) = hex_encode (sha256 (request_text cfg req)) /\
    exists t0 t1 rest out, side (of_thread j log) = t0 ++ t1 ++ rest /\ leased t0 /\
      exec (run_through_reserve cfg (decision_context cfg (dr_session_id req')) req') t1 (Ok out) /\
      reports out r.
Proof.
  intros Hrun Hempty Hi Hps.
  destruct (pool_reaches _ _ _ _ _ _ _ Hrun) as [_ Hreach].
  destruct (Hreach i _ ltac:(by rewrite list_lookup_fmap, Hi)) as (p' & Hp' & Hr).
  rewrite Hps in Hp'. injection Hp' as <-. apply reaches_exec in Hr.
  apply exec_pbind in Hr as (t1 & t2 & a & Heq & Hr & -> & [= <-]). rewrite app_nil_r in Heq.
  rewrite <- Heq in Hr.
  assert (Ha : answered cfg calls log (request_key req) (request_fingerprint cfg req) r).
  { apply request_answered in Hr as [Hhit|Ht].
    - apply elem_of_thread in Hhit. destruct (server_cache _ _ _ _ _ Hrun Hempty) as [_ Hs].
      eapply Hs; [exact Hhit|done].
    - exists i, req. by rewrite <- fingerprint_text. }
  destruct Ha as (j & req' & Hj & Hk & Hf & Ht). rewrite fingerprint_text in Hf. by exists j, req'.
Qed.

End Serve.

(** ** Witnesses *)
Module ServeDemo.
Import Demo CalendarDemo DecisionDemo.

(** The effects run on the state, an outside world answering for the ledger. *)
Definition perform_adapter (X : Type) (e : adapterE X) (s : AdapterState) : X * AdapterState :=
  match e in adapterE X return X * AdapterState with
  | Side e => let r := perform (ConcurrencyDemo.outside "reserved") _ e s.1 in (r.1, (r.2, s.2))
  | IdempotencyGet key fp => let r := get (secs 100) key fp s.2 in (r.1, (s.1, r.2))
  | IdempotencyPut key fp r => (tt, (s.1, put (secs 100) key fp r s.2))
  | GetApprovalForResume _ => (Ok None, s)
  | MarkApprovalBundled _ => (Ok None, s)
  | SendAck _ => (tt, s)
  end.

Lemma perform_adapter_handle X (e : adapterE X) s :
  handle_adapter X e s (perform_adapter X e s).1 (perform_adapter X e s).2.
Proof.
  destruct e; cbn; try done.
  - split; [apply perform_handle|done].
  - exists (secs 100). by rewrite <- surjective_pairing.
  - by exists (secs 100).
Qed.

Definition init : AdapterState := (ConcurrencyDemo.init, cache_new 16 600).
Definition calls : list rpc_call := [CDecide (request "50"); CDecide (request "50")].

(** The first request runs to its end, then its repetition. *)
Definition served_run := schedule perform_adapter (replicate 60 0%nat ++ replicate 60 1%nat) (init, serve cfg <$> calls).

Lemma served_run_run : run_server (init, serve cfg <$> calls) served_run.1 served_run.2.
Proof.
  exact (schedule_run handle_adapter other_adapter perform_adapter _ (init, serve cfg <$> calls)
           perform_adapter_handle).
Qed.

Definition second_response : DecisionResponse :=
  match served_run.2.2 !! 1%nat with
  | Some (Ret (ADecide (Ok r))) => r
  | _ => build_response (the_output (Err Draining))
  end.

Lemma second_answered : served_run.2.2 !! 1%nat = Some (Ret (ADecide (Ok second_response))).
Proof. vm_compute. reflexivity. Qed.

(** The repetition is answered from the cache: it called no ledger. *)
Lemma request_served_witness :
  rs_reservation_ids second_response = ["ur1"] /\
  reserves (side (of_thread 1 served_run.1)) = [] /\
  exists j req', calls !! j = Some (CDecide req') /\
    hex_encode (sha256 (request_text cfg req')) = hex_encode (sha256 (request_text cfg (request "50"))) /\
    exists t out, exec (run_through_reserve cfg (decision_context cfg (dr_session_id req')) req') t (Ok out) /\
      reports out second_response.
Proof.
  split; [vm_compute; reflexivity|]. split; [vm_compute; reflexivity|].
  edestruct (request_served cfg init calls served_run.1 served_run.2.1 served_run.2.2 1%nat (request "50")
           second_response) as (j & req' & Hj & _ & Hf & t0 & t1 & rest & out & _ & _ & He & Hr).
  - rewrite <- surjective_pairing. exact served_run_run.
  - reflexivity.
  - reflexivity.
  - exact second_answered.
  - exists j, req'. split; [exact Hj|]. split; [exact Hf|]. exists t1, out. split; [exact He|exact Hr].
Defined.

End ServeDemo.
