(* ===== verification/Leases.v ===== *)
(** * Leader election

    [services/leases/src/lib.rs]: the three lease back ends - a Postgres row, a
    Kubernetes [Lease] object and the disabled mode - and the loop that acquires
    and renews one of them and publishes the outcome to the workers of its pod.
    The Kubernetes API server is the class [KubeApi], a store of objects of which
    only the documented optimistic concurrency is known: a [resourceVersion]
    names one content for ever, a write applies atomically to the current object,
    and a write with a [resourceVersion] applies only to the object of that
    version. Replicas are a pool of loops over one store and one clock. *)

From S2P Require Import Prelude Deps Effects.

(** [MicroTime], the time a [Lease] object holds: an instant as it is sent, in
    whole microseconds. *)
Class MicroTimeLib := {
  MicroTime : Z -> Z;
  MicroTime_le t : MicroTime t <= t < MicroTime t + 1000;
  MicroTime_mono t u : t <= u -> MicroTime t <= MicroTime u;
}.

(** ** The objects *)

Record ObjectMeta := {
  om_name : option string;
  om_namespace : option string;
  om_uid : option string;
  om_resource_version : option string;
}.

Record LeaseSpec := {
  holder_identity : option string;
  lease_duration_seconds : option Z;
  acquire_time : option Z;
  renew_time : option Z;
  lease_transitions : option Z;
}.

Definition spec_default : LeaseSpec :=
  {| holder_identity := None; lease_duration_seconds := None; acquire_time := None;
     renew_time := None; lease_transitions := None |}.

Record Lease := {
  l_metadata : ObjectMeta;
  l_spec : option LeaseSpec;
}.

#[export] Instance LeaseSpec_eq_dec : EqDecision LeaseSpec.
Proof. solve_decision. Defined.
#[export] Instance ObjectMeta_eq_dec : EqDecision ObjectMeta.
Proof. solve_decision. Defined.
#[export] Instance Lease_eq_dec : EqDecision Lease.
Proof. solve_decision. Defined.

Definition resource_version (l : Lease) : option string := om_resource_version (l_metadata l).

(** A JSON merge patch of a [Lease]: a member of [spec] is absent, null (which
    removes the field) or a value; [metadata.resourceVersion] null is none. *)
Inductive member (A : Type) := Absent | Null | Value (a : A).
Arguments Absent {A}.
Arguments Null {A}.
Arguments Value {A} a.

Record LeasePatch := {
  pt_resource_version : option string;
  pt_holder_identity : member string;
  pt_acquire_time : member Z;
  pt_renew_time : member Z;
  pt_lease_transitions : member Z;
}.

Definition merge_member {A} (m : member A) (old : option A) : option A :=
  match m with Absent => old | Null => None | Value a => Some a end.

Definition merge_patch (p : LeasePatch) (o : LeaseSpec) : LeaseSpec :=
  {| holder_identity := merge_member (pt_holder_identity p) (holder_identity o);
     lease_duration_seconds := lease_duration_seconds o;
     acquire_time := merge_member (pt_acquire_time p) (acquire_time o);
     renew_time := merge_member (pt_renew_time p) (renew_time o);
     lease_transitions := merge_member (pt_lease_transitions p) (lease_transitions o) |}.

Inductive KubeError :=
  | KubeErrorApi (code : Z) (message : string)
  | KubeErrorOther (message : string).

Definition kube_error_str (e : KubeError) : string :=
  match e with KubeErrorApi _ m => m | KubeErrorOther m => m end.

(** ** The API server *)

(** [kube_current s ns n]: the object now; [kube_version s ns n v]: the object
    that the resource version [v] names. A request answers, and may leave another
    store; one that fails may still have been applied. *)
Class KubeApi := {
  kube : Type;
  kube_current : kube -> string -> string -> option Lease;
  kube_version : kube -> string -> string -> string -> option Lease;
  kube_get : string -> string -> kube -> result KubeError (option Lease) -> kube -> Prop;
  kube_create : string -> Lease -> kube -> result KubeError Lease -> kube -> Prop;
  kube_patch : string -> string -> LeasePatch -> kube -> result KubeError Lease -> kube -> Prop;
}.

(** The store [s'] is [s] with the object [l] written at [ns]/[n]. *)
Definition written `{KubeApi} (ns n : string) (s : kube) (l : Lease) (s' : kube) : Prop :=
  kube_current s' ns n = Some l /\
  forall ns' n', (ns', n') <> (ns, n) -> kube_current s' ns' n' = kube_current s ns' n'.

Definition unchanged `{KubeApi} (s s' : kube) : Prop :=
  forall ns n, kube_current s' ns n = kube_current s ns n.

(** The write that a creation, and a patch, asks for. *)
Definition created `{KubeApi} (ns : string) (req : Lease) (s : kube) (l : Lease) (s' : kube) : Prop :=
  exists n, om_name (l_metadata req) = Some n /\ kube_current s ns n = None /\
    written ns n s l s' /\ l_spec l = l_spec req.

Definition patched `{KubeApi} (ns n : string) (p : LeasePatch) (s : kube) (l : Lease) (s' : kube)
    : Prop :=
  exists o, kube_current s ns n = Some o /\
    (forall v, pt_resource_version p = Some v -> resource_version o = Some v) /\
    written ns n s l s' /\ l_spec l = Some (merge_patch p (default spec_default (l_spec o))) /\
    om_uid (l_metadata l) = om_uid (l_metadata o).

Class KubeLaws `{KubeApi} := {
  (** Every object carries a version, and a version never names another content. *)
  kube_current_version s ns n o :
    kube_current s ns n = Some o ->
    exists v, resource_version o = Some v /\ kube_version s ns n v = Some o;
  kube_get_version s ns n x s' ns' n' v o :
    kube_get ns n s x s' -> kube_version s ns' n' v = Some o -> kube_version s' ns' n' v = Some o;
  kube_create_version s ns l x s' ns' n' v o :
    kube_create ns l s x s' -> kube_version s ns' n' v = Some o -> kube_version s' ns' n' v = Some o;
  kube_patch_version s ns n p x s' ns' n' v o :
    kube_patch ns n p s x s' -> kube_version s ns' n' v = Some o -> kube_version s' ns' n' v = Some o;
  kube_get_unchanged s ns n x s' : kube_get ns n s x s' -> unchanged s s';
  kube_get_current s ns n o s' : kube_get ns n s (Ok o) s' -> o = kube_current s ns n;
  kube_create_ok s ns req l s' : kube_create ns req s (Ok l) s' -> created ns req s l s';
  kube_create_err s ns req e s' :
    kube_create ns req s (Err e) s' -> unchanged s s' \/ exists l, created ns req s l s';
  kube_patch_ok s ns n p l s' : kube_patch ns n p s (Ok l) s' -> patched ns n p s l s';
  kube_patch_err s ns n p e s' :
    kube_patch ns n p s (Err e) s' -> unchanged s s' \/ exists l, patched ns n p s l s';
}.

(** ** Lease states and configuration *)

Section Leases.
Context `{UuidLib, !UuidBytes, MicroTimeLib}.

Inductive LeaseState :=
  | Leader (token : uuid) (expires_at transition_count : Z)
  | Standby (holder_workload_id : string) (observed_expiry : Z)
  | Unknown.

Inductive LeaseError :=
  | ModeUnavailable (m : string)
  | Backend (m : string)
  | Lost
  | Invalid (m : string).

Definition is_leader (s : LeaseState) : bool :=
  match s with Leader _ _ _ => true | _ => false end.

Definition is_leader_now (now : Z) (s : LeaseState) : bool :=
  match s with Leader _ expires_at _ => now <? expires_at | _ => false end.

Record LeaseAttempt := {
  at_state : LeaseState;
  at_event_type : string;
}.

(** Durations are in nanoseconds. *)
Record LeaseConfig := {
  lc_lease_name : string;
  lc_workload_id : string;
  lc_region : string;
  lc_ttl : Z;
  lc_renew_interval : Z;
  lc_retry_interval : Z;
}.

Definition validate (c : LeaseConfig) : result LeaseError unit :=
  if is_empty (lc_lease_name c) then Err (Invalid "lease_name empty")
  else if is_empty (lc_workload_id c) then Err (Invalid "workload_id empty")
  else if is_empty (lc_region c) then Err (Invalid "region empty")
  else if (lc_ttl c =? 0) || (lc_renew_interval c =? 0) || (lc_retry_interval c =? 0)
  then Err (Invalid "intervals must be > 0")
  else if lc_ttl c <=? lc_renew_interval c then Err (Invalid "renew_interval MUST be < ttl")
  else Ok tt.

(** ** The effects of a lease loop *)

(** The row of [acquire_lease]. *)
Record AcquireRow := {
  ar_granted : bool;
  ar_holder_token : option uuid;
  ar_holder_workload_id : option string;
  ar_expires_at : option Z;
  ar_transition_count : Z;
  ar_event_type : string;
}.

(** How a wait ends: its time elapsed, or the shutdown channel changed (or was
    closed, [ok = false]) and holds [stop]. *)
Inductive Woken := Slept | Changed (ok stop : bool).

(** A channel is named by the workload that owns its loop. *)
Inductive leaseE : Type -> Type :=
  | Now : leaseE Z
  | KubeGet (ns name : string) : leaseE (result KubeError (option Lease))
  | KubeCreate (ns : string) (l : Lease) : leaseE (result KubeError Lease)
  | KubePatch (ns name : string) (p : LeasePatch) : leaseE (result KubeError Lease)
  | AcquireSql (lease_name workload_id region : string) (ttl_secs : Z)
      : leaseE (result string AcquireRow)
  | ReleaseSql (lease_name workload_id : string) (token : uuid) : leaseE (result string bool)
  | Shutdown (w : string) : leaseE bool
  | Wait (w : string) (d : Z) : leaseE Woken
  | Publish (w : string) (s : LeaseState) : leaseE unit
  | Published (w : string) : leaseE LeaseState.

Definition L (A : Type) : Type := M leaseE LeaseError A.

Definition map_err {A B} (f : A -> LeaseError) (r : result A B) : result LeaseError B :=
  match r with Ok b => Ok b | Err a => Err (f a) end.

Definition actL {A} (e : leaseE A) : L A := act e.
Definition liftL {A} (r : result LeaseError A) : L A := lift r.

(** [trait LeaseManager]. *)
Record LeaseManager := {
  try_acquire : L LeaseAttempt;
  release : uuid -> L unit;
}.

(** ** Postgres *)

Definition PostgresLease_new (cfg : LeaseConfig) : result LeaseError LeaseConfig :=
  _ ← validate cfg; Ok cfg.

Definition postgres_try_acquire (cfg : LeaseConfig) : L LeaseAttempt :=
  ttl_secs ← liftL (if lc_ttl cfg / NANOS <=? i32_max then Ok (lc_ttl cfg / NANOS)
                    else Err (Invalid "ttl too large for i32"));
  answer ← actL (AcquireSql (lc_lease_name cfg) (lc_workload_id cfg) (lc_region cfg) ttl_secs);
  row ← liftL (map_err Backend answer);
  if ar_granted row then
    token ← liftL (ok_or (ar_holder_token row) (Invalid "acquire_lease granted without holder_token"));
    expires ← liftL (ok_or (ar_expires_at row) (Invalid "acquire_lease granted without expires_at"));
    mret {| at_state := Leader token expires (ar_transition_count row);
            at_event_type := ar_event_type row |}
  else
    observed ← match ar_expires_at row with Some t => mret t | None => actL Now end;
    mret {| at_state := Standby (default "<unknown>" (ar_holder_workload_id row)) observed;
            at_event_type := ar_event_type row |}.

Definition postgres_release (cfg : LeaseConfig) (token : uuid) : L unit :=
  answer ← actL (ReleaseSql (lc_lease_name cfg) (lc_workload_id cfg) token);
  _ ← liftL (map_err Backend answer);
  mret tt.

Definition PostgresLease (cfg : LeaseConfig) : LeaseManager :=
  {| try_acquire := postgres_try_acquire cfg; release := postgres_release cfg |}.

(** ** Kubernetes *)

Record K8sLease := {
  k8_namespace : string;
  k8_lease_name : string;
  k8_workload_id : string;
  k8_lease_duration_seconds : Z;
}.

Definition is_optimistic_lock_conflict (e : KubeError) : bool :=
  match e with KubeErrorApi code _ => code =? 409 | KubeErrorOther _ => false end.

(** The first 16 bytes of the uid, its last four mixed with the transitions. *)
Definition xor_byte (c : ascii) (b : Z) : ascii := ascii_of_N (Z.to_N (Z.lxor (byte_of c) b)).

Definition le_bytes4 (z : Z) : list Z :=
  (fun i => Z.land (Z.shiftr z (8 * i)) 255) <$> [0; 1; 2; 3].

Definition token_bytes (uid : string) (transitions : Z) : string :=
  let b := take 16 (list_ascii_of_string uid ++ replicate 16 zero) in
  string_of_list_ascii (take 12 b ++ zip_with xor_byte (drop 12 b) (le_bytes4 (u32_wrap transitions))).

Definition derive_k8s_token (l : Lease) : uuid :=
  uuid_from_bytes (token_bytes
    (default "00000000-0000-0000-0000-000000000000" (om_uid (l_metadata l)))
    (default 0 (l_spec l ≫= lease_transitions))).

Definition expiry (k : K8sLease) (now : Z) : Z := now + secs (k8_lease_duration_seconds k).

Definition new_lease (k : K8sLease) (now : Z) : Lease :=
  {| l_metadata := {| om_name := Some (k8_lease_name k); om_namespace := Some (k8_namespace k);
                      om_uid := None; om_resource_version := None |};
     l_spec := Some {| holder_identity := Some (k8_workload_id k);
                       lease_duration_seconds := Some (k8_lease_duration_seconds k);
                       acquire_time := Some (MicroTime now); renew_time := Some (MicroTime now);
                       lease_transitions := Some 1 |} |}.

Definition renew_patch (rv : option string) (now : Z) : LeasePatch :=
  {| pt_resource_version := rv; pt_holder_identity := Absent; pt_acquire_time := Absent;
     pt_renew_time := Value (MicroTime now); pt_lease_transitions := Absent |}.

Definition takeover_patch (rv : option string) (w : string) (now transitions : Z) : LeasePatch :=
  {| pt_resource_version := rv; pt_holder_identity := Value w;
     pt_acquire_time := Value (MicroTime now); pt_renew_time := Value (MicroTime now);
     pt_lease_transitions := Value transitions |}.

Definition clear_patch (rv : option string) : LeasePatch :=
  {| pt_resource_version := rv; pt_holder_identity := Null; pt_acquire_time := Absent;
     pt_renew_time := Null; pt_lease_transitions := Absent |}.

(** When the lease of [spec] expires, for a replica that reads it at [now]. *)
Definition observed_expiry_of (k : K8sLease) (spec : LeaseSpec) (now : Z) : Z :=
  match renew_time spec with
  | Some t => t + secs (default (k8_lease_duration_seconds k) (lease_duration_seconds spec))
  | None => now
  end.

Definition leads_as (l : Lease) (expires transitions : Z) (event : string) : LeaseAttempt :=
  {| at_state := Leader (derive_k8s_token l) expires transitions; at_event_type := event |}.

Definition stands_by (holder : option string) (observed : Z) (event : string) : LeaseAttempt :=
  {| at_state := Standby (default "" holder) observed; at_event_type := event |}.

Definition k8s_try_acquire (k : K8sLease) : L LeaseAttempt :=
  now ← actL Now;
  answer ← actL (KubeGet (k8_namespace k) (k8_lease_name k));
  existing ← liftL (map_err (fun e => Invalid ("k8s GET lease " +:+ k8_lease_name k +:+ ": "
                                               +:+ kube_error_str e)) answer);
  match existing with
  | None =>
      answer ← actL (KubeCreate (k8_namespace k) (new_lease k now));
      created ← liftL (map_err (fun e => Invalid ("k8s CREATE lease: " +:+ kube_error_str e)) answer);
      mret (leads_as created (expiry k now) 1 "acquired")
  | Some lease =>
      let spec := default spec_default (l_spec lease) in
      let holder := holder_identity spec in
      let observed_expiry := observed_expiry_of k spec now in
      let prior_transitions := default 0 (lease_transitions spec) in
      let observed_rv := resource_version lease in
      if decide (holder = Some (k8_workload_id k)) then
        answer ← actL (KubePatch (k8_namespace k) (k8_lease_name k) (renew_patch observed_rv now));
        match answer with
        | Ok _ => mret (leads_as lease (expiry k now) prior_transitions "renewed")
        | Err e =>
            if is_optimistic_lock_conflict e then mret (stands_by holder observed_expiry "renew-conflict")
            else liftL (Err (Invalid ("k8s PATCH renewTime: " +:+ kube_error_str e)))
        end
      else if observed_expiry <? now then
        let new_transitions := i32_wrap (prior_transitions + 1) in
        answer ← actL (KubePatch (k8_namespace k) (k8_lease_name k)
                         (takeover_patch observed_rv (k8_workload_id k) now new_transitions));
        match answer with
        | Ok patched => mret (leads_as patched (expiry k now) new_transitions "transitioned")
        | Err e =>
            if is_optimistic_lock_conflict e then mret (stands_by holder observed_expiry "takeover-conflict")
            else liftL (Err (Invalid ("k8s PATCH takeover: " +:+ kube_error_str e)))
        end
      else mret (stands_by holder observed_expiry "denied")
  end.

(** Best effort: every outcome is [Ok]. *)
Definition k8s_release (k : K8sLease) (_ : uuid) : L unit :=
  answer ← actL (KubeGet (k8_namespace k) (k8_lease_name k));
  match answer with
  | Ok (Some current) =>
      if decide ((l_spec current ≫= holder_identity) = Some (k8_workload_id k)) then
        _ ← actL (KubePatch (k8_namespace k) (k8_lease_name k) (clear_patch (resource_version current)));
        mret tt
      else mret tt
  | _ => mret tt
  end.

Definition k8s_manager (k : K8sLease) : LeaseManager :=
  {| try_acquire := k8s_try_acquire k; release := k8s_release k |}.

(** ** Disabled *)

Definition disabled_try_acquire : L LeaseAttempt :=
  now ← actL Now;
  mret {| at_state := Leader uuid_nil (now + secs 3600) 0;
          at_event_type := "disabled-mode-always-leader" |}.

Definition DisabledLease : LeaseManager :=
  {| try_acquire := disabled_try_acquire; release := fun _ => mret tt |}.

(** ** The loop *)

(** The wait between two turns; it ends the loop when a shutdown is requested. *)
Definition wait_then (w : string) (d : Z) (again stop : prog leaseE unit) : prog leaseE unit :=
  Vis (Wait w d) (fun woken =>
    match woken with Changed true true => stop | _ => again end).

Definition finish (m : LeaseManager) (w : string) : prog leaseE unit :=
  Vis (Published w) (fun last =>
    match last with
    | Leader token _ _ => pbind (release m token) (fun _ => Ret tt)
    | _ => Ret tt
    end).

(** [fuel] turns; every finite run of the loop is a run with enough of them. *)
Fixpoint lease_loop (fuel : nat) (m : LeaseManager) (cfg : LeaseConfig) (w : string)
    : prog leaseE unit :=
  match fuel with
  | O => Ret tt
  | S fuel =>
      Vis (Shutdown w) (fun stop : bool =>
        if stop then finish m w
        else
          pbind (try_acquire m) (fun r =>
            match r with
            | Err _ =>
                Vis (Publish w Unknown) (fun _ =>
                  wait_then w (lc_retry_interval cfg) (lease_loop fuel m cfg w) (finish m w))
            | Ok attempt =>
                let next_wait :=
                  match at_state attempt with
                  | Leader _ _ _ => lc_renew_interval cfg
                  | _ => lc_retry_interval cfg
                  end in
                Vis (Publish w (at_state attempt)) (fun _ =>
                  wait_then w next_wait (lease_loop fuel m cfg w) (finish m w))
            end))
  end.

Definition spawn_lease_loop (fuel : nat) (m : LeaseManager) (cfg : LeaseConfig) : prog leaseE unit :=
  Vis (Publish (lc_workload_id cfg) Unknown) (fun _ => lease_loop fuel m cfg (lc_workload_id cfg)).

(** A replica in Kubernetes mode, as the services' [main] builds it. *)
Definition k8s_of (ns : string) (ttl_seconds : Z) (cfg : LeaseConfig) : K8sLease :=
  {| k8_namespace := ns; k8_lease_name := lc_lease_name cfg; k8_workload_id := lc_workload_id cfg;
     k8_lease_duration_seconds := ttl_seconds |}.

Definition replica (ns : string) (ttl_seconds : Z) (r : nat * LeaseConfig) : prog leaseE unit :=
  spawn_lease_loop r.1 (k8s_manager (k8s_of ns ttl_seconds r.2)) r.2.

(** ** Replicas, interleaved *)

Section Replicas.
Context `{!KubeApi} {laws : KubeLaws}.
#[local] Set Default Proof Using "Type laws".

(** One clock, the store, and what each loop has published. *)
Record World := {
  clock : Z;
  store : kube;
  chans : gmap string LeaseState;
}.

Definition published (s : World) (w : string) : LeaseState := default Unknown (chans s !! w).

Definition with_store (st : kube) (s : World) : World :=
  {| clock := clock s; store := st; chans := chans s |}.
Definition with_clock (t : Z) (s : World) : World :=
  {| clock := t; store := store s; chans := chans s |}.
Definition with_chan (w : string) (l : LeaseState) (s : World) : World :=
  {| clock := clock s; store := store s; chans := <[w := l]> (chans s) |}.

(** What SQL answers, how a wait ends and whether a shutdown was requested are
    left open. *)
Definition handle (X : Type) (e : leaseE X) (s : World) : X -> World -> Prop :=
  match e in leaseE X return X -> World -> Prop with
  | Now => fun x s' => x = clock s /\ s' = s
  | KubeGet ns n => fun x s' => exists st, kube_get ns n (store s) x st /\ s' = with_store st s
  | KubeCreate ns l => fun x s' => exists st, kube_create ns l (store s) x st /\ s' = with_store st s
  | KubePatch ns n p => fun x s' => exists st, kube_patch ns n p (store s) x st /\ s' = with_store st s
  | AcquireSql _ _ _ _ => fun _ s' => s' = s
  | ReleaseSql _ _ _ => fun _ s' => s' = s
  | Shutdown _ => fun _ s' => s' = s
  | Wait _ _ => fun _ s' => s' = s
  | Publish w l => fun _ s' => s' = with_chan w l s
  | Published w => fun x s' => x = published s w /\ s' = s
  end.

(** Time passes. *)
Definition tick (s s' : World) : Prop := exists t, clock s <= t /\ s' = with_clock t s.

Lemma published_with_chan w w' l s :
  published (with_chan w l s) w' = if decide (w = w') then l else published s w'.
Proof.
  unfold published. cbn. case_decide; [subst; by rewrite lookup_insert_eq|by rewrite lookup_insert_ne].
Qed.

(** *** One lease object *)

Section Object.
Context (ns n : string) (d : Z).

Definition current (s : World) : option Lease := kube_current (store s) ns n.
Definition spec_now (s : World) : option LeaseSpec := current s ≫= l_spec.

(** [w] holds the lease, renewed at [t]. *)
Definition held (s : World) (w : string) (t : Z) : Prop :=
  exists sp, spec_now s = Some sp /\ holder_identity sp = Some w /\ renew_time sp = Some t /\
    lease_duration_seconds sp = Some d.

(** The lease was released. *)
Definition cleared (s : World) : Prop :=
  exists sp, spec_now s = Some sp /\ holder_identity sp = None /\ renew_time sp = None.

(** [w] leads, and not only for the rest of this microsecond. *)
Definition leads (s : World) (w : string) : Prop := is_leader_now (clock s + 999) (published s w) = true.

Lemma leads_expiry s w :
  leads s w <-> exists tok e tc, published s w = Leader tok e tc /\ clock s + 999 < e.
Proof.
  unfold leads. destruct (published s w) as [tok e tc| |]; cbn; [|naive_solver..].
  rewrite Z.ltb_lt. naive_solver.
Qed.

Record lease_inv (s : World) : Prop := {
  li_shape : current s = None \/ (exists w t, held s w (MicroTime t) /\ t <= clock s) \/ cleared s;
  li_leader w tok e tc : published s w = Leader tok e tc -> clock s + 999 < e ->
    (exists t, held s w t /\ e < t + secs d + 1000) \/ cleared s;
  li_single w1 w2 : leads s w1 -> leads s w2 -> w1 = w2;
}.

(** What the replica [w] relies on, and guarantees to the others. *)
Record rely (w : string) (s s' : World) : Prop := {
  ry_clock : clock s <= clock s';
  ry_published : published s' w = published s w;
  ry_version v o : kube_version (store s) ns n v = Some o -> kube_version (store s') ns n v = Some o;
  ry_kept t : held s w t -> held s' w t \/ t + secs d < clock s';
  ry_mine t : held s' w t -> held s w t;
}.

Definition guar (w : string) (s s' : World) : Prop := forall w', w' <> w -> rely w' s s'.

#[local] Instance rely_preorder w : PreOrder (rely w).
Proof.
  split; [intros s; split; auto; lia|]. intros s1 s2 s3 [J1 J2 J3 J4 J5] [K1 K2 K3 K4 K5].
  split; [lia|congruence|auto| |auto].
  intros t [Hh|Ht]%J4; [by apply K4|right; lia].
Qed.

Lemma held_holder s w t w' t' : held s w t -> held s w' t' -> w = w' /\ t = t'.
Proof. intros (sp & E & Hw & Ht & _) (sp' & E' & Hw' & Ht' & _). by simplify_eq. Qed.

Lemma held_not_cleared s w t : held s w t -> ~ cleared s.
Proof. intros (sp & E & Hw & _) (sp' & E' & Hw' & _). congruence. Qed.

(** Steps that leave the object alone. *)
Lemma quiet_step w s s' :
  current s' = current s -> clock s <= clock s' ->
  (forall v o, kube_version (store s) ns n v = Some o -> kube_version (store s') ns n v = Some o) ->
  published s' w = published s w -> rely w s s'.
Proof.
  intros Hc Hclk Hv Hp. assert (Hh : forall t, held s' w t <-> held s w t).
  { intros t. unfold held, spec_now. by rewrite Hc. }
  split; auto; naive_solver.
Qed.

Lemma inv_same_object s s' :
  current s' = current s -> clock s <= clock s' -> (forall w, published s' w = published s w) ->
  lease_inv s -> lease_inv s'.
Proof.
  intros Hc Hclk Hp [Hsh Hld Hone].
  assert (Hh : forall w t, held s' w t <-> held s w t) by (intros; unfold held, spec_now; by rewrite Hc).
  assert (Hcl : cleared s' <-> cleared s) by (unfold cleared, spec_now; by rewrite Hc).
  assert (Hl : forall w, leads s' w -> leads s w).
  { intros w. rewrite !leads_expiry, Hp. intros (tok & e & tc & ? & ?). exists tok, e, tc. split; [done|lia]. }
  split.
  - rewrite Hc, Hcl. destruct Hsh as [?|[(w & t & ? & ?)|?]]; [by left| |by auto].
    right; left. exists w, t. rewrite Hh. split; [done|lia].
  - intros w tok e tc. rewrite Hp, Hcl. setoid_rewrite Hh. intros E He.
    apply (Hld w tok e tc E). lia.
  - auto.
Qed.

(** [w] writes its claim, made at [now], over an object that it holds itself or
    that has expired. *)
Lemma claim_step w now s st l sp :
  lease_inv s -> written ns n (store s) l st -> l_spec l = Some sp ->
  holder_identity sp = Some w -> renew_time sp = Some (MicroTime now) ->
  lease_duration_seconds sp = Some d -> now <= clock s ->
  (forall v o, kube_version (store s) ns n v = Some o -> kube_version st ns n v = Some o) ->
  (forall w' t, held s w' t -> (w' = w /\ t <= MicroTime now) \/ t + secs d < clock s) ->
  ~ cleared s ->
  guar w s (with_store st s) /\ lease_inv (with_store st s) /\ held (with_store st s) w (MicroTime now).
Proof.
  intros [Hsh Hld Hone] [Hcur _] Hsp Hw Ht Hd Hnow Hv Hold Hncl.
  assert (Hnew : held (with_store st s) w (MicroTime now)).
  { exists sp. split; [|done]. unfold spec_now, current. cbn. by rewrite Hcur. }
  split; [|split; [|done]].
  - intros w' Hne. split; cbn; [done|done|done|..].
    + intros t Hh. destruct (Hold w' t Hh) as [[? _]|?]; [done|by right].
    + intros t Hh. by destruct (held_holder _ _ _ _ _ Hh Hnew).
  - split; cbn; [right; left; by exists w, now| |done].
    intros w' tok e tc E He. left. destruct (Hld w' tok e tc E He) as [(t & Hh & Hlt)|?]; [|done].
    destruct (Hold w' t Hh) as [[-> Hle]|?]; [|exfalso; lia].
    exists (MicroTime now). split; [done|lia].
Qed.

(** The holder clears its own claim. *)
Lemma clear_step w t s st l sp :
  lease_inv s -> written ns n (store s) l st -> l_spec l = Some sp ->
  holder_identity sp = None -> renew_time sp = None -> held s w t ->
  (forall v o, kube_version (store s) ns n v = Some o -> kube_version st ns n v = Some o) ->
  guar w s (with_store st s) /\ lease_inv (with_store st s).
Proof.
  intros [Hsh Hld Hone] [Hcur _] Hsp Hw Ht Hh Hv.
  assert (Hnew : cleared (with_store st s)).
  { exists sp. split; [|done]. unfold spec_now, current. cbn. by rewrite Hcur. }
  split.
  - intros w' Hne. split; cbn; [done|done|done|..].
    + intros t' Hh'. by destruct (held_holder _ _ _ _ _ Hh Hh').
    + intros t' Hh'. by destruct (held_not_cleared _ _ _ Hh').
  - split; cbn; [by auto|by auto|done].
Qed.

(** *** One attempt *)

Lemma quiet_guar w s s' :
  current s' = current s -> clock s <= clock s' ->
  (forall v o, kube_version (store s) ns n v = Some o -> kube_version (store s') ns n v = Some o) ->
  (forall w', w' <> w -> published s' w' = published s w') -> guar w s s'.
Proof. intros ???? w' ?. apply quiet_step; auto. Qed.

Lemma guar_refl w s : guar w s s.
Proof. intros w' _. reflexivity. Qed.

(** What [w] knows since it read the clock: no claim of its own is younger. *)
Definition knows (w : string) (now : Z) (s : World) : Prop :=
  now <= clock s /\ forall t, held s w t -> t <= MicroTime now.

Lemma knows_now w s : lease_inv s -> knows w (clock s) s.
Proof.
  intros [Hsh _ _]. split; [done|]. intros t Hh.
  destruct Hsh as [Hc|[(w' & t' & Hh' & Hle)|Hc]].
  - destruct Hh as (sp & E & _). unfold spec_now in E. by rewrite Hc in E.
  - destruct (held_holder _ _ _ _ _ Hh Hh') as [_ ->]. by apply MicroTime_mono.
  - by destruct (held_not_cleared _ _ _ Hh Hc).
Qed.

Lemma knows_stable w now s s' : rely w s s' -> knows w now s -> knows w now s'.
Proof. intros [Hc _ _ _ Hm] [Hn Hk]. split; [lia|]. intros t Hh. auto. Qed.

Definition claimed (w : string) (e : Z) (s : World) : Prop :=
  e <= clock s + 999 \/ exists t, held s w t /\ e < t + secs d + 1000.

Definition attempted (w : string) (r : result LeaseError LeaseAttempt) (s : World) : Prop :=
  forall a tok e tc, r = Ok a -> at_state a = Leader tok e tc -> claimed w e s.

Lemma claimed_stable w e s s' : rely w s s' -> claimed w e s -> claimed w e s'.
Proof.
  intros [Hc _ _ Hk _] [He|(t & Hh & He)]; [left; lia|].
  destruct (Hk t Hh) as [?|?]; [right; eauto|left; lia].
Qed.

(** A write under the version of the object read is a write over that object. *)
Lemma patch_over s v o p x st :
  kube_version (store s) ns n v = Some o -> resource_version o = Some v ->
  kube_patch ns n p (store s) x st -> pt_resource_version p = Some v ->
  (unchanged (store s) st /\ forall l, x <> Ok l) \/
  exists l, current s = Some o /\ written ns n (store s) l st /\
    l_spec l = Some (merge_patch p (default spec_default (l_spec o))).
Proof.
  intros Hv Hrv Hx Hp.
  assert (Hpat : forall l, patched ns n p (store s) l st ->
    exists l, current s = Some o /\ written ns n (store s) l st /\
      l_spec l = Some (merge_patch p (default spec_default (l_spec o)))).
  { intros l (o' & Hcur & Hpre & Hw & Hsp & _). exists l. apply Hpre in Hp.
    destruct (kube_current_version _ _ _ _ Hcur) as (v' & Hv' & Hvo). simplify_eq.
    unfold current. auto. }
  destruct x as [l|e].
  - right. eapply Hpat. by apply kube_patch_ok.
  - destruct (kube_patch_err _ _ _ _ _ _ Hx) as [?|[l Hl]]; [left; by split|right; by eapply Hpat].
Qed.

Lemma spec_of_current s o : current s = Some o -> forall sp, spec_now s = Some sp -> l_spec o = Some sp.
Proof. unfold spec_now. by intros ->. Qed.

(** Renewals and takeovers. *)
Lemma claim_by_patch k w now s v o p x st :
  k8_lease_duration_seconds k = d ->
  lease_inv s -> knows w now s ->
  kube_version (store s) ns n v = Some o -> resource_version o = Some v ->
  kube_patch ns n p (store s) x st -> pt_resource_version p = Some v ->
  let spec := default spec_default (l_spec o) in
  holder_identity spec = Some w \/ observed_expiry_of k spec now < now ->
  holder_identity (merge_patch p spec) = Some w ->
  renew_time (merge_patch p spec) = Some (MicroTime now) ->
  guar w s (with_store st s) /\ lease_inv (with_store st s) /\
  forall l, x = Ok l -> held (with_store st s) w (MicroTime now).
Proof.
  intros Hd HI [Hnow Hk] Hv Hrv Hx Hp spec Hover Hw Ht.
  assert (Hvm := fun v o => kube_patch_version (store s) ns n p x st ns n v o Hx).
  destruct (patch_over s v o p x st Hv Hrv Hx Hp) as [[Hu Hne]|(l & Hcur & Hwr & Hsp)].
  { assert (Hc : current (with_store st s) = current s) by apply Hu.
    split; [apply quiet_guar; by try done|]. split; [|intros l ->; by destruct (Hne l)].
    by eapply inv_same_object. }
  assert (Hshape : lease_duration_seconds spec = Some d /\ ~ cleared s /\
    forall w' t, held s w' t -> (w' = w /\ t <= MicroTime now) \/ t + secs d < clock s).
  { destruct (li_shape _ HI) as [Hn|[(w' & t & (sp & E & Hw' & Ht' & Hd') & _)|(sp & E & Hw' & Ht')]].
    - congruence.
    - pose proof (spec_of_current _ _ Hcur _ E) as Ho. unfold spec in *. rewrite Ho in *. cbn in *.
      split; [done|]. assert (Hh : held s w' (MicroTime t)) by by exists sp.
      split; [by eapply held_not_cleared|]. intros w2 t2 Hh2.
      destruct (held_holder _ _ _ _ _ Hh Hh2) as [-> <-].
      destruct Hover as [?|Hexp]; [left; simplify_eq; auto|right].
      revert Hexp. unfold observed_expiry_of. rewrite Ht', Hd'. cbn. lia.
    - exfalso. pose proof (spec_of_current _ _ Hcur _ E) as Ho. unfold spec in *. rewrite Ho in *.
      cbn in *. destruct Hover as [?|Hexp]; [congruence|].
      revert Hexp. unfold observed_expiry_of. rewrite Ht'. lia. }
  destruct Hshape as (Hd' & Hncl & Hold).
  destruct (claim_step w now s st l (merge_patch p spec)) as (Hg & HI' & Hh); done.
Qed.

Lemma claim_by_create k w now s x st :
  k8_namespace k = ns -> k8_lease_name k = n -> k8_workload_id k = w ->
  k8_lease_duration_seconds k = d -> lease_inv s -> now <= clock s ->
  kube_create ns (new_lease k now) (store s) x st ->
  guar w s (with_store st s) /\ lease_inv (with_store st s) /\
  forall l, x = Ok l -> held (with_store st s) w (MicroTime now).
Proof.
  intros Hns Hn Hw Hd HI Hnow Hx.
  assert (Hvm := fun v o => kube_create_version (store s) ns (new_lease k now) x st ns n v o Hx).
  assert (Hdone : forall l, created ns (new_lease k now) (store s) l st ->
    guar w s (with_store st s) /\ lease_inv (with_store st s) /\ held (with_store st s) w (MicroTime now)).
  { intros l (n' & [= <-] & Hnone & Hwr & Hsp). rewrite Hn in Hnone, Hwr.
    eapply claim_step; try done; cbn; [by rewrite Hsp|by rewrite <- Hw|done|by rewrite <- Hd|..].
    - intros w' t (sp & E & _). unfold spec_now, current in E. by rewrite Hnone in E.
    - intros (sp & E & _). unfold spec_now, current in E. by rewrite Hnone in E. }
  destruct x as [l|e].
  - destruct (Hdone l) as (? & ? & ?); [by apply kube_create_ok|]. done.
  - destruct (kube_create_err _ _ _ _ _ Hx) as [Hu|[l Hl]].
    + assert (Hc : current (with_store st s) = current s) by apply Hu.
      split; [by apply quiet_guar|]. split; [|done]. by eapply inv_same_object.
    + destruct (Hdone l Hl) as (? & ? & ?). done.
Qed.

Lemma get_keeps w s x st :
  kube_get ns n (store s) x st -> lease_inv s ->
  guar w s (with_store st s) /\ lease_inv (with_store st s) /\ rely w s (with_store st s).
Proof.
  intros Hx HI. assert (Hc : current (with_store st s) = current s) by apply (kube_get_unchanged _ _ _ _ _ Hx).
  assert (Hvm := fun v o => kube_get_version (store s) ns n x st ns n v o Hx).
  split; [by apply quiet_guar|]. split; [by eapply inv_same_object|by apply quiet_step].
Qed.

Lemma rely_spec_version w s s' o v :
  rely w s s' -> kube_version (store s) ns n v = Some o -> kube_version (store s') ns n v = Some o.
Proof. intros []; auto. Qed.

(** A claim written at [now] backs leadership for the lease's duration from then. *)
Lemma held_claimed k w now s :
  k8_lease_duration_seconds k = d -> held s w (MicroTime now) -> claimed w (expiry k now) s.
Proof.
  intros Hd Hh. right. exists (MicroTime now). split; [done|]. unfold expiry. rewrite Hd.
  pose proof (MicroTime_le now). lia.
Qed.

(** An attempt that ends as leader has its claim in the store. *)
Lemma try_acquire_follows k w s :
  k8_namespace k = ns -> k8_lease_name k = n -> k8_workload_id k = w ->
  k8_lease_duration_seconds k = d ->
  follows handle lease_inv (rely w) (guar w) (attempted w) (k8s_try_acquire k) s.
Proof.
  intros Hns Hn Hw Hd. cbn. intros s1 now ? _ HI1 [-> ->].
  split; [apply guar_refl|]. split; [done|]. pose proof (knows_now w s1 HI1) as Hk1.
  rewrite Hns, Hn. intros s2 x ? Hr2 HI2 (st & Hget & ->).
  apply (knows_stable _ _ _ _ Hr2) in Hk1.
  destruct (get_keeps w s2 x st Hget HI2) as (Hg & HI3 & Hr3). split; [done|]. split; [done|].
  apply (knows_stable _ _ _ _ Hr3) in Hk1. set (s3 := with_store st s2) in *.
  destruct x as [[o|]|e]; cbn; [| |done].
  - pose proof (kube_get_current _ _ _ _ _ Hget) as Hcur. symmetry in Hcur.
    destruct (kube_current_version _ _ _ _ Hcur) as (v & Hrv & Hv).
    apply (kube_get_version _ _ _ _ _ ns n _ _ Hget) in Hv. rewrite Hw.
    set (spec := default spec_default (l_spec o)).
    case_decide as Hmine; [|destruct (_ <? _) eqn:Hexp; [|by intros ? ? ? ? [= <-] [=]]];
      cbn; intros s4 x s5 Hr4 HI4 (st4 & Hx & ->); apply (knows_stable _ _ _ _ Hr4) in Hk1;
      apply (rely_spec_version _ _ _ _ _ Hr4) in Hv.
    + destruct (claim_by_patch k w (clock s1) s4 v o _ x st4 Hd HI4 Hk1 Hv Hrv Hx Hrv) as (Hg4 & HI5 & Hh);
        [by left|done|done|]. split; [done|]. split; [done|].
      destruct x as [l|e]; [|destruct (is_optimistic_lock_conflict e); by intros ? ? ? ? [= <-] [=]].
      intros ? tok e tc [= <-] [= _ <- _]. by eapply held_claimed, Hh.
    + destruct (claim_by_patch k w (clock s1) s4 v o _ x st4 Hd HI4 Hk1 Hv Hrv Hx Hrv) as (Hg4 & HI5 & Hh);
        [right; by apply Z.ltb_lt in Hexp|done|done|]. split; [done|]. split; [done|].
      destruct x as [l|e]; [|destruct (is_optimistic_lock_conflict e); by intros ? ? ? ? [= <-] [=]].
      intros ? tok e tc [= <-] [= _ <- _]. by eapply held_claimed, Hh.
  - intros s4 x s5 Hr4 HI4 (st4 & Hx & ->). apply (knows_stable _ _ _ _ Hr4) in Hk1.
    destruct (claim_by_create k w (clock s1) s4 x st4) as (Hg4 & HI5 & Hh); try done; [by apply Hk1|].
    split; [done|]. split; [done|]. destruct x as [l|e]; cbn; [|done].
    intros ? tok e tc [= <-] [= _ <- _]. by eapply held_claimed, Hh.
Qed.

(** A release clears nothing but the replica's own claim. *)
Lemma release_follows k w tok s :
  k8_namespace k = ns -> k8_lease_name k = n -> k8_workload_id k = w ->
  follows handle lease_inv (rely w) (guar w) (fun _ _ => True) (k8s_release k tok) s.
Proof.
  intros Hns Hn Hw. cbn. rewrite Hns, Hn, Hw. intros s1 x ? _ HI1 (st & Hget & ->).
  destruct (get_keeps w s1 x st Hget HI1) as (Hg & HI2 & Hr2). split; [done|]. split; [done|].
  destruct x as [[o|]|e]; [|done..].
  pose proof (kube_get_current _ _ _ _ _ Hget) as Hcur. symmetry in Hcur.
  destruct (kube_current_version _ _ _ _ Hcur) as (v & Hrv & Hv).
  apply (kube_get_version _ _ _ _ _ ns n _ _ Hget) in Hv.
  case_decide as Hmine; cbn; [|done]. intros s3 x ? Hr3 HI3 (st3 & Hx & ->).
  apply (rely_spec_version _ _ _ _ _ Hr3) in Hv.
  assert (Hvm := fun v o => kube_patch_version _ ns n _ _ _ ns n v o Hx).
  destruct (patch_over s3 v o _ x st3 Hv Hrv Hx Hrv) as [[Hu _]|(l & Hcur3 & Hwr & Hsp)].
  { assert (Hc : current (with_store st3 s3) = current s3) by apply Hu.
    split; [by apply quiet_guar|]. split; [by eapply inv_same_object|done]. }
  destruct (l_spec o) as [sp|] eqn:Ho; [|done]. cbn in Hmine.
  assert (Hheld : exists t, held s3 w t).
  { unfold held, spec_now. rewrite Hcur3. cbn. rewrite Ho.
    destruct (li_shape _ HI3) as [Hnone|[(w' & t & (sp' & E & Hw' & Ht' & Hd') & _)|(sp' & E & Hw' & _)]].
    - congruence.
    - unfold spec_now in E. rewrite Hcur3 in E. cbn in E. simplify_eq. exists (MicroTime t). by eexists.
    - unfold spec_now in E. rewrite Hcur3 in E. cbn in E. congruence. }
  destruct Hheld as [t Hh].
  destruct (clear_step w t s3 st3 l _ HI3 Hwr Hsp eq_refl eq_refl Hh Hvm). done.
Qed.

(** Publishing an outcome that the store backs. *)
Lemma publish_keeps w l s :
  lease_inv s -> (forall tok e tc, l = Leader tok e tc -> claimed w e s) ->
  guar w s (with_chan w l s) /\ lease_inv (with_chan w l s).
Proof.
  intros HI Hl. split.
  { apply quiet_guar; [done|done|done|]. intros w' Hne. rewrite published_with_chan. by case_decide. }
  assert (Hlead : forall w', leads (with_chan w l s) w' -> leads s w' \/ w' = w /\ exists t, held s w t).
  { intros w'. rewrite leads_expiry, published_with_chan. cbn. intros (tok & e & tc & E & He).
    case_decide as Hc; [subst w'|left; apply leads_expiry; eauto]. right. split; [done|].
    destruct (Hl tok e tc E) as [?|(t & Hh & _)]; [lia|eauto]. }
  assert (Hback : forall w', leads s w' -> cleared s \/ exists t, held s w' t).
  { intros w'. rewrite leads_expiry. intros (tok & e & tc & E & He).
    destruct (li_leader _ HI _ _ _ _ E He) as [(t & Hh & _)|?]; eauto. }
  split; [apply HI|..].
  - intros w' tok e tc. rewrite published_with_chan. cbn. intros E He.
    case_decide as Hc; [subst w'|by apply (li_leader _ HI w' tok e tc)]. left.
    destruct (Hl tok e tc E) as [?|?]; [lia|done].
  - intros w1 w2 [L1|[-> [t1 T1]]]%Hlead [L2|[-> [t2 T2]]]%Hlead; [by apply (li_single _ HI)| | |done].
    + destruct (Hback _ L1) as [?|[t Hh]]; [by destruct (held_not_cleared _ _ _ T2)|].
      by destruct (held_holder _ _ _ _ _ Hh T2).
    + destruct (Hback _ L2) as [?|[t Hh]]; [by destruct (held_not_cleared _ _ _ T1)|].
      by destruct (held_holder _ _ _ _ _ T1 Hh).
Qed.

(** *** The loop *)

Definition keeps (w : string) (p : prog leaseE unit) (s : World) : Prop :=
  follows handle lease_inv (rely w) (guar w) (fun _ _ => True) p s.

Lemma wait_follows w dur again stop s :
  (forall s', keeps w again s') -> (forall s', keeps w stop s') -> keeps w (wait_then w dur again stop) s.
Proof.
  intros Ha Hs s1 x s2 _ HI ->. split; [apply guar_refl|]. split; [done|].
  destruct x as [|[] []]; first [apply Ha|apply Hs].
Qed.

Lemma publish_follows w l p s :
  (forall tok e tc, l = Leader tok e tc -> claimed w e s) -> (forall s', keeps w p s') ->
  keeps w (Vis (Publish w l) (fun _ => p)) s.
Proof.
  intros Hl Hp s1 x s2 Hr HI ->. destruct (publish_keeps w l s1 HI) as [Hg HI'].
  { intros tok e tc E. eapply claimed_stable; eauto. }
  split; [done|]. split; [done|]. apply Hp.
Qed.

Lemma loop_follows k fuel cfg w s :
  k8_namespace k = ns -> k8_lease_name k = n -> k8_workload_id k = w ->
  k8_lease_duration_seconds k = d -> keeps w (lease_loop fuel (k8s_manager k) cfg w) s.
Proof.
  intros Hns Hn Hw Hd. revert s.
  assert (Hfin : forall s, keeps w (finish (k8s_manager k) w) s).
  { intros s s1 l ? _ HI [_ ->]. split; [apply guar_refl|]. split; [done|].
    destruct l as [tok e tc| |]; [|done..]. apply follows_pbind.
    by apply (follows_weaken _ _ _ _ (fun _ _ => True)); [|apply release_follows]. }
  induction fuel as [|fuel IH]; intros s; [done|].
  intros s1 stop ? _ HI ->. split; [apply guar_refl|]. split; [done|].
  destruct stop; [apply Hfin|]. apply follows_pbind.
  eapply follows_weaken; [|by apply try_acquire_follows]. intros [a|e] s' Hatt.
  - apply publish_follows; [intros tok e tc; by apply Hatt|]. intros ?. by apply wait_follows.
  - apply publish_follows; [done|]. intros ?. by apply wait_follows.
Qed.

End Object.

(** C15: no split brain in Kubernetes mode among replicas that agree. Any number of
    replicas with distinct workload ids, all configured with the one lease duration [d],
    run the lease loop over one lease object, which does not exist at first, and against
    one clock; their steps are interleaved with each other and with the passing of time
    in any way; requests may fail, with or without having been applied; a replica may
    stop at any point, and may be shut down and release its lease. In every state they
    reach, at most one replica has published a lease that is live for longer than the
    microsecond to which the object's times are rounded, and while one has, either the
    object names it as the holder or it names nobody, a release having cleared it. With
    different durations it fails: [mixed_durations_two_leaders]. *)
Theorem single_leader ns n d (rs : list (nat * LeaseConfig)) s log s' ps' :
  (forall r, r ∈ rs -> lc_lease_name r.2 = n) -> NoDup (lc_workload_id <$> rs.*2) ->
  current ns n s = None -> chans s = ∅ ->
  pool_run handle tick (s, replica ns d <$> rs) log (s', ps') ->
  (forall w1 w2, is_leader_now (clock s' + 999) (published s' w1) = true ->
                 is_leader_now (clock s' + 999) (published s' w2) = true -> w1 = w2) /\
  forall w, is_leader_now (clock s' + 999) (published s' w) = true ->
    (exists t, held ns n d s' w t /\ clock s' < t + secs d) \/ cleared ns n s'.
Proof.
  intros Hname Hdup Hnone Hch Hrun.
  assert (Hpub : forall w, published s w = Unknown) by (intros w; unfold published; by rewrite Hch).
  pose (wid i := default "" ((lc_workload_id <$> rs.*2) !! i)).
  assert (Hwid : forall i r, rs !! i = Some r -> wid i = lc_workload_id r.2).
  { intros i r Hi. unfold wid. by rewrite !list_lookup_fmap, Hi. }
  destruct (pool_follows handle (lease_inv ns n d) tick (fun i => rely ns n d (wid i))
              (fun i => guar ns n d (wid i)) (fun _ _ _ => True) s (replica ns d <$> rs) log s' ps') as (HI & _ & _); try done.
  - intros i. apply rely_preorder.
  - intros i j s1 s2 [? (r & _ & Hi)%list_lookup_fmap_Some_1] [? (r' & _ & Hj)%list_lookup_fmap_Some_1].
    intros Hne Hg. apply Hg. intros E. apply Hne. eapply (NoDup_lookup _ i j (wid i) Hdup).
    + by rewrite (Hwid i r Hi), !list_lookup_fmap, Hi.
    + by rewrite <- E, (Hwid j r' Hj), !list_lookup_fmap, Hj.
  - intros s1 s2 HI1 (t & Ht & ->). split; [by apply (inv_same_object ns n d s1)|]. intros i. by apply quiet_step.
  - split; [by left|..].
    + intros w tok e tc. by rewrite Hpub.
    + intros w1 w2. unfold leads. by rewrite Hpub.
  - intros i p Hi. rewrite list_lookup_fmap in Hi. destruct (rs !! i) as [r|] eqn:Hr; [|done].
    injection Hi as <-. rewrite (Hwid i r Hr). unfold replica, spawn_lease_loop.
    apply publish_follows; [done|]. intros s1. apply loop_follows; try done.
    apply Hname. by eapply list_elem_of_lookup_2.
  - split; [apply HI|]. intros w Hw. apply leads_expiry in Hw as (tok & e & tc & E & He).
    destruct (li_leader _ _ _ _ HI w tok e tc E He) as [(t & Hh & Hlt)|?]; [left|by right].
    exists t. split; [done|lia].
Qed.

(** *** After a release *)

(** What [k8s_release] leaves: an object without holder and without time. *)
Definition released (o : Lease) : Prop :=
  let spec := default spec_default (l_spec o) in
  holder_identity spec = None /\ renew_time spec = None.

Definition stuck (ns n : string) (o : Lease) (s : World) : Prop :=
  current ns n s = Some o /\ forall w, is_leader (published s w) = false.

Definition anyhow (_ _ : World) : Prop := True.

#[local] Instance anyhow_preorder : PreOrder anyhow.
Proof. done. Qed.

Definition stays_stuck (ns n : string) (o : Lease) (p : prog leaseE unit) : Prop :=
  forall s, follows handle (stuck ns n o) anyhow anyhow (fun _ _ => True) p s.

Lemma stuck_with_chan ns n o w l s :
  is_leader l = false -> stuck ns n o s -> stuck ns n o (with_chan w l s).
Proof.
  intros Hl [Hc Hp]. split; [done|]. intros w'. rewrite published_with_chan. by case_decide.
Qed.

Lemma stuck_loop ns n o fuel d cfg w :
  lc_lease_name cfg = n -> released o ->
  stays_stuck ns n o (lease_loop fuel (k8s_manager (k8s_of ns d cfg)) cfg w).
Proof.
  intros Hn [Hholder Htime].
  assert (Hfin : stays_stuck ns n o (finish (k8s_manager (k8s_of ns d cfg)) w)).
  { intros s s1 l ? _ [Hc Hp] [-> ->]. split; [done|]. split; [done|]. specialize (Hp w).
    by destruct (published s1 w). }
  assert (Hwait : forall dur p, stays_stuck ns n o p ->
    stays_stuck ns n o (wait_then w dur p (finish (k8s_manager (k8s_of ns d cfg)) w))).
  { intros dur p Hp s s1 x ? _ HI ->. split; [done|]. split; [done|].
    destruct x as [|[] []]; first [apply Hp|apply Hfin]. }
  induction fuel as [|fuel IH]; intros s; [done|].
  intros s1 stop ? _ HI ->. split; [done|]. split; [done|]. destruct stop; [apply Hfin|].
  cbn. intros s2 now ? _ HI2 [-> ->]. split; [done|]. split; [done|].
  rewrite Hn. intros s3 x ? _ [Hc3 Hp3] (st & Hget & ->).
  assert (HI3 : stuck ns n o (with_store st s3)).
  { split; [|done]. unfold current. cbn. by rewrite (kube_get_unchanged _ _ _ _ _ Hget). }
  split; [done|]. split; [done|].
  destruct x as [x|e]; cbn.
  - apply kube_get_current in Hget. unfold current in Hc3. rewrite Hc3 in Hget. subst x. cbn.
    unfold observed_expiry_of. rewrite Htime, Z.ltb_irrefl, decide_False by congruence. cbn.
    intros s4 x ? _ HI4 ->. split; [done|]. split; [by apply stuck_with_chan|]. apply (Hwait (lc_retry_interval cfg) _ IH).
  - intros s4 x ? _ HI4 ->. split; [done|]. split; [by apply stuck_with_chan|]. apply (Hwait (lc_retry_interval cfg) _ IH).
Qed.

(** C28: a released lease is never taken again. [k8s_release] clears the holder
    and the renewal time of the object; a replica that reads such an object takes
    its expiry to be the present instant, which has not passed, and stands by. So
    from a state with a released lease and no leader, no replica - whatever its
    workload id, duration and schedule, however much time passes - ever becomes
    leader, and the object stays as it is. *)
Theorem released_lease_stuck ns n o (rs : list (Z * (nat * LeaseConfig))) s log s' ps' :
  (forall r, r ∈ rs -> lc_lease_name r.2.2 = n) ->
  current ns n s = Some o -> released o -> (forall w, is_leader (published s w) = false) ->
  pool_run handle tick (s, (fun r => replica ns r.1 r.2) <$> rs) log (s', ps') ->
  current ns n s' = Some o /\ forall w, is_leader (published s' w) = false.
Proof.
  intros Hname Hcur Hrel Hp Hrun.
  destruct (pool_follows handle (stuck ns n o) tick (fun _ => anyhow) (fun _ => anyhow)
              (fun _ _ _ => True) s ((fun r => replica ns r.1 r.2) <$> rs) log s' ps') as (HI & _ & _); try done.
  - intros s1 s2 HI (t & Ht & ->). done.
  - intros i p (r & -> & Hr)%list_lookup_fmap_Some_1. unfold replica, spawn_lease_loop.
    intros s1 x s2 _ HI ->. split; [done|]. split; [by apply stuck_with_chan|].
    apply stuck_loop; [|done]. apply Hname. by eapply list_elem_of_lookup_2.
Qed.

End Replicas.
End Leases.

(** ** A store, and two replicas *)

Module LeaseDemo.
Import Demo.

#[export] Instance demo_micro : MicroTimeLib.
Proof.
  refine {| MicroTime t := t / 1000 * 1000 |}; intros.
  - pose proof (Z.div_mod t 1000). pose proof (Z.mod_pos_bound t 1000). lia.
  - pose proof (Z.div_le_mono t u 1000). lia.
Defined.

(** The objects by version, and the version of each name. *)
Record DemoKube := {
  dk_names : gmap (string * string) string;
  dk_versions : gmap (string * string * string) Lease;
  dk_next : Z;
}.

Definition dk_version (s : DemoKube) (ns n v : string) : option Lease := dk_versions s !! (ns, n, v).

Definition dk_current (s : DemoKube) (ns n : string) : option Lease :=
  v ← dk_names s !! (ns, n);
  o ← dk_version s ns n v;
  if decide (resource_version o = Some v) then Some o else None.

Definition dk_write (ns n : string) (uid : option string) (sp : option LeaseSpec) (s : DemoKube)
    : result KubeError Lease * DemoKube :=
  let v := z_str (dk_next s) in
  let o := {| l_metadata := {| om_name := Some n; om_namespace := Some ns; om_uid := uid;
                               om_resource_version := Some v |};
              l_spec := sp |} in
  match dk_version s ns n v with
  | Some _ => (Err (KubeErrorOther "version in use"), s)
  | None => (Ok o, {| dk_names := <[(ns, n) := v]> (dk_names s);
                      dk_versions := <[(ns, n, v) := o]> (dk_versions s);
                      dk_next := dk_next s + 1 |})
  end.

Definition dk_create (ns : string) (req : Lease) (s : DemoKube) : result KubeError Lease * DemoKube :=
  match om_name (l_metadata req) with
  | None => (Err (KubeErrorApi 422 "no name"), s)
  | Some n =>
      match dk_current s ns n with
      | Some _ => (Err (KubeErrorApi 409 "exists"), s)
      | None => dk_write ns n (Some "11111111-1111-1111-1111-111111111111") (l_spec req) s
      end
  end.

Definition dk_patch (ns n : string) (p : LeasePatch) (s : DemoKube) : result KubeError Lease * DemoKube :=
  match dk_current s ns n with
  | None => (Err (KubeErrorApi 404 "not found"), s)
  | Some o =>
      if decide (pt_resource_version p = None \/ resource_version o = pt_resource_version p)
      then dk_write ns n (om_uid (l_metadata o))
             (Some (merge_patch p (default spec_default (l_spec o)))) s
      else (Err (KubeErrorApi 409 "modified"), s)
  end.

#[export] Instance demo_kube : KubeApi :=
  {| kube := DemoKube; kube_current := dk_current; kube_version := dk_version;
     kube_get ns n s x s' := x = Ok (dk_current s ns n) /\ s' = s;
     kube_create ns l s x s' := (x, s') = dk_create ns l s;
     kube_patch ns n p s x s' := (x, s') = dk_patch ns n p s |}.

Lemma dk_write_version ns n uid sp s ns' n' v o :
  dk_version s ns' n' v = Some o -> dk_version (dk_write ns n uid sp s).2 ns' n' v = Some o.
Proof.
  unfold dk_write. destruct (dk_version s ns n _) eqn:E; [done|]. unfold dk_version in *. cbn.
  intros Ho. rewrite lookup_insert_ne; [done|]. intros [= <- <- <-]. congruence.
Qed.

Lemma dk_write_case ns n uid sp s x s' :
  (x, s') = dk_write ns n uid sp s ->
  (s' = s /\ exists e, x = Err e) \/
  exists l, x = Ok l /\ l_spec l = sp /\ om_uid (l_metadata l) = uid /\ written ns n s l s'.
Proof.
  unfold dk_write. destruct (dk_version s ns n _) eqn:E; intros [= -> ->]; [left; eauto|].
  right. eexists. split; [done|]. split; [done|]. split; [done|]. split; cbn.
  - unfold dk_current, dk_version. cbn. rewrite lookup_insert_eq. cbn. rewrite lookup_insert_eq. cbn.
    by rewrite decide_True.
  - intros ns' n' Hne. unfold dk_current, dk_version. cbn. rewrite lookup_insert_ne by congruence.
    destruct (dk_names s !! (ns', n')) as [v|]; [|done]. cbn. by rewrite lookup_insert_ne by congruence.
Qed.

Lemma dk_patched ns n p o uid s l s' :
  dk_current s ns n = Some o -> (pt_resource_version p = None \/ resource_version o = pt_resource_version p) ->
  l_spec l = Some (merge_patch p (default spec_default (l_spec o))) ->
  om_uid (l_metadata l) = uid -> uid = om_uid (l_metadata o) -> written ns n s l s' -> patched ns n p s l s'.
Proof.
  intros Ho Hv Hsp Hu -> Hw. exists o. split; [done|]. split; [|done].
  intros v Hp. destruct Hv; congruence.
Qed.

#[export] Instance demo_kube_laws : KubeLaws.
Proof.
  split; cbn.
  - intros s ns n o. unfold dk_current. destruct (dk_names s !! (ns, n)) as [v|]; [|done]. cbn.
    destruct (dk_version s ns n v) as [o'|] eqn:E; [|done]. cbn. case_decide; [|done]. intros [= <-]. eauto.
  - by intros s ns n x s' ns' n' v o [_ ->].
  - intros s ns l x s' ns' n' v o Hx. unfold dk_create in Hx.
    destruct (om_name _); [|by simplify_eq]. destruct (dk_current _ _ _); [by simplify_eq|].
    intros Hv%(dk_write_version ns s0 (Some "11111111-1111-1111-1111-111111111111") (l_spec l)).
    by rewrite <- Hx in Hv.
  - intros s ns n p x s' ns' n' v o Hx. unfold dk_patch in Hx.
    destruct (dk_current _ _ _) as [o'|]; [|by simplify_eq]. case_decide; [|by simplify_eq].
    intros Hv%(dk_write_version ns n (om_uid (l_metadata o'))
                 (Some (merge_patch p (default spec_default (l_spec o'))))). by rewrite <- Hx in Hv.
  - by intros s ns n x s' [_ ->].
  - by intros s ns n o s' [[= ->] _].
  - intros s ns req l s' Hx. unfold dk_create in Hx. destruct (om_name _) as [n|] eqn:Hn; [|done].
    destruct (dk_current _ _ _) eqn:Hc; [done|]. apply dk_write_case in Hx as [[_ [e [=]]]|(l' & [= <-] & Hsp & _ & Hw)].
    by exists n.
  - intros s ns req e s' Hx. left. unfold dk_create in Hx. destruct (om_name _) as [n|] eqn:Hn; [|by simplify_eq].
    destruct (dk_current _ _ _) eqn:Hc; [by simplify_eq|]. apply dk_write_case in Hx as [[-> _]|(l' & [=] & _)]. done.
  - intros s ns n p l s' Hx. unfold dk_patch in Hx. destruct (dk_current _ _ _) as [o|] eqn:Hc; [|done].
    case_decide; [|done]. apply dk_write_case in Hx as [[_ [e [=]]]|(l' & [= <-] & Hsp & Hu & Hw)].
    by eapply dk_patched.
  - intros s ns n p e s' Hx. left. unfold dk_patch in Hx. destruct (dk_current _ _ _) as [o|] eqn:Hc; [|by simplify_eq].
    case_decide; [|by simplify_eq]. apply dk_write_case in Hx as [[-> _]|(l' & [=] & _)]. done.
Qed.

(** An executable meaning of the effects; [stop] says who is asked to shut down. *)
Definition step (stop : string -> bool) (X : Type) (e : leaseE X) (s : World) : X * World :=
  match e in leaseE X return X * World with
  | Now => (clock s, s)
  | KubeGet ns n => (Ok (dk_current (store s) ns n), s)
  | KubeCreate ns l => let r := dk_create ns l (store s) in (r.1, with_store r.2 s)
  | KubePatch ns n p => let r := dk_patch ns n p (store s) in (r.1, with_store r.2 s)
  | AcquireSql _ _ _ _ => (Err "no database", s)
  | ReleaseSql _ _ _ => (Err "no database", s)
  | Shutdown w => (stop w, s)
  | Wait w _ => (if stop w then Changed true true else Slept, s)
  | Publish w l => (tt, with_chan w l s)
  | Published w => (published s w, s)
  end.

Lemma step_handle stop X (e : leaseE X) s : handle X e s (step stop X e s).1 (step stop X e s).2.
Proof.
  destruct e; cbn; try done.
  - exists (store s). destruct s; done.
  - exists (dk_create ns l (store s)).2. by destruct (dk_create _ _ _).
  - exists (dk_patch ns name p (store s)).2. by destruct (dk_patch _ _ _ _).
Qed.

Definition cfg_of (w : string) : LeaseConfig :=
  {| lc_lease_name := "sg-outbox"; lc_workload_id := w; lc_region := "eu"; lc_ttl := secs 30;
     lc_renew_interval := secs 10; lc_retry_interval := secs 5 |}.

Definition pods : list (nat * LeaseConfig) := [(3%nat, cfg_of "pod-a"); (3%nat, cfg_of "pod-b")].

Definition empty_store : DemoKube := {| dk_names := ∅; dk_versions := ∅; dk_next := 100 |}.
Definition start : World := {| clock := secs 1000; store := empty_store; chans := ∅ |}.

Definition nobody (_ : string) : bool := false.
Definition pod_a (w : string) : bool := w =?s "pod-a".

(** pod-a acquires, pod-b stands by; after 31 seconds pod-b takes over, and pod-a
    finds out. *)
Definition phase1 := schedule (step nobody) (replicate 6 0%nat ++ replicate 5 1%nat)
  (start, replica "sg" 30 <$> pods).
Definition phase2 := schedule (step nobody) (replicate 6 1%nat)
  (with_clock (secs 1031) phase1.2.1, phase1.2.2).

Example phase1_leader :
  (is_leader_now (clock phase1.2.1 + 999) (published phase1.2.1 "pod-a"),
   is_leader (published phase1.2.1 "pod-b")) = (true, false).
Proof. vm_compute. reflexivity. Qed.

(** Two schedules with a passing of time between them. *)
Lemma two_phases stop1 stop2 order1 order2 (c : World * list (prog leaseE unit)) t :
  let c1 := (schedule (step stop1) order1 c).2 in
  let r2 := schedule (step stop2) order2 (with_clock t c1.1, c1.2) in
  clock c1.1 <= t ->
  pool_run handle tick c ((schedule (step stop1) order1 c).1 ++ [] ++ r2.1) (r2.2.1, r2.2.2).
Proof.
  intros c1 r2 Ht. rewrite <- surjective_pairing. apply (pool_app _ _ _ _ c1); [apply (schedule_run handle tick), step_handle|].
  destruct c1 as [s1 ps1]. apply (pool_cons _ _ _ [] (with_clock t s1, ps1)).
  - apply pool_other. by exists t.
  - apply (schedule_run handle tick), step_handle.
Qed.

Lemma demo_run :
  pool_run handle tick (start, replica "sg" 30 <$> pods) (phase1.1 ++ [] ++ phase2.1)
    (phase2.2.1, phase2.2.2).
Proof. apply two_phases. apply Z.leb_le. vm_compute. reflexivity. Qed.

Lemma single_leader_witness :
  is_leader_now (clock phase2.2.1 + 999) (published phase2.2.1 "pod-b") = true /\
  is_leader_now (clock phase2.2.1 + 999) (published phase2.2.1 "pod-a") <> true /\
  ((exists t, held "sg" "sg-outbox" 30 phase2.2.1 "pod-b" t /\ clock phase2.2.1 < t + secs 30) \/
   cleared "sg" "sg-outbox" phase2.2.1).
Proof.
  assert (Hb : is_leader_now (clock phase2.2.1 + 999) (published phase2.2.1 "pod-b") = true)
    by (vm_compute; reflexivity).
  destruct (single_leader "sg" "sg-outbox" 30 pods start (phase1.1 ++ [] ++ phase2.1)
              phase2.2.1 phase2.2.2) as [Hone Hheld].
  - intros r Hr. apply list_elem_of_In in Hr as [<-|[<-|[]]]; reflexivity.
  - change (NoDup ["pod-a"; "pod-b"]). apply NoDup_cons. split; [|apply NoDup_singleton].
    intros E%list_elem_of_singleton. discriminate E.
  - vm_compute. reflexivity.
  - reflexivity.
  - exact demo_run.
  - split; [exact Hb|]. split.
    + intros Ha. specialize (Hone _ _ Ha Hb). discriminate Hone.
    + exact (Hheld _ Hb).
Defined.

(** A takeover keeps the duration that the object was created with, while the new
    leader counts its own: replicas configured with different durations can lead
    at once. *)
Definition mixed1 := schedule (step nobody) (replicate 6 0%nat)
  (start, [replica "sg" 10 (3%nat, cfg_of "pod-a"); replica "sg" 30 (3%nat, cfg_of "pod-b")]).
Definition mixed2 := schedule (step nobody) (replicate 6 1%nat)
  (with_clock (secs 1011) mixed1.2.1, mixed1.2.2).
Definition mixed3 := schedule (step nobody) (replicate 6 0%nat)
  (with_clock (secs 1022) mixed2.2.1, mixed2.2.2).

Example mixed_durations_two_leaders :
  (is_leader_now (secs 1022) (published mixed3.2.1 "pod-a"),
   is_leader_now (secs 1022) (published mixed3.2.1 "pod-b")) = (true, true).
Proof. vm_compute. reflexivity. Qed.

(** pod-a acquires and is shut down; an hour later a new pod-b is refused. *)
Definition shutdown_run := schedule (step pod_a) (replicate 4 0%nat)
  (schedule (step nobody) (replicate 6 0%nat) (start, replica "sg" 30 <$> pods)).2.

Definition later : World :=
  {| clock := secs 4600; store := store shutdown_run.2.1; chans := ∅ |}.

Definition refused := schedule (step nobody) (replicate 5 0%nat)
  (later, (fun r => replica "sg" r.1 r.2) <$> [(30, (3%nat, cfg_of "pod-b"))]).

Example refused_standby : published refused.2.1 "pod-b" = Standby "" (secs 4600).
Proof. vm_compute. reflexivity. Qed.

Lemma refused_run :
  pool_run handle tick (later, (fun r => replica "sg" r.1 r.2) <$> [(30, (3%nat, cfg_of "pod-b"))])
    refused.1 (refused.2.1, refused.2.2).
Proof. rewrite <- surjective_pairing. apply (schedule_run handle tick), step_handle. Qed.

Lemma released_lease_stuck_witness : exists o,
  current "sg" "sg-outbox" later = Some o /\ current "sg" "sg-outbox" refused.2.1 = Some o /\
  is_leader (published refused.2.1 "pod-b") = false.
Proof.
  destruct (current "sg" "sg-outbox" later) as [o|] eqn:Ho; [|vm_compute in Ho; discriminate].
  exists o. split; [reflexivity|].
  destruct (released_lease_stuck "sg" "sg-outbox" o [(30, (3%nat, cfg_of "pod-b"))] later refused.1
              refused.2.1 refused.2.2) as [Hcur Hno].
  - intros r Hr. apply list_elem_of_In in Hr as [<-|[]]. reflexivity.
  - exact Ho.
  - vm_compute in Ho. injection Ho as <-. vm_compute. auto.
  - reflexivity.
  - exact refused_run.
  - split; [exact Hcur|apply Hno].
Defined.

End LeaseDemo.
