(* ===== verification/Cursor.v ===== *)
(** * The Cursor codec

    [services/cursor_codec/src]: the Connect framing of the wire
    ([framing.rs], [reencode.rs]), the translation between Cursor's messages and
    OpenAI's ([translate.rs]), and one request's session between the client, the
    sidecar and the upstream ([mitm_session.rs]). Bytes are lists of [ascii]; the
    reader reads a buffer ([std::io::Cursor]), whose only error is its end. *)

From S2P Require Import Prelude Deps Effects.

Abbreviation bytes := (list ascii).

(** ** Frames *)

Inductive IoError :=
  | InvalidData (m : string)
  | UnexpectedEof (m : string)
  | OtherIo (m : string).

Definition DEFAULT_MAX_FRAME_LEN : Z := 8 * 1024 * 1024.
Definition FLAG_COMPRESSED : Z := 1.
Definition FLAG_END_OF_STREAM : Z := 2.
Definition VALID_FLAG_MASK : Z := Z.lor FLAG_COMPRESSED FLAG_END_OF_STREAM.

Record Frame := {
  fr_flags : ascii;
  fr_payload : bytes;
}.

Definition is_compressed (f : Frame) : bool := negb (Z.land (byte_of (fr_flags f)) FLAG_COMPRESSED =? 0).
Definition is_end_of_stream (f : Frame) : bool :=
  negb (Z.land (byte_of (fr_flags f)) FLAG_END_OF_STREAM =? 0).

(** [z as u8], and [u32::to_be_bytes], [from_be_bytes]. *)
Definition byte (z : Z) : ascii := ascii_of_N (Z.to_N (z mod 256)).

Definition to_be_bytes (z : Z) : bytes :=
  (fun i => byte (Z.shiftr z i)) <$> [24; 16; 8; 0].

Definition from_be_bytes (l : bytes) : Z := fold_left (fun acc c => acc * 256 + byte_of c) l 0.

Definition hex_digit (z : Z) : string :=
  String (ascii_of_N (Z.to_N (if z <? 10 then 48 + z else 87 + z))) EmptyString.
Definition hex_u8 (z : Z) : string := "0x" +:+ hex_digit (z / 16) +:+ hex_digit (z mod 16).

(** One frame, and the bytes after it; [None] at the end of the stream. *)
Definition read_frame (max_frame_len : Z) (input : bytes) : result IoError (option (Frame * bytes)) :=
  match input with
  | [] => Ok None
  | flags :: input =>
      if negb (Z.land (byte_of flags) (255 - VALID_FLAG_MASK) =? 0) then
        Err (InvalidData ("connect-rpc: invalid flag byte " +:+ hex_u8 (byte_of flags)
                          +:+ ": reserved bits set"))
      else if bool_decide (length input < 4)%nat then
        Err (UnexpectedEof "connect-rpc: truncated frame: missing length prefix")
      else
        let len := from_be_bytes (take 4 input) in
        let input := drop 4 input in
        if max_frame_len <? len then
          Err (InvalidData ("connect-rpc: oversized frame: length " +:+ z_str len +:+ " exceeds max "
                            +:+ z_str max_frame_len))
        else if Z.of_nat (length input) <? len then
          Err (UnexpectedEof ("connect-rpc: truncated frame: payload short of declared length "
                              +:+ z_str len))
        else Ok (Some ({| fr_flags := flags; fr_payload := take (Z.to_nat len) input |},
                       drop (Z.to_nat len) input))
  end.

Definition reencode_frame_with_payload (orig : Frame) (new_payload : bytes) : bytes :=
  fr_flags orig :: to_be_bytes (u32_wrap (Z.of_nat (length new_payload))) ++ new_payload.

Definition reencode_frame (f : Frame) : bytes := reencode_frame_with_payload f (fr_payload f).

(** The loops of [reencode.rs]: each frame read is written by [emit]. [None]: out
    of fuel, which a fuel above the length of the input excludes. *)
Fixpoint reencode_loop (emit : Frame -> result IoError bytes) (fuel : nat) (wire : bytes)
    : option (result IoError bytes) :=
  match fuel with
  | O => None
  | S fuel =>
      match read_frame DEFAULT_MAX_FRAME_LEN wire with
      | Err e => Some (Err e)
      | Ok None => Some (Ok [])
      | Ok (Some (frame, wire)) =>
          match emit frame with
          | Err e => Some (Err e)
          | Ok out =>
              rest ← reencode_loop emit fuel wire;
              Some (rest ≫= fun rest => Ok (out ++ rest))
          end
      end
  end.

Definition fuel_for (wire : bytes) : nat := S (length wire).

Definition reencode_frame_stream (wire : bytes) : option (result IoError bytes) :=
  reencode_loop (fun f => Ok (reencode_frame f)) (fuel_for wire) wire.

(** ** Messages *)

Record CursorMessage := { cm_role : string; cm_content : string }.

(** A temperature is the bits of its [f32]. *)
Record CursorChatRequest := {
  cr_messages : list CursorMessage;
  cr_model : string;
  cr_system : option string;
  cr_max_tokens : option Z;
  cr_temperature : option Z;
}.

Record CursorChatResponseChunk := {
  cc_model : string;
  cc_delta : string;
  cc_finish_reason : option string;
  cc_cumulative_output_tokens : option Z;
}.

(** The [extra] members of these are empty when this code writes them, and are
    not read by it. *)
Record OpenAiMessage := { om_role : string; om_content : string }.

Record OpenAiChatRequest := {
  or_model : string;
  or_messages : list OpenAiMessage;
  or_max_tokens : option Z;
  or_temperature : option Z;
  or_stream : option bool;
}.

Record OpenAiUsage := { ou_prompt_tokens : Z; ou_completion_tokens : Z; ou_total_tokens : Z }.

Record OpenAiChunkDelta := { od_role : option string; od_content : option string }.

Record OpenAiChunkChoice := {
  oc_index : Z;
  oc_delta : OpenAiChunkDelta;
  oc_finish_reason : option string;
}.

Record OpenAiChatResponseChunk := {
  ok_model : string;
  ok_choices : list OpenAiChunkChoice;
  ok_usage : option OpenAiUsage;
}.

(** prost's encoding of the messages of [cursor.proto]. *)
Class CursorProst := {
  request_decode : bytes -> result string CursorChatRequest;
  request_encode : CursorChatRequest -> result string bytes;
  chunk_decode : bytes -> result string CursorChatResponseChunk;
  chunk_encode : CursorChatResponseChunk -> result string bytes;
  request_decode_encode r b : request_encode r = Ok b -> request_decode b = Ok r;
  chunk_decode_encode c b : chunk_encode c = Ok b -> chunk_decode b = Ok c;
}.

(** ** Translation *)

Definition cursor_message_to_openai (m : CursorMessage) : OpenAiMessage :=
  {| om_role := cm_role m; om_content := cm_content m |}.

Definition already_has_leading_system (req : CursorChatRequest) : bool :=
  match cr_messages req with m :: _ => cm_role m =?s "system" | [] => false end.

Definition cursor_request_to_openai (req : CursorChatRequest) : OpenAiChatRequest :=
  let prompt :=
    match cr_system req with
    | Some system => if already_has_leading_system req then []
                     else [{| om_role := "system"; om_content := system |}]
    | None => []
    end in
  {| or_model := cr_model req;
     or_messages := prompt ++ (cursor_message_to_openai <$> cr_messages req);
     or_max_tokens := cr_max_tokens req; or_temperature := cr_temperature req;
     or_stream := Some true |}.

Definition openai_chunk_to_cursor (chunk : OpenAiChatResponseChunk) : CursorChatResponseChunk :=
  let first := head (ok_choices chunk) in
  {| cc_model := ok_model chunk;
     cc_delta := default "" (first ≫= fun c => od_content (oc_delta c));
     cc_finish_reason := first ≫= oc_finish_reason;
     cc_cumulative_output_tokens := ou_completion_tokens <$> ok_usage chunk |}.

(** [str::chars().count()]: the bytes of UTF-8 that do not continue a character. *)
Definition chars_count (s : string) : Z :=
  Z.of_nat (length (filter (fun c => Z.land (byte_of c) 192 <> 128) (list_ascii_of_string s))).

Definition streamed_chars (chunks : list OpenAiChatResponseChunk) : Z :=
  foldr Z.add 0 (chars_count <$> omap (fun c => od_content (oc_delta c)) (chunks ≫= ok_choices)).

Definition commit_output_tokens (chunks : list OpenAiChatResponseChunk) : Z :=
  match omap ok_usage chunks with
  | [] => Z.min u32_max ((streamed_chars chunks + 3) / 4)
  | usages => foldr Z.max 0 (ou_completion_tokens <$> usages)
  end.

(** ** The session *)

Section Session.
Context `{CursorProst}.

Definition reencode_decoded_stream_as_request (wire : bytes) : option (result IoError bytes) :=
  reencode_loop (fun frame =>
    if is_end_of_stream frame then Ok (reencode_frame_with_payload frame (fr_payload frame))
    else match request_decode (fr_payload frame) with
         | Err e => Err (InvalidData ("envelope decode failed: " +:+ e))
         | Ok req => match request_encode req with
                     | Err e => Err (OtherIo ("envelope encode failed: " +:+ e))
                     | Ok buf => Ok (reencode_frame_with_payload frame buf)
                     end
         end) (fuel_for wire) wire.

Definition reencode_decoded_stream_as_response (wire : bytes) : option (result IoError bytes) :=
  reencode_loop (fun frame =>
    if is_end_of_stream frame then Ok (reencode_frame_with_payload frame (fr_payload frame))
    else match chunk_decode (fr_payload frame) with
         | Err e => Err (InvalidData ("envelope decode failed: " +:+ e))
         | Ok chunk => match chunk_encode chunk with
                       | Err e => Err (OtherIo ("envelope encode failed: " +:+ e))
                       | Ok buf => Ok (reencode_frame_with_payload frame buf)
                       end
         end) (fuel_for wire) wire.

Inductive DecodeError := Prost (m : string) | MissingField (field : string).

Definition decode_chat_request (b : bytes) : result DecodeError CursorChatRequest :=
  match request_decode b with
  | Err e => Err (Prost e)
  | Ok req => if is_empty (cr_model req) then Err (MissingField "model") else Ok req
  end.

Inductive SidecarDecision :=
  | Continue (reservation_id decision_id : string)
  | Stop (decision_id : string) (reason_codes : list string)
  | RequireApproval (decision_id : string)
  | Skip (decision_id : string).

Inductive ReleaseReason := ProviderError | RuntimeError | ClientTimeout | RunAborted.

Inductive SessionError :=
  | EnvelopeDecode (e : DecodeError)
  | SidecarError (m : string)
  | Upstream (m : string)
  | Blocked (decision_id : string) (reason_codes : list string)
  | UnsupportedDecision (m : string).

Record SessionResult := {
  sr_response_bytes : bytes;
  sr_reservation_id : option string;
  sr_committed : option bool;
}.

(** The calls of [SidecarLane] and [UpstreamConnector]. *)
Inductive sessionE : Type -> Type :=
  | Reserve (req : OpenAiChatRequest) : sessionE (result SessionError SidecarDecision)
  | Commit (reservation_id decision_id : string) (actual_output_tokens : Z)
      : sessionE (result SessionError unit)
  | Release (reservation_id decision_id : string) (reason : ReleaseReason)
      : sessionE (result SessionError unit)
  | Forward (req : OpenAiChatRequest)
      : sessionE (result SessionError (list OpenAiChatResponseChunk)).

Definition Sess (A : Type) : Type := M sessionE SessionError A.
Definition callS {A} (e : sessionE (result SessionError A)) : Sess A := call e.
Definition actS {A} (e : sessionE A) : Sess A := act e.
Definition failS {A} (e : SessionError) : Sess A := fail e.

Definition chunk_frame (payload : bytes) : Frame := {| fr_flags := byte 0; fr_payload := payload |}.
Definition eos_frame : Frame := {| fr_flags := byte FLAG_END_OF_STREAM; fr_payload := [] |}.

Fixpoint build_cursor_response_wire (chunks : list OpenAiChatResponseChunk) : result SessionError bytes :=
  match chunks with
  | [] => Ok (reencode_frame_with_payload eos_frame [])
  | chunk :: chunks =>
      match chunk_encode (openai_chunk_to_cursor chunk) with
      | Err e => Err (SidecarError ("encode chunk: " +:+ e))
      | Ok payload =>
          rest ← build_cursor_response_wire chunks;
          Ok (reencode_frame_with_payload (chunk_frame payload) payload ++ rest)
      end
  end.

(** [MitmSession::run]. *)
Definition session_run (cursor_request_bytes : bytes) : Sess SessionResult :=
  cursor_req ← match decode_chat_request cursor_request_bytes with
               | Ok r => mret r
               | Err e => failS (EnvelopeDecode e)
               end;
  let openai_req := cursor_request_to_openai cursor_req in
  decision ← callS (Reserve openai_req);
  match decision with
  | Stop did reasons => failS (Blocked did reasons)
  | RequireApproval did =>
      failS (UnsupportedDecision ("REQUIRE_APPROVAL (decision_id=" +:+ did +:+ ")"))
  | Skip did => failS (UnsupportedDecision ("SKIP (decision_id=" +:+ did +:+ ")"))
  | Continue rid did =>
      chunks ← actS (Forward openai_req);
      match chunks with
      | Err e => _ ← actS (Release rid did ProviderError); failS e
      | Ok chunks =>
          match build_cursor_response_wire chunks with
          | Err e => _ ← actS (Release rid did RuntimeError); failS e
          | Ok response_bytes =>
              _ ← callS (Commit rid did (commit_output_tokens chunks));
              mret {| sr_response_bytes := response_bytes; sr_reservation_id := Some rid;
                      sr_committed := Some true |}
          end
      end
  end.

End Session.

(** ** Framing facts *)

Lemma byte_of_range c : 0 <= byte_of c < 256.
Proof. unfold byte_of. pose proof (nat_ascii_bounded c). lia. Qed.

Lemma byte_of_byte z : byte_of (byte z) = z mod 256.
Proof.
  unfold byte_of, byte, nat_of_ascii. rewrite N_ascii_embedding; [|pose proof (Z.mod_pos_bound z 256); lia].
  pose proof (Z.mod_pos_bound z 256). lia.
Qed.

Lemma byte_byte_of c : byte (byte_of c) = c.
Proof.
  unfold byte. rewrite Z.mod_small by apply byte_of_range. unfold byte_of, nat_of_ascii.
  rewrite <- (ascii_N_embedding c) at 2. f_equal. lia.
Qed.

Lemma to_be_length z : length (to_be_bytes z) = 4%nat.
Proof. done. Qed.

Lemma from_to_be z : 0 <= z < 2 ^ 32 -> from_be_bytes (to_be_bytes z) = z.
Proof.
  intros Hz. unfold from_be_bytes, to_be_bytes. cbn [fmap list_fmap fold_left].
  rewrite !byte_of_byte, !Z.shiftr_div_pow2 by lia. change (2 ^ 32) with 4294967296 in Hz.
  change (2 ^ 24) with 16777216. change (2 ^ 16) with 65536. change (2 ^ 8) with 256. change (2 ^ 0) with 1.
  Z.to_euclidean_division_equations. lia.
Qed.

Lemma from_be_range l : length l = 4%nat -> 0 <= from_be_bytes l < 2 ^ 32.
Proof.
  destruct l as [|a [|b [|c [|d []]]]]; try done. intros _. cbn -[Z.mul Z.pow].
  pose proof (byte_of_range a). pose proof (byte_of_range b). pose proof (byte_of_range c).
  pose proof (byte_of_range d). lia.
Qed.

Lemma to_from_be l : length l = 4%nat -> to_be_bytes (from_be_bytes l) = l.
Proof.
  destruct l as [|a [|b [|c [|d []]]]]; try done. intros _.
  unfold from_be_bytes, to_be_bytes. cbn [fmap list_fmap fold_left].
  pose proof (byte_of_range a). pose proof (byte_of_range b). pose proof (byte_of_range c).
  pose proof (byte_of_range d).
  assert (Hb : forall x y, 0 <= byte_of y < 256 -> x mod 256 = byte_of y -> byte x = y).
  { intros x y Hy E. rewrite <- (byte_byte_of y). unfold byte. by rewrite E, (Z.mod_small (byte_of y)). }
  rewrite !Z.shiftr_div_pow2 by lia. change (2 ^ 24) with 16777216. change (2 ^ 16) with 65536.
  change (2 ^ 8) with 256. change (2 ^ 0) with 1.
  f_equal; [|f_equal; [|f_equal; [|f_equal]]]; apply Hb; try done; Z.to_euclidean_division_equations; lia.
Qed.

(** What the wire can carry: no reserved bit, and a payload within the limit. *)
Definition valid_frame (f : Frame) : Prop :=
  Z.land (byte_of (fr_flags f)) (255 - VALID_FLAG_MASK) = 0 /\
  Z.of_nat (length (fr_payload f)) <= DEFAULT_MAX_FRAME_LEN.

#[local] Opaque to_be_bytes from_be_bytes.

Lemma read_reencoded f wire :
  valid_frame f -> read_frame DEFAULT_MAX_FRAME_LEN (reencode_frame f ++ wire) = Ok (Some (f, wire)).
Proof.
  intros [Hf Hl]. unfold reencode_frame, reencode_frame_with_payload. cbn [app read_frame].
  rewrite Hf, bool_decide_false; [|rewrite !length_app, to_be_length; lia]. cbn [Z.eqb negb].
  rewrite <- app_assoc, (take_app_length' _ _ 4), (drop_app_length' _ _ 4) by done.
  assert (Hu : u32_wrap (Z.of_nat (length (fr_payload f))) = Z.of_nat (length (fr_payload f))).
  { unfold u32_wrap. apply Z.mod_small. unfold DEFAULT_MAX_FRAME_LEN in Hl. lia. }
  rewrite Hu, from_to_be by (unfold DEFAULT_MAX_FRAME_LEN in Hl; lia).
  rewrite (proj2 (Z.ltb_ge _ _)) by done.
  rewrite (proj2 (Z.ltb_ge _ _)) by (rewrite length_app; lia).
  rewrite Nat2Z.id, take_app_length, drop_app_length. by destruct f.
Qed.

Lemma read_frame_spec input f wire :
  read_frame DEFAULT_MAX_FRAME_LEN input = Ok (Some (f, wire)) ->
  valid_frame f /\ input = reencode_frame f ++ wire.
Proof.
  destruct input as [|flags input]; [done|]. cbn [read_frame].
  destruct (negb _) eqn:Hf; [done|]. case_bool_decide as Hn; [done|].
  destruct (DEFAULT_MAX_FRAME_LEN <? _) eqn:Hmax; [done|].
  destruct (Z.of_nat _ <? _) eqn:Hlen; [done|]. intros [= <- <-].
  apply negb_false_iff, Z.eqb_eq in Hf. apply Z.ltb_ge in Hmax, Hlen.
  assert (H4 : length (take 4 input) = 4%nat) by (rewrite length_take; lia).
  pose proof (from_be_range _ H4) as Hr. set (len := from_be_bytes (take 4 input)) in *.
  assert (Hp : length (take (Z.to_nat len) (drop 4 input)) = Z.to_nat len) by (rewrite length_take; lia).
  split; [split; cbn; [done|lia]|].
  unfold reencode_frame, reencode_frame_with_payload. cbn [fr_flags fr_payload app].
  rewrite Hp, Z2Nat.id by lia. unfold u32_wrap. rewrite Z.mod_small by lia. f_equal.
  unfold len at 1. rewrite (to_from_be _ H4), <- app_assoc, take_drop, take_drop. done.
Qed.

Lemma read_frame_end input : read_frame DEFAULT_MAX_FRAME_LEN input = Ok None <-> input = [].
Proof.
  destruct input as [|flags input]; [done|]. split; [|done]. cbn [read_frame].
  destruct (negb _); [done|]. case_bool_decide; [done|].
  destruct (DEFAULT_MAX_FRAME_LEN <? _); [done|]. by destruct (Z.of_nat _ <? _).
Qed.

Lemma read_frame_shorter input f wire :
  read_frame DEFAULT_MAX_FRAME_LEN input = Ok (Some (f, wire)) -> (length wire < length input)%nat.
Proof.
  intros [_ ->]%read_frame_spec. unfold reencode_frame, reencode_frame_with_payload.
  rewrite !length_app. cbn. lia.
Qed.

(** The wire of a list of frames. *)
Definition wire_of (frames : list Frame) : bytes := concat (reencode_frame <$> frames).

Lemma wire_of_cons f frames : wire_of (f :: frames) = reencode_frame f ++ wire_of frames.
Proof. done. Qed.

(** Every input is a wire of frames, then its end or the first malformed frame. *)
Lemma wire_split input :
  exists frames rest, Forall valid_frame frames /\ input = wire_of frames ++ rest /\
    (rest = [] \/ exists e, read_frame DEFAULT_MAX_FRAME_LEN rest = Err e).
Proof.
  induction input as [input IH] using (induction_ltof1 _ length). unfold ltof in IH.
  destruct (read_frame DEFAULT_MAX_FRAME_LEN input) as [[[f wire]|]|e] eqn:E.
  - destruct (IH wire) as (frames & rest & Hv & -> & Hr); [by eapply read_frame_shorter|].
    apply read_frame_spec in E as [Hf ->]. exists (f :: frames), rest.
    split; [by constructor|]. split; [|done]. by rewrite wire_of_cons, <- app_assoc.
  - apply read_frame_end in E as ->. exists [], []. auto.
  - exists [], input. split; [done|]. split; [done|]. eauto.
Qed.

(** What a loop of [reencode.rs] makes of it. *)
Lemma loop_wire emit frames rest fuel :
  Forall valid_frame frames -> (length (wire_of frames ++ rest) < fuel)%nat ->
  (rest = [] \/ exists e, read_frame DEFAULT_MAX_FRAME_LEN rest = Err e) ->
  reencode_loop emit fuel (wire_of frames ++ rest) =
    Some (outs ← collect emit frames;
          match read_frame DEFAULT_MAX_FRAME_LEN rest with Err e => Err e | Ok _ => Ok (concat outs) end).
Proof.
  intros Hv Hfuel Hrest. revert fuel Hfuel. induction Hv as [|f frames Hf _ IH]; intros [|fuel] Hfuel; try lia.
  - cbn. by destruct Hrest as [->|[e ->]].
  - rewrite wire_of_cons, <- app_assoc in Hfuel |- *. cbn [reencode_loop]. rewrite read_reencoded by done.
    cbn [collect]. destruct (emit f) as [out|e]; [|done].
    rewrite IH by (rewrite length_app in Hfuel; cbn in Hfuel; lia).
    cbn. destruct (collect emit frames) as [outs|e]; [|done]. cbn. by destruct (read_frame _ _).
Qed.

(** C35: reading the wire and writing it again is the identity, and nothing else
    is read. Re-encoding a stream always ends; it succeeds exactly on the inputs
    that are a sequence of well-formed frames - no reserved flag bit, a payload of
    at most 8 MiB that is there in full - and then gives back the same bytes; any
    other input is an error. *)
Theorem stream_roundtrip wire :
  match reencode_frame_stream wire with
  | Some (Ok out) => out = wire /\ exists frames, Forall valid_frame frames /\ wire = wire_of frames
  | Some (Err _) => forall frames, Forall valid_frame frames -> wire <> wire_of frames
  | None => False
  end.
Proof.
  destruct (wire_split wire) as (frames & rest & Hv & -> & Hrest). unfold reencode_frame_stream.
  assert (Hc : forall l, collect (fun f => Ok (E := IoError) (reencode_frame f)) l = Ok (reencode_frame <$> l)).
  { intros l. induction l as [|f l IH]; [done|]. cbn. by rewrite IH. }
  rewrite loop_wire, Hc by (done || unfold fuel_for; lia). cbn.
  destruct Hrest as [->|[e He]].
  - rewrite app_nil_r. cbn. eauto.
  - rewrite He. intros frames' Hv' E.
    pose proof (loop_wire (fun f => Ok (reencode_frame f)) frames rest _ Hv
                  (Nat.lt_succ_diag_r _) (or_intror (ex_intro _ e He))) as H1.
    pose proof (loop_wire (fun f => Ok (reencode_frame f)) frames' [] (S (length (wire_of frames' ++ [])))
                  Hv' (Nat.lt_succ_diag_r _) (or_introl eq_refl)) as H2.
    rewrite E in H1. rewrite app_nil_r in H2. rewrite Hc, He in H1. rewrite Hc in H2. cbn in H1, H2. congruence.
Qed.

Section SessionFacts.
Context `{CursorProst}.

(** What the session answers is what the client can read. The bytes of a
    response, when every encoded chunk fits a frame, are read back frame by frame
    to the translations of the upstream's chunks, ended by the end-of-stream
    frame, and encode to the same bytes again. *)
Theorem response_roundtrip chunks wire :
  build_cursor_response_wire chunks = Ok wire ->
  (forall c b, c ∈ chunks -> chunk_encode (openai_chunk_to_cursor c) = Ok b ->
               Z.of_nat (length b) <= DEFAULT_MAX_FRAME_LEN) ->
  reencode_decoded_stream_as_response wire = Some (Ok wire) /\
  exists payloads, wire = wire_of ((chunk_frame <$> payloads) ++ [eos_frame]) /\
    mapM (fun b => match chunk_decode b with Ok c => Some c | Err _ => None end) payloads
      = Some (openai_chunk_to_cursor <$> chunks).
Proof.
  intros Hb Hfit.
  assert (Hp : exists payloads, wire = wire_of ((chunk_frame <$> payloads) ++ [eos_frame]) /\
    Forall2 (fun b c => chunk_encode (openai_chunk_to_cursor c) = Ok b) payloads chunks).
  { clear Hfit. revert wire Hb. induction chunks as [|c chunks IH]; cbn; intros wire Hb.
    - exists []. split; [|constructor]. injection Hb as <-. done.
    - destruct (chunk_encode _) as [b|e] eqn:Hc; [|done].
      destruct (build_cursor_response_wire chunks) as [rest|e]; [|done]. cbn in Hb. injection Hb as <-.
      destruct (IH rest eq_refl) as (ps & -> & Hps). exists (b :: ps). split; [done|by constructor]. }
  destruct Hp as (payloads & -> & Hps). split.
  2:{ exists payloads. split; [done|]. clear Hfit Hb. induction Hps as [|b c ps cs Hbc _ IH]; [done|].
      cbn. rewrite (chunk_decode_encode _ _ Hbc). cbn. by rewrite IH. }
  unfold reencode_decoded_stream_as_response.
  match goal with |- reencode_loop ?f _ _ = _ => set (emit := f) end.
  set (frames := (chunk_frame <$> payloads) ++ [eos_frame]).
  assert (Hv : Forall valid_frame frames).
  { apply Forall_app. split; [|constructor; [split; done|constructor]]. clear Hb.
    induction Hps as [|b c ps cs Hbc _ IH]; [constructor|]. cbn. constructor.
    - split; [done|]. cbn. apply (Hfit c); [by left|done].
    - apply IH. intros c' b' Hin. apply Hfit. by right. }
  assert (Hem : collect emit frames = Ok (reencode_frame <$> frames)).
  { unfold frames. clear Hfit Hb Hv. induction Hps as [|b c ps cs Hbc _ IH]; [done|].
    cbn [fmap list_fmap app collect].
    assert (Hb1 : emit (chunk_frame b) = Ok (reencode_frame (chunk_frame b))).
    { unfold emit. cbn [fr_payload chunk_frame]. by rewrite (chunk_decode_encode _ _ Hbc), Hbc. }
    rewrite Hb1. cbn. change (list_fmap _ _ chunk_frame ps) with (chunk_frame <$> ps). by rewrite IH. }
  pose proof (loop_wire emit frames [] (fuel_for (wire_of frames)) Hv) as HL.
  rewrite app_nil_r, Hem in HL. apply HL; [apply Nat.lt_succ_diag_r|by left].
Qed.

(** ** Every reservation is settled *)

(** The client's chunk for a chunk of the upstream: its model, the text and finish
    reason of its first choice, and the completion tokens it reports. *)
Definition shows (chunk : OpenAiChatResponseChunk) (c : CursorChatResponseChunk) : Prop :=
  cc_model c = ok_model chunk /\ cc_cumulative_output_tokens c = ou_completion_tokens <$> ok_usage chunk /\
  match ok_choices chunk with
  | ch :: _ => cc_delta c = default "" (od_content (oc_delta ch)) /\ cc_finish_reason c = oc_finish_reason ch
  | [] => cc_delta c = "" /\ cc_finish_reason c = None
  end.

(** The response for the chunks: a frame for each, with flags 0 and its length, and the
    empty frame that ends the stream. *)
Definition answered (chunks : list OpenAiChatResponseChunk) (wire : bytes) : Prop :=
  exists payloads,
    Forall2 (fun chunk b => exists c, shows chunk c /\ chunk_encode c = Ok b) chunks payloads /\
    wire = concat ((fun b => byte 0 :: to_be_bytes (Z.of_nat (length b) mod 2 ^ 32) ++ b) <$> payloads)
           ++ (byte <$> [2; 0; 0; 0; 0]).

(** The bytes of the text that was streamed, in every choice. *)
Definition streamed (chunks : list OpenAiChatResponseChunk) : bytes :=
  chunks ≫= fun c => ok_choices c ≫= fun ch => list_ascii_of_string (default "" (od_content (oc_delta ch))).

(** The first bytes of characters in UTF-8: all but 128 to 191. *)
Definition characters (b : bytes) : Z :=
  Z.of_nat (length (filter (fun c => byte_of c < 128 \/ 192 <= byte_of c) b)).

(** The tokens due for the chunks: the most that one of them reports; when none
    reports any, a token for every four characters of the text, the last begun, within
    32 bits. *)
Definition due (chunks : list OpenAiChatResponseChunk) (n : Z) : Prop :=
  let reported u := exists c, c ∈ chunks /\ ok_usage c = Some u in
  ((exists u, reported u) /\ 0 <= n /\ (forall u, reported u -> ou_completion_tokens u <= n) /\
   (n = 0 \/ exists u, reported u /\ ou_completion_tokens u = n)) \/
  ((forall u, ~ reported u) /\
   exists k, 4 * (k - 1) < characters (streamed chunks) <= 4 * k /\ n = Z.min 4294967295 k).

Lemma shows_chunk chunk : shows chunk (openai_chunk_to_cursor chunk).
Proof using. unfold shows. by destruct chunk as [m [|ch chs] u]. Qed.

Lemma wire_answered chunks wire : build_cursor_response_wire chunks = Ok wire -> answered chunks wire.
Proof.
  revert wire. induction chunks as [|c chunks IH]; cbn; intros wire Hb.
  - injection Hb as <-. exists []. by split; [constructor|].
  - destruct (chunk_encode _) as [b|e] eqn:Hc; [|done].
    destruct (build_cursor_response_wire chunks) as [rest|e]; [|done]. cbn in Hb. injection Hb as <-.
    destruct (IH rest eq_refl) as (ps & Hps & ->). exists (b :: ps). split.
    + constructor; [|done]. exists (openai_chunk_to_cursor c). split; [apply shows_chunk|done].
    + unfold reencode_frame_with_payload. cbn. by rewrite app_assoc.
Qed.

Lemma chars_characters s : chars_count s = characters (list_ascii_of_string s).
Proof using.
  unfold chars_count, characters. do 2 f_equal. apply list_filter_iff. intros c.
  assert (Hb : bool_decide (Z.land (byte_of c) 192 <> 128) = bool_decide (byte_of c < 128 \/ 192 <= byte_of c)).
  { destruct c as [[] [] [] [] [] [] [] []]; reflexivity. }
  by rewrite <- (bool_decide_eq_true (Z.land _ _ <> _)), Hb, bool_decide_eq_true.
Qed.

Lemma characters_app b1 b2 : characters (b1 ++ b2) = characters b1 + characters b2.
Proof using. unfold characters. rewrite filter_app, length_app. lia. Qed.

Lemma streamed_characters chunks : streamed_chars chunks = characters (streamed chunks).
Proof using.
  unfold streamed_chars, streamed. induction chunks as [|c chunks IH]; [done|]. cbn [mbind list_bind].
  rewrite omap_app, fmap_app, foldr_app, IH, characters_app. clear IH.
  generalize (characters (chunks ≫= fun c => ok_choices c ≫= fun ch =>
    list_ascii_of_string (default "" (od_content (oc_delta ch))))). intros n.
  induction (ok_choices c) as [|ch chs IHc]; [done|]. cbn [mbind list_bind omap list_omap].
  rewrite characters_app. destruct (od_content (oc_delta ch)) as [text|]; cbn.
  - rewrite IHc, chars_characters. lia.
  - rewrite IHc. done.
Qed.

Lemma elem_of_usages u (chunks : list OpenAiChatResponseChunk) : u ∈ omap ok_usage chunks <-> exists c, c ∈ chunks /\ ok_usage c = Some u.
Proof using. apply list_elem_of_omap. Qed.

Lemma max_of (l : list Z) :
  0 <= foldr Z.max 0 l /\ (forall x, x ∈ l -> x <= foldr Z.max 0 l) /\ (foldr Z.max 0 l = 0 \/ foldr Z.max 0 l ∈ l).
Proof using.
  induction l as [|x l (H0 & Hle & Hin)]; cbn.
  - split; [done|]. split; [by intros x ?%elem_of_nil|by left].
  - split; [lia|]. split.
    + intros y [->|Hy%Hle]%elem_of_cons; lia.
    + destruct (Z.max_spec x (foldr Z.max 0 l)) as [[_ ->]|[_ ->]]; [|right; by left].
      destruct Hin as [Hin|Hin]; [by left|right; by right].
Qed.

Lemma tokens_due chunks : due chunks (commit_output_tokens chunks).
Proof using.
  unfold due, commit_output_tokens. setoid_rewrite <- elem_of_usages.
  generalize (omap ok_usage chunks). intros [|u0 us].
  - right. split; [by intros u ?%elem_of_nil|]. rewrite streamed_characters.
    exists ((characters (streamed chunks) + 3) / 4). split; [|done].
    pose proof (Z.div_mod (characters (streamed chunks) + 3) 4 ltac:(done)).
    pose proof (Z.mod_pos_bound (characters (streamed chunks) + 3) 4 ltac:(done)). lia.
  - left. destruct (max_of (ou_completion_tokens <$> u0 :: us)) as (H0 & Hle & Hin). split_and!.
    + exists u0. by left.
    + done.
    + intros u Hu. apply Hle. by apply list_elem_of_fmap_2.
    + destruct Hin as [|(u & -> & Hu)%list_elem_of_fmap]; [by left|right]. by exists u.
Qed.

(** How a granted reservation ends, by what the upstream answered [x]: the last call,
    and what the session returns. *)
Inductive ends (rid did : string)
    : result SessionError (list OpenAiChatResponseChunk) -> event sessionE -> result SessionError SessionResult -> Prop :=
  | Ends_upstream e y : ends rid did (Err e) (Ev (Release rid did ProviderError) y) (Err e)
  | Ends_unencodable chunks chunk c m y :
      shows chunk c -> chunk ∈ chunks -> chunk_encode c = Err m ->
      ends rid did (Ok chunks) (Ev (Release rid did RuntimeError) y) (Err (SidecarError ("encode chunk: " +:+ m)))
  | Ends_uncommitted chunks n e :
      due chunks n -> ends rid did (Ok chunks) (Ev (Commit rid did n) (Err e)) (Err e)
  | Ends_committed chunks n res :
      due chunks n -> answered chunks (sr_response_bytes res) -> sr_reservation_id res = Some rid ->
      sr_committed res = Some true ->
      ends rid did (Ok chunks) (Ev (Commit rid did n) (Ok tt)) (Ok res).

Lemma wire_unencodable chunks e :
  build_cursor_response_wire chunks = Err e ->
  exists chunk m, chunk ∈ chunks /\ chunk_encode (openai_chunk_to_cursor chunk) = Err m /\
                  e = SidecarError ("encode chunk: " +:+ m).
Proof.
  induction chunks as [|c chunks IH]; cbn; [done|]. destruct (chunk_encode _) as [b|m] eqn:Hc.
  - destruct (build_cursor_response_wire chunks) as [rest|e']; [done|]. cbn. intros [= <-].
    destruct (IH eq_refl) as (c' & m & Hin & ?). exists c', m. split; [by right|done].
  - intros [= <-]. exists c, m. split; [by left|done].
Qed.

(** C34: a session settles what it reserves, and answers only what it paid for. In
    every execution, whatever the sidecar and the upstream answer, one of two things
    happens. The sidecar grants no reservation, after one call at most; then nothing is
    forwarded, committed or released, and the session fails. Or it grants one, for the
    request that is then forwarded, and one more call is made, which commits or
    releases it: a release when the upstream failed or a chunk cannot be encoded;
    otherwise a commit of the most tokens that a chunk reports or, when none does, of a
    token for every four characters streamed. The upstream's chunks are answered when
    the sidecar took the commit. A commit that failed is the session's failure, without
    a release: then, and when the release fails, the sidecar may hold the reservation
    still. *)
Theorem session_settles b t r :
  exec (session_run b) t r ->
  ((exists e, r = Err e) /\
   (t = [] \/ exists req y, t = [Ev (Reserve req) y] /\ forall rid did, y <> Ok (Continue rid did))) \/
  exists req rid did x last,
    t = [Ev (Reserve req) (Ok (Continue rid did)); Ev (Forward req) x; last] /\ ends rid did x last r.
Proof.
  unfold session_run. destruct (decode_chat_request b) as [req|e].
  2:{ intros [(? & ? & ? & _ & [_ [=]] & _)|(e' & -> & -> & _)]%exec_bind. left. by eauto. }
  intros (x & t1 & -> & Hx). destruct x as [[rid did|did rs|did|did]|e].
  2-5: destruct Hx as [-> ->]; left; split; [by eexists|right]; by eexists _, _.
  destruct Hx as (chunks & t2 & -> & Hx). right. exists (cursor_request_to_openai req), rid, did, chunks.
  destruct chunks as [chunks|e].
  2:{ destruct Hx as (x & t3 & -> & -> & ->). eexists. split; [done|constructor]. }
  cbn in Hx. destruct (build_cursor_response_wire chunks) as [wire|e] eqn:Hw.
  2:{ destruct Hx as (x & t3 & -> & -> & ->). eexists. split; [done|].
      apply wire_unencodable in Hw as (chunk & m & Hin & Hm & ->).
      by eapply Ends_unencodable; [apply shows_chunk|..]. }
  destruct Hx as ([[]|e] & t3 & -> & -> & ->); (eexists; split; [done|]); constructor;
    eauto using tokens_due, wire_answered.
Qed.

End SessionFacts.

(** ** A concrete session *)

Module CursorDemo.

(** A toy encoding: the model, and for a chunk its text, in place of prost's. *)
Definition demo_request (b : bytes) : CursorChatRequest :=
  {| cr_messages := []; cr_model := string_of_list_ascii b; cr_system := None;
     cr_max_tokens := None; cr_temperature := None |}.

Definition plain_request (r : CursorChatRequest) : bool :=
  match r with
  | {| cr_messages := []; cr_system := None; cr_max_tokens := None; cr_temperature := None |} => true
  | _ => false
  end.

Definition demo_chunk (b : bytes) : CursorChatResponseChunk :=
  {| cc_model := "m"; cc_delta := string_of_list_ascii b; cc_finish_reason := None;
     cc_cumulative_output_tokens := None |}.

Definition plain_chunk (c : CursorChatResponseChunk) : bool :=
  match c with
  | {| cc_model := m; cc_finish_reason := None; cc_cumulative_output_tokens := None |} => m =?s "m"
  | _ => false
  end.

#[export] Instance demo_cursor_prost : CursorProst.
Proof.
  refine {| request_decode b := Ok (demo_request b);
            request_encode r := if plain_request r then Ok (list_ascii_of_string (cr_model r))
                                else Err "not supported";
            chunk_decode b := Ok (demo_chunk b);
            chunk_encode c := if plain_chunk c then Ok (list_ascii_of_string (cc_delta c))
                              else Err "not supported" |}.
  - intros [[] m [] [] []] b; cbn; try done. intros [= <-]. unfold demo_request.
    by rewrite string_of_list_ascii_of_string.
  - intros [m delta [] []] b; cbn; try done. destruct (m =?s "m") eqn:E; [|done]. intros [= <-].
    apply String.eqb_eq in E as ->. unfold demo_chunk. by rewrite string_of_list_ascii_of_string.
Defined.

Definition text_chunk (text : string) : OpenAiChatResponseChunk :=
  {| ok_model := "m";
     ok_choices := [{| oc_index := 0; oc_delta := {| od_role := None; od_content := Some text |};
                       oc_finish_reason := None |}];
     ok_usage := None |}.

Definition chunks : list OpenAiChatResponseChunk := [text_chunk "hello"; text_chunk " you"].

Definition demo_wire : bytes :=
  match build_cursor_response_wire chunks with Ok w => w | Err _ => [] end.

Example demo_wire_bytes :
  (byte_of <$> demo_wire) =
    [0; 0; 0; 0; 5; 104; 101; 108; 108; 111; 0; 0; 0; 0; 4; 32; 121; 111; 117; 2; 0; 0; 0; 0].
Proof. reflexivity. Qed.

Example reserved_flag_refused :
  reencode_frame_stream (byte <$> [4; 0; 0; 0; 0]) =
    Some (Err (InvalidData "connect-rpc: invalid flag byte 0x04: reserved bits set")).
Proof. reflexivity. Qed.

Lemma response_roundtrip_witness :
  build_cursor_response_wire chunks = Ok demo_wire /\
  reencode_decoded_stream_as_response demo_wire = Some (Ok demo_wire).
Proof.
  split; [reflexivity|]. apply (response_roundtrip chunks demo_wire); [reflexivity|].
  intros c b Hc. apply list_elem_of_In in Hc as [<-|[<-|[]]]; intros [= <-]; vm_compute; discriminate.
Defined.

Definition answer (X : Type) (e : sessionE X) : X :=
  match e in sessionE X return X with
  | Reserve _ => Ok (Continue "res-1" "dec-1")
  | Forward _ => Ok chunks
  | Commit _ _ _ => Ok tt
  | Release _ _ _ => Ok tt
  end.

Definition demo_session := run answer (session_run (list_ascii_of_string "gpt")).

Example demo_committed : demo_session.1 !! 2%nat = Some (Ev (Commit "res-1" "dec-1" 3) (Ok tt)).
Proof. reflexivity. Qed.

Lemma session_settles_witness :
  exists rid did x last, demo_session.1 !! 2%nat = Some last /\ ends rid did x last demo_session.2.
Proof.
  destruct (session_settles (list_ascii_of_string "gpt") demo_session.1 demo_session.2)
    as [[[e He] _]|(req & rid & did & x & last & Ht & He)]; [apply run_exec|discriminate He|].
  exists rid, did, x, last. split; [by rewrite Ht|exact He].
Defined.

End CursorDemo.
