(* ===== verification/Predict.v ===== *)
(** * The output predictor

    [services/output_predictor/src]: the Predict RPC ([server.rs]) and its three
    strategies - the ceiling A ([strategy_a.rs]), the distribution B with its
    cache and cold-start table ([strategy_b.rs], [cache.rs],
    [cold_start_loader.rs]) and the customer's plugin C ([strategy_c.rs]) behind
    the circuit breaker of [Breakers] - and the choice among them
    ([selector.rs]). A call is a program over effects. The three strategies run
    joined; they share no state, so the model performs B's effects before C's.
    Latencies, counters and log lines are not modelled. *)

From Stdlib Require Import Floats.SpecFloat.
From S2P Require Import Prelude Deps Effects Floats Breakers.

(** ** The selector *)

Inductive Strategy := StrategyA | StrategyB | StrategyC.

#[export] Instance Strategy_eq_dec : EqDecision Strategy.
Proof. solve_decision. Defined.

Definition strategy_str (s : Strategy) : string :=
  match s with StrategyA => "A" | StrategyB => "B" | StrategyC => "C" end.

Definition prefer_c_then_b_then_a (c b : option Z) : Strategy :=
  match c, b with
  | Some _, _ => StrategyC
  | None, Some _ => StrategyB
  | None, None => StrategyA
  end.

(** The strategies to reserve and to report. *)
Definition select_strategy (policy : string) (a : Z) (b c : option Z) : Strategy * Strategy :=
  let prefer := prefer_c_then_b_then_a c b in
  if policy =?s "STRICT_CEILING" then (StrategyA, prefer)
  else if policy =?s "EMPIRICAL_RUN_CEILING" then (StrategyA, prefer)
  else if policy =?s "ADAPTIVE_CEILING" then (prefer, prefer)
  else if policy =?s "SHADOW_ONLY" then (StrategyA, StrategyA)
  else (StrategyA, StrategyA).

Definition is_known_policy (policy : string) : bool :=
  (policy =?s "STRICT_CEILING") || (policy =?s "EMPIRICAL_RUN_CEILING")
  || (policy =?s "ADAPTIVE_CEILING") || (policy =?s "SHADOW_ONLY").

(** ** Strategy A *)

Definition compute_a (max_tokens_requested model_context_window input_tokens : Z) : Z :=
  let headroom := i64_sat (model_context_window - input_tokens) in
  let candidate := if 0 <? max_tokens_requested then Z.min max_tokens_requested headroom else headroom in
  if candidate <=? 0 then 1 else candidate.

(** ** The prompt classes *)

Definition classes_all : list string :=
  ["vision"; "tool_calling"; "summarization"; "code_gen"; "rag"; "chat_long"; "chat_short"].

Definition is_known_class (class : string) : bool := existsb (fun c => c =?s class) classes_all.

Record ClassifierFeatures := {
  cf_has_image_content : bool;
  cf_tool_definitions_count : Z;
  cf_input_tokens : Z;
  cf_max_tokens : Z;
  cf_message_count : Z;
  cf_joined_content : string;
}.

(** The regular expressions of the classifier. *)
Class Markers := {
  contains_code_markers : string -> bool;
  contains_retrieval_markers : string -> bool;
}.

Definition classify_from_features `{Markers} (f : ClassifierFeatures) : string :=
  if cf_has_image_content f then "vision"
  else if 0 <? cf_tool_definitions_count f then "tool_calling"
  else if (8000 <? cf_input_tokens f) && (0 <? cf_max_tokens f) && (cf_max_tokens f <? 1000)
  then "summarization"
  else if contains_code_markers (cf_joined_content f) then "code_gen"
  else if contains_retrieval_markers (cf_joined_content f) then "rag"
  else if (1500 <? cf_input_tokens f) || (4 <? cf_message_count f) then "chat_long"
  else "chat_short".

(** ** The cold-start table *)

Record BaselineEntry := {
  be_p50 : Z;
  be_p95 : Z;
  be_p99 : Z;
  be_sample_size : Z;
  be_confidence : spec_float;
  be_source : string;
}.

Record ModelDefaultDistribution := {
  mdd_entries : gmap (string * string) BaselineEntry;
  mdd_schema_version : string;
  mdd_last_updated : string;
}.

Record TomlEntry := {
  te_model : string;
  te_prompt_class : string;
  te_p50 : Z;
  te_p95 : Z;
  te_p99 : Z;
  te_sample_size : Z;
  te_source : string;
  te_confidence : spec_float;
}.

Record TomlFile := {
  tf_schema_version : string;
  tf_last_updated : string;
  tf_entries : list TomlEntry;
}.

Inductive LoadError :=
  | AssetSignatureMismatch (expected computed : string)
  | LayerBFixtureMismatch (actual : option (Z * Z * Z))
  | SchemaVersionMismatch (expected got : string)
  | ParseError (m : string)
  | DuplicateEntry (model class : string)
  | ConfidenceOutOfRange (model class : string)
  | PercentileOrderViolation (model class : string) (p50 p95 p99 : Z)
  | SampleSizeBelowFloor (model class : string) (sample_size floor : Z)
  | NonPositivePercentile (model class : string) (p50 p95 p99 : Z)
  | UnknownPromptClass (model class : string).

Definition MIN_SAMPLE_SIZE_HARD : Z := 30.

(** [(0.0..=1.0).contains]: false on NaN. *)
Definition unit_interval (x : spec_float) : bool := f_ge x (f32_of_Z 0) && f_ge (f32_of_Z 1) x.

Definition check_entry (e : TomlEntry) : result LoadError unit :=
  let m := te_model e in
  let c := te_prompt_class e in
  require (is_known_class c) else (UnknownPromptClass m c);
  require (unit_interval (te_confidence e)) else (ConfidenceOutOfRange m c);
  require ((te_p50 e <=? te_p95 e) && (te_p95 e <=? te_p99 e))
    else (PercentileOrderViolation m c (te_p50 e) (te_p95 e) (te_p99 e));
  require (negb ((te_p50 e <=? 0) || (te_p95 e <=? 0) || (te_p99 e <=? 0)))
    else (NonPositivePercentile m c (te_p50 e) (te_p95 e) (te_p99 e));
  require (MIN_SAMPLE_SIZE_HARD <=? te_sample_size e)
    else (SampleSizeBelowFloor m c (te_sample_size e) MIN_SAMPLE_SIZE_HARD);
  mret tt.

Definition baseline_of (e : TomlEntry) : BaselineEntry :=
  {| be_p50 := te_p50 e; be_p95 := te_p95 e; be_p99 := te_p99 e; be_sample_size := te_sample_size e;
     be_confidence := te_confidence e; be_source := te_source e |}.

Fixpoint load_entries (es : list TomlEntry) (m : gmap (string * string) BaselineEntry)
    : result LoadError (gmap (string * string) BaselineEntry) :=
  match es with
  | [] => Ok m
  | e :: es =>
      _ ← check_entry e;
      match m !! (te_model e, te_prompt_class e) with
      | Some _ => Err (DuplicateEntry (te_model e) (te_prompt_class e))
      | None => load_entries es (<[(te_model e, te_prompt_class e) := baseline_of e]> m)
      end
  end.

(** [load_embedded] on the asset's bytes; [parse] is serde's TOML reader. *)
Definition load_embedded `{CryptoLib} (parse : string -> result string TomlFile)
    (expected_sha asset : string) : result LoadError ModelDefaultDistribution :=
  require (hex_encode (sha256 asset) =?s expected_sha)
    else (AssetSignatureMismatch expected_sha (hex_encode (sha256 asset)));
  parsed ← match parse asset with Ok f => Ok f | Err e => Err (ParseError e) end;
  require (tf_schema_version parsed =?s "v1alpha1")
    else (SchemaVersionMismatch "v1alpha1" (tf_schema_version parsed));
  entries ← load_entries (tf_entries parsed) ∅;
  match entries !! ("gpt-4o", "chat_short") with
  | Some e =>
      if (be_p50 e =? 150) && (be_p95 e =? 320) && (be_p99 e =? 520) then
        Ok {| mdd_entries := entries; mdd_schema_version := tf_schema_version parsed;
              mdd_last_updated := tf_last_updated parsed |}
      else Err (LayerBFixtureMismatch (Some (be_p50 e, be_p95 e, be_p99 e)))
  | None => Err (LayerBFixtureMismatch None)
  end.

Definition cold_start_lookup (d : ModelDefaultDistribution) (model class : string) : option BaselineEntry :=
  mdd_entries d !! (model, class).

Section Predict.
Context `{UuidLib, CryptoLib}.

(** ** Strategy B *)

Record CacheRow := {
  row_p95_30d : spec_float;
  row_sample_size_30d : Z;
}.

Record BucketKey := {
  bk_tenant_id : uuid;
  bk_model : string;
  bk_agent_id : string;
  bk_prompt_class : string;
}.

#[export] Instance BucketKey_eq_dec : EqDecision BucketKey.
Proof. solve_decision. Defined.

Record CacheEntry := {
  ce_value : option CacheRow;
  ce_expires_at : Z;
}.

Definition MAX_IN_MEMORY_ENTRIES : nat := Z.to_nat 100000.

Section DistributionCache.
Context `{LruLib}.

Definition DistCache : Type := lru BucketKey CacheEntry.

Definition dist_cache_new : DistCache := lru_new MAX_IN_MEMORY_ENTRIES.

(** The first section of [lookup]: the value of a fresh entry. *)
Definition dist_cache_get (now : Z) (k : BucketKey) (c : DistCache)
    : option (option CacheRow) * DistCache :=
  let '(e, c) := lru_get k c in
  match e with
  | Some e => if now <? ce_expires_at e then (Some (ce_value e), c) else (None, c)
  | None => (None, c)
  end.

Definition dist_cache_put (now ttl : Z) (k : BucketKey) (v : option CacheRow) (c : DistCache) : DistCache :=
  lru_put k {| ce_value := v; ce_expires_at := now + ttl |} c.

End DistributionCache.

Record PredictionB := {
  pb_value : Z;
  pb_confidence : spec_float;
  pb_sample_size : Z;
  pb_layer : option string;
}.

(** [f32::round() as i64]: to the nearest integer, halves away from zero. *)
Definition f_round (x : spec_float) : Z :=
  match x with
  | S754_finite s m e =>
      let a := if 0 <=? e then Zpos m * 2 ^ e
               else (Zpos m + 2 ^ (- e - 1)) / 2 ^ (- e) in
      clamp i64_min i64_max (if s then - a else a)
  | _ => f_to_i64 x
  end.

Definition f_clamp_unit (x : spec_float) : spec_float :=
  if SFltb x (f32_of_Z 0) then f32_of_Z 0 else if SFltb (f32_of_Z 1) x then f32_of_Z 1 else x.

Definition derive_l4_confidence (sample_size_30d : Z) : spec_float :=
  let raw := f32_div (f32_of_Z sample_size_30d) (f32_of_Z 200) in
  if f_gt raw (f32_of_Z 1) then f32_of_Z 1
  else if SFltb raw (f32_of_Z 0) then f32_of_Z 0 else raw.

Definition derive_l2_confidence (entry_confidence : spec_float) (sample_size : Z) : spec_float :=
  let weight := f_clamp_unit (f32_div (f32_of_Z sample_size) (f32_of_Z 1000)) in
  f_clamp_unit (f32_mul entry_confidence weight).

Definition promote_l4 (row : CacheRow) : PredictionB :=
  let value_f := f_max (row_p95_30d row) (f32_of_Z 1) in
  {| pb_value := if f_gt value_f (f32_of_Z i64_max) then i64_max else f_round value_f;
     pb_confidence := derive_l4_confidence (row_sample_size_30d row);
     pb_sample_size := row_sample_size_30d row; pb_layer := Some "L4" |}.

Definition promote_l2 (e : BaselineEntry) : PredictionB :=
  {| pb_value := Z.max (be_p95 e) 1;
     pb_confidence := derive_l2_confidence (be_confidence e) (be_sample_size e);
     pb_sample_size := be_sample_size e; pb_layer := Some "L2" |}.

(** ** Strategy C *)

Record PluginEndpoint := {
  pe_plugin_endpoint_id : uuid;
  pe_tenant_id : uuid;
  pe_endpoint_url : string;
  pe_server_cert_fingerprint : string;
  pe_client_cert_id : string;
  pe_enabled : bool;
}.

#[export] Instance PluginEndpoint_eq_dec : EqDecision PluginEndpoint.
Proof. solve_decision. Defined.

Inductive EndpointCacheError :=
  | EcNotConfigured (t : uuid)
  | EcTenantBindingViolation (requested got : uuid)
  | EcSql (m : string).

Record PluginPredictRequest := {
  pq_spendguard_call_id : string;
  pq_tenant_id : string;
  pq_model : string;
  pq_agent_id : string;
  pq_prompt_class : string;
  pq_input_tokens : Z;
  pq_max_tokens_requested : Z;
  pq_classifier_version : string;
  pq_prompt_class_fingerprint : string;
}.

Record PluginPredictResponse := {
  pp_predicted_output_tokens : Z;
  pp_confidence : spec_float;
  pp_sample_size : Z;
  pp_plugin_version : string;
  pp_feature_hash : string;
}.

(** [tonic::Code] by its number. *)
Record GStatus := { gs_code : Z; gs_message : string }.

Definition CODE_INVALID_ARGUMENT : Z := 3.
Definition CODE_DEADLINE_EXCEEDED : Z := 4.
Definition CODE_PERMISSION_DENIED : Z := 7.
Definition CODE_RESOURCE_EXHAUSTED : Z := 8.
Definition CODE_FAILED_PRECONDITION : Z := 9.
Definition CODE_UNAVAILABLE : Z := 14.
Definition CODE_DATA_LOSS : Z := 15.
Definition CODE_UNAUTHENTICATED : Z := 16.

Inductive StrategyCFailure :=
  | CTimeout
  | CGrpcError (code : Z)
  | CInvalidZeroOrNegative
  | CInvalidOverflow
  | CInvalidConfidence
  | CDeserializationError
  | CTlsError
  | CNotServing
  | CNotConfigured
  | CBreakerOpen.

Definition classify_status (s : GStatus) : StrategyCFailure :=
  let msg := gs_message s in
  let msg_lc := to_lower msg in
  let code := gs_code s in
  if str_contains "plugin connect failed" msg_lc || str_contains "tls handshake" msg_lc
     || str_contains "tls" msg_lc || str_contains "certificate" msg_lc
     || str_contains "fingerprint" msg_lc
     || ((code =? CODE_PERMISSION_DENIED)
         && (str_contains "svid" msg_lc || str_contains "uri san" msg_lc
             || str_contains "client cert" msg_lc))
  then CTlsError
  else if str_contains "decode" msg || str_contains "DecodeError" msg
          || str_contains "invalid wire" msg || str_contains "InvalidProtobuf" msg
  then CDeserializationError
  else if code =? CODE_DEADLINE_EXCEEDED then CTimeout
  else if (code =? CODE_UNAVAILABLE) && str_contains "not_serving" msg then CNotServing
  else if code =? CODE_UNAUTHENTICATED then CTlsError
  else if code =? CODE_DATA_LOSS then CDeserializationError
  else CGrpcError code.

Record PredictionC := {
  pc_predicted_output_tokens : Z;
  pc_confidence : spec_float;
  pc_sample_size : Z;
  pc_plugin_version : string;
  pc_feature_hash : string;
}.

Inductive StrategyCError := TenantBindingViolation (requested got : uuid).

Inductive StrategyCOutcome :=
  | COk (p : PredictionC)
  | FallToB (f : StrategyCFailure).

Record StrategyCInput := {
  si_tenant_id : uuid;
  si_model : string;
  si_agent_id : string;
  si_prompt_class : string;
  si_input_tokens : Z;
  si_max_tokens_requested : Z;
  si_model_context_window : Z;
  si_decision_id : string;
  si_classifier_version : string;
  si_prompt_class_fingerprint : string;
}.

(** ** The effects of a call *)

(** [PluginPredict] answers [None] when the hard cap elapses. *)
Inductive predictE : Type -> Type :=
  | RateCheck (t : uuid) : predictE bool
  | CacheGet (k : BucketKey) : predictE (option (option CacheRow))
  | SqlLookup (k : BucketKey) : predictE (result string (option CacheRow))
  | CachePut (k : BucketKey) (v : option CacheRow) : predictE unit
  | EndpointLookup (t : uuid) : predictE (result EndpointCacheError PluginEndpoint)
  | PermitRequest (t : uuid) : predictE Permit
  | StateOf (t : uuid) : predictE BreakerStateName
  | PluginPredict (t : uuid) (e : PluginEndpoint) (q : PluginPredictRequest)
      : predictE (option (result GStatus PluginPredictResponse))
  | RecordFailure (t : uuid) : predictE unit
  | RecordSuccess (t : uuid) : predictE unit.

Definition P (A : Type) : Type := M predictE GStatus A.
Definition actP {A} (e : predictE A) : P A := act e.
Definition failP {A} (code : Z) (m : string) : P A := fail {| gs_code := code; gs_message := m |}.
Definition retP {A} (a : A) : P A := mret a.

(** [OutputDistributionCache::lookup]; [has_pool]: a database is configured. *)
Definition dist_lookup (has_pool : bool) (key : BucketKey) : P (option CacheRow) :=
  cached ← actP (CacheGet key);
  match cached with
  | Some value => retP value
  | None =>
      sql_outcome ← (if has_pool then actP (SqlLookup key) else retP (Ok None));
      match sql_outcome with
      | Ok value => _ ← actP (CachePut key value); retP value
      | Err _ => retP None
      end
  end.

Definition compute_b (has_pool : bool) (cold_start : option ModelDefaultDistribution)
    (tenant_id : uuid) (model agent_id prompt_class : string) : P (option PredictionB) :=
  row ← dist_lookup has_pool {| bk_tenant_id := tenant_id; bk_model := model; bk_agent_id := agent_id;
                                bk_prompt_class := prompt_class |};
  retP (match row with
        | Some row => Some (promote_l4 row)
        | None => table ← cold_start;
                  entry ← cold_start_lookup table model prompt_class;
                  Some (promote_l2 entry)
        end).

Definition plugin_request (input : StrategyCInput) (probe : bool) : PluginPredictRequest :=
  {| pq_spendguard_call_id := if probe then "probe-" +:+ si_decision_id input else si_decision_id input;
     pq_tenant_id := uuid_str (si_tenant_id input); pq_model := si_model input;
     pq_agent_id := si_agent_id input; pq_prompt_class := si_prompt_class input;
     pq_input_tokens := si_input_tokens input;
     pq_max_tokens_requested := si_max_tokens_requested input;
     pq_classifier_version := si_classifier_version input;
     pq_prompt_class_fingerprint := si_prompt_class_fingerprint input |}.

(** A failed call is recorded and the call falls to B. *)
Definition fall_to_b (t : uuid) (f : StrategyCFailure) : P (result StrategyCError StrategyCOutcome) :=
  _ ← actP (RecordFailure t); retP (Ok (FallToB f)).

Definition compute_c (input : StrategyCInput) : P (result StrategyCError StrategyCOutcome) :=
  let t := si_tenant_id input in
  found ← actP (EndpointLookup t);
  match found with
  | Err (EcNotConfigured _) => retP (Ok (FallToB CNotConfigured))
  | Err (EcTenantBindingViolation requested got) => retP (Err (TenantBindingViolation requested got))
  | Err (EcSql _) => retP (Ok (FallToB (CGrpcError CODE_UNAVAILABLE)))
  | Ok endpoint =>
      if decide (pe_tenant_id endpoint = t) then
        permit ← actP (PermitRequest t);
        match permit with
        | SkipOpen => retP (Ok (FallToB CBreakerOpen))
        | Allow =>
            state ← actP (StateOf t);
            let probe := bool_decide (state = HalfOpen) in
            outcome ← actP (PluginPredict t endpoint (plugin_request input probe));
            match outcome with
            | None => fall_to_b t CTimeout
            | Some (Err status) => fall_to_b t (classify_status status)
            | Some (Ok resp) =>
                if pp_predicted_output_tokens resp <=? 0 then fall_to_b t CInvalidZeroOrNegative
                else if si_model_context_window input <? pp_predicted_output_tokens resp
                then fall_to_b t CInvalidOverflow
                else if negb (unit_interval (pp_confidence resp)) || f_is_nan (pp_confidence resp)
                then fall_to_b t CInvalidConfidence
                else
                  _ ← actP (RecordSuccess t);
                  retP (Ok (COk {| pc_predicted_output_tokens := pp_predicted_output_tokens resp;
                                   pc_confidence := pp_confidence resp;
                                   pc_sample_size := pp_sample_size resp;
                                   pc_plugin_version := pp_plugin_version resp;
                                   pc_feature_hash := pp_feature_hash resp |}))
            end
        end
      else retP (Err (TenantBindingViolation t (pe_tenant_id endpoint)))
  end.

(** ** The Predict RPC *)

Record PredictRequest := {
  rq_tenant_id : string;
  rq_model : string;
  rq_agent_id : string;
  rq_prompt_class : string;
  rq_input_tokens : Z;
  rq_max_tokens_requested : Z;
  rq_model_context_window : Z;
  rq_prediction_policy : string;
  rq_decision_id : string;
  rq_run_id : string;
  rq_prompt_class_fingerprint : string;
}.

Record PredictResponse := {
  rp_predicted_a_tokens : Z;
  rp_predicted_b_tokens : option Z;
  rp_predicted_c_tokens : option Z;
  rp_reserved_strategy : string;
  rp_prediction_strategy_used : string;
  rp_confidence : option spec_float;
  rp_sample_size : option Z;
  rp_cold_start_layer_used : option string;
  rp_classifier_version : string;
  rp_fingerprint_version : string;
  rp_prompt_class_fingerprint_used : string;
  rp_prediction_policy_used : string;
}.

(** What the service holds that does not change. *)
Record PredictorSvc := {
  sv_has_pool : bool;
  sv_context_window : gmap string Z;
  sv_unknown_model_context_window : Z;
  sv_cold_start : option ModelDefaultDistribution;
}.

Definition MAX_AGENT_ID_LEN : Z := 128.
Definition MAX_MODEL_LEN : Z := 64.
Definition MAX_PROMPT_CLASS_LEN : Z := 32.
Definition MAX_DECISION_ID_LEN : Z := 128.
Definition MAX_PROMPT_CLASS_FINGERPRINT_LEN : Z := 128.
Definition CLASSIFIER_VERSION : string := "v1alpha1".
Definition FINGERPRINT_VERSION : string := "v1".

Definition compute_fingerprint_with_count (model prompt_class : string) (message_count : Z) : string :=
  let canonical := FINGERPRINT_VERSION +:+ ":" +:+ prompt_class +:+ "|" +:+ model +:+ "|" +:+ z_str message_count in
  FINGERPRINT_VERSION +:+ ":" +:+ hex_encode (sha256 canonical).

Definition compute_fingerprint (model prompt_class : string) : string :=
  compute_fingerprint_with_count model prompt_class 0.

Definition require_len (name s : string) (max_name : string) (max : Z) : P unit :=
  if max <? slen s then
    failP CODE_INVALID_ARGUMENT (name +:+ " length " +:+ z_str (slen s) +:+ " exceeds " +:+ max_name
                                 +:+ "=" +:+ z_str max)
  else retP tt.

(** The checks after the rate limiter. *)
Definition validate_request (req : PredictRequest) : P unit :=
  _ ← require_len "agent_id" (rq_agent_id req) "MAX_AGENT_ID_LEN" MAX_AGENT_ID_LEN;
  _ ← require_len "model" (rq_model req) "MAX_MODEL_LEN" MAX_MODEL_LEN;
  _ ← require_len "prompt_class" (rq_prompt_class req) "MAX_PROMPT_CLASS_LEN" MAX_PROMPT_CLASS_LEN;
  _ ← require_len "decision_id" (rq_decision_id req) "MAX_DECISION_ID_LEN" MAX_DECISION_ID_LEN;
  _ ← require_len "prompt_class_fingerprint" (rq_prompt_class_fingerprint req)
        "MAX_PROMPT_CLASS_FINGERPRINT_LEN" MAX_PROMPT_CLASS_FINGERPRINT_LEN;
  if negb (is_empty (rq_prompt_class req)) && negb (is_known_class (rq_prompt_class req)) then
    failP CODE_INVALID_ARGUMENT ("unknown prompt_class `" +:+ rq_prompt_class req
      +:+ "`; expected one of: " +:+ String.concat " | " classes_all)
  else if negb (is_known_policy (rq_prediction_policy req)) then
    failP CODE_INVALID_ARGUMENT ("unknown prediction_policy `" +:+ rq_prediction_policy req
      +:+ "`; expected one of: STRICT_CEILING | EMPIRICAL_RUN_CEILING | ADAPTIVE_CEILING | SHADOW_ONLY")
  else retP tt.

Definition context_window_of (svc : PredictorSvc) (req : PredictRequest) : Z :=
  if 0 <? rq_model_context_window req then rq_model_context_window req
  else default (sv_unknown_model_context_window svc) (sv_context_window svc !! rq_model req).

Definition strategy_c_input (svc : PredictorSvc) (req : PredictRequest) (tenant : uuid) : StrategyCInput :=
  {| si_tenant_id := tenant; si_model := rq_model req; si_agent_id := rq_agent_id req;
     si_prompt_class := rq_prompt_class req; si_input_tokens := rq_input_tokens req;
     si_max_tokens_requested := rq_max_tokens_requested req;
     si_model_context_window := context_window_of svc req; si_decision_id := rq_decision_id req;
     si_classifier_version := CLASSIFIER_VERSION;
     si_prompt_class_fingerprint := rq_prompt_class_fingerprint req |}.

(** The response, from the three predictions. *)
Definition predict_response (req : PredictRequest) (a : Z) (b : option PredictionB) (c : option PredictionC)
    : PredictResponse :=
  let '(reserved, prediction_used) :=
    select_strategy (rq_prediction_policy req) a (pb_value <$> b) (pc_predicted_output_tokens <$> c) in
  let b_layer := match b with Some p => pb_layer p | None => Some "L1" end in
  {| rp_predicted_a_tokens := a; rp_predicted_b_tokens := pb_value <$> b;
     rp_predicted_c_tokens := pc_predicted_output_tokens <$> c;
     rp_reserved_strategy := strategy_str reserved;
     rp_prediction_strategy_used := strategy_str prediction_used;
     rp_confidence := match prediction_used with
                      | StrategyA => None
                      | StrategyB => pb_confidence <$> b
                      | StrategyC => pc_confidence <$> c
                      end;
     rp_sample_size := match prediction_used with
                       | StrategyA => None
                       | StrategyB => pb_sample_size <$> b
                       | StrategyC => pc_sample_size <$> c
                       end;
     rp_cold_start_layer_used := match b_layer with
                                 | Some layer => if layer =?s "L4" then None else Some layer
                                 | None => Some "L1"
                                 end;
     rp_classifier_version := CLASSIFIER_VERSION; rp_fingerprint_version := FINGERPRINT_VERSION;
     rp_prompt_class_fingerprint_used :=
       if is_empty (rq_prompt_class_fingerprint req)
       then compute_fingerprint (rq_model req) (rq_prompt_class req)
       else rq_prompt_class_fingerprint req;
     rp_prediction_policy_used := rq_prediction_policy req |}.

(** The part after the checks. *)
Definition predict_checked (svc : PredictorSvc) (req : PredictRequest) (tenant : uuid) : P PredictResponse :=
  let a := compute_a (rq_max_tokens_requested req) (context_window_of svc req) (rq_input_tokens req) in
  b ← compute_b (sv_has_pool svc) (sv_cold_start svc) tenant (rq_model req) (rq_agent_id req)
        (rq_prompt_class req);
  c_result ← compute_c (strategy_c_input svc req tenant);
  match c_result with
  | Ok (COk p) => retP (predict_response req a b (Some p))
  | Ok (FallToB _) => retP (predict_response req a b None)
  | Err (TenantBindingViolation requested got) =>
      failP CODE_FAILED_PRECONDITION ("tenant binding violation: tenant " +:+ uuid_str requested
        +:+ " cannot use plugin registered for " +:+ uuid_str got)
  end.

Definition predict (parse_error : string) (svc : PredictorSvc) (req : PredictRequest) : P PredictResponse :=
  match uuid_parse (rq_tenant_id req) with
  | None => failP CODE_INVALID_ARGUMENT ("invalid tenant_id `" +:+ rq_tenant_id req +:+ "`: " +:+ parse_error)
  | Some tenant =>
      allowed ← actP (RateCheck tenant);
      if (allowed : bool) then
        _ ← validate_request req;
        predict_checked svc req tenant
      else failP CODE_RESOURCE_EXHAUSTED "Predict RPC rate limit exceeded for tenant"
  end.

(** ** The predictions *)

Lemma compute_a_bounds m w i :
  1 <= compute_a m w i /\ (0 < m -> compute_a m w i <= m) /\
  compute_a m w i <= Z.max 1 (i64_sat (w - i)).
Proof.
  unfold compute_a. destruct (0 <? m) eqn:Hm; destruct (_ <=? 0) eqn:Hc; b2p; lia.
Qed.

Lemma digits2_pos_bounds p : 2 ^ (Zpos (digits2_pos p) - 1) <= Zpos p < 2 ^ Zpos (digits2_pos p).
Proof.
  induction p as [p IH|p IH|]; cbn [digits2_pos]; [..|lia].
  all: rewrite Pos2Z.inj_succ, Z.pow_succ_r by lia;
    replace (Z.succ (Zpos (digits2_pos p)) - 1) with (Z.succ (Zpos (digits2_pos p) - 1)) by lia;
    rewrite Z.pow_succ_r by lia; lia.
Qed.

(** A float of [f32] that is not below one rounds to at least one. *)
Lemma not_below m n :
  match PosDef.Pos.compare_cont Eq m n with Lt => true | _ => false end = false -> (m ?= n)%positive <> Lt.
Proof. unfold Pos.compare. by destruct (PosDef.Pos.compare_cont Eq m n). Qed.

Lemma f_round_ge_one x :
  valid_binary f32_prec f32_emax x = true -> SFltb x (f32_of_Z 1) = false -> f_is_nan x = false ->
  1 <= f_round x.
Proof.
  change (f32_of_Z 1) with (S754_finite false 8388608 (-23)).
  destruct x as [s|s| |s m e]; intros Hv Hlt Hn.
  - by destruct s.
  - destruct s; [done|]. cbn [f_round f_to_i64 f_to_int]. widths. lia.
  - done.
  - destruct s; [done|]. unfold SFltb, SFcompare in Hlt. cbn [f_round].
    assert (Hone : 1 <= (if 0 <=? e then Zpos m * 2 ^ e else (Zpos m + 2 ^ (- e - 1)) / 2 ^ (- e)));
      [|unfold clamp; width_lia].
    unfold valid_binary, bounded, canonical_mantissa in Hv. apply andb_true_iff in Hv as [Hc _].
    apply Z.eqb_eq in Hc. unfold fexp, SpecFloat.emin in Hc. unfold f32_prec, f32_emax in Hc.
    pose proof (digits2_pos_bounds m) as Hd. set (k := digits2_pos m) in *.
    assert (Hcmp : e = -23 -> (m ?= 8388608)%positive <> Lt).
    { intros ->. rewrite Z.compare_refl in Hlt. by apply not_below. }
    destruct (Z.compare_spec e (-23)) as [He|He|He]; [|done|].
    + subst e. apply Z.div_le_lower_bound; [done|]. change (2 ^ (- -23)) with 8388608.
      change (2 ^ (- -23 - 1)) with 4194304. destruct (Pos.compare_spec m 8388608) as [|Hm|]; [lia| |lia].
      by destruct Hcmp.
    + assert (Hk : Zpos k = 24) by lia. rewrite Hk in Hd. change (2 ^ (24 - 1)) with 8388608 in Hd.
      destruct (Z.leb_spec 0 e) as [Hp|Hp].
      * pose proof (Z.pow_pos_nonneg 2 e ltac:(lia) Hp). nia.
      * pose proof (Z.pow_pos_nonneg 2 (- e) ltac:(lia) ltac:(lia)).
        pose proof (Z.pow_nonneg 2 (- e - 1) ltac:(lia)).
        pose proof (Z.pow_le_mono_r 2 (- e) 22 ltac:(lia) ltac:(lia)). change (2 ^ 22) with 4194304 in *.
        apply Z.div_le_lower_bound; lia.
Qed.

Lemma promote_l4_positive row :
  valid_binary f32_prec f32_emax (row_p95_30d row) = true -> 1 <= pb_value (promote_l4 row).
Proof.
  intros Hv. cbn [promote_l4 pb_value]. destruct (f_gt _ _); [done|].
  unfold f_max. destruct (f_is_nan (row_p95_30d row)) eqn:Hn; [by apply f_round_ge_one|].
  change (f_is_nan (f32_of_Z 1)) with false. cbn [f_is_nan].
  destruct (SFltb (row_p95_30d row) (f32_of_Z 1)) eqn:Hlt; by apply f_round_ge_one.
Qed.

Lemma promote_l2_positive e : 1 <= pb_value (promote_l2 e).
Proof. cbn [promote_l2 pb_value]. lia. Qed.

(** ** What a call does to the breaker *)

Inductive breaker_act :=
  | BPermit (t : uuid) (p : Permit)
  | BCall (t : uuid) (e : PluginEndpoint)
  | BSuccess (t : uuid)
  | BFailure (t : uuid).

Definition breaker_ev (ev : event predictE) : option breaker_act :=
  match ev with
  | Ev e x =>
      match e in predictE X return X -> option breaker_act with
      | PermitRequest t => fun p => Some (BPermit t p)
      | PluginPredict t e _ => fun _ => Some (BCall t e)
      | RecordSuccess t => fun _ => Some (BSuccess t)
      | RecordFailure t => fun _ => Some (BFailure t)
      | _ => fun _ => None
      end x
  end.

Definition breaker_trace (t : list (event predictE)) : list breaker_act := omap breaker_ev t.

(** A usable answer of a plugin. *)
Definition usable (window : Z) (p : PredictionC) : Prop :=
  0 < pc_predicted_output_tokens p <= window /\ unit_interval (pc_confidence p) = true.

(** The four ways strategy C goes, by what it did to the breaker of [tn]. *)
Inductive c_outcome (tn : uuid) (window : Z)
    : list breaker_act -> result StrategyCError StrategyCOutcome -> Prop :=
  | c_no_call c : (forall p, c <> Ok (COk p)) -> c_outcome tn window [] c
  | c_skipped : c_outcome tn window [BPermit tn SkipOpen] (Ok (FallToB CBreakerOpen))
  | c_failed e f : pe_tenant_id e = tn ->
      c_outcome tn window [BPermit tn Allow; BCall tn e; BFailure tn] (Ok (FallToB f))
  | c_succeeded e p : pe_tenant_id e = tn -> usable window p ->
      c_outcome tn window [BPermit tn Allow; BCall tn e; BSuccess tn] (Ok (COk p)).

Lemma compute_c_outcome input t r :
  exec (compute_c input) t r ->
  exists c, r = Ok c /\ c_outcome (si_tenant_id input) (si_model_context_window input) (breaker_trace t) c.
Proof.
  intros (found & t1 & -> & Hx). destruct found as [ep|[tn|a b|m]].
  2-4: destruct Hx as [-> ->]; eexists; split; [done|]; by constructor.
  cbn in Hx. case_decide as Ht.
  2:{ destruct Hx as [-> ->]. eexists. split; [done|]. by constructor. }
  destruct Hx as (permit & t2 & -> & Hx). destruct permit; [|destruct Hx as [-> ->]; eexists; split; [done|constructor]].
  destruct Hx as (st & t3 & -> & outcome & t4 & -> & Hx).
  destruct outcome as [[resp|status]|].
  2-3: destruct Hx as ([] & t5 & -> & -> & ->); eexists; split; [done|by constructor].
  destruct (_ <=? 0) eqn:Hpos; [destruct Hx as ([] & t5 & -> & -> & ->); eexists; split; [done|by constructor]|].
  destruct (_ <? _) eqn:Hwin; [destruct Hx as ([] & t5 & -> & -> & ->); eexists; split; [done|by constructor]|].
  destruct (_ || _) eqn:Hconf; [destruct Hx as ([] & t5 & -> & -> & ->); eexists; split; [done|by constructor]|].
  destruct Hx as ([] & t5 & -> & -> & ->). eexists. split; [done|]. cbn. constructor; [done|].
  apply orb_false_iff in Hconf as [Hc _]. b2p. by split.
Qed.

(** The rows that the cache and the database answered. *)
Definition row_of (ev : event predictE) : option CacheRow :=
  match ev with
  | Ev e x =>
      match e in predictE X return X -> option CacheRow with
      | CacheGet _ => fun x => x ≫= id
      | SqlLookup _ => fun x => match x with Ok row => row | Err _ => None end
      | _ => fun _ => None
      end x
  end.

Definition f32_rows (t : list (event predictE)) : Prop :=
  Forall (fun row => valid_binary f32_prec f32_emax (row_p95_30d row) = true) (omap row_of t).

Lemma compute_b_outcome has_pool cold tn model agent class t r :
  exec (compute_b has_pool cold tn model agent class) t r ->
  exists b, r = Ok b /\ breaker_trace t = [] /\ (f32_rows t -> forall p, b = Some p -> 1 <= pb_value p).
Proof.
  unfold compute_b. intros Hx.
  assert (Hrow : forall t0 row, f32_rows t0 -> (row = None \/ exists row', row = Some row' /\ row' ∈ omap row_of t0) ->
    forall p, match row with
              | Some row => Some (promote_l4 row)
              | None => table ← cold; entry ← cold_start_lookup table model class; Some (promote_l2 entry)
              end = Some p -> 1 <= pb_value p).
  { intros t0 row Hv [->|(row' & -> & Hin)] p.
    - destruct cold as [table|]; [|done]. cbn. destruct (cold_start_lookup _ _ _); [|done].
      intros [= <-]. apply promote_l2_positive.
    - intros [= <-]. apply promote_l4_positive. unfold f32_rows in Hv. rewrite Forall_forall in Hv. by apply Hv. }
  apply exec_bind in Hx as [(t1 & t2 & row & -> & H1 & -> & ->)|(e & -> & H1)];
    unfold dist_lookup in H1; destruct H1 as (cached & t3 & -> & H1).
  - rewrite app_nil_r. eexists. split; [done|].
    destruct cached as [value|]; [destruct H1 as [-> [= ->]]; split; [done|]|].
    { intros Hv. apply (Hrow _ value Hv). destruct value as [v|]; [right|by left]. exists v. cbn. split; [done|]. by left. }
    destruct has_pool.
    + destruct H1 as (sql & t4 & -> & H1). destruct sql as [value|e].
      * destruct H1 as ([] & t5 & -> & -> & [= ->]). split; [done|].
        intros Hv. apply (Hrow _ value Hv). destruct value as [v|]; [right|by left]. exists v. cbn. split; [done|]. by left.
      * destruct H1 as [-> [= ->]]. split; [done|]. intros Hv. apply (Hrow _ None Hv). by left.
    + destruct H1 as ([] & t5 & -> & -> & [= ->]). split; [done|]. intros Hv. apply (Hrow _ None Hv). by left.
  - exfalso. destruct cached; [by destruct H1 as [_ [=]]|]. destruct has_pool.
    + destruct H1 as ([value|e'] & t4 & -> & H1); [by destruct H1 as ([] & t5 & -> & _ & [=])|by destruct H1].
    + by destruct H1 as ([] & t5 & -> & _ & [=]).
Qed.

(** ** What a call answers *)

Lemma require_len_exec name x max_name max t r :
  exec (require_len name x max_name max) t r -> t = [] /\ (r = Ok tt \/ exists e, r = Err e).
Proof. unfold require_len. destruct (max <? slen x); intros [-> ->]; eauto. Qed.

Lemma validate_exec req t r :
  exec (validate_request req) t r ->
  t = [] /\ (r = Ok tt -> is_known_policy (rq_prediction_policy req) = true).
Proof.
  unfold validate_request. do 5 (intros [(? & t' & [] & -> & [-> _]%require_len_exec & H')|
    (e & -> & [-> _]%require_len_exec)]%exec_bind; [revert t' H'; intros t|done]).
  destruct (_ && _); [by intros [-> ->]|]. destruct (is_known_policy _) eqn:Hp; by intros [-> ->].
Qed.

(** The plugin's part of a response. *)
Definition c_part (c : result StrategyCError StrategyCOutcome) : option PredictionC :=
  match c with Ok (COk p) => Some p | _ => None end.

Lemma predict_exec err svc req t r :
  exec (predict err svc req) t r ->
  (breaker_trace t = [] /\ exists e, r = Err e) \/
  exists tn b c tb tc,
    uuid_parse (rq_tenant_id req) = Some tn /\ is_known_policy (rq_prediction_policy req) = true /\
    t = Ev (RateCheck tn) true :: tb ++ tc /\ breaker_trace tb = [] /\
    (f32_rows tb -> forall p, b = Some p -> 1 <= pb_value p) /\
    c_outcome tn (context_window_of svc req) (breaker_trace tc) c /\
    match c with
    | Err _ => exists e, r = Err e
    | Ok _ => r = Ok (predict_response req
                (compute_a (rq_max_tokens_requested req) (context_window_of svc req) (rq_input_tokens req))
                b (c_part c))
    end.
Proof.
  unfold predict. destruct (uuid_parse _) as [tn|] eqn:Htn; [|intros [-> ->]; left; eauto].
  intros (allowed & t0 & -> & Hx). destruct allowed; [|destruct Hx as [-> ->]; left; eauto].
  change (exec (_ ← validate_request req; predict_checked svc req tn) t0 r) in Hx.
  apply exec_bind in Hx as [(t1 & t2 & [] & -> & H1 & Hx)|(e & -> & H1)]; apply validate_exec in H1 as [-> Hp].
  2:{ left. eauto. }
  right. unfold predict_checked in Hx.
  apply exec_bind in Hx as [(tb & t3 & b & -> & H2 & Hx)|(e & -> & H2)];
    destruct (compute_b_outcome _ _ _ _ _ _ _ _ H2) as (b' & [= ->] & Hb & Hv).
  apply exec_bind in Hx as [(tc & t4 & c & -> & H3 & Hx)|(e & -> & H3)];
    destruct (compute_c_outcome _ _ _ H3) as (c' & [= ->] & Hc).
  assert (t4 = [] /\ match c' with
    | Err _ => exists e, r = Err e
    | Ok _ => r = Ok (predict_response req
                (compute_a (rq_max_tokens_requested req) (context_window_of svc req) (rq_input_tokens req))
                b' (c_part c'))
    end) as [-> Hr].
  { destruct c' as [[p|f]|[]]; destruct Hx as [-> ->]; eauto. }
  exists tn, b', c', tb, tc. rewrite app_nil_r. auto 10.
Qed.

Lemma breaker_trace_app t t' : breaker_trace (t ++ t') = breaker_trace t ++ breaker_trace t'.
Proof. apply omap_app. Qed.

(** The tokens that a strategy of a response stands for. *)
Definition tokens_of (resp : PredictResponse) (strategy : string) : option Z :=
  if strategy =?s "A" then Some (rp_predicted_a_tokens resp)
  else if strategy =?s "B" then rp_predicted_b_tokens resp
  else rp_predicted_c_tokens resp.

Lemma selected_present policy a b c s :
  s = (select_strategy policy a b c).1 \/ s = (select_strategy policy a b c).2 ->
  match s with StrategyA => True | StrategyB => is_Some b | StrategyC => is_Some c end.
Proof.
  assert (Hpre : match prefer_c_then_b_then_a c b with
                 | StrategyA => True | StrategyB => is_Some b | StrategyC => is_Some c end).
  { destruct c, b; cbn; eauto. }
  intros Hs. assert (Hs' : s = StrategyA \/ s = prefer_c_then_b_then_a c b).
  { revert Hs. unfold select_strategy.
    repeat match goal with |- context [policy =?s ?y] => destruct (policy =?s y) end; cbn; tauto. }
  by destruct Hs' as [->| ->].
Qed.

(** C21: what a prediction reserves is sound. In every execution that answers, the
    policy is a known one and the strategy named as reserved has a prediction of at
    least one token; without the policy ADAPTIVE_CEILING it is the ceiling A, which
    never exceeds the tokens requested. A plugin's prediction is used only when the
    plugin registered for this very tenant was let through by the breaker and
    answered within the model's context window, and that success was recorded. *)
Theorem predict_reserves err svc req t resp :
  exec (predict err svc req) t (Ok resp) -> f32_rows t ->
  is_known_policy (rq_prediction_policy req) = true /\
  (exists v, tokens_of resp (rp_reserved_strategy resp) = Some v /\ 1 <= v) /\
  is_Some (tokens_of resp (rp_prediction_strategy_used resp)) /\
  (rq_prediction_policy req <> "ADAPTIVE_CEILING" -> rp_reserved_strategy resp = "A") /\
  (0 < rq_max_tokens_requested req -> rp_predicted_a_tokens resp <= rq_max_tokens_requested req) /\
  (forall v, rp_predicted_c_tokens resp = Some v -> exists tn e,
     uuid_parse (rq_tenant_id req) = Some tn /\ pe_tenant_id e = tn /\
     0 < v <= context_window_of svc req /\
     breaker_trace t = [BPermit tn Allow; BCall tn e; BSuccess tn]).
Proof.
  intros Hx Hv. apply predict_exec in Hx as [(_ & e & [=])|(tn & b & c & tb & tc & Htn & Hp & -> & Hb & Hbv & Hc & Hr)].
  assert (Hvb : f32_rows tb).
  { unfold f32_rows in *. cbn in Hv. rewrite omap_app in Hv. by apply Forall_app in Hv as [? _]. }
  specialize (Hbv Hvb). destruct c as [c|]; [|by destruct Hr].
  set (a := compute_a _ _ _) in Hr. destruct (compute_a_bounds (rq_max_tokens_requested req) (context_window_of svc req)
    (rq_input_tokens req)) as (Ha1 & Ha2 & _). fold a in Ha1, Ha2.
  assert (Hcv : forall p, c_part (Ok c) = Some p -> exists e, pe_tenant_id e = tn /\
    0 < pc_predicted_output_tokens p <= context_window_of svc req /\
    breaker_trace tc = [BPermit tn Allow; BCall tn e; BSuccess tn]).
  { intros p Hp'. destruct c as [p'|f]; [|done]. injection Hp' as ->.
    inversion Hc as [? Hno| | |e p' He Hu]; subst; [by destruct (Hno p)|]. destruct Hu. eauto. }
  set (cp := c_part (Ok c)) in *. clearbody cp. injection Hr as ->.
  unfold predict_response. destruct (select_strategy _ a _ _) as [reserved used] eqn:Hsel.
  pose proof (selected_present (rq_prediction_policy req) a (pb_value <$> b) (pc_predicted_output_tokens <$> cp)) as Hpres.
  rewrite Hsel in Hpres. cbn in Hpres. split; [done|]. cbn.
  assert (Hval : forall s, s = reserved \/ s = used ->
    exists v, tokens_of (predict_response req a b cp) (strategy_str s) = Some v /\ 1 <= v).
  { intros s Hs. specialize (Hpres s Hs). unfold tokens_of, predict_response. rewrite Hsel.
    destruct s; cbn.
    - eauto.
    - destruct b as [p|]; [|by destruct Hpres]. cbn. eauto.
    - destruct cp as [p|]; [|by destruct Hpres]. destruct (Hcv p eq_refl) as (e & _ & ? & _).
      exists (pc_predicted_output_tokens p). split; [done|lia]. }
  unfold predict_response in Hval. rewrite Hsel in Hval.
  split; [apply Hval; by left|]. split; [destruct (Hval used) as (v & -> & _); eauto|].
  split; [|split; [exact Ha2|]].
  - intros Hna. unfold select_strategy in Hsel.
    repeat match type of Hsel with context [?x =?s ?y] => destruct (String.eqb_spec x y) end; by simplify_eq.
  - intros v Hv'. destruct cp as [p|]; [|done]. injection Hv' as <-.
    destruct (Hcv p eq_refl) as (e & He & Hw & Hbt). exists tn, e. split; [done|]. split; [done|].
    split; [done|]. cbn. rewrite breaker_trace_app, Hb, Hbt. done.
Qed.

(** The circuit breaker always hears the outcome. In every execution of a
    call, whatever it answers, the breaker and the plugin see nothing, or a refused
    permit and no call, or - for the request's own tenant and an endpoint of that
    tenant - a permit, one call and then exactly one report; the report is a success
    exactly when the answer carries the plugin's prediction. A half-open breaker's
    probe is therefore always resolved by the call that took it. *)
Theorem plugin_call_reported err svc req t r :
  exec (predict err svc req) t r ->
  breaker_trace t = [] \/
  exists tn, uuid_parse (rq_tenant_id req) = Some tn /\
    (breaker_trace t = [BPermit tn SkipOpen] \/
     exists e, pe_tenant_id e = tn /\
       ((breaker_trace t = [BPermit tn Allow; BCall tn e; BSuccess tn] /\
         exists resp v, r = Ok resp /\ rp_predicted_c_tokens resp = Some v) \/
        (breaker_trace t = [BPermit tn Allow; BCall tn e; BFailure tn] /\
         exists resp, r = Ok resp /\ rp_predicted_c_tokens resp = None))).
Proof.
  intros Hx. apply predict_exec in Hx as [[-> _]|(tn & b & c & tb & tc & Htn & _ & -> & Hb & _ & Hc & Hr)];
    [by left|].
  assert (Hbt : breaker_trace (Ev (RateCheck tn) true :: tb ++ tc) = breaker_trace tc).
  { change (breaker_trace (tb ++ tc) = breaker_trace tc). by rewrite breaker_trace_app, Hb. }
  rewrite Hbt. inversion Hc as [c' Hno| |e f He|e p He Hu]; subst; [by left|..]; right; exists (pe_tenant_id e) || exists tn.
  - split; [done|by left].
  - split; [done|]. right. exists e. split; [done|]. right. split; [done|]. eexists. split; [done|].
    unfold predict_response. by destruct (select_strategy _ _ _ _).
  - split; [done|]. right. exists e. split; [done|]. left. split; [done|].
    exists (predict_response req
      (compute_a (rq_max_tokens_requested req) (context_window_of svc req) (rq_input_tokens req)) b (Some p)),
      (pc_predicted_output_tokens p). split; [done|].
    unfold predict_response. by destruct (select_strategy _ _ _ _).
Qed.

End Predict.

(** ** A concrete call *)

Module PredictDemo.
Import Demo.

Definition svc : PredictorSvc :=
  {| sv_has_pool := true; sv_context_window := <["gpt-4o" := 128000]> ∅;
     sv_unknown_model_context_window := 8192; sv_cold_start := None |}.

Definition req (policy : string) : PredictRequest :=
  {| rq_tenant_id := "utenant"; rq_model := "gpt-4o"; rq_agent_id := "agent"; rq_prompt_class := "chat_short";
     rq_input_tokens := 1000; rq_max_tokens_requested := 4096; rq_model_context_window := 0;
     rq_prediction_policy := policy; rq_decision_id := "dec-1"; rq_run_id := ""; rq_prompt_class_fingerprint := "" |}.

Definition endpoint : PluginEndpoint :=
  {| pe_plugin_endpoint_id := "ep"; pe_tenant_id := "tenant"; pe_endpoint_url := "https://plugin";
     pe_server_cert_fingerprint := "fp"; pe_client_cert_id := "cert"; pe_enabled := true |}.

Definition row : CacheRow := {| row_p95_30d := f32_lit 641 2; row_sample_size_30d := 120 |}.

(** A half-open breaker lets a probe through, which answers [tokens]. *)
Definition answer (tokens : Z) (X : Type) (e : predictE X) : X :=
  match e in predictE X return X with
  | RateCheck _ => true
  | CacheGet _ => None
  | SqlLookup _ => Ok (Some row)
  | CachePut _ _ => tt
  | EndpointLookup _ => Ok endpoint
  | PermitRequest _ => Allow
  | StateOf _ => HalfOpen
  | PluginPredict _ _ q =>
      Some (Ok {| pp_predicted_output_tokens := tokens; pp_confidence := f32_lit 9 10;
                  pp_sample_size := 50; pp_plugin_version := "1"; pp_feature_hash := pq_spendguard_call_id q |})
  | RecordFailure _ => tt
  | RecordSuccess _ => tt
  end.

Definition adaptive := run (answer 700) (predict "" svc (req "ADAPTIVE_CEILING")).
Definition overflowing := run (answer 200000) (predict "" svc (req "ADAPTIVE_CEILING")).

(** 320.5 rounds half away from zero; C is preferred, and B when C is unusable. *)
Example adaptive_answer :
  (fun r => (rp_predicted_a_tokens r, rp_predicted_b_tokens r, rp_predicted_c_tokens r, rp_reserved_strategy r))
    <$> adaptive.2 = Ok (4096, Some 321, Some 700, "C").
Proof. vm_compute. reflexivity. Qed.

Example overflowing_answer :
  (fun r => (rp_predicted_c_tokens r, rp_reserved_strategy r)) <$> overflowing.2 = Ok (None, "B").
Proof. vm_compute. reflexivity. Qed.

Definition adaptive_response : PredictResponse :=
  match adaptive.2 with
  | Ok r => r
  | Err _ => predict_response (req "") 0 None None
  end.

Lemma predict_reserves_witness :
  rp_reserved_strategy adaptive_response = "C" /\
  (exists v, tokens_of adaptive_response (rp_reserved_strategy adaptive_response) = Some v /\ 1 <= v).
Proof.
  split; [vm_compute; reflexivity|].
  assert (Ha : adaptive.2 = Ok adaptive_response) by (vm_compute; reflexivity).
  destruct (predict_reserves "" svc (req "ADAPTIVE_CEILING") adaptive.1 adaptive_response) as (_ & Hv & _).
  - rewrite <- Ha. apply run_exec.
  - unfold f32_rows. replace (omap row_of adaptive.1) with [row] by (vm_compute; reflexivity).
    repeat constructor.
  - exact Hv.
Defined.

Lemma plugin_call_reported_witness :
  breaker_trace overflowing.1 = [BPermit "tenant" Allow; BCall "tenant" endpoint; BFailure "tenant"] /\
  (breaker_trace overflowing.1 = [] \/ exists tn, uuid_parse "utenant" = Some tn).
Proof.
  split; [vm_compute; reflexivity|].
  destruct (plugin_call_reported "" svc (req "ADAPTIVE_CEILING") overflowing.1 overflowing.2 (run_exec _ _))
    as [H|(tn & H & _)]; [left; exact H|right; exists tn; exact H].
Defined.

End PredictDemo.
