(* ===== verification/EndpointCache.v ===== *)
(** * The plugin endpoint cache

    [services/output_predictor/src/endpoint_cache.rs]: the registry of customer
    plugins, read through a cache with a time to live, a grace period for a
    database that does not answer, and short back-offs. A lookup is a program over
    the sections it runs under a lock, the readings of the clock and the query of
    the database; lookups of any tenants run interleaved. Which back-off is evicted
    when their map is full is the hash map's iteration order, left open. *)

From S2P Require Import Prelude Deps Effects Predict.

Section EndpointCache.
Context `{UuidLib}.

Record Cached := {
  ca_endpoint : PluginEndpoint;
  ca_loaded_at : Z;
  ca_stale_reload_backoff_until : option Z;
}.

(** The constants of the cache. *)
Record EndpointCache := {
  ec_has_pool : bool;
  ec_refresh_ttl : Z;
  ec_stale_on_db_error_ttl : Z;
  ec_enabled_stale_on_db_error_ttl : Z;
  ec_reload_result_backoff_ttl : Z;
  ec_not_configured_backoff_capacity : nat;
}.

Definition DEFAULT_REFRESH_TTL : Z := secs 5.
Definition DEFAULT_STALE_ON_DB_ERROR_TTL : Z := secs 300.
Definition DEFAULT_ENABLED_STALE_ON_DB_ERROR_TTL : Z := secs 30.
Definition DEFAULT_RELOAD_RESULT_BACKOFF_TTL : Z := secs 1.
Definition DEFAULT_NOT_CONFIGURED_BACKOFF_CAPACITY : nat := Z.to_nat 4096.

Definition new_with_stale_ttl (has_pool : bool) (refresh_ttl stale_on_db_error_ttl : Z) : EndpointCache :=
  {| ec_has_pool := has_pool; ec_refresh_ttl := refresh_ttl;
     ec_stale_on_db_error_ttl := stale_on_db_error_ttl;
     ec_enabled_stale_on_db_error_ttl := Z.min DEFAULT_ENABLED_STALE_ON_DB_ERROR_TTL stale_on_db_error_ttl;
     ec_reload_result_backoff_ttl := DEFAULT_RELOAD_RESULT_BACKOFF_TTL;
     ec_not_configured_backoff_capacity := DEFAULT_NOT_CONFIGURED_BACKOFF_CAPACITY |}.

Definition cache_new (has_pool : bool) (refresh_ttl : Z) : EndpointCache :=
  new_with_stale_ttl has_pool refresh_ttl DEFAULT_STALE_ON_DB_ERROR_TTL.

(** What the locks guard; [reloading]: the tenants whose reload lock is held. *)
Record EcState := {
  entries : gmap uuid Cached;
  not_configured_backoffs : gmap uuid Z;
  reloading : gset uuid;
}.

Definition ec_answer : Type := result EndpointCacheError PluginEndpoint.

Definition endpoint_result_from_cached (tenant : uuid) (e : PluginEndpoint) : ec_answer :=
  if pe_enabled e then Ok e else Err (EcNotConfigured tenant).

(** ** The sections under a lock *)

Definition result_if_stale_within_db_error_ttl (cfg : EndpointCache) (tenant : uuid) (c : Cached) (now : Z)
    : option ec_answer :=
  let age := elapsed now (ca_loaded_at c) in
  if ec_stale_on_db_error_ttl cfg <? age then None
  else if pe_enabled (ca_endpoint c) && (ec_enabled_stale_on_db_error_ttl cfg <? age) then None
  else Some (endpoint_result_from_cached tenant (ca_endpoint c)).

Definition cached_if_fresh (cfg : EndpointCache) (now : Z) (tenant : uuid) (s : EcState) : option ec_answer :=
  c ← entries s !! tenant;
  if ec_refresh_ttl cfg <=? elapsed now (ca_loaded_at c) then None
  else Some (endpoint_result_from_cached tenant (ca_endpoint c)).

Definition cached_if_stale_reload_backoff (cfg : EndpointCache) (now : Z) (tenant : uuid) (s : EcState)
    : option ec_answer :=
  c ← entries s !! tenant;
  backoff_until ← ca_stale_reload_backoff_until c;
  if backoff_until <=? now then None
  else result_if_stale_within_db_error_ttl cfg tenant c now.

Definition with_entries (m : gmap uuid Cached) (s : EcState) : EcState :=
  {| entries := m; not_configured_backoffs := not_configured_backoffs s; reloading := reloading s |}.
Definition with_backoffs (m : gmap uuid Z) (s : EcState) : EcState :=
  {| entries := entries s; not_configured_backoffs := m; reloading := reloading s |}.
Definition with_reloading (r : gset uuid) (s : EcState) : EcState :=
  {| entries := entries s; not_configured_backoffs := not_configured_backoffs s; reloading := r |}.

Definition mark_stale_reload_backoff_on_db_error (cfg : EndpointCache) (now : Z) (tenant : uuid)
    (s : EcState) : option ec_answer * EcState :=
  match entries s !! tenant with
  | None => (None, s)
  | Some c =>
      match result_if_stale_within_db_error_ttl cfg tenant c now with
      | None => (None, s)
      | Some result =>
          (Some result,
           with_entries (<[tenant := {| ca_endpoint := ca_endpoint c; ca_loaded_at := ca_loaded_at c;
                             ca_stale_reload_backoff_until :=
                               Some (now + ec_reload_result_backoff_ttl cfg) |}]> (entries s)) s)
      end
  end.

Definition remove_backoff (tenant : uuid) (s : EcState) : EcState :=
  with_backoffs (delete tenant (not_configured_backoffs s)) s.

(** [victim]: the first key that the map iterates. *)
Definition record_not_configured_backoff (cfg : EndpointCache) (now : Z) (tenant : uuid)
    (victim : option uuid) (s : EcState) : EcState :=
  let m := filter (fun kv : uuid * Z => now < kv.2) (not_configured_backoffs s) in
  let m := if bool_decide (m !! tenant = None) && bool_decide (ec_not_configured_backoff_capacity cfg <= size m)%nat
           then match victim with Some v => delete v m | None => m end
           else m in
  with_backoffs (<[tenant := now + ec_reload_result_backoff_ttl cfg]> m) s.

Definition insert_endpoint (now : Z) (tenant : uuid) (e : PluginEndpoint) (s : EcState) : EcState :=
  with_entries (<[tenant := {| ca_endpoint := e; ca_loaded_at := now;
                               ca_stale_reload_backoff_until := None |}]> (entries s)) s.

Definition remove_entry (tenant : uuid) (s : EcState) : EcState :=
  with_entries (delete tenant (entries s)) s.

Definition evict (tenant : uuid) (s : EcState) : EcState := remove_backoff tenant (remove_entry tenant s).

(** The tenants that the health loop probes. *)
Definition cached_tenants (cfg : EndpointCache) (now : Z) (s : EcState) : gset uuid :=
  dom (filter (fun kv : uuid * Cached => elapsed now (ca_loaded_at kv.2) < ec_refresh_ttl cfg) (entries s)).

(** ** A lookup *)

(** The sections read the clock themselves, but where the code reads it before
    taking the lock. [LoadRow]: the row of the tenant's endpoint, if any. *)
Inductive ecE : Type -> Type :=
  | EcNow : ecE Z
  | CachedIfFresh (t : uuid) : ecE (option ec_answer)
  | CachedIfStale (now : Z) (t : uuid) : ecE (option ec_answer)
  | BackoffOf (t : uuid) : ecE (option Z)
  | RemoveBackoff (t : uuid) : ecE unit
  | LockReload (t : uuid) : ecE unit
  | UnlockReload (t : uuid) : ecE unit
  | LoadRow (t : uuid) : ecE (result string (option PluginEndpoint))
  | MarkStale (now : Z) (t : uuid) : ecE (option ec_answer)
  | RemoveEntry (t : uuid) : ecE unit
  | RecordBackoff (now : Z) (t : uuid) : ecE unit
  | InsertEndpoint (t : uuid) (e : PluginEndpoint) : ecE unit.

Definition load_one (tenant : uuid) : prog ecE ec_answer :=
  Vis (LoadRow tenant) (fun row =>
    match row with
    | Err e => Ret (Err (EcSql e))
    | Ok None => Ret (Err (EcNotConfigured tenant))
    | Ok (Some e) =>
        if decide (pe_tenant_id e = tenant) then Ret (Ok e)
        else Ret (Err (EcTenantBindingViolation tenant (pe_tenant_id e)))
    end).

Definition cached_if_not_configured_backoff (tenant : uuid) : prog ecE (option ec_answer) :=
  Vis EcNow (fun now =>
  Vis (BackoffOf tenant) (fun until =>
    match until with
    | None => Ret None
    | Some until =>
        if now <? until then Ret (Some (Err (EcNotConfigured tenant)))
        else Vis (RemoveBackoff tenant) (fun _ => Ret None)
    end)).

(** The three ways to answer without the database. *)
Definition cached (tenant : uuid) : prog ecE (option ec_answer) :=
  Vis (CachedIfFresh tenant) (fun r =>
    match r with
    | Some r => Ret (Some r)
    | None =>
        Vis EcNow (fun now =>
        Vis (CachedIfStale now tenant) (fun r =>
          match r with
          | Some r => Ret (Some r)
          | None => cached_if_not_configured_backoff tenant
          end))
    end).

Definition lookup_after_reload_lock (cfg : EndpointCache) (tenant : uuid) : prog ecE ec_answer :=
  pbind (cached tenant) (fun r =>
    match r with
    | Some r => Ret r
    | None =>
        if ec_has_pool cfg then
          pbind (load_one tenant) (fun loaded =>
            match loaded with
            | Err (EcSql e) =>
                Vis EcNow (fun now =>
                Vis (MarkStale now tenant) (fun r =>
                  match r with Some r => Ret r | None => Ret (Err (EcSql e)) end))
            | Err (EcNotConfigured t) =>
                Vis (RemoveEntry tenant) (fun _ =>
                Vis EcNow (fun now =>
                Vis (RecordBackoff now tenant) (fun _ => Ret (Err (EcNotConfigured t)))))
            | Err e => Ret (Err e)
            | Ok e =>
                Vis (InsertEndpoint tenant e) (fun _ =>
                Vis (RemoveBackoff tenant) (fun _ => Ret (endpoint_result_from_cached tenant e)))
            end)
        else Ret (Err (EcNotConfigured tenant))
    end).

Definition ec_lookup (cfg : EndpointCache) (tenant : uuid) : prog ecE ec_answer :=
  pbind (cached tenant) (fun r =>
    match r with
    | Some r => Ret r
    | None =>
        Vis (LockReload tenant) (fun _ =>
        pbind (lookup_after_reload_lock cfg tenant) (fun r =>
        Vis (UnlockReload tenant) (fun _ => Ret r)))
    end).

(** ** The state, the clock and what the database has answered *)

Record EcWorld := {
  ew_clock : Z;
  ew_cache : EcState;
  (** Every row answered, for whom and when. *)
  ew_loads : list (Z * uuid * PluginEndpoint);
  (** Every row taken into the cache, for whom and when. *)
  ew_inserts : list (Z * uuid * PluginEndpoint);
}.

Definition with_cache (c : EcState) (s : EcWorld) : EcWorld :=
  {| ew_clock := ew_clock s; ew_cache := c; ew_loads := ew_loads s; ew_inserts := ew_inserts s |}.

Definition loaded (t : uuid) (row : result string (option PluginEndpoint)) (s : EcWorld) : EcWorld :=
  {| ew_clock := ew_clock s; ew_cache := ew_cache s;
     ew_loads := match row with Ok (Some e) => (ew_clock s, t, e) :: ew_loads s | _ => ew_loads s end;
     ew_inserts := ew_inserts s |}.

Definition inserted (t : uuid) (e : PluginEndpoint) (s : EcWorld) : EcWorld :=
  {| ew_clock := ew_clock s; ew_cache := insert_endpoint (ew_clock s) t e (ew_cache s);
     ew_loads := ew_loads s; ew_inserts := (ew_clock s, t, e) :: ew_inserts s |}.

Section Handle.
Context (cfg : EndpointCache).

Definition ec_handle (X : Type) (e : ecE X) (s : EcWorld) : X -> EcWorld -> Prop :=
  match e in ecE X return X -> EcWorld -> Prop with
  | EcNow => fun x s' => x = ew_clock s /\ s' = s
  | CachedIfFresh t => fun x s' => x = cached_if_fresh cfg (ew_clock s) t (ew_cache s) /\ s' = s
  | CachedIfStale now t => fun x s' => x = cached_if_stale_reload_backoff cfg now t (ew_cache s) /\ s' = s
  | BackoffOf t => fun x s' => x = not_configured_backoffs (ew_cache s) !! t /\ s' = s
  | RemoveBackoff t => fun _ s' => s' = with_cache (remove_backoff t (ew_cache s)) s
  | LockReload t => fun _ s' =>
      ~ (t ∈ reloading (ew_cache s)) /\
      s' = with_cache (with_reloading ({[t]} ∪ reloading (ew_cache s)) (ew_cache s)) s
  | UnlockReload t => fun _ s' =>
      s' = with_cache (with_reloading (reloading (ew_cache s) ∖ {[t]}) (ew_cache s)) s
  | LoadRow t => fun x s' => s' = loaded t x s
  | MarkStale now t => fun x s' =>
      (x, ew_cache s') = mark_stale_reload_backoff_on_db_error cfg now t (ew_cache s) /\
      s' = with_cache (ew_cache s') s
  | RemoveEntry t => fun _ s' => s' = with_cache (remove_entry t (ew_cache s)) s
  | RecordBackoff now t => fun _ s' =>
      exists victim, s' = with_cache (record_not_configured_backoff cfg now t victim (ew_cache s)) s
  | InsertEndpoint t e => fun _ s' => s' = inserted t e s
  end.

(** Time passes, and the health loop evicts tenants, one map after the other. *)
Definition ec_other (s s' : EcWorld) : Prop :=
  (exists t, ew_clock s <= t /\ s' = {| ew_clock := t; ew_cache := ew_cache s; ew_loads := ew_loads s;
                                            ew_inserts := ew_inserts s |}) \/
  exists t, s' = with_cache (remove_entry t (ew_cache s)) s \/
            s' = with_cache (remove_backoff t (ew_cache s)) s.

(** ** What a lookup serves *)

(** Every entry is its own tenant's row, and carries the time at which it was taken in;
    what was taken in the database had answered. *)
Record ec_inv (s : EcWorld) : Prop := {
  ei_entries t c : entries (ew_cache s) !! t = Some c ->
    pe_tenant_id (ca_endpoint c) = t /\ ca_loaded_at c <= ew_clock s /\
    (ca_loaded_at c, t, ca_endpoint c) ∈ ew_inserts s;
  ei_inserts l t e : (l, t, e) ∈ ew_inserts s -> exists t0, t0 <= l /\ (t0, t, e) ∈ ew_loads s;
}.

(** The clock and the history only grow. *)
Definition moves (s s' : EcWorld) : Prop :=
  ew_clock s <= ew_clock s' /\ ew_loads s ⊆ ew_loads s' /\ ew_inserts s ⊆ ew_inserts s'.

#[local] Instance moves_preorder : PreOrder moves.
Proof. split; [by repeat split|]. intros s1 s2 s3 (? & ? & ?) (? & ? & ?). repeat split; [lia|by etrans..]. Qed.

(** How old an entry may be: the time to refresh it, or the grace of an enabled one
    while the database fails, within that of any. *)
Definition stale_bound : Z :=
  Z.max (ec_refresh_ttl cfg) (Z.min (ec_enabled_stale_on_db_error_ttl cfg) (ec_stale_on_db_error_ttl cfg)).

(** [e] is enabled and the tenant's own; the database had answered it for the tenant, it
    was taken into the cache at [l], and at [now], when the lookup that began at [start]
    read its clock, that was at most [stale_bound] ago. *)
Definition served (start : Z) (t : uuid) (e : PluginEndpoint) (s : EcWorld) : Prop :=
  pe_enabled e = true /\ pe_tenant_id e = t /\
  exists t0 l now, (t0, t, e) ∈ ew_loads s /\ (l, t, e) ∈ ew_inserts s /\ t0 <= l <= ew_clock s /\
    start <= now <= ew_clock s /\ now - l <= stale_bound.

Definition serves {A} (f : A -> option ec_answer) (start : Z) (t : uuid) (r : A) (s : EcWorld) : Prop :=
  forall e, f r = Some (Ok e) -> served start t e s.

Lemma served_moves start t e s s' : moves s s' -> served start t e s -> served start t e s'.
Proof.
  intros (Hc & Hl & Hi) (He & Ht & t0 & l & now & Hin & Hil & ?). split; [done|]. split; [done|].
  exists t0, l, now. split; [by apply Hl|]. split; [by apply Hi|lia].
Qed.

Lemma serves_moves {A} (f : A -> option ec_answer) start t r s s' :
  moves s s' -> serves f start t r s -> serves f start t r s'.
Proof. intros Hm Hs e He. eapply served_moves; eauto. Qed.

(** Sections that only forget, or touch nothing that the invariant reads. *)
Lemma inv_cache_sub c s :
  ec_inv s -> entries c ⊆ entries (ew_cache s) -> ec_inv (with_cache c s).
Proof. intros HI Hsub. split; [|apply HI]. intros t e He. apply HI. by eapply lookup_weaken. Qed.

Lemma moves_cache c s : moves s (with_cache c s).
Proof. by repeat split. Qed.

Lemma entry_served s t c start now :
  ec_inv s -> entries (ew_cache s) !! t = Some c -> pe_enabled (ca_endpoint c) = true ->
  start <= now <= ew_clock s -> elapsed now (ca_loaded_at c) <= stale_bound ->
  served start t (ca_endpoint c) s.
Proof.
  intros HI Hc He Hn Hb. destruct (ei_entries _ HI t c Hc) as (Ht & Hl & Hin).
  destruct (ei_inserts _ HI _ _ _ Hin) as (t0 & Ht0 & Hin0).
  split; [done|]. split; [done|]. exists t0, (ca_loaded_at c), now. unfold elapsed in Hb.
  split; [done|]. split; [done|]. lia.
Qed.

Lemma stale_result_served s t c start now e :
  ec_inv s -> entries (ew_cache s) !! t = Some c -> start <= now <= ew_clock s ->
  result_if_stale_within_db_error_ttl cfg t c now = Some (Ok e) -> served start t e s.
Proof.
  intros HI Hc Hn. unfold result_if_stale_within_db_error_ttl, endpoint_result_from_cached.
  destruct (ec_stale_on_db_error_ttl cfg <? _) eqn:Hage'; [done|].
  destruct (pe_enabled (ca_endpoint c)) eqn:He; [|done]. cbn.
  destruct (ec_enabled_stale_on_db_error_ttl cfg <? _) eqn:Hage; [done|].
  intros [= <-]. apply Z.ltb_ge in Hage, Hage'.
  apply (entry_served _ _ _ _ now); [done..|]. unfold stale_bound. lia.
Qed.

Lemma fresh_served s t start e :
  ec_inv s -> start <= ew_clock s -> cached_if_fresh cfg (ew_clock s) t (ew_cache s) = Some (Ok e) ->
  served start t e s.
Proof.
  intros HI Hn. unfold cached_if_fresh. destruct (entries _ !! t) as [c|] eqn:Hc; [|done]. cbn.
  destruct (_ <=? _) eqn:Hage; [done|]. unfold endpoint_result_from_cached.
  destruct (pe_enabled (ca_endpoint c)) eqn:He; [|done]. intros [= <-]. apply Z.leb_gt in Hage.
  apply (entry_served _ _ _ _ (ew_clock s)); [done..|]. unfold stale_bound. lia.
Qed.

Abbreviation ec_follows Q p := (follows ec_handle ec_inv moves moves Q p).

Lemma cached_follows start t s :
  start <= ew_clock s -> ec_follows (serves id start t) (cached t) s.
Proof.
  intros H0. intros s1 x ? [Hc1 _] HI1 [-> ->]. split; [done|]. split; [done|].
  destruct (cached_if_fresh _ _ _ _) as [r|] eqn:Hf; cbn.
  { intros e [= ->]. apply fresh_served; [done|lia|done]. }
  intros s2 now ? [Hc2 _] HI2 [-> ->]. split; [done|]. split; [done|].
  intros s3 x ? [Hc3 _] HI3 [-> ->]. split; [done|]. split; [done|].
  destruct (cached_if_stale_reload_backoff _ _ _ _) as [r|] eqn:Hs; cbn.
  { intros e [= ->]. unfold cached_if_stale_reload_backoff in Hs.
    destruct (entries _ !! t) as [c|] eqn:Hc; [|done]. cbn in Hs.
    destruct (ca_stale_reload_backoff_until c) as [u|]; [|done]. cbn in Hs. destruct (_ <=? _); [done|].
    eapply (stale_result_served s3 t c start (ew_clock s2)); [done|done|lia|done]. }
  intros s4 now ? _ HI4 [-> ->]. split; [done|]. split; [done|].
  intros s5 x ? _ HI5 [-> ->]. split; [done|]. split; [done|].
  destruct (not_configured_backoffs _ !! t) as [until|]; [|done]. cbn.
  destruct (_ <? until); [done|]. intros s6 [] ? _ HI6 ->.
  split; [apply moves_cache|]. split; [by apply inv_cache_sub|done].
Qed.

(** The clock does not run backwards during a lookup. *)
Lemma follows_since {R} start (Q : R -> EcWorld -> Prop) (p : prog ecE R) s :
  start <= ew_clock s -> ec_follows Q p s ->
  ec_follows (fun r s' => start <= ew_clock s' /\ Q r s') p s.
Proof.
  revert s; induction p as [r|X e k IH]; intros s H0; cbn; [by split|].
  intros Hk s1 x s2 Hr HI Hh. destruct (Hk s1 x s2 Hr HI Hh) as (Hg & HI' & Hf).
  split; [done|]. split; [done|]. apply IH; [|done]. destruct Hr, Hg. lia.
Qed.

Definition answers (start : Z) (t : uuid) : ec_answer -> EcWorld -> Prop := serves Some start t.

Lemma load_follows t s :
  ec_follows (fun r s' => forall e, r = Ok e -> pe_tenant_id e = t /\ exists t0,
                t0 <= ew_clock s' /\ (t0, t, e) ∈ ew_loads s')
    (load_one t) s.
Proof.
  intros s1 row ? _ HI1 ->.
  assert (Hm : moves s1 (loaded t row s1)).
  { split; [done|]. split; [|done]. destruct row as [[]|]; cbn; set_solver. }
  split; [done|]. split.
  { split; [apply HI1|]. intros l t' e (t0 & Ht0 & Hin)%(ei_inserts _ HI1). exists t0. split; [done|]. by apply Hm. }
  destruct row as [[e|]|m]; cbn; [|done..]. case_decide as He; cbn; [|done].
  intros ? [= <-]. split; [done|]. exists (ew_clock s1). split; [done|]. by left.
Qed.

Lemma mark_follows start now t s1 s2 x :
  ec_inv s1 -> start <= now <= ew_clock s1 -> ec_handle _ (MarkStale now t) s1 x s2 ->
  moves s1 s2 /\ ec_inv s2 /\ serves id start t x s2.
Proof.
  intros HI Hn [Hx Hs2]. unfold mark_stale_reload_backoff_on_db_error in Hx.
  assert (Hm : moves s1 s2) by (rewrite Hs2; apply moves_cache).
  split; [done|]. destruct (entries _ !! t) as [c|] eqn:Hc.
  2:{ injection Hx as -> Hs. rewrite Hs2, Hs. split; [by apply inv_cache_sub|by intros e]. }
  destruct (result_if_stale_within_db_error_ttl cfg t c now) as [r|] eqn:Hr.
  2:{ injection Hx as -> Hs. rewrite Hs2, Hs. split; [by apply inv_cache_sub|by intros e]. }
  injection Hx as -> Hs. split.
  - rewrite Hs2, Hs. split; [|apply HI]. intros t' c'. cbn. rewrite lookup_insert_Some.
    intros [[<- <-]|[_ Hc']]; [apply (ei_entries _ HI t c Hc)|by apply HI].
  - intros e [= ->]. eapply served_moves; [done|]. by eapply stale_result_served.
Qed.

Lemma insert_follows t e t0 s :
  ec_inv s -> pe_tenant_id e = t -> t0 <= ew_clock s -> (t0, t, e) ∈ ew_loads s ->
  moves s (inserted t e s) /\ ec_inv (inserted t e s).
Proof.
  intros HI He Ht0 Hin. split; [repeat split; cbn; set_solver|]. split.
  - intros t' c'. cbn. rewrite lookup_insert_Some. intros [[<- <-]|[_ Hc']]; cbn.
    + split; [done|]. split; [done|]. by left.
    + destruct (ei_entries _ HI _ _ Hc') as (? & ? & ?). split; [done|]. split; [done|]. by right.
  - intros l t' e' [[= -> -> ->]|Hl]%elem_of_cons; [by exists t0|]. by apply (ei_inserts _ HI).
Qed.

Lemma after_lock_follows start t s :
  0 <= ec_refresh_ttl cfg -> start <= ew_clock s ->
  ec_follows (answers start t) (lookup_after_reload_lock cfg t) s.
Proof.
  intros Httl H0. apply follows_pbind.
  eapply follows_weaken; [|by apply follows_since; [apply H0|apply cached_follows]].
  intros [r|] s' [Hc' Hr]; [intros e [= ->]; by apply Hr|]. destruct (ec_has_pool cfg); [|done].
  apply follows_pbind. eapply follows_weaken; [|by apply follows_since; [apply Hc'|apply load_follows]].
  clear Hr Hc' H0 s s'. intros [e|[t'|a b|m]] s2 [H0 He]; cbn; [| |done|].
  - destruct (He e eq_refl) as (Ht & t0 & Ht0 & Hin).
    intros s3 [] ? (Hc3 & Hl3 & _) HI3 ->. destruct (insert_follows t e t0 s3) as [Hm3 HI3']; [done|done|lia|by apply Hl3|].
    split; [done|]. split; [done|].
    intros s5 [] ? (Hc5 & Hl5 & Hi5) HI5 ->. split; [apply moves_cache|].
    split; [by apply inv_cache_sub|]. intros e'. unfold endpoint_result_from_cached.
    destruct (pe_enabled e) eqn:Hen; [|done]. intros [= <-]. split; [done|]. split; [done|].
    cbn in Hc5, Hl5, Hi5 |- *. exists t0, (ew_clock s3), (ew_clock s3). unfold stale_bound.
    split; [by apply Hl5, Hl3|]. split; [apply Hi5; by left|]. lia.
  - intros s3 [] ? _ HI3 ->. split; [apply moves_cache|].
    split; [apply inv_cache_sub; [done|apply delete_subseteq]|].
    intros s4 now ? _ HI4 [-> ->]. split; [done|]. split; [done|].
    intros s5 [] ? _ HI5 [v ->]. split; [apply moves_cache|]. split; [by apply inv_cache_sub|done].
  - intros s3 now ? [Hc3 _] HI3 [-> ->]. split; [done|]. split; [done|].
    intros s4 x s5 [Hc4 _] HI4 Hh.
    destruct (mark_follows start (ew_clock s3) t s4 s5 x HI4) as (Hm & HI5 & Hx); [lia|done|].
    split; [done|]. split; [done|]. destruct x as [r|]; [|done]. intros e [= ->]. by apply Hx.
Qed.

Lemma lookup_follows start t s :
  0 <= ec_refresh_ttl cfg -> start <= ew_clock s -> ec_follows (answers start t) (ec_lookup cfg t) s.
Proof.
  intros Httl H0. apply follows_pbind.
  eapply follows_weaken; [|by apply follows_since; [apply H0|apply cached_follows]].
  intros [r|] s' [Hc' Hr]; [intros e [= ->]; by apply Hr|].
  intros s1 [] ? [Hc1 _] HI1 [_ ->]. split; [apply moves_cache|]. split; [by apply inv_cache_sub|].
  apply follows_pbind. eapply follows_weaken; [|by apply (after_lock_follows start); [|cbn; lia]].
  intros r s2 Hans s3 [] ? Hr3 HI3 ->. split; [apply moves_cache|]. split; [by apply inv_cache_sub|].
  eapply serves_moves; [apply moves_cache|]. by eapply serves_moves.
Qed.

Lemma other_keeps s s' : ec_inv s -> ec_other s s' -> ec_inv s' /\ moves s s'.
Proof.
  intros HI [(t & Ht & ->)|(t & [->| ->])].
  - split; [|by repeat split]. split; [|apply HI]. intros t' c Hc.
    destruct (ei_entries _ HI t' c Hc) as (? & ? & ?). split; [done|]. by split; [cbn; lia|].
  - split; [apply inv_cache_sub; [done|apply delete_subseteq]|apply moves_cache].
  - split; [by apply inv_cache_sub|apply moves_cache].
Qed.

(** C36: a switched-off plugin is forgotten in bounded time. Lookups of any
    tenants run interleaved with each other, with evictions, with the passing of
    time and with a database that answers or fails at will, from any state the
    cache can be in. An endpoint that a lookup answers is enabled, is registered
    for the very tenant asked for, and is a row that the database had answered for
    it; and the instant at which that row was taken into the cache is no further back
    than the refresh time or the grace of an enabled endpoint while the database fails
    (within that of any), whichever is longer, when the lookup read its clock. How long
    a row takes from the database's answer into the cache is not bounded. *)
Theorem endpoint_bounded_staleness s ts log s' ps' :
  0 <= ec_refresh_ttl cfg -> ec_inv s ->
  pool_run ec_handle ec_other (s, ec_lookup cfg <$> ts) log (s', ps') ->
  ec_inv s' /\
  forall i t e, ts !! i = Some t -> ps' !! i = Some (Ret (Ok e)) -> served (ew_clock s) t e s'.
Proof.
  intros Httl HI Hrun.
  destruct (pool_follows ec_handle ec_inv ec_other (fun _ => moves) (fun _ => moves)
    (fun i r s' => forall t, ts !! i = Some t -> answers (ew_clock s) t r s')
    s (ec_lookup cfg <$> ts) log s' ps') as (HI' & _ & Hps); try done.
  - intros i. apply moves_preorder.
  - intros i r s1 s2 Hm Hr t Ht. eapply serves_moves; [done|]. by apply Hr.
  - intros s1 s2 HI1 Ho. destruct (other_keeps s1 s2 HI1 Ho). by split.
  - intros i p (t & -> & Ht)%list_lookup_fmap_Some_1.
    eapply follows_weaken; [|by apply (lookup_follows (ew_clock s))].
    intros r s1 Hr t' Ht'. by simplify_eq.
  - split; [done|]. intros i t e Ht Hi. specialize (Hps i _ Hi). cbn in Hps. by apply (Hps t Ht).
Qed.

End Handle.
End EndpointCache.

(** ** A stale entry *)

Module EndpointDemo.
Import Demo.

Definition cfg : EndpointCache := cache_new true DEFAULT_REFRESH_TTL.

Definition endpoint (enabled : bool) : PluginEndpoint :=
  {| pe_plugin_endpoint_id := "ep"; pe_tenant_id := "tenant"; pe_endpoint_url := "https://plugin";
     pe_server_cert_fingerprint := "fp"; pe_client_cert_id := "cert"; pe_enabled := enabled |}.

(** The row was loaded at 1000 seconds; the database failed a second before now. *)
Definition world (now : Z) (enabled : bool) : EcWorld :=
  {| ew_clock := now;
     ew_cache := {| entries := {[ "tenant" := {| ca_endpoint := endpoint enabled; ca_loaded_at := secs 1000;
                                                ca_stale_reload_backoff_until := Some (now + 1) |} ]};
                    not_configured_backoffs := ∅; reloading := ∅ |};
     ew_loads := [(secs 1000, "tenant", endpoint enabled)];
     ew_inserts := [(secs 1000, "tenant", endpoint enabled)] |}.

(** Served at 20 seconds of age, but not at 31; a disabled one is refused for as
    long as the database fails. *)
Example stale_answers :
  let at_age age enabled :=
    cached_if_stale_reload_backoff cfg (secs (1000 + age)) "tenant"
      (ew_cache (world (secs (1000 + age)) enabled)) in
  (at_age 20 true, at_age 31 true, at_age 31 false, at_age 301 false)
  = (Some (Ok (endpoint true)), None, Some (Err (EcNotConfigured "tenant")), None).
Proof. vm_compute. reflexivity. Qed.

Lemma world_inv now enabled : secs 1000 <= now -> ec_inv (world now enabled).
Proof.
  intros Hn. split.
  - intros t c. cbn. rewrite lookup_singleton_Some. intros [<- <-]. cbn. split; [done|]. split; [done|]. by left.
  - intros l t e [[= -> -> ->]|[]%elem_of_nil]%elem_of_cons. exists (secs 1000). split; [done|]. by left.
Qed.

Definition w : EcWorld := world (secs 1020) true.

(** The environment of the look-up: nothing fresh, the clock, the stale entry. *)
Definition answer (X : Type) (e : ecE X) : X :=
  match e in ecE X return X with
  | EcNow => secs 1020
  | CachedIfFresh _ => None
  | CachedIfStale _ _ => Some (Ok (endpoint true))
  | BackoffOf _ => None
  | RemoveBackoff _ => tt
  | LockReload _ => tt
  | UnlockReload _ => tt
  | LoadRow _ => Ok None
  | MarkStale _ _ => None
  | RemoveEntry _ => tt
  | RecordBackoff _ _ => tt
  | InsertEndpoint _ _ => tt
  end.

Definition demo_trace : list (event ecE) :=
  [Ev (CachedIfFresh "tenant") None; Ev EcNow (secs 1020);
   Ev (CachedIfStale (secs 1020) "tenant") (Some (Ok (endpoint true)))].

Definition demo_log : list (nat * event ecE) := pair 0%nat <$> demo_trace.

Lemma demo_lookup :
  pool_run (ec_handle cfg) ec_other (w, ec_lookup cfg <$> ["tenant"]) demo_log
    (w, [Ret (Ok (endpoint true))]).
Proof.
  apply pool_exec.
  - assert (Hr : run answer (ec_lookup cfg "tenant") = (demo_trace, Ok (endpoint true))) by (vm_compute; reflexivity).
    pose proof (run_exec answer (ec_lookup cfg "tenant")) as Hx. by rewrite Hr in Hx.
  - repeat constructor; vm_compute; reflexivity.
Qed.

Lemma endpoint_bounded_staleness_witness :
  served cfg (secs 1020) "tenant" (endpoint true) w.
Proof.
  destruct (endpoint_bounded_staleness cfg w ["tenant"] demo_log w [Ret (Ok (endpoint true))]) as [_ Hs].
  - vm_compute. congruence.
  - apply world_inv. vm_compute. congruence.
  - exact demo_lookup.
  - exact (Hs 0%nat "tenant" (endpoint true) eq_refl eq_refl).
Defined.

End EndpointDemo.
