(* ===== verification/Signing.v ===== *)
(** * Signatures of audit events

    [services/signing/src/lib.rs]: the three signers, the trust store a verifier
    loads from a directory, and the verification of one event's bytes. ed25519
    and P-256 are interfaces; the key service is an effect. Directories, files and
    the environment are arguments. *)

From S2P Require Import Prelude Deps Effects.

(** ed25519-dalek. *)
Class Ed25519Lib := {
  SigningKey : Type;
  VerifyingKey : Type;
  EdSignature : Type;
  ed_verifying_key : SigningKey -> VerifyingKey;
  ed_vk_bytes : VerifyingKey -> string;
  ed_sign : SigningKey -> string -> EdSignature;
  ed_sig_bytes : EdSignature -> string;
  ed_sig_from_slice : string -> option EdSignature;
  ed_verify : VerifyingKey -> string -> EdSignature -> bool;
  (** [from_pkcs8_pem] and [from_public_key_pem]. *)
  signing_key_of_pem : string -> result string SigningKey;
  verifying_key_of_pem : string -> result string VerifyingKey;
  ed_sig_from_slice_bytes s : ed_sig_from_slice (ed_sig_bytes s) = Some s;
  ed_verify_sign sk m : ed_verify (ed_verifying_key sk) m (ed_sign sk m) = true;
}.

(** The p256 crate. [Verifier::verify] hashes the message with SHA-256. *)
Class P256Lib `{CryptoLib} := {
  P256Key : Type;
  P256Signature : Type;
  p256_key_of_pem : string -> result string P256Key;
  der_from_bytes : string -> option P256Signature;
  p256_verify_prehash : P256Key -> string -> P256Signature -> bool;
  p256_verify : P256Key -> string -> P256Signature -> bool;
  p256_verify_spec k m s : p256_verify k m s = p256_verify_prehash k (sha256 m) s;
}.

(** A string in double quotes. *)
Definition quoted (s : string) : string :=
  let quote := String (Ascii.ascii_of_nat 34) EmptyString in quote +:+ s +:+ quote.

Section Signing.
Context `{HC : CryptoLib} `{HE : Ed25519Lib} `{HP : !P256Lib}.

(** ** Signers *)

Record Signature := {
  sig_bytes : string;
  sig_key_id : string;
  sig_algorithm : string;
  sig_signed_at : Z;
  sig_producer_identity : string;
}.

Inductive SignError :=
  | ModeUnavailable (msg : string)
  | DisabledOutsideDemo
  | InvalidKeyFile (msg : string)
  | SignIo (msg : string)
  | Ed25519 (msg : string)
  | Kms (msg : string).

Record LocalEd25519Signer := {
  ls_signing_key : SigningKey;
  ls_key_id : string;
  ls_producer_identity : string;
}.
Record KmsSigner := { ks_key_arn : string; ks_producer_identity : string }.
Record DisabledSigner := { ds_producer_identity : string }.

(** [dyn Signer]. *)
Inductive Signer :=
  | LocalSigner (s : LocalEd25519Signer)
  | KmsBacked (s : KmsSigner)
  | NoSigner (s : DisabledSigner).

(** The first 16 digits of the digest of the public key. *)
Definition ed_key_id (vk : VerifyingKey) : string :=
  "ed25519:" +:+ String.substring 0 16 (hex_encode (sha256 (ed_vk_bytes vk))).

Definition from_key (sk : SigningKey) (producer_identity : string) : LocalEd25519Signer :=
  {| ls_signing_key := sk; ls_key_id := ed_key_id (ed_verifying_key sk);
     ls_producer_identity := producer_identity |}.

Definition from_pkcs8_pem_file (read : string -> result string string) (path producer_identity : string)
    : result SignError LocalEd25519Signer :=
  match read path with
  | Err e => Err (SignIo e)
  | Ok pem =>
      match signing_key_of_pem pem with
      | Err e => Err (InvalidKeyFile (path +:+ ": " +:+ e))
      | Ok sk => Ok (from_key sk producer_identity)
      end
  end.

Definition for_profile (profile producer_identity : string) : result SignError DisabledSigner :=
  if profile =?s "demo" then Ok {| ds_producer_identity := producer_identity |}
  else Err DisabledOutsideDemo.

Definition key_id (s : Signer) : string :=
  match s with
  | LocalSigner s => ls_key_id s
  | KmsBacked s => ks_key_arn s
  | NoSigner _ => "disabled"
  end.

Definition algorithm (s : Signer) : string :=
  match s with
  | LocalSigner _ => "ed25519"
  | KmsBacked _ => "kms-ecdsa-sha256"
  | NoSigner _ => "disabled"
  end.

Definition producer_identity (s : Signer) : string :=
  match s with
  | LocalSigner s => ls_producer_identity s
  | KmsBacked s => ks_producer_identity s
  | NoSigner s => ds_producer_identity s
  end.

(** [KmsSign arn digest]: the key service signs [digest] as it is
    ([MessageType::Digest]); it answers a signature, nothing, or an error. *)
Inductive signE : Type -> Type :=
  | SignedAt : signE Z
  | KmsSign (arn digest : string) : signE (result string (option string)).

Abbreviation signing A := (M signE SignError A).

Definition sign (s : Signer) (canonical_bytes : string) : signing Signature :=
  match s with
  | LocalSigner l =>
      let sig := ed_sign (ls_signing_key l) (sha256 canonical_bytes) in
      now ← act SignedAt;
      mret {| sig_bytes := ed_sig_bytes sig; sig_key_id := ls_key_id l; sig_algorithm := "ed25519";
              sig_signed_at := now; sig_producer_identity := ls_producer_identity l |}
  | KmsBacked k =>
      resp ← act (KmsSign (ks_key_arn k) (sha256 canonical_bytes));
      resp ← lift (match resp with
                   | Ok r => Ok r
                   | Err e => Err (Kms ("kms sign call failed (arn=" +:+ ks_key_arn k +:+ "): " +:+ e))
                   end);
      sig ← lift (ok_or resp (Kms ("kms returned empty signature (arn=" +:+ ks_key_arn k +:+ ")")));
      now ← act SignedAt;
      mret {| sig_bytes := sig; sig_key_id := ks_key_arn k; sig_algorithm := "kms-ecdsa-sha256";
              sig_signed_at := now; sig_producer_identity := ks_producer_identity k |}
  | NoSigner d =>
      now ← act SignedAt;
      mret {| sig_bytes := EmptyString; sig_key_id := "disabled:" +:+ ds_producer_identity d;
              sig_algorithm := "disabled"; sig_signed_at := now;
              sig_producer_identity := ds_producer_identity d |}
  end.

(** *** From the environment *)

Inductive SigningMode := ModeLocal | ModeKms | ModeDisabled.

Definition parse_mode (s : string) : result SignError SigningMode :=
  if s =?s "local" then Ok ModeLocal
  else if s =?s "kms" then Ok ModeKms
  else if s =?s "disabled" then Ok ModeDisabled
  else Err (InvalidKeyFile ("unknown SIGNING_MODE: " +:+ s +:+ " (expected local|kms|disabled)")).

Definition signer_from_env (env : string -> option string) (read : string -> result string string)
    (prefix : string) : result SignError Signer :=
  mode ← parse_mode (default "local" (env (prefix +:+ "_SIGNING_MODE")));
  let identity_var := prefix +:+ "_SIGNING_PRODUCER_IDENTITY" in
  identity ← ok_or (env identity_var) (InvalidKeyFile (identity_var +:+ " env var required"));
  match mode with
  | ModeLocal =>
      let path_var := prefix +:+ "_SIGNING_KEY_PATH" in
      path ← ok_or (env path_var)
        (InvalidKeyFile (path_var +:+ " env var required when SIGNING_MODE=local"));
      s ← from_pkcs8_pem_file read path identity;
      mret (LocalSigner s)
  | ModeKms =>
      let arn_var := prefix +:+ "_SIGNING_KMS_ARN" in
      arn ← ok_or (env arn_var)
        (InvalidKeyFile (arn_var +:+ " env var required when SIGNING_MODE=kms"));
      mret (KmsBacked {| ks_key_arn := arn; ks_producer_identity := identity |})
  | ModeDisabled =>
      s ← for_profile (default EmptyString (env "SPENDGUARD_PROFILE")) identity;
      mret (NoSigner s)
  end.

(** ** Verification *)

Inductive VerifyFailure :=
  | UnknownKey | InvalidSignature | PreS6 | Disabled | KeyExpired | KeyNotYetValid | KeyRevoked.

Definition verify_failure_str (f : VerifyFailure) : string :=
  match f with
  | UnknownKey => "unknown_key"
  | InvalidSignature => "invalid_signature"
  | PreS6 => "pre_s6"
  | Disabled => "disabled"
  | KeyExpired => "key_expired"
  | KeyNotYetValid => "key_not_yet_valid"
  | KeyRevoked => "key_revoked"
  end.

Record KeyValidity := {
  kv_valid_from : Z;
  kv_valid_until : option Z;
  kv_revoked : bool;
  kv_revoked_at : option Z;
  kv_algorithm : option string;
  kv_public_key_pem : option string;
}.

(** [DateTime::<Utc>::MIN_UTC], the first of January of the year -262143. *)
Definition MIN_UTC : Z := secs (-8334601228800).

Definition always_valid : KeyValidity :=
  {| kv_valid_from := MIN_UTC; kv_valid_until := None; kv_revoked := false; kv_revoked_at := None;
     kv_algorithm := None; kv_public_key_pem := None |}.

Definition check (k : KeyValidity) (event_time : option Z) : result VerifyFailure unit :=
  if kv_revoked k then Err KeyRevoked
  else
    match event_time with
    | None => Ok tt
    | Some t =>
        if t <? kv_valid_from k then Err KeyNotYetValid
        else
          match kv_valid_until k with
          | Some until => if until <? t then Err KeyExpired else Ok tt
          | None => Ok tt
          end
    end.

Inductive VerifyError :=
  | InvalidTrustStore (msg : string)
  | VerifyIo (msg : string).

(** [validities] in the order in which the hash map iterates. *)
Record LocalEd25519Verifier := {
  vf_keys : gmap string VerifyingKey;
  vf_ecdsa_keys : gmap string P256Key;
  vf_validities : list (string * KeyValidity);
}.

(** *** The trust store *)

(** What reading an entry of the directory gives: its file name and its text. *)
Record DirEntry := { de_name : string; de_text : result string string }.

(** A directory; [td_manifest]: the text of its [keys.json], if there is one. *)
Record TrustDir := {
  td_path : string;
  td_exists : bool;
  td_entries : result string (list (result string DirEntry));
  td_manifest : option (result string string);
}.

(** The part of a file name after its last dot, if a part before it is not empty. *)
Fixpoint after_last_dot (s : string) : option string :=
  match s with
  | EmptyString => None
  | String c s =>
      match after_last_dot s with
      | Some e => Some e
      | None => if Ascii.eqb c "."%char then Some s else None
      end
  end.

Definition path_extension (name : string) : option string :=
  match name with
  | EmptyString => None
  | String _ s => after_last_dot s
  end.

Definition key_of_pem (pem : string) : option VerifyingKey :=
  match signing_key_of_pem pem with
  | Ok sk => Some (ed_verifying_key sk)
  | Err _ => match verifying_key_of_pem pem with Ok vk => Some vk | Err _ => None end
  end.

Fixpoint load_keys (entries : list (result string DirEntry)) (keys : gmap string VerifyingKey)
    : result VerifyError (gmap string VerifyingKey) :=
  match entries with
  | [] => Ok keys
  | Err e :: _ => Err (VerifyIo e)
  | Ok entry :: entries =>
      if bool_decide (path_extension (de_name entry) = Some "pem") then
        match de_text entry with
        | Err e => Err (VerifyIo e)
        | Ok pem =>
            match key_of_pem pem with
            | Some vk => load_keys entries (<[ed_key_id vk := vk]> keys)
            | None => load_keys entries keys
            end
        end
      else load_keys entries keys
  end.

(** [serde_json::from_str::<KeysManifest>]. *)
Context (parse_manifest : string -> result string (list (string * KeyValidity))).

Definition load_keys_manifest (dir : TrustDir) : result VerifyError (list (string * KeyValidity)) :=
  match td_manifest dir with
  | None => Ok []
  | Some (Err e) => Err (VerifyIo e)
  | Some (Ok raw) =>
      match parse_manifest raw with
      | Ok keys => Ok keys
      | Err e => Err (InvalidTrustStore ("keys.json parse: " +:+ e))
      end
  end.

Fixpoint load_ecdsa (validities : list (string * KeyValidity)) (keys : gmap string P256Key)
    : result VerifyError (gmap string P256Key) :=
  match validities with
  | [] => Ok keys
  | (kid, v) :: validities =>
      if bool_decide (kv_algorithm v = Some "kms-ecdsa-sha256") then
        pem ← ok_or (kv_public_key_pem v)
          (InvalidTrustStore ("keys.json entry " +:+ quoted kid +:+
             ": algorithm=kms-ecdsa-sha256 requires non-empty public_key_pem"));
        match p256_key_of_pem (trim pem) with
        | Err e => Err (InvalidTrustStore ("keys.json entry " +:+ quoted kid +:+ ": P-256 SPKI parse: " +:+ e))
        | Ok vk => load_ecdsa validities (<[kid := vk]> keys)
        end
      else load_ecdsa validities keys
  end.

Definition from_dir (dir : TrustDir) : result VerifyError LocalEd25519Verifier :=
  _ ← ensure (td_exists dir) (InvalidTrustStore ("trust store directory does not exist: " +:+ td_path dir));
  entries ← (match td_entries dir with Ok l => Ok l | Err e => Err (VerifyIo e) end);
  keys ← load_keys entries ∅;
  validities ← load_keys_manifest dir;
  ecdsa_keys ← load_ecdsa validities ∅;
  mret {| vf_keys := keys; vf_ecdsa_keys := ecdsa_keys; vf_validities := validities |}.

Definition verifier_from_env (env : string -> option string) (dirs : string -> TrustDir) (prefix : string)
    : result VerifyError LocalEd25519Verifier :=
  let var := prefix +:+ "_TRUST_STORE_DIR" in
  dir ← ok_or (env var)
    (InvalidTrustStore (var +:+ " env var required to construct LocalEd25519Verifier"));
  from_dir (dirs dir).

Definition key_count (v : LocalEd25519Verifier) : nat := size (vf_keys v) + size (vf_ecdsa_keys v).

(** *** Verifying *)

Definition verify (v : LocalEd25519Verifier) (signing_key_id canonical_bytes signature_bytes : string)
    (event_time : option Z) : result VerifyFailure unit :=
  if is_empty signing_key_id || starts_with "pre-S6" signing_key_id then Err PreS6
  else if starts_with "disabled:" signing_key_id then Err Disabled
  else
    _ ← check (default always_valid (al_get signing_key_id (vf_validities v))) event_time;
    let digest := sha256 canonical_bytes in
    match vf_keys v !! signing_key_id with
    | Some vk =>
        match ed_sig_from_slice signature_bytes with
        | None => Err InvalidSignature
        | Some sig => if ed_verify vk digest sig then Ok tt else Err InvalidSignature
        end
    | None =>
        match vf_ecdsa_keys v !! signing_key_id with
        | Some vk =>
            match der_from_bytes signature_bytes with
            | None => Err InvalidSignature
            | Some sig => if p256_verify vk digest sig then Ok tt else Err InvalidSignature
            end
        | None => Err UnknownKey
        end
    end.

(** ** What the trust store holds *)

(** [e] is a key file of [vk]. *)
Definition key_file (vk : VerifyingKey) (e : DirEntry) : Prop :=
  path_extension (de_name e) = Some "pem" /\ exists pem, de_text e = Ok pem /\ key_of_pem pem = Some vk.

Lemma load_keys_sound entries keys m kid vk :
  load_keys entries keys = Ok m -> m !! kid = Some vk ->
  keys !! kid = Some vk \/ kid = ed_key_id vk /\ exists e, Ok e ∈ entries /\ key_file vk e.
Proof.
  revert keys; induction entries as [|[e|err] entries IH]; intros keys; cbn.
  - intros [= <-]. by left.
  - assert (Hskip : load_keys entries keys = Ok m -> m !! kid = Some vk ->
      keys !! kid = Some vk \/ kid = ed_key_id vk /\ exists e', Ok e' ∈ Ok e :: entries /\ key_file vk e').
    { intros Hm Hk. destruct (IH _ Hm Hk) as [?|(? & e' & ? & ?)]; [by left|]. right. split; [done|].
      exists e'. split; [by right|done]. }
    case_bool_decide as Hext; [|done]. destruct (de_text e) as [pem|] eqn:Htext; [|done].
    destruct (key_of_pem pem) as [vk'|] eqn:Hpem; [|done]. intros Hm Hk.
    destruct (IH _ Hm Hk) as [Hi|(? & e' & ? & ?)].
    + apply lookup_insert_Some in Hi as [[<- <-]|[_ ?]]; [|by left]. right. split; [done|].
      exists e. split; [by left|]. split; [done|]. by exists pem.
    + right. split; [done|]. exists e'. split; [by right|done].
  - done.
Qed.

Lemma load_keys_keeps entries keys m kid :
  load_keys entries keys = Ok m -> is_Some (keys !! kid) -> is_Some (m !! kid).
Proof.
  revert keys; induction entries as [|[e|err] entries IH]; intros keys; cbn; [by intros [= ->]| |done].
  case_bool_decide; [|by apply IH]. destruct (de_text e) as [pem|]; [|done].
  destruct (key_of_pem pem) as [vk|]; [|by apply IH]. intros Hm Hk. apply (IH _ Hm).
  destruct (decide (ed_key_id vk = kid)) as [->|Hne]; [by rewrite lookup_insert_eq; eexists|].
  by rewrite lookup_insert_ne.
Qed.

Lemma load_keys_complete entries keys m vk e :
  load_keys entries keys = Ok m -> Ok e ∈ entries -> key_file vk e -> is_Some (m !! ed_key_id vk).
Proof.
  revert keys; induction entries as [|e0 entries IH]; intros keys Hm Hin Hf; [by apply elem_of_nil in Hin|].
  apply elem_of_cons in Hin as [<-|Hin]; cbn in Hm.
  - destruct Hf as (Hext & pem & Htext & Hpem). rewrite bool_decide_true, Htext, Hpem in Hm by done.
    apply (load_keys_keeps _ _ _ _ Hm). rewrite lookup_insert_eq. by eexists.
  - destruct e0 as [e0|]; [|done]. case_bool_decide; [|by eapply IH].
    destruct (de_text e0) as [pem|]; [|done]. destruct (key_of_pem pem); by eapply IH.
Qed.

(** A key file of the directory is found under its own id, unless another key of
    the directory has the same one. *)
Lemma from_dir_key dir v entries vk e :
  from_dir dir = Ok v -> td_entries dir = Ok entries -> Ok e ∈ entries -> key_file vk e ->
  (forall e' vk', Ok e' ∈ entries -> key_file vk' e' -> ed_key_id vk' = ed_key_id vk -> vk' = vk) ->
  vf_keys v !! ed_key_id vk = Some vk.
Proof.
  unfold from_dir. intros Hv Hentries Hin Hf Hone. rewrite Hentries in Hv.
  apply result_bind_ok in Hv as (u & _ & Hv). cbn in Hv.
  apply result_bind_ok in Hv as (keys & Hkeys & Hv). mon_inv Hv. cbn.
  destruct (load_keys_complete _ _ _ _ _ Hkeys Hin Hf) as [vk' Hvk']. rewrite Hvk'.
  destruct (load_keys_sound _ _ _ _ _ Hkeys Hvk') as [Hno|(Hid & e' & He' & Hf')]; [done|].
  by rewrite (Hone e' vk' He' Hf').
Qed.

Lemma ed_key_id_prefix vk :
  (is_empty (ed_key_id vk) || starts_with "pre-S6" (ed_key_id vk)) = false /\
  starts_with "disabled:" (ed_key_id vk) = false.
Proof. done. Qed.

(** What a local signer signs, a verifier that has its key accepts. *)
Lemma local_signature_verifies v sk identity canonical_bytes t sig event_time :
  let s := LocalSigner (from_key sk identity) in
  vf_keys v !! key_id s = Some (ed_verifying_key sk) ->
  check (default always_valid (al_get (key_id s) (vf_validities v))) event_time = Ok tt ->
  exec (sign s canonical_bytes) t (Ok sig) ->
  verify v (key_id s) canonical_bytes (sig_bytes sig) event_time = Ok tt.
Proof.
  cbn. intros Hkey Hcheck (now & t' & -> & _ & [= ->]). unfold verify. cbn [sig_bytes].
  destruct (ed_key_id_prefix (ed_verifying_key sk)) as [-> ->]. rewrite Hcheck. cbn.
  by rewrite Hkey, ed_sig_from_slice_bytes, ed_verify_sign.
Qed.

(** Signatures of the key service are never accepted. The key service signs
    the digest it is sent as it is, and the verifier hands the digest to
    [p256_verify], which hashes it again: it checks the signature against the
    digest of the digest. So as long as a signature is good for one digest only,
    and a digest is not its own digest, an event signed by a [KmsSigner] does not
    verify, in whatever trust store, at whatever time. *)
Theorem kms_signature_rejected v k canonical_bytes t sig event_time :
  vf_keys v !! ks_key_arn k = None ->
  exec (sign (KmsBacked k) canonical_bytes) t (Ok sig) ->
  (forall arn digest s, Ev (KmsSign arn digest) (Ok (Some s)) ∈ t ->
     forall vk digest' s', der_from_bytes s = Some s' -> vf_ecdsa_keys v !! arn = Some vk ->
       p256_verify_prehash vk digest' s' = true -> digest' = digest) ->
  sha256 (sha256 canonical_bytes) <> sha256 canonical_bytes ->
  verify v (sig_key_id sig) canonical_bytes (sig_bytes sig) event_time <> Ok tt.
Proof.
  intros Hno Hx Hone Hne Hv. cbn in Hx. destruct Hx as (resp & t1 & -> & Hx).
  destruct resp as [[s|]|e]; cbn in Hx; [|by destruct Hx|by destruct Hx].
  destruct Hx as (now & t2 & -> & _ & [= ->]). unfold verify in Hv. cbn [sig_bytes sig_key_id] in Hv.
  destruct (_ || _); [done|]. destruct (starts_with _ _); [done|]. mon_inv Hv.
  rewrite Hno in Hv. destruct (vf_ecdsa_keys v !! _) as [vk|] eqn:Hvk; [|done].
  destruct (der_from_bytes s) as [s'|] eqn:Hder; [|done]. destruct (p256_verify _ _ _) eqn:Hver; [|done].
  rewrite p256_verify_spec in Hver. apply Hne.
  eapply (Hone (ks_key_arn k) (sha256 canonical_bytes) s); [by left|done..].
Qed.

End Signing.

Module SigningDemo.

(** A toy digest that is not its own: a mark and the first 31 bytes. *)
#[export] Instance marked_crypto : CryptoLib.
Proof.
  refine {| sha256 := fun s => Demo.pad32 (String "x" s); hex_encode := fun s => s |}.
  intros s. apply Demo.substring_length. rewrite Demo.string_length_app. cbn. lia.
Defined.

#[export] Instance demo_ed25519 : Ed25519Lib.
Proof.
  refine {| SigningKey := string; VerifyingKey := string; EdSignature := string;
            ed_verifying_key := fun sk => sk; ed_vk_bytes := fun vk => vk;
            ed_sign := fun sk m => sk +:+ m; ed_sig_bytes := fun s => s; ed_sig_from_slice := Some;
            ed_verify := fun vk m s => s =?s (vk +:+ m);
            signing_key_of_pem := fun pem => Ok pem; verifying_key_of_pem := fun pem => Ok pem |}.
  - done.
  - intros sk m. apply String.eqb_refl.
Defined.

(** A signature is the digest it signs. *)
#[export] Instance demo_p256 `{CryptoLib} : P256Lib :=
  {| P256Key := string; P256Signature := string; p256_key_of_pem := fun pem => Ok pem;
     der_from_bytes := Some; p256_verify_prehash := fun _ m s => s =?s m;
     p256_verify := fun _ m s => s =?s sha256 m; p256_verify_spec := fun _ _ _ => eq_refl |}.

Definition arn : string := "arn:aws:kms:eu-central-1:1:key/audit".
Definition kms : KmsSigner := {| ks_key_arn := arn; ks_producer_identity := "sidecar:a" |}.
Definition store : LocalEd25519Verifier :=
  {| vf_keys := ∅; vf_ecdsa_keys := {[arn := "the service's key"]}; vf_validities := [] |}.
Definition kms_signature : Signature :=
  {| sig_bytes := sha256 "event"; sig_key_id := arn; sig_algorithm := "kms-ecdsa-sha256";
     sig_signed_at := secs 5; sig_producer_identity := "sidecar:a" |}.
Definition kms_trace : list (event signE) :=
  [Ev (KmsSign arn (sha256 "event")) (Ok (Some (sha256 "event"))); Ev SignedAt (secs 5)].

(** The digest and the signature of an answered request to sign. *)
Definition signed_of (e : event signE) : option (string * string) :=
  match e with
  | @Ev _ _ (KmsSign _ digest) (Ok (Some s)) => Some (digest, s)
  | _ => None
  end.

Lemma kms_signature_rejected_witness :
  exec (sign (KmsBacked kms) "event") kms_trace (Ok kms_signature) /\
  verify store arn "event" (sha256 "event") (Some (secs 6)) <> Ok tt.
Proof.
  assert (Hx : exec (sign (KmsBacked kms) "event") kms_trace (Ok kms_signature)).
  { do 2 eexists. split; [reflexivity|]. do 2 eexists. split; [reflexivity|]. done. }
  split; [exact Hx|].
  refine (kms_signature_rejected store kms "event" kms_trace kms_signature (Some (secs 6)) _ Hx _ _).
  - vm_compute. reflexivity.
  - intros arn0 digest s Hin vk digest' s' Hder _ Hv. unfold kms_trace in Hin.
    apply elem_of_cons in Hin as [Heq|Hin].
    + injection (f_equal signed_of Heq) as -> ->. injection Hder as <-.
      symmetry. by apply String.eqb_eq.
    + apply elem_of_cons in Hin as [Heq|Hin]; [|by apply elem_of_nil in Hin].
      by apply (f_equal signed_of) in Heq.
  - vm_compute. discriminate.
Defined.

End SigningDemo.
