(* ===== verification/Canonical.v ===== *)
(** * Canonical events

    [services/canonical_ingest/src]: how an audit event is checked and shaped
    before it is stored - the canonical bytes its signature covers
    ([verifier.rs]), its storage class ([domain/event_routing.rs]), its failure
    class ([classify.rs]), the columns derived from it
    ([handlers/append_events.rs]), the producer's identity
    ([producer_identity.rs]) - and how the stored form is read back
    ([handlers/query_audit_chain.rs]). An event's data are bytes here; serde_json,
    base64 and the X.509 parser are interfaces. *)

From S2P Require Import Prelude Floats Deps Proto Signing.

(** The event on the wire: its data are bytes. *)
Abbreviation WireEvent := (@CloudEventOf string).

(** ** Interfaces *)

Class JsonLib := {
  json_from_slice : string -> option json;
  json_to_vec : json -> string;
}.

(** The event as it is sent: its data are the bytes of the JSON tree. *)
Definition wire `{JsonLib} (ce : CloudEvent) : WireEvent := with_data (json_to_vec (ce_data ce)) ce.

Class Base64Lib := {
  b64_encode : string -> string;
  b64_decode : string -> option string;
  b64_decode_encode s : b64_decode (b64_encode s) = Some s;
  b64_encode_empty s : b64_encode s = EmptyString -> s = EmptyString;
  b64_encode_nil : b64_encode EmptyString = EmptyString;
}.

(** [prost::Message::encode_to_vec] of an event. *)
Class WireLib := { encode_cloudevent : WireEvent -> string }.

(** The names of a certificate's subject; [None]: no such extension. *)
Inductive GeneralName := URI (uri : string) | OtherName.
Class X509Lib := {
  certificate_names : string -> result string (option (list GeneralName));
}.

(** ** Storage classes *)

Inductive StorageClass := ImmutableAuditLog | CanonicalRawLog | ProfilePayloadBlob.

Definition storage_class_str (c : StorageClass) : string :=
  match c with
  | ImmutableAuditLog => "immutable_audit_log"
  | CanonicalRawLog => "canonical_raw_log"
  | ProfilePayloadBlob => "profile_payload_blob"
  end.

Definition AUDIT_DECISION : string := "spendguard.audit.decision".
Definition AUDIT_OUTCOME : string := "spendguard.audit.outcome".

Definition classify (event_type : string) : StorageClass :=
  if starts_with "spendguard.audit." event_type || (event_type =?s "spendguard.tombstone")
  then ImmutableAuditLog
  else if starts_with "spendguard.ledger." event_type
          || starts_with "spendguard.approval." event_type
          || starts_with "spendguard.dispute." event_type
          || starts_with "spendguard.refund." event_type
          || (event_type =?s "spendguard.decision")
          || (event_type =?s "spendguard.rollback")
          || (event_type =?s "spendguard.region_failover_promoted")
  then CanonicalRawLog
  else ProfilePayloadBlob.

(** ** Reading a JSON tree *)

Definition jget (k : string) (j : json) : option json :=
  match j with JObj o => al_get k o | _ => None end.
Definition j_str (j : json) : option string := match j with JStr s => Some s | _ => None end.
Definition j_i64 (j : json) : option Z :=
  match j with JInt z => if is_i64 z then Some z else None | _ => None end.
Definition j_u64 (j : json) : option Z :=
  match j with JInt z => if is_u64 z then Some z else None | _ => None end.
Definition j_is_null (j : json) : bool := match j with JNull => true | _ => false end.

(** ** The class of a failure *)

Inductive FailureClass :=
  | FcUnknown | Provider5xx | Provider4xxBilled | Provider4xxUnbilled | ToolError
  | MalformedJsonResponse | TimeoutBilled | TimeoutUnbilled | RetryThenSuccess.

Definition failure_class_str (c : FailureClass) : string :=
  match c with
  | FcUnknown => "unknown"
  | Provider5xx => "provider_5xx"
  | Provider4xxBilled => "provider_4xx_billed"
  | Provider4xxUnbilled => "provider_4xx_unbilled"
  | ToolError => "tool_error"
  | MalformedJsonResponse => "malformed_json_response"
  | TimeoutBilled => "timeout_billed"
  | TimeoutUnbilled => "timeout_unbilled"
  | RetryThenSuccess => "retry_then_success"
  end.

Definition TOOL_ERROR_TYPES : list string :=
  ["langchain_core.exceptions.ToolException"; "openai.agents.ToolCallError";
   "pydantic_ai.tools.ToolException"].
Definition MALFORMED_JSON_TYPES : list string :=
  ["MalformedJsonError"; "JSONDecodeError"; "json.JSONDecodeError";
   "langchain_core.exceptions.OutputParserException"].
Definition TIMEOUT_ERROR_TYPES : list string :=
  ["TimeoutError"; "asyncio.TimeoutError"; "httpx.TimeoutException"; "httpx.ReadTimeout";
   "httpx.ConnectTimeout"; "concurrent.futures.TimeoutError"; "openai.APITimeoutError";
   "anthropic.APITimeoutError"].

Definition listed (l : list string) (s : option string) : bool :=
  match s with Some s => bool_decide (s ∈ l) | None => false end.

Definition classify_audit_outcome (event_type : string) (decoded_data : option json)
    : option FailureClass :=
  if negb (event_type =?s AUDIT_OUTCOME) then None
  else
    match decoded_data with
    | None => Some FcUnknown
    | Some data =>
        let kind := jget "kind" data ≫= j_str in
        let err_type := jget "error_type" data ≫= j_str in
        let success := bool_decide (kind = Some "success") in
        let retried := match jget "retry_count" data ≫= j_i64 with
                       | Some retries => (0 <? retries) && success
                       | None => false
                       end in
        let has_usage := match jget "usage" data with Some v => negb (j_is_null v) | None => false end in
        let by_status :=
          status ← jget "provider_http_status" data ≫= j_i64;
          if (500 <=? status) && (status <? 600) then Some Provider5xx
          else if status =? 400 then Some (if has_usage then Provider4xxBilled else Provider4xxUnbilled)
          else if (status =? 401) || (status =? 403) || (status =? 429) then Some Provider4xxUnbilled
          else None in
        let is_timeout := bool_decide (kind = Some "timeout") || listed TIMEOUT_ERROR_TYPES err_type in
        if listed TOOL_ERROR_TYPES err_type then Some ToolError
        else if listed MALFORMED_JSON_TYPES err_type then Some MalformedJsonResponse
        else if retried then Some RetryThenSuccess
        else
          match by_status with
          | Some c => Some c
          | None =>
              if is_timeout then Some (if has_usage then TimeoutBilled else TimeoutUnbilled)
              else Some FcUnknown
          end
    end.

(** ** Columns derived from an event *)

(** A [BigDecimal]: an integer and a decimal scale. *)
Definition BigDecimal : Type := Z * Z.

Definition nonempty (value : string) : option string := if is_empty value then None else Some value.
Definition nonzero_i64 (value : Z) : option Z := if value =? 0 then None else Some value.
Definition nonzero_i64_decimal (value : Z) : option BigDecimal :=
  (fun v => (v, 0)) <$> nonzero_i64 value.
Definition nonzero_f32 (value : spec_float) : option spec_float :=
  if SFeqb value (S754_zero false) then None else Some value.

(** [format!("{v:.3}")] in thousandths: the exact value, halves to even; an
    infinity and NaN print words that do not parse. *)
Definition half_even (n d : Z) : Z :=
  let q := n / d in
  let r := n mod d in
  if 2 * r <? d then q else if d <? 2 * r then q + 1 else if Z.even q then q else q + 1.
Definition f_thousandths (v : spec_float) : option Z :=
  match v with
  | S754_zero _ => Some 0
  | S754_finite s m e =>
      let a := if 0 <=? e then Zpos m * 2 ^ e * 1000 else half_even (Zpos m * 1000) (2 ^ (- e)) in
      Some (if s then - a else a)
  | _ => None
  end.
Definition nonzero_f32_decimal (value : spec_float) : option BigDecimal :=
  v ← nonzero_f32 value; t ← f_thousandths v; Some (t, 3).

Definition json_nonempty_str (value : option json) : option string :=
  s ← value ≫= j_str; nonempty (trim s).

Definition json_i64 (value : json) : option Z :=
  match j_i64 value with
  | Some z => Some z
  | None => j_str value ≫= parse_i64
  end.

Section Canonical.
Context `{HU : UuidLib} `{HC : CryptoLib} `{HJ : JsonLib} `{HB : Base64Lib} `{HW : WireLib}.

Record PredictionColumns := {
  pc_predicted_a_tokens : option Z;
  pc_predicted_b_tokens : option Z;
  pc_predicted_c_tokens : option Z;
  pc_reserved_strategy : option string;
  pc_prediction_strategy_used : option string;
  pc_prediction_policy_used : option string;
  pc_tokenizer_tier : option string;
  pc_tokenizer_version_id : option uuid;
  pc_prediction_confidence : option BigDecimal;
  pc_prediction_sample_size : option Z;
  pc_cold_start_layer_used : option string;
  pc_run_projection_at_decision_atomic : option BigDecimal;
  pc_run_predicted_remaining_steps : option Z;
  pc_run_steps_completed_so_far : option Z;
  pc_actual_input_tokens : option Z;
  pc_actual_output_tokens : option Z;
  pc_delta_b_ratio : option spec_float;
  pc_delta_c_ratio : option spec_float;
}.

Definition uuid_nonempty (value : string) : option uuid :=
  if is_empty value then None else uuid_parse value.

Definition outcome_actual_token (evt : WireEvent) (key : string) (extension_value : Z) : option Z :=
  if negb (ce_type evt =?s AUDIT_OUTCOME) then None
  else
    let stated := match json_from_slice (ce_data evt) with
                  | Some (JObj o) => jget key (JObj o) ≫= json_i64
                  | _ => None
                  end in
    match stated with
    | Some value => if 0 <=? value then Some value else None
    | None => if 0 <? extension_value then Some extension_value else None
    end.

(** [b.then(|| x).flatten()] *)
Definition when {A} (b : bool) (x : option A) : option A := if b then x else None.

Definition prediction_columns_from_event (evt : WireEvent) : PredictionColumns :=
  let is_decision := ce_type evt =?s AUDIT_DECISION in
  let is_outcome := ce_type evt =?s AUDIT_OUTCOME in
  let no_projection := (ce_run_projection_at_decision_atomic evt =? 0)
                       && (ce_run_steps_completed_so_far evt =? 0) in
  let projector_unreachable := no_projection && (ce_run_predicted_remaining_steps evt =? -1) in
  let projector_absent_default := no_projection && (ce_run_predicted_remaining_steps evt =? 0) in
  let no_projector := negb is_decision || projector_unreachable || projector_absent_default in
  {| pc_predicted_a_tokens := when is_decision (nonzero_i64 (ce_predicted_a_tokens evt));
     pc_predicted_b_tokens := when is_decision (nonzero_i64 (ce_predicted_b_tokens evt));
     pc_predicted_c_tokens := when is_decision (nonzero_i64 (ce_predicted_c_tokens evt));
     pc_reserved_strategy := when is_decision (nonempty (ce_reserved_strategy evt));
     pc_prediction_strategy_used := when is_decision (nonempty (ce_prediction_strategy_used evt));
     pc_prediction_policy_used := when is_decision (nonempty (ce_prediction_policy_used evt));
     pc_tokenizer_tier := when is_decision (nonempty (ce_tokenizer_tier evt));
     pc_tokenizer_version_id := when is_decision (uuid_nonempty (ce_tokenizer_version_id evt));
     pc_prediction_confidence := when is_decision (nonzero_f32_decimal (ce_prediction_confidence evt));
     pc_prediction_sample_size := when is_decision (nonzero_i64 (ce_prediction_sample_size evt));
     pc_cold_start_layer_used := when is_decision (nonempty (ce_cold_start_layer_used evt));
     pc_run_projection_at_decision_atomic :=
       when (negb no_projector) (nonzero_i64_decimal (ce_run_projection_at_decision_atomic evt));
     pc_run_predicted_remaining_steps :=
       when (negb (no_projector || (ce_run_predicted_remaining_steps evt =? -1)))
         (Some (ce_run_predicted_remaining_steps evt));
     pc_run_steps_completed_so_far :=
       when (negb no_projector) (Some (ce_run_steps_completed_so_far evt));
     pc_actual_input_tokens :=
       outcome_actual_token evt "actual_input_tokens" (ce_actual_input_tokens evt);
     pc_actual_output_tokens :=
       outcome_actual_token evt "actual_output_tokens" (ce_actual_output_tokens evt);
     pc_delta_b_ratio := when is_outcome (nonzero_f32 (ce_delta_b_ratio evt));
     pc_delta_c_ratio := when is_outcome (nonzero_f32 (ce_delta_c_ratio evt)) |}.

Record AggregatorMirrors := {
  am_model : option string;
  am_agent_id : option string;
  am_run_id_mirror : option uuid;
  am_prompt_class : option string;
  am_prompt_class_fingerprint : option string;
}.

Definition no_mirrors : AggregatorMirrors :=
  {| am_model := None; am_agent_id := None; am_run_id_mirror := None; am_prompt_class := None;
     am_prompt_class_fingerprint := None |}.

Definition aggregator_mirrors_from_event (evt : WireEvent) (decoded_data : option json)
    (run_id : option uuid) : AggregatorMirrors :=
  if negb (ce_type evt =?s AUDIT_DECISION) && negb (ce_type evt =?s AUDIT_OUTCOME) then no_mirrors
  else
    match decoded_data with
    | Some (JObj o) =>
        let get k := json_nonempty_str (al_get k o) in
        {| am_model := match get "model" with Some m => Some m | None => get "model_family" end;
           am_agent_id := get "agent_id";
           am_run_id_mirror := run_id;
           am_prompt_class := get "prompt_class";
           am_prompt_class_fingerprint := get "prompt_class_fingerprint" |}
    | _ => no_mirrors
    end.

(** ** The stored form, and reading it back *)

(** A float of [serde_json]: one that is not finite is null. *)
Definition jfloat (f : spec_float) : json := if f_is_finite f then JFloat f else JNull.

Definition event_seconds (evt : WireEvent) : Z := default 0 (seconds <$> ce_time evt).
Definition event_nanos (evt : WireEvent) : Z := default 0 (nanos <$> ce_time evt).

(** The fields that both the stored form and the signed one have. *)
Definition envelope_fields (evt : WireEvent) : list (string * json) :=
  [("specversion", JStr (ce_specversion evt)); ("type", JStr (ce_type evt));
   ("source", JStr (ce_source evt)); ("id", JStr (ce_id evt));
   ("time_seconds", JInt (event_seconds evt)); ("time_nanos", JInt (event_nanos evt));
   ("datacontenttype", JStr (ce_datacontenttype evt));
   ("data_b64", JStr (b64_encode (ce_data evt)));
   ("tenantid", JStr (ce_tenant_id evt)); ("runid", JStr (ce_run_id evt));
   ("decisionid", JStr (ce_decision_id evt)); ("schema_bundle_id", JStr (ce_schema_bundle_id evt));
   ("producer_id", JStr (ce_producer_id evt)); ("producer_sequence", JInt (ce_producer_sequence evt));
   ("signing_key_id", JStr (ce_signing_key_id evt))].

Definition cloudevent_to_json (evt : WireEvent) : json :=
  JObj (envelope_fields evt ++
    [("predicted_a_tokens", JInt (ce_predicted_a_tokens evt));
     ("predicted_b_tokens", JInt (ce_predicted_b_tokens evt));
     ("predicted_c_tokens", JInt (ce_predicted_c_tokens evt));
     ("reserved_strategy", JStr (ce_reserved_strategy evt));
     ("prediction_strategy_used", JStr (ce_prediction_strategy_used evt));
     ("prediction_policy_used", JStr (ce_prediction_policy_used evt));
     ("tokenizer_tier", JStr (ce_tokenizer_tier evt));
     ("tokenizer_version_id", JStr (ce_tokenizer_version_id evt));
     ("prediction_confidence", jfloat (ce_prediction_confidence evt));
     ("prediction_sample_size", JInt (ce_prediction_sample_size evt));
     ("cold_start_layer_used", JStr (ce_cold_start_layer_used evt));
     ("run_projection_at_decision_atomic", JInt (ce_run_projection_at_decision_atomic evt));
     ("run_predicted_remaining_steps", JInt (ce_run_predicted_remaining_steps evt));
     ("run_steps_completed_so_far", JInt (ce_run_steps_completed_so_far evt));
     ("actual_input_tokens", JInt (ce_actual_input_tokens evt));
     ("actual_output_tokens", JInt (ce_actual_output_tokens evt));
     ("delta_b_ratio", jfloat (ce_delta_b_ratio evt));
     ("delta_c_ratio", jfloat (ce_delta_c_ratio evt))]).

Lemma decode_data {E} (evt : WireEvent) (e : E) :
  (if is_empty (b64_encode (ce_data evt)) then Ok EmptyString
   else ok_or (b64_decode (b64_encode (ce_data evt))) e) = Ok (ce_data evt).
Proof.
  destruct (is_empty _) eqn:He.
  - apply is_empty_spec, b64_encode_empty in He. by rewrite He.
  - by rewrite b64_decode_encode.
Qed.

(** Bytes that are not UTF-8 do not parse. *)
Definition decode_payload_data (payload_json : json) : option json :=
  data_b64 ← jget "data_b64" payload_json ≫= j_str;
  bytes ← b64_decode data_b64;
  json_from_slice bytes.

(** [decode_cloudevent_from_row]: [payload_json] and [producer_signature] of the row. *)
Definition decode_cloudevent_from_row (payload_json : option json) (producer_signature : string)
    : result string WireEvent :=
  payload ← ok_or payload_json "payload_json absent";
  let get_str k := default EmptyString (jget k payload ≫= j_str) in
  let get_u64 k := default 0 (jget k payload ≫= j_u64) in
  let get_i64 k := default 0 (jget k payload ≫= j_i64) in
  let get_i32 k := i32_wrap (get_i64 k) in
  let data_b64 := get_str "data_b64" in
  data ← (if is_empty data_b64 then Ok EmptyString
          else ok_or (b64_decode data_b64) "data_b64 decode");
  mret {| ce_specversion := get_str "specversion"; ce_type := get_str "type";
          ce_source := get_str "source"; ce_id := get_str "id";
          ce_time := Some {| seconds := get_i64 "time_seconds"; nanos := get_i32 "time_nanos" |};
          ce_datacontenttype := get_str "datacontenttype"; ce_data := data;
          ce_tenant_id := get_str "tenantid"; ce_run_id := get_str "runid";
          ce_decision_id := get_str "decisionid"; ce_schema_bundle_id := get_str "schema_bundle_id";
          ce_producer_id := get_str "producer_id"; ce_producer_sequence := get_u64 "producer_sequence";
          ce_producer_signature := producer_signature; ce_signing_key_id := get_str "signing_key_id";
          ce_predicted_a_tokens := 0; ce_predicted_b_tokens := 0; ce_predicted_c_tokens := 0;
          ce_reserved_strategy := EmptyString; ce_prediction_strategy_used := EmptyString;
          ce_prediction_policy_used := EmptyString; ce_tokenizer_tier := EmptyString;
          ce_tokenizer_version_id := EmptyString; ce_prediction_confidence := S754_zero false;
          ce_prediction_sample_size := 0; ce_cold_start_layer_used := EmptyString;
          ce_run_projection_at_decision_atomic := 0; ce_run_predicted_remaining_steps := 0;
          ce_run_steps_completed_so_far := 0; ce_actual_input_tokens := 0; ce_actual_output_tokens := 0;
          ce_delta_b_ratio := S754_zero false; ce_delta_c_ratio := S754_zero false |}.

(** ** The bytes a signature covers *)

Definition canonical_bytes_proto (evt : WireEvent) : string :=
  encode_cloudevent (with_signature EmptyString evt).
Definition canonical_bytes_json (evt : WireEvent) : string := json_to_vec (JObj (envelope_fields evt)).
Definition canonical_bytes (evt : WireEvent) : string :=
  if starts_with "ledger:" (ce_producer_id evt) then canonical_bytes_json evt
  else canonical_bytes_proto evt.

(** A [dyn Verifier]: [LocalEd25519Verifier::verify] of a trust store. *)
Definition Verifier : Type := string -> string -> string -> option Z -> result VerifyFailure unit.

Context `{HT : ChronoLib}.

Definition verify_cloudevent (v : Verifier) (evt : WireEvent) : result VerifyFailure unit :=
  let event_time := t ← ce_time evt; from_timestamp (seconds t) (u32_wrap (nanos t)) in
  v (ce_signing_key_id evt) (canonical_bytes evt) (ce_producer_signature evt) event_time.

(** ** The identity of the producer *)

Definition AUDIT_PRODUCER_SVID_PREFIX : string := "spiffe://spendguard.platform/audit-producer/".

Definition subject_uri_for_producer (producer_id : string) : string :=
  AUDIT_PRODUCER_SVID_PREFIX +:+ producer_id.

Inductive BindingError :=
  | NoPeerCert
  | UnparseableCert (msg : string)
  | NoSpiffeSan
  | ProducerMismatch (expected found : string).

Definition select_exact_audit_producer_uri (uris : list string) : result BindingError string :=
  match uris with
  | [only] => if starts_with AUDIT_PRODUCER_SVID_PREFIX only then Ok only else Err NoSpiffeSan
  | _ => Err NoSpiffeSan
  end.

Context `{HX : X509Lib}.

Definition extract_producer_spiffe_uri (leaf_der : string) : result BindingError string :=
  match certificate_names leaf_der with
  | Err e => Err (UnparseableCert e)
  | Ok None => Err NoSpiffeSan
  | Ok (Some names) =>
      select_exact_audit_producer_uri
        (omap (fun n => match n with URI u => Some u | OtherName => None end) names)
  end.

Definition assert_producer_binding (leaf_der : option string) (producer_id : string)
    : result BindingError unit :=
  der ← ok_or leaf_der NoPeerCert;
  found ← extract_producer_spiffe_uri der;
  let expected := subject_uri_for_producer producer_id in
  if found =?s expected then Ok tt else Err (ProducerMismatch expected found).

End Canonical.
