(* ===== verification/Ingest.v ===== *)
(** * Ingestion of the audit chain

    [services/canonical_ingest/src]: the AppendEvents RPC
    ([handlers/append_events.rs]) and the transactions it runs
    ([persistence/append.rs], [signature_quarantine.rs], [schema_bundle.rs],
    [query.rs], [domain/error.rs]). The tables are the state of a database whose
    statements are functions, with the keys, the unique indexes and the triggers
    of the service's migrations. A transaction runs as a whole; it may also be cut
    off by an outage, before or after it committed. The CHECK constraints on the
    derived columns and [date_trunc] are parameters. *)

From S2P Require Import Prelude Floats Deps Effects Proto Signing Canonical.

(** ** Errors *)

(** [sqlx::Error]: what the database reports, or anything else. *)
Inductive SqlError :=
  | DatabaseError (code : option string) (message : string) (constraint : option string)
  | OtherSqlError (message : string).

Inductive DomainError :=
  | SchemaBundleUnknown (msg : string)
  | SchemaBundleHashMismatch (msg : string)
  | SignatureInvalid (msg : string)
  | AwaitingPrecedingDecision (msg : string)
  | OrphanOutcome (msg : string)
  | Duplicate (msg : string)
  | Backpressure
  | InvalidRequest (msg : string)
  | Internal (msg : string)
  | DbError (e : SqlError).

Definition sql_message (e : SqlError) : string :=
  match e with DatabaseError _ m _ => m | OtherSqlError m => m end.

Definition error_message (e : DomainError) : string :=
  match e with
  | SchemaBundleUnknown m => "schema bundle unknown: " +:+ m
  | SchemaBundleHashMismatch m => "schema bundle hash mismatch: " +:+ m
  | SignatureInvalid m => "signature invalid: " +:+ m
  | AwaitingPrecedingDecision m => "AWAITING_PRECEDING_DECISION: " +:+ m
  | OrphanOutcome m => "orphan outcome (timeout): " +:+ m
  | Duplicate m => "DUPLICATE: " +:+ m
  | Backpressure => "backpressure"
  | InvalidRequest m => "invalid request: " +:+ m
  | Internal m => "internal: " +:+ m
  | DbError e => "postgres: " +:+ sql_message e
  end.

Record Status := { st_code : string; st_message : string }.

Definition to_status (e : DomainError) : Status :=
  let status code := {| st_code := code; st_message := error_message e |} in
  match e with
  | Backpressure => status "resource_exhausted"
  | SignatureInvalid _ => status "unauthenticated"
  | SchemaBundleUnknown _ | SchemaBundleHashMismatch _ | InvalidRequest _ => status "invalid_argument"
  | DbError _ | Internal _ => status "internal"
  | AwaitingPrecedingDecision _ | OrphanOutcome _ | Duplicate _ =>
      {| st_code := "internal"; st_message := "BUG: per-event status escaped: " +:+ error_message e |}
  end.

Definition map_pg_error (err : SqlError) : DomainError :=
  match err with
  | DatabaseError (Some code) msg constraint =>
      let constraint := default EmptyString constraint in
      if (code =?s "P0002") && str_contains "AWAITING_PRECEDING_DECISION" msg
      then AwaitingPrecedingDecision msg
      else if code =?s "23505" then
        if str_contains "canonical_global_one_decision" constraint
           || str_contains "canonical_global_one_outcome" constraint
        then Duplicate (constraint +:+ ": " +:+ msg)
        else if str_contains "canonical_ingest_positions_pkey" constraint
        then Internal ("ingest position collision: " +:+ constraint +:+ ": " +:+ msg)
        else if is_empty constraint then Duplicate msg
        else Internal ("unique violation " +:+ constraint +:+ ": " +:+ msg)
      else if code =?s "42P10" then Internal ("immutability trigger: " +:+ msg)
      else DbError err
  | _ => DbError err
  end.

Section Ingest.
Context `{HU : UuidLib} `{HC : CryptoLib} `{HJ : JsonLib} `{HB : Base64Lib} `{HW : WireLib}
        `{HT : ChronoLib} `{HX : X509Lib} `{HH : !HexLib}.

(** [date_trunc('month', t)] *)
Context (month_of : Z -> Z).

(** ** Rows *)

Record AppendInput := {
  ai_event_id : uuid;
  ai_tenant_id : uuid;
  ai_decision_id : option uuid;
  ai_run_id : option uuid;
  ai_event_type : string;
  ai_storage_class : StorageClass;
  ai_producer_id : string;
  ai_producer_sequence : Z;
  ai_producer_signature : string;
  ai_signing_key_id : string;
  ai_event_hash : string;
  ai_schema_bundle_id : uuid;
  ai_schema_bundle_hash : string;
  ai_specversion : string;
  ai_source : string;
  ai_event_time : Z;
  ai_datacontenttype : string;
  ai_payload_json : json;
  ai_payload_blob_ref : option string;
  ai_region_id : string;
  ai_ingest_shard_id : string;
  ai_failure_class : option string;
  ai_mirrors : AggregatorMirrors;
  ai_prediction : PredictionColumns;
}.

(** The columns of [canonical_events] that the service binds. *)
Record StoredEvent := {
  se_event_id : uuid;
  se_tenant_id : uuid;
  se_decision_id : option uuid;
  se_run_id : option uuid;
  se_event_type : string;
  se_storage_class : string;
  se_producer_id : string;
  se_producer_sequence : Z;
  se_producer_signature : string;
  se_signing_key_id : string;
  se_schema_bundle_id : uuid;
  se_schema_bundle_hash : string;
  se_specversion : string;
  se_source : string;
  se_event_time : Z;
  se_datacontenttype : string;
  se_payload_json : json;
  se_payload_blob_ref : option string;
  se_region_id : string;
  se_ingest_shard_id : string;
  se_failure_class : option string;
  se_mirrors : AggregatorMirrors;
  se_prediction : PredictionColumns;
}.

Record CanonicalRow := {
  cr_event : StoredEvent;
  cr_ingest_log_offset : Z;
  cr_ingest_at : Z;
}.

Definition stored_of_input (i : AppendInput) : StoredEvent :=
  {| se_event_id := ai_event_id i; se_tenant_id := ai_tenant_id i; se_decision_id := ai_decision_id i;
     se_run_id := ai_run_id i; se_event_type := ai_event_type i;
     se_storage_class := storage_class_str (ai_storage_class i);
     se_producer_id := ai_producer_id i; se_producer_sequence := ai_producer_sequence i;
     se_producer_signature := ai_producer_signature i; se_signing_key_id := ai_signing_key_id i;
     se_schema_bundle_id := ai_schema_bundle_id i; se_schema_bundle_hash := ai_schema_bundle_hash i;
     se_specversion := ai_specversion i; se_source := ai_source i; se_event_time := ai_event_time i;
     se_datacontenttype := ai_datacontenttype i; se_payload_json := ai_payload_json i;
     se_payload_blob_ref := ai_payload_blob_ref i; se_region_id := ai_region_id i;
     se_ingest_shard_id := ai_ingest_shard_id i; se_failure_class := ai_failure_class i;
     se_mirrors := ai_mirrors i; se_prediction := ai_prediction i |}.

Record DedupRow := {
  dd_producer_id : string;
  dd_tenant_id : uuid;
  dd_payload_hash : string;
  dd_reservation_only : bool;
  (** [None]: infinity *)
  dd_expires_at : option Z;
}.

Record GlobalKey := {
  gk_tenant_id : uuid;
  gk_decision_id : option uuid;
  gk_event_type : string;
  gk_recorded_month : Z;
}.

(** The row of [audit_outcome_quarantine] that a release reads back. *)
Record QuarantinedRow := {
  qr_event_id : uuid;
  qr_storage_class : string;
  qr_producer_sequence : Z;
  qr_producer_signature : string;
  qr_signing_key_id : string;
  qr_producer_id : string;
  qr_event_type : string;
  qr_event_time : Z;
  qr_source : string;
  qr_payload_json : option json;
  qr_payload_blob_ref : option string;
  qr_run_id : option uuid;
  qr_specversion : string;
  qr_schema_bundle_id : uuid;
  qr_schema_bundle_hash : string;
  qr_datacontenttype : string;
  qr_mirrors : AggregatorMirrors;
  qr_prediction : PredictionColumns;
}.

Inductive QuarantineState := AwaitingDecision | Released (to : uuid) | Orphaned.

Record OutcomeQuarantine := {
  oq_row : QuarantinedRow;
  oq_tenant_id : uuid;
  oq_decision_id : uuid;
  oq_region_id : string;
  oq_ingest_shard_id : string;
  oq_orphan_after : Z;
  oq_state : QuarantineState;
}.

Record TruncationNote := { tn_original_len : Z; tn_original_sha256_hex : string }.

Record SignatureQuarantine := {
  sq_claimed : WireEvent;
  sq_claimed_canonical_bytes : string;
  sq_claimed_signing_algorithm : string;
  sq_reason : string;
  sq_truncation : option TruncationNote;
}.

(** ** The database *)

(** [canonical_events] with the newest row first. *)
Record Db := {
  schema_bundles : gmap uuid string;
  dedup : gmap uuid DedupRow;
  global_keys : gmap uuid GlobalKey;
  canonical_events : list CanonicalRow;
  ingest_positions : gmap (string * string * Z) (uuid * Z);
  ingest_shards : gmap (string * string) Z;
  outcome_quarantine : gmap uuid OutcomeQuarantine;
  signature_quarantine : list SignatureQuarantine;
}.

Definition with_dedup d (s : Db) : Db :=
  {| schema_bundles := schema_bundles s; dedup := d; global_keys := global_keys s;
     canonical_events := canonical_events s; ingest_positions := ingest_positions s;
     ingest_shards := ingest_shards s; outcome_quarantine := outcome_quarantine s;
     signature_quarantine := signature_quarantine s |}.
Definition with_keys k (s : Db) : Db :=
  {| schema_bundles := schema_bundles s; dedup := dedup s; global_keys := k;
     canonical_events := canonical_events s; ingest_positions := ingest_positions s;
     ingest_shards := ingest_shards s; outcome_quarantine := outcome_quarantine s;
     signature_quarantine := signature_quarantine s |}.
Definition with_events e (s : Db) : Db :=
  {| schema_bundles := schema_bundles s; dedup := dedup s; global_keys := global_keys s;
     canonical_events := e; ingest_positions := ingest_positions s;
     ingest_shards := ingest_shards s; outcome_quarantine := outcome_quarantine s;
     signature_quarantine := signature_quarantine s |}.
Definition with_positions p (s : Db) : Db :=
  {| schema_bundles := schema_bundles s; dedup := dedup s; global_keys := global_keys s;
     canonical_events := canonical_events s; ingest_positions := p;
     ingest_shards := ingest_shards s; outcome_quarantine := outcome_quarantine s;
     signature_quarantine := signature_quarantine s |}.
Definition with_shards h (s : Db) : Db :=
  {| schema_bundles := schema_bundles s; dedup := dedup s; global_keys := global_keys s;
     canonical_events := canonical_events s; ingest_positions := ingest_positions s;
     ingest_shards := h; outcome_quarantine := outcome_quarantine s;
     signature_quarantine := signature_quarantine s |}.
Definition with_quarantine q (s : Db) : Db :=
  {| schema_bundles := schema_bundles s; dedup := dedup s; global_keys := global_keys s;
     canonical_events := canonical_events s; ingest_positions := ingest_positions s;
     ingest_shards := ingest_shards s; outcome_quarantine := q;
     signature_quarantine := signature_quarantine s |}.
Definition with_signatures l (s : Db) : Db :=
  {| schema_bundles := schema_bundles s; dedup := dedup s; global_keys := global_keys s;
     canonical_events := canonical_events s; ingest_positions := ingest_positions s;
     ingest_shards := ingest_shards s; outcome_quarantine := outcome_quarantine s;
     signature_quarantine := l |}.

(** A transaction, or a part of one: it fails, or changes the database. *)
Definition tx (A : Type) : Type := Db -> result DomainError (A * Db).

#[global] Instance tx_ret : MRet tx := fun A a s => Ok (a, s).
#[global] Instance tx_bind : MBind tx := fun A B f m s =>
  match m s with Ok (a, s) => f a s | Err e => Err e end.

Definition tx_lift {A} (r : result DomainError A) : tx A := fun s =>
  match r with Ok a => Ok (a, s) | Err e => Err e end.
Definition read_db {A} (f : Db -> A) : tx A := fun s => Ok (f s, s).
Definition write_db (f : Db -> Db) : tx unit := fun s => Ok (tt, f s).
(** A statement: what the database refuses is mapped by [map_pg_error]. *)
Definition sql {A} (f : Db -> result SqlError (A * Db)) : tx A := fun s =>
  match f s with Ok x => Ok x | Err e => Err (map_pg_error e) end.
(** The transaction began in [s0]; its changes are given up. *)
Definition rollback {A} (s0 : Db) (a : A) : tx A := fun _ => Ok (a, s0).

Definition violation {A} (code msg constraint : string) : result SqlError A :=
  Err (DatabaseError (Some code) msg (Some constraint)).

(** *** Statements *)

(** [canonical_event_replay_dedup]: insert unless the event id is claimed. *)
Definition insert_dedup (event_id : uuid) (row : DedupRow) : tx bool := sql (fun s =>
  if (slen (dd_producer_id row) <? 1) || (256 <? slen (dd_producer_id row))
  then violation "23514" "check" "canonical_event_replay_dedup_producer_id_check"
  else
    match dedup s !! event_id with
    | Some _ => Ok (false, s)
    | None => Ok (true, with_dedup (<[event_id := row]> (dedup s)) s)
    end).

(** [fetch_one] of the claim of an event id. *)
Definition select_dedup (event_id : uuid) : tx DedupRow := sql (fun s =>
  match dedup s !! event_id with
  | Some row => Ok (row, s)
  | None => Err (OtherSqlError "no rows returned by a query that expected to return at least one row")
  end).

Definition key_is (ty : string) (tenant decision : uuid) (k : GlobalKey) : bool :=
  (gk_event_type k =?s ty) && bool_decide (gk_tenant_id k = tenant)
  && bool_decide (gk_decision_id k = Some decision).

Definition has_key (ty : string) (tenant decision : uuid) (s : Db) : bool :=
  existsb (fun kv : uuid * GlobalKey => key_is ty tenant decision kv.2) (map_to_list (global_keys s)).

(** The trigger on [canonical_events_global_keys] and [canonical_events]. *)
Definition assert_audit_outcome_has_preceding_decision (ty : string) (tenant : uuid)
    (decision : option uuid) (s : Db) : result SqlError unit :=
  if negb (ty =?s AUDIT_OUTCOME) then Ok tt
  else
    match decision with
    | None => violation "23514" "audit.outcome event missing decision_id" EmptyString
    | Some d =>
        if has_key AUDIT_DECISION tenant d s then Ok tt
        else Err (DatabaseError (Some "P0002")
               ("AWAITING_PRECEDING_DECISION: audit.outcome for decision " +:+ uuid_str d +:+
                " has no audit.decision yet") None)
    end.

(** One decision, and one outcome, of each decision of a tenant. *)
Definition one_of (ty constraint : string) (k : GlobalKey) (s : Db) : result SqlError unit :=
  match gk_decision_id k with
  | Some d =>
      if (gk_event_type k =?s ty) && has_key ty (gk_tenant_id k) d s
      then violation "23505" "duplicate key value violates unique constraint" constraint
      else Ok tt
  | None => Ok tt
  end.

(** Insert unless the event id is taken; the trigger fires first. *)
Definition insert_global_key (event_id : uuid) (k : GlobalKey) : tx bool := sql (fun s =>
  _ ← assert_audit_outcome_has_preceding_decision (gk_event_type k) (gk_tenant_id k) (gk_decision_id k) s;
  match global_keys s !! event_id with
  | Some _ => Ok (false, s)
  | None =>
      _ ← one_of AUDIT_DECISION "canonical_global_one_decision_uq" k s;
      _ ← one_of AUDIT_OUTCOME "canonical_global_one_outcome_uq" k s;
      Ok (true, with_keys (<[event_id := k]> (global_keys s)) s)
  end).

(** [next_ingest_offset(region, shard)], a BIGINT. *)
Definition next_ingest_offset (region shard : string) : tx Z := sql (fun s =>
  let next := default 0 (ingest_shards s !! (region, shard)) + 1 in
  if i64_max <? next then Err (DatabaseError (Some "22003") "bigint out of range" None)
  else Ok (next, with_shards (<[(region, shard) := next]> (ingest_shards s)) s)).

(** The CHECK constraints on the columns of an event. *)
Context (event_checks quarantine_checks : StoredEvent -> bool).

Definition insert_canonical_event (r : CanonicalRow) : tx unit := sql (fun s =>
  let e := cr_event r in
  _ ← assert_audit_outcome_has_preceding_decision (se_event_type e) (se_tenant_id e) (se_decision_id e) s;
  if negb (event_checks e) then violation "23514" "check" "canonical_events_chk"
  else if existsb (fun r' => bool_decide (se_event_id (cr_event r') = se_event_id e)
                             && (month_of (se_event_time (cr_event r')) =? month_of (se_event_time e)))
            (canonical_events s)
  then violation "23505" "duplicate key value violates unique constraint" "canonical_events_pkey"
  else if bool_decide (schema_bundles s !! se_schema_bundle_id e = None)
  then violation "23503" "foreign key" "canonical_events_schema_bundle_id_fkey"
  else Ok (tt, with_events (r :: canonical_events s) s)).

Definition insert_position (region shard : string) (offset : Z) (event_id : uuid) (month : Z) : tx unit :=
  sql (fun s =>
    match ingest_positions s !! (region, shard, offset) with
    | Some _ => violation "23505" "duplicate key value violates unique constraint"
                  "canonical_ingest_positions_pkey"
    | None => Ok (tt, with_positions (<[(region, shard, offset) := (event_id, month)]>
                        (ingest_positions s)) s)
    end).

(** *** [append.rs] *)

Inductive AppendOutcome := Appended (ingest_log_offset : Z) | Deduped.
Inductive ReplayClaim := NewClaim | DuplicateSamePayload | DuplicateHashMismatch.

(** 24 hours. *)
Definition EVENT_REPLAY_WINDOW : Z := secs (24 * 3600).

Definition claim_replay_key (now : Z) (i : AppendInput) : tx ReplayClaim :=
  _ ← tx_lift (ensure (slen (ai_event_hash i) =? 32)
        (InvalidRequest ("event_hash must be 32 bytes, got " +:+ z_str (slen (ai_event_hash i)))));
  inserted ← insert_dedup (ai_event_id i)
    {| dd_producer_id := ai_producer_id i; dd_tenant_id := ai_tenant_id i;
       dd_payload_hash := ai_event_hash i; dd_reservation_only := false;
       dd_expires_at := if ai_event_type i =?s AUDIT_OUTCOME then None
                        else Some (now + EVENT_REPLAY_WINDOW) |};
  if (inserted : bool) then mret NewClaim
  else
    existing ← select_dedup (ai_event_id i);
    mret (if negb (dd_reservation_only existing) && (dd_producer_id existing =?s ai_producer_id i)
             && (dd_payload_hash existing =?s ai_event_hash i)
          then DuplicateSamePayload else DuplicateHashMismatch).

(** The four inserts that both [append_event] and a release make; [None] when the
    event id is taken. *)
Definition store_event (now : Z) (e : StoredEvent) : tx (option Z) :=
  let region := se_region_id e in
  let shard := se_ingest_shard_id e in
  let month := month_of (se_event_time e) in
  inserted ← insert_global_key (se_event_id e)
    {| gk_tenant_id := se_tenant_id e; gk_decision_id := se_decision_id e;
       gk_event_type := se_event_type e; gk_recorded_month := month |};
  if (inserted : bool) then
    offset ← next_ingest_offset region shard;
    _ ← insert_canonical_event {| cr_event := e; cr_ingest_log_offset := offset; cr_ingest_at := now |};
    _ ← insert_position region shard offset (se_event_id e) month;
    mret (Some offset)
  else mret None.

Definition hash_mismatch (i : AppendInput) : DomainError :=
  Duplicate ("CloudEvent replay hash mismatch or event_id collision for producer_id="
             +:+ ai_producer_id i +:+ " event_id=" +:+ uuid_str (ai_event_id i)).

Definition append_event (now : Z) (i : AppendInput) : tx AppendOutcome := fun s0 =>
  (claim ← claim_replay_key now i;
   match claim with
   | NewClaim =>
       stored ← store_event now (stored_of_input i);
       match stored with
       | Some offset => mret (Appended offset)
       | None => rollback s0 Deduped
       end
   | DuplicateSamePayload => rollback s0 Deduped
   | DuplicateHashMismatch => tx_lift (Err (hash_mismatch i))
   end) s0.

Definition quarantined_row (i : AppendInput) : QuarantinedRow :=
  {| qr_event_id := ai_event_id i; qr_storage_class := storage_class_str (ai_storage_class i);
     qr_producer_sequence := ai_producer_sequence i; qr_producer_signature := ai_producer_signature i;
     qr_signing_key_id := ai_signing_key_id i; qr_producer_id := ai_producer_id i;
     qr_event_type := ai_event_type i; qr_event_time := ai_event_time i; qr_source := ai_source i;
     qr_payload_json := Some (ai_payload_json i); qr_payload_blob_ref := ai_payload_blob_ref i;
     qr_run_id := ai_run_id i; qr_specversion := ai_specversion i;
     qr_schema_bundle_id := ai_schema_bundle_id i; qr_schema_bundle_hash := ai_schema_bundle_hash i;
     qr_datacontenttype := ai_datacontenttype i; qr_mirrors := ai_mirrors i;
     qr_prediction := ai_prediction i |}.

Definition awaiting_row (i : AppendInput) (decision_id : uuid) (orphan_after : Z) : OutcomeQuarantine :=
  {| oq_row := quarantined_row i; oq_tenant_id := ai_tenant_id i; oq_decision_id := decision_id;
     oq_region_id := ai_region_id i; oq_ingest_shard_id := ai_ingest_shard_id i;
     oq_orphan_after := orphan_after; oq_state := AwaitingDecision |}.

(** Insert unless the outcome is already there. *)
Definition insert_quarantine (q : OutcomeQuarantine) (checked : bool) : tx unit := sql (fun s =>
  if negb checked then violation "23514" "check" "audit_outcome_quarantine_chk"
  else
    match outcome_quarantine s !! qr_event_id (oq_row q) with
    | Some _ => Ok (tt, s)
    | None => Ok (tt, with_quarantine (<[qr_event_id (oq_row q) := q]> (outcome_quarantine s)) s)
    end).

Definition quarantine_audit_outcome (now : Z) (i : AppendInput) (orphan_after : Z) : tx unit := fun s0 =>
  (decision_id ← tx_lift (ok_or (ai_decision_id i) (InvalidRequest "audit.outcome missing decision_id"));
   claim ← claim_replay_key now i;
   match claim with
   | NewClaim =>
       insert_quarantine (awaiting_row i decision_id orphan_after) (quarantine_checks (stored_of_input i))
   | DuplicateSamePayload => rollback s0 tt
   | DuplicateHashMismatch => tx_lift (Err (hash_mismatch i))
   end) s0.

Definition storage_class_of_str (s : string) : option StorageClass :=
  if s =?s "immutable_audit_log" then Some ImmutableAuditLog
  else if s =?s "canonical_raw_log" then Some CanonicalRawLog
  else if s =?s "profile_payload_blob" then Some ProfilePayloadBlob
  else None.

Definition is_awaiting (q : OutcomeQuarantine) : bool :=
  match oq_state q with AwaitingDecision => true | _ => false end.

Definition awaiting (tenant decision : uuid) (q : OutcomeQuarantine) : bool :=
  bool_decide (oq_tenant_id q = tenant) && bool_decide (oq_decision_id q = decision)
  && is_awaiting q.

(** The row that a release stores. *)
Definition released_event (tenant decision : uuid) (region shard : string) (r : QuarantinedRow)
    : result DomainError StoredEvent :=
  storage_class ← ok_or (storage_class_of_str (qr_storage_class r))
    (Internal ("unknown storage_class in quarantine row: " +:+ qr_storage_class r));
  let payload_json := default JNull (qr_payload_json r) in
  let failure_class :=
    failure_class_str <$> classify_audit_outcome (qr_event_type r) (decode_payload_data payload_json) in
  mret {| se_event_id := qr_event_id r; se_tenant_id := tenant; se_decision_id := Some decision;
          se_run_id := qr_run_id r; se_event_type := qr_event_type r;
          se_storage_class := storage_class_str storage_class;
          se_producer_id := qr_producer_id r; se_producer_sequence := qr_producer_sequence r;
          se_producer_signature := qr_producer_signature r; se_signing_key_id := qr_signing_key_id r;
          se_schema_bundle_id := qr_schema_bundle_id r; se_schema_bundle_hash := qr_schema_bundle_hash r;
          se_specversion := qr_specversion r; se_source := qr_source r; se_event_time := qr_event_time r;
          se_datacontenttype := qr_datacontenttype r; se_payload_json := payload_json;
          se_payload_blob_ref := qr_payload_blob_ref r; se_region_id := region;
          se_ingest_shard_id := shard; se_failure_class := failure_class;
          se_mirrors := qr_mirrors r; se_prediction := qr_prediction r |}.

Definition release_duplicate (event_id : uuid) : DomainError :=
  Duplicate ("quarantined audit outcome event_id=" +:+ uuid_str event_id +:+
             " already exists in canonical_events_global_keys; refusing release").

(** The update of the state of a quarantined outcome; the states after are final. *)
Definition mark_released (event_id : uuid) : tx unit := sql (fun s =>
  match outcome_quarantine s !! event_id with
  | None => Ok (tt, s)
  | Some q =>
      match oq_state q with
      | AwaitingDecision =>
          Ok (tt, with_quarantine (<[event_id := {| oq_row := oq_row q; oq_tenant_id := oq_tenant_id q;
                    oq_decision_id := oq_decision_id q; oq_region_id := oq_region_id q;
                    oq_ingest_shard_id := oq_ingest_shard_id q; oq_orphan_after := oq_orphan_after q;
                    oq_state := Released event_id |}]> (outcome_quarantine s)) s)
      | _ => Err (DatabaseError (Some "42P10") "audit_outcome_quarantine state is terminal" None)
      end
  end).

Fixpoint release_rows (now : Z) (tenant decision : uuid) (region shard : string)
    (rows : list QuarantinedRow) (released : nat) : tx nat :=
  match rows with
  | [] => mret released
  | r :: rows =>
      e ← tx_lift (released_event tenant decision region shard r);
      stored ← store_event now e;
      match stored with
      | None => tx_lift (Err (release_duplicate (qr_event_id r)))
      | Some _ =>
          _ ← mark_released (qr_event_id r);
          release_rows now tenant decision region shard rows (S released)
      end
  end.

(** [rows]: the awaiting outcomes, in any order, less those another release has
    locked. *)
Definition release_quarantined_outcomes (now : Z) (rows : list QuarantinedRow) (tenant decision : uuid)
    (region shard : string) : tx nat :=
  release_rows now tenant decision region shard rows O.

Definition releasable (tenant decision : uuid) (s : Db) (rows : list QuarantinedRow) : Prop :=
  NoDup (qr_event_id <$> rows) /\
  Forall (fun r => exists q, outcome_quarantine s !! qr_event_id r = Some q /\ oq_row q = r /\
                             awaiting tenant decision q = true) rows.

Definition has_preceding_decision (tenant decision : uuid) : tx bool :=
  read_db (has_key AUDIT_DECISION tenant decision).

(** *** [signature_quarantine.rs], [schema_bundle.rs], [query.rs] *)

Definition signing_algorithm_of (key_id : string) : string :=
  if starts_with "ed25519:" key_id then "ed25519"
  else if starts_with "arn:aws:kms:" key_id || starts_with "kms-" key_id then "kms-ed25519"
  else if starts_with "disabled:" key_id then "disabled"
  else "pre-S6".

Definition quarantine_reasons : list string :=
  ["unknown_key"; "invalid_signature"; "pre_s6"; "disabled"; "oversized_canonical"; "schema_failure";
   "key_expired"; "key_not_yet_valid"; "key_revoked"].

Definition QUARANTINE_CANONICAL_CAP : Z := 1048576.

Definition insert_with_truncation (evt : WireEvent) (bytes reason : string)
    (truncation : option TruncationNote) : tx unit := fun s =>
  if negb (bool_decide (reason ∈ quarantine_reasons)) || (QUARANTINE_CANONICAL_CAP <? slen bytes)
  then Err (Internal "audit_signature_quarantine insert: check")
  else Ok (tt, with_signatures
         ({| sq_claimed := evt; sq_claimed_canonical_bytes := bytes;
             sq_claimed_signing_algorithm := signing_algorithm_of (ce_signing_key_id evt);
             sq_reason := reason; sq_truncation := truncation |} :: signature_quarantine s) s).

Record CachedBundle := { cb_schema_bundle_id : uuid; cb_schema_bundle_hash : string }.

Definition bytes_of (l : list Z) : string :=
  String.string_of_list_ascii (List.map (fun z => Ascii.ascii_of_nat (Z.to_nat z)) l).

Definition ROUND2_PLACEHOLDER_BUNDLE_HASH : string := bytes_of
  [0xe9; 0x22; 0x91; 0x88; 0x45; 0x8e; 0xd1; 0x2e; 0xb4; 0x97; 0x96; 0xcb; 0x23; 0x42; 0x20; 0x80;
   0xb9; 0xb6; 0x8d; 0xdf; 0x57; 0x1f; 0xc7; 0xae; 0x7d; 0xb7; 0x9b; 0xcc; 0x3b; 0xe1; 0x75; 0x76].

Definition lookup_bundle (bundle_id : uuid) (expected_hash : string) : tx (option CachedBundle) := fun s =>
  match schema_bundles s !! bundle_id with
  | None => Ok (None, s)
  | Some hash =>
      if hash =?s ROUND2_PLACEHOLDER_BUNDLE_HASH
      then Err (SchemaBundleHashMismatch ("id=" +:+ uuid_str bundle_id +:+
             ", refusing deprecated round-2 placeholder bundle (sha256 of " +:+
             quoted "spendguard.v1alpha1+prediction" +:+
             "); SLICE_06 producer slice must register a cosigned bundle row before any producer writes tag-300+ fields"))
      else if hash =?s expected_hash
      then Ok (Some {| cb_schema_bundle_id := bundle_id; cb_schema_bundle_hash := hash |}, s)
      else Err (SchemaBundleHashMismatch ("id=" +:+ uuid_str bundle_id +:+ ", expected=" +:+
             hex_encode expected_hash +:+ ", got=" +:+ hex_encode hash))
  end.

Definition approximate_backpressure_depth : tx Z := read_db (fun s =>
  Z.of_nat (size (filter (fun kv : uuid * OutcomeQuarantine => is_awaiting kv.2 = true)
                    (outcome_quarantine s)))).

(** ** The handler *)

Record Config := {
  cf_region : string;
  cf_ingest_shard_id : string;
  cf_orphan_after_seconds : Z;
  cf_backpressure_threshold : Z;
  cf_strict_signatures : bool;
  cf_require_producer_spiffe_san : bool;
}.

Inductive Route := RouteUnspecified | Enforcement | Observability.

(** [EventResult.Status]. *)
Inductive EventStatus :=
  | ES_Unspecified | ES_Appended | ES_Deduped | ES_AwaitingPrecedingDecision | ES_Quarantined
  | ES_OrphanOutcome | ES_Duplicate | ES_Backpressure | ES_SignatureInvalid.

Record IngestPosition := { ip_region_id : string; ip_ingest_shard_id : string; ip_ingest_log_offset : Z }.

Record EventResult := {
  er_event_id : string;
  er_status : EventStatus;
  er_ingest_position : option IngestPosition;
  er_error : option (Code * string);
}.

Record SchemaBundleRef := { sb_schema_bundle_id : string; sb_schema_bundle_hash : string }.

Record AppendEventsRequest := {
  ae_producer_id : string;
  ae_schema_bundle : option SchemaBundleRef;
  ae_events : list WireEvent;
  ae_route : Route;
}.

(** A transaction or a query is one effect; so is a reading of the clock. *)
Inductive ingestE : Type -> Type :=
  | LookupBundle (id : uuid) (hash : string) : ingestE (result DomainError (option CachedBundle))
  | BackpressureDepth : ingestE (result DomainError Z)
  | HasPrecedingDecision (tenant decision : uuid) : ingestE (result DomainError bool)
  | AppendEvent (i : AppendInput) : ingestE (result DomainError AppendOutcome)
  | QuarantineOutcome (i : AppendInput) (orphan_after : Z) : ingestE (result DomainError unit)
  | ReleaseQuarantined (tenant decision : uuid) (region shard : string) : ingestE (result DomainError nat)
  | QuarantineSignature (evt : WireEvent) (bytes reason : string) (truncation : option TruncationNote)
      : ingestE (result DomainError unit)
  | IngestNow : ingestE Z.

(** The handling of one event: [return] is a failure of the monad. *)
Abbreviation event_handler A := (M ingestE EventResult A).

Definition error_result (event_id : string) (status : EventStatus) (err : DomainError) : EventResult :=
  {| er_event_id := event_id; er_status := status; er_ingest_position := None;
     er_error := Some (CODE_UNSPECIFIED, error_message err) |}.

Definition plain_result (event_id : string) (status : EventStatus) : EventResult :=
  {| er_event_id := event_id; er_status := status; er_ingest_position := None; er_error := None |}.

Definition validate_envelope (evt : WireEvent) : result DomainError unit :=
  _ ← ensure (ce_specversion evt =?s "1.0")
        (InvalidRequest ("specversion must be '1.0', got '" +:+ ce_specversion evt +:+ "'"));
  _ ← ensure (negb (is_empty (ce_type evt))) (InvalidRequest "type required");
  _ ← ensure (negb (is_empty (ce_id evt))) (InvalidRequest "id required");
  _ ← ensure (negb (is_empty (ce_tenant_id evt))) (InvalidRequest "tenant_id required");
  _ ← ensure (negb (is_empty (ce_producer_id evt))) (InvalidRequest "producer_id required");
  ensure (negb (((ce_type evt =?s AUDIT_DECISION) || (ce_type evt =?s AUDIT_OUTCOME))
                && is_empty (ce_decision_id evt)))
    (InvalidRequest (ce_type evt +:+ " requires non-empty decision_id")).

Definition parse_uuid (s field : string) : result DomainError uuid :=
  ok_or (uuid_parse s) (InvalidRequest (field +:+ ": invalid UUID")).

Definition parse_optional_uuid (s field : string) : result DomainError (option uuid) :=
  if is_empty s then Ok None else Some <$> parse_uuid s field.

Record EventIds := {
  ei_event_id : uuid;
  ei_tenant_id : uuid;
  ei_decision_id : option uuid;
  ei_run_id : option uuid;
}.

(** What [process_one] checks before the signature. *)
Definition checked_event (evt : WireEvent) (bundle : CachedBundle) : result DomainError EventIds :=
  _ ← validate_envelope evt;
  event_id ← parse_uuid (ce_id evt) "event_id";
  tenant_id ← parse_uuid (ce_tenant_id evt) "tenant_id";
  decision_id ← parse_optional_uuid (ce_decision_id evt) "decision_id";
  run_id ← parse_optional_uuid (ce_run_id evt) "run_id";
  let batch_bundle := uuid_str (cb_schema_bundle_id bundle) in
  _ ← ensure (is_empty (ce_schema_bundle_id evt) || (ce_schema_bundle_id evt =?s batch_bundle))
        (InvalidRequest ("event.schema_bundle_id (" +:+ ce_schema_bundle_id evt +:+
           ") != batch.schema_bundle_id (" +:+ batch_bundle +:+ ")"));
  _ ← ensure ((0 <=? ce_producer_sequence evt) && (ce_producer_sequence evt <=? i64_max))
        (InvalidRequest ("producer_sequence " +:+ z_str (ce_producer_sequence evt) +:+ " overflows i64"));
  mret {| ei_event_id := event_id; ei_tenant_id := tenant_id; ei_decision_id := decision_id;
          ei_run_id := run_id |}.

(** [write_quarantine]: the status claims the record only if it was written. *)
Definition write_quarantine (evt : WireEvent) (reason : string) : prog ingestE EventResult :=
  let canonical := canonical_bytes evt in
  let '(stored_bytes, truncation) :=
    if QUARANTINE_CANONICAL_CAP <? slen canonical
    then (String.substring 0 (Z.to_nat QUARANTINE_CANONICAL_CAP) canonical,
          Some {| tn_original_len := slen canonical;
                  tn_original_sha256_hex := hex_encode (sha256 canonical) |})
    else (canonical, None) in
  Vis (QuarantineSignature evt stored_bytes reason truncation) (fun r =>
    match r with
    | Err _ =>
        Ret (error_result (ce_id evt) ES_Unspecified
               (Internal ("quarantine write failed (" +:+ reason +:+
                          "); event NOT durably recorded, retry pending")))
    | Ok _ =>
        Ret (error_result (ce_id evt) ES_Quarantined
               (InvalidRequest ("signature verification failed (" +:+ reason +:+ ")")))
    end).

(** Failures that only the strict mode refuses. *)
Definition strict_only (f : VerifyFailure) : bool :=
  match f with PreS6 | Disabled | UnknownKey | InvalidSignature => true | _ => false end.

Definition verify_or_handle (cfg : Config) (verifier : option Verifier) (evt : WireEvent)
    : prog ingestE (option EventResult) :=
  match verifier with
  | None => Ret None
  | Some v =>
      match verify_cloudevent v evt with
      | Ok _ => Ret None
      | Err f =>
          if strict_only f && negb (cf_strict_signatures cfg) then Ret None
          else pbind (write_quarantine evt (verify_failure_str f)) (fun r => Ret (Some r))
      end
  end.

Definition event_time_of (evt : WireEvent) : result DomainError Z :=
  match ce_time evt with
  | None => Err (InvalidRequest "event_time required")
  | Some t =>
      _ ← ensure ((0 <=? nanos t) && (nanos t <? 1000000000))
            (InvalidRequest ("event_time.nanos " +:+ z_str (nanos t) +:+ " out of [0, 1_000_000_000)"));
      ok_or (from_timestamp (seconds t) (nanos t))
        (InvalidRequest ("event_time seconds " +:+ z_str (seconds t) +:+ " out of range"))
  end.

(** The row an event becomes. *)
Definition append_input (cfg : Config) (evt : WireEvent) (bundle : CachedBundle)
    (event_id tenant_id : uuid) (decision_id run_id : option uuid) (producer_sequence event_time : Z)
    : AppendInput :=
  let payload_json := cloudevent_to_json evt in
  let decoded_data := decode_payload_data payload_json in
  {| ai_event_id := event_id; ai_tenant_id := tenant_id; ai_decision_id := decision_id;
     ai_run_id := run_id; ai_event_type := ce_type evt; ai_storage_class := classify (ce_type evt);
     ai_producer_id := ce_producer_id evt; ai_producer_sequence := producer_sequence;
     ai_producer_signature := ce_producer_signature evt; ai_signing_key_id := ce_signing_key_id evt;
     ai_event_hash := sha256 (canonical_bytes evt);
     ai_schema_bundle_id := cb_schema_bundle_id bundle;
     ai_schema_bundle_hash := cb_schema_bundle_hash bundle;
     ai_specversion := ce_specversion evt; ai_source := ce_source evt; ai_event_time := event_time;
     ai_datacontenttype := ce_datacontenttype evt; ai_payload_json := payload_json;
     ai_payload_blob_ref := None; ai_region_id := cf_region cfg;
     ai_ingest_shard_id := cf_ingest_shard_id cfg;
     ai_failure_class := failure_class_str <$> classify_audit_outcome (ce_type evt) decoded_data;
     ai_mirrors := aggregator_mirrors_from_event evt decoded_data run_id;
     ai_prediction := prediction_columns_from_event evt |}.

(** Put an outcome aside and answer that it awaits its decision. *)
Definition set_aside (cfg : Config) (evt : WireEvent) (i : AppendInput) : event_handler EventResult :=
  let refuse e := error_result (ce_id evt) ES_Quarantined e in
  now ← act IngestNow;
  r ← act (QuarantineOutcome i (now + secs (i64_wrap (cf_orphan_after_seconds cfg))));
  match r with
  | Err e => fail (refuse e)
  | Ok _ => mret (plain_result (ce_id evt) ES_AwaitingPrecedingDecision)
  end.

(** The rest of [process_one]: the row is ready. *)
Definition append_or_quarantine (cfg : Config) (evt : WireEvent) (i : AppendInput)
    : event_handler EventResult :=
  let refuse e := error_result (ce_id evt) ES_Quarantined e in
  preceded ← (if ce_type evt =?s AUDIT_OUTCOME then
                d ← lift (ok_or (ai_decision_id i)
                            (refuse (InvalidRequest "audit.outcome missing decision_id")));
                r ← act (HasPrecedingDecision (ai_tenant_id i) d);
                match r with Ok b => mret b | Err e => fail (refuse e) end
              else mret true);
  if (preceded : bool) then
    r ← act (AppendEvent i);
    match r with
    | Ok (Appended offset) =>
        _ ← (if ce_type evt =?s AUDIT_DECISION then
               match ai_decision_id i with
               | Some d =>
                   _ ← act (ReleaseQuarantined (ai_tenant_id i) d (cf_region cfg) (cf_ingest_shard_id cfg));
                   mret tt
               | None => mret tt
               end
             else mret tt);
        mret {| er_event_id := ce_id evt; er_status := ES_Appended;
                er_ingest_position := Some {| ip_region_id := cf_region cfg;
                                              ip_ingest_shard_id := cf_ingest_shard_id cfg;
                                              ip_ingest_log_offset := u64_wrap offset |};
                er_error := None |}
    | Ok Deduped => mret (plain_result (ce_id evt) ES_Deduped)
    | Err (Duplicate msg) =>
        mret {| er_event_id := ce_id evt; er_status := ES_Duplicate; er_ingest_position := None;
                er_error := Some (DUPLICATE_DECISION_EVENT, msg) |}
    | Err (AwaitingPrecedingDecision _) => set_aside cfg evt i
    | Err e => fail (refuse e)
    end
  else set_aside cfg evt i.

Definition process_one_inner (cfg : Config) (verifier : option Verifier) (evt : WireEvent)
    (bundle : CachedBundle) (route : Route) (backpressure_active : bool) : event_handler EventResult :=
  let refuse e := error_result (ce_id evt) ES_Quarantined e in
  let check {A} (r : result DomainError A) : event_handler A :=
    lift (match r with Ok a => Ok a | Err e => Err (refuse e) end) in
  ids ← check (checked_event evt bundle);
  early ← (pbind (verify_or_handle cfg verifier evt) (fun r => Ret (Ok r)) : event_handler _);
  match early with
  | Some early => fail early
  | None =>
      if backpressure_active && match route with Enforcement => true | _ => false end then
        fail {| er_event_id := ce_id evt; er_status := ES_Backpressure; er_ingest_position := None;
                er_error := Some (CODE_UNSPECIFIED, "ingest backpressure on enforcement route") |}
      else
        event_time ← check (event_time_of evt);
        append_or_quarantine cfg evt
          (append_input cfg evt bundle (ei_event_id ids) (ei_tenant_id ids) (ei_decision_id ids)
             (ei_run_id ids) (ce_producer_sequence evt) event_time)
  end.

Definition answer_of (r : result EventResult EventResult) : EventResult :=
  match r with Ok x => x | Err x => x end.

Definition process_one cfg verifier evt bundle route backpressure_active : prog ingestE EventResult :=
  pbind (process_one_inner cfg verifier evt bundle route backpressure_active)
    (fun r => Ret (answer_of r)).

Fixpoint process_all cfg verifier bundle route backpressure_active (evts : list WireEvent)
    : prog ingestE (list EventResult) :=
  match evts with
  | [] => Ret []
  | evt :: evts =>
      pbind (process_one cfg verifier evt bundle route backpressure_active) (fun r =>
      pbind (process_all cfg verifier bundle route backpressure_active evts) (fun rs => Ret (r :: rs)))
  end.

Definition status_error (code msg : string) : Status := {| st_code := code; st_message := msg |}.

Definition binding_message (e : BindingError) : string :=
  match e with
  | NoPeerCert => "no client certificate presented on mTLS connection"
  | UnparseableCert m => "client certificate could not be parsed: " +:+ m
  | NoSpiffeSan => "client certificate has no `" +:+ AUDIT_PRODUCER_SVID_PREFIX +:+ "*` SPIFFE URI SAN"
  | ProducerMismatch expected found =>
      "client certificate identity `" +:+ found +:+
      "` does not match declared producer_id (expected SAN `" +:+ expected +:+ "`)"
  end.

(** The AppendEvents RPC. *)
Definition handle (cfg : Config) (verifier : option Verifier) (req : AppendEventsRequest)
    (peer_leaf_der : option string) : M ingestE Status (list EventResult) :=
  _ ← lift (ensure (negb (is_empty (ae_producer_id req)))
              (status_error "invalid_argument" "producer_id required"));
  _ ← lift (ensure (negb (bool_decide (ae_events req = [])))
              (status_error "invalid_argument" "events must not be empty"));
  _ ← lift (if cf_require_producer_spiffe_san cfg then
              _ ← (match assert_producer_binding peer_leaf_der (ae_producer_id req) with
                   | Ok _ => Ok tt
                   | Err e => Err (status_error "unauthenticated" (binding_message e))
                   end);
              ensure (forallb (fun evt => ce_producer_id evt =?s ae_producer_id req) (ae_events req))
                (status_error "unauthenticated"
                   "event producer_id does not match authenticated batch producer_id")
            else Ok tt);
  bundle_ref ← lift (ok_or (ae_schema_bundle req)
                       (status_error "invalid_argument" "schema_bundle required"));
  _ ← lift (ensure (match ae_route req with RouteUnspecified => false | _ => true end)
              (status_error "invalid_argument"
                 "route is unspecified; clients MUST set ENFORCEMENT or OBSERVABILITY"));
  bundle_id ← lift (match parse_uuid (sb_schema_bundle_id bundle_ref) "schema_bundle.schema_bundle_id" with
                    | Ok id => Ok id
                    | Err e => Err (to_status e)
                    end);
  found ← act (LookupBundle bundle_id (sb_schema_bundle_hash bundle_ref));
  bundle ← lift (match found with
                 | Ok (Some b) => Ok b
                 | Ok None => Err (to_status (SchemaBundleUnknown (uuid_str bundle_id)))
                 | Err e => Err (to_status e)
                 end);
  _ ← lift (ensure (negb (cf_strict_signatures cfg && bool_decide (verifier = None)))
              (status_error "failed_precondition"
                 ("strict_signatures=true but no trust store configured; " +:+
                  "set SPENDGUARD_CANONICAL_INGEST_TRUST_STORE_DIR or flip " +:+
                  "strict_signatures=false")));
  depth ← act BackpressureDepth;
  let depth := match depth with Ok d => u64_wrap d | Err _ => 0 end in
  let backpressure_active := cf_backpressure_threshold cfg <? depth in
  pbind (process_all cfg verifier bundle (ae_route req) backpressure_active (ae_events req))
    (fun rs => Ret (Ok rs)).

(** ** What the effects do *)

(** A transaction that an outage may cut off, before or after it committed. *)
Definition runs {A} (t : tx A) (s : Db) (x : result DomainError A) (s' : Db) : Prop :=
  match t s with
  | Ok (a, s1) => (x = Ok a /\ s' = s1) \/ (exists e, x = Err (DbError e) /\ (s' = s \/ s' = s1))
  | Err e => (x = Err e \/ exists e', x = Err (DbError e')) /\ s' = s
  end.

Definition handle_ingest (X : Type) (e : ingestE X) (s : Db) : X -> Db -> Prop :=
  match e in ingestE X return X -> Db -> Prop with
  | LookupBundle id hash => runs (lookup_bundle id hash) s
  | BackpressureDepth => runs approximate_backpressure_depth s
  | HasPrecedingDecision t d => runs (has_preceding_decision t d) s
  | AppendEvent i => fun x s' => exists now, runs (append_event now i) s x s'
  | QuarantineOutcome i orphan_after => fun x s' =>
      exists now, runs (quarantine_audit_outcome now i orphan_after) s x s'
  | ReleaseQuarantined t d region shard => fun x s' => exists now rows,
      releasable t d s rows /\ runs (release_quarantined_outcomes now rows t d region shard) s x s'
  | QuarantineSignature evt bytes reason truncation =>
      runs (insert_with_truncation evt bytes reason truncation) s
  | IngestNow => fun _ s' => s' = s
  end.

(** The rest of the world: schema bundles are registered, expired claims are
    reaped, overdue outcomes may be marked as orphans. *)
Definition other (s s' : Db) : Prop :=
  (exists id hash, schema_bundles s !! id = None /\
     s' = {| schema_bundles := <[id := hash]> (schema_bundles s); dedup := dedup s;
             global_keys := global_keys s; canonical_events := canonical_events s;
             ingest_positions := ingest_positions s; ingest_shards := ingest_shards s;
             outcome_quarantine := outcome_quarantine s;
             signature_quarantine := signature_quarantine s |}) \/
  (exists id row t, dedup s !! id = Some row /\ dd_reservation_only row = false /\
     dd_expires_at row = Some t /\ s' = with_dedup (delete id (dedup s)) s) \/
  (exists id q, outcome_quarantine s !! id = Some q /\ oq_state q = AwaitingDecision /\
     s' = with_quarantine (<[id := {| oq_row := oq_row q; oq_tenant_id := oq_tenant_id q;
            oq_decision_id := oq_decision_id q; oq_region_id := oq_region_id q;
            oq_ingest_shard_id := oq_ingest_shard_id q; oq_orphan_after := oq_orphan_after q;
            oq_state := Orphaned |}]> (outcome_quarantine s)) s).

End Ingest.
