(* ===== verification/Chain.v ===== *)
(** * The integrity of the audit chain

    What the transactions of [Ingest] keep true of the database, whatever events
    are sent by whomever, in every interleaving and with outages, and what the
    answers to a producer promise. *)

From S2P Require Import Prelude Floats Deps Effects Proto Signing Canonical Ingest.

Section Chain.
Context `{HU : UuidLib} `{HC : CryptoLib} `{HJ : JsonLib} `{HB : Base64Lib} `{HW : WireLib}
        `{HT : ChronoLib} `{HX : X509Lib} `{HH : !HexLib}.
Context (month_of : Z -> Z) (event_checks quarantine_checks : StoredEvent -> bool).

(** ** The chain as a list of rows

    Every table but the quarantines is a function of the rows of
    [canonical_events], newest first. *)

Definition is_for (ty : string) (tenant decision : uuid) (r : CanonicalRow) : Prop :=
  se_event_type (cr_event r) = ty /\ se_tenant_id (cr_event r) = tenant /\
  se_decision_id (cr_event r) = Some decision.

Definition key_of (e : StoredEvent) : GlobalKey :=
  {| gk_tenant_id := se_tenant_id e; gk_decision_id := se_decision_id e;
     gk_event_type := se_event_type e; gk_recorded_month := month_of (se_event_time e) |}.

Definition shard_of (e : StoredEvent) : string * string := (se_region_id e, se_ingest_shard_id e).

Definition keys_of (rows : list CanonicalRow) : gmap uuid GlobalKey :=
  foldr (fun r m => <[se_event_id (cr_event r) := key_of (cr_event r)]> m) ∅ rows.

Definition positions_of (rows : list CanonicalRow) : gmap (string * string * Z) (uuid * Z) :=
  foldr (fun r m => <[(shard_of (cr_event r), cr_ingest_log_offset r) :=
                        (se_event_id (cr_event r), month_of (se_event_time (cr_event r)))]> m) ∅ rows.

(** The number of rows of a shard. *)
Definition count (sh : string * string) (rows : list CanonicalRow) : Z :=
  Z.of_nat (length (filter (fun r => shard_of (cr_event r) = sh) rows)).

(** Offsets have no gaps: each is the number of its row in its shard. *)
Fixpoint numbered (rows : list CanonicalRow) : Prop :=
  match rows with
  | [] => True
  | r :: older => cr_ingest_log_offset r = count (shard_of (cr_event r)) older + 1 /\ numbered older
  end.

(** An outcome comes after the decision it belongs to, and a decision of a tenant
    has one event and one outcome. *)
Definition may_follow (e : StoredEvent) (older : list CanonicalRow) : Prop :=
  (se_event_type e = AUDIT_OUTCOME ->
     exists d, se_decision_id e = Some d /\ Exists (is_for AUDIT_DECISION (se_tenant_id e) d) older) /\
  (forall d, se_decision_id e = Some d -> se_event_type e = AUDIT_DECISION \/ se_event_type e = AUDIT_OUTCOME ->
     ~ Exists (is_for (se_event_type e) (se_tenant_id e) d) older).

Fixpoint ordered (rows : list CanonicalRow) : Prop :=
  match rows with
  | [] => True
  | r :: older => may_follow (cr_event r) older /\ ordered older
  end.

Record rows_inv (s : Db) : Prop := {
  ri_ids : NoDup ((fun r => se_event_id (cr_event r)) <$> canonical_events s);
  ri_keys : global_keys s = keys_of (canonical_events s);
  ri_positions : ingest_positions s = positions_of (canonical_events s);
  ri_shards : forall sh, default 0 (ingest_shards s !! sh) = count sh (canonical_events s);
  ri_numbered : numbered (canonical_events s);
  ri_ordered : ordered (canonical_events s);
}.

Lemma lookup_keys rows id k :
  NoDup ((fun r => se_event_id (cr_event r)) <$> rows) ->
  keys_of rows !! id = Some k <->
  exists r, r ∈ rows /\ se_event_id (cr_event r) = id /\ key_of (cr_event r) = k.
Proof.
  induction rows as [|r rows IH]; intros Hnd; [split; [done|]; by intros (? & ?%elem_of_nil & _)|].
  rewrite fmap_cons, NoDup_cons in Hnd. destruct Hnd as [Hno Hnd]. specialize (IH Hnd). cbn.
  rewrite lookup_insert_Some, IH. split.
  - intros [[? ?]|[Hne (r' & Hr' & ? & ?)]]; [exists r; split; [by left|done]|].
    exists r'. split; [by right|done].
  - intros (r' & [->|Hr']%elem_of_cons & <- & <-); [by left|]. right. split; [|by exists r'].
    intros Heq. apply Hno. rewrite Heq. apply list_elem_of_fmap. by exists r'.
Qed.

Lemma has_key_rows ty t d s :
  rows_inv s -> has_key ty t d s = true <-> Exists (is_for ty t d) (canonical_events s).
Proof.
  intros HI. unfold has_key. rewrite existsb_exists, Exists_exists. split.
  - intros ([id k] & Hin & Hk). apply list_elem_of_In, elem_of_map_to_list in Hin. cbn in Hk.
    rewrite (ri_keys _ HI) in Hin. apply lookup_keys in Hin as (r & Hr & _ & <-); [|apply HI].
    exists r. split; [done|]. unfold key_is, key_of in Hk. cbn in Hk.
    apply andb_true_iff in Hk as [[Hty Ht]%andb_true_iff Hd]. apply String.eqb_eq in Hty.
    apply bool_decide_eq_true in Ht, Hd. done.
  - intros (r & Hr & Hty & Ht & Hd). exists (se_event_id (cr_event r), key_of (cr_event r)).
    split.
    + apply list_elem_of_In, elem_of_map_to_list. rewrite (ri_keys _ HI).
      apply lookup_keys; [apply HI|]. by exists r.
    + unfold key_is, key_of. cbn. rewrite Hty, Ht, Hd, String.eqb_refl, !bool_decide_true by done. done.
Qed.

(** ** What a transaction did *)

Lemma tx_bind_ok {A B} (m : tx A) (f : A -> tx B) s x :
  (m ≫= f) s = Ok x <-> exists a s1, m s = Ok (a, s1) /\ f a s1 = Ok x.
Proof.
  unfold mbind, tx_bind. destruct (m s) as [[a s1]|e]; split; try done.
  - intros ?. by exists a, s1.
  - intros (a' & s1' & [= <- <-] & ?). done.
  - by intros (? & ? & ? & _).
Qed.

Lemma sql_ok {A} (f : Db -> result SqlError (A * Db)) s x : sql f s = Ok x <-> f s = Ok x.
Proof. unfold sql. destruct (f s); split; try done; by intros [= ->]. Qed.

Lemma tx_lift_ok {A} (r : result DomainError A) s a s' :
  tx_lift r s = Ok (a, s') <-> r = Ok a /\ s' = s.
Proof. unfold tx_lift. destruct r; split; naive_solver. Qed.

(** Taking apart a transaction that succeeded. *)
Ltac tx_inv :=
  repeat match goal with
  | H : (_ ≫= _) _ = Ok _ |- _ =>
      let a := fresh "a" in let s := fresh "s" in let H1 := fresh "H" in
      apply tx_bind_ok in H as (a & s & H1 & H)
  | H : sql _ _ = Ok _ |- _ => apply sql_ok in H; cbv beta in H
  | H : tx_lift _ _ = Ok _ |- _ => apply tx_lift_ok in H as [H ->]
  | H : mret _ _ = Ok _ |- _ => injection H as ? ?; subst
  end.

(** The database after the four inserts. *)
Definition stored (now offset : Z) (e : StoredEvent) (s : Db) : Db :=
  {| schema_bundles := schema_bundles s; dedup := dedup s;
     global_keys := <[se_event_id e := key_of e]> (global_keys s);
     canonical_events := {| cr_event := e; cr_ingest_log_offset := offset; cr_ingest_at := now |}
                           :: canonical_events s;
     ingest_positions := <[(shard_of e, offset) := (se_event_id e, month_of (se_event_time e))]>
                           (ingest_positions s);
     ingest_shards := <[shard_of e := offset]> (ingest_shards s);
     outcome_quarantine := outcome_quarantine s; signature_quarantine := signature_quarantine s |}.

(** The order of the chain, as the keys and the trigger check it. *)
Definition fits (e : StoredEvent) (s : Db) : Prop :=
  (se_event_type e = AUDIT_OUTCOME ->
     exists d, se_decision_id e = Some d /\ has_key AUDIT_DECISION (se_tenant_id e) d s = true) /\
  (forall d, se_decision_id e = Some d -> se_event_type e = AUDIT_DECISION \/ se_event_type e = AUDIT_OUTCOME ->
     has_key (se_event_type e) (se_tenant_id e) d s = false).

Lemma assert_ok ty t dec s u :
  assert_audit_outcome_has_preceding_decision ty t dec s = Ok u ->
  ty = AUDIT_OUTCOME -> exists d, dec = Some d /\ has_key AUDIT_DECISION t d s = true.
Proof.
  unfold assert_audit_outcome_has_preceding_decision. intros H ->. cbn in H.
  destruct dec as [d|]; [|done]. destruct (has_key _ _ _ _) eqn:Hk; [|done]. by exists d.
Qed.

Lemma one_of_ok ty c k s u :
  one_of ty c k s = Ok u ->
  forall d, gk_decision_id k = Some d -> gk_event_type k = ty -> has_key ty (gk_tenant_id k) d s = false.
Proof.
  unfold one_of. intros H d Hd Hty. rewrite Hd, Hty, String.eqb_refl in H. cbn in H. by destruct (has_key _ _ _ _).
Qed.

Lemma insert_global_key_spec e s b s' :
  insert_global_key (se_event_id e) (key_of e) s = Ok (b, s') ->
  if b then global_keys s !! se_event_id e = None /\ fits e s /\
            s' = with_keys (<[se_event_id e := key_of e]> (global_keys s)) s
  else s' = s /\ is_Some (global_keys s !! se_event_id e).
Proof.
  unfold insert_global_key. intros H. tx_inv. apply result_bind_ok in H as (u1 & H1 & H).
  destruct (global_keys s !! se_event_id e) as [k|]; [by simplify_eq|].
  apply result_bind_ok in H as (u2 & H2 & H). apply result_bind_ok in H as (u3 & H3 & H). simplify_eq.
  split; [done|]. split; [|done]. split; [by eapply assert_ok|]. intros d Hd [Hty|Hty]; rewrite Hty.
  - exact (one_of_ok _ _ _ _ _ H2 d Hd Hty).
  - exact (one_of_ok _ _ _ _ _ H3 d Hd Hty).
Qed.

Lemma next_ingest_offset_spec region shard s o s' :
  next_ingest_offset region shard s = Ok (o, s') ->
  o = default 0 (ingest_shards s !! (region, shard)) + 1 /\
  s' = with_shards (<[(region, shard) := o]> (ingest_shards s)) s.
Proof. unfold next_ingest_offset. intros H. tx_inv. destruct (_ <? _); [done|]. by simplify_eq. Qed.

Lemma insert_canonical_event_spec r s u s' :
  insert_canonical_event month_of event_checks r s = Ok (u, s') ->
  s' = with_events (r :: canonical_events s) s.
Proof.
  unfold insert_canonical_event. intros H. tx_inv. apply result_bind_ok in H as (u1 & _ & H).
  repeat (destruct (_ : bool) in H; [done|]). by simplify_eq.
Qed.

Lemma insert_position_spec region shard o id m s u s' :
  insert_position region shard o id m s = Ok (u, s') ->
  s' = with_positions (<[(region, shard, o) := (id, m)]> (ingest_positions s)) s.
Proof. unfold insert_position. intros H. tx_inv. destruct (_ !! _); [done|]. by simplify_eq. Qed.

Lemma store_event_spec now e s r s' :
  store_event month_of event_checks now e s = Ok (r, s') ->
  match r with
  | None => s' = s /\ is_Some (global_keys s !! se_event_id e)
  | Some offset =>
      global_keys s !! se_event_id e = None /\ fits e s /\
      offset = default 0 (ingest_shards s !! shard_of e) + 1 /\ s' = stored now offset e s
  end.
Proof.
  unfold store_event. intros H. tx_inv. apply insert_global_key_spec in H0.
  destruct a; [|injection H as <- <-; by destruct H0 as [-> ?]]. destruct H0 as (Hno & Hfit & ->). tx_inv.
  apply next_ingest_offset_spec in H0 as [-> ->]. apply insert_canonical_event_spec in H1 as ->.
  apply insert_position_spec in H2 as ->. done.
Qed.

Lemma count_cons sh r rows :
  count sh (r :: rows) = count sh rows + (if decide (shard_of (cr_event r) = sh) then 1 else 0).
Proof. unfold count. rewrite filter_cons. case_decide; cbn [length]; lia. Qed.

Lemma stored_rows_inv now offset e s :
  rows_inv s -> global_keys s !! se_event_id e = None -> fits e s ->
  offset = default 0 (ingest_shards s !! shard_of e) + 1 -> rows_inv (stored now offset e s).
Proof.
  intros HI Hno [Hout Hone] Hoff. constructor; cbn.
  - apply NoDup_cons. split; [|apply HI]. intros (r & Hid & Hr)%list_elem_of_fmap.
    assert (Hk : keys_of (canonical_events s) !! se_event_id e = Some (key_of (cr_event r))).
    { apply lookup_keys; [apply HI|]. by exists r. }
    rewrite <- (ri_keys _ HI), Hno in Hk. done.
  - by rewrite (ri_keys _ HI).
  - by rewrite (ri_positions _ HI).
  - intros sh. rewrite count_cons. cbn. case_decide as Hsh.
    + rewrite <- Hsh, lookup_insert_eq. cbn. rewrite Hoff, (ri_shards _ HI). lia.
    + rewrite lookup_insert_ne by done. rewrite (ri_shards _ HI). lia.
  - split; [|apply HI]. by rewrite Hoff, (ri_shards _ HI).
  - split; [|apply HI]. split.
    + intros Hty. destruct (Hout Hty) as (d & Hd & Hk). exists d. split; [done|]. by apply has_key_rows.
    + intros d Hd Hty Hex. apply has_key_rows in Hex; [|done]. by rewrite (Hone d Hd Hty) in Hex.
Qed.

(** ** Every row comes from an event that was let in *)

Context (replicas : list (Config * option Verifier)).

(** The signature verifies, or fails in a way that only the strict mode refuses. *)
Definition accepted (cfg : Config) (verifier : option Verifier) (evt : WireEvent) : Prop :=
  match verifier with
  | None => True
  | Some v =>
      match verify_cloudevent v evt with
      | Ok _ => True
      | Err f => strict_only f = true /\ cf_strict_signatures cfg = false
      end
  end.

Definition input_of (cfg : Config) (evt : WireEvent) (bundle : CachedBundle) (ids : EventIds) (t : Z)
    : AppendInput :=
  append_input cfg evt bundle (ei_event_id ids) (ei_tenant_id ids) (ei_decision_id ids) (ei_run_id ids)
    (ce_producer_sequence evt) t.

(** The inputs that a replica makes of the events it accepts. *)
Definition admitted (i : AppendInput) : Prop :=
  exists cfg verifier evt bundle ids t,
    (cfg, verifier) ∈ replicas /\ accepted cfg verifier evt /\ checked_event evt bundle = Ok ids /\
    event_time_of evt = Ok t /\ i = input_of cfg evt bundle ids t.

Definition in_shard (region shard : string) (e : StoredEvent) : StoredEvent :=
  {| se_event_id := se_event_id e; se_tenant_id := se_tenant_id e; se_decision_id := se_decision_id e;
     se_run_id := se_run_id e; se_event_type := se_event_type e; se_storage_class := se_storage_class e;
     se_producer_id := se_producer_id e; se_producer_sequence := se_producer_sequence e;
     se_producer_signature := se_producer_signature e; se_signing_key_id := se_signing_key_id e;
     se_schema_bundle_id := se_schema_bundle_id e; se_schema_bundle_hash := se_schema_bundle_hash e;
     se_specversion := se_specversion e; se_source := se_source e; se_event_time := se_event_time e;
     se_datacontenttype := se_datacontenttype e; se_payload_json := se_payload_json e;
     se_payload_blob_ref := se_payload_blob_ref e; se_region_id := region; se_ingest_shard_id := shard;
     se_failure_class := se_failure_class e; se_mirrors := se_mirrors e; se_prediction := se_prediction e |}.

(** The content of an admitted event, in the shard of the replica that stored it. *)
Definition genuine (e : StoredEvent) : Prop :=
  exists i region shard, admitted i /\ e = in_shard region shard (stored_of_input i).

(** A quarantined outcome is an admitted event's; once released, the chain has it. *)
Definition quarantined (s : Db) (id : uuid) (q : OutcomeQuarantine) : Prop :=
  qr_event_id (oq_row q) = id /\
  exists i, admitted i /\ oq_row q = quarantined_row i /\ ai_tenant_id i = oq_tenant_id q /\
    ai_decision_id i = Some (oq_decision_id q) /\
    forall to, oq_state q = Released to -> exists r region shard,
      r ∈ canonical_events s /\ cr_event r = in_shard region shard (stored_of_input i).

(** The chain or the quarantine has an event of this id. *)
Definition known (id : uuid) (s : Db) : Prop :=
  is_Some (global_keys s !! id) \/ is_Some (outcome_quarantine s !! id).

Record chain_inv (s : Db) : Prop := {
  ci_rows : rows_inv s;
  ci_genuine : Forall (fun r => genuine (cr_event r)) (canonical_events s);
  ci_quarantine : forall id q, outcome_quarantine s !! id = Some q -> quarantined s id q;
  ci_claims : forall id row, dedup s !! id = Some row -> dd_reservation_only row = false -> known id s;
}.

(** Nothing that was recorded goes away. *)
Definition grows (s s' : Db) : Prop :=
  (exists new, canonical_events s' = new ++ canonical_events s) /\
  global_keys s ⊆ global_keys s' /\
  (forall id, is_Some (outcome_quarantine s !! id) -> is_Some (outcome_quarantine s' !! id)) /\
  exists new, signature_quarantine s' = new ++ signature_quarantine s.

#[global] Instance grows_preorder : PreOrder grows.
Proof.
  split.
  - intros s. split; [by exists []|]. split; [done|]. split; [done|]. by exists [].
  - intros s1 s2 s3 ([n1 H1] & K1 & Q1 & [m1 S1]) ([n2 H2] & K2 & Q2 & [m2 S2]). split.
    { exists (n2 ++ n1). by rewrite H2, H1, app_assoc. }
    split; [by etrans|]. split; [by eauto|]. exists (m2 ++ m1). by rewrite S2, S1, app_assoc.
Qed.

Lemma known_grows id s s' : grows s s' -> known id s -> known id s'.
Proof.
  intros (_ & Hk & Hq & _) [[k Hid]|Hid]; [left|right; by apply Hq]. exists k. by eapply lookup_weaken.
Qed.

Lemma quarantined_mono s s' id q :
  (forall r, r ∈ canonical_events s -> r ∈ canonical_events s') -> quarantined s id q -> quarantined s' id q.
Proof.
  intros Hsub (Hid & i & ? & ? & ? & ? & Hrel). split; [done|]. exists i. split_and!; [done..|].
  intros to (r & region & shard & Hr & Hc)%Hrel. exists r, region, shard. by auto.
Qed.

(** Storing an admitted event. *)
Lemma stored_inv now offset e s :
  chain_inv s -> genuine e -> global_keys s !! se_event_id e = None -> fits e s ->
  offset = default 0 (ingest_shards s !! shard_of e) + 1 ->
  chain_inv (stored now offset e s) /\ grows s (stored now offset e s).
Proof.
  intros HI Hg Hno Hfit Hoff. split.
  - constructor; cbn.
    + by apply stored_rows_inv; [apply HI|..].
    + constructor; [done|apply HI].
    + intros id q Hq. eapply quarantined_mono; [|by apply HI]. intros r Hr. by right.
    + intros id row Hrow Hres. destruct (ci_claims _ HI id row Hrow Hres) as [[k Hk]|Hk]; [left|by right].
      cbn. destruct (decide (se_event_id e = id)) as [<-|Hne]; [by rewrite lookup_insert_eq; eexists|].
      rewrite lookup_insert_ne by done. by exists k.
  - split; [by eexists [_]|]. split; [by apply insert_subseteq|]. split; [done|]. by exists [].
Qed.

Lemma claim_replay_key_spec now i s c s' :
  claim_replay_key now i s = Ok (c, s') ->
  match c with
  | NewClaim =>
      dedup s !! ai_event_id i = None /\
      exists row, dd_reservation_only row = false /\
        (ai_event_type i = AUDIT_OUTCOME -> dd_expires_at row = None) /\
        s' = with_dedup (<[ai_event_id i := row]> (dedup s)) s
  | DuplicateSamePayload =>
      s' = s /\ exists row, dedup s !! ai_event_id i = Some row /\ dd_reservation_only row = false
  | DuplicateHashMismatch => s' = s /\ is_Some (dedup s !! ai_event_id i)
  end.
Proof.
  unfold claim_replay_key. intros H. tx_inv. unfold insert_dedup in H1. tx_inv.
  destruct (_ || _); [done|]. destruct (dedup s !! ai_event_id i) as [row|] eqn:Hd; simplify_eq.
  - apply tx_bind_ok in H as (row' & s2 & Hsel & H). unfold select_dedup in Hsel. tx_inv.
    rewrite Hd in Hsel. simplify_eq.
    destruct (negb (dd_reservation_only row') && _ && _) eqn:Hsame; split; try done.
    apply andb_true_iff in Hsame as [[Hr%negb_true_iff _]%andb_true_iff _]. by exists row'.
  - tx_inv. split; [done|]. eexists. split_and!; [..|done]; [done|]. intros ->. done.
Qed.

Lemma append_event_spec now i s o s' :
  append_event month_of event_checks now i s = Ok (o, s') ->
  match o with
  | Appended offset =>
      dedup s !! ai_event_id i = None /\
      exists row, dd_reservation_only row = false /\
        let s1 := with_dedup (<[ai_event_id i := row]> (dedup s)) s in
        global_keys s !! ai_event_id i = None /\ fits (stored_of_input i) s /\
        offset = default 0 (ingest_shards s !! shard_of (stored_of_input i)) + 1 /\
        s' = stored now offset (stored_of_input i) s1
  | Deduped =>
      s' = s /\ ((exists row, dedup s !! ai_event_id i = Some row /\ dd_reservation_only row = false) \/
                 is_Some (global_keys s !! ai_event_id i))
  end.
Proof.
  unfold append_event. intros (c & s1 & Hc%claim_replay_key_spec & H)%tx_bind_ok. destruct c.
  - destruct Hc as (Hno & row & Hres & _ & ->).
    apply tx_bind_ok in H as (st & s2 & Hst%store_event_spec & H). destruct st as [offset|].
    + injection H as <- <-. destruct Hst as (Hk & Hfit & Hoff & ->). split; [done|]. exists row. by split_and!.
    + injection H as <- <-. destruct Hst as (_ & Hk). split; [done|]. by right.
  - injection H as <- <-. destruct Hc as (_ & Hrow). split; [done|]. by left.
  - done.
Qed.

(** The chain does not depend on the claims, the quarantines or the bundles. *)
Lemma rows_inv_same s s' :
  canonical_events s' = canonical_events s -> global_keys s' = global_keys s ->
  ingest_positions s' = ingest_positions s -> ingest_shards s' = ingest_shards s ->
  rows_inv s -> rows_inv s'.
Proof. intros He Hk Hp Hs []. by constructor; rewrite ?He, ?Hk, ?Hp, ?Hs. Qed.

Lemma claims_dedup d s :
  chain_inv s -> (forall id row, d !! id = Some row -> dd_reservation_only row = false -> known id s) ->
  chain_inv (with_dedup d s).
Proof.
  intros HI Hd. constructor; [by eapply rows_inv_same, HI|apply HI|apply HI|exact Hd].
Qed.

Lemma append_event_inv now i s o s' :
  chain_inv s -> admitted i -> append_event month_of event_checks now i s = Ok (o, s') ->
  chain_inv s' /\ grows s s' /\
  match o with
  | Appended offset => exists r, r ∈ canonical_events s' /\ cr_event r = stored_of_input i /\
                                 cr_ingest_log_offset r = offset
  | Deduped => known (ai_event_id i) s'
  end.
Proof.
  intros HI Hi H%append_event_spec. destruct o as [offset|].
  - destruct H as (Hno & row & Hres & Hk & Hfit & Hoff & ->).
    assert (Hg : genuine (stored_of_input i)).
    { exists i, (ai_region_id i), (ai_ingest_shard_id i). by split. }
    destruct (stored_inv now offset (stored_of_input i) s HI Hg Hk Hfit Hoff) as [HI' Hgr].
    split; [|split; [exact Hgr|eexists; split; [by left|done]]].
    apply (claims_dedup (<[ai_event_id i := row]> (dedup s)) _ HI'). intros id row'.
    rewrite lookup_insert_Some. intros [[<- <-]|[_ Hrow]] Hres'.
    + left. cbn. rewrite lookup_insert_eq. by eexists.
    + by eapply (ci_claims _ HI').
  - destruct H as [-> Hkn]. split; [done|]. split; [done|].
    destruct Hkn as [(row & Hrow & Hres)|Hk]; [by eapply ci_claims|by left].
Qed.

(** *** The quarantine of outcomes *)

Lemma quarantine_audit_outcome_spec now i orphan_after s u s' :
  quarantine_audit_outcome quarantine_checks now i orphan_after s = Ok (u, s') ->
  (s' = s /\ exists row, dedup s !! ai_event_id i = Some row /\ dd_reservation_only row = false) \/
  exists d row,
    ai_decision_id i = Some d /\ dedup s !! ai_event_id i = None /\ dd_reservation_only row = false /\
    (ai_event_type i = AUDIT_OUTCOME -> dd_expires_at row = None) /\
    let s1 := with_dedup (<[ai_event_id i := row]> (dedup s)) s in
    s' = match outcome_quarantine s !! ai_event_id i with
         | Some _ => s1
         | None => with_quarantine (<[ai_event_id i := awaiting_row i d orphan_after]>
                                      (outcome_quarantine s)) s1
         end.
Proof.
  unfold quarantine_audit_outcome. intros (d & s0 & [Hd ->]%tx_lift_ok & H)%tx_bind_ok.
  apply ok_or_ok in Hd. apply tx_bind_ok in H as (c & s1 & Hc%claim_replay_key_spec & H). destruct c.
  - destruct Hc as (Hno & row & Hres & Hexp & ->). right. unfold insert_quarantine in H. tx_inv.
    destruct (negb _); [done|]. cbn in H.
    exists d, row. do 4 (split; [done|]). cbn. destruct (outcome_quarantine s !! _); by injection H as _ <-.
  - destruct Hc as [-> Hrow]. injection H as _ <-. by left.
  - done.
Qed.

Lemma quarantine_audit_outcome_inv now i orphan_after s u s' :
  chain_inv s -> admitted i -> quarantine_audit_outcome quarantine_checks now i orphan_after s = Ok (u, s') ->
  chain_inv s' /\ grows s s' /\ known (ai_event_id i) s'.
Proof.
  intros HI Hi [[-> (row & Hrow & Hres)]|(d & row & Hd & Hno & Hres & _ & ->)]%
    quarantine_audit_outcome_spec; [split; [done|]; split; [done|by eapply ci_claims]|].
  assert (Hclaims : forall s1, known (ai_event_id i) s1 -> (forall id, known id s -> known id s1) ->
    forall id row', <[ai_event_id i := row]> (dedup s) !! id = Some row' ->
      dd_reservation_only row' = false -> known id s1).
  { intros s1 Hk Hmono id row'. rewrite lookup_insert_Some. intros [[<- <-]|[_ Hrow]] Hr; [done|].
    apply Hmono. by eapply ci_claims. }
  destruct (outcome_quarantine s !! ai_event_id i) as [q'|] eqn:Hq'.
  - assert (Hk : known (ai_event_id i) s) by (right; by eexists).
    split; [|split; [|exact Hk]].
    + apply claims_dedup; [done|]. by apply (Hclaims s).
    + split; [by exists []|]. split; [done|]. split; [done|]. by exists [].
  - set (s' := with_quarantine _ _).
    assert (Hk : known (ai_event_id i) s') by (right; cbn; rewrite lookup_insert_eq; by eexists).
    assert (Hgrow : grows s s').
    { split; [by exists []|]. split; [done|]. split; [|by exists []]. intros id Hid. cbn.
      destruct (decide (ai_event_id i = id)) as [<-|Hne]; [by rewrite lookup_insert_eq; eexists|].
      by rewrite lookup_insert_ne. }
    split; [|split; [exact Hgrow|exact Hk]]. constructor.
    + by eapply rows_inv_same, HI.
    + apply HI.
    + intros id q0. cbn. rewrite lookup_insert_Some. intros [[<- <-]|[_ Hq0]].
      * split; [done|]. by exists i.
      * eapply quarantined_mono; [|by apply HI]. done.
    + apply (Hclaims s'); [exact Hk|]. intros id. by apply known_grows.
Qed.

(** *** Releases *)

Lemma storage_class_roundtrip c : storage_class_of_str (storage_class_str c) = Some c.
Proof. by destruct c. Qed.

(** What is released is what would have been stored at once. *)
Lemma released_event_of i d region shard e :
  admitted i -> ai_decision_id i = Some d ->
  released_event (ai_tenant_id i) d region shard (quarantined_row i) = Ok e ->
  e = in_shard region shard (stored_of_input i).
Proof.
  intros (cfg & v & evt & bundle & ids & t & _ & _ & _ & _ & ->) Hd. unfold released_event.
  intros (c & Hc%ok_or_ok & H)%result_bind_ok. cbn in Hc. rewrite storage_class_roundtrip in Hc.
  injection Hc as <-. injection H as <-. unfold in_shard, stored_of_input. cbn. cbn in Hd. by rewrite Hd.
Qed.

Lemma mark_released_spec id s u s' :
  mark_released id s = Ok (u, s') ->
  s' = match outcome_quarantine s !! id with
       | Some q => with_quarantine (<[id := {| oq_row := oq_row q; oq_tenant_id := oq_tenant_id q;
                     oq_decision_id := oq_decision_id q; oq_region_id := oq_region_id q;
                     oq_ingest_shard_id := oq_ingest_shard_id q; oq_orphan_after := oq_orphan_after q;
                     oq_state := Released id |}]> (outcome_quarantine s)) s
       | None => s
       end /\
  forall q, outcome_quarantine s !! id = Some q -> oq_state q = AwaitingDecision.
Proof.
  unfold mark_released. intros H. tx_inv. destruct (outcome_quarantine s !! id) as [q|]; [|by simplify_eq].
  destruct (oq_state q) eqn:Hst; [|done..]. simplify_eq. split; [done|]. by intros q' [= <-].
Qed.

(** Marking an outcome as released, once the chain has it. *)
Lemma mark_released_inv id s u s' :
  chain_inv s -> mark_released id s = Ok (u, s') ->
  (forall q i, outcome_quarantine s !! id = Some q -> admitted i -> oq_row q = quarantined_row i ->
     ai_tenant_id i = oq_tenant_id q -> ai_decision_id i = Some (oq_decision_id q) ->
     exists r region shard, r ∈ canonical_events s /\
       cr_event r = in_shard region shard (stored_of_input i)) ->
  chain_inv s' /\ grows s s' /\ forall id', id' <> id -> outcome_quarantine s' !! id' = outcome_quarantine s !! id'.
Proof.
  intros HI [-> _]%mark_released_spec Hin. destruct (outcome_quarantine s !! id) as [q|] eqn:Hq; [|done].
  set (s' := with_quarantine _ _).
  assert (Hgrow : grows s s').
  { split; [by exists []|]. split; [done|]. split; [|by exists []]. intros id' Hid. cbn.
    destruct (decide (id = id')) as [<-|Hne]; [by rewrite lookup_insert_eq; eexists|].
    by rewrite lookup_insert_ne. }
  split; [|split; [done|]; intros id' Hne; cbn; by rewrite lookup_insert_ne]. constructor.
  - by eapply rows_inv_same, HI.
  - apply HI.
  - intros id' q'. cbn. rewrite lookup_insert_Some. intros [[<- <-]|[_ Hq']].
    + destruct (ci_quarantine _ HI id q Hq) as (Hid & i & Hi & Hrow & Ht & Hd & _). split; [done|].
      exists i. split_and!; [done..|]. intros to _. cbn. by eapply Hin.
    + eapply quarantined_mono; [|by apply HI]. done.
  - intros id' row Hrow Hres. apply (known_grows id' s); [done|]. by eapply ci_claims.
Qed.

Definition held (t d : uuid) (s : Db) (r : QuarantinedRow) : Prop :=
  exists q, outcome_quarantine s !! qr_event_id r = Some q /\ oq_row q = r /\
            oq_tenant_id q = t /\ oq_decision_id q = d.

Lemma release_rows_inv now t d region shard rows n s m s' :
  chain_inv s -> NoDup (qr_event_id <$> rows) -> Forall (held t d s) rows ->
  release_rows month_of event_checks now t d region shard rows n s = Ok (m, s') ->
  chain_inv s' /\ grows s s'.
Proof.
  revert n s; induction rows as [|r rows IH]; intros n s HI Hnd Hheld; cbn [release_rows].
  { intros [= _ <-]. by split. }
  intros (e & s0 & [He ->]%tx_lift_ok & H)%tx_bind_ok.
  apply tx_bind_ok in H as (st & s1 & Hst%store_event_spec & H). destruct st as [offset|]; [|done].
  apply tx_bind_ok in H as (u & s2 & Hmark & H). destruct Hst as (Hno & Hfit & Hoff & ->).
  rewrite fmap_cons, NoDup_cons in Hnd. destruct Hnd as [Hnot Hnd]. apply Forall_cons in Hheld as [Hr Hheld].
  destruct Hr as (q & Hq & Hrow & Ht & Hd).
  destruct (ci_quarantine _ HI _ _ Hq) as (Hid & i & Hi & Hrowi & Hti & Hdi & _).
  rewrite Hrow in Hrowi. rewrite Ht in Hti. rewrite Hd in Hdi.
  assert (Hei : e = in_shard region shard (stored_of_input i)).
  { apply (released_event_of i d); [done..|]. by rewrite Hti, <- Hrowi. }
  assert (Hg : genuine e) by (by exists i, region, shard).
  destruct (stored_inv now offset e s HI Hg Hno Hfit Hoff) as [HI1 Hg1].
  destruct (mark_released_inv _ _ _ _ HI1 Hmark) as (HI2 & Hg2 & Hsame).
  { cbn. rewrite Hq. intros q0 j [= <-] Hj Hrowj Htj Hdj. eexists _, region, shard. split; [by left|]. cbn.
    apply (released_event_of j d); [done|by rewrite Hdj, Hd|]. by rewrite Htj, Ht, <- Hrowj, Hrow. }
  assert (Hheld' : Forall (held t d s2) rows).
  { apply Forall_forall. intros r' Hr'. rewrite Forall_forall in Hheld.
    destruct (Hheld r' Hr') as (q' & Hq' & ? & ? & ?). exists q'. split; [|done]. rewrite Hsame; [done|].
    intros Heq. apply Hnot. rewrite <- Heq. apply list_elem_of_fmap. by exists r'. }
  destruct (IH _ _ HI2 Hnd Hheld' H) as [HI' Hg']. split; [done|]. by do 2 (etrans; [done|]).
Qed.

(** ** What the effects keep *)

Lemma runs_inv {A} (m : tx A) s x s' :
  chain_inv s -> runs m s x s' -> (forall a s1, m s = Ok (a, s1) -> chain_inv s1 /\ grows s s1) ->
  chain_inv s' /\ grows s s' /\ forall a, x = Ok a -> m s = Ok (a, s').
Proof.
  intros HI Hr Hm. revert Hr. unfold runs. destruct (m s) as [[a s1]|e]; [destruct (Hm a s1 eq_refl)|].
  - intros [[-> ->]|(e & -> & [->| ->])]; split_and!; try done. by intros a' [= ->].
  - intros [[->|(e' & ->)] ->]; by split_and!.
Qed.

(** Only admitted events are stored or put aside. *)
Definition admissible {X} (e : ingestE X) : Prop :=
  match e with
  | AppendEvent i | QuarantineOutcome i _ => admitted i
  | _ => True
  end.

(** What an effect's answer tells. *)
Definition told {X} (e : ingestE X) : X -> Db -> Prop :=
  match e in ingestE X return X -> Db -> Prop with
  | AppendEvent i => fun x s' =>
      match x with
      | Ok (Appended offset) => exists r, r ∈ canonical_events s' /\
          cr_event r = stored_of_input i /\ cr_ingest_log_offset r = offset
      | Ok Deduped => known (ai_event_id i) s'
      | Err _ => True
      end
  | QuarantineOutcome i _ => fun x s' => is_ok x = true -> known (ai_event_id i) s'
  | QuarantineSignature evt _ _ _ => fun x s' =>
      is_ok x = true -> exists q, q ∈ signature_quarantine s' /\ sq_claimed q = evt
  | _ => fun _ _ => True
  end.

Lemma read_inv {A} (m : tx A) s x s' :
  chain_inv s -> (forall a s1, m s = Ok (a, s1) -> s1 = s) -> runs m s x s' -> chain_inv s' /\ grows s s'.
Proof.
  intros HI Hm Hr. destruct (runs_inv m s x s' HI Hr) as (? & ? & _); [|by split].
  by intros a s1 ->%Hm.
Qed.

Lemma effect_inv X (e : ingestE X) s x s' :
  chain_inv s -> admissible e ->
  handle_ingest month_of event_checks quarantine_checks X e s x s' ->
  chain_inv s' /\ grows s s' /\ told e x s'.
Proof.
  intros HI He Hh. destruct e as [id hash| |t d|i|i o|t d region shard|evt bytes reason tr|]; cbn in He, Hh |- *.
  - destruct (read_inv (lookup_bundle id hash) s x s' HI) as [? ?]; [|done|by split_and!].
    intros a s1. unfold lookup_bundle. destruct (schema_bundles s !! id) as [h|]; [|by intros [= _ <-]].
    destruct (h =?s _); [done|]. destruct (h =?s hash); [|done]. by intros [= _ <-].
  - destruct (read_inv approximate_backpressure_depth s x s' HI) as [? ?]; [|done|by split_and!].
    by intros a s1 [= _ <-].
  - destruct (read_inv (has_preceding_decision t d) s x s' HI) as [? ?]; [|done|by split_and!].
    by intros a s1 [= _ <-].
  - destruct Hh as [now Hh]. destruct (runs_inv _ s x s' HI Hh) as (HI' & Hg & Hx).
    { intros a s1 Ha. by destruct (append_event_inv now i s a s1 HI He Ha) as (? & ? & _). }
    split; [done|]. split; [done|]. destruct x as [o|]; [|done].
    by destruct (append_event_inv now i s o s' HI He (Hx o eq_refl)) as (_ & _ & ?).
  - destruct Hh as [now Hh]. destruct (runs_inv _ s x s' HI Hh) as (HI' & Hg & Hx).
    { intros a s1 Ha. by destruct (quarantine_audit_outcome_inv now i o s a s1 HI He Ha) as (? & ? & _). }
    split; [done|]. split; [done|]. destruct x as [u|]; [|done]. intros _.
    by destruct (quarantine_audit_outcome_inv now i o s u s' HI He (Hx u eq_refl)) as (_ & _ & ?).
  - destruct Hh as (now & rows & [Hnd Hrel] & Hh).
    destruct (runs_inv _ s x s' HI Hh) as (HI' & Hg & _); [|by split_and!].
    intros a s1. apply release_rows_inv; [done..|]. eapply Forall_impl; [done|].
    intros r (q & Hq & Hrow & Haw). exists q. unfold awaiting in Haw.
    apply andb_true_iff in Haw as [[?%bool_decide_eq_true ?%bool_decide_eq_true]%andb_true_iff _]. done.
  - assert (Hins : forall u s1, insert_with_truncation evt bytes reason tr s = Ok (u, s1) ->
      exists q, sq_claimed q = evt /\ s1 = with_signatures (q :: signature_quarantine s) s).
    { intros u s1. unfold insert_with_truncation. destruct (_ || _); [done|]. intros [= _ <-]. eexists. by split; [|done]. }
    destruct (runs_inv _ s x s' HI Hh) as (HI' & Hg & Hx).
    { intros u s1 (q & _ & ->)%Hins. split.
      - constructor; [by eapply rows_inv_same, HI|apply HI| |apply HI].
        intros id q' Hq'. eapply quarantined_mono; [|by apply HI]. done.
      - split; [by exists []|]. split; [done|]. split; [done|]. by exists [q]. }
    split; [done|]. split; [done|]. destruct x as [u|]; [|done]. intros _.
    destruct (Hins u s' (Hx u eq_refl)) as (q & Hq & ->). exists q. split; [by left|done].
  - by subst s'.
Qed.

Lemma other_inv s s' : chain_inv s -> other s s' -> chain_inv s' /\ grows s s'.
Proof.
  intros HI [(id & hash & _ & ->)|[(id & row & t & Hrow & _ & _ & ->)|(id & q & Hq & Hst & ->)]].
  - split; [constructor; [by eapply rows_inv_same, HI|apply HI| |apply HI]|].
    + intros id' q Hq. eapply quarantined_mono; [|by apply HI]. done.
    + split; [by exists []|]. split; [done|]. split; [done|]. by exists [].
  - split; [|split; [by exists []|]; split; [done|]; split; [done|]; by exists []].
    apply claims_dedup; [done|]. intros id' row' [_ Hrow']%lookup_delete_Some. by eapply ci_claims.
  - set (s' := with_quarantine _ _).
    assert (Hgrow : grows s s').
    { split; [by exists []|]. split; [done|]. split; [|by exists []]. intros id' Hid. cbn.
      destruct (decide (id = id')) as [<-|Hne]; [by rewrite lookup_insert_eq; eexists|].
      by rewrite lookup_insert_ne. }
    split; [|done]. constructor; [by eapply rows_inv_same, HI|apply HI| |].
    + intros id' q'. cbn. rewrite lookup_insert_Some. intros [[<- <-]|[_ Hq']].
      * destruct (ci_quarantine _ HI id q Hq) as (Hid & i & ? & ? & ? & ? & _). split; [done|].
        by exists i.
      * eapply quarantined_mono; [|by apply HI]. done.
    + intros id' row Hrow Hres. apply (known_grows id' s); [done|]. by eapply ci_claims.
Qed.



(** ** The handlers *)

Abbreviation chain_follows Q p := (follows (handle_ingest month_of event_checks quarantine_checks)
  chain_inv grows grows Q p).

Lemma follows_effect {X R} (e : ingestE X) (k : X -> prog ingestE R) Q s :
  admissible e ->
  (forall x s', grows s s' -> chain_inv s' -> told e x s' -> chain_follows Q (k x) s') ->
  chain_follows Q (Vis e k) s.
Proof.
  intros He Hk s1 x s2 Hr HI Hh. destruct (effect_inv X e s1 x s2 HI He Hh) as (HI2 & Hg & Ht).
  split; [done|]. split; [done|]. apply Hk; [by etrans|done..].
Qed.

Lemma follows_act {X A D} (e : ingestE X) (f : X -> M ingestE D A) Q s :
  admissible e ->
  (forall x s', grows s s' -> chain_inv s' -> told e x s' -> chain_follows Q (f x) s') ->
  chain_follows Q (act e ≫= f) s.
Proof. apply follows_effect. Qed.

(** What an answer promises about the event it is for. *)
Definition honest (cfg : Config) (verifier : option Verifier) (bundle : CachedBundle) (evt : WireEvent)
    (r : EventResult) (s : Db) : Prop :=
  er_event_id r = ce_id evt /\
  match er_status r with
  | ES_Appended =>
      accepted cfg verifier evt /\
      exists row, row ∈ canonical_events s /\ uuid_parse (ce_id evt) = Some (se_event_id (cr_event row)) /\
        se_payload_json (cr_event row) = cloudevent_to_json evt /\
        se_producer_signature (cr_event row) = ce_producer_signature evt /\
        er_ingest_position r = Some {| ip_region_id := se_region_id (cr_event row);
                                       ip_ingest_shard_id := se_ingest_shard_id (cr_event row);
                                       ip_ingest_log_offset := u64_wrap (cr_ingest_log_offset row) |}
  | ES_Deduped | ES_AwaitingPrecedingDecision =>
      accepted cfg verifier evt /\ exists id, uuid_parse (ce_id evt) = Some id /\ known id s
  | ES_Duplicate | ES_Backpressure => accepted cfg verifier evt
  | ES_Quarantined =>
      accepted cfg verifier evt \/ (exists e, checked_event evt bundle = Err e) \/
      exists q, q ∈ signature_quarantine s /\ sq_claimed q = evt
  | ES_Unspecified => ~ accepted cfg verifier evt
  | ES_OrphanOutcome | ES_SignatureInvalid => False
  end.

Lemma honest_grows cfg v bundle evt r s s' :
  grows s s' -> honest cfg v bundle evt r s -> honest cfg v bundle evt r s'.
Proof.
  intros Hg [Hid Hr]. split; [done|]. pose proof Hg as ([new Hnew] & _ & _ & [newq Hnewq]).
  destruct (er_status r); try done.
  - destruct Hr as (Ha & row & Hrow & Hrest). split; [done|]. exists row. split; [|done].
    rewrite Hnew, elem_of_app. by right.
  - destruct Hr as (Ha & id & ? & Hk). split; [done|]. exists id. split; [done|]. by eapply known_grows.
  - destruct Hr as (Ha & id & ? & Hk). split; [done|]. exists id. split; [done|]. by eapply known_grows.
  - destruct Hr as [?|[?|(q & Hq & ?)]]; [by left|by right; left|]. right; right. exists q.
    split; [|done]. rewrite Hnewq, elem_of_app. by right.
Qed.

Lemma checked_event_id evt bundle ids :
  checked_event evt bundle = Ok ids -> uuid_parse (ce_id evt) = Some (ei_event_id ids).
Proof. unfold checked_event, parse_uuid. intros H. by mon_inv H. Qed.

Section Event.
Context (cfg : Config) (verifier : option Verifier) (bundle : CachedBundle) (evt : WireEvent).
Abbreviation promises := (fun r => honest cfg verifier bundle evt (answer_of r)).

Lemma write_quarantine_follows reason s :
  ~ accepted cfg verifier evt ->
  chain_follows (honest cfg verifier bundle evt) (write_quarantine evt reason) s.
Proof.
  intros Hno. unfold write_quarantine. destruct (if _ <? _ then _ else _) as [bytes tr].
  apply follows_effect; [done|]. intros [u|e] s' _ _ Ht; cbn; [|by split].
  split; [done|]. right; right. by apply Ht.
Qed.

Lemma verify_or_handle_follows s :
  chain_follows (fun r s' => match r with
                             | None => accepted cfg verifier evt
                             | Some r => honest cfg verifier bundle evt r s'
                             end)
    (verify_or_handle cfg verifier evt) s.
Proof.
  unfold verify_or_handle, accepted. destruct verifier as [v|] eqn:Hv; [|done].
  destruct (verify_cloudevent v evt) as [u|f] eqn:Hver; [done|].
  destruct (strict_only f && negb (cf_strict_signatures cfg)) eqn:Hadmit.
  - apply andb_true_iff in Hadmit as [? ?%negb_true_iff]. done.
  - apply follows_pbind. rewrite <- Hv. eapply follows_weaken; [|apply write_quarantine_follows]; [done|].
    rewrite Hv. unfold accepted. rewrite Hver. intros [Hs Hns]. by rewrite Hs, Hns in Hadmit.
Qed.

Context (Hin : (cfg, verifier) ∈ replicas) (Hacc : accepted cfg verifier evt).

Lemma set_aside_follows i s :
  admitted i -> uuid_parse (ce_id evt) = Some (ai_event_id i) ->
  chain_follows promises (set_aside cfg evt i) s.
Proof using Hacc.
  intros Hi Hid. apply follows_act; [done|]. intros now s1 _ _ _.
  apply follows_act; [done|]. intros [u|e] s2 _ _ Ht; cbn; [|by split; [|left]].
  split; [done|]. split; [done|]. exists (ai_event_id i). split; [done|]. by apply Ht.
Qed.

Lemma append_or_quarantine_follows ids t s :
  checked_event evt bundle = Ok ids -> event_time_of evt = Ok t ->
  chain_follows promises (append_or_quarantine cfg evt (input_of cfg evt bundle ids t)) s.
Proof using Hin Hacc.
  intros Hids Ht. set (i := input_of cfg evt bundle ids t).
  assert (Hi : admitted i) by (exists cfg, verifier, evt, bundle, ids, t; done).
  assert (Hid : uuid_parse (ce_id evt) = Some (ai_event_id i)) by by eapply checked_event_id.
  apply follows_pbind. eapply follows_weaken with
    (Q := fun r s' => match r with Ok _ => True | Err r => honest cfg verifier bundle evt r s' end).
  - intros [[]|r] s1 Hr; [|by apply set_aside_follows|done].
    apply follows_act; [done|]. intros x s2 _ _ Htold.
    destruct x as [[offset|]|e]; cbn in Htold.
    + assert (Happ : forall s3, grows s2 s3 -> honest cfg verifier bundle evt
        {| er_event_id := ce_id evt; er_status := ES_Appended;
           er_ingest_position := Some {| ip_region_id := cf_region cfg;
             ip_ingest_shard_id := cf_ingest_shard_id cfg; ip_ingest_log_offset := u64_wrap offset |};
           er_error := None |} s3).
      { intros s3 Hg. apply (honest_grows _ _ _ _ _ _ _ Hg). split; [done|]. split; [done|].
        destruct Htold as (row & Hrow & Hce & <-). exists row. rewrite Hce. done. }
      destruct (ce_type evt =?s AUDIT_DECISION); [|by apply Happ].
      cbn [ai_decision_id input_of append_input i].
      destruct (ei_decision_id ids) as [d|]; [|by apply Happ].
      apply follows_effect; [done|]. intros n s3 Hg _ _. cbn. by apply Happ.
    + split; [done|]. split; [done|]. by exists (ai_event_id i).
    + destruct e; try (by split; [|left]); [by apply set_aside_follows|by split].
  - destruct (ce_type evt =?s AUDIT_OUTCOME); [|done].
    cbn [ai_decision_id input_of append_input i].
    destruct (ei_decision_id ids) as [d|]; [|by split; [|left]].
    apply follows_effect; [done|]. intros [b|e] s1 _ _ _; cbn; [done|by split; [|left]].
Qed.

End Event.

Lemma process_one_follows cfg verifier bundle evt route bp s :
  (cfg, verifier) ∈ replicas ->
  chain_follows (honest cfg verifier bundle evt) (process_one cfg verifier evt bundle route bp) s.
Proof.
  intros Hin. apply follows_pbind.
  apply (follows_weaken _ _ _ _ (fun r => honest cfg verifier bundle evt (answer_of r))); [done|].
  unfold process_one_inner. destruct (checked_event evt bundle) as [ids|e] eqn:Hids; cbn.
  2:{ split; [done|]. right; left. by exists e. }
  apply follows_pbind, follows_pbind.
  eapply follows_weaken; [|by apply verify_or_handle_follows]. intros [r|] s1 Hr; cbn; [done|].
  destruct (bp && _); cbn; [by split|]. destruct (event_time_of evt) as [t|e] eqn:Ht; cbn.
  - by apply append_or_quarantine_follows.
  - split; [done|]. by left.
Qed.

Lemma process_all_follows cfg verifier bundle evts route bp s :
  (cfg, verifier) ∈ replicas ->
  chain_follows (fun rs s' => Forall2 (fun evt r => honest cfg verifier bundle evt r s') evts rs)
    (process_all cfg verifier bundle route bp evts) s.
Proof.
  intros Hin. revert s; induction evts as [|evt evts IH]; intros s; cbn; [done|].
  apply follows_pbind. eapply follows_weaken; [|by apply process_one_follows].
  intros r s1 Hr. apply follows_pbind.
  eapply follows_weaken; [|apply (follows_keep _ _ _ _ (honest cfg verifier bundle evt r)); [|done|apply IH]].
  - intros rs s' [Hr' Hrs]. by constructor.
  - intros s2 s3 [Hg|Hg]; by apply honest_grows.
Qed.

(** One call of the RPC: a replica, its request and its peer's certificate. *)
Record Call := {
  ca_cfg : Config;
  ca_verifier : option Verifier;
  ca_request : AppendEventsRequest;
  ca_peer_leaf_der : option string;
}.

Definition serve (c : Call) : prog ingestE (result Status (list EventResult)) :=
  handle (ca_cfg c) (ca_verifier c) (ca_request c) (ca_peer_leaf_der c).

(** Every event of an answered call has an honest answer. *)
Definition answered (c : Call) (r : result Status (list EventResult)) (s : Db) : Prop :=
  match r with
  | Err _ => True
  | Ok rs => exists bundle,
      Forall2 (fun evt r => honest (ca_cfg c) (ca_verifier c) bundle evt r s) (ae_events (ca_request c)) rs
  end.

Lemma lift_follows {A B D} (x : result D A) (f : A -> M ingestE D B) Q s :
  (forall a, x = Ok a -> chain_follows Q (f a) s) -> (forall e, x = Err e -> Q (Err e) s) ->
  chain_follows Q (lift x ≫= f) s.
Proof. intros Ha He. destruct x; cbn; eauto. Qed.

Lemma serve_follows c s :
  (ca_cfg c, ca_verifier c) ∈ replicas -> chain_follows (answered c) (serve c) s.
Proof.
  intros Hin. unfold serve, handle. do 6 (apply lift_follows; [intros ? _|done]).
  apply follows_act; [done|]. intros found s1 _ _ _.
  apply lift_follows; [intros bundle _|done]. apply lift_follows; [intros ? _|done].
  apply follows_act; [done|]. intros depth s2 _ _ _. apply follows_pbind.
  eapply follows_weaken; [|by apply process_all_follows]. intros rs s3 Hrs. by exists bundle.
Qed.

(** Interleaved calls keep the chain and only add to it. *)
Lemma calls_inv calls s log s' ps' :
  chain_inv s -> Forall (fun c => (ca_cfg c, ca_verifier c) ∈ replicas) calls ->
  pool_run (handle_ingest month_of event_checks quarantine_checks) other (s, serve <$> calls) log (s', ps') ->
  chain_inv s' /\ grows s s'.
Proof.
  intros HI Hcalls Hrun.
  destruct (pool_follows (handle_ingest month_of event_checks quarantine_checks) (fun s' => chain_inv s' /\ grows s s') other (fun _ => grows) (fun _ => grows)
    (fun _ _ _ => True) s (serve <$> calls) log s' ps') as ([HI' Hgs] & _ & _); try done.
  - intros _. apply grows_preorder.
  - intros s1 s2 [HI1 Hg1] Ho. destruct (other_inv s1 s2 HI1 Ho) as [HI2 Hg2]. split; [|done].
    split; [done|by etrans].
  - intros i p (c & -> & Hc)%list_lookup_fmap_Some_1. apply follows_inv_and; [intros s1 s2 ? ?; by etrans|].
    eapply follows_weaken; [|apply serve_follows]; [done|]. rewrite Forall_forall in Hcalls.
    apply Hcalls. by eapply list_elem_of_lookup_2.
Qed.

(** C3: the integrity of the audit chain. Any number of calls of AppendEvents, on
    any replicas, run interleaved transaction by transaction with each other, with
    the reaping of expired claims and with outages that cut off any of the
    transactions before or after it commits. Whatever the producers send, the
    tables stay consistent: the rows, the global keys and the positions agree one
    to one; the offsets of a shard are 1, 2, 3, ... without a gap; an outcome
    comes after the decision it belongs to, and a decision of a tenant has one
    event and at most one outcome event; every row and every quarantined outcome is that
    of an event whose signature its replica accepted, a released one unchanged.
    And rows are only ever added. *)
Theorem audit_chain_integrity calls s log s' ps' :
  chain_inv s -> Forall (fun c => (ca_cfg c, ca_verifier c) ∈ replicas) calls ->
  pool_run (handle_ingest month_of event_checks quarantine_checks) other (s, serve <$> calls) log (s', ps') ->
  chain_inv s' /\ exists new, canonical_events s' = new ++ canonical_events s.
Proof.
  intros HI Hcalls Hrun. by destruct (calls_inv calls s log s' ps' HI Hcalls Hrun) as [HI' [Hnew _]].
Qed.

(** An answered call was answered honestly. *)
Lemma calls_answered calls s log s' ps' i c r :
  chain_inv s -> Forall (fun c => (ca_cfg c, ca_verifier c) ∈ replicas) calls ->
  pool_run (handle_ingest month_of event_checks quarantine_checks) other (s, serve <$> calls) log (s', ps') ->
  calls !! i = Some c -> ps' !! i = Some (Ret r) -> answered c r s'.
Proof.
  intros HI Hcalls Hrun Hc Hr.
  destruct (pool_follows (handle_ingest month_of event_checks quarantine_checks) chain_inv other (fun _ => grows) (fun _ => grows)
    (fun i r s' => forall c, calls !! i = Some c -> answered c r s') s (serve <$> calls) log s' ps')
    as (_ & _ & Hps); try done.
  - intros _. apply grows_preorder.
  - intros j x s1 s2 Hg Hx c' Hc'. specialize (Hx c' Hc'). destruct x as [rs|]; [|done].
    destruct Hx as [bundle Hx]. exists bundle. eapply Forall2_impl; [done|]. intros evt y.
    by apply honest_grows.
  - intros s1 s2 HI1 Ho. by destruct (other_inv s1 s2 HI1 Ho).
  - intros j p (c' & -> & Hc')%list_lookup_fmap_Some_1.
    eapply follows_weaken; [|apply serve_follows]; [intros x s1 Hx c2 Hc2; by simplify_eq|].
    rewrite Forall_forall in Hcalls. apply Hcalls. by eapply list_elem_of_lookup_2.
  - by apply (Hps i _ Hr c Hc).
Qed.

(** C7: an answer is honest. In every such interleaving, when a call has been
    answered, its results are those of its events, one each and in order, and
    still hold: APPENDED, that the chain has a row with the event's content and
    signature at the position answered; DEDUPED and AWAITING_PRECEDING_DECISION,
    that an event of this id is in the chain or held in quarantine; and these,
    like DUPLICATE and BACKPRESSURE, only for an event whose signature was
    accepted. A refused signature is answered QUARANTINED only when the evidence
    was recorded, or the event is malformed; otherwise the status is not final. *)
Theorem acknowledgement_honest calls s log s' ps' i c r :
  chain_inv s -> Forall (fun c => (ca_cfg c, ca_verifier c) ∈ replicas) calls ->
  pool_run (handle_ingest month_of event_checks quarantine_checks) other (s, serve <$> calls) log (s', ps') ->
  calls !! i = Some c -> ps' !! i = Some (Ret r) -> answered c r s'.
Proof. intros HI Hcalls Hrun Hc Hr. exact (calls_answered calls s log s' ps' i c r HI Hcalls Hrun Hc Hr). Qed.

End Chain.

(** ** A run *)

Module ChainDemo.
Import Demo.

#[export] Instance demo_json : JsonLib := {| json_from_slice := fun _ => None; json_to_vec := fun _ => "{}" |}.
#[export] Instance demo_base64 : Base64Lib :=
  {| b64_encode := fun s => s; b64_decode := Some; b64_decode_encode := fun s => eq_refl;
     b64_encode_empty := fun s H => H;
     b64_encode_nil := eq_refl |}.
#[export] Instance demo_wire : WireLib :=
  {| encode_cloudevent := fun e => ce_id e +:+ "/" +:+ ce_producer_id e +:+ "/" +:+ ce_data e |}.
#[export] Instance demo_x509 : X509Lib := {| certificate_names := fun _ => Ok None |}.

Definition month_of (t : Z) : Z := t / secs 2592000.
Definition no_checks (e : StoredEvent) : bool := true.

(** A transaction that no outage cuts off. *)
Definition exec_tx {A} (m : tx A) (s : Db) : result DomainError A * Db :=
  match m s with Ok (a, s') => (Ok a, s') | Err e => (Err e, s) end.

Lemma exec_tx_runs {A} (m : tx A) s : runs m s (exec_tx m s).1 (exec_tx m s).2.
Proof. unfold runs, exec_tx. destruct (m s) as [[a s']|e]; [by left|]. split; [by left|done]. Qed.

(** A release takes the first awaiting outcome. *)
Definition first_awaiting (t d : uuid) (s : Db) : list QuarantinedRow :=
  match find (fun kv : uuid * OutcomeQuarantine =>
                awaiting t d kv.2 && bool_decide (qr_event_id (oq_row kv.2) = kv.1))
          (map_to_list (outcome_quarantine s)) with
  | Some (_, q) => [oq_row q]
  | None => []
  end.

Lemma first_awaiting_releasable t d s : releasable t d s (first_awaiting t d s).
Proof.
  unfold first_awaiting. destruct (find _ _) as [[id q]|] eqn:Hf; [|by split; constructor].
  apply List.find_some in Hf as [Hin [Haw Hid%bool_decide_eq_true]%andb_true_iff].
  apply list_elem_of_In, elem_of_map_to_list in Hin. split; [apply NoDup_singleton|].
  constructor; [|done]. exists q. cbn in Hid. by rewrite Hid.
Qed.

Definition step (X : Type) (e : ingestE X) (s : Db) : X * Db :=
  match e in ingestE X return X * Db with
  | LookupBundle id hash => exec_tx (lookup_bundle id hash) s
  | BackpressureDepth => exec_tx approximate_backpressure_depth s
  | HasPrecedingDecision t d => exec_tx (has_preceding_decision t d) s
  | AppendEvent i => exec_tx (append_event month_of no_checks 0 i) s
  | QuarantineOutcome i o => exec_tx (quarantine_audit_outcome no_checks 0 i o) s
  | ReleaseQuarantined t d region shard =>
      exec_tx (release_quarantined_outcomes month_of no_checks 0 (first_awaiting t d s) t d region shard) s
  | QuarantineSignature evt bytes reason tr => exec_tx (insert_with_truncation evt bytes reason tr) s
  | IngestNow => (0, s)
  end.

Lemma ingest_step_handle X (e : ingestE X) s :
  handle_ingest month_of no_checks no_checks X e s (step X e s).1 (step X e s).2.
Proof.
  destruct e; cbn [handle_ingest step]; try apply exec_tx_runs; [eexists; apply exec_tx_runs..| |done].
  eexists _, _. split; [apply first_awaiting_releasable|apply exec_tx_runs].
Qed.

Definition cfg : Config :=
  {| cf_region := "eu"; cf_ingest_shard_id := "0"; cf_orphan_after_seconds := 30;
     cf_backpressure_threshold := 10000; cf_strict_signatures := false;
     cf_require_producer_spiffe_san := false |}.

Definition event (type id : string) : WireEvent :=
  {| ce_specversion := "1.0"; ce_type := type; ce_source := "spendguard://sidecar"; ce_id := id;
     ce_time := Some {| seconds := 1000; nanos := 0 |}; ce_datacontenttype := "application/json";
     ce_data := "{}"; ce_tenant_id := "utenant"; ce_run_id := EmptyString; ce_decision_id := "udecision";
     ce_schema_bundle_id := EmptyString; ce_producer_id := "sidecar:a"; ce_producer_sequence := 1;
     ce_producer_signature := EmptyString; ce_signing_key_id := EmptyString;
     ce_predicted_a_tokens := 0; ce_predicted_b_tokens := 0; ce_predicted_c_tokens := 0;
     ce_reserved_strategy := EmptyString; ce_prediction_strategy_used := EmptyString;
     ce_prediction_policy_used := EmptyString; ce_tokenizer_tier := EmptyString;
     ce_tokenizer_version_id := EmptyString; ce_prediction_confidence := S754_zero false;
     ce_prediction_sample_size := 0; ce_cold_start_layer_used := EmptyString;
     ce_run_projection_at_decision_atomic := 0; ce_run_predicted_remaining_steps := 0;
     ce_run_steps_completed_so_far := 0; ce_actual_input_tokens := 0; ce_actual_output_tokens := 0;
     ce_delta_b_ratio := S754_zero false; ce_delta_c_ratio := S754_zero false |}.

Definition call (evt : WireEvent) : Call :=
  {| ca_cfg := cfg; ca_verifier := None;
     ca_request := {| ae_producer_id := "sidecar:a"; ae_events := [evt]; ae_route := Enforcement;
                      ae_schema_bundle := Some {| sb_schema_bundle_id := "ubundle";
                                                  sb_schema_bundle_hash := "hash" |} |};
     ca_peer_leaf_der := None |}.

Definition decision_call : Call := call (event AUDIT_DECISION "u1").
Definition outcome_call : Call := call (event AUDIT_OUTCOME "u2").

Definition db0 : Db :=
  {| schema_bundles := {[ "bundle" := "hash" ]}; dedup := ∅; global_keys := ∅; canonical_events := [];
     ingest_positions := ∅; ingest_shards := ∅; outcome_quarantine := ∅; signature_quarantine := [] |}.

Lemma db0_inv replicas : chain_inv month_of replicas db0.
Proof. by constructor; [constructor; try done; constructor|constructor|..]. Qed.

(** The interleaving of calls by a schedule, and the statuses answered. *)
Definition ran (calls : list Call) (order : list nat) :=
  schedule step order (db0, serve <$> calls).

Definition statuses (ps : list (prog ingestE (result Status (list EventResult)))) : list (option (list EventStatus)) :=
  List.map (fun p => match p with Ret (Ok rs) => Some (List.map er_status rs) | _ => None end) ps.

Lemma ran_run calls order :
  pool_run (handle_ingest month_of no_checks no_checks) other (db0, serve <$> calls)
    (ran calls order).1 (ran calls order).2.
Proof. apply schedule_run, ingest_step_handle. Qed.

(** The outcome comes first and is put aside; the decision releases it. *)
Definition released_order : list nat := [1; 1; 1; 1; 1; 0; 0; 0; 0]%nat.
Definition calls : list Call := [decision_call; outcome_call].

Example outcome_released :
  let s := (ran calls released_order).2.1 in
  statuses (ran calls released_order).2.2 = [Some [ES_Appended]; Some [ES_AwaitingPrecedingDecision]] /\
  ((fun r => (se_event_id (cr_event r), cr_ingest_log_offset r)) <$> canonical_events s) = [("2", 2); ("1", 1)].
Proof. vm_compute. done. Qed.

Lemma audit_chain_integrity_witness :
  chain_inv month_of [(cfg, None)] (ran calls released_order).2.1 /\
  length (canonical_events (ran calls released_order).2.1) = 2%nat.
Proof.
  split; [|by vm_compute].
  apply (audit_chain_integrity month_of no_checks no_checks [(cfg, None)] calls db0
           (ran calls released_order).1 _ (ran calls released_order).2.2).
  - apply db0_inv.
  - repeat constructor.
  - rewrite <- surjective_pairing. apply ran_run.
Defined.

Lemma acknowledgement_honest_witness :
  answered decision_call
    (Ok [{| er_event_id := "u1"; er_status := ES_Appended;
            er_ingest_position := Some {| ip_region_id := "eu"; ip_ingest_shard_id := "0";
                                          ip_ingest_log_offset := 1 |};
            er_error := None |}]) (ran calls released_order).2.1.
Proof.
  apply (acknowledgement_honest month_of no_checks no_checks [(cfg, None)] calls db0
           (ran calls released_order).1 _ (ran calls released_order).2.2 0%nat).
  - apply db0_inv.
  - repeat constructor.
  - rewrite <- surjective_pairing. apply ran_run.
  - done.
  - by vm_compute.
Defined.

End ChainDemo.
