(* ===== verification/Stranded.v ===== *)
(** * Outcomes that are never released

    A quarantined outcome is released by the call that appends its decision, right
    after it did. If that call finds the quarantine empty - the outcome is put
    aside a moment later - or if its release fails, no later call releases it: the
    producer that sends it again is told DEDUPED, and the chain never has it. *)

From S2P Require Import Prelude Floats Deps Effects Proto Signing Canonical Ingest Chain.

Section Stranded.
Context `{HU : UuidLib} `{HC : CryptoLib} `{HJ : JsonLib} `{HB : Base64Lib} `{HW : WireLib}
        `{HT : ChronoLib} `{HX : X509Lib} `{HH : !HexLib}.
Context (month_of : Z -> Z) (event_checks quarantine_checks : StoredEvent -> bool).
Context (t d id : uuid).

(** The decision is in the chain, its outcome [id] is held in quarantine, and the
    claim of its id does not expire. *)
Record stranded (s : Db) : Prop := {
  sd_decision : has_key AUDIT_DECISION t d s = true;
  sd_held : exists q, outcome_quarantine s !! id = Some q /\ oq_tenant_id q = t /\
              oq_decision_id q = d /\ forall to, oq_state q <> Released to;
  sd_claim : exists row, dedup s !! id = Some row /\ dd_expires_at row = None;
  sd_absent : global_keys s !! id = None;
}.

Lemma has_key_mono ty t' d' s s' :
  global_keys s ⊆ global_keys s' -> has_key ty t' d' s = true -> has_key ty t' d' s' = true.
Proof.
  intros Hsub. unfold has_key. rewrite !existsb_exists. intros ([i k] & Hin & Hk).
  exists (i, k). split; [|done]. apply list_elem_of_In, elem_of_map_to_list.
  apply list_elem_of_In, elem_of_map_to_list in Hin. by eapply lookup_weaken.
Qed.

(** What leaves the id and its outcome alone. *)
Lemma stranded_mono s s' :
  stranded s -> global_keys s ⊆ global_keys s' -> global_keys s' !! id = None ->
  outcome_quarantine s' !! id = outcome_quarantine s !! id -> dedup s' !! id = dedup s !! id ->
  stranded s'.
Proof.
  intros [Hd Hq Hc _] Hsub Hno Hoq Hdd. constructor; [by eapply has_key_mono|by rewrite Hoq|by rewrite Hdd|done].
Qed.

Lemma stored_stranded now offset e s :
  stranded s -> global_keys s !! se_event_id e = None -> se_event_id e <> id -> stranded (stored month_of now offset e s).
Proof.
  intros Hs Hno Hne. apply (stranded_mono s); [done|by apply insert_subseteq| |done..]. cbn.
  rewrite lookup_insert_ne by done. apply Hs.
Qed.

Lemma append_event_stranded now i s o s' :
  stranded s -> append_event month_of event_checks now i s = Ok (o, s') ->
  stranded s' /\
  forall offset, o = Appended offset ->
    ai_event_type i = AUDIT_DECISION -> ai_tenant_id i = t -> ai_decision_id i <> Some d.
Proof.
  intros Hs H%append_event_spec. destruct o as [offset|]; [|by destruct H as [-> _]].
  destruct H as (Hno & row & _ & Hk & [_ Hone] & _ & ->). split.
  - assert (Hne : ai_event_id i <> id).
    { intros Heq. destruct (sd_claim _ Hs) as (row' & Hrow & _). by rewrite Heq, Hrow in Hno. }
    apply stored_stranded; [|done|done].
    apply (stranded_mono s); [done|done|apply Hs|done|]. cbn. by rewrite lookup_insert_ne.
  - intros _ _ Hty Ht Hd. specialize (Hone d Hd (or_introl Hty)). cbn in Hone.
    rewrite Hty, Ht in Hone. by rewrite (sd_decision _ Hs) in Hone.
Qed.

Lemma quarantine_stranded now i o s u s' :
  stranded s -> quarantine_audit_outcome quarantine_checks now i o s = Ok (u, s') -> stranded s'.
Proof.
  intros Hs [[-> _]|(d' & row & _ & Hno & _ & _ & ->)]%quarantine_audit_outcome_spec; [done|].
  assert (Hne : ai_event_id i <> id).
  { intros Heq. destruct (sd_claim _ Hs) as (row' & Hrow & _). by rewrite Heq, Hrow in Hno. }
  destruct (outcome_quarantine s !! ai_event_id i);
    (apply (stranded_mono s); [done|done|apply Hs| |]; cbn; by rewrite ?lookup_insert_ne).
Qed.

Lemma release_rows_stranded now t' d' region shard rows n s m s' :
  stranded s -> Forall (fun r => qr_event_id r <> id) rows ->
  release_rows month_of event_checks now t' d' region shard rows n s = Ok (m, s') -> stranded s'.
Proof.
  revert n s; induction rows as [|r rows IH]; intros n s Hs Hne; cbn [release_rows]; [by intros [= _ <-]|].
  apply Forall_cons in Hne as [Hr Hne].
  intros (e & s0 & [He ->]%tx_lift_ok & H)%tx_bind_ok.
  apply tx_bind_ok in H as (st & s1 & Hst%store_event_spec & H). destruct st as [offset|]; [|done].
  apply tx_bind_ok in H as (u & s2 & [-> _]%mark_released_spec & H).
  destruct Hst as (Hno & _ & _ & ->).
  assert (Hid : se_event_id e = qr_event_id r).
  { unfold released_event in He. apply result_bind_ok in He as (c & _ & He). by injection He as <-. }
  assert (Hs1 : stranded (stored month_of now offset e s)).
  { apply stored_stranded; [done|done|by rewrite Hid]. }
  eapply IH; [|done|exact H]. destruct (outcome_quarantine _ !! qr_event_id r); [|done].
  apply (stranded_mono _ _ Hs1); [done|apply Hs1| |done]. cbn. by rewrite lookup_insert_ne.
Qed.

Lemma runs_cases {A} (m : tx A) s x s' :
  runs m s x s' -> (s' = s \/ exists a, m s = Ok (a, s')) /\ forall a, x = Ok a -> m s = Ok (a, s').
Proof.
  unfold runs. destruct (m s) as [[a s1]|e].
  - intros [[-> ->]|(e & -> & [->| ->])]; split; eauto; try done. by intros a' [= ->].
  - intros [[->|(e' & ->)] ->]; by split; [left|].
Qed.

(** A release is harmless if it is for another decision. *)
Definition harmless {X} (e : ingestE X) : Prop :=
  match e with ReleaseQuarantined t' d' _ _ => ~ (t' = t /\ d' = d) | _ => True end.

(** The decision is not appended a second time. *)
Definition not_again {X} (e : ingestE X) : X -> Prop :=
  match e in ingestE X return X -> Prop with
  | AppendEvent i => fun x => forall offset, x = Ok (Appended offset) ->
      ai_event_type i = AUDIT_DECISION -> ai_tenant_id i = t -> ai_decision_id i <> Some d
  | _ => fun _ => True
  end.

Lemma effect_stranded X (e : ingestE X) s x s' :
  stranded s -> harmless e ->
  handle_ingest month_of event_checks quarantine_checks X e s x s' -> stranded s' /\ not_again e x.
Proof.
  intros Hs He Hh.
  destruct e as [b hash| |t' d'|i|i o|t' d' region shard|evt bytes reason tr|];
    cbn [harmless handle_ingest not_again] in He, Hh |- *.
  - apply runs_cases in Hh as [[->|[a Ha]] _]; [done|]. split; [|done]. revert Ha. unfold lookup_bundle.
    destruct (schema_bundles s !! b) as [h|]; [|by intros [= _ <-]].
    destruct (h =?s _); [done|]. destruct (h =?s hash); [|done]. by intros [= _ <-].
  - apply runs_cases in Hh as [[->|[a Ha]] _]; [done|]. by injection Ha as _ <-.
  - apply runs_cases in Hh as [[->|[a Ha]] _]; [done|]. by injection Ha as _ <-.
  - destruct Hh as [now Hh]. apply runs_cases in Hh as [Hs' Hx]. split.
    + destruct Hs' as [->|[a Ha]]; [done|]. by eapply append_event_stranded.
    + intros offset Hx'. by destruct (append_event_stranded now i s _ s' Hs (Hx _ Hx')) as [_ Hn]; eapply Hn.
  - destruct Hh as [now Hh]. apply runs_cases in Hh as [[->|[a Ha]] _]; [done|]. split; [|done].
    by eapply quarantine_stranded.
  - destruct Hh as (now & rows & [_ Hrel] & Hh). apply runs_cases in Hh as [[->|[a Ha]] _]; [done|].
    split; [|done]. eapply release_rows_stranded; [done| |exact Ha]. eapply Forall_impl; [done|].
    intros r (q & Hq & _ & Haw) Heq. destruct (sd_held _ Hs) as (q' & Hq' & Ht & Hd & _).
    rewrite Heq, Hq' in Hq. injection Hq as <-. apply He. unfold awaiting in Haw.
    apply andb_true_iff in Haw as [[H1%bool_decide_eq_true H2%bool_decide_eq_true]%andb_true_iff _].
    by rewrite <- H1, <- H2.
  - apply runs_cases in Hh as [[->|[a Ha]] _]; [done|]. split; [|done]. revert Ha.
    unfold insert_with_truncation. destruct (_ || _); [done|]. intros [= _ <-].
    by apply (stranded_mono s); [done|done|apply Hs|..].
  - by subst s'.
Qed.

Lemma other_stranded s s' : stranded s -> other s s' -> stranded s'.
Proof.
  intros Hs [(b & hash & _ & ->)|[(i & row & tm & Hrow & _ & Hexp & ->)|(i & q & Hq & Hst & ->)]].
  - by apply (stranded_mono s); [done|done|apply Hs|..].
  - apply (stranded_mono s); [done|done|apply Hs|done|]. cbn. rewrite lookup_delete_ne; [done|].
    intros ->. destruct (sd_claim _ Hs) as (row' & Hrow' & Hexp'). by simplify_eq.
  - destruct (decide (i = id)) as [->|Hne].
    + destruct Hs as [Hd (q' & Hq' & Ht & Hdd & _) Hc Hno]. simplify_eq. constructor; [done| |done|done].
      eexists. cbn. rewrite lookup_insert_eq. split; [done|]. by split_and!.
    + apply (stranded_mono s); [done|done|apply Hs| |done]. cbn. by rewrite lookup_insert_ne.
Qed.

(** ** The handlers *)

Abbreviation leaves p := (follows (handle_ingest month_of event_checks quarantine_checks) stranded
  (fun _ _ => True) (fun _ _ => True) (fun _ _ => True) p).

Lemma leaves_effect {X R} (e : ingestE X) (k : X -> prog ingestE R) s :
  harmless e -> (forall x s', not_again e x -> leaves (k x) s') -> leaves (Vis e k) s.
Proof.
  intros He Hk s1 x s2 _ HI Hh. destruct (effect_stranded X e s1 x s2 HI He Hh) as [HI2 Hn].
  split; [done|]. split; [done|]. by apply Hk.
Qed.

Lemma leaves_act {X A D} (e : ingestE X) (f : X -> M ingestE D A) s :
  harmless e -> (forall x s', not_again e x -> leaves (f x) s') -> leaves (act e ≫= f) s.
Proof. apply leaves_effect. Qed.

Lemma leaves_pbind {A B} (p : prog ingestE A) (f : A -> prog ingestE B) s :
  leaves p s -> (forall a s', leaves (f a) s') -> leaves (pbind p f) s.
Proof. intros Hp Hf. apply follows_pbind. eapply follows_weaken; [|exact Hp]. intros a s' _. apply Hf. Qed.

Lemma lift_leaves {A B D} (x : result D A) (f : A -> M ingestE D B) s :
  (forall a, leaves (f a) s) -> leaves (lift x ≫= f) s.
Proof. intros Hf. destruct x; [apply Hf|done]. Qed.

Lemma set_aside_leaves cfg evt i s : leaves (set_aside cfg evt i) s.
Proof.
  apply leaves_act; [done|]. intros now s1 _. apply leaves_act; [done|]. by intros [u|e] s2 _.
Qed.

Lemma append_or_quarantine_leaves cfg evt i s :
  ai_event_type i = ce_type evt -> leaves (append_or_quarantine cfg evt i) s.
Proof.
  intros Hty. apply leaves_pbind.
  - destruct (ce_type evt =?s AUDIT_OUTCOME); [|done]. destruct (ai_decision_id i) as [d'|]; [|done].
    apply leaves_act; [done|]. by intros [b|e] s1 _.
  - intros [[]|r] s1; [|apply set_aside_leaves|done].
    apply leaves_act; [done|]. intros [[offset|]|e] s2 Hagain; [|done|].
    + destruct (ce_type evt =?s AUDIT_DECISION) eqn:Hdec; [|done]. apply String.eqb_eq in Hdec.
      destruct (ai_decision_id i) as [d'|] eqn:Hd; [|done].
      apply leaves_effect; [|done]. cbn. intros [Ht ->]. rewrite <- Hty in Hdec.
      cbn in Hagain. by apply (Hagain offset).
    + destruct e; try done. apply set_aside_leaves.
Qed.

Lemma process_one_leaves cfg verifier bundle evt route bp s :
  leaves (process_one cfg verifier evt bundle route bp) s.
Proof.
  apply leaves_pbind; [|done]. unfold process_one_inner.
  apply lift_leaves; intros ids. apply leaves_pbind.
  - apply leaves_pbind; [|done]. unfold verify_or_handle. destruct verifier as [v|]; [|done].
    destruct (verify_cloudevent v evt) as [u|f]; [done|]. destruct (strict_only f && _); [done|].
    apply leaves_pbind; [|done]. unfold write_quarantine. destruct (if _ <? _ then _ else _) as [bytes tr].
    apply leaves_effect; [done|]. by intros [u|e] s1 _.
  - intros [[r|]|r] s1; [done| |done]. destruct (bp && _); [done|].
    apply lift_leaves; intros tm. by apply append_or_quarantine_leaves.
Qed.

Lemma process_all_leaves cfg verifier bundle evts route bp s :
  leaves (process_all cfg verifier bundle route bp evts) s.
Proof.
  revert s; induction evts as [|evt evts IH]; intros s; [done|]. apply leaves_pbind; [apply process_one_leaves|].
  intros r s1. by apply leaves_pbind.
Qed.

Lemma serve_leaves c s : leaves (serve c) s.
Proof.
  unfold serve, handle. do 6 (apply lift_leaves; intros ?). apply leaves_act; [done|].
  intros found s1 _. do 2 (apply lift_leaves; intros ?). apply leaves_act; [done|]. intros depth s2 _.
  apply leaves_pbind; [apply process_all_leaves|done].
Qed.

(** C32: a stranded outcome stays stranded. Once a decision is in the chain while
    its outcome is held in quarantine, no call that begins after that - on any
    replica, from any producer, sending whatever events, the outcome itself
    included, in every interleaving - releases the outcome or adds an event of its
    id to the chain; nor do the reaping of claims, outages or the marking of
    orphans. *)
Theorem stranded_outcome_lost calls s log s' ps' :
  stranded s ->
  pool_run (handle_ingest month_of event_checks quarantine_checks) other (s, serve <$> calls) log (s', ps') ->
  stranded s'.
Proof.
  intros HI Hrun.
  destruct (pool_follows (handle_ingest month_of event_checks quarantine_checks) stranded other
    (fun _ _ _ => True) (fun _ _ _ => True) (fun _ _ _ => True) s (serve <$> calls) log s' ps')
    as (HI' & _); try done.
  - intros s1 s2 HI1 Ho. split; [by eapply other_stranded|done].
  - intros i p (c & -> & _)%list_lookup_fmap_Some_1. apply serve_leaves.
Qed.

End Stranded.

(** ** Two ways to lose an outcome *)

Module StrandedDemo.
Import Demo ChainDemo.

(** The outcome's call looks for the decision before it is appended, and puts the
    outcome aside after the decision's call found the quarantine empty. *)
Definition calls : list Call := [decision_call; outcome_call; outcome_call].
Definition race : list nat := [1; 1; 1; 0; 0; 0; 0; 1; 1]%nat.
Definition lost : Db := (ran calls race).2.1.

Example race_strands :
  statuses (ran calls race).2.2 = [Some [ES_Appended]; Some [ES_AwaitingPrecedingDecision]; None] /\
  ((fun r => se_event_id (cr_event r)) <$> canonical_events lost) = ["1"].
Proof. vm_compute. done. Qed.

(** The producer sends the outcome again and is told that the chain has it. *)
Example resent_deduped :
  let c := schedule step [0; 0; 0; 0]%nat (lost, serve <$> [outcome_call]) in
  statuses c.2.2 = [Some [ES_Deduped]] /\
  ((fun r => se_event_id (cr_event r)) <$> canonical_events c.2.1) = ["1"].
Proof. vm_compute. done. Qed.

Lemma lost_stranded : stranded (HU := demo_uuid) "tenant" "decision" "2" lost.
Proof.
  constructor; [by vm_compute| | |by vm_compute].
  - eexists. split; [by vm_compute|]. by repeat split.
  - eexists. by split; vm_compute.
Qed.

Lemma stranded_outcome_lost_witness :
  stranded (HU := demo_uuid) "tenant" "decision" "2"
    (schedule step [0; 0; 0; 0]%nat (lost, serve <$> [outcome_call])).2.1.
Proof.
  apply (stranded_outcome_lost month_of no_checks no_checks "tenant" "decision" "2" [outcome_call] lost
           (schedule step [0; 0; 0; 0]%nat (lost, serve <$> [outcome_call])).1 _
           (schedule step [0; 0; 0; 0]%nat (lost, serve <$> [outcome_call])).2.2).
  - apply lost_stranded.
  - rewrite <- surjective_pairing. apply schedule_run, ingest_step_handle.
Defined.

(** Two outcomes of one decision in quarantine: the second violates the uniqueness
    of outcomes, so that neither is released. *)
Definition two_outcomes : Db :=
  (ran [outcome_call; call (event AUDIT_OUTCOME "u3"); decision_call]
     [0; 0; 0; 0; 0; 1; 1; 1; 1; 1; 2; 2; 2]%nat).2.1.

Example two_outcomes_block_release :
  let rows := (fun kv : string * OutcomeQuarantine => oq_row kv.2) <$>
                map_to_list (outcome_quarantine two_outcomes) in
  length rows = 2%nat /\
  match release_quarantined_outcomes month_of no_checks 0 rows "tenant" "decision" "eu" "0" two_outcomes with
  | Err (Duplicate _) => True
  | _ => False
  end.
Proof. vm_compute. done. Qed.

End StrandedDemo.
