(* ===== verification/Query.v ===== *)
(** * Reading the audit chain

    [services/canonical_ingest/src]: the QueryAuditChain RPC
    ([handlers/query_audit_chain.rs], [persistence/query.rs]) and the
    VerifySchemaBundle RPC ([handlers/verify_schema_bundle.rs]), over the database of
    [Ingest]. The theorem is about the whole way of an event, from the producer
    through AppendEvents and the tables to the reader. *)

From Stdlib Require Import Sorting.Sorted.
From S2P Require Import Prelude Floats Deps Effects Proto Signing Canonical Ingest Chain.

(** ** QueryAuditChain *)

(** [QueryAuditChainRequest.anchor]. *)
Inductive ProtoAnchor :=
  | ADecisionId (s : string)
  | ARunId (s : string)
  | AReservationId (s : string).

Record QueryAuditChainRequest := {
  qa_tenant_id : string;
  qa_anchor : option ProtoAnchor;
  qa_from : option Timestamp;
  qa_to : option Timestamp;
  qa_storage_classes : list Z;
}.

(** [ProtoStorageClass::try_from], and the name in the database. *)
Definition class_of_proto (c : Z) : option string :=
  if c =? 1 then Some "immutable_audit_log"
  else if c =? 2 then Some "canonical_raw_log"
  else if c =? 3 then Some "profile_payload_blob"
  else None.

Definition storage_classes_of (req : QueryAuditChainRequest) : list string :=
  match qa_storage_classes req with
  | [] => ["immutable_audit_log"; "canonical_raw_log"]
  | cs => omap class_of_proto cs
  end.

Definition proto_of_class (c : string) : Z :=
  if c =?s "immutable_audit_log" then 1
  else if c =?s "canonical_raw_log" then 2
  else if c =?s "profile_payload_blob" then 3
  else 0.

Record AuditChainEvent := {
  ac_event : option WireEvent;
  ac_ingest_position : option IngestPosition;
  ac_ingested_at : option Timestamp;
  ac_storage_class : Z;
}.

Section Query.
Context `{HU : UuidLib} `{HC : CryptoLib} `{HJ : JsonLib} `{HB : Base64Lib} `{HW : WireLib}
        `{HT : ChronoLib} `{HX : X509Lib} `{HH : !HexLib}.

(** What the rows are selected by, besides the tenant. *)
Inductive ChainOf := OfDecision (id : uuid) | OfRun (id : uuid).

(** [query_chain_by_decision] and [query_chain_by_run]; the look-up of a bundle. *)
Inductive queryE : Type -> Type :=
  | QueryChain (c : ChainOf) (tenant : uuid) (classes : list string)
      : queryE (result DomainError (list CanonicalRow))
  | QueryBundle (id : uuid) (hash : string) : queryE (result DomainError (option CachedBundle)).

Definition audit_chain_event (evt : WireEvent) (row : CanonicalRow) : AuditChainEvent :=
  {| ac_event := Some evt;
     ac_ingest_position := Some {| ip_region_id := se_region_id (cr_event row);
                                   ip_ingest_shard_id := se_ingest_shard_id (cr_event row);
                                   ip_ingest_log_offset := u64_wrap (cr_ingest_log_offset row) |};
     ac_ingested_at := Some (timestamp_of (cr_ingest_at row));
     ac_storage_class := proto_of_class (se_storage_class (cr_event row)) |}.

(** The event of a row; a row that does not decode is skipped. *)
Definition stream_row (row : CanonicalRow) : option (result Status AuditChainEvent) :=
  match decode_cloudevent_from_row (Some (se_payload_json (cr_event row)))
          (se_producer_signature (cr_event row)) with
  | Ok evt => Some (Ok (audit_chain_event evt row))
  | Err _ => None
  end.

Definition bad_uuid (field : string) : Status :=
  status_error "invalid_argument" (field +:+ ": invalid UUID").

(** The rows of an anchor. *)
Definition rows_of_anchor (tenant : uuid) (classes : list string) (anchor : option ProtoAnchor)
    : M queryE Status (list CanonicalRow) :=
  let rows c :=
    r ← act (QueryChain c tenant classes);
    match r with Ok rows => mret rows | Err e => fail (to_status e) end in
  match anchor with
  | Some (ADecisionId s) =>
      match uuid_parse s with Some d => rows (OfDecision d) | None => fail (bad_uuid "decision_id") end
  | Some (ARunId s) =>
      match uuid_parse s with Some d => rows (OfRun d) | None => fail (bad_uuid "run_id") end
  | Some (AReservationId _) =>
      fail (status_error "unimplemented"
              "ReservationId anchor: requires denorm column; vertical slice expansion")
  | None => fail (status_error "invalid_argument" "anchor required")
  end.

(** The RPC: what a client that stays is sent. *)
Definition query_audit_chain (req : QueryAuditChainRequest)
    : M queryE Status (list (result Status AuditChainEvent)) :=
  tenant ← lift (ok_or (uuid_parse (qa_tenant_id req)) (bad_uuid "tenant_id"));
  pbind (rows_of_anchor tenant (storage_classes_of req) (qa_anchor req)) (fun r =>
    Ret (Ok (match r with Ok rows => omap stream_row rows | Err s => [Err s] end))).

(** ** VerifySchemaBundle *)

Inductive VerifyStatus := Known | Unknown | HashMismatch.

Definition verify_schema_bundle (bundle : option SchemaBundleRef)
    : M queryE Status (VerifyStatus * option string) :=
  bundle ← lift (ok_or bundle (status_error "invalid_argument" "schema_bundle required"));
  bundle_id ← lift (ok_or (uuid_parse (sb_schema_bundle_id bundle)) (bad_uuid "schema_bundle_id"));
  r ← act (QueryBundle bundle_id (sb_schema_bundle_hash bundle));
  match r with
  | Ok (Some _) => mret (Known, None)
  | Ok None => mret (Unknown, None)
  | Err (SchemaBundleHashMismatch msg) => mret (HashMismatch, Some msg)
  | Err e => fail (to_status e)
  end.

(** ** What the queries answer *)

(** The row belongs to the tenant and to the decision or run of the anchor, and is
    of one of the classes. *)
Definition selects (c : ChainOf) (tenant : uuid) (classes : list string) (r : CanonicalRow) : Prop :=
  let e := cr_event r in
  se_tenant_id e = tenant /\ se_storage_class e ∈ classes /\
  match c with
  | OfDecision d => se_decision_id e = Some d
  | OfRun d => se_run_id e = Some d
  end.

#[global] Instance selects_dec c tenant classes r : Decision (selects c tenant classes r).
Proof. destruct c; apply _. Defined.

(** ORDER BY event_time ASC, ingest_log_offset ASC. *)
Definition in_order (r r' : CanonicalRow) : Prop :=
  se_event_time (cr_event r) < se_event_time (cr_event r') \/
  se_event_time (cr_event r) = se_event_time (cr_event r') /\
    cr_ingest_log_offset r <= cr_ingest_log_offset r'.

(** What the database in the state [s] answers; it fails only when it is not [up]. *)
Definition query_answer (up : bool) {X} (e : queryE X) (s : Db) : X -> Prop :=
  match e in queryE X return X -> Prop with
  | QueryChain c tenant classes => fun x =>
      (up = false /\ exists e, x = Err (DbError e)) \/
      (exists rows, x = Ok rows /\ StronglySorted in_order rows /\
                    rows ≡ₚ filter (selects c tenant classes) (canonical_events s))
  | QueryBundle id hash => fun x => runs (lookup_bundle id hash) s x s
  end.

(** [p] runs to [r] while the database is in the state [s]. *)
Fixpoint serves (up : bool) {R} (p : prog queryE R) (s : Db) (r : R) : Prop :=
  match p with
  | Ret r' => r = r'
  | Vis e k => exists x, query_answer up e s x /\ serves up (k x) s r
  end.

(** The row is one that the request asks for: of its tenant, of the decision or run
    of its anchor, and of a class that it lists by number; of the audit log or the
    raw log if it lists none. *)
Definition in_class (req : QueryAuditChainRequest) (class : string) : Prop :=
  match qa_storage_classes req with
  | [] => class = "immutable_audit_log" \/ class = "canonical_raw_log"
  | cs => class = "immutable_audit_log" /\ 1 ∈ cs \/ class = "canonical_raw_log" /\ 2 ∈ cs \/
          class = "profile_payload_blob" /\ 3 ∈ cs
  end.

Definition of_anchor (req : QueryAuditChainRequest) (e : StoredEvent) : Prop :=
  match qa_anchor req with
  | Some (ADecisionId s) => exists d, uuid_parse s = Some d /\ se_decision_id e = Some d
  | Some (ARunId s) => exists d, uuid_parse s = Some d /\ se_run_id e = Some d
  | _ => False
  end.

Definition asked_for (req : QueryAuditChainRequest) (r : CanonicalRow) : Prop :=
  uuid_parse (qa_tenant_id req) = Some (se_tenant_id (cr_event r)) /\
  in_class req (se_storage_class (cr_event r)) /\ of_anchor req (cr_event r).

(** Why a request is answered with one error: its anchor is missing, malformed or not
    implemented, or the database is not [up]. *)
Definition no_chain (up : bool) (req : QueryAuditChainRequest) (st : Status) : Prop :=
  let malformed s field := uuid_parse s = None /\ st_code st = "invalid_argument" /\
                           st_message st = field +:+ ": invalid UUID" in
  let failed s := is_Some (uuid_parse s) /\ up = false /\ st_code st = "internal" in
  match qa_anchor req with
  | Some (ADecisionId s) => malformed s "decision_id" \/ failed s
  | Some (ARunId s) => malformed s "run_id" \/ failed s
  | Some (AReservationId _) => st_code st = "unimplemented"
  | None => st_code st = "invalid_argument" /\ st_message st = "anchor required"
  end.

Lemma class_of_proto_spec n class :
  class_of_proto n = Some class <->
  class = "immutable_audit_log" /\ n = 1 \/ class = "canonical_raw_log" /\ n = 2 \/
  class = "profile_payload_blob" /\ n = 3.
Proof.
  unfold class_of_proto. repeat (case_match; [split; [intros [= <-]|]; naive_solver lia|]).
  split; [done|naive_solver lia].
Qed.

Lemma in_class_spec req class : class ∈ storage_classes_of req <-> in_class req class.
Proof.
  unfold storage_classes_of, in_class. destruct (qa_storage_classes req) as [|n cs]; [set_solver|].
  rewrite list_elem_of_omap. setoid_rewrite class_of_proto_spec. naive_solver.
Qed.

(** The rows of an answer: those that the request asks for, once each, in order. *)
Record replays_rows (req : QueryAuditChainRequest) (s : Db) (rows : list CanonicalRow) : Prop := {
  rr_sorted : StronglySorted in_order rows;
  rr_once : NoDup ((fun r => se_event_id (cr_event r)) <$> rows);
  rr_rows : forall row, row ∈ rows <-> row ∈ canonical_events s /\ asked_for req row;
}.

Definition anchored (req : QueryAuditChainRequest) (c : ChainOf) : Prop :=
  match qa_anchor req, c with
  | Some (ADecisionId s), OfDecision d => uuid_parse s = Some d
  | Some (ARunId s), OfRun d => uuid_parse s = Some d
  | _, _ => False
  end.

Lemma selects_asked req c tenant r :
  uuid_parse (qa_tenant_id req) = Some tenant -> anchored req c ->
  selects c tenant (storage_classes_of req) r <-> asked_for req r.
Proof.
  intros Ht Hc. unfold selects, asked_for, of_anchor, anchored in *. rewrite in_class_spec, Ht.
  destruct (qa_anchor req) as [[i|i|i]|], c; try done; naive_solver.
Qed.

Lemma rows_replayed req c tenant s rows :
  NoDup ((fun r => se_event_id (cr_event r)) <$> canonical_events s) ->
  uuid_parse (qa_tenant_id req) = Some tenant -> anchored req c -> StronglySorted in_order rows ->
  rows ≡ₚ filter (selects c tenant (storage_classes_of req)) (canonical_events s) ->
  replays_rows req s rows.
Proof.
  intros Hnd Ht Hc Hs Hp. split; [done| |].
  - rewrite Hp. eapply sublist_NoDup; [exact Hnd|]. apply fmap_sublist, sublist_filter.
  - intros row. rewrite Hp, list_elem_of_filter, (selects_asked _ _ _ _ Ht Hc). tauto.
Qed.

Lemma rows_of_anchor_spec up req tenant s R (k : _ -> prog queryE R) x :
  serves up (pbind (rows_of_anchor tenant (storage_classes_of req) (qa_anchor req)) k) s x ->
  exists r, serves up (k r) s x /\
    match r with
    | Err st => no_chain up req st
    | Ok rows => exists c, anchored req c /\ StronglySorted in_order rows /\
        rows ≡ₚ filter (selects c tenant (storage_classes_of req)) (canonical_events s)
    end.
Proof.
  assert (Hq : forall c,
    serves up (pbind (r ← act (QueryChain c tenant (storage_classes_of req));
                   match r with Ok rows => mret rows | Err e => fail (to_status e) end) k) s x ->
    exists r, serves up (k r) s x /\
      match r with
      | Err st => up = false /\ st_code st = "internal"
      | Ok rows => StronglySorted in_order rows /\
          rows ≡ₚ filter (selects c tenant (storage_classes_of req)) (canonical_events s)
      end).
  { intros c (y & [(Hup & e & ->)|(rows & -> & Hs & Hp)] & Hk); cbn in Hk; [by exists (Err (to_status (DbError e)))|].
    by exists (Ok rows). }
  unfold rows_of_anchor, anchored, no_chain. intros Hx. destruct (qa_anchor req) as [[i|i|i]|].
  - destruct (uuid_parse i) as [d|] eqn:Hd; [|by exists (Err (bad_uuid "decision_id")); eauto].
    apply Hq in Hx as ([rows|st] & Hk & Hr); eexists; (split; [exact Hk|]); [by exists (OfDecision d)|by right].
  - destruct (uuid_parse i) as [d|] eqn:Hd; [|by exists (Err (bad_uuid "run_id")); eauto].
    apply Hq in Hx as ([rows|st] & Hk & Hr); eexists; (split; [exact Hk|]); [by exists (OfRun d)|by right].
  - by eexists; split; [exact Hx|].
  - by eexists; split; [exact Hx|].
Qed.

(** ** An event and its replay *)

(** The event without its prediction fields (tags 300 to 317). *)
Definition replayed (evt : WireEvent) : WireEvent :=
  {| ce_specversion := ce_specversion evt; ce_type := ce_type evt; ce_source := ce_source evt;
     ce_id := ce_id evt; ce_time := ce_time evt; ce_datacontenttype := ce_datacontenttype evt;
     ce_data := ce_data evt; ce_tenant_id := ce_tenant_id evt; ce_run_id := ce_run_id evt;
     ce_decision_id := ce_decision_id evt; ce_schema_bundle_id := ce_schema_bundle_id evt;
     ce_producer_id := ce_producer_id evt; ce_producer_sequence := ce_producer_sequence evt;
     ce_producer_signature := ce_producer_signature evt; ce_signing_key_id := ce_signing_key_id evt;
     ce_predicted_a_tokens := 0; ce_predicted_b_tokens := 0; ce_predicted_c_tokens := 0;
     ce_reserved_strategy := EmptyString; ce_prediction_strategy_used := EmptyString;
     ce_prediction_policy_used := EmptyString; ce_tokenizer_tier := EmptyString;
     ce_tokenizer_version_id := EmptyString; ce_prediction_confidence := S754_zero false;
     ce_prediction_sample_size := 0; ce_cold_start_layer_used := EmptyString;
     ce_run_projection_at_decision_atomic := 0; ce_run_predicted_remaining_steps := 0;
     ce_run_steps_completed_so_far := 0; ce_actual_input_tokens := 0; ce_actual_output_tokens := 0;
     ce_delta_b_ratio := S754_zero false; ce_delta_c_ratio := S754_zero false |}.

(** The instants of chrono have seconds of 64 bits. *)
Hypothesis from_timestamp_range : forall s n t, from_timestamp s n = Some t -> is_i64 s = true.

Lemma stored_fields evt :
  Forall (fun kv => jget kv.1 (cloudevent_to_json evt) = Some kv.2) (envelope_fields evt).
Proof. repeat constructor. Qed.

Lemma i32_wrap_small z : 0 <= z < 1000000000 -> i32_wrap z = z.
Proof. intros Hz. unfold i32_wrap. rewrite Z.mod_small; lia. Qed.

(** What is stored of an event that was let in decodes to it, less the fields of
    the predictor. *)
Lemma decode_stored evt t :
  event_time_of evt = Ok t -> is_u64 (ce_producer_sequence evt) = true ->
  decode_cloudevent_from_row (Some (cloudevent_to_json evt)) (ce_producer_signature evt) = Ok (replayed evt).
Proof using from_timestamp_range.
  intros Ht Hseq. unfold event_time_of in Ht. destruct (ce_time evt) as [[sec nano]|] eqn:Htime; [|done].
  apply result_bind_ok in Ht as (u & Hn & Ht). unfold ensure in Hn. cbn in Hn, Ht.
  destruct ((0 <=? nano) && (nano <? 1000000000)) eqn:Hnano; [|done].
  destruct (from_timestamp sec nano) as [t'|] eqn:Hfrom; [|done].
  apply from_timestamp_range in Hfrom as Hsec.
  pose proof (stored_fields evt) as Hf. unfold envelope_fields, event_seconds, event_nanos in Hf.
  rewrite !Forall_cons, Htime in Hf. cbn [fst snd default from_option id fmap option_fmap option_map] in Hf.
  destruct Hf as (H1 & H2 & H3 & H4 & H5 & H6 & H7 & H8 & H9 & H10 & H11 & H12 & H13 & H14 & H15 & _).
  unfold decode_cloudevent_from_row. cbn [ok_or mbind result_bind].
  rewrite H1, H2, H3, H4, H5, H6, H7, H8, H9, H10, H11, H12, H13, H14, H15.
  cbn [mbind option_bind j_str j_i64 j_u64 default from_option id].
  rewrite decode_data. cbn [seconds nanos mbind result_bind]. rewrite Hsec, Hseq.
  replace (is_i64 nano) with true by (symmetry; unfold is_i64, i64_min, i64_max; lia).
  cbn [default from_option id]. rewrite i32_wrap_small by lia. unfold replayed. by rewrite Htime.
Qed.

(** What a row is told as: the event [evt] less its prediction fields, at the
    region, shard and offset of the row, read as an integer of 64 bits, with the
    time it was taken in and the number of its class. *)
Record told (evt : WireEvent) (row : CanonicalRow) (a : AuditChainEvent) : Prop := {
  td_event : ac_event a = Some (replayed evt);
  td_position : exists p, ac_ingest_position a = Some p /\
    ip_region_id p = se_region_id (cr_event row) /\ ip_ingest_shard_id p = se_ingest_shard_id (cr_event row) /\
    ip_ingest_log_offset p = cr_ingest_log_offset row mod 2 ^ 64;
  td_ingested_at : exists t, ac_ingested_at a = Some t /\
    seconds t = cr_ingest_at row / 1000000000 /\ nanos t = cr_ingest_at row mod 1000000000;
  td_class : (se_storage_class (cr_event row), ac_storage_class a) ∈
    [("immutable_audit_log", 1); ("canonical_raw_log", 2); ("profile_payload_blob", 3)];
}.

(** ** The way of an event *)

Context (month_of : Z -> Z) (event_checks quarantine_checks : StoredEvent -> bool)
        (replicas : list (Config * option Verifier)).

(** The row is that of an event that a replica accepted. *)
Definition row_of (evt : WireEvent) (row : CanonicalRow) : Prop :=
  exists cfg verifier bundle ids t region shard,
    (cfg, verifier) ∈ replicas /\ accepted cfg verifier evt /\ checked_event evt bundle = Ok ids /\
    event_time_of evt = Ok t /\
    cr_event row = in_shard region shard (stored_of_input (input_of cfg evt bundle ids t)).

Lemma checked_sequence evt bundle ids :
  checked_event evt bundle = Ok ids -> is_u64 (ce_producer_sequence evt) = true.
Proof using.
  intros H. unfold checked_event in H. do 6 (apply result_bind_ok in H as (? & _ & H)).
  apply result_bind_ok in H as (? & Hs & _). apply ensure_ok in Hs.
  unfold is_u64, i64_max, u64_max in *. lia.
Qed.

Lemma row_told evt row : row_of evt row -> told evt row (audit_chain_event (replayed evt) row).
Proof using.
  intros (cfg & v & bundle & ids & t & region & shard & _ & _ & _ & _ & He).
  split; [done|by eexists|by eexists|]. cbn. rewrite He. cbn.
  destruct (classify (ce_type evt)); cbn; rewrite !elem_of_cons; auto.
Qed.

Lemma stream_row_of evt row :
  row_of evt row -> exists a, stream_row row = Some (Ok a) /\ told evt row a.
Proof using from_timestamp_range.
  intros Hrow. exists (audit_chain_event (replayed evt) row). split; [|by apply row_told].
  destruct Hrow as (cfg & v & bundle & ids & t & region & shard & _ & _ & Hc & Ht & He).
  unfold stream_row. rewrite He. cbn [in_shard stored_of_input input_of append_input se_payload_json
    se_producer_signature ai_payload_json ai_producer_signature].
  by rewrite (decode_stored evt t) by eauto using checked_sequence.
Qed.

(** No row of the chain is skipped. *)
Lemma stream_rows rows s :
  chain_inv month_of replicas s -> (forall r, r ∈ rows -> r ∈ canonical_events s) ->
  Forall2 (fun row x => exists evt a, row_of evt row /\ x = Ok a /\ told evt row a)
    rows (omap stream_row rows).
Proof using from_timestamp_range.
  intros HI Hin. induction rows as [|r rows IH]; cbn; [constructor|].
  assert (Hr : exists evt, row_of evt r).
  { pose proof (ci_genuine _ _ _ HI) as Hg. rewrite Forall_forall in Hg.
    destruct (Hg r (Hin r ltac:(by left))) as (i & region & shard & Hi & He).
    destruct Hi as (cfg & v & evt & bundle & ids & t & ? & ? & ? & ? & ->).
    exists evt. by exists cfg, v, bundle, ids, t, region, shard. }
  destruct Hr as [evt Hr]. destruct (stream_row_of evt r Hr) as (a & -> & Ha). constructor; [by exists evt, a|].
  apply IH. intros r' Hr'. apply Hin. by right.
Qed.

(** C22: a query replays the chain. A request with a well-formed tenant is answered
    with the rows of the tenant, of the decision or run of the anchor and of the
    classes listed: each once, in the order of time and offset, none left out. Each is
    an event that a replica accepted, with the producer's signature and every field
    but those of the predictor, at the region, shard and offset of its row, with the
    time of its intake and the number of its class. One error is answered instead when
    the anchor is missing, malformed or a reservation, or when the database fails, and
    only then; an error of the call itself is the malformed tenant. *)
Theorem query_replays_chain up req s r :
  chain_inv month_of replicas s -> serves up (query_audit_chain req) s r ->
  match r with
  | Err st => uuid_parse (qa_tenant_id req) = None /\ st_code st = "invalid_argument" /\
              st_message st = "tenant_id: invalid UUID"
  | Ok stream =>
      is_Some (uuid_parse (qa_tenant_id req)) /\
      ((exists st, stream = [Err st] /\ no_chain up req st) \/
       exists rows, replays_rows req s rows /\
         Forall2 (fun row x => exists evt a, row_of evt row /\ x = Ok a /\ told evt row a) rows stream)
  end.
Proof using from_timestamp_range.
  intros HI Hx. unfold query_audit_chain in Hx.
  destruct (uuid_parse (qa_tenant_id req)) as [tenant|] eqn:Ht; cbn in Hx; [|by subst].
  change (serves up (pbind (rows_of_anchor tenant (storage_classes_of req) (qa_anchor req)) (fun r' =>
    Ret (Ok (match r' with Ok rows => omap stream_row rows | Err s => [Err s] end)))) s r) in Hx.
  apply rows_of_anchor_spec in Hx as ([rows|st] & -> & Hrows); (split; [done|]); [right|left; by exists st].
  destruct Hrows as (c & Hc & Hs & Hp). exists rows.
  split; [by eapply rows_replayed; [apply HI|..]|].
  apply (stream_rows rows s HI). intros row Hrow. rewrite Hp in Hrow.
  apply list_elem_of_filter in Hrow as [_ Hrow]. exact Hrow.
Qed.

(** A replayed event verifies like the original if the signature covers what is
    replayed: the events of the ledger, and those without a prediction. *)
Lemma replayed_verifies (v : Verifier) evt :
  starts_with "ledger:" (ce_producer_id evt) = true \/ replayed evt = evt ->
  verify_cloudevent v (replayed evt) = verify_cloudevent v evt.
Proof using.
  intros [Hl|Heq]; [|by rewrite Heq]. unfold verify_cloudevent, canonical_bytes.
  cbn [replayed ce_producer_id ce_time ce_signing_key_id ce_producer_signature]. by rewrite Hl.
Qed.

(** A decision with a prediction does not: its signature covers the fields that the
    replay leaves out. *)
Theorem replayed_decision_unverifiable (v : Verifier) evt :
  (forall a b, encode_cloudevent a = encode_cloudevent b -> ce_predicted_a_tokens a = ce_predicted_a_tokens b) ->
  (forall kid m m' sig t, v kid m sig t = Ok tt -> v kid m' sig t = Ok tt -> m = m') ->
  starts_with "ledger:" (ce_producer_id evt) = false -> ce_predicted_a_tokens evt <> 0 ->
  verify_cloudevent v evt = Ok tt -> verify_cloudevent v (replayed evt) <> Ok tt.
Proof using.
  intros Henc Hone Hl Ha Hv Hr. unfold verify_cloudevent in *. cbn [replayed ce_time ce_signing_key_id
    ce_producer_signature] in Hr. pose proof (Hone _ _ _ _ _ Hv Hr) as Hm.
  unfold canonical_bytes in Hm. cbn [replayed ce_producer_id] in Hm. rewrite Hl in Hm.
  by apply Henc in Hm.
Qed.

End Query.

(** ** A query of a run *)

Module QueryDemo.
Import Demo ChainDemo.

Definition final : Db := (ran calls released_order).2.1.

Lemma final_inv : chain_inv month_of [(cfg, None)] final.
Proof.
  apply (calls_inv month_of no_checks no_checks [(cfg, None)] calls db0
           (ran calls released_order).1 _ (ran calls released_order).2.2); [apply db0_inv|repeat constructor|].
  unfold final. rewrite <- surjective_pairing. apply ran_run.
Qed.

Lemma demo_range s n t : from_timestamp s n = Some t -> is_i64 s = true.
Proof. cbn. by destruct (is_i64 s). Qed.

Definition request : QueryAuditChainRequest :=
  {| qa_tenant_id := "utenant"; qa_anchor := Some (ADecisionId "udecision"); qa_from := None;
     qa_to := None; qa_storage_classes := [] |}.

Definition stream : list (result Status AuditChainEvent) := omap stream_row (rev (canonical_events final)).

Example stream_ids :
  List.map (fun x => match x with Ok e => ce_id <$> ac_event e | Err _ => None end) stream
  = [Some "u1"; Some "u2"].
Proof. by vm_compute. Qed.

Lemma demo_serves : serves true (query_audit_chain request) final (Ok stream).
Proof.
  exists (Ok (rev (canonical_events final))). split; [|done]. right.
  exists (rev (canonical_events final)). split; [done|]. split.
  - vm_compute. constructor; [by repeat constructor|]. constructor; [right; by split|constructor].
  - etrans; [symmetry; apply Permutation.Permutation_rev|]. vm_compute. reflexivity.
Qed.

Lemma query_replays_chain_witness :
  exists rows, replays_rows request final rows /\
    Forall2 (fun row x => exists evt a, row_of [(cfg, None)] evt row /\ x = Ok a /\ told evt row a) rows stream.
Proof.
  destruct (query_replays_chain demo_range month_of [(cfg, None)] true request final (Ok stream) final_inv demo_serves)
    as (_ & [(st & Hst & _)|(rows & Hr & Hf)]); [by vm_compute in Hst|].
  by exists rows.
Defined.

End QueryDemo.
