(* ===== verification/Signed.v ===== *)
(** * From the sidecar's signer to the verifier

    The events that the handlers of [Decision], [Settle] and [Resume] send to the ledger are
    signed by a signer of [Signing], over the bytes that [sign_cloudevent_in_place]
    ([services/sidecar/src/audit.rs]) encodes; canonical ingest checks them with
    [verify_cloudevent] of [Canonical] against its trust store. *)

From S2P Require Import Prelude Deps Effects Proto SubMeter Sidecar Decision Settle Concurrency Adapter Resume Signing Canonical Chain.

Section Signed.
Context `{HU : UuidLib, HI : BigIntLib, HC : CryptoLib, HY : !UuidBytes, HL : ProstLib, HT : ChronoLib,
          HA : Calendar, HX : !HexLib}.
Context `{HE : Ed25519Lib} `{HP : !P256Lib} `{HJ : JsonLib} `{HB : Base64Lib} `{HW : WireLib}.

(** [bytes] is what the signer makes of the encoded event. *)
Definition signs (s : Signer) (ce : CloudEvent) (bytes : string) : Prop :=
  exists t sig, exec (sign s (encode_cloudevent (wire ce))) t (Ok sig) /\ sig_bytes sig = bytes.

Lemma wire_unsigned kid sig ce :
  ce_signing_key_id ce = kid -> ce_producer_signature ce = EmptyString ->
  with_signature EmptyString (wire (with_signing_key kid sig ce)) = wire ce.
Proof. intros <- Hs. destruct ce; cbn in *. by subst. Qed.

(** *** The resumption of an approval *)

Lemma resumed_not_the_ledger bundle ctx type id run did schema seq time data :
  starts_with "ledger:" (ce_producer_id (apply_resume_audit_decision_policy_field bundle
    (cloudevent_envelope ctx type id run did schema seq time data))) = false.
Proof. done. Qed.

(** The reservation that is sent carries the sequence and the event of its making. *)
Lemma into_signed cfg p w key t rq :
  exec (into_reserve_set_request cfg p w key) t (Ok rq) ->
  rr_producer_sequence rq ∈ sequences t /\ exists ce, rr_audit_event rq = Some ce /\ signed cfg t ce.
Proof.
  intros He. unfold into_reserve_set_request in He.
  apply exec_bind_ok in He as (t1 & t2 & n & -> & [-> _]%exec_lift & He).
  apply exec_bind_ok in He as (t1 & t3 & loaded & -> & (? & -> & [= <-])%exec_act & He).
  apply exec_bind_ok in He as (t1 & t4 & live & -> & [-> _]%exec_lift & He).
  apply exec_bind_ok in He as (t1 & t5 & u & -> & [-> _]%exec_lift & He).
  apply exec_bind_ok in He as (? & ? & did & -> & (? & -> & _)%exec_act & He).
  apply exec_bind_ok in He as (? & ? & eid & -> & (? & -> & _)%exec_act & He).
  apply exec_bind_ok in He as (? & ? & seq & -> & (? & -> & [= <-])%exec_act & He).
  apply exec_bind_ok in He as (? & ? & n1 & -> & (? & -> & _)%exec_act & He).
  apply exec_bind_ok in He as (? & ? & n2 & -> & (? & -> & _)%exec_act & He).
  apply exec_bind_ok in He as (? & ? & ce & -> & Hs & He).
  apply exec_pbind in Hs as (t6 & ? & [ce'|e] & -> & Hs & -> & [= ->]).
  apply exec_bind_ok in He as (? & ? & h & -> & [-> _]%exec_lift & He).
  apply exec_bind_ok in He as (? & ? & n3 & -> & (? & -> & _)%exec_act & [-> [= ->]]%exec_ret).
  split; [by left|]. exists ce'. split; [done|]. apply (signed_mono cfg t6).
  - intros ev Hev. rewrite !elem_of_app. tauto.
  - eapply sign_signed; [exact Hs|apply resumed_not_the_ledger].
Qed.

(** [sent_guard] of the effects on the sidecar. *)
Definition side_guard (cfg : SidecarConfig) (h : list (event adapterE)) (ev : event adapterE) : Prop :=
  forall e, as_side ev = Some e -> sent_guard cfg (side h) e.

Lemma resume_sent cfg req : upholds (side_guard cfg) [] (resume_after_approval_inner cfg req).
Proof.
  unfold resume_after_approval_inner. apply upholds_pbind; [|done]. unfold resume_steps.
  apply upholds_bind; [intros x; by split|]. intros t get _.
  apply upholds_bind; [done|]. intros t' context _.
  destruct (_ =?s _); [|by destruct (_ =?s _)]. unfold resume_approved. destruct (negb _); [done|].
  apply upholds_bind; [done|]. intros t1 p _. apply upholds_bind.
  { apply upholds_pbind; [|done]. apply upholds_embed.
    apply (upholds_all quiet); [|apply into_quiet]. intros h X e x Hq e' [= <-] n ce Hs. by destruct e. }
  intros t2 rq Hi. apply exec_pbind in Hi as (t3 & ? & [rq'|e'] & -> & (t4 & -> & Hi)%exec_embed & -> & [= ->]).
  apply into_signed in Hi as (Hn & ce & Hce & Hsig). apply upholds_bind.
  - intros x. split; [|done]. intros e [= <-] n' ce' [= <- <-]. rewrite app_nil_r, !side_app, (side_into t4). split.
    + rewrite !sequences_app, !elem_of_app. auto.
    + exists ce. split; [done|]. eapply signed_mono, Hsig. intros ev Hev. rewrite !elem_of_app. tauto.
  - intros t5 resp _. apply upholds_bind; [done|]. intros t6 [[tx aid] ids] _.
    apply upholds_bind; [intros x; by split|]. by intros t7 [[]|] _.
Qed.

(** What a handler did so far: a decision, a commit or a release, or the resumption of an
    approval, whose effects on the sidecar they are. *)
Definition did (cfg : SidecarConfig) (h : job + ResumeAfterApprovalRequest) (t : list (event sidecarE)) : Prop :=
  match h with
  | inl j => prefix (program cfg j) t
  | inr req => exists t', prefix (resume_after_approval_inner cfg req) t' /\ side t' = t
  end.

Lemma side_split t t1 ev t2 :
  side t = t1 ++ ev :: t2 -> exists t' ev' t'', t = t' ++ ev' :: t'' /\ side t' = t1 /\ as_side ev' = Some ev.
Proof.
  revert t1. induction t as [|ev0 t IH]; intros t1 Ht; [by destruct t1|].
  unfold side in *. cbn in Ht. destruct (as_side ev0) as [e|] eqn:He.
  - destruct t1 as [|e1 t1]; injection Ht as -> Ht; [by exists [], ev0, t|].
    destruct (IH t1 Ht) as (t' & ev' & t'' & -> & <- & Hev). exists (ev0 :: t'), ev', t''. cbn. by rewrite He.
  - destruct (IH t1 Ht) as (t' & ev' & t'' & -> & <- & Hev). exists (ev0 :: t'), ev', t''. cbn. by rewrite He.
Qed.

Lemma did_sent cfg h t1 ev t2 : did cfg h (t1 ++ ev :: t2) -> sent_guard cfg t1 ev.
Proof.
  destruct h as [j|req]; cbn.
  - intros Hp. exact (upholds_prefix _ [] _ _ _ _ (program_sent cfg j) Hp).
  - intros (t & Hp & (t' & ev' & t'' & -> & <- & Hev)%side_split).
    exact (upholds_prefix _ [] _ _ _ _ (resume_sent cfg req) Hp ev Hev).
Qed.

(** C17: what the sidecar signs, canonical ingest accepts. Let the sidecar sign
    with an ed25519 key whose file is in the trust store's directory, no other
    key there having the same id. Then every audit event that a decision, a
    commit, a release or the resumption of an approval sends to the ledger, in every
    execution and whatever the answers, carries a signature, and verifies against that
    trust store if the window that its manifest gives the key, if any, covers the
    event's time. *)
Theorem sidecar_event_verifies cfg sk identity dir entries e parse_manifest v h t1 ev t2 n ce :
  let s := LocalSigner (from_key sk identity) in
  let vk := ed_verifying_key sk in
  signer_key_id cfg = key_id s ->
  from_dir parse_manifest dir = Ok v -> td_entries dir = Ok entries -> Ok e ∈ entries -> key_file vk e ->
  (forall e' vk', Ok e' ∈ entries -> key_file vk' e' -> ed_key_id vk' = ed_key_id vk -> vk' = vk) ->
  (forall ce0 bytes, Ev (Sign ce0) (Ok bytes) ∈ t1 -> signs s ce0 bytes) ->
  did cfg h (t1 ++ ev :: t2) -> as_sent ev = Some (n, ce) ->
  exists ce', ce = Some ce' /\
    (check (default always_valid (al_get (key_id s) (vf_validities v)))
       (t ← ce_time ce'; from_timestamp (seconds t) (u32_wrap (nanos t))) = Ok tt ->
     verify_cloudevent (verify v) (wire ce') = Ok tt).
Proof.
  intros s vk Hkid Hdir Hentries Hin Hf Hone Hsign Hp Hev.
  destruct (did_sent _ _ _ _ _ Hp n ce Hev)
    as (_ & ce' & -> & ce0 & bytes & Hs & Hk & Hu & Hl & ->).
  exists (with_signing_key (signer_key_id cfg) bytes ce0). split; [done|]. intros Hcheck.
  destruct (Hsign ce0 bytes Hs) as (t & sig & Hx & <-).
  unfold verify_cloudevent, canonical_bytes. cbn [wire with_data with_signing_key ce_producer_id
    ce_signing_key_id ce_producer_signature ce_time]. rewrite Hl. unfold canonical_bytes_proto.
  rewrite wire_unsigned by done. rewrite Hkid.
  eapply local_signature_verifies; [|exact Hcheck|exact Hx].
  by eapply from_dir_key.
Qed.

End Signed.

Module SignedDemo.
Import Demo CalendarDemo.
#[local] Existing Instance DecisionDemo.demo_prost.
#[local] Existing Instance SigningDemo.demo_ed25519.
#[local] Existing Instance SigningDemo.demo_p256.
#[local] Existing Instance ChainDemo.demo_json.
#[local] Existing Instance ChainDemo.demo_base64.
#[local] Existing Instance ChainDemo.demo_wire.

Definition signer : Signer := LocalSigner (from_key "secret" "sidecar:w1").

Definition cfg : SidecarConfig :=
  {| allow_untrusted_subscription_meter := false; critical_max_stale_seconds := 300;
     reservation_ttl_seconds := 600; allow_untrusted_budget_metadata := false;
     run_cost_projector_configured := true; signer_key_id := key_id signer; cfg_tenant_id := "t1";
     cfg_workload_instance_id := "w1"; cfg_region := "eu" |}.

(** The environment of the decision, with a signer of its own. *)
Definition answer (X : Type) (e : sidecarE X) : X :=
  match e in sidecarE X return X with
  | Sign ce => Ok (ed_sign "secret" (sha256 (encode_cloudevent (wire ce))))
  | e => DecisionDemo.answer false _ e
  end.

Definition the_job : job := JDecide DecisionDemo.ctx (DecisionDemo.request "50").
Definition the_run := run answer (program cfg the_job).

Definition key_entry : DirEntry := {| de_name := "sidecar.pem"; de_text := Ok "secret" |}.
Definition dir : TrustDir :=
  {| td_path := "/keys"; td_exists := true; td_entries := Ok [Ok key_entry]; td_manifest := None |}.
Definition no_manifest (s : string) : result string (list (string * KeyValidity)) := Err "no manifest".
Definition verifier : LocalEd25519Verifier :=
  {| vf_keys := {[ed_key_id "secret" := "secret"]}; vf_ecdsa_keys := ∅; vf_validities := [] |}.

Definition sent_events : list (option CloudEvent) := snd <$> omap as_sent the_run.1.

(** Every answer of a run is the environment's. *)
Lemma run_answers {R} (p : prog sidecarE R) :
  Forall (fun ev => match ev with Ev e x => x = answer _ e end) (run answer p).1.
Proof.
  induction p as [r|X e k IH]; cbn; [constructor|]. specialize (IH (answer X e)).
  destruct (run answer (k (answer X e))). by constructor.
Qed.

Lemma sidecar_event_verifies_witness :
  exists ce, sent_events = [Some ce] /\ verify_cloudevent (verify verifier) (wire ce) = Ok tt.
Proof.
  destruct (nth_error the_run.1 18) as [ev|] eqn:Hev; [|vm_compute in Hev; discriminate].
  destruct (as_sent ev) as [[n ce]|] eqn:Hs;
    [|vm_compute in Hev; injection Hev as <-; vm_compute in Hs; discriminate].
  assert (Hsplit : the_run.1 = take 18 the_run.1 ++ ev :: drop 19 the_run.1).
  { vm_compute in Hev. injection Hev as <-. vm_compute. reflexivity. }
  destruct (sidecar_event_verifies (HE := SigningDemo.demo_ed25519) cfg "secret" "sidecar:w1" dir [Ok key_entry] key_entry no_manifest verifier
              (inl the_job) (take 18 the_run.1) ev (drop 19 the_run.1) n ce) as (ce' & -> & Hv).
  - reflexivity.
  - vm_compute. reflexivity.
  - reflexivity.
  - left.
  - split; [reflexivity|]. exists "secret". split; reflexivity.
  - intros e' vk' He' (_ & pem & Htext & Hpem) _. apply list_elem_of_singleton in He'.
    injection He' as ->. injection Htext as <-. vm_compute in Hpem. by injection Hpem.
  - intros ce0 bytes Hin. pose proof (run_answers (program cfg the_job)) as Ha.
    rewrite Forall_forall in Ha. specialize (Ha (Ev (Sign ce0) (Ok bytes))).
    assert (Hb : Ok bytes = answer _ (Sign ce0)).
    { apply Ha. fold the_run. rewrite Hsplit. apply elem_of_app. by left. }
    injection Hb as ->. exists [Ev SignedAt 0]. eexists (Build_Signature _ _ _ _ _). split; [|reflexivity].
    exists 0, []. split; [reflexivity|]. by split.
  - rewrite <- Hsplit. eapply exec_prefix. apply run_exec.
  - exact Hs.
  - exists ce'. split; [vm_compute in Hev; injection Hev as <-; injection Hs as _ <-; vm_compute; reflexivity|].
    apply Hv. vm_compute in Hev. injection Hev as <-. injection Hs as _ <-. vm_compute. reflexivity.
Defined.

End SignedDemo.
