(* ===== verification/Outbox.v ===== *)
(** * The ledger's outbox

    The ledger stores an audit event as JSON ([services/ledger/src/handlers/audit_payload.rs])
    and decodes it again to replay it ([handlers/replay.rs]); the outbox forwarder decodes it
    strictly ([services/outbox_forwarder/src/decode.rs]). *)

From S2P Require Import Prelude Floats Deps Effects Proto Signing Canonical Ingest Chain.

(** ** The stored event *)

Section Outbox.
Context `{HU : UuidLib} `{HC : CryptoLib} `{HJ : JsonLib} `{HB : Base64Lib} `{HW : WireLib}
        `{HT : ChronoLib} `{HX : X509Lib} `{HH : !HexLib}.

(** [cloudevent_payload], the same tree as canonical ingest stores. *)
Definition cloudevent_payload (evt : WireEvent) : json := cloudevent_to_json evt.

Inductive DecodeError :=
  | Missing (key : string)
  | BadUuid (key : string)
  | BadNumber (key : string)
  | BadEnum (key value : string)
  | BadBase64 (key : string)
  | NotObject.

Record OutboxRow := {
  or_recorded_month : Z;
  or_audit_outbox_id : uuid;
  or_event_type : string;
  or_cloudevent_payload : json;
  or_cloudevent_payload_signature : string;
  or_producer_sequence : Z;
  or_recorded_at : Z;
}.

(** A row of [audit_outbox], as the forwarder sees it. *)
Record OutboxEntry := {
  oe_row : OutboxRow;
  oe_pending_forward : bool;
  oe_forwarded_at : option Z;
  oe_forward_attempts : Z;
  oe_last_forward_error : option string;
}.

(** [Value::as_f64]. *)
Definition j_f64 (j : json) : option spec_float :=
  match j with JFloat f => Some f | JInt z => Some (f64_of_Z z) | _ => None end.

Section Keys.
Context (p : json).

Definition req_str (key : string) : result DecodeError string :=
  match jget key p ≫= j_str with
  | Some s => if is_empty s then Err (Missing key) else Ok s
  | None => Err (Missing key)
  end.
Definition opt_str (key : string) : string := default EmptyString (jget key p ≫= j_str).
Definition opt_i64 (key : string) : result DecodeError Z :=
  match jget key p with
  | Some v => ok_or (j_i64 v) (BadNumber key)
  | None => Ok 0
  end.
Definition opt_i32 (key : string) : result DecodeError Z :=
  value ← opt_i64 key;
  if is_i32 value then Ok value else Err (BadNumber key).
Definition opt_f32 (key : string) : result DecodeError spec_float :=
  match jget key p with
  | Some v => ok_or (f32_of <$> j_f64 v) (BadNumber key)
  | None => Ok (S754_zero false)
  end.
Definition req_uuid (key : string) : result DecodeError uuid :=
  s ← req_str key; ok_or (uuid_parse s) (BadUuid key).
Definition req_i64 (key : string) : result DecodeError Z :=
  ok_or (jget key p ≫= j_i64) (BadNumber key).
Definition req_u64 (key : string) : result DecodeError Z :=
  ok_or (jget key p ≫= j_u64) (BadNumber key).

End Keys.

Definition strict_decode (row : OutboxRow) : result DecodeError WireEvent :=
  let p := or_cloudevent_payload row in
  _ ← (match p with JObj _ => Ok tt | _ => Err NotObject end);
  specversion ← req_str p "specversion";
  _ ← ensure (specversion =?s "1.0") (BadEnum "specversion" specversion);
  event_type ← req_str p "type";
  _ ← ensure ((event_type =?s AUDIT_DECISION) || (event_type =?s AUDIT_OUTCOME)) (BadEnum "type" event_type);
  source ← req_str p "source";
  datacontenttype ← req_str p "datacontenttype";
  id ← req_str p "id";
  _ ← ok_or (uuid_parse id) (BadUuid "id");
  time_seconds ← req_i64 p "time_seconds";
  time_nanos ← req_i64 p "time_nanos";
  _ ← req_uuid p "tenantid";
  _ ← req_uuid p "decisionid";
  producer_id ← req_str p "producer_id";
  producer_sequence ← req_u64 p "producer_sequence";
  data_b64 ← req_str p "data_b64";
  data ← ok_or (b64_decode data_b64) (BadBase64 "data_b64");
  predicted_a_tokens ← opt_i64 p "predicted_a_tokens";
  predicted_b_tokens ← opt_i64 p "predicted_b_tokens";
  predicted_c_tokens ← opt_i64 p "predicted_c_tokens";
  prediction_confidence ← opt_f32 p "prediction_confidence";
  prediction_sample_size ← opt_i64 p "prediction_sample_size";
  run_projection_at_decision_atomic ← opt_i64 p "run_projection_at_decision_atomic";
  run_predicted_remaining_steps ← opt_i32 p "run_predicted_remaining_steps";
  run_steps_completed_so_far ← opt_i64 p "run_steps_completed_so_far";
  actual_input_tokens ← opt_i64 p "actual_input_tokens";
  actual_output_tokens ← opt_i64 p "actual_output_tokens";
  delta_b_ratio ← opt_f32 p "delta_b_ratio";
  delta_c_ratio ← opt_f32 p "delta_c_ratio";
  mret {| ce_specversion := specversion; ce_type := event_type; ce_source := source; ce_id := id;
          ce_time := Some {| seconds := time_seconds; nanos := i32_wrap time_nanos |};
          ce_datacontenttype := datacontenttype; ce_data := data; ce_tenant_id := opt_str p "tenantid";
          ce_run_id := opt_str p "runid"; ce_decision_id := opt_str p "decisionid";
          ce_schema_bundle_id := opt_str p "schema_bundle_id"; ce_producer_id := producer_id;
          ce_producer_sequence := producer_sequence;
          ce_producer_signature := or_cloudevent_payload_signature row;
          ce_signing_key_id := opt_str p "signing_key_id";
          ce_predicted_a_tokens := predicted_a_tokens; ce_predicted_b_tokens := predicted_b_tokens;
          ce_predicted_c_tokens := predicted_c_tokens; ce_reserved_strategy := opt_str p "reserved_strategy";
          ce_prediction_strategy_used := opt_str p "prediction_strategy_used";
          ce_prediction_policy_used := opt_str p "prediction_policy_used";
          ce_tokenizer_tier := opt_str p "tokenizer_tier";
          ce_tokenizer_version_id := opt_str p "tokenizer_version_id";
          ce_prediction_confidence := prediction_confidence;
          ce_prediction_sample_size := prediction_sample_size;
          ce_cold_start_layer_used := opt_str p "cold_start_layer_used";
          ce_run_projection_at_decision_atomic := run_projection_at_decision_atomic;
          ce_run_predicted_remaining_steps := run_predicted_remaining_steps;
          ce_run_steps_completed_so_far := run_steps_completed_so_far;
          ce_actual_input_tokens := actual_input_tokens; ce_actual_output_tokens := actual_output_tokens;
          ce_delta_b_ratio := delta_b_ratio; ce_delta_c_ratio := delta_c_ratio |}.

(** [decode_cloudevent_from_jsonb] of the ledger's ReplayAuditFromCursor: lenient,
    absent fields have their defaults. *)
Definition decode_cloudevent_from_jsonb (payload : json) (signature : string) : result string WireEvent :=
  let get_str k := default EmptyString (jget k payload ≫= j_str) in
  let get_u64 k := default 0 (jget k payload ≫= j_u64) in
  let get_i64 k := default 0 (jget k payload ≫= j_i64) in
  let get_i32 k := i32_wrap (get_i64 k) in
  let get_f32 k := default (S754_zero false) (f32_of <$> (jget k payload ≫= j_f64)) in
  let data_b64 := get_str "data_b64" in
  data ← (if is_empty data_b64 then Ok EmptyString
          else ok_or (b64_decode data_b64) "data_b64 decode");
  mret {| ce_specversion := get_str "specversion"; ce_type := get_str "type";
          ce_source := get_str "source"; ce_id := get_str "id";
          ce_time := Some {| seconds := get_i64 "time_seconds"; nanos := get_i32 "time_nanos" |};
          ce_datacontenttype := get_str "datacontenttype"; ce_data := data;
          ce_tenant_id := get_str "tenantid"; ce_run_id := get_str "runid";
          ce_decision_id := get_str "decisionid"; ce_schema_bundle_id := get_str "schema_bundle_id";
          ce_producer_id := get_str "producer_id"; ce_producer_sequence := get_u64 "producer_sequence";
          ce_producer_signature := signature; ce_signing_key_id := get_str "signing_key_id";
          ce_predicted_a_tokens := get_i64 "predicted_a_tokens";
          ce_predicted_b_tokens := get_i64 "predicted_b_tokens";
          ce_predicted_c_tokens := get_i64 "predicted_c_tokens";
          ce_reserved_strategy := get_str "reserved_strategy";
          ce_prediction_strategy_used := get_str "prediction_strategy_used";
          ce_prediction_policy_used := get_str "prediction_policy_used";
          ce_tokenizer_tier := get_str "tokenizer_tier";
          ce_tokenizer_version_id := get_str "tokenizer_version_id";
          ce_prediction_confidence := get_f32 "prediction_confidence";
          ce_prediction_sample_size := get_i64 "prediction_sample_size";
          ce_cold_start_layer_used := get_str "cold_start_layer_used";
          ce_run_projection_at_decision_atomic := get_i64 "run_projection_at_decision_atomic";
          ce_run_predicted_remaining_steps := get_i32 "run_predicted_remaining_steps";
          ce_run_steps_completed_so_far := get_i64 "run_steps_completed_so_far";
          ce_actual_input_tokens := get_i64 "actual_input_tokens";
          ce_actual_output_tokens := get_i64 "actual_output_tokens";
          ce_delta_b_ratio := get_f32 "delta_b_ratio"; ce_delta_c_ratio := get_f32 "delta_c_ratio" |}.

(** *** Round trip *)

Definition is_f32 (f : spec_float) : bool := f_is_finite f && valid_binary f32_prec f32_emax f.

(** The fields are in the ranges of their types, and the floats are numbers. *)
Record event_typed (evt : WireEvent) : Prop := {
  et_time : exists t, ce_time evt = Some t /\ is_i64 (seconds t) = true /\ is_i32 (nanos t) = true;
  et_sequence : is_u64 (ce_producer_sequence evt) = true;
  et_steps : is_i32 (ce_run_predicted_remaining_steps evt) = true;
  et_ints : Forall (fun z => is_i64 z = true)
    [ce_predicted_a_tokens evt; ce_predicted_b_tokens evt; ce_predicted_c_tokens evt;
     ce_prediction_sample_size evt; ce_run_projection_at_decision_atomic evt;
     ce_run_steps_completed_so_far evt; ce_actual_input_tokens evt; ce_actual_output_tokens evt];
  et_floats : Forall (fun f => is_f32 f = true)
    [ce_prediction_confidence evt; ce_delta_b_ratio evt; ce_delta_c_ratio evt];
}.

(** What the forwarder requires besides. *)
Record forwardable (evt : WireEvent) : Prop := {
  fw_version : ce_specversion evt = "1.0";
  fw_type : ce_type evt = AUDIT_DECISION \/ ce_type evt = AUDIT_OUTCOME;
  fw_nonempty : Forall (fun s => is_empty s = false)
    [ce_source evt; ce_datacontenttype evt; ce_id evt; ce_tenant_id evt; ce_decision_id evt;
     ce_producer_id evt; ce_data evt];
  fw_uuids : Forall (fun s => is_Some (uuid_parse s)) [ce_id evt; ce_tenant_id evt; ce_decision_id evt];
}.

Lemma payload_fields evt :
  match cloudevent_payload evt with
  | JObj o => Forall (fun kv => jget kv.1 (JObj o) = Some kv.2) o
  | _ => False
  end.
Proof. cbn. repeat constructor. Qed.

Lemma i32_wrap_id z : is_i32 z = true -> i32_wrap z = z.
Proof. unfold is_i32, i32_min, i32_max, i32_wrap. intros Hz. rewrite Z.mod_small; lia. Qed.

Lemma i32_i64 z : is_i32 z = true -> is_i64 z = true.
Proof. unfold is_i32, is_i64, i32_min, i32_max, i64_min, i64_max. lia. Qed.

Lemma j_f64_jfloat f : is_f32 f = true -> f32_of <$> j_f64 (jfloat f) = Some f.
Proof.
  unfold is_f32, jfloat. intros [Hf Hv]%andb_true_iff. rewrite Hf. cbn. by rewrite f32_of_valid.
Qed.

Section Readers.
Context (p : json) (k : string).

Lemma req_str_ok s : jget k p = Some (JStr s) -> is_empty s = false -> req_str p k = Ok s.
Proof using. intros Hk Hs. unfold req_str. rewrite Hk. cbn. by rewrite Hs. Qed.
Lemma opt_str_ok s : jget k p = Some (JStr s) -> opt_str p k = s.
Proof using. intros Hk. unfold opt_str. by rewrite Hk. Qed.
Lemma opt_i64_ok z : jget k p = Some (JInt z) -> is_i64 z = true -> opt_i64 p k = Ok z.
Proof using. intros Hk Hz. unfold opt_i64. rewrite Hk. cbn. by rewrite Hz. Qed.
Lemma opt_i32_ok z : jget k p = Some (JInt z) -> is_i32 z = true -> opt_i32 p k = Ok z.
Proof using.
  intros Hk Hz. unfold opt_i32. rewrite (opt_i64_ok z) by auto using i32_i64. cbn. by rewrite Hz.
Qed.
Lemma opt_f32_ok f : jget k p = Some (jfloat f) -> is_f32 f = true -> opt_f32 p k = Ok f.
Proof using. intros Hk Hf. unfold opt_f32. rewrite Hk. by rewrite j_f64_jfloat. Qed.
Lemma req_i64_ok z : jget k p = Some (JInt z) -> is_i64 z = true -> req_i64 p k = Ok z.
Proof using. intros Hk Hz. unfold req_i64. rewrite Hk. cbn. by rewrite Hz. Qed.
Lemma req_u64_ok z : jget k p = Some (JInt z) -> is_u64 z = true -> req_u64 p k = Ok z.
Proof using. intros Hk Hz. unfold req_u64. rewrite Hk. cbn. by rewrite Hz. Qed.
Lemma req_uuid_ok s : jget k p = Some (JStr s) -> is_empty s = false -> is_Some (uuid_parse s) ->
  exists u, req_uuid p k = Ok u.
Proof using.
  intros Hk Hs [u Hu]. exists u. unfold req_uuid. rewrite (req_str_ok s) by done. cbn. by rewrite Hu.
Qed.

End Readers.

(** Rewrites with what is known of the keys of a tree. *)
Ltac read_keys := repeat match goal with H : jget ?k ?p = Some _ |- context [jget ?k ?p] => rewrite H end.

(** The keys of the payload of [evt], in the context [p]. *)
Ltac payload_keys evt p Hobj :=
  let Hf := fresh "Hf" in
  pose proof (payload_fields evt) as Hf;
  unfold cloudevent_payload, cloudevent_to_json, envelope_fields, event_seconds, event_nanos in Hf |- *;
  cbn [app] in Hf |- *;
  match goal with |- context [JObj ?L] => remember (JObj L) as p eqn:Hobj end;
  repeat (rewrite Forall_cons in Hf; let H := fresh "Hk" in destruct Hf as [H Hf]; cbn [fst snd] in H);
  clear Hf.

Lemma decode_fields evt row :
  event_typed evt -> forwardable evt ->
  or_cloudevent_payload row = cloudevent_payload evt ->
  or_cloudevent_payload_signature row = ce_producer_signature evt ->
  strict_decode row = Ok evt.
Proof.
  intros [(t & Ht & Hsec & Hnano) Hseq Hsteps Hints Hfloats] [Hver Hty Hne Huu] Hp Hsig.
  rewrite !Forall_cons in Hints. rewrite !Forall_cons in Hfloats. rewrite !Forall_cons in Hne.
  rewrite !Forall_cons in Huu. destruct_and!.
  assert (Hb : is_empty (b64_encode (ce_data evt)) = false).
  { destruct (is_empty (b64_encode _)) eqn:He; [|done]. apply is_empty_spec, b64_encode_empty in He.
    by rewrite He in *. }
  unfold strict_decode. rewrite Hp, Hsig. payload_keys evt p Hobj. rewrite Ht in *.
  cbn [default from_option id fmap option_fmap option_map] in *. cbn [mbind result_bind].
  repeat first
    [ erewrite req_str_ok; [|eassumption|first [eassumption|by rewrite Hver|by destruct Hty as [-> | ->]]]
    | erewrite req_i64_ok; [|eassumption|by auto using i32_i64]
    | erewrite req_u64_ok; [|eassumption..]
    | erewrite opt_str_ok; [|eassumption]
    | erewrite opt_i64_ok; [|eassumption..]
    | erewrite opt_i32_ok; [|eassumption..]
    | erewrite opt_f32_ok; [|eassumption..] ].
  edestruct (req_uuid_ok p "tenantid") as [u1 ->]; [eassumption..|].
  edestruct (req_uuid_ok p "decisionid") as [u2 ->]; [eassumption..|].
  rewrite Hver. cbn [mbind result_bind].
  change ("1.0" =?s "1.0") with true.
  replace ((ce_type evt =?s AUDIT_DECISION) || (ce_type evt =?s AUDIT_OUTCOME)) with true
    by (destruct Hty as [-> | ->]; done).
  destruct (uuid_parse (ce_id evt)) as [u3|] eqn:Hid; [|by destruct (is_Some_None (A := uuid))].
  rewrite b64_decode_encode, i32_wrap_id by done. cbn [mbind result_bind ensure ok_or].
  destruct evt, t; cbn in *; by subst.
Qed.

Lemma req_str_inv p k s s' : jget k p = Some (JStr s) -> req_str p k = Ok s' -> s' = s /\ is_empty s = false.
Proof. unfold req_str. intros ->. cbn. destruct (is_empty s) eqn:Hs; [done|]. by intros [= ->]. Qed.

Lemma req_uuid_inv p k s u :
  jget k p = Some (JStr s) -> req_uuid p k = Ok u -> is_empty s = false /\ is_Some (uuid_parse s).
Proof.
  unfold req_uuid. intros Hk (s' & Hs & Hu)%result_bind_ok. apply (req_str_inv _ _ s) in Hs as [-> Hs]; [|done].
  split; [done|]. apply ok_or_ok in Hu. by eexists.
Qed.

(** What the forwarder decodes of a stored event meets its requirements. *)
Lemma decode_requires evt row e :
  or_cloudevent_payload row = cloudevent_payload evt -> strict_decode row = Ok e -> forwardable evt.
Proof.
  intros Hp Hd. unfold strict_decode in Hd. rewrite Hp in Hd.
  cut (True /\ forwardable evt); [tauto|]. revert Hd. payload_keys evt p Hobj. intros Hd.
  mon_inv Hd. split; [done|].
  apply (req_str_inv _ _ _ _ Hk) in E as [-> Hn]. apply (req_str_inv _ _ _ _ Hk0) in E1 as [-> Hn0].
  apply (req_str_inv _ _ _ _ Hk1) in E3 as [_ Hn1]. apply (req_str_inv _ _ _ _ Hk5) in E4 as [_ Hn5].
  apply (req_str_inv _ _ _ _ Hk2) in E5 as [-> Hn2]. apply (req_str_inv _ _ _ _ Hk11) in E11 as [_ Hn11].
  apply (req_uuid_inv _ _ _ _ Hk7) in E9 as [? ?]. apply (req_uuid_inv _ _ _ _ Hk9) in E10 as [? ?].
  apply (req_str_inv _ _ _ _ Hk6) in E13 as [_ Hb]. constructor.
  - by apply String.eqb_eq.
  - apply orb_true_iff in E2 as [E2|E2]; apply String.eqb_eq in E2; auto.
  - repeat constructor; try done. destruct (is_empty (ce_data evt)) eqn:He; [|done].
    apply is_empty_spec in He. by rewrite He, b64_encode_nil in Hb.
  - rewrite !Forall_cons. split_and!; [by eexists|done..|constructor].
Qed.

Lemma decode_jsonb evt sig :
  event_typed evt -> ce_producer_signature evt = sig ->
  decode_cloudevent_from_jsonb (cloudevent_payload evt) sig = Ok evt.
Proof.
  intros [(t & Ht & Hsec & Hnano) Hseq Hsteps Hints Hfloats] Hsig.
  rewrite !Forall_cons in Hints. rewrite !Forall_cons in Hfloats. destruct_and!.
  unfold decode_cloudevent_from_jsonb. payload_keys evt p Hobj. rewrite Ht in *.
  read_keys. cbn [mbind option_bind j_str j_i64 j_u64 default from_option id fmap option_fmap option_map].
  rewrite decode_data.
  rewrite Hsec, (i32_i64 _ Hnano), (i32_i64 _ Hsteps), Hseq.
  repeat match goal with H : is_i64 ?x = true |- context [if is_i64 ?x then _ else _] => rewrite H end.
  rewrite !j_f64_jfloat by done. cbn [mbind result_bind default from_option id].
  rewrite !i32_wrap_id by done. destruct evt, t; cbn in *; by subst.
Qed.

(** C23: the outbox keeps what was signed. An audit event that the ledger stores
    decodes again to the same event, with the same signature: always when the
    ledger replays it, and exactly when it is a decision or an outcome of version
    1.0 with well-formed identifiers and no empty required field when the
    forwarder sends it. *)
Theorem outbox_roundtrip evt row :
  event_typed evt -> or_cloudevent_payload row = cloudevent_payload evt ->
  or_cloudevent_payload_signature row = ce_producer_signature evt ->
  decode_cloudevent_from_jsonb (or_cloudevent_payload row) (or_cloudevent_payload_signature row) = Ok evt /\
  (forwardable evt -> strict_decode row = Ok evt) /\
  (forall e, strict_decode row = Ok e -> forwardable evt /\ e = evt).
Proof.
  intros Ht Hp Hs. split; [rewrite Hp; by apply decode_jsonb|].
  assert (Hf : forwardable evt -> strict_decode row = Ok evt) by (intros Hf; by apply decode_fields).
  split; [done|]. intros e He. pose proof (decode_requires evt row e Hp He) as Hfw. split; [done|].
  rewrite (Hf Hfw) in He. by injection He.
Qed.

End Outbox.

(** ** A row *)

Module OutboxDemo.
Import Demo ChainDemo.

Definition row_of (evt : WireEvent) (id : string) : OutboxRow :=
  {| or_recorded_month := 0; or_audit_outbox_id := id : uuid (UuidLib := demo_uuid);
     or_event_type := ce_type evt;
     or_cloudevent_payload := cloudevent_payload evt;
     or_cloudevent_payload_signature := ce_producer_signature evt;
     or_producer_sequence := ce_producer_sequence evt; or_recorded_at := 0 |}.

Definition evt : WireEvent := event AUDIT_DECISION "u1".
Definition good : OutboxRow := row_of evt "r1".
Lemma evt_typed : event_typed evt.
Proof.
  constructor; [by eexists|done|done|by repeat constructor|by repeat constructor].
Qed.

Lemma outbox_roundtrip_witness :
  decode_cloudevent_from_jsonb (or_cloudevent_payload good) EmptyString = Ok evt /\ strict_decode good = Ok evt.
Proof.
  destruct (outbox_roundtrip evt good) as (Hl & Hs & _); [apply evt_typed|reflexivity|reflexivity|].
  split; [exact Hl|]. apply Hs. constructor; [done|by left|by repeat constructor|].
  repeat constructor; by eexists.
Defined.

End OutboxDemo.
