(* ===== verification/Forwarder.v ===== *)
(** * From the outbox to the chain

    The outbox forwarder ([services/outbox_forwarder/src]) polls the table of audit
    events ([poll.rs]), decodes the rows strictly ([Outbox]), sends them to
    AppendEvents and records what it was answered ([forward.rs]). The table is a list of
    rows in the order of the poll. What AppendEvents does not read of a request is
    left out. *)

From S2P Require Import Prelude Floats Deps Effects Proto Signing Canonical Ingest Chain Outbox.

(** [Display] of [tonic::Code]. *)
Class TonicLib := { code_display : string -> string }.

Section Forwarder.
Context `{HU : UuidLib} `{HC : CryptoLib} `{HJ : JsonLib} `{HB : Base64Lib} `{HW : WireLib}
        `{HT : ChronoLib} `{HX : X509Lib} `{HH : !HexLib} `{HG : TonicLib}.

(** ** The forwarder *)

Record ForwarderConfig := {
  fo_workload_instance_id : string;
  fo_schema_bundle_id : string;
  fo_schema_bundle_hash_hex : string;
  fo_batch_size : nat;
}.

Record UpdateRow := {
  up_recorded_month : Z;
  up_audit_outbox_id : uuid;
  up_pending_forward : bool;
  up_forwarded_at : option Z;
  up_last_forward_error : option string;
}.

Definition row_key (r : OutboxRow) : Z * uuid := (or_recorded_month r, or_audit_outbox_id r).
Definition update_key (u : UpdateRow) : Z * uuid := (up_recorded_month u, up_audit_outbox_id u).

(** The row stays pending. *)
Definition still_pending (pk : Z * uuid) (error : string) : UpdateRow :=
  {| up_recorded_month := pk.1; up_audit_outbox_id := pk.2; up_pending_forward := true;
     up_forwarded_at := None; up_last_forward_error := Some error |}.
Definition forwarded (pk : Z * uuid) (now : Z) : UpdateRow :=
  {| up_recorded_month := pk.1; up_audit_outbox_id := pk.2; up_pending_forward := false;
     up_forwarded_at := Some now; up_last_forward_error := None |}.

(** [{:?}] of a decoding error and of a status. *)
Definition decode_error_debug (e : DecodeError) : string :=
  match e with
  | Missing k => "Missing(" +:+ quoted k +:+ ")"
  | BadUuid k => "BadUuid(" +:+ quoted k +:+ ")"
  | BadNumber k => "BadNumber(" +:+ quoted k +:+ ")"
  | BadEnum k v => "BadEnum(" +:+ quoted k +:+ ", " +:+ quoted v +:+ ")"
  | BadBase64 k => "BadBase64(" +:+ quoted k +:+ ")"
  | NotObject => "NotObject"
  end.
Definition status_debug (s : EventStatus) : string :=
  match s with
  | ES_Unspecified => "Unspecified" | ES_Appended => "Appended" | ES_Deduped => "Deduped"
  | ES_AwaitingPrecedingDecision => "AwaitingPrecedingDecision" | ES_Quarantined => "Quarantined"
  | ES_OrphanOutcome => "OrphanOutcome" | ES_Duplicate => "Duplicate"
  | ES_Backpressure => "Backpressure" | ES_SignatureInvalid => "SignatureInvalid"
  end.

Inductive forwardE : Type -> Type :=
  | FetchPending (batch_size : nat) : forwardE (result string (list OutboxRow))
  | CallAppendEvents (req : AppendEventsRequest) : forwardE (result Status (list EventResult))
  | ApplyUpdates (updates : list UpdateRow) : forwardE (result string unit)
  | ForwardNow : forwardE Z.

Abbreviation forwarding A := (M forwardE string A).

(** The rows that decode, and the updates of those that do not. *)
Fixpoint decode_rows (rows : list OutboxRow) : list (OutboxRow * WireEvent) * list UpdateRow :=
  match rows with
  | [] => ([], [])
  | row :: rows =>
      let '(decoded, updates) := decode_rows rows in
      match strict_decode row with
      | Ok ce => ((row, ce) :: decoded, updates)
      | Err e => (decoded, still_pending (row_key row) ("DECODE_FAILED:" +:+ decode_error_debug e) :: updates)
      end
  end.

(** [event_id_to_pk]: of rows with one event id, the last counts. *)
Definition event_id_to_pk (decoded : list (OutboxRow * WireEvent)) : gmap string (Z * uuid) :=
  fold_left (fun m d => <[ce_id d.2 := row_key d.1]> m) decoded ∅.

Definition forwarder_id (cfg : ForwarderConfig) : string :=
  "outbox-forwarder:" +:+ fo_workload_instance_id cfg.

Definition forward_request (cfg : ForwarderConfig) (hash : string) (decoded : list (OutboxRow * WireEvent))
    : AppendEventsRequest :=
  {| ae_producer_id := forwarder_id cfg;
     ae_schema_bundle := Some {| sb_schema_bundle_id := fo_schema_bundle_id cfg; sb_schema_bundle_hash := hash |};
     ae_events := snd <$> decoded; ae_route := Enforcement |}.

(** The results in order; an id that was seen before, or was not sent, is ignored. *)
Fixpoint result_updates (pks : gmap string (Z * uuid)) (results : list EventResult) (seen : list string)
    : forwarding (list UpdateRow * list string) :=
  match results with
  | [] => mret ([], seen)
  | r :: results =>
      if bool_decide (er_event_id r ∈ seen) then result_updates pks results seen
      else
        let seen := er_event_id r :: seen in
        match pks !! er_event_id r with
        | None => result_updates pks results seen
        | Some pk =>
            update ← match er_status r with
                     | ES_Appended | ES_Deduped => now ← act ForwardNow; mret (forwarded pk now)
                     | other => mret (still_pending pk (status_debug other))
                     end;
            rest ← result_updates pks results seen;
            mret (update :: rest.1, rest.2)
        end
  end.

Definition unanswered (pks : gmap string (Z * uuid)) (seen : list string) : list UpdateRow :=
  omap (fun kv : string * (Z * uuid) =>
          if bool_decide (kv.1 ∈ seen) then None else Some (still_pending kv.2 "NO_RESULT_RETURNED"))
    (map_to_list pks).

Definition send_batch (cfg : ForwarderConfig) (decoded : list (OutboxRow * WireEvent))
    : forwarding (list UpdateRow) :=
  let pks := event_id_to_pk decoded in
  hash ← lift (ok_or (hex_decode (fo_schema_bundle_hash_hex cfg)) "hex decode");
  resp ← act (CallAppendEvents (forward_request cfg hash decoded));
  match resp with
  | Ok results =>
      r ← result_updates pks results [];
      mret (r.1 ++ unanswered pks r.2)
  | Err status =>
      mret ((fun kv : string * (Z * uuid) => still_pending kv.2 ("BATCH_GRPC: " +:+ code_display (st_code status)))
              <$> map_to_list pks)
  end.

Definition send_decoded (cfg : ForwarderConfig) (decoded : list (OutboxRow * WireEvent))
    : forwarding (list UpdateRow) :=
  match decoded with [] => mret [] | _ => send_batch cfg decoded end.

Definition forward_batch (cfg : ForwarderConfig) : forwarding nat :=
  rows ← call (FetchPending (fo_batch_size cfg));
  match rows with
  | [] => mret O
  | _ =>
      let '(decoded, failed) := decode_rows rows in
      sent ← send_decoded cfg decoded;
      let updates := failed ++ sent in
      _ ← match updates with [] => mret tt | _ => call (ApplyUpdates updates) end;
      mret (length rows)
  end.

(** *** The table *)

(** The statement of [apply_updates] on one row; keys are primary. *)
Definition apply_update (updates : list UpdateRow) (e : OutboxEntry) : OutboxEntry :=
  match find (fun u => bool_decide (update_key u = row_key (oe_row e)) && oe_pending_forward e) updates with
  | Some u =>
      {| oe_row := oe_row e; oe_pending_forward := up_pending_forward u;
         oe_forwarded_at := up_forwarded_at u; oe_forward_attempts := oe_forward_attempts e + 1;
         oe_last_forward_error := up_last_forward_error u |}
  | None => e
  end.

Definition pending_rows (t : list OutboxEntry) : list OutboxRow :=
  omap (fun e => if oe_pending_forward e then Some (oe_row e) else None) t.

(** *** What a row is forwarded for *)

Lemma decode_rows_spec rows d ups :
  decode_rows rows = (d, ups) ->
  (forall row ce, (row, ce) ∈ d -> row ∈ rows /\ strict_decode row = Ok ce) /\
  Forall (fun u => up_pending_forward u = true) ups.
Proof.
  revert d ups; induction rows as [|row rows IH]; intros d ups; cbn.
  - intros [= <- <-]. split; [|constructor]. intros row ce H. by apply elem_of_nil in H.
  - destruct (decode_rows rows) as [d' ups'] eqn:Hr. destruct (IH d' ups' eq_refl) as [Hd Hu].
    destruct (strict_decode row) as [ce|e] eqn:Hs; intros [= <- <-]; (split; [|by repeat constructor]);
      intros row' ce'.
    + intros [[= -> ->]|[? ?]%Hd]%elem_of_cons; [split; [by left|done]|]. split; [by right|done].
    + intros [? ?]%Hd. split; [by right|done].
Qed.

Lemma event_id_to_pk_spec decoded id pk :
  event_id_to_pk decoded !! id = Some pk -> exists d, d ∈ decoded /\ ce_id d.2 = id /\ row_key d.1 = pk.
Proof.
  unfold event_id_to_pk. intros H.
  assert (Hgen : forall (m : gmap string (Z * uuid)), fold_left (fun m d => <[ce_id d.2 := row_key d.1]> m) decoded m !! id = Some pk ->
    m !! id = Some pk \/ exists d, d ∈ decoded /\ ce_id d.2 = id /\ row_key d.1 = pk); [|by destruct (Hgen _ H)].
  clear H. induction decoded as [|d decoded IH]; intros m; cbn; [by left|].
  intros [Hm|(d' & ? & ?)]%IH; [|right; exists d'; split; [by right|done]].
  apply lookup_insert_Some in Hm as [[<- <-]|[_ Hm]]; [|by left]. right. exists d. by split; [left|].
Qed.

Lemma result_updates_spec pks results seen t ups seen' u :
  exec (result_updates pks results seen) t (Ok (ups, seen')) -> u ∈ ups -> up_pending_forward u = false ->
  exists r, r ∈ results /\ pks !! er_event_id r = Some (update_key u) /\
    (er_status r = ES_Appended \/ er_status r = ES_Deduped).
Proof.
  revert seen t ups; induction results as [|r results IH]; intros seen t ups; cbn [result_updates].
  { intros [_ [= -> _]]%exec_ret Hu. by apply elem_of_nil in Hu. }
  assert (Hskip : forall t, exec (result_updates pks results (er_event_id r :: seen)) t (Ok (ups, seen')) ->
    u ∈ ups -> up_pending_forward u = false -> exists r', r' ∈ r :: results /\
    pks !! er_event_id r' = Some (update_key u) /\ (er_status r' = ES_Appended \/ er_status r' = ES_Deduped)).
  { intros t' Hx Hu Hp. destruct (IH _ _ _ Hx Hu Hp) as (r' & ? & ?). exists r'. by split; [right|]. }
  case_bool_decide as Hseen.
  { intros Hx Hu Hp. destruct (IH _ _ _ Hx Hu Hp) as (r' & ? & ?). exists r'. by split; [right|]. }
  destruct (pks !! er_event_id r) as [pk|] eqn:Hpk; [|by apply Hskip].
  intros (t1 & t2 & up & -> & Hup & Hx)%exec_bind_ok Hu Hp.
  apply exec_bind_ok in Hx as (t3 & t4 & [ups' seen2] & -> & Hx & [_ [= -> ->]]%exec_ret).
  apply elem_of_cons in Hu as [<-|Hu].
  - exists r. split; [by left|]. clear Hx IH Hskip.
    destruct (er_status r); try (apply exec_ret in Hup as [_ [= ->]]; done);
      apply exec_bind_ok in Hup as (t5 & t6 & now & _ & _ & [_ [= ->]]%exec_ret);
      (split; [rewrite Hpk; by destruct pk|auto]).
  - destruct (IH _ _ _ Hx Hu Hp) as (r' & ? & ?). exists r'. by split; [right|].
Qed.

Lemma unanswered_pending pks seen u : u ∈ unanswered pks seen -> up_pending_forward u = true.
Proof.
  unfold unanswered. intros ([id pk] & _ & Hu)%list_elem_of_omap. cbn in Hu.
  case_bool_decide; [done|]. by injection Hu as <-.
Qed.

(** The row of the update [u] was fetched, and a result for its event's id says
    that it was appended or is a duplicate. *)
Definition acknowledged (cfg : ForwarderConfig) (t : list (event forwardE)) (u : UpdateRow) : Prop :=
  exists rows row ce req results r,
    Ev (FetchPending (fo_batch_size cfg)) (Ok rows : result string (list OutboxRow)) ∈ t /\
    row ∈ rows /\ row_key row = update_key u /\ strict_decode row = Ok ce /\
    Ev (CallAppendEvents req) (Ok results : result Status (list EventResult)) ∈ t /\ ce ∈ ae_events req /\
    ae_producer_id req = forwarder_id cfg /\ r ∈ results /\ er_event_id r = ce_id ce /\ (er_status r = ES_Appended \/ er_status r = ES_Deduped).

Lemma send_batch_spec cfg decoded t ups u :
  exec (send_batch cfg decoded) t (Ok ups) -> u ∈ ups -> up_pending_forward u = false ->
  exists d req results r,
    d ∈ decoded /\ row_key d.1 = update_key u /\
    Ev (CallAppendEvents req) (Ok results : result Status (list EventResult)) ∈ t /\ d.2 ∈ ae_events req /\
    ae_producer_id req = forwarder_id cfg /\ r ∈ results /\ er_event_id r = ce_id d.2 /\ (er_status r = ES_Appended \/ er_status r = ES_Deduped).
Proof.
  unfold send_batch. intros (t1 & t2 & hash & -> & _ & Hx)%exec_bind_ok Hu Hp.
  apply exec_bind_ok in Hx as (t3 & t4 & resp & -> & (y & -> & [= <-])%exec_act & Hx).
  destruct resp as [results|status].
  - apply exec_bind_ok in Hx as (t5 & t6 & [ups' seen] & -> & Hr & [_ [= ->]]%exec_ret).
    apply elem_of_app in Hu as [Hu|Hu%unanswered_pending]; [|by rewrite Hp in Hu].
    destruct (result_updates_spec _ _ _ _ _ _ _ Hr Hu Hp) as (r & Hin & Hpk & Hst).
    apply event_id_to_pk_spec in Hpk as (d & Hd & Hid & Hkey).
    exists d, (forward_request cfg hash decoded), results, r. split_and!; try done.
    + rewrite !elem_of_app. right. left. by left.
    + cbn. by apply list_elem_of_fmap_2.
  - apply exec_ret in Hx as [_ [= ->]]. apply list_elem_of_fmap in Hu as (kv & -> & _). done.
Qed.

(** Only the end of a batch writes to the table. *)
Definition no_write {X} (e : forwardE X) : Prop :=
  match e with ApplyUpdates _ => False | _ => True end.

Lemma send_batch_no_write cfg decoded : all_effects (@no_write) (send_batch cfg decoded).
Proof.
  unfold send_batch. apply all_effects_bind; [done|]. intros hash. split; [done|].
  intros [results|status]; [|done]. apply all_effects_bind; [|done].
  generalize (event_id_to_pk decoded) ([] : list string). intros pks.
  induction results as [|r results IH]; intros seen; cbn [result_updates]; [done|].
  case_bool_decide; [by apply IH|]. destruct (pks !! _); [|by apply IH].
  apply all_effects_bind; [by destruct (er_status r)|]. intros up.
  apply all_effects_bind; [by apply IH|done].
Qed.

Lemma send_decoded_no_write cfg decoded t r ups x :
  exec (send_decoded cfg decoded) t r -> Ev (ApplyUpdates ups) x ∉ t.
Proof.
  intros He Hin. assert (Hf : Forall (ev_sat (@no_write)) t).
  { eapply all_effects_exec; [|exact He]. destruct decoded; [done|]. apply send_batch_no_write. }
  rewrite Forall_forall in Hf. by apply Hf in Hin.
Qed.

(** What a batch writes is what it found undecodable and what it was answered. *)
Lemma forward_batch_writes cfg t r ups x :
  exec (forward_batch cfg) t r -> Ev (ApplyUpdates ups) x ∈ t ->
  exists rows d failed sent t',
    Ev (FetchPending (fo_batch_size cfg)) (Ok rows : result string (list OutboxRow)) ∈ t /\
    decode_rows rows = (d, failed) /\ exec (send_decoded cfg d) t' (Ok sent) /\ t' ⊆ t /\
    ups = failed ++ sent.
Proof.
  intros Hx Hups. unfold forward_batch in Hx.
  apply exec_bind in Hx as [(t1 & t2 & rows & -> & ->%exec_call & Hx)|(e & _ & ->%exec_call)];
    [|by apply list_elem_of_singleton in Hups].
  destruct rows as [|row0 rows']; [by destruct Hx as [-> _]; apply list_elem_of_singleton in Hups|].
  remember (row0 :: rows') as rows eqn:Hrows. clear Hrows.
  destruct (decode_rows rows) as [d failed] eqn:Hd.
  apply elem_of_app in Hups as [Hups%list_elem_of_singleton|Hups]; [done|].
  apply exec_bind in Hx as [(t3 & t4 & sent & -> & Hs & Hx)|(e & _ & He)];
    [|by apply (send_decoded_no_write _ _ _ _ _ _ He) in Hups].
  apply elem_of_app in Hups as [Hups|Hups]; [by apply (send_decoded_no_write _ _ _ _ _ _ Hs) in Hups|].
  exists rows, d, failed, sent, t3. split_and!; try done; [set_solver| |].
  - intros ev Hev. rewrite !elem_of_app. tauto.
  - destruct (failed ++ sent) as [|u0 us]; [destruct Hx as [-> _]; by apply elem_of_nil in Hups|].
    destruct Hx as (y & t' & -> & Hx). apply elem_of_cons in Hups as [Heq|Hups]; [by injection Heq|].
    destruct y; destruct Hx as [-> _]; by apply elem_of_nil in Hups.
Qed.

Lemma forward_batch_acknowledged cfg t r ups x u :
  exec (forward_batch cfg) t r -> Ev (ApplyUpdates ups) x ∈ t -> u ∈ ups ->
  up_pending_forward u = false -> acknowledged cfg t u.
Proof.
  intros Hx Hups Hu Hp.
  destruct (forward_batch_writes _ _ _ _ _ Hx Hups) as (rows & d & failed & sent & t' & Hfetch & Hd & Hs & Ht & ->).
  apply decode_rows_spec in Hd as [Hd Hfailed].
  apply elem_of_app in Hu as [Hu|Hu].
  { rewrite Forall_forall in Hfailed. apply Hfailed in Hu. by rewrite Hp in Hu. }
  destruct d as [|d0 d']; [destruct Hs as [_ [= ->]]; by apply elem_of_nil in Hu|].
  destruct (send_batch_spec _ _ _ _ _ Hs Hu Hp) as ([row ce] & req & results & res & Hdin & Hkey & Hev & Hrest).
  destruct (Hd _ _ Hdin). exists rows, row, ce, req, results, res. cbn in *.
  split_and!; try done; try apply Hrest. by apply Ht.
Qed.

(** C18: a row leaves the outbox only when the chain has its event. A forwarder runs
    a batch against the table [table], and each answer it gets is that of a call in
    a run of AppendEvents' replicas, interleaved with other producers' calls, outages
    and reaping. Whatever is answered, when the batch's updates mark a pending row
    as forwarded, then the row decodes, and the chain, or the quarantine of outcomes
    that wait for their decision, has an event of its id. *)
Theorem forwarded_is_known month_of event_checks quarantine_checks replicas calls s log s' ps'
    cfg t r table ups x e :
  chain_inv month_of replicas s -> Forall (fun c => (ca_cfg c, ca_verifier c) ∈ replicas) calls ->
  pool_run (handle_ingest month_of event_checks quarantine_checks) other (s, serve <$> calls) log (s', ps') ->
  exec (forward_batch cfg) t r ->
  (forall req rs, Ev (CallAppendEvents req) (Ok rs : result Status (list EventResult)) ∈ t ->
     exists i c, calls !! i = Some c /\ ca_request c = req /\ ps' !! i = Some (Ret (Ok rs))) ->
  NoDup ((fun e => row_key (oe_row e)) <$> table) ->
  (forall n rows, Ev (FetchPending n) (Ok rows : result string (list OutboxRow)) ∈ t ->
     rows ⊆ oe_row <$> table) ->
  Ev (ApplyUpdates ups) x ∈ t -> e ∈ table ->
  oe_pending_forward e = true -> oe_pending_forward (apply_update ups e) = false ->
  exists evt id, strict_decode (oe_row e) = Ok evt /\ uuid_parse (ce_id evt) = Some id /\ known id s'.
Proof.
  intros HI Hcalls Hrun Hx Hans Hnd Hrows Hups He Hpe Hp. unfold apply_update in Hp.
  destruct (find _ _) as [u|] eqn:Hf; [|by rewrite Hpe in Hp]. cbn in Hp.
  apply List.find_some in Hf as [Hu%list_elem_of_In [Hkey%bool_decide_eq_true _]%andb_true_iff].
  destruct (forward_batch_acknowledged _ _ _ _ _ _ Hx Hups Hu Hp)
    as (rows & row & ce & req & results & er & Hfetch & Hrow & Hrk & Hdec & Hcall & Hce & _ & Her & Hid & Hst).
  specialize (Hrows _ _ Hfetch row Hrow). apply list_elem_of_fmap in Hrows as (e' & -> & He').
  assert (e' = e) as ->.
  { rewrite <- Hrk in Hkey. apply list_elem_of_lookup in He as [i Hi]. apply list_elem_of_lookup in He' as [j Hj].
    assert (i = j) as ->; [|by simplify_eq].
    eapply (NoDup_lookup _ i j); [exact Hnd|by rewrite list_lookup_fmap, Hi|].
    rewrite list_lookup_fmap, Hj. cbn. by rewrite Hkey. }
  destruct (Hans _ _ Hcall) as (i & c & Hc & Hreq & Hret).
  destruct (calls_answered _ _ _ _ _ _ _ _ _ _ _ _ HI Hcalls Hrun Hc Hret) as [bundle Hall].
  destruct (calls_inv _ _ _ _ _ _ _ _ _ HI Hcalls Hrun) as [HI' _].
  apply list_elem_of_lookup in Her as [k Hk]. destruct (Forall2_lookup_r _ _ _ _ _ Hall Hk) as (evt & _ & Heid & Hh).
  exists ce. rewrite <- Hid, Heid. destruct Hst as [Hst|Hst]; rewrite Hst in Hh.
  - destruct Hh as (_ & cr & Hcr & Hpid & _). eexists. split_and!; [done|done|]. left.
    rewrite (ri_keys _ _ (ci_rows _ _ _ HI')). eexists. apply lookup_keys; [apply HI'|]. by exists cr.
  - destruct Hh as (_ & id & Hpid & Hkn). by exists id.
Qed.

(** ** Two ways to stop the outbox *)

(** AppendEvents refuses a batch with an event of another producer. *)
Lemma other_producer_refused ccfg v req peer ce :
  cf_require_producer_spiffe_san ccfg = true -> ce ∈ ae_events req ->
  ce_producer_id ce <> ae_producer_id req -> is_empty (ae_producer_id req) = false ->
  exists m, handle ccfg v req peer = Ret (Err (status_error "unauthenticated" m)).
Proof.
  intros Hcf Hce Hne Hid. unfold handle. rewrite Hid, Hcf. cbn.
  rewrite bool_decide_false by (intros Hev; rewrite Hev in Hce; by apply elem_of_nil in Hce). cbn.
  destruct (assert_producer_binding peer (ae_producer_id req)) as [u|e]; [|by eexists].
  destruct (forallb _ _) eqn:Hall; [|by eexists]. exfalso. apply Hne.
  rewrite forallb_forall in Hall. apply String.eqb_eq, Hall. by apply list_elem_of_In.
Qed.

(** The forwarder cannot authenticate the ledger's events. When canonical
    ingest requires producers to be authenticated, it wants every event of a batch
    to be the caller's own; the forwarder calls under its own name with the events
    of the sidecars. So whatever a batch fetches, if the events are not the
    forwarder's, no row is marked as forwarded. *)
Theorem forwarder_refused ccfg cfg t r ups x :
  cf_require_producer_spiffe_san ccfg = true -> exec (forward_batch cfg) t r ->
  (forall req rs, Ev (CallAppendEvents req) rs ∈ t ->
     exists v peer t', exec (handle ccfg v req peer) t' rs) ->
  (forall rows row ce, Ev (FetchPending (fo_batch_size cfg)) (Ok rows : result string (list OutboxRow)) ∈ t ->
     row ∈ rows -> strict_decode row = Ok ce -> ce_producer_id ce <> forwarder_id cfg) ->
  Ev (ApplyUpdates ups) x ∈ t -> Forall (fun u => up_pending_forward u = true) ups.
Proof.
  intros Hcf Hx Hans Hprod Hups. apply Forall_forall. intros u Hu.
  destruct (up_pending_forward u) eqn:Hp; [done|]. exfalso.
  destruct (forward_batch_acknowledged _ _ _ _ _ _ Hx Hups Hu Hp)
    as (rows & row & ce & req & results & er & Hfetch & Hrow & _ & Hdec & Hcall & Hce & Hid & _).
  destruct (Hans _ _ Hcall) as (v & peer & t' & He).
  destruct (other_producer_refused ccfg v req peer ce) as [m Hm]; [done|done| |by rewrite Hid|].
  - rewrite Hid. by eapply Hprod.
  - rewrite Hm in He. by destruct He as [_ ?].
Qed.

(** *** Rows that do not decode *)

(** The table, the rows that other transactions hold locked (the claim of another
    poller lasts from its SELECT to its commit), and the calls sent. *)
Record OutboxWorld := {
  ow_table : list OutboxEntry;
  ow_locked : list (Z * uuid);
  ow_sent : list AppendEventsRequest;
}.

(** FOR UPDATE SKIP LOCKED: a poll takes the first pending rows that no other
    transaction holds. *)
Definition claimable (s : OutboxWorld) : list OutboxRow :=
  filter (fun row => row_key row ∉ ow_locked s) (pending_rows (ow_table s)).

Definition with_table (t : list OutboxEntry) (s : OutboxWorld) : OutboxWorld :=
  {| ow_table := t; ow_locked := ow_locked s; ow_sent := ow_sent s |}.

(** The claim of a poll is over when it answers; an update may fail, before or after
    it commits. *)
Definition forward_handle (X : Type) (e : forwardE X) (s : OutboxWorld) : X -> OutboxWorld -> Prop :=
  match e in forwardE X return X -> OutboxWorld -> Prop with
  | FetchPending n => fun x s' =>
      s' = s /\ (x = Ok (take n (claimable s)) \/ exists e, x = Err e)
  | CallAppendEvents req => fun _ s' =>
      s' = {| ow_table := ow_table s; ow_locked := ow_locked s; ow_sent := ow_sent s ++ [req] |}
  | ApplyUpdates ups => fun x s' =>
      let s1 := with_table (apply_update ups <$> ow_table s) s in
      (x = Ok tt /\ s' = s1) \/ (exists e, x = Err e) /\ (s' = s \/ s' = s1)
  | ForwardNow => fun _ s' => s' = s
  end.

(** Nobody else holds one of the first [n] pending rows. *)
Definition head_free (n : nat) (s : OutboxWorld) : Prop :=
  Forall (fun row => row_key row ∉ ow_locked s) (take n (pending_rows (ow_table s))).

(** The ledger records rows, after those that are there, and other transactions
    lock and unlock rows, none of the first [n] pending ones. *)
Definition records (n : nat) (s s' : OutboxWorld) : Prop :=
  ow_sent s' = ow_sent s /\ (exists new, ow_table s' = ow_table s ++ new) /\ head_free n s'.

(** The first [n] pending rows do not decode. *)
Definition blocked (n : nat) (sent : list AppendEventsRequest) (s : OutboxWorld) : Prop :=
  ow_sent s = sent /\ (n <= length (pending_rows (ow_table s)))%nat /\ head_free n s /\
  Forall (fun row => exists e, strict_decode row = Err e) (take n (pending_rows (ow_table s))).

Lemma filter_Forall {A} (P : A -> Prop) `{forall x, Decision (P x)} l : Forall P l -> filter P l = l.
Proof. induction 1 as [|x l Hx _ IH]; [done|]. by rewrite filter_cons_True, IH. Qed.

Lemma claim_head n s :
  (n <= length (pending_rows (ow_table s)))%nat -> head_free n s ->
  take n (claimable s) = take n (pending_rows (ow_table s)).
Proof.
  unfold claimable, head_free. generalize (pending_rows (ow_table s)). intros rows Hlen Hf.
  rewrite <- (take_drop n rows) at 1. rewrite filter_app, filter_Forall by done.
  rewrite take_app_le by (rewrite length_take; lia). by rewrite take_take, Nat.min_id.
Qed.

Lemma pending_apply ups table :
  Forall (fun u => up_pending_forward u = true) ups ->
  pending_rows (apply_update ups <$> table) = pending_rows table.
Proof.
  intros Hups. unfold pending_rows. induction table as [|e table IH]; [done|]. cbn. rewrite IH. clear IH.
  unfold apply_update. destruct (find _ _) as [u|] eqn:Hf; [|done]. cbn.
  apply List.find_some in Hf as [Hu%list_elem_of_In [_ Hp]%andb_true_iff]. rewrite Forall_forall in Hups.
  by rewrite (Hups u Hu), Hp.
Qed.

Lemma blocked_apply n sent ups s :
  Forall (fun u => up_pending_forward u = true) ups -> blocked n sent s ->
  blocked n sent (with_table (apply_update ups <$> ow_table s) s).
Proof. unfold blocked, head_free. cbn. intros Hups. by rewrite pending_apply. Qed.

Lemma blocked_records n sent s s' : blocked n sent s -> records n s s' -> blocked n sent s'.
Proof.
  intros (Hs & Hlen & _ & Hall) (Hs' & (new & Hnew) & Hf). unfold blocked. rewrite Hs'. split; [done|].
  split; [|split; [done|]]; rewrite Hnew; unfold pending_rows in *; rewrite omap_app.
  - rewrite length_app. lia.
  - by rewrite take_app_le.
Qed.

Lemma undecodable rows :
  Forall (fun row => exists e, strict_decode row = Err e) rows ->
  exists ups, decode_rows rows = ([], ups) /\ Forall (fun u => up_pending_forward u = true) ups.
Proof.
  intros Hall. destruct (decode_rows rows) as [d ups] eqn:Hd. destruct (decode_rows_spec _ _ _ Hd) as [Hdec Hu].
  exists ups. split; [|done]. destruct d as [|[row ce] d]; [done|]. rewrite Forall_forall in Hall.
  destruct (Hdec row ce) as [Hin Hok]; [by left|]. destruct (Hall _ Hin) as [e He]. by rewrite Hok in He.
Qed.

Definition whatever (_ _ : OutboxWorld) : Prop := True.

#[local] Instance whatever_preorder : PreOrder whatever.
Proof. done. Qed.

Lemma forward_batch_blocked cfg sent s :
  follows forward_handle (blocked (fo_batch_size cfg) sent) whatever whatever (fun _ _ => True)
    (forward_batch cfg) s.
Proof.
  intros s1 x s2 _ HI [-> Hx]. split; [done|]. split; [done|]. destruct Hx as [->|[e ->]]; [|done].
  destruct HI as (_ & Hlen & Hf & Hall). rewrite (claim_head _ _ Hlen Hf).
  destruct (undecodable _ Hall) as (ups & Hd & Hups). cbn.
  destruct (take _ _) as [|row rows]; [done|]. rewrite Hd. cbn. rewrite app_nil_r.
  destruct ups as [|u ups]; [done|]. intros s3 y s4 _ HI3 Hy.
  assert (blocked (fo_batch_size cfg) sent s4).
  { destruct Hy as [[_ ->]|[_ [->| ->]]]; [by apply blocked_apply|done|by apply blocked_apply]. }
  by destruct y.
Qed.

(** C33: rows that do not decode stop the outbox. A row that the forwarder cannot
    decode stays pending, in its place; a batch takes the first pending rows that no
    other transaction has locked. So once a batch's worth of such rows is at the head,
    however many batches run, interleaved with each other and with the recording of
    rows behind them, nothing is sent any more, and the rows stay; as long as the polls
    do not overlap, that is, none finds one of these rows claimed by another. *)
Theorem outbox_head_blocks cfg s batches log s' ps' :
  blocked (fo_batch_size cfg) (ow_sent s) s ->
  pool_run forward_handle (records (fo_batch_size cfg)) (s, replicate batches (forward_batch cfg)) log (s', ps') ->
  ow_sent s' = ow_sent s /\ blocked (fo_batch_size cfg) (ow_sent s) s'.
Proof.
  intros HI Hrun.
  destruct (pool_follows forward_handle (blocked (fo_batch_size cfg) (ow_sent s)) (records (fo_batch_size cfg))
    (fun _ => whatever) (fun _ => whatever) (fun _ _ _ => True) s (replicate batches (forward_batch cfg)) log s' ps')
    as (HI' & _); try done.
  - intros s1 s2 HI1 Hr. split; [by eapply blocked_records|done].
  - intros i p [-> _]%lookup_replicate. apply forward_batch_blocked.
  - split; [apply HI'|done].
Qed.

End Forwarder.

(** ** A table of two rows *)

Module ForwarderDemo.
Import Demo ChainDemo OutboxDemo.

#[export] Instance demo_tonic : TonicLib := {| code_display := fun c => c |}.

Definition entry (row : OutboxRow) : OutboxEntry :=
  {| oe_row := row; oe_pending_forward := true; oe_forwarded_at := None; oe_forward_attempts := 0;
     oe_last_forward_error := None |}.

(** A version the forwarder does not know. *)
Definition bad : OutboxRow :=
  {| or_recorded_month := 0; or_audit_outbox_id := "r2" : uuid (UuidLib := demo_uuid);
     or_event_type := AUDIT_DECISION; or_cloudevent_payload := JObj [("specversion", JStr "0.3")];
     or_cloudevent_payload_signature := EmptyString; or_producer_sequence := 2; or_recorded_at := 0 |}.

Definition fcfg : ForwarderConfig :=
  {| fo_workload_instance_id := "f1"; fo_schema_bundle_id := "ubundle"; fo_schema_bundle_hash_hex := "hash";
     fo_batch_size := 10 |}.
Definition table : list OutboxEntry := [entry bad; entry good].

(** The forwarder's call of AppendEvents, and its answer. *)
Definition fcall : Call :=
  {| ca_cfg := cfg; ca_verifier := None; ca_request := forward_request fcfg "hash" [(good, evt)];
     ca_peer_leaf_der := None |}.
Definition chain : Db := (ran [fcall] [0; 0; 0; 0]%nat).2.1.
Definition appended : EventResult :=
  {| er_event_id := "u1"; er_status := ES_Appended;
     er_ingest_position := Some {| ip_region_id := "eu"; ip_ingest_shard_id := "0"; ip_ingest_log_offset := 1 |};
     er_error := None |}.

Definition answer (reply : result Status (list EventResult)) (X : Type) (e : forwardE X) : X :=
  match e in forwardE X return X with
  | FetchPending n => Ok (take n (pending_rows table))
  | CallAppendEvents _ => reply
  | ApplyUpdates _ => Ok tt
  | ForwardNow => 7
  end.

Definition batch : list (Effects.event forwardE) := (run (answer (Ok [appended])) (forward_batch fcfg)).1.
Definition bad_update : UpdateRow :=
  still_pending (row_key bad) ("DECODE_FAILED:" +:+ decode_error_debug (BadEnum "specversion" "0.3")).
Definition updates : list UpdateRow := [bad_update; forwarded (row_key good) 7].

Lemma batch_events :
  batch = [Ev (FetchPending 10) (Ok [bad; good]); Ev (CallAppendEvents (ca_request fcall)) (Ok [appended]);
           Ev ForwardNow 7; Ev (ApplyUpdates updates) (Ok tt)].
Proof. vm_compute. reflexivity. Qed.

(** What a call was answered. *)
Definition reply_of (e : Effects.event forwardE) : option (AppendEventsRequest * result Status (list EventResult)) :=
  match e with @Ev _ _ (CallAppendEvents req) x => Some (req, x) | _ => None end.
Definition fetched (e : Effects.event forwardE) : option (result string (list OutboxRow)) :=
  match e with @Ev _ _ (FetchPending _) x => Some x | _ => None end.

Lemma batch_replies req x : Ev (CallAppendEvents req) x ∈ batch -> req = ca_request fcall /\ x = Ok [appended].
Proof.
  rewrite batch_events, !elem_of_cons, elem_of_nil.
  intros [H|[H|[H|[H|[]]]]]; apply (f_equal reply_of) in H; try done. by injection H.
Qed.

Lemma batch_fetched n x : Ev (FetchPending n) x ∈ batch -> x = Ok [bad; good].
Proof.
  rewrite batch_events, !elem_of_cons, elem_of_nil.
  intros [H|[H|[H|[H|[]]]]]; apply (f_equal fetched) in H; try done. by injection H.
Qed.

Lemma forwarded_is_known_witness :
  exists evt id, strict_decode (oe_row (entry good)) = Ok evt /\ uuid_parse (ce_id evt) = Some id /\ known id chain.
Proof.
  apply (forwarded_is_known month_of no_checks no_checks [(cfg, None)] [fcall] db0
           (ran [fcall] [0; 0; 0; 0]%nat).1 chain (ran [fcall] [0; 0; 0; 0]%nat).2.2
           fcfg batch (Ok 2%nat) table updates (Ok tt)).
  - apply db0_inv.
  - repeat constructor.
  - unfold chain. rewrite <- surjective_pairing. apply ran_run.
  - exact (run_exec (answer (Ok [appended])) (forward_batch fcfg)).
  - intros req rs Hin. apply batch_replies in Hin as [-> [= ->]]. exists 0%nat, fcall.
    split; [reflexivity|]. split; [reflexivity|]. vm_compute. reflexivity.
  - vm_compute. apply NoDup_cons; split; [|by apply NoDup_singleton]. intros H%list_elem_of_singleton. discriminate H.
  - intros n rows Hin. apply batch_fetched in Hin. injection Hin as ->. vm_compute. done.
  - rewrite batch_events. right; right; right. by left.
  - right. by left.
  - reflexivity.
  - vm_compute. reflexivity.
Defined.

(** The same replica, requiring authentication. *)
Definition strict : Config :=
  {| cf_region := "eu"; cf_ingest_shard_id := "0"; cf_orphan_after_seconds := 30;
     cf_backpressure_threshold := 10000; cf_strict_signatures := false;
     cf_require_producer_spiffe_san := true |}.
Definition refusal : result Status (list EventResult) :=
  match handle strict None (ca_request fcall) None with Ret r => r | _ => Ok [] end.
Definition refused : list (Effects.event forwardE) := (run (answer refusal) (forward_batch fcfg)).1.
Definition refused_updates : list UpdateRow :=
  [bad_update; still_pending (row_key good) "BATCH_GRPC: unauthenticated"].

Lemma refused_events :
  refused = [Ev (FetchPending 10) (Ok [bad; good]); Ev (CallAppendEvents (ca_request fcall)) refusal;
             Ev (ApplyUpdates refused_updates) (Ok tt)].
Proof. vm_compute. reflexivity. Qed.

Lemma forwarder_refused_witness : Forall (fun u => up_pending_forward u = true) refused_updates.
Proof.
  apply (forwarder_refused strict fcfg refused (Ok 2%nat) refused_updates (Ok tt)).
  - reflexivity.
  - exact (run_exec (answer refusal) (forward_batch fcfg)).
  - intros req rs. rewrite refused_events, !elem_of_cons, elem_of_nil.
    intros [H|[H|[H|[]]]]; apply (f_equal reply_of) in H; try discriminate H. injection H as -> ->.
    exists None, None, []. vm_compute. by split.
  - intros rows row ce. rewrite refused_events, !elem_of_cons, elem_of_nil.
    intros [H|[H|[H|[]]]]; apply (f_equal fetched) in H; try discriminate H. injection H as ->.
    intros [->|[->|[]%elem_of_nil]%elem_of_cons]%elem_of_cons Hd; vm_compute in Hd; [discriminate Hd|].
    injection Hd as <-. vm_compute. discriminate.
  - rewrite refused_events. right; right. by left.
Defined.

(** A batch size of one: the row at the head does not decode, and the good one
    behind it is never sent. *)
Definition narrow : ForwarderConfig :=
  {| fo_workload_instance_id := "f1"; fo_schema_bundle_id := "ubundle"; fo_schema_bundle_hash_hex := "hash";
     fo_batch_size := 1 |}.
Definition world0 : OutboxWorld := {| ow_table := table; ow_locked := []; ow_sent := [] |}.

(** A poll that overlaps with another's claim of the row at the head takes the next. *)
Example overlapping_poll :
  take 1 (claimable {| ow_table := table; ow_locked := [row_key bad]; ow_sent := [] |}) = [good].
Proof. by vm_compute. Qed.

Definition step (X : Type) (e : forwardE X) (s : OutboxWorld) : X * OutboxWorld :=
  match e in forwardE X return X * OutboxWorld with
  | FetchPending n => (Ok (take n (claimable s)), s)
  | CallAppendEvents req =>
      (Ok [appended], {| ow_table := ow_table s; ow_locked := ow_locked s; ow_sent := ow_sent s ++ [req] |})
  | ApplyUpdates ups => (Ok tt, with_table (apply_update ups <$> ow_table s) s)
  | ForwardNow => (7, s)
  end.

Lemma forward_step_handle X (e : forwardE X) s : forward_handle X e s (step X e s).1 (step X e s).2.
Proof. destruct e; cbn; eauto. Qed.

Definition two_batches := schedule step [0; 0; 1; 1]%nat (world0, replicate 2 (forward_batch narrow)).

Lemma outbox_head_blocks_witness :
  ow_sent two_batches.2.1 = [] /\ oe_forward_attempts <$> ow_table two_batches.2.1 = [2; 0] /\
  blocked 1 [] two_batches.2.1.
Proof.
  destruct (outbox_head_blocks narrow world0 2 two_batches.1 two_batches.2.1 two_batches.2.2) as [Hs Hb].
  - split; [reflexivity|]. split; [vm_compute; lia|]. split; [repeat constructor; apply not_elem_of_nil|].
    apply Forall_cons. split; [|by constructor]. eexists. vm_compute. reflexivity.
  - rewrite <- surjective_pairing. apply schedule_run, forward_step_handle.
  - split; [exact Hs|]. split; [vm_compute; reflexivity|exact Hb].
Defined.

End ForwarderDemo.
