(* ===== verification/LedgerDb.v ===== *)
(** * The ledger's database

    [services/ledger/migrations]: the tables of the double-entry ledger (0004 to
    0010, 0022) and the stored procedures that write them:
    [post_ledger_transaction] (0063), [post_commit_estimated_transaction] (0013),
    [post_release_transaction] (0019), [post_denied_decision_transaction] (0020),
    [post_provider_reported_transaction] (0014), [acquire_fencing_lease] (0023)
    and what they call (0012). A procedure is a function on the tables that may
    raise; it runs in one transaction that locks the rows it depends on, and is one
    step here. The JSON documents it receives are records; what the handlers put
    in as unchecked text is text, and is cast as the procedure casts it. The
    readings of the clock of one call are equal. The trigger that mirrors the
    prediction columns of an audit row, with the CHECK constraints on them, is a
    parameter. *)

From S2P Require Import Prelude Floats Deps Effects Proto Canonical Ingest Outbox.

(** PostgreSQL: casts, texts, the choice of [LIMIT 1], the names of a partition's
    indexes. *)
Class PgLib `{UuidLib} `{BigIntLib} := {
  (** [text::UUID] *)
  pg_uuid : string -> option uuid;
  (** [text::NUMERIC(38,0)] and [text::NUMERIC] of an integer's text *)
  pg_numeric38 : string -> option Z;
  pg_numeric : string -> option Z;
  (** RFC 3339 to [TIMESTAMPTZ]: microseconds *)
  pg_timestamp : Z -> option Z;
  pg_timestamp_text : Z -> string;
  pg_limit1 : forall {A}, list A -> option A;
  (** the index that a partition has for an index of the table *)
  pg_partition_index : string -> Z -> string;
  pg_uuid_str u : pg_uuid (uuid_str u) = Some u;
  pg_numeric_str z z' : pg_numeric (bigint_str z) = Some z' -> z' = z;
  pg_limit1_spec {A} (l : list A) :
    match pg_limit1 l with Some a => a ∈ l | None => l = [] end;
}.

(** ** Columns *)

Inductive AccountKind :=
  | AvailableBudget | ReservedHold | CommittedSpend | Debt | Adjustment | RefundCredit | DisputeAdjustment.
Inductive Direction := Debit | Credit.
Inductive OperationKind :=
  | OpReserve | OpRelease | OpCommitEstimated | OpProviderReport | OpInvoiceReconcile | OpOverrunDebt
  | OpAdjustment | OpRefundCredit | OpDisputeAdjustment | OpCompensating | OpDeniedDecision.
Inductive ScopeType := ScopeReservation | ScopeBudgetWindow | ScopeControlPlaneWriter.
Inductive ReservationState := Reserved | Committed | ReleasedState | OverrunDebt.
Inductive CommitState := CommitUnknown | Estimated | ProviderReported | InvoiceReconciled.

Inductive ApprovalState := Pending | Approved | Denied | Expired | Cancelled.

#[export] Instance account_kind_eq_dec : EqDecision AccountKind.
Proof. solve_decision. Defined.
#[export] Instance direction_eq_dec : EqDecision Direction.
Proof. solve_decision. Defined.
#[export] Instance operation_kind_eq_dec : EqDecision OperationKind.
Proof. solve_decision. Defined.
#[export] Instance scope_type_eq_dec : EqDecision ScopeType.
Proof. solve_decision. Defined.
#[export] Instance reservation_state_eq_dec : EqDecision ReservationState.
Proof. solve_decision. Defined.
#[export] Instance commit_state_eq_dec : EqDecision CommitState.
Proof. solve_decision. Defined.

#[export] Instance approval_state_eq_dec : EqDecision ApprovalState.
Proof. solve_decision. Defined.

Definition account_kind_str (k : AccountKind) : string :=
  match k with
  | AvailableBudget => "available_budget" | ReservedHold => "reserved_hold"
  | CommittedSpend => "committed_spend" | Debt => "debt" | Adjustment => "adjustment"
  | RefundCredit => "refund_credit" | DisputeAdjustment => "dispute_adjustment"
  end.

Definition operation_kind_str (op : OperationKind) : string :=
  match op with
  | OpReserve => "reserve" | OpRelease => "release" | OpCommitEstimated => "commit_estimated"
  | OpProviderReport => "provider_report" | OpInvoiceReconcile => "invoice_reconcile"
  | OpOverrunDebt => "overrun_debt" | OpAdjustment => "adjustment" | OpRefundCredit => "refund_credit"
  | OpDisputeAdjustment => "dispute_adjustment" | OpCompensating => "compensating"
  | OpDeniedDecision => "denied_decision"
  end.

Definition scope_type_str (t : ScopeType) : string :=
  match t with
  | ScopeReservation => "reservation" | ScopeBudgetWindow => "budget_window"
  | ScopeControlPlaneWriter => "control_plane_writer"
  end.

Definition reservation_state_str (st : ReservationState) : string :=
  match st with
  | Reserved => "reserved" | Committed => "committed" | ReleasedState => "released"
  | OverrunDebt => "overrun_debt"
  end.

Definition commit_state_str (st : CommitState) : string :=
  match st with
  | CommitUnknown => "unknown" | Estimated => "estimated" | ProviderReported => "provider_reported"
  | InvoiceReconciled => "invoice_reconciled"
  end.

Definition approval_state_str (st : ApprovalState) : string :=
  match st with
  | Pending => "pending" | Approved => "approved" | Denied => "denied" | Expired => "expired"
  | Cancelled => "cancelled"
  end.

(** The four fields that freeze a price. *)
Record Pricing := {
  px_pricing_version : string;
  px_price_snapshot_hash : string;
  px_fx_rate_version : string;
  px_unit_conversion_version : string;
}.
#[export] Instance pricing_eq_dec : EqDecision Pricing.
Proof. solve_decision. Defined.

Section Procedures.
Context `{HU : UuidLib} `{HI : BigIntLib} `{HC : CryptoLib} `{HY : !UuidBytes} `{HG : !PgLib}.

(** ** Rows *)

Record PricingSnapshot := {
  ps_price_snapshot_hash : string;
  ps_fx_rate_version : string;
  ps_unit_conversion_version : string;
  ps_deployed_at : Z;
}.

(** Columns the control plane writes. *)
Record UnitRow := {
  un_tenant_id : uuid;
  un_unit_kind : string;
  un_currency : option string;
  un_scale : Z;
  un_rounding_mode : string;
  un_token_kind : option string;
  un_model_family : option string;
}.

Record WindowInstance := {
  wi_tenant_id : uuid;
  wi_budget_id : uuid;
  wi_boundary_start : option Z;
  wi_boundary_end : option Z;
}.

Record Account := {
  la_ledger_account_id : uuid;
  la_tenant_id : uuid;
  la_budget_id : uuid;
  la_window_instance_id : uuid;
  la_account_kind : AccountKind;
  la_unit_id : uuid;
}.

Record FencingScope := {
  fs_scope_type : ScopeType;
  fs_tenant_id : uuid;
  fs_budget_id : option uuid;
  fs_reservation_id : option uuid;
  fs_window_instance_id : option uuid;
  fs_workload_kind : option string;
  fs_current_epoch : Z;
  fs_active_owner_instance_id : option string;
  fs_ttl_expires_at : option Z;
}.

Record FencingScopeEvent := {
  fe_fencing_scope_id : uuid;
  fe_old_epoch : Z;
  fe_new_epoch : Z;
  fe_owner_instance_id : string;
  fe_action : string;
  (** [None]: a random one *)
  fe_audit_event_id : option uuid;
}.

(** Every transaction is posted. *)
Record LedgerTransaction := {
  lt_ledger_transaction_id : uuid;
  lt_tenant_id : uuid;
  lt_operation_kind : OperationKind;
  lt_idempotency_key : string;
  lt_request_hash : string;
  lt_minimal_replay_response : json;
  lt_audit_decision_event_id : uuid;
  lt_decision_id : uuid;
  lt_effective_at : Z;
  lt_recorded_at : Z;
  lt_lock_order_token : string;
  lt_fencing_scope_id : uuid;
  lt_fencing_epoch_at_post : Z;
}.

(** Without the random id of an entry. *)
Record LedgerEntry := {
  le_ledger_transaction_id : uuid;
  le_ledger_account_id : uuid;
  le_tenant_id : uuid;
  le_budget_id : uuid;
  le_window_instance_id : uuid;
  le_unit_id : uuid;
  le_direction : Direction;
  le_amount_atomic : Z;
  le_pricing : Pricing;
  le_reservation_id : option uuid;
  le_commit_event_kind : option string;
  le_ledger_shard_id : Z;
  le_ledger_sequence : Z;
  le_effective_at : Z;
  le_recorded_at : Z;
}.

Record ReservationRow := {
  rn_tenant_id : uuid;
  rn_budget_id : uuid;
  rn_window_instance_id : uuid;
  rn_current_state : ReservationState;
  rn_source_ledger_transaction_id : uuid;
  rn_ttl_expires_at : Z;
  rn_idempotency_key : string;
}.

Record CommitRow := {
  cm_reservation_id : uuid;
  cm_tenant_id : uuid;
  cm_budget_id : uuid;
  cm_unit_id : uuid;
  cm_latest_state : CommitState;
  cm_estimated_amount_atomic : Z;
  cm_provider_reported_amount_atomic : option Z;
  cm_delta_to_reserved_atomic : Z;
  cm_pricing_version : string;
  cm_price_snapshot_hash : string;
}.

(** A row of [audit_outbox]: what the forwarder sees, and the rest. *)
Record AuditOutboxRow := {
  ao_entry : OutboxEntry;
  ao_audit_decision_event_id : uuid;
  ao_decision_id : uuid;
  ao_tenant_id : uuid;
  ao_ledger_transaction_id : uuid;
  ao_ledger_fencing_epoch : Z;
  ao_workload_instance_id : string;
  ao_idempotency_key : string;
}.

Record AuditGlobalKey := {
  ag_tenant_id : uuid;
  ag_decision_id : uuid;
  ag_event_type : string;
  ag_operation_kind : OperationKind;
  ag_workload_instance_id : string;
  ag_producer_sequence : Z;
  ag_idempotency_key : string;
  ag_recorded_month : Z;
  ag_audit_outbox_id : uuid;
}.

Record ApprovalRow := {
  ap_tenant_id : uuid;
  ap_decision_id : uuid;
  ap_audit_decision_event_id : uuid;
  ap_state : ApprovalState;
  ap_ttl_expires_at : Z;
  ap_approver_policy : json;
  ap_requested_effect : json;
  ap_decision_context : json;
  ap_resolved_at : option Z;
  ap_resolved_by_subject : option string;
  ap_resolution_reason : option string;
  ap_created_at : Z;
  ap_bundled_ledger_transaction_id : option uuid;
}.

Record ApprovalEvent := {
  ae_event_id : uuid;
  ae_approval_id : uuid;
  ae_from_state : ApprovalState;
  ae_to_state : ApprovalState;
  ae_actor_subject : option string;
  ae_actor_issuer : option string;
  ae_resolution_reason : option string;
  ae_occurred_at : Z;
}.

(** Lists have the newest row first. *)
Record LedgerTables := {
  (** by version *)
  pricing_snapshots : gmap string PricingSnapshot;
  ledger_units : gmap uuid UnitRow;
  budget_window_instances : gmap uuid WindowInstance;
  ledger_accounts : list Account;
  (** by shard, the last sequence *)
  ledger_sequence_allocators : gmap Z Z;
  fencing_scopes : gmap uuid FencingScope;
  fencing_scope_events : list FencingScopeEvent;
  ledger_transactions : list LedgerTransaction;
  ledger_entries : list LedgerEntry;
  reservations : gmap uuid ReservationRow;
  commits : gmap uuid CommitRow;
  audit_outbox : list AuditOutboxRow;
  audit_outbox_global_keys : gmap uuid AuditGlobalKey;
  approval_requests : gmap uuid ApprovalRow;
  approval_events : list ApprovalEvent;
}.

Definition with_units u (s : LedgerTables) : LedgerTables :=
  {| pricing_snapshots := pricing_snapshots s; ledger_units := u;
     budget_window_instances := budget_window_instances s; ledger_accounts := ledger_accounts s;
     ledger_sequence_allocators := ledger_sequence_allocators s; fencing_scopes := fencing_scopes s;
     fencing_scope_events := fencing_scope_events s; ledger_transactions := ledger_transactions s;
     ledger_entries := ledger_entries s; reservations := reservations s; commits := commits s;
     audit_outbox := audit_outbox s; audit_outbox_global_keys := audit_outbox_global_keys s;
     approval_requests := approval_requests s; approval_events := approval_events s |}.
Definition with_windows w (s : LedgerTables) : LedgerTables :=
  {| pricing_snapshots := pricing_snapshots s; ledger_units := ledger_units s;
     budget_window_instances := w; ledger_accounts := ledger_accounts s;
     ledger_sequence_allocators := ledger_sequence_allocators s; fencing_scopes := fencing_scopes s;
     fencing_scope_events := fencing_scope_events s; ledger_transactions := ledger_transactions s;
     ledger_entries := ledger_entries s; reservations := reservations s; commits := commits s;
     audit_outbox := audit_outbox s; audit_outbox_global_keys := audit_outbox_global_keys s;
     approval_requests := approval_requests s; approval_events := approval_events s |}.
Definition with_accounts a (s : LedgerTables) : LedgerTables :=
  {| pricing_snapshots := pricing_snapshots s; ledger_units := ledger_units s;
     budget_window_instances := budget_window_instances s; ledger_accounts := a;
     ledger_sequence_allocators := ledger_sequence_allocators s; fencing_scopes := fencing_scopes s;
     fencing_scope_events := fencing_scope_events s; ledger_transactions := ledger_transactions s;
     ledger_entries := ledger_entries s; reservations := reservations s; commits := commits s;
     audit_outbox := audit_outbox s; audit_outbox_global_keys := audit_outbox_global_keys s;
     approval_requests := approval_requests s; approval_events := approval_events s |}.
Definition with_sequences q (s : LedgerTables) : LedgerTables :=
  {| pricing_snapshots := pricing_snapshots s; ledger_units := ledger_units s;
     budget_window_instances := budget_window_instances s; ledger_accounts := ledger_accounts s;
     ledger_sequence_allocators := q; fencing_scopes := fencing_scopes s;
     fencing_scope_events := fencing_scope_events s; ledger_transactions := ledger_transactions s;
     ledger_entries := ledger_entries s; reservations := reservations s; commits := commits s;
     audit_outbox := audit_outbox s; audit_outbox_global_keys := audit_outbox_global_keys s;
     approval_requests := approval_requests s; approval_events := approval_events s |}.
Definition with_scopes f ev (s : LedgerTables) : LedgerTables :=
  {| pricing_snapshots := pricing_snapshots s; ledger_units := ledger_units s;
     budget_window_instances := budget_window_instances s; ledger_accounts := ledger_accounts s;
     ledger_sequence_allocators := ledger_sequence_allocators s; fencing_scopes := f;
     fencing_scope_events := ev; ledger_transactions := ledger_transactions s;
     ledger_entries := ledger_entries s; reservations := reservations s; commits := commits s;
     audit_outbox := audit_outbox s; audit_outbox_global_keys := audit_outbox_global_keys s;
     approval_requests := approval_requests s; approval_events := approval_events s |}.
Definition with_transactions t (s : LedgerTables) : LedgerTables :=
  {| pricing_snapshots := pricing_snapshots s; ledger_units := ledger_units s;
     budget_window_instances := budget_window_instances s; ledger_accounts := ledger_accounts s;
     ledger_sequence_allocators := ledger_sequence_allocators s; fencing_scopes := fencing_scopes s;
     fencing_scope_events := fencing_scope_events s; ledger_transactions := t;
     ledger_entries := ledger_entries s; reservations := reservations s; commits := commits s;
     audit_outbox := audit_outbox s; audit_outbox_global_keys := audit_outbox_global_keys s;
     approval_requests := approval_requests s; approval_events := approval_events s |}.
Definition with_entries e (s : LedgerTables) : LedgerTables :=
  {| pricing_snapshots := pricing_snapshots s; ledger_units := ledger_units s;
     budget_window_instances := budget_window_instances s; ledger_accounts := ledger_accounts s;
     ledger_sequence_allocators := ledger_sequence_allocators s; fencing_scopes := fencing_scopes s;
     fencing_scope_events := fencing_scope_events s; ledger_transactions := ledger_transactions s;
     ledger_entries := e; reservations := reservations s; commits := commits s;
     audit_outbox := audit_outbox s; audit_outbox_global_keys := audit_outbox_global_keys s;
     approval_requests := approval_requests s; approval_events := approval_events s |}.
Definition with_reservations r (s : LedgerTables) : LedgerTables :=
  {| pricing_snapshots := pricing_snapshots s; ledger_units := ledger_units s;
     budget_window_instances := budget_window_instances s; ledger_accounts := ledger_accounts s;
     ledger_sequence_allocators := ledger_sequence_allocators s; fencing_scopes := fencing_scopes s;
     fencing_scope_events := fencing_scope_events s; ledger_transactions := ledger_transactions s;
     ledger_entries := ledger_entries s; reservations := r; commits := commits s;
     audit_outbox := audit_outbox s; audit_outbox_global_keys := audit_outbox_global_keys s;
     approval_requests := approval_requests s; approval_events := approval_events s |}.
Definition with_commits c (s : LedgerTables) : LedgerTables :=
  {| pricing_snapshots := pricing_snapshots s; ledger_units := ledger_units s;
     budget_window_instances := budget_window_instances s; ledger_accounts := ledger_accounts s;
     ledger_sequence_allocators := ledger_sequence_allocators s; fencing_scopes := fencing_scopes s;
     fencing_scope_events := fencing_scope_events s; ledger_transactions := ledger_transactions s;
     ledger_entries := ledger_entries s; reservations := reservations s; commits := c;
     audit_outbox := audit_outbox s; audit_outbox_global_keys := audit_outbox_global_keys s;
     approval_requests := approval_requests s; approval_events := approval_events s |}.
Definition with_outbox o k (s : LedgerTables) : LedgerTables :=
  {| pricing_snapshots := pricing_snapshots s; ledger_units := ledger_units s;
     budget_window_instances := budget_window_instances s; ledger_accounts := ledger_accounts s;
     ledger_sequence_allocators := ledger_sequence_allocators s; fencing_scopes := fencing_scopes s;
     fencing_scope_events := fencing_scope_events s; ledger_transactions := ledger_transactions s;
     ledger_entries := ledger_entries s; reservations := reservations s; commits := commits s;
     audit_outbox := o; audit_outbox_global_keys := k; approval_requests := approval_requests s;
     approval_events := approval_events s |}.
Definition with_approvals a ev (s : LedgerTables) : LedgerTables :=
  {| pricing_snapshots := pricing_snapshots s; ledger_units := ledger_units s;
     budget_window_instances := budget_window_instances s; ledger_accounts := ledger_accounts s;
     ledger_sequence_allocators := ledger_sequence_allocators s; fencing_scopes := fencing_scopes s;
     fencing_scope_events := fencing_scope_events s; ledger_transactions := ledger_transactions s;
     ledger_entries := ledger_entries s; reservations := reservations s; commits := commits s;
     audit_outbox := audit_outbox s; audit_outbox_global_keys := audit_outbox_global_keys s;
     approval_requests := a; approval_events := ev |}.

(** ** Procedures: they raise, or change the tables *)

Definition sp (A : Type) : Type := LedgerTables -> result SqlError (A * LedgerTables).

#[global] Instance sp_ret : MRet sp := fun A a s => Ok (a, s).
#[global] Instance sp_bind : MBind sp := fun A B f m s =>
  match m s with Ok (a, s) => f a s | Err e => Err e end.

Definition select {A} (f : LedgerTables -> A) : sp A := fun s => Ok (f s, s).
Definition update (f : LedgerTables -> LedgerTables) : sp unit := fun s => Ok (tt, f s).
Definition sp_lift {A} (r : result SqlError A) : sp A := fun s =>
  match r with Ok a => Ok (a, s) | Err e => Err e end.
(** [RAISE EXCEPTION .. USING ERRCODE] *)
Definition raise {A} (code msg : string) : sp A := fun _ => Err (DatabaseError (Some code) msg None).
(** A constraint of a table is violated. *)
Definition violates {A} (code msg constraint : string) : sp A := fun _ => violation code msg constraint.
Definition unique_violation {A} (constraint : string) : sp A :=
  violates "23505" "duplicate key value violates unique constraint" constraint.
Definition check (b : bool) (code msg : string) : sp unit := if b then mret tt else raise code msg.

Definition cast {A} (o : option A) (type text : string) : sp A :=
  match o with
  | Some a => mret a
  | None => raise "22P02" ("invalid input syntax for type " +:+ type +:+ ": " +:+ text)
  end.
Definition cast_uuid (text : string) : sp uuid := cast (pg_uuid text) "uuid" text.

(** ** What a handler hands over *)

(** [p_transaction]. *)
Record TransactionJson := {
  pt_ledger_transaction_id : uuid;
  pt_tenant_id : uuid;
  pt_idempotency_key : string;
  pt_request_hash : string;
  pt_decision_id : uuid;
  pt_audit_decision_event_id : uuid;
  pt_fencing_scope_id : string;
  pt_fencing_epoch : Z;
  pt_workload_instance_id : string;
  pt_effective_at : Z;
  pt_unit_id : option string;
  pt_lock_order_token : string;
  pt_minimal_replay_response : json;
}.

(** An element of [p_entries]. *)
Record EntryJson := {
  ej_budget_id : string;
  ej_window_instance_id : string;
  ej_unit_id : string;
  ej_account_kind : AccountKind;
  ej_direction : Direction;
  ej_amount_atomic : string;
  ej_ledger_shard_id : Z;
  ej_pricing : Pricing;
  ej_reservation_id : option uuid;
}.

(** An element of [p_reservations]. *)
Record ReservationJson := {
  rj_reservation_id : uuid;
  rj_budget_id : string;
  rj_window_instance_id : string;
  rj_ttl_expires_at : Z;
  rj_idempotency_key : string;
}.

(** [p_audit_outbox_row]. *)
Record OutboxJson := {
  oj_audit_outbox_id : uuid;
  oj_event_type : string;
  oj_cloudevent_payload : json;
  oj_cloudevent_payload_signature : string;
  oj_producer_sequence : Z;
}.

(** ** Shared statements *)

Definition same_key (tenant : uuid) (op : OperationKind) (key : string) (t : LedgerTransaction) : bool :=
  bool_decide (lt_tenant_id t = tenant) && bool_decide (lt_operation_kind t = op)
  && (lt_idempotency_key t =?s key).

Definition find_transaction (tenant : uuid) (op : OperationKind) (key : string) (s : LedgerTables)
    : option LedgerTransaction :=
  find (same_key tenant op key) (ledger_transactions s).

(** The same request again returns its transaction; another one is refused. *)
Definition unless_replayed (tx : TransactionJson) (op : OperationKind) (k : sp uuid) : sp uuid :=
  existing ← select (find_transaction (pt_tenant_id tx) op (pt_idempotency_key tx));
  match existing with
  | Some t =>
      _ ← check (lt_request_hash t =?s pt_request_hash tx) "40P03"
            "idempotency_key reused with different request_hash";
      mret (lt_ledger_transaction_id t)
  | None => k
  end.

(** The check of the caller's lease; the row stays locked. *)
Definition check_fence (now : Z) (scope_id : uuid) (tenant : uuid) (workload : string) (epoch : Z)
    : sp FencingScope :=
  found ← select (fun s => fencing_scopes s !! scope_id);
  match found with
  | None => raise "40P02" "fencing_scope_id not found"
  | Some current =>
      _ ← check (bool_decide (fs_tenant_id current = tenant)) "40P02" "fencing_scope tenant mismatch";
      _ ← check (bool_decide (fs_active_owner_instance_id current = Some workload)) "40P02"
            ("fencing_scope owner mismatch: scope owner="
             +:+ default "<NULL>" (fs_active_owner_instance_id current) +:+ ", caller=" +:+ workload);
      _ ← check (match fs_ttl_expires_at current with Some ttl => now <? ttl | None => true end) "40P02"
            "fencing_scope lease expired";
      _ ← check (fs_current_epoch current =? epoch) "40P02"
            ("FENCING_EPOCH_STALE: caller=" +:+ z_str epoch +:+ ", current="
             +:+ z_str (fs_current_epoch current));
      _ ← check (negb (epoch =? 0)) "40P02" "FENCING_EPOCH_STALE: epoch 0 is not a valid lease";
      mret current
  end.

(** Scopes a sidecar may hold. *)
Definition sidecar_scope (t : ScopeType) : bool :=
  match t with ScopeReservation | ScopeBudgetWindow => true | ScopeControlPlaneWriter => false end.

Definition scope_not_allowed (t : ScopeType) (operation : string) : string :=
  "fencing_scope type " +:+ scope_type_str t +:+ " not allowed for " +:+ operation.

Definition nextval_per_shard (shard : Z) : sp Z :=
  last ← select (fun s => ledger_sequence_allocators s !! shard);
  match last with
  | None => raise "P0001" ("ledger_shard_id " +:+ z_str shard +:+ " has no sequence allocator")
  | Some last =>
      _ ← check (last + 1 <=? i64_max) "22003" "bigint out of range";
      _ ← update (fun s => with_sequences (<[shard := last + 1]> (ledger_sequence_allocators s)) s);
      mret (last + 1)
  end.

Definition transaction_row (now : Z) (tx : TransactionJson) (op : OperationKind) (scope : uuid)
    (effective_at : Z) (token : string) : LedgerTransaction :=
  {| lt_ledger_transaction_id := pt_ledger_transaction_id tx; lt_tenant_id := pt_tenant_id tx;
     lt_operation_kind := op; lt_idempotency_key := pt_idempotency_key tx;
     lt_request_hash := pt_request_hash tx; lt_minimal_replay_response := pt_minimal_replay_response tx;
     lt_audit_decision_event_id := pt_audit_decision_event_id tx; lt_decision_id := pt_decision_id tx;
     lt_effective_at := effective_at; lt_recorded_at := now; lt_lock_order_token := token;
     lt_fencing_scope_id := scope; lt_fencing_epoch_at_post := pt_fencing_epoch tx |}.

(** [INSERT .. ON CONFLICT (tenant_id, operation_kind, idempotency_key) DO NOTHING] *)
Definition insert_transaction (row : LedgerTransaction) : sp bool :=
  existing ← select (find_transaction (lt_tenant_id row) (lt_operation_kind row) (lt_idempotency_key row));
  match existing with
  | Some _ => mret false
  | None =>
      taken ← select (fun s => existsb (fun t => bool_decide
                (lt_ledger_transaction_id t = lt_ledger_transaction_id row)) (ledger_transactions s));
      if (taken : bool) then unique_violation "ledger_transactions_pkey"
      else
        _ ← update (fun s => with_transactions (row :: ledger_transactions s) s);
        mret true
  end.

(** Insert the transaction and go on, unless a concurrent one has the key. *)
Definition post_or_replay (tx : TransactionJson) (row : LedgerTransaction) (k : sp uuid) : sp uuid :=
  inserted ← insert_transaction row;
  if (inserted : bool) then k
  else unless_replayed tx (lt_operation_kind row)
         (fun _ => Err (OtherSqlError "unexpected null; try decoding as an `Option`")).

(** [CHECK (amount_atomic >= 0)] *)
Definition insert_entry (e : LedgerEntry) : sp unit :=
  if le_amount_atomic e <? 0
  then violates "23514" "check constraint violated" "ledger_entries_amount_atomic_check"
  else update (fun s => with_entries (e :: ledger_entries s) s).

Fixpoint sp_each {A} (f : A -> sp unit) (l : list A) : sp unit :=
  match l with [] => mret tt | a :: l => _ ← f a; sp_each f l end.

Fixpoint sp_map {A B} (f : A -> sp B) (l : list A) : sp (list B) :=
  match l with [] => mret [] | a :: l => b ← f a; bs ← sp_map f l; mret (b :: bs) end.

(** ** Balances *)

(** A credit raises an account's balance. *)
Definition signed (e : LedgerEntry) : Z :=
  match le_direction e with Credit => le_amount_atomic e | Debit => - le_amount_atomic e end.

Fixpoint net (P : LedgerEntry -> bool) (l : list LedgerEntry) : Z :=
  match l with
  | [] => 0
  | e :: l => (if P e then signed e else 0) + net P l
  end.

Definition of_transaction (id : uuid) (e : LedgerEntry) : bool := bool_decide (le_ledger_transaction_id e = id).
Definition of_account (id : uuid) (e : LedgerEntry) : bool := bool_decide (le_ledger_account_id e = id).
Definition of_unit (id : uuid) (e : LedgerEntry) : bool := bool_decide (le_unit_id e = id).

Definition account_balance (account : uuid) (s : LedgerTables) : Z := net (of_account account) (ledger_entries s).

Fixpoint dedup_by {A} `{EqDecision A} (l : list A) : list A :=
  match l with
  | [] => []
  | a :: l => if bool_decide (a ∈ l) then dedup_by l else a :: dedup_by l
  end.

(** The units whose debits and credits in a transaction differ. *)
Definition imbalanced_units (id : uuid) (s : LedgerTables) : list uuid :=
  let entries := List.filter (of_transaction id) (ledger_entries s) in
  List.filter (fun u => negb (net (of_unit u) entries =? 0)) (dedup_by (le_unit_id <$> entries)).

Definition assert_per_unit_balance_now (id : uuid) : sp unit :=
  imbalanced ← select (imbalanced_units id);
  check (bool_decide (imbalanced = [])) "23514"
    ("per-unit balance violation (statement-level): "
     +:+ String.concat ", " (uuid_str <$> imbalanced)).

Definition account_kind_of (id : uuid) (s : LedgerTables) : option AccountKind :=
  la_account_kind <$> find (fun a => bool_decide (la_ledger_account_id a = id)) (ledger_accounts s).

(** The accounts of available budget that a transaction lowers, and lowers below zero. *)
Definition exhausted_accounts (id : uuid) (s : LedgerTables) : list uuid :=
  let entries := List.filter (of_transaction id) (ledger_entries s) in
  List.filter (fun a => bool_decide (account_kind_of a s = Some AvailableBudget)
                        && (net (of_account a) entries <? 0) && (account_balance a s <? 0))
    (dedup_by (le_ledger_account_id <$> entries)).

Definition assert_available_budget_floor (id : uuid) : sp unit :=
  exhausted ← select (fun s => (fun a => uuid_str a +:+ ":" +:+ z_str (account_balance a s))
                               <$> exhausted_accounts id s);
  check (bool_decide (exhausted = [])) "P0001"
    ("BUDGET_EXHAUSTED: available_budget would go negative for account(s): "
     +:+ String.concat ", " (sort_by (fun t => t) exhausted)).

(** ** The audit row of a transaction *)

(** Characters of a UTF-8 text. *)
Definition char_length (s : string) : Z :=
  Z.of_nat (length (List.filter (fun c => negb ((128 <=? byte_of c) && (byte_of c <? 192)))
                      (list_ascii_of_string s))).

Definition workload_instance_id_shape (w : string) : bool :=
  (4 <=? char_length w)
  && negb (existsb (String.eqb w) ["sidecar"; "pod"; "instance"; "worker"; "demo"])
  && negb (existsb (String.eqb (to_lower w)) ["test"; "placeholder"; "todo"; "fixme"]).

(** [date_trunc('month', t)]; the trigger and the CHECK constraints on the mirrored
    columns of a row, by its type, its payload and the time of the insertion. *)
Context (month_of : Z -> Z) (mirror_prediction_columns : string -> json -> Z -> result SqlError unit).

Definition outbox_row (now : Z) (tx : TransactionJson) (row : OutboxJson) : AuditOutboxRow :=
  {| ao_entry :=
       {| oe_row :=
            {| or_recorded_month := month_of now; or_audit_outbox_id := oj_audit_outbox_id row;
               or_event_type := oj_event_type row; or_cloudevent_payload := oj_cloudevent_payload row;
               or_cloudevent_payload_signature := oj_cloudevent_payload_signature row;
               or_producer_sequence := oj_producer_sequence row; or_recorded_at := now |};
          oe_pending_forward := true; oe_forwarded_at := None; oe_forward_attempts := 0;
          oe_last_forward_error := None |};
     ao_audit_decision_event_id := pt_audit_decision_event_id tx; ao_decision_id := pt_decision_id tx;
     ao_tenant_id := pt_tenant_id tx; ao_ledger_transaction_id := pt_ledger_transaction_id tx;
     ao_ledger_fencing_epoch := pt_fencing_epoch tx; ao_workload_instance_id := pt_workload_instance_id tx;
     ao_idempotency_key := pt_idempotency_key tx |}.

Definition global_key (now : Z) (tx : TransactionJson) (op : OperationKind) (row : OutboxJson) : AuditGlobalKey :=
  {| ag_tenant_id := pt_tenant_id tx; ag_decision_id := pt_decision_id tx; ag_event_type := oj_event_type row;
     ag_operation_kind := op; ag_workload_instance_id := pt_workload_instance_id tx;
     ag_producer_sequence := oj_producer_sequence row; ag_idempotency_key := pt_idempotency_key tx;
     ag_recorded_month := month_of now; ag_audit_outbox_id := oj_audit_outbox_id row |}.

Definition ao_row (r : AuditOutboxRow) : OutboxRow := oe_row (ao_entry r).

(** A unique index of the table holds in each partition, a month. *)
Definition unique_in_month (index : string) (row : AuditOutboxRow) (same : AuditOutboxRow -> bool) : sp unit :=
  taken ← select (fun s => existsb (fun r => (or_recorded_month (ao_row r) =? or_recorded_month (ao_row row))
                                             && same r) (audit_outbox s));
  if (taken : bool) then unique_violation (pg_partition_index index (or_recorded_month (ao_row row)))
  else mret tt.

Definition same_decision (row r : AuditOutboxRow) (type : string) : bool :=
  (or_event_type (ao_row row) =?s type) && (or_event_type (ao_row r) =?s type)
  && bool_decide (ao_tenant_id r = ao_tenant_id row) && bool_decide (ao_decision_id r = ao_decision_id row).

Definition insert_outbox_row (row : AuditOutboxRow) : sp unit :=
  _ ← sp_lift (mirror_prediction_columns (or_event_type (ao_row row)) (or_cloudevent_payload (ao_row row))
                 (or_recorded_at (ao_row row)));
  _ ← (if (or_event_type (ao_row row) =?s AUDIT_DECISION) || (or_event_type (ao_row row) =?s AUDIT_OUTCOME)
       then mret tt else violates "23514" "check constraint violated" "audit_outbox_event_type_check");
  _ ← (if workload_instance_id_shape (ao_workload_instance_id row) then mret tt
       else violates "23514" "check constraint violated" "audit_outbox_workload_instance_id_shape");
  _ ← unique_in_month "audit_outbox_pkey" row
        (fun r => bool_decide (or_audit_outbox_id (ao_row r) = or_audit_outbox_id (ao_row row)));
  _ ← unique_in_month "audit_outbox_decision_event_uq" row
        (fun r => bool_decide (ao_audit_decision_event_id r = ao_audit_decision_event_id row));
  _ ← unique_in_month "audit_outbox_producer_seq_uq" row
        (fun r => bool_decide (ao_tenant_id r = ao_tenant_id row)
                  && (ao_workload_instance_id r =?s ao_workload_instance_id row)
                  && (or_producer_sequence (ao_row r) =? or_producer_sequence (ao_row row)));
  _ ← unique_in_month "audit_outbox_decision_per_decision_uq" row
        (fun r => same_decision row r AUDIT_DECISION);
  _ ← unique_in_month "audit_outbox_outcome_per_decision_uq" row
        (fun r => same_decision row r AUDIT_OUTCOME);
  update (fun s => with_outbox (row :: audit_outbox s) (audit_outbox_global_keys s) s).

Definition no_global_key (index : string) (same : AuditGlobalKey -> bool) : sp unit :=
  taken ← select (fun s => existsb (fun kv : uuid * AuditGlobalKey => same kv.2)
                             (map_to_list (audit_outbox_global_keys s)));
  if (taken : bool) then unique_violation index else mret tt.

Definition insert_audit_key (event_id : uuid) (k : AuditGlobalKey) : sp unit :=
  _ ← (if workload_instance_id_shape (ag_workload_instance_id k) then mret tt
       else violates "23514" "check constraint violated" "audit_outbox_global_keys_workload_instance_id_shape");
  taken ← select (fun s => audit_outbox_global_keys s !! event_id);
  _ ← match taken with Some _ => unique_violation "audit_outbox_global_keys_pkey" | None => mret tt end;
  _ ← no_global_key "audit_outbox_global_per_decision_uq"
        (fun k' => bool_decide (ag_tenant_id k' = ag_tenant_id k)
                   && bool_decide (ag_decision_id k' = ag_decision_id k)
                   && (ag_event_type k' =?s ag_event_type k));
  _ ← no_global_key "audit_outbox_global_producer_seq_uq"
        (fun k' => bool_decide (ag_tenant_id k' = ag_tenant_id k)
                   && (ag_workload_instance_id k' =?s ag_workload_instance_id k)
                   && (ag_producer_sequence k' =? ag_producer_sequence k));
  _ ← no_global_key "audit_outbox_global_idempotency_uq"
        (fun k' => bool_decide (ag_tenant_id k' = ag_tenant_id k)
                   && bool_decide (ag_operation_kind k' = ag_operation_kind k)
                   && (ag_idempotency_key k' =?s ag_idempotency_key k));
  update (fun s => with_outbox (audit_outbox s) (<[event_id := k]> (audit_outbox_global_keys s)) s).

(** The audit row of a transaction, and its key. *)
Definition record_audit (now : Z) (tx : TransactionJson) (op : OperationKind) (row : OutboxJson) : sp unit :=
  _ ← insert_outbox_row (outbox_row now tx row);
  insert_audit_key (pt_audit_decision_event_id tx) (global_key now tx op row).

(** ** [post_ledger_transaction] *)

Record ResolvedEntry := {
  re_entry : EntryJson;
  re_budget_id : uuid;
  re_window_instance_id : uuid;
  re_unit_id : uuid;
  re_amount_atomic : Z;
  (** [None]: the tenant has no such account *)
  re_ledger_account_id : option uuid;
}.

Definition find_account (tenant budget window unit : uuid) (kind : AccountKind) (s : LedgerTables)
    : option uuid :=
  la_ledger_account_id <$>
    find (fun a => bool_decide (la_tenant_id a = tenant) && bool_decide (la_budget_id a = budget)
                   && bool_decide (la_window_instance_id a = window) && bool_decide (la_unit_id a = unit)
                   && bool_decide (la_account_kind a = kind)) (ledger_accounts s).

Definition resolve_entry (tenant : uuid) (e : EntryJson) : sp ResolvedEntry :=
  budget ← cast_uuid (ej_budget_id e);
  window ← cast_uuid (ej_window_instance_id e);
  unit_id ← cast_uuid (ej_unit_id e);
  amount ← cast (pg_numeric38 (ej_amount_atomic e)) "numeric" (ej_amount_atomic e);
  account ← select (find_account tenant budget window unit_id (ej_account_kind e));
  mret {| re_entry := e; re_budget_id := budget; re_window_instance_id := window; re_unit_id := unit_id;
          re_amount_atomic := amount; re_ledger_account_id := account |}.

Definition pricing_key (e : ResolvedEntry) : string * string :=
  (px_pricing_version (ej_pricing (re_entry e)), px_price_snapshot_hash (ej_pricing (re_entry e))).

Definition unknown_pricing (entries : list ResolvedEntry) (s : LedgerTables) : list (string * string) :=
  List.filter (fun k : string * string => negb (bool_decide (ps_price_snapshot_hash <$> pricing_snapshots s !! k.1 = Some k.2)))
    (dedup_by (pricing_key <$> entries)).

(** ['v1:' || encode(digest(keys, 'sha256'), 'hex')] *)
Definition lock_token (keys : list string) : string :=
  "v1:" +:+ hex_encode (sha256 (String.concat "," keys)).

(** Uuids are ordered as their texts are. *)
Definition derived_lock_token (entries : list ResolvedEntry) : string :=
  lock_token (sort_by (fun t => t) (dedup_by
    ((fun e => uuid_str (re_budget_id e) +:+ ":" +:+ uuid_str (re_unit_id e) +:+ ":"
               +:+ account_kind_str (ej_account_kind (re_entry e))) <$> entries))).

Definition post_entry (now : Z) (tx : TransactionJson) (effective_at : Z) (e : ResolvedEntry * Z)
    (account : uuid) : LedgerEntry :=
  {| le_ledger_transaction_id := pt_ledger_transaction_id tx; le_ledger_account_id := account;
     le_tenant_id := pt_tenant_id tx; le_budget_id := re_budget_id e.1;
     le_window_instance_id := re_window_instance_id e.1; le_unit_id := re_unit_id e.1;
     le_direction := ej_direction (re_entry e.1); le_amount_atomic := re_amount_atomic e.1;
     le_pricing := ej_pricing (re_entry e.1); le_reservation_id := ej_reservation_id (re_entry e.1);
     le_commit_event_kind := None; le_ledger_shard_id := ej_ledger_shard_id (re_entry e.1);
     le_ledger_sequence := e.2; le_effective_at := effective_at; le_recorded_at := now |}.

(** Every account was resolved. *)
Definition insert_resolved (now : Z) (tx : TransactionJson) (effective_at : Z) (e : ResolvedEntry * Z) : sp unit :=
  match re_ledger_account_id e.1 with
  | Some account => insert_entry (post_entry now tx effective_at e account)
  | None => violates "23502" "null value in column" "ledger_account_id"
  end.

(** [ON CONFLICT (reservation_id) DO NOTHING] *)
Definition insert_reservation (tx : TransactionJson) (r : ReservationJson) : sp unit :=
  budget ← cast_uuid (rj_budget_id r);
  window ← cast_uuid (rj_window_instance_id r);
  ttl ← cast (pg_timestamp (rj_ttl_expires_at r)) "timestamp with time zone" EmptyString;
  existing ← select (fun s => reservations s !! rj_reservation_id r);
  match existing with
  | Some _ => mret tt
  | None =>
      update (fun s => with_reservations (<[rj_reservation_id r :=
        {| rn_tenant_id := pt_tenant_id tx; rn_budget_id := budget; rn_window_instance_id := window;
           rn_current_state := Reserved;
           rn_source_ledger_transaction_id := pt_ledger_transaction_id tx; rn_ttl_expires_at := ttl;
           rn_idempotency_key := rj_idempotency_key r |}]> (reservations s)) s)
  end.

(** The scope types an operation may use. *)
Definition check_scope_type (op : OperationKind) (t : ScopeType) : sp unit :=
  let refused := scope_not_allowed t ("operation " +:+ operation_kind_str op) in
  match op with
  | OpReserve | OpRelease | OpCommitEstimated | OpOverrunDebt => check (sidecar_scope t) "40P02" refused
  | OpProviderReport | OpInvoiceReconcile | OpRefundCredit | OpDisputeAdjustment | OpCompensating
  | OpAdjustment => check (negb (sidecar_scope t)) "40P02" refused
  | OpDeniedDecision => mret tt
  end.

Definition post_ledger_transaction (now : Z) (op : OperationKind) (tx : TransactionJson)
    (entries : list EntryJson) (reservation_rows : list ReservationJson) (outbox : OutboxJson)
    (caller_lock_token : option string) : sp uuid :=
  scope_id ← cast_uuid (pt_fencing_scope_id tx);
  effective_at ← cast (pg_timestamp (pt_effective_at tx)) "timestamp with time zone" EmptyString;
  unless_replayed tx op (
    current ← check_fence now scope_id (pt_tenant_id tx) (pt_workload_instance_id tx) (pt_fencing_epoch tx);
    _ ← check_scope_type op (fs_scope_type current);
    _ ← check (negb (bool_decide (entries = []))) "22023" "p_entries must be a non-empty array";
    resolved ← sp_map (resolve_entry (pt_tenant_id tx)) entries;
    let found := List.filter (fun e => bool_decide (is_Some (re_ledger_account_id e))) resolved in
    _ ← check (length found =? length entries)%nat "22023"
          ("ledger_accounts resolution failed: input=" +:+ z_str (Z.of_nat (length entries))
           +:+ ", resolved=" +:+ z_str (Z.of_nat (length found)));
    unknown ← select (unknown_pricing resolved);
    _ ← check (bool_decide (unknown = [])) "P0001"
          ("PRICING_VERSION_UNKNOWN: " +:+ z_str (Z.of_nat (length unknown)) +:+ " unknown tuple(s)");
    let token := derived_lock_token resolved in
    _ ← check (match caller_lock_token with Some t => t =?s token | None => true end) "40P03"
          ("LOCK_ORDER_TOKEN_MISMATCH: caller=" +:+ default EmptyString caller_lock_token
           +:+ ", derived=" +:+ token);
    sequences ← sp_map (fun e => nextval_per_shard (ej_ledger_shard_id (re_entry e))) resolved;
    post_or_replay tx (transaction_row now tx op scope_id effective_at token) (
      _ ← sp_each (insert_resolved now tx effective_at) (combine resolved sequences);
      _ ← assert_per_unit_balance_now (pt_ledger_transaction_id tx);
      _ ← assert_available_budget_floor (pt_ledger_transaction_id tx);
      _ ← record_audit now tx op outbox;
      _ ← sp_each (insert_reservation tx) reservation_rows;
      mret (pt_ledger_transaction_id tx))).

(** ** [post_commit_estimated_transaction] *)

(** The entry by which a reservation credited [reserved_hold], with its account. *)
Definition reserve_entries (tenant reservation : uuid) (s : LedgerTables) : list (LedgerEntry * Account) :=
  omap (fun e =>
    match find (fun a => bool_decide (la_ledger_account_id a = le_ledger_account_id e)) (ledger_accounts s) with
    | Some a =>
        if bool_decide (le_tenant_id e = tenant) && bool_decide (le_reservation_id e = Some reservation)
           && bool_decide (la_account_kind a = ReservedHold) && bool_decide (le_direction e = Credit)
        then Some (e, a) else None
    | None => None
    end) (ledger_entries s).

Definition reserve_entry (tenant reservation : uuid) (code msg : string) : sp (LedgerEntry * Account) :=
  found ← select (fun s => pg_limit1 (reserve_entries tenant reservation s));
  match found with Some e => mret e | None => raise code msg end.

(** The tenant's account of a kind beside the one the reservation credited. *)
Definition account_beside (tenant : uuid) (reserve : LedgerEntry * Account) (kind : AccountKind) : sp uuid :=
  let '(e, a) := reserve in
  found ← select (find_account tenant (la_budget_id a) (le_window_instance_id e) (la_unit_id a) kind);
  match found with
  | Some id => mret id
  | None => raise "22023" ("ledger_account not found for kind=" +:+ account_kind_str kind +:+ " tenant="
                           +:+ uuid_str tenant +:+ " budget=" +:+ uuid_str (la_budget_id a))
  end.

(** An entry of a later transaction, priced as the reservation was. *)
Definition settle_entry (now : Z) (tx : TransactionJson) (effective_at : Z) (reserve : LedgerEntry * Account)
    (reservation : uuid) (kind : option string) (account : uuid) (direction : Direction) (amount shard seq : Z)
    : LedgerEntry :=
  {| le_ledger_transaction_id := pt_ledger_transaction_id tx; le_ledger_account_id := account;
     le_tenant_id := pt_tenant_id tx; le_budget_id := la_budget_id reserve.2;
     le_window_instance_id := le_window_instance_id reserve.1; le_unit_id := la_unit_id reserve.2;
     le_direction := direction; le_amount_atomic := amount; le_pricing := le_pricing reserve.1;
     le_reservation_id := Some reservation; le_commit_event_kind := kind; le_ledger_shard_id := shard;
     le_ledger_sequence := seq; le_effective_at := effective_at; le_recorded_at := now |}.

(** The default shard. *)
Definition v_shard_id : Z := 1.

Definition find_reservation (tenant id : uuid) (s : LedgerTables) : option ReservationRow :=
  match reservations s !! id with
  | Some r => if bool_decide (rn_tenant_id r = tenant) then Some r else None
  | None => None
  end.

Definition with_state (st : ReservationState) (r : ReservationRow) : ReservationRow :=
  {| rn_tenant_id := rn_tenant_id r; rn_budget_id := rn_budget_id r;
     rn_window_instance_id := rn_window_instance_id r; rn_current_state := st;
     rn_source_ledger_transaction_id := rn_source_ledger_transaction_id r;
     rn_ttl_expires_at := rn_ttl_expires_at r; rn_idempotency_key := rn_idempotency_key r |}.

(** [UPDATE reservations .. WHERE current_state = 'reserved'], one row. *)
Definition leave_reserved (tenant id : uuid) (st : ReservationState) : sp unit :=
  found ← select (find_reservation tenant id);
  match found with
  | Some r =>
      if bool_decide (rn_current_state r = Reserved)
      then update (fun s => with_reservations (<[id := with_state st r]> (reservations s)) s)
      else raise "P0001" "RESERVATION_STATE_CONFLICT: UPDATE reservations affected 0 rows (expected 1)"
  | None => raise "P0001" "RESERVATION_STATE_CONFLICT: UPDATE reservations affected 0 rows (expected 1)"
  end.

(** The caller's unit, if it states one. *)
Definition check_unit (tx : TransactionJson) (reserve : LedgerEntry * Account) : sp unit :=
  match pt_unit_id tx with
  | None => mret tt
  | Some text =>
      unit_id ← cast_uuid text;
      check (bool_decide (unit_id = la_unit_id reserve.2)) "P0001"
        ("UNIT_MISMATCH: caller unit_id " +:+ text +:+ " does not match original reserve "
         +:+ uuid_str (la_unit_id reserve.2))
  end.

Definition not_found (reservation tenant : uuid) : string :=
  "RESERVATION_STATE_CONFLICT: reservation_id " +:+ uuid_str reservation +:+ " not found for tenant "
  +:+ uuid_str tenant.

Definition freeze_mismatch : string := "PRICING_FREEZE_MISMATCH: caller pricing differs from original reserve".

(** The first 16 bytes of the digest of the reservation's text and [:commit_estimated]. *)
Definition derive_commit_id (reservation_id : uuid) : uuid :=
  uuid_from_bytes (String.substring 0 16 (sha256 (uuid_str reservation_id +:+ ":commit_estimated"))).

Definition commit_token (reserve : LedgerEntry * Account) (residual : Z) : string :=
  lock_token ((fun k => uuid_str (la_budget_id reserve.2) +:+ ":" +:+ uuid_str (la_unit_id reserve.2)
                        +:+ ":" +:+ account_kind_str k)
              <$> ((if 0 <? residual then [AvailableBudget] else []) ++ [CommittedSpend; ReservedHold])).

(** The four entries of a commit, the last two for what was not spent. *)
Definition insert_commit_entries (entry : uuid -> Direction -> Z -> Z -> LedgerEntry)
    (hold spend available : uuid) (estimated residual : Z) (seqs : Z * Z * Z * Z) : sp unit :=
  let '(a, b, c, d) := seqs in
  _ ← insert_entry (entry hold Debit estimated a);
  _ ← insert_entry (entry spend Credit estimated b);
  if 0 <? residual then
    _ ← insert_entry (entry hold Debit residual c);
    insert_entry (entry available Credit residual d)
  else mret tt.

Definition insert_commit (row : CommitRow) : sp unit :=
  let id := derive_commit_id (cm_reservation_id row) in
  existing ← select (fun s => commits s !! id);
  match existing with
  | None => update (fun s => with_commits (<[id := row]> (commits s)) s)
  | Some c =>
      check ((cm_estimated_amount_atomic c =? cm_estimated_amount_atomic row)
             && bool_decide (cm_latest_state c = Estimated)) "P0001"
        ("COMMIT_ROW_DIVERGENT: existing commit_id " +:+ uuid_str id +:+ " differs from intent (state="
         +:+ commit_state_str (cm_latest_state c) +:+ ", amount=" +:+ z_str (cm_estimated_amount_atomic c)
         +:+ ")")
  end.

Definition post_commit_estimated_transaction (now : Z) (tx : TransactionJson) (reservation : uuid)
    (estimated_text : string) (pricing : Pricing) (outbox : OutboxJson) : sp uuid :=
  estimated ← cast (pg_numeric estimated_text) "numeric" estimated_text;
  scope_id ← cast_uuid (pt_fencing_scope_id tx);
  effective_at ← cast (pg_timestamp (pt_effective_at tx)) "timestamp with time zone" EmptyString;
  let tenant := pt_tenant_id tx in
  unless_replayed tx OpCommitEstimated (
    current ← check_fence now scope_id tenant (pt_workload_instance_id tx) (pt_fencing_epoch tx);
    _ ← check (sidecar_scope (fs_scope_type current)) "40P02"
          (scope_not_allowed (fs_scope_type current) "operation commit_estimated");
    found ← select (find_reservation tenant reservation);
    row ← match found with Some r => mret r | None => raise "P0001" (not_found reservation tenant) end;
    _ ← check (bool_decide (rn_current_state row = Reserved)) "P0001"
          ("RESERVATION_STATE_CONFLICT: reservation_id " +:+ uuid_str reservation +:+ " current_state="
           +:+ reservation_state_str (rn_current_state row) +:+ ", expected reserved");
    _ ← check (now <? rn_ttl_expires_at row) "P0001"
          ("RESERVATION_TTL_EXPIRED: reservation_id " +:+ uuid_str reservation +:+ " ttl_expires_at="
           +:+ pg_timestamp_text (rn_ttl_expires_at row) +:+ " <= now()");
    reserve ← reserve_entry tenant reservation "P0001"
                ("reserve credit entry not found for reservation " +:+ uuid_str reservation
                 +:+ "; multi-reservation decisions are rejected upstream");
    _ ← check (bool_decide (pricing = le_pricing reserve.1)) "P0001" freeze_mismatch;
    _ ← check_unit tx reserve;
    _ ← check (0 <? estimated) "22023"
          ("INVALID_AMOUNT: estimated_amount must be > 0; got " +:+ z_str estimated);
    let reserved := le_amount_atomic reserve.1 in
    _ ← check (estimated <=? reserved) "P0001"
          ("OVERRUN_RESERVATION: estimated_amount " +:+ z_str estimated +:+ " exceeds original_reserved "
           +:+ z_str reserved);
    let residual := reserved - estimated in
    hold ← account_beside tenant reserve ReservedHold;
    spend ← account_beside tenant reserve CommittedSpend;
    available ← (if 0 <? residual then account_beside tenant reserve AvailableBudget else mret hold);
    a ← nextval_per_shard v_shard_id;
    b ← nextval_per_shard v_shard_id;
    c ← (if 0 <? residual then nextval_per_shard v_shard_id else mret 0);
    d ← (if 0 <? residual then nextval_per_shard v_shard_id else mret 0);
    post_or_replay tx (transaction_row now tx OpCommitEstimated scope_id effective_at
                         (commit_token reserve residual)) (
      let entry account direction amount seq :=
        settle_entry now tx effective_at reserve reservation (Some "estimated") account direction amount
          v_shard_id seq in
      _ ← insert_commit_entries entry hold spend available estimated residual (a, b, c, d);
      _ ← assert_per_unit_balance_now (pt_ledger_transaction_id tx);
      _ ← record_audit now tx OpCommitEstimated outbox;
      _ ← leave_reserved tenant reservation Committed;
      _ ← insert_commit
            {| cm_reservation_id := reservation; cm_tenant_id := tenant; cm_budget_id := la_budget_id reserve.2;
               cm_unit_id := la_unit_id reserve.2; cm_latest_state := Estimated;
               cm_estimated_amount_atomic := estimated; cm_provider_reported_amount_atomic := None;
               cm_delta_to_reserved_atomic := estimated - reserved;
               cm_pricing_version := px_pricing_version (le_pricing reserve.1);
               cm_price_snapshot_hash := px_price_snapshot_hash (le_pricing reserve.1) |};
      mret (pt_ledger_transaction_id tx))).

(** ** [post_release_transaction] *)

Definition reserve_transactions (tenant decision : uuid) (s : LedgerTables) : list uuid :=
  lt_ledger_transaction_id <$>
    List.filter (fun t => bool_decide (lt_tenant_id t = tenant) && bool_decide (lt_operation_kind t = OpReserve)
                          && bool_decide (lt_decision_id t = decision)) (ledger_transactions s).

Definition reservations_of (tenant source : uuid) (s : LedgerTables) : list (uuid * ReservationRow) :=
  List.filter (fun kv : uuid * ReservationRow => bool_decide (rn_tenant_id kv.2 = tenant)
                 && bool_decide (rn_source_ledger_transaction_id kv.2 = source))
    (map_to_list (reservations s)).

(** The one reservation of a decision. *)
Definition reservation_of_decision (tenant decision : uuid) : sp (uuid * ReservationRow) :=
  source ← select (fun s => pg_limit1 (reserve_transactions tenant decision s));
  source ← match source with
           | Some id => mret id
           | None => raise "P0001" ("RESERVE_NOT_FOUND: no reserve tx for decision_id " +:+ uuid_str decision)
           end;
  found ← select (reservations_of tenant source);
  match found with
  | [] => raise "P0001" ("RESERVATION_SET_EMPTY: no reservations for source_tx " +:+ uuid_str source)
  | [r] => mret r
  | _ => raise "P0001" ("MULTI_RESERVATION_SET_DEFERRED: source_tx " +:+ uuid_str source +:+ " has "
           +:+ z_str (Z.of_nat (length found))
           +:+ " reservations; CommitEstimatedSet/ReleaseSet RPC is a future slice")
  end.

Definition release_token (reserve : LedgerEntry * Account) : string :=
  lock_token ((fun k => uuid_str (la_budget_id reserve.2) +:+ ":" +:+ uuid_str (le_window_instance_id reserve.1)
                        +:+ ":" +:+ uuid_str (la_unit_id reserve.2) +:+ ":" +:+ account_kind_str k)
              <$> [AvailableBudget; ReservedHold]).

Definition post_release_transaction (now : Z) (tx : TransactionJson) (reservation_set : uuid)
    (reason : string) (outbox : OutboxJson) : sp uuid :=
  scope_id ← cast_uuid (pt_fencing_scope_id tx);
  effective_at ← cast (pg_timestamp (pt_effective_at tx)) "timestamp with time zone" EmptyString;
  let tenant := pt_tenant_id tx in
  unless_replayed tx OpRelease (
    current ← check_fence now scope_id tenant (pt_workload_instance_id tx) (pt_fencing_epoch tx);
    _ ← (if reason =?s "TTL_EXPIRED" then
           check (negb (sidecar_scope (fs_scope_type current))) "40P02"
             (scope_not_allowed (fs_scope_type current) "reason TTL_EXPIRED (need control_plane_writer)")
         else
           check (sidecar_scope (fs_scope_type current)) "40P02"
             (scope_not_allowed (fs_scope_type current) ("sidecar-originated release reason " +:+ reason)));
    unless_replayed tx OpRelease (
      r ← reservation_of_decision tenant (pt_decision_id tx);
      let '(reservation, row) := r in
      _ ← check (bool_decide (rn_current_state row = Reserved)) "P0001"
            ("RESERVATION_STATE_CONFLICT: reservations.current_state="
             +:+ reservation_state_str (rn_current_state row) +:+ ", expected reserved");
      _ ← check (negb (reason =?s "TTL_EXPIRED") || (rn_ttl_expires_at row <=? now)) "P0001"
            ("RESERVATION_STATE_CONFLICT: TTL_NOT_EXPIRED — reservation.ttl_expires_at="
             +:+ pg_timestamp_text (rn_ttl_expires_at row) +:+ " > now()");
      reserve ← reserve_entry tenant reservation "22023"
                  ("reserve credit entry not found for reservation " +:+ uuid_str reservation);
      hold ← account_beside tenant reserve ReservedHold;
      available ← account_beside tenant reserve AvailableBudget;
      a ← nextval_per_shard v_shard_id;
      b ← nextval_per_shard v_shard_id;
      post_or_replay tx (transaction_row now tx OpRelease scope_id effective_at (release_token reserve)) (
        let entry account direction seq :=
          settle_entry now tx effective_at reserve reservation None account direction
            (le_amount_atomic reserve.1) v_shard_id seq in
        _ ← insert_entry (entry hold Debit a);
        _ ← insert_entry (entry available Credit b);
        _ ← assert_per_unit_balance_now (pt_ledger_transaction_id tx);
        _ ← record_audit now tx OpRelease outbox;
        _ ← leave_reserved tenant reservation ReleasedState;
        mret (pt_ledger_transaction_id tx)))).

(** ** [post_denied_decision_transaction] *)

Definition key_used_by_reserve (tx : TransactionJson) (msg : string) : sp unit :=
  taken ← select (find_transaction (pt_tenant_id tx) OpReserve (pt_idempotency_key tx));
  check (negb (bool_decide (is_Some taken))) "40P03"
    ("idempotency_key " +:+ pt_idempotency_key tx +:+ " already used by reserve" +:+ msg
     +:+ "; cannot record DENY for the same logical request").

Definition post_denied_decision_transaction (now : Z) (tx : TransactionJson) (outbox : OutboxJson) : sp uuid :=
  scope_id ← cast_uuid (pt_fencing_scope_id tx);
  effective_at ← cast (pg_timestamp (pt_effective_at tx)) "timestamp with time zone" EmptyString;
  unless_replayed tx OpDeniedDecision (
    _ ← key_used_by_reserve tx EmptyString;
    current ← check_fence now scope_id (pt_tenant_id tx) (pt_workload_instance_id tx) (pt_fencing_epoch tx);
    _ ← check (sidecar_scope (fs_scope_type current)) "40P02"
          (scope_not_allowed (fs_scope_type current) "denied_decision (need reservation or budget_window)");
    unless_replayed tx OpDeniedDecision (
      _ ← key_used_by_reserve tx " (concurrent winner)";
      post_or_replay tx (transaction_row now tx OpDeniedDecision scope_id effective_at (pt_lock_order_token tx)) (
        _ ← record_audit now tx OpDeniedDecision outbox;
        mret (pt_ledger_transaction_id tx)))).

(** ** Approvals *)

Definition find_approval (tenant decision : uuid) (s : LedgerTables) : option (uuid * ApprovalRow) :=
  find (fun kv : uuid * ApprovalRow => bool_decide (ap_tenant_id kv.2 = tenant)
                                       && bool_decide (ap_decision_id kv.2 = decision))
    (map_to_list (approval_requests s)).

Record ApprovalPosted := {
  po_ledger_transaction_id : uuid;
  po_approval_id : uuid;
  po_was_first_insert : bool;
}.

(** [fresh] is the random id of a new approval; its approver policy is the column's default. *)
Definition post_approval_required_decision (now : Z) (fresh : uuid) (tx : TransactionJson) (outbox : OutboxJson)
    (decision_context requested_effect : json) (ttl_seconds : Z) : sp ApprovalPosted :=
  tx_id ← post_denied_decision_transaction now tx outbox;
  existing ← select (find_approval (pt_tenant_id tx) (pt_decision_id tx));
  match existing with
  | Some (id, _) =>
      mret {| po_ledger_transaction_id := tx_id; po_approval_id := id; po_was_first_insert := false |}
  | None =>
      _ ← (if 0 <? ttl_seconds then mret tt
           else violates "23514" "check constraint violated" "approval_ttl_after_creation");
      taken ← select (fun s => approval_requests s !! fresh);
      _ ← match taken with Some _ => unique_violation "approval_requests_pkey" | None => mret tt end;
      _ ← update (fun s => with_approvals (<[fresh :=
            {| ap_tenant_id := pt_tenant_id tx; ap_decision_id := pt_decision_id tx;
               ap_audit_decision_event_id := pt_audit_decision_event_id tx; ap_state := Pending;
               ap_ttl_expires_at := now + secs ttl_seconds; ap_approver_policy := JObj [];
               ap_requested_effect := requested_effect; ap_decision_context := decision_context;
               ap_resolved_at := None; ap_resolved_by_subject := None; ap_resolution_reason := None;
               ap_created_at := now; ap_bundled_ledger_transaction_id := None |}]>
            (approval_requests s)) (approval_events s) s);
      mret {| po_ledger_transaction_id := tx_id; po_approval_id := fresh; po_was_first_insert := true |}
  end.

Definition with_resolution (st : ApprovalState) (now : Z) (subject reason : option string) (a : ApprovalRow)
    : ApprovalRow :=
  {| ap_tenant_id := ap_tenant_id a; ap_decision_id := ap_decision_id a;
     ap_audit_decision_event_id := ap_audit_decision_event_id a; ap_state := st;
     ap_ttl_expires_at := ap_ttl_expires_at a; ap_approver_policy := ap_approver_policy a;
     ap_requested_effect := ap_requested_effect a; ap_decision_context := ap_decision_context a;
     ap_resolved_at := Some now; ap_resolved_by_subject := subject; ap_resolution_reason := reason;
     ap_created_at := ap_created_at a;
     ap_bundled_ledger_transaction_id := ap_bundled_ledger_transaction_id a |}.

Definition with_bundled (tx_id : uuid) (a : ApprovalRow) : ApprovalRow :=
  {| ap_tenant_id := ap_tenant_id a; ap_decision_id := ap_decision_id a;
     ap_audit_decision_event_id := ap_audit_decision_event_id a; ap_state := ap_state a;
     ap_ttl_expires_at := ap_ttl_expires_at a; ap_approver_policy := ap_approver_policy a;
     ap_requested_effect := ap_requested_effect a; ap_decision_context := ap_decision_context a;
     ap_resolved_at := ap_resolved_at a; ap_resolved_by_subject := ap_resolved_by_subject a;
     ap_resolution_reason := ap_resolution_reason a; ap_created_at := ap_created_at a;
     ap_bundled_ledger_transaction_id := Some tx_id |}.

Definition lock_approval (id : uuid) : sp ApprovalRow :=
  found ← select (fun s => approval_requests s !! id);
  match found with
  | Some a => mret a
  | None => raise "P0002" ("approval_id " +:+ uuid_str id +:+ " not found")
  end.

(** The actor of a sweep, where none is given. *)
Definition actor_or (target : ApprovalState) (given : option string) (system : string) : option string :=
  match target, given with Expired, None => Some system | _, _ => given end.

(** [resolve_approval_request] (0035, without the notification of a tenant's webhook), and
    the CHECK constraints on what it writes. [fresh] is the random id of the event. *)
Definition resolve_approval_request (now : Z) (fresh : uuid) (id : uuid) (target : ApprovalState)
    (actor_subject actor_issuer reason : option string) : sp (ApprovalState * bool * option uuid) :=
  a ← lock_approval id;
  if bool_decide (ap_state a = target) then mret (ap_state a, false, None)
  else
    _ ← check (bool_decide (ap_state a = Pending)) "22023"
          ("approval " +:+ uuid_str id +:+ " already in terminal state " +:+ approval_state_str (ap_state a)
           +:+ ", cannot move to " +:+ approval_state_str target);
    _ ← check (negb (bool_decide (target = Pending))) "22023"
          ("invalid target state: " +:+ approval_state_str target);
    _ ← check (bool_decide (target = Expired) || (now <? ap_ttl_expires_at a)) "22023"
          ("approval " +:+ uuid_str id +:+ " expired at " +:+ pg_timestamp_text (ap_ttl_expires_at a)
           +:+ ", cannot move to " +:+ approval_state_str target +:+ " (S14 invariant)");
    let subject := actor_or target actor_subject "system:ttl-sweeper" in
    let issuer := actor_or target actor_issuer "system:spendguard" in
    _ ← (if bool_decide (is_Some subject) && bool_decide (is_Some issuer) then mret tt
         else violates "23514" "check constraint violated" "approval_resolved_when_terminal");
    _ ← (if (bool_decide (target = Approved) || bool_decide (target = Denied))
            && is_empty (default EmptyString reason)
         then violates "23514" "check constraint violated" "approval_resolution_reason_when_explicit"
         else mret tt);
    taken ← select (fun s => existsb (fun e => bool_decide (ae_event_id e = fresh)) (approval_events s));
    _ ← (if (taken : bool) then unique_violation "approval_events_pkey" else mret tt);
    _ ← update (fun s => with_approvals
          (<[id := with_resolution target now subject reason a]> (approval_requests s))
          ({| ae_event_id := fresh; ae_approval_id := id; ae_from_state := ap_state a; ae_to_state := target;
              ae_actor_subject := subject; ae_actor_issuer := issuer; ae_resolution_reason := reason;
              ae_occurred_at := now |}
           :: approval_events s) s);
    mret (target, true, Some fresh).

(** [mark_approval_bundled] (0036). *)
Definition mark_approval_bundled (id tx_id : uuid) : sp (bool * uuid) :=
  a ← lock_approval id;
  _ ← check (bool_decide (ap_state a = Approved)) "22023"
        ("approval " +:+ uuid_str id +:+ " cannot be bundled in state " +:+ approval_state_str (ap_state a));
  match ap_bundled_ledger_transaction_id a with
  | Some bundled =>
      _ ← check (bool_decide (bundled = tx_id)) "40P03"
            ("approval " +:+ uuid_str id +:+ " already bundled with ledger_transaction_id " +:+ uuid_str bundled
             +:+ " (caller asked for " +:+ uuid_str tx_id +:+ ")");
      mret (false, bundled)
  | None =>
      _ ← update (fun s => with_approvals
            (<[id := with_bundled tx_id a]> (approval_requests s))
            (approval_events s) s);
      mret (true, tx_id)
  end.

(** ** [post_provider_reported_transaction] *)

Definition commits_of (tenant reservation : uuid) (s : LedgerTables) : list (uuid * CommitRow) :=
  List.filter (fun kv : uuid * CommitRow => bool_decide (cm_tenant_id kv.2 = tenant)
                 && bool_decide (cm_reservation_id kv.2 = reservation)) (map_to_list (commits s)).

Definition provider_token (reserve : LedgerEntry * Account) (delta : Z) : string :=
  if delta =? 0 then lock_token ["provider_report:noop"]
  else lock_token ((fun k => uuid_str (la_budget_id reserve.2) +:+ ":" +:+ uuid_str (la_unit_id reserve.2)
                             +:+ ":" +:+ account_kind_str k) <$> [AvailableBudget; CommittedSpend]).

(** More was spent than estimated: available budget pays, whatever it holds.
    [moved]: the accounts and the sequences, when there is a difference. *)
Definition insert_delta_entries (entry : uuid -> Direction -> Z -> Z -> LedgerEntry)
    (moved : option (uuid * uuid * Z * Z)) (delta : Z) : sp unit :=
  match moved with
  | None => mret tt
  | Some (spend, available, a, b) =>
      if 0 <? delta then
        _ ← insert_entry (entry available Debit delta a);
        insert_entry (entry spend Credit delta b)
      else
        _ ← insert_entry (entry spend Debit (- delta) a);
        insert_entry (entry available Credit (- delta) b)
  end.

Definition provider_reported (amount reserved : Z) (c : CommitRow) : CommitRow :=
  {| cm_reservation_id := cm_reservation_id c; cm_tenant_id := cm_tenant_id c; cm_budget_id := cm_budget_id c;
     cm_unit_id := cm_unit_id c; cm_latest_state := ProviderReported;
     cm_estimated_amount_atomic := cm_estimated_amount_atomic c;
     cm_provider_reported_amount_atomic := Some amount; cm_delta_to_reserved_atomic := amount - reserved;
     cm_pricing_version := cm_pricing_version c; cm_price_snapshot_hash := cm_price_snapshot_hash c |}.

Definition post_provider_reported_transaction (now : Z) (tx : TransactionJson) (reservation : uuid)
    (amount_text : string) (pricing : Pricing) (outbox : OutboxJson) : sp uuid :=
  amount ← cast (pg_numeric amount_text) "numeric" amount_text;
  scope_id ← cast_uuid (pt_fencing_scope_id tx);
  effective_at ← cast (pg_timestamp (pt_effective_at tx)) "timestamp with time zone" EmptyString;
  let tenant := pt_tenant_id tx in
  unless_replayed tx OpProviderReport (
    current ← check_fence now scope_id tenant (pt_workload_instance_id tx) (pt_fencing_epoch tx);
    _ ← check (negb (sidecar_scope (fs_scope_type current))) "40P02"
          (scope_not_allowed (fs_scope_type current) "operation provider_report");
    unless_replayed tx OpProviderReport (
      found ← select (find_reservation tenant reservation);
      row ← match found with Some r => mret r | None => raise "P0001" (not_found reservation tenant) end;
      _ ← check (bool_decide (rn_current_state row = Committed)) "P0001"
            ("RESERVATION_STATE_CONFLICT: reservations.current_state="
             +:+ reservation_state_str (rn_current_state row) +:+ ", expected committed");
      found ← select (fun s => pg_limit1 (commits_of tenant reservation s));
      c ← match found with
          | Some c => mret c
          | None => raise "P0001" ("COMMIT_NOT_FOUND: provider_report requires prior commit_estimated for reservation "
                                   +:+ uuid_str reservation)
          end;
      let '(commit_id, commit) := c in
      _ ← check (bool_decide (cm_latest_state commit = Estimated)) "P0001"
            ("RESERVATION_STATE_CONFLICT: commits.latest_state=" +:+ commit_state_str (cm_latest_state commit)
             +:+ ", expected estimated");
      reserve ← reserve_entry tenant reservation "P0001"
                  ("reserve credit entry not found for reservation " +:+ uuid_str reservation);
      _ ← check_unit tx reserve;
      _ ← check (bool_decide (pricing = le_pricing reserve.1)) "P0001" freeze_mismatch;
      _ ← check (0 <? amount) "22023"
            ("INVALID_AMOUNT: provider_amount must be > 0; got " +:+ z_str amount);
      let reserved := le_amount_atomic reserve.1 in
      _ ← check (amount <=? reserved) "P0001"
            ("OVERRUN_RESERVATION: provider_amount " +:+ z_str amount +:+ " exceeds original_reserved "
             +:+ z_str reserved);
      let delta := amount - cm_estimated_amount_atomic commit in
      moved ← (if delta =? 0 then mret None
               else
                 spend ← account_beside tenant reserve CommittedSpend;
                 available ← account_beside tenant reserve AvailableBudget;
                 a ← nextval_per_shard v_shard_id;
                 b ← nextval_per_shard v_shard_id;
                 mret (Some (spend, available, a, b)));
      post_or_replay tx (transaction_row now tx OpProviderReport scope_id effective_at
                           (provider_token reserve delta)) (
        let entry account direction amount seq :=
          settle_entry now tx effective_at reserve reservation (Some "provider_reported") account direction
            amount v_shard_id seq in
        _ ← insert_delta_entries entry moved delta;
        _ ← assert_per_unit_balance_now (pt_ledger_transaction_id tx);
        _ ← record_audit now tx OpProviderReport outbox;
        _ ← update (fun s => with_commits (<[commit_id := provider_reported amount reserved commit]> (commits s)) s);
        mret (pt_ledger_transaction_id tx)))).

(** ** [acquire_fencing_lease] *)

Record LeaseRow := {
  lr_granted : bool;
  lr_new_epoch : Z;
  lr_expires_at : option Z;
  lr_action : string;
  lr_holder_instance_id : option string;
}.

Definition with_lease (epoch : Z) (owner : option string) (ttl : option Z) (f : FencingScope) : FencingScope :=
  {| fs_scope_type := fs_scope_type f; fs_tenant_id := fs_tenant_id f; fs_budget_id := fs_budget_id f;
     fs_reservation_id := fs_reservation_id f; fs_window_instance_id := fs_window_instance_id f;
     fs_workload_kind := fs_workload_kind f; fs_current_epoch := epoch; fs_active_owner_instance_id := owner;
     fs_ttl_expires_at := ttl |}.

(** The scope goes to the caller, with an epoch and an end. *)
Definition grant_lease (now : Z) (scope_id : uuid) (current : FencingScope) (workload : string) (epoch : Z)
    (ttl : Z) (action : string) (audit_event_id : option uuid) : sp LeaseRow :=
  _ ← update (fun s => with_scopes
        (<[scope_id := with_lease epoch (Some workload) (Some (now + ttl)) current]> (fencing_scopes s))
        ({| fe_fencing_scope_id := scope_id; fe_old_epoch := fs_current_epoch current; fe_new_epoch := epoch;
            fe_owner_instance_id := workload; fe_action := action; fe_audit_event_id := audit_event_id |}
         :: fencing_scope_events s) s);
  mret {| lr_granted := true; lr_new_epoch := epoch; lr_expires_at := Some (now + ttl);
          lr_action := action; lr_holder_instance_id := Some workload |}.

Definition lease_running (now : Z) (current : FencingScope) : bool :=
  match fs_ttl_expires_at current with Some ttl => now <? ttl | None => false end.

Definition acquire_fencing_lease (now : Z) (scope_id tenant : uuid) (workload : string) (ttl_seconds : Z)
    (force : bool) (audit_event_id : option uuid) : sp LeaseRow :=
  _ ← check (negb (is_empty workload)) "22023" "workload_id required";
  _ ← check (0 <? ttl_seconds) "22023" "ttl_seconds must be > 0";
  found ← select (fun s => fencing_scopes s !! scope_id);
  match found with
  | None => raise "40P02" ("fencing_scope_id not found: " +:+ uuid_str scope_id)
  | Some current =>
      _ ← check (bool_decide (fs_tenant_id current = tenant)) "40P02"
            ("fencing_scope tenant mismatch (scope.tenant=" +:+ uuid_str (fs_tenant_id current)
             +:+ ", caller.tenant=" +:+ uuid_str tenant +:+ ")");
      let mine := bool_decide (fs_active_owner_instance_id current = Some workload) in
      if mine && lease_running now current then
        grant_lease now scope_id current workload (fs_current_epoch current) (secs ttl_seconds) "renew"
          audit_event_id
      else if negb (lease_running now current) || bool_decide (fs_active_owner_instance_id current = None)
              || force then
        let epoch := fs_current_epoch current + 1 in
        _ ← check (epoch <=? i64_max) "22003" "bigint out of range";
        grant_lease now scope_id current workload epoch (secs ttl_seconds)
          (match fs_active_owner_instance_id current with
           | None => "acquire"
           | Some _ => if mine then "recover" else if force then "revoke" else "promote"
           end) audit_event_id
      else
        mret {| lr_granted := false; lr_new_epoch := fs_current_epoch current;
                lr_expires_at := fs_ttl_expires_at current; lr_action := "denied";
                lr_holder_instance_id := fs_active_owner_instance_id current |}
  end.

End Procedures.
