(* ===== verification/Ledger.v ===== *)
(** * The ledger service

    [services/ledger/src]: the RPC handlers ([handlers]), their errors
    ([domain/error.rs]), lock order tokens ([domain/lock_order.rs]) and replies
    to a repeated request ([domain/minimal_replay.rs]). A statement or a call of a
    stored procedure is one effect, a function on the tables of [LedgerDb]; it
    receives the time and random uuids. Of a response, the fields that
    the sidecar reads are kept. The texts of the errors of the uuid and
    num-bigint crates are an interface. *)

From S2P Require Import Prelude Floats Deps Effects Proto Canonical Ingest Outbox LedgerDb.

(** [{}] of [uuid::Error] and [ParseBigIntError]. *)
Class ErrorTexts := {
  uuid_error : string -> string;
  bigint_error : string -> string;
}.

(** chrono's RFC 3339, of an instant in nanoseconds. *)
Class Rfc3339Lib := {
  to_rfc3339 : Z -> string;
  parse_from_rfc3339 : string -> option Z;
  parse_to_rfc3339 t : parse_from_rfc3339 (to_rfc3339 t) = Some t;
}.

(** ** Errors *)

Inductive DomainError :=
  | FencingEpochStale (d : string)
  | LockOrderTokenMismatch (d : string)
  | PricingVersionUnknown (d : string)
  | UnitNormalizationRequired (d : string)
  | BudgetExhausted (d : string)
  | DeadlockTimeout
  | SerializationFailure
  | SyncReplicaUnavailable
  | TenantDisabled (d : string)
  | SchemaBundleUnknown (d : string)
  | SignatureInvalid (d : string)
  | AuditInvariantViolated (d : string)
  | DuplicateDecisionEvent (d : string)
  | ReservationStateConflict (d : string)
  | PricingFreezeMismatch (d : string)
  | OverrunReservation (d : string)
  | ReservationTtlExpired (d : string)
  | MultiReservationCommitDeferred (d : string)
  | ReservationNotFound (d : string)
  | IdempotencyConflict
  | InvalidRequest (d : string)
  | Internal (d : string)
  | Db (e : SqlError).

Definition sqlx_display (e : SqlError) : string :=
  match e with
  | DatabaseError _ m _ => "error returned from database: " +:+ m
  | OtherSqlError m => m
  end.

(** [to_string] *)
Definition domain_error_str (e : DomainError) : string :=
  match e with
  | FencingEpochStale d => "FENCING_EPOCH_STALE: " +:+ d
  | LockOrderTokenMismatch d => "LOCK_ORDER_TOKEN_MISMATCH: " +:+ d
  | PricingVersionUnknown d => "PRICING_VERSION_UNKNOWN: " +:+ d
  | UnitNormalizationRequired d => "UNIT_NORMALIZATION_REQUIRED: " +:+ d
  | BudgetExhausted d => "BUDGET_EXHAUSTED: " +:+ d
  | DeadlockTimeout => "DEADLOCK_TIMEOUT"
  | SerializationFailure => "SERIALIZATION_FAILURE"
  | SyncReplicaUnavailable => "SYNC_REPLICA_UNAVAILABLE"
  | TenantDisabled d => "TENANT_DISABLED: " +:+ d
  | SchemaBundleUnknown d => "SCHEMA_BUNDLE_UNKNOWN: " +:+ d
  | SignatureInvalid d => "SIGNATURE_INVALID: " +:+ d
  | AuditInvariantViolated d => "AUDIT_INVARIANT_VIOLATED: " +:+ d
  | DuplicateDecisionEvent d => "DUPLICATE_DECISION_EVENT: " +:+ d
  | ReservationStateConflict d => "RESERVATION_STATE_CONFLICT: " +:+ d
  | PricingFreezeMismatch d => "PRICING_FREEZE_MISMATCH: " +:+ d
  | OverrunReservation d => "OVERRUN_RESERVATION: " +:+ d
  | ReservationTtlExpired d => "RESERVATION_TTL_EXPIRED: " +:+ d
  | MultiReservationCommitDeferred d => "MULTI_RESERVATION_COMMIT_DEFERRED: " +:+ d
  | ReservationNotFound d => "RESERVATION_NOT_FOUND: " +:+ d
  | IdempotencyConflict => "idempotency_key reused with different request"
  | InvalidRequest d => "invalid request: " +:+ d
  | Internal d => "internal: " +:+ d
  | Db e => "postgres: " +:+ sqlx_display e
  end.

Definition proto_code (e : DomainError) : Code * string :=
  match e with
  | FencingEpochStale d => (FENCING_EPOCH_STALE, d)
  | LockOrderTokenMismatch d => (LOCK_ORDER_TOKEN_MISMATCH, d)
  | PricingVersionUnknown d => (PRICING_VERSION_UNKNOWN, d)
  | UnitNormalizationRequired d => (UNIT_NORMALIZATION_REQUIRED, d)
  | BudgetExhausted d => (BUDGET_EXHAUSTED, d)
  | DeadlockTimeout => (DEADLOCK_TIMEOUT, EmptyString)
  | SerializationFailure => (DEADLOCK_TIMEOUT, "serialization_failure")
  | SyncReplicaUnavailable => (SYNC_REPLICA_UNAVAILABLE, EmptyString)
  | TenantDisabled d => (TENANT_DISABLED, d)
  | SchemaBundleUnknown d => (SCHEMA_BUNDLE_UNKNOWN, d)
  | SignatureInvalid d => (SIGNATURE_INVALID, d)
  | AuditInvariantViolated d => (AUDIT_INVARIANT_VIOLATED, d)
  | DuplicateDecisionEvent d => (DUPLICATE_DECISION_EVENT, d)
  | ReservationStateConflict d => (RESERVATION_STATE_CONFLICT, d)
  | PricingFreezeMismatch d => (PRICING_FREEZE_MISMATCH, d)
  | OverrunReservation d => (OVERRUN_RESERVATION, d)
  | ReservationTtlExpired d => (RESERVATION_TTL_EXPIRED, d)
  | MultiReservationCommitDeferred d => (MULTI_RESERVATION_COMMIT_DEFERRED, d)
  | IdempotencyConflict => (IDEMPOTENCY_CONFLICT, "idempotency_key reused with different request_hash")
  | ReservationNotFound d | InvalidRequest d | Internal d => (CODE_UNSPECIFIED, d)
  | Db e => (CODE_UNSPECIFIED, sqlx_display e)
  end.

Definition to_proto (e : DomainError) : ProtoError :=
  {| pe_code := code_number (proto_code e).1; pe_message := domain_error_str e;
     pe_summary := (proto_code e).2 |}.

Definition grpc (code message : string) : Status := {| st_code := code; st_message := message |}.

Definition to_status (e : DomainError) : Status :=
  let text := domain_error_str e in
  match e with
  | IdempotencyConflict => grpc "failed_precondition" text
  | FencingEpochStale d | LockOrderTokenMismatch d | DuplicateDecisionEvent d | ReservationStateConflict d
  | PricingFreezeMismatch d | OverrunReservation d | ReservationTtlExpired d
  | MultiReservationCommitDeferred d => grpc "failed_precondition" (text +:+ ": " +:+ d)
  | ReservationNotFound d => grpc "not_found" d
  | TenantDisabled _ | SignatureInvalid _ => grpc "unauthenticated" text
  | InvalidRequest _ | SchemaBundleUnknown _ | PricingVersionUnknown _ | UnitNormalizationRequired _ =>
      grpc "invalid_argument" text
  | BudgetExhausted _ => grpc "resource_exhausted" text
  | DeadlockTimeout | SerializationFailure | SyncReplicaUnavailable | Db _ => grpc "unavailable" text
  | AuditInvariantViolated _ | Internal _ => grpc "internal" text
  end.

Definition contains_any (needles : list string) (hay : string) : bool :=
  existsb (fun n => str_contains n hay) needles.

Definition map_unique_violation (msg : string) (constraint : option string) : DomainError :=
  let constraint := default EmptyString constraint in
  if contains_any ["audit_outbox_global_per_decision"; "audit_outbox_decision_per_decision";
                   "audit_outbox_outcome_per_decision"; "audit_outbox_decision_event";
                   "audit_outbox_global_keys_pkey"] constraint
  then DuplicateDecisionEvent (constraint +:+ ": " +:+ msg)
  else if contains_any ["audit_outbox_global_idempotency"; "audit_outbox_idempotency";
                        "ledger_transactions_tenant_id_operation_kind_idempotency_key"] constraint
  then IdempotencyConflict
  else if contains_any ["audit_outbox_global_producer_seq"; "audit_outbox_producer_seq"] constraint
  then AuditInvariantViolated ("producer_sequence reused: " +:+ constraint +:+ ": " +:+ msg)
  else if str_contains "ledger_entries_partition_sequence" constraint
  then Internal ("ledger sequence collision: " +:+ constraint +:+ ": " +:+ msg)
  else Db (OtherSqlError ("encountered unexpected or invalid data: unique violation: " +:+ constraint
                          +:+ ": " +:+ msg)).

(** A raised exception is told by its text. *)
Definition map_raised (msg : string) : DomainError :=
  if str_contains "BUDGET_EXHAUSTED" msg then BudgetExhausted msg
  else if str_contains "PRICING_VERSION_UNKNOWN" msg then PricingVersionUnknown msg
  else if str_contains "FENCING_EPOCH_STALE" msg then FencingEpochStale msg
  else if str_contains "RESERVATION_STATE_CONFLICT" msg then ReservationStateConflict msg
  else if str_contains "RESERVATION_TTL_EXPIRED" msg then ReservationTtlExpired msg
  else if str_contains "PRICING_FREEZE_MISMATCH" msg then PricingFreezeMismatch msg
  else if str_contains "OVERRUN_RESERVATION" msg then OverrunReservation msg
  else if str_contains "AUDIT_INVARIANT_VIOLATED" msg then AuditInvariantViolated msg
  else if contains_any ["INVALID_PRODUCER_SEQUENCE"; "PRODUCER_SEQUENCE_MISMATCH"] msg
  then AuditInvariantViolated msg
  else if str_contains "COMMIT_ROW_DIVERGENT" msg then IdempotencyConflict
  else if contains_any ["COMMIT_NOT_FOUND"; "commit_lifecycle_race"] msg then ReservationStateConflict msg
  else if str_contains "UNIT_MISMATCH" msg then InvalidRequest msg
  else if contains_any ["RESERVE_NOT_FOUND"; "RESERVATION_SET_EMPTY"] msg then ReservationNotFound msg
  else if str_contains "MULTI_RESERVATION_SET_DEFERRED" msg then MultiReservationCommitDeferred msg
  else Internal msg.

Definition map_pg_error (err : SqlError) : DomainError :=
  match err with
  | DatabaseError (Some code) msg constraint =>
      if code =?s "40P01" then DeadlockTimeout
      else if code =?s "40001" then SerializationFailure
      else if code =?s "40P02" then FencingEpochStale msg
      else if code =?s "40P03" then
        if str_contains "LOCK_ORDER_TOKEN_MISMATCH" msg then LockOrderTokenMismatch msg
        else if str_contains "idempotency_key reused" msg then IdempotencyConflict
        else InvalidRequest msg
      else if code =?s "P0001" then map_raised msg
      else if code =?s "23514" then AuditInvariantViolated ("balance violation: " +:+ msg)
      else if code =?s "23505" then map_unique_violation msg constraint
      else if code =?s "22023" then InvalidRequest msg
      else if code =?s "42P10" then AuditInvariantViolated ("immutability trigger fired: " +:+ msg)
      else if code =?s "23P01" then DeadlockTimeout
      else Db err
  | _ => Db err
  end.

Section Handlers.
Context `{HU : UuidLib} `{HI : BigIntLib} `{HC : CryptoLib} `{HY : !UuidBytes} `{HT : ChronoLib}
        `{HJ : JsonLib} `{HB : Base64Lib} `{HG : !PgLib} `{HR : Rfc3339Lib} `{HV : ErrorTexts}.
Context (month_of : Z -> Z) (mirror_prediction_columns : string -> json -> Z -> result SqlError unit).

(** ** Effects *)

(** A statement gets the time and random uuids. *)
Inductive ledgerE : Type -> Type :=
  | Sql {A} (stmt : Z -> (nat -> uuid) -> sp A) : ledgerE (result SqlError A)
  | UuidNowV7 : ledgerE uuid
  | UtcNow : ledgerE Z.

Abbreviation handler A := (M ledgerE DomainError A).

Definition map_err {A} (f : SqlError -> DomainError) (r : result SqlError A) : result DomainError A :=
  match r with Ok a => Ok a | Err e => Err (f e) end.

(** [.await.map_err(f)?] *)
Definition query {A} (f : SqlError -> DomainError) (stmt : Z -> (nat -> uuid) -> sp A) : handler A :=
  r ← act (Sql stmt); lift (map_err f r).

Definition internal (what : string) (e : SqlError) : DomainError := Internal (what +:+ ": " +:+ sqlx_display e).

Definition row_not_found : SqlError :=
  OtherSqlError "no rows returned by a query that expected to return at least one row".

(** [fetch_one] *)
Definition fetch_one {A} (f : LedgerTables -> option A) : Z -> (nat -> uuid) -> sp A := fun _ _ s =>
  match f s with Some a => Ok (a, s) | None => Err row_not_found end.
Definition fetch {A} (f : LedgerTables -> A) : Z -> (nat -> uuid) -> sp A := fun _ _ => select f.

Definition invalid_request {A} (msg : string) : result DomainError A := Err (InvalidRequest msg).

Definition parse_uuid (s field : string) : result DomainError uuid :=
  ok_or (uuid_parse s) (InvalidRequest (field +:+ ": invalid uuid (" +:+ uuid_error s +:+ ")")).

(** [handle]: domain errors are answers, the others fail the call. *)
Definition respond {S} (m : handler (Outcome S)) : prog ledgerE (result Status (Outcome S)) :=
  pbind m (fun r => Ret
    match r with
    | Ok o => Ok o
    | Err (Internal msg) => Err (grpc "internal" msg)
    | Err (Db e) => Err (grpc "unavailable" ("db: " +:+ sqlx_display e))
    | Err other => Ok (Failure (to_proto other))
    end).

(** ** Replies to a repeated request *)

Definition find_by_id (id : uuid) (s : LedgerTables) : option LedgerTransaction :=
  find (fun t => bool_decide (lt_ledger_transaction_id t = id)) (ledger_transactions s).

(** Of the fields of a [Replay], those the sidecar reads. *)
Definition from_db_row (t : LedgerTransaction) (operation_id : string) (projection_ids : list string)
    (ttl_expires_at : option Timestamp) : Replay :=
  {| rp_ledger_transaction_id := uuid_str (lt_ledger_transaction_id t);
     rp_operation_kind := operation_kind_str (lt_operation_kind t);
     rp_audit_decision_event_id := uuid_str (lt_audit_decision_event_id t); rp_operation_id := operation_id;
     rp_decision_id := uuid_str (lt_decision_id t); rp_projection_ids := projection_ids;
     rp_ttl_expires_at := ttl_expires_at |}.

(** ** What the handlers share *)

Definition require_idempotency (i : option Idempotency) : result DomainError Idempotency :=
  i ← ok_or i (InvalidRequest "idempotency missing");
  _ ← ensure (negb (is_empty (idem_key i))) (InvalidRequest "idempotency.key empty");
  mret i.

Definition epoch_zero : DomainError := FencingEpochStale "epoch 0 is not a valid lease".

(** ReserveSet and RecordDeniedDecision, and the other handlers. *)
Definition require_fencing (f : option Fencing) : result DomainError Fencing :=
  f ← ok_or f (InvalidRequest "fencing missing");
  _ ← ensure (negb (is_empty (fc_scope_id f))) (InvalidRequest "fencing.scope_id empty");
  _ ← ensure (negb (is_empty (fc_workload_instance_id f)))
        (InvalidRequest "fencing.workload_instance_id empty");
  _ ← ensure (negb (fc_epoch f =? 0)) epoch_zero;
  mret f.

Definition require_fencing_ids (f : option Fencing) : result DomainError Fencing :=
  f ← ok_or f (InvalidRequest "fencing missing");
  _ ← ensure (negb (is_empty (fc_scope_id f) || is_empty (fc_workload_instance_id f)))
        (InvalidRequest "fencing.scope_id + workload_instance_id required");
  _ ← ensure (negb (fc_epoch f =? 0)) epoch_zero;
  mret f.

Definition require_pricing (p : option PricingFreeze) : result DomainError PricingFreeze :=
  p ← ok_or p (InvalidRequest "pricing missing");
  _ ← ensure (negb (is_empty (pf_pricing_version p) || is_empty (pf_price_snapshot_hash p)))
        (InvalidRequest "pricing.pricing_version + price_snapshot_hash required");
  mret p.

Definition require_audit_event (e : option CloudEvent) : result DomainError CloudEvent :=
  ok_or e (InvalidRequest "audit_event required").

(** The caller may state the hash it expects. *)
Definition check_request_hash (stated canonical msg : string) : result DomainError string :=
  if is_empty stated then Ok canonical
  else
    _ ← ensure (slen stated =? 32) (InvalidRequest msg);
    _ ← ensure (stated =?s canonical) IdempotencyConflict;
    mret canonical.

Definition pricing_of (p : PricingFreeze) : Pricing :=
  {| px_pricing_version := pf_pricing_version p; px_price_snapshot_hash := pf_price_snapshot_hash p;
     px_fx_rate_version := pf_fx_rate_version p; px_unit_conversion_version := pf_unit_conversion_version p |}.

(** [update] of the hasher with the four fields. *)
Definition pricing_bytes (p : PricingFreeze) : string :=
  pf_pricing_version p +:+ pf_price_snapshot_hash p +:+ pf_fx_rate_version p +:+ pf_unit_conversion_version p.

Definition unit_id_of (c : BudgetClaim) : string := default EmptyString (unit_id <$> bc_unit c).

(** The audit row: the event's envelope, its signature and its sequence. *)
Definition outbox_json (id : uuid) (type : string) (evt : CloudEvent) (producer_sequence : Z) : OutboxJson :=
  {| oj_audit_outbox_id := id; oj_event_type := type; oj_cloudevent_payload := cloudevent_payload (wire evt);
     oj_cloudevent_payload_signature := ce_producer_signature evt;
     oj_producer_sequence := i64_wrap producer_sequence |}.

(** What the transactions of a handler have in common; [fencing.epoch as i64]. *)
Definition transaction_json (id tenant decision audit : uuid) (key hash : string) (f : Fencing) (now : Z)
    (unit_id : option string) (token : string) (seed : list (string * json)) : TransactionJson :=
  {| pt_ledger_transaction_id := id; pt_tenant_id := tenant; pt_idempotency_key := key;
     pt_request_hash := hash; pt_decision_id := decision; pt_audit_decision_event_id := audit;
     pt_fencing_scope_id := fc_scope_id f; pt_fencing_epoch := i64_wrap (fc_epoch f);
     pt_workload_instance_id := fc_workload_instance_id f; pt_effective_at := now; pt_unit_id := unit_id;
     pt_lock_order_token := token; pt_minimal_replay_response := JObj seed |}.

(** Big-endian bytes of a 64-bit integer. *)
Definition be_bytes (z : Z) : string :=
  bytes_of ((fun i => Z.land (Z.shiftr z (8 * i)) 255) <$> [7; 6; 5; 4; 3; 2; 1; 0]).

(** Version 4, variant 10. *)
Definition uuid_of_digest (digest : string) : uuid :=
  let buf := String.substring 0 16 digest in
  let buf := set_byte 6 (fun b => Z.lor (Z.land b 15) 64) buf in
  let buf := set_byte 8 (fun b => Z.lor (Z.land b 63) 128) buf in
  uuid_from_bytes buf.

Definition derive_reservation_id (decision_id : uuid) (ordinal : Z) : uuid :=
  uuid_of_digest (sha256 (uuid_bytes decision_id +:+ ":res:" +:+ be_bytes ordinal)).

Definition derive_reservation_set_id (decision_id : uuid) : uuid :=
  uuid_of_digest (sha256 (uuid_bytes decision_id +:+ ":reservation_set")).

(** ** [lock_order::derive] *)

(** Tuples are ordered by their parts; a NUL, below every character of an id,
    ends each. *)
Definition tuple_key (parts : list string) : string :=
  String.concat (String (ascii_of_nat 0) EmptyString) parts.

Definition derive_lock_order (claims : list BudgetClaim) : string :=
  let keys := claims ≫= fun c =>
    [[bc_budget_id c; unit_id_of c; "available_budget"]; [bc_budget_id c; unit_id_of c; "reserved_hold"]] in
  "v1:" +:+ hex_encode (sha256 (String.concat ","
    (String.concat ":" <$> dedup_by (sort_by tuple_key keys)))).

(** ** [reserve_set] *)

Definition validate_claim (i : nat) (c : BudgetClaim) : result DomainError unit :=
  let claim := "claim[" +:+ z_str (Z.of_nat i) +:+ "]" in
  _ ← ensure (negb (is_empty (bc_budget_id c))) (InvalidRequest (claim +:+ ".budget_id empty"));
  u ← ok_or (bc_unit c) (InvalidRequest (claim +:+ ".unit missing"));
  _ ← ensure (negb (is_empty (unit_id u))) (InvalidRequest (claim +:+ ".unit.unit_id empty"));
  _ ← ensure (negb (is_empty (bc_window_instance_id c)))
        (InvalidRequest (claim +:+ ".window_instance_id empty"));
  amount ← ok_or (bigint_parse (bc_amount_atomic c))
             (InvalidRequest (claim +:+ ".amount_atomic invalid: " +:+ bigint_error (bc_amount_atomic c)));
  ensure (0 <=? amount) (InvalidRequest (claim +:+ ".amount_atomic must be non-negative")).

Fixpoint validate_claims (i : nat) (l : list BudgetClaim) : result DomainError unit :=
  match l with [] => Ok tt | c :: l => _ ← validate_claim i c; validate_claims (S i) l end.

Definition validate_reserve (req : ReserveSetRequest) : result DomainError unit :=
  _ ← ensure (negb (is_empty (rr_tenant_id req))) (InvalidRequest "tenant_id required");
  _ ← ensure (negb (is_empty (rr_decision_id req))) (InvalidRequest "decision_id required");
  _ ← ensure (negb (is_empty (rr_audit_decision_event_id req)))
        (InvalidRequest "audit_decision_event_id required");
  _ ← ensure (match rr_claims req with [] => false | _ => true end) (InvalidRequest "claims must not be empty");
  _ ← ok_or (rr_audit_event req) (InvalidRequest "audit_event (CloudEvent) required for audit_outbox row");
  validate_claims 0 (rr_claims req).

(** Tuples end with the direction, an [i32]; its order is that of [dir_key]. *)
Definition dir_key (d : Z) : string := be_bytes (d - i32_min).

Definition reserve_claim_key (c : BudgetClaim) : string :=
  tuple_key [bc_budget_id c; unit_id_of c; bc_window_instance_id c] +:+ String (ascii_of_nat 0) (dir_key (bc_direction c)).

Definition reserve_request_hash (req : ReserveSetRequest) (i : Idempotency) : result DomainError string :=
  let claims := String.concat EmptyString
    ((fun c => "|claim|" +:+ bc_budget_id c +:+ unit_id_of c +:+ bc_amount_atomic c
               +:+ bytes_of [Z.land (bc_direction c) 255] +:+ bc_window_instance_id c)
     <$> sort_by reserve_claim_key (rr_claims req)) in
  let pricing := from_option (fun p => "|pricing|" +:+ pricing_bytes p) EmptyString (rr_pricing req) in
  let fencing := from_option (fun f => "|fencing|" +:+ be_bytes (fc_epoch f) +:+ fc_scope_id f)
                   EmptyString (rr_fencing req) in
  let bundle := from_option (fun b => "|contract_bundle|" +:+ cbr_bundle_id b +:+ cbr_bundle_hash b)
                  EmptyString (rr_contract_bundle req) in
  let token := match rr_lock_order_token req with
               | Some t => if is_empty t then EmptyString else "|lock_order_token|" +:+ t
               | None => EmptyString
               end in
  check_request_hash (idem_request_hash i)
    (sha256 ("v1:reserve_set:business_intent:" +:+ rr_tenant_id req +:+ claims +:+ pricing +:+ fencing
             +:+ bundle +:+ token))
    "Idempotency.request_hash must be 32 bytes (sha256)".

(** Each claim debits available budget and credits the hold. *)
Definition claim_entries (pricing : PricingFreeze) (c : BudgetClaim) (reservation : uuid) : list EntryJson :=
  (fun kd : AccountKind * Direction =>
    {| ej_budget_id := bc_budget_id c; ej_window_instance_id := bc_window_instance_id c;
       ej_unit_id := unit_id_of c; ej_account_kind := kd.1; ej_direction := kd.2;
       ej_amount_atomic := bc_amount_atomic c; ej_ledger_shard_id := 1; ej_pricing := pricing_of pricing;
       ej_reservation_id := Some reservation |})
  <$> [(AvailableBudget, Debit); (ReservedHold, Credit)].

Definition build_entries_payload (claims : list BudgetClaim) (ids : list uuid) (pricing : PricingFreeze)
    : list EntryJson :=
  combine claims ids ≫= fun ci : BudgetClaim * uuid => claim_entries pricing ci.1 ci.2.

Definition build_reservations_payload (claims : list BudgetClaim) (ids : list uuid) (ttl : Timestamp) (key : string)
    : result DomainError (list ReservationJson) :=
  t ← ok_or (from_timestamp (seconds ttl) (u32_wrap (nanos ttl))) (InvalidRequest "ttl_expires_at out of range");
  mret ((fun ci : BudgetClaim * uuid =>
    {| rj_reservation_id := ci.2; rj_budget_id := bc_budget_id ci.1;
       rj_window_instance_id := bc_window_instance_id ci.1; rj_ttl_expires_at := t;
       rj_idempotency_key := key |}) <$> combine claims ids).

Definition reserve_replay_seed (tx decision : uuid) (ids : list uuid) (ttl : Timestamp) : list (string * json) :=
  [("ledger_transaction_id", JStr (uuid_str tx)); ("decision_id", JStr (uuid_str decision));
   ("operation_kind", JStr "reserve"); ("reservation_ids", JArr (JStr ∘ uuid_str <$> ids));
   ("ttl_expires_at", JStr (default EmptyString
      (to_rfc3339 <$> from_timestamp (seconds ttl) (u32_wrap (nanos ttl)))))].

Definition reserve_success (req : ReserveSetRequest) (tx audit : uuid) (ttl : Timestamp) (ids : list uuid)
    : ReserveSetSuccess :=
  {| rs_ok_ledger_transaction_id := uuid_str tx;
     rs_ok_reservation_set_id :=
       uuid_str (derive_reservation_set_id (default uuid_nil (uuid_parse (rr_decision_id req))));
     rs_ok_reservations := (fun ci : BudgetClaim * uuid =>
       {| rv_reservation_id := uuid_str ci.2; rv_budget_id := bc_budget_id ci.1;
          rv_window_instance_id := bc_window_instance_id ci.1; rv_unit := bc_unit ci.1;
          rv_amount_atomic := bc_amount_atomic ci.1; rv_ttl_expires_at := Some ttl |})
       <$> combine (rr_claims req) ids;
     rs_ok_audit_decision_event_id := uuid_str audit |}.

(** The snapshot of the first answer. *)
Definition snapshot_ids (snapshot : json) : list string :=
  match jget "reservation_ids" snapshot with
  | Some (JArr l) => omap j_str l
  | _ => []
  end.
Definition snapshot_ttl (snapshot : json) : option Timestamp :=
  match jget "ttl_expires_at" snapshot with
  | Some (JStr s) => timestamp_of <$> parse_from_rfc3339 s
  | _ => None
  end.

Definition reserve_replay (id : uuid) : handler Replay :=
  t ← query (internal "replay lookup") (fetch_one (find_by_id id));
  mret (from_db_row t (uuid_str (derive_reservation_set_id (lt_decision_id t)))
          (snapshot_ids (lt_minimal_replay_response t)) (snapshot_ttl (lt_minimal_replay_response t))).

Definition AUDIT_DECISION_TYPE : string := "spendguard.audit.decision".
Definition AUDIT_OUTCOME_TYPE : string := "spendguard.audit.outcome".

(** [post_transaction::post] *)
Definition post_transaction (op : OperationKind) (tx : TransactionJson) (entries : list EntryJson)
    (reservation_rows : list ReservationJson) (outbox : OutboxJson) (token : option string) : handler uuid :=
  query map_pg_error (fun now _ =>
    post_ledger_transaction month_of mirror_prediction_columns now op tx entries reservation_rows outbox token).

Definition reserve_set_inner (req : ReserveSetRequest) : handler (Outcome ReserveSetSuccess) :=
  _ ← lift (validate_reserve req);
  tenant ← lift (parse_uuid (rr_tenant_id req) "tenant_id");
  decision ← lift (parse_uuid (rr_decision_id req) "decision_id");
  audit ← lift (parse_uuid (rr_audit_decision_event_id req) "audit_decision_event_id");
  idempotency ← lift (require_idempotency (rr_idempotency req));
  hash ← lift (reserve_request_hash req idempotency);
  fencing ← lift (require_fencing (rr_fencing req));
  ttl ← lift (ok_or (rr_ttl_expires_at req) (InvalidRequest "ttl_expires_at missing"));
  pricing ← lift (require_pricing (rr_pricing req));
  let derived := derive_lock_order (rr_claims req) in
  _ ← lift (ensure (match rr_lock_order_token req with Some c => c =?s derived | None => true end)
        (LockOrderTokenMismatch ("caller=" +:+ default EmptyString (rr_lock_order_token req)
                                 +:+ ", derived=" +:+ derived)));
  id ← act UuidNowV7;
  outbox_id ← act UuidNowV7;
  let ids := imap (fun i _ => derive_reservation_id decision (Z.of_nat i)) (rr_claims req) in
  let entries := build_entries_payload (rr_claims req) ids pricing in
  rows ← lift (build_reservations_payload (rr_claims req) ids ttl (idem_key idempotency));
  now ← act UtcNow;
  evt ← lift (require_audit_event (rr_audit_event req));
  returned ← post_transaction OpReserve
    (transaction_json id tenant decision audit (idem_key idempotency) hash fencing now None EmptyString
       (reserve_replay_seed id decision ids ttl))
    entries rows (outbox_json outbox_id AUDIT_DECISION_TYPE evt (rr_producer_sequence req))
    (rr_lock_order_token req);
  if bool_decide (returned = id) then mret (Success (reserve_success req id audit ttl ids))
  else replay ← reserve_replay returned; mret (Replayed replay).

Definition reserve_set (req : ReserveSetRequest) : prog ledgerE (result Status (Outcome ReserveSetSuccess)) :=
  respond (reserve_set_inner req).

(** ** [commit_estimated] *)

Definition validate_commit (req : CommitEstimatedRequest) : result DomainError unit :=
  _ ← ensure (negb (is_empty (cr_tenant_id req))) (InvalidRequest "tenant_id required");
  _ ← ensure (negb (is_empty (cr_reservation_id req))) (InvalidRequest "reservation_id required");
  _ ← ensure (negb (is_empty (cr_decision_id req))) (InvalidRequest "decision_id required");
  _ ← ensure (negb (is_empty (cr_estimated_amount_atomic req)))
        (InvalidRequest "estimated_amount_atomic required");
  _ ← ok_or (cr_audit_event req) (InvalidRequest "audit_event required");
  mret tt.

Definition require_amount (field text : string) : result DomainError Z :=
  amount ← ok_or (bigint_parse text) (InvalidRequest (field +:+ " invalid: " +:+ bigint_error text));
  _ ← ensure (0 <? amount) (InvalidRequest (field +:+ " must be > 0"));
  mret amount.

Definition require_unit (u : option UnitRef) : result DomainError UnitRef :=
  u ← ok_or u (InvalidRequest "unit missing");
  _ ← ensure (negb (is_empty (unit_id u))) (InvalidRequest "unit.unit_id empty");
  mret u.

Definition hash_length_msg : string := "Idempotency.request_hash must be 32 bytes".

Definition commit_request_hash (req : CommitEstimatedRequest) (estimated : Z) (stated : string)
    : result DomainError string :=
  check_request_hash stated
    (sha256 ("v1:commit_estimated:business_intent:" +:+ cr_tenant_id req +:+ "|reservation|"
             +:+ cr_reservation_id req +:+ "|estimated|" +:+ bigint_str estimated +:+ "|unit|"
             +:+ from_option unit_id EmptyString (cr_unit req) +:+ "|pricing|"
             +:+ from_option pricing_bytes EmptyString (cr_pricing req) +:+ "|decision|" +:+ cr_decision_id req))
    hash_length_msg.

(** The seed of a commit and of a provider report. *)
Definition settle_replay_seed (tx decision reservation : uuid) (kind : string) : list (string * json) :=
  [("ledger_transaction_id", JStr (uuid_str tx)); ("decision_id", JStr (uuid_str decision));
   ("operation_kind", JStr kind); ("reservation_ids", JArr [JStr (uuid_str reservation)])].

(** [build_success] and [build_replay] of a commit and of a provider report. *)
Definition settle_success (id reservation : uuid) : handler CommitSuccess :=
  delta ← query (internal "commits lookup")
            (fetch_one (fun s => cm_delta_to_reserved_atomic <$> commits s !! derive_commit_id reservation));
  mret {| cs_ledger_transaction_id := uuid_str id; cs_reservation_id := uuid_str reservation;
          cs_delta_to_reserved_atomic := z_str delta |}.

Definition settle_replay (id reservation : uuid) : handler Replay :=
  t ← query (internal "replay lookup") (fetch_one (find_by_id id));
  mret (from_db_row t (uuid_str (derive_commit_id reservation)) [uuid_str reservation] None).

Definition commit_estimated_inner (req : CommitEstimatedRequest) : handler (Outcome CommitSuccess) :=
  _ ← lift (validate_commit req);
  tenant ← lift (parse_uuid (cr_tenant_id req) "tenant_id");
  reservation ← lift (parse_uuid (cr_reservation_id req) "reservation_id");
  decision ← lift (parse_uuid (cr_decision_id req) "decision_id");
  idempotency ← lift (require_idempotency (cr_idempotency req));
  fencing ← lift (require_fencing_ids (cr_fencing req));
  pricing ← lift (require_pricing (cr_pricing req));
  evt ← lift (require_audit_event (cr_audit_event req));
  outbox_id ← lift (parse_uuid (ce_id evt) "audit_event.id");
  estimated ← lift (require_amount "estimated_amount_atomic" (cr_estimated_amount_atomic req));
  u ← lift (require_unit (cr_unit req));
  hash ← lift (commit_request_hash req estimated (idem_request_hash idempotency));
  id ← act UuidNowV7;
  now ← act UtcNow;
  let tx := transaction_json id tenant decision outbox_id (idem_key idempotency) hash fencing now
              (Some (unit_id u)) EmptyString (settle_replay_seed id decision reservation "commit_estimated") in
  let outbox := outbox_json outbox_id AUDIT_OUTCOME_TYPE evt (cr_producer_sequence req) in
  returned ← query map_pg_error (fun now _ =>
    post_commit_estimated_transaction month_of mirror_prediction_columns now tx reservation
      (bigint_str estimated) (pricing_of pricing) outbox);
  if bool_decide (returned = id) then success ← settle_success id reservation; mret (Success success)
  else replay ← settle_replay returned reservation; mret (Replayed replay).

Definition commit_estimated (req : CommitEstimatedRequest) : prog ledgerE (result Status (Outcome CommitSuccess)) :=
  respond (commit_estimated_inner req).

(** ** [release] *)

Definition validate_release (req : ReleaseRequest) : result DomainError unit :=
  _ ← ensure (negb (is_empty (rl_tenant_id req))) (InvalidRequest "tenant_id required");
  _ ← ensure (negb (is_empty (rl_reservation_set_id req))) (InvalidRequest "reservation_set_id required");
  _ ← ensure (negb (is_empty (rl_decision_id req))) (InvalidRequest "decision_id required");
  _ ← ok_or (rl_audit_event req) (InvalidRequest "audit_event required");
  mret tt.

(** [release_request::Reason]; every other number is unspecified. *)
Definition reason_str (reason : Z) : result DomainError string :=
  match reason with
  | 1 => Ok "TTL_EXPIRED"
  | 2 => Ok "RUNTIME_ERROR"
  | 3 => Ok "RUN_ABORTED"
  | 4 => Ok "EXPLICIT"
  | _ => invalid_request "reason required (TTL_EXPIRED / RUNTIME_ERROR / RUN_ABORTED / EXPLICIT)"
  end.

(** The event must be of the kind and the decision it is sent for. *)
Definition check_audit_event (evt : CloudEvent) (type decision : string) : result DomainError unit :=
  _ ← ensure (ce_type evt =?s type)
        (InvalidRequest ("audit_event.type must be " +:+ type +:+ "; got '" +:+ ce_type evt +:+ "'"));
  ensure (ce_decision_id evt =?s decision)
    (InvalidRequest "audit_event.decision_id must match request.decision_id").

Definition release_request_hash (req : ReleaseRequest) (reason stated : string) : result DomainError string :=
  check_request_hash stated
    (sha256 ("v1:release:business_intent:" +:+ rl_tenant_id req +:+ "|reservation_set|"
             +:+ rl_reservation_set_id req +:+ "|decision|" +:+ rl_decision_id req +:+ "|reason|" +:+ reason))
    hash_length_msg.

Definition release_replay_seed (tx decision reservation_set : uuid) (reason : string) : list (string * json) :=
  [("ledger_transaction_id", JStr (uuid_str tx)); ("decision_id", JStr (uuid_str decision));
   ("operation_kind", JStr "release"); ("operation_id", JStr (uuid_str reservation_set));
   ("reason", JStr reason)].

Definition release_inner (req : ReleaseRequest) : handler (Outcome ReleaseSuccess) :=
  _ ← lift (validate_release req);
  tenant ← lift (parse_uuid (rl_tenant_id req) "tenant_id");
  set ← lift (parse_uuid (rl_reservation_set_id req) "reservation_set_id");
  decision ← lift (parse_uuid (rl_decision_id req) "decision_id");
  idempotency ← lift (require_idempotency (rl_idempotency req));
  fencing ← lift (require_fencing_ids (rl_fencing req));
  evt ← lift (require_audit_event (rl_audit_event req));
  _ ← lift (check_audit_event evt AUDIT_OUTCOME_TYPE (rl_decision_id req));
  outbox_id ← lift (parse_uuid (ce_id evt) "audit_event.id");
  reason ← lift (reason_str (rl_reason req));
  hash ← lift (release_request_hash req reason (idem_request_hash idempotency));
  id ← act UuidNowV7;
  now ← act UtcNow;
  let tx := transaction_json id tenant decision outbox_id (idem_key idempotency) hash fencing now None EmptyString
              (release_replay_seed id decision set reason) in
  let outbox := outbox_json outbox_id AUDIT_OUTCOME_TYPE evt (rl_producer_sequence req) in
  returned ← query map_pg_error (fun now _ =>
    post_release_transaction month_of mirror_prediction_columns now tx set reason outbox);
  if bool_decide (returned = id) then
    mret (Success {| rl_ok_ledger_transaction_id := uuid_str id;
                     rl_ok_released_reservation_ids := [uuid_str set] |})
  else
    t ← query (internal "replay lookup") (fetch_one (find_by_id returned));
    mret (Replayed (from_db_row t (uuid_str set) [] None)).

Definition release (req : ReleaseRequest) : prog ledgerE (result Status (Outcome ReleaseSuccess)) :=
  respond (release_inner req).

(** ** [record_denied_decision] *)

Definition validate_denied (req : RecordDeniedDecisionRequest) : result DomainError unit :=
  _ ← ensure (negb (is_empty (rd_tenant_id req))) (InvalidRequest "tenant_id required");
  _ ← ensure (negb (is_empty (rd_decision_id req))) (InvalidRequest "decision_id required");
  _ ← ensure (negb (is_empty (rd_audit_decision_event_id req)))
        (InvalidRequest "audit_decision_event_id required");
  _ ← ok_or (rd_audit_event req) (InvalidRequest "audit_event (CloudEvent) required for audit_outbox row");
  _ ← ensure (negb (is_empty (rd_final_decision req))) (InvalidRequest "final_decision required");
  _ ← ensure (negb (rd_final_decision req =?s "CONTINUE"))
        (InvalidRequest "RecordDeniedDecision rejects CONTINUE; route to ReserveSet");
  ensure (match rd_matched_rule_ids req with [] => false | _ => true end)
    (InvalidRequest "matched_rule_ids must be non-empty when DENY").

Definition denied_request_hash (req : RecordDeniedDecisionRequest) : string :=
  let claims := String.concat EmptyString
    ((fun c => bc_budget_id c +:+ ":" +:+ unit_id_of c +:+ ":" +:+ bc_amount_atomic c +:+ ":"
               +:+ bc_window_instance_id c +:+ "|")
     <$> sort_by (fun c => tuple_key [bc_budget_id c; unit_id_of c; bc_amount_atomic c])
           (rd_attempted_claims req)) in
  let listed l := String.concat EmptyString ((fun r => r +:+ ",") <$> sort_by (fun r => r) l) in
  sha256 ("v1:denied_decision:business_intent:" +:+ rd_tenant_id req +:+ claims
          +:+ "|rules:" +:+ listed (rd_matched_rule_ids req)
          +:+ "|reasons:" +:+ listed (rd_reason_codes req)
          +:+ "|decision:" +:+ rd_final_decision req
          +:+ from_option (fun b => "|bundle_id:" +:+ cbr_bundle_id b +:+ "|bundle_hash:" +:+ cbr_bundle_hash b)
                EmptyString (rd_contract_bundle req)
          +:+ from_option (fun p => "|pricing_version:" +:+ pf_pricing_version p +:+ "|price_snapshot:"
                                    +:+ pf_price_snapshot_hash p) EmptyString (rd_pricing req)
          +:+ from_option (fun f => "|scope:" +:+ fc_scope_id f) EmptyString (rd_fencing req)).

Definition denied_lock_token (decision : uuid) : string :=
  "v1:denied:" +:+ hex_encode (sha256 ("v1:denied_decision:" +:+ uuid_bytes decision)).

Definition denied_replay_seed (tx audit : uuid) : list (string * json) :=
  [("ledger_transaction_id", JStr (uuid_str tx)); ("audit_decision_event_id", JStr (uuid_str audit))].

Definition find_denied (id : uuid) (s : LedgerTables) : option LedgerTransaction :=
  match find_by_id id s with
  | Some t => if bool_decide (lt_operation_kind t = OpDeniedDecision) then Some t else None
  | None => None
  end.

Definition denied_replay (id : uuid) : handler Replay :=
  t ← query map_pg_error (fetch_one (find_denied id));
  mret (from_db_row t (uuid_str id) [] None).

Definition denied_success (id : uuid) (approval : string) : Outcome RecordDeniedDecisionSuccess :=
  Success {| rd_ok_ledger_transaction_id := uuid_str id; rd_ok_approval_id := approval |}.

(** An approval is wanted, and both JSON texts are there. *)
Definition approval_payload (req : RecordDeniedDecisionRequest) : option (json * json) :=
  match rd_decision_context_json req, rd_requested_effect_json req with
  | Some ctx, Some eff => if rd_final_decision req =?s "REQUIRE_APPROVAL" then Some (ctx, eff) else None
  | _, _ => None
  end.

Definition record_denied_inner (req : RecordDeniedDecisionRequest) : handler (Outcome RecordDeniedDecisionSuccess) :=
  _ ← lift (validate_denied req);
  tenant ← lift (parse_uuid (rd_tenant_id req) "tenant_id");
  decision ← lift (parse_uuid (rd_decision_id req) "decision_id");
  audit ← lift (parse_uuid (rd_audit_decision_event_id req) "audit_decision_event_id");
  idempotency ← lift (require_idempotency (rd_idempotency req));
  let hash := denied_request_hash req in
  fencing ← lift (require_fencing (rd_fencing req));
  id ← act UuidNowV7;
  outbox_id ← act UuidNowV7;
  now ← act UtcNow;
  evt ← lift (require_audit_event (rd_audit_event req));
  let tx := transaction_json id tenant decision audit (idem_key idempotency) hash fencing now None
              (denied_lock_token decision) (denied_replay_seed id audit) in
  let outbox := outbox_json outbox_id AUDIT_DECISION_TYPE evt (rd_producer_sequence req) in
  match approval_payload req with
  | Some (ctx, eff) =>
      let ttl := if rd_approval_ttl_seconds req =? 0 then 3600 else i32_wrap (rd_approval_ttl_seconds req) in
      out ← query map_pg_error (fun now fresh =>
        post_approval_required_decision month_of mirror_prediction_columns now (fresh 0%nat) tx outbox ctx eff ttl);
      if po_was_first_insert out && bool_decide (po_ledger_transaction_id out = id)
      then mret (denied_success id (uuid_str (po_approval_id out)))
      else replay ← denied_replay (po_ledger_transaction_id out); mret (Replayed replay)
  | None =>
      returned ← query map_pg_error (fun now _ =>
        post_denied_decision_transaction month_of mirror_prediction_columns now tx outbox);
      if bool_decide (returned = id) then mret (denied_success id EmptyString)
      else replay ← denied_replay returned; mret (Replayed replay)
  end.

Definition record_denied_decision (req : RecordDeniedDecisionRequest)
    : prog ledgerE (result Status (Outcome RecordDeniedDecisionSuccess)) :=
  respond (record_denied_inner req).

(** ** [provider_report] *)

Record ProviderReportRequest := {
  pv_tenant_id : string;
  pv_reservation_id : string;
  pv_provider_reported_amount_atomic : string;
  pv_unit : option UnitRef;
  pv_idempotency : option Idempotency;
  pv_fencing : option Fencing;
  pv_pricing : option PricingFreeze;
  pv_audit_event : option CloudEvent;
  pv_decision_id : string;
  pv_producer_sequence : Z;
  pv_provider_response_metadata : string;
}.

Definition validate_provider (req : ProviderReportRequest) : result DomainError unit :=
  _ ← ensure (negb (is_empty (pv_tenant_id req))) (InvalidRequest "tenant_id required");
  _ ← ensure (negb (is_empty (pv_reservation_id req))) (InvalidRequest "reservation_id required");
  _ ← ensure (negb (is_empty (pv_decision_id req))) (InvalidRequest "decision_id required");
  _ ← ensure (negb (is_empty (pv_provider_reported_amount_atomic req)))
        (InvalidRequest "provider_reported_amount_atomic required");
  _ ← ok_or (pv_audit_event req) (InvalidRequest "audit_event required");
  mret tt.

Definition provider_request_hash (req : ProviderReportRequest) (amount : Z) (stated : string)
    : result DomainError string :=
  check_request_hash stated
    (sha256 ("v1:provider_report:business_intent:" +:+ pv_tenant_id req +:+ "|reservation|"
             +:+ pv_reservation_id req +:+ "|provider_amount|" +:+ bigint_str amount +:+ "|unit|"
             +:+ from_option unit_id EmptyString (pv_unit req) +:+ "|pricing|"
             +:+ from_option pricing_bytes EmptyString (pv_pricing req) +:+ "|provenance|"
             +:+ pv_provider_response_metadata req))
    hash_length_msg.

Definition provider_report_inner (req : ProviderReportRequest) : handler (Outcome CommitSuccess) :=
  _ ← lift (validate_provider req);
  tenant ← lift (parse_uuid (pv_tenant_id req) "tenant_id");
  reservation ← lift (parse_uuid (pv_reservation_id req) "reservation_id");
  decision ← lift (parse_uuid (pv_decision_id req) "decision_id");
  idempotency ← lift (require_idempotency (pv_idempotency req));
  fencing ← lift (require_fencing_ids (pv_fencing req));
  pricing ← lift (require_pricing (pv_pricing req));
  evt ← lift (require_audit_event (pv_audit_event req));
  _ ← lift (check_audit_event evt AUDIT_DECISION_TYPE (pv_decision_id req));
  outbox_id ← lift (parse_uuid (ce_id evt) "audit_event.id");
  amount ← lift (require_amount "provider_reported_amount_atomic" (pv_provider_reported_amount_atomic req));
  u ← lift (require_unit (pv_unit req));
  _ ← lift (ensure (negb (is_empty (pv_provider_response_metadata req)))
        (InvalidRequest "provider_response_metadata required (Step 8 POC: namespaced provider_event_id)"));
  hash ← lift (provider_request_hash req amount (idem_request_hash idempotency));
  id ← act UuidNowV7;
  now ← act UtcNow;
  let tx := transaction_json id tenant decision outbox_id (idem_key idempotency) hash fencing now
              (Some (unit_id u)) EmptyString (settle_replay_seed id decision reservation "provider_report") in
  let outbox := outbox_json outbox_id AUDIT_DECISION_TYPE evt (pv_producer_sequence req) in
  returned ← query map_pg_error (fun now _ =>
    post_provider_reported_transaction month_of mirror_prediction_columns now tx reservation
      (bigint_str amount) (pricing_of pricing) outbox);
  if bool_decide (returned = id) then success ← settle_success id reservation; mret (Success success)
  else replay ← settle_replay returned reservation; mret (Replayed replay).

Definition provider_report (req : ProviderReportRequest) : prog ledgerE (result Status (Outcome CommitSuccess)) :=
  respond (provider_report_inner req).

(** ** [acquire_fencing_lease] *)

Record AcquireFencingLeaseRequest := {
  al_fencing_scope_id : string;
  al_tenant_id : string;
  al_workload_instance_id : string;
  al_ttl_seconds : Z;
  al_force : bool;
  al_audit_event_id : string;
}.

Inductive LeaseOutcome :=
  | LeaseGranted (epoch : Z) (ttl_expires_at : option Timestamp) (action : string)
  | LeaseDenied (holder : string) (epoch : Z) (ttl_expires_at : option Timestamp)
  | LeaseError (e : ProtoError).

(** [map_err(|e| InvalidRequest(format!("{field}: {e}")))] *)
Definition parse_id (s field : string) : result DomainError uuid :=
  ok_or (uuid_parse s) (InvalidRequest (field +:+ ": " +:+ uuid_error s)).

Definition optional_uuid (s field : string) : result DomainError (option uuid) :=
  if is_empty s then Ok None else Some <$> parse_id s field.

Definition acquire_inner (req : AcquireFencingLeaseRequest) : handler LeaseOutcome :=
  _ ← lift (ensure (negb (is_empty (al_fencing_scope_id req))) (InvalidRequest "fencing_scope_id required"));
  _ ← lift (ensure (negb (is_empty (al_tenant_id req))) (InvalidRequest "tenant_id required"));
  _ ← lift (ensure (negb (is_empty (al_workload_instance_id req)))
        (InvalidRequest "workload_instance_id required"));
  _ ← lift (ensure (negb (al_ttl_seconds req =? 0)) (InvalidRequest "ttl_seconds must be > 0"));
  _ ← lift (ensure (al_ttl_seconds req <=? 3600)
        (InvalidRequest "ttl_seconds capped at 3600 (1 hour); pass shorter TTL + renew loop"));
  scope ← lift (parse_id (al_fencing_scope_id req) "fencing_scope_id");
  tenant ← lift (parse_id (al_tenant_id req) "tenant_id");
  audit ← lift (optional_uuid (al_audit_event_id req) "audit_event_id");
  row ← query map_pg_error (fun now _ =>
    LedgerDb.acquire_fencing_lease now scope tenant (al_workload_instance_id req) (al_ttl_seconds req)
      (al_force req) audit);
  let expires := timestamp_of <$> lr_expires_at row in
  mret (if lr_granted row then LeaseGranted (u64_wrap (lr_new_epoch row)) expires (lr_action row)
        else LeaseDenied (default EmptyString (lr_holder_instance_id row)) (u64_wrap (lr_new_epoch row)) expires).

Definition acquire_fencing_lease (req : AcquireFencingLeaseRequest) : prog ledgerE (result Status LeaseOutcome) :=
  pbind (acquire_inner req) (fun r => Ret
    match r with
    | Ok o => Ok o
    | Err (Internal msg) => Err (grpc "internal" msg)
    | Err (Db e) => Err (grpc "unavailable" ("db: " +:+ sqlx_display e))
    | Err other => Ok (LeaseError (to_proto other))
    end).

(** ** [query_reservation_context] *)

(** The reservation with the transaction that made it. *)
Definition reservation_source (tenant id : uuid) (s : LedgerTables) : option (ReservationRow * LedgerTransaction) :=
  match find_reservation tenant id s with
  | Some r => pair r <$> find_by_id (rn_source_ledger_transaction_id r) s
  | None => None
  end.

Definition reservation_context (tenant id : uuid) (r : ReservationRow) (t : LedgerTransaction)
    (e : LedgerEntry * Account) : ReservationContext :=
  {| rc_tenant_id := uuid_str tenant; rc_budget_id := uuid_str (rn_budget_id r);
     rc_window_instance_id := uuid_str (rn_window_instance_id r);
     rc_unit := Some {| unit_id := uuid_str (la_unit_id e.2); unit_kind := 0; token_kind := EmptyString;
                        model_family := EmptyString |};
     rc_original_reserved_amount_atomic := z_str (le_amount_atomic e.1);
     rc_pricing := Some {| pf_pricing_version := px_pricing_version (le_pricing e.1);
                           pf_price_snapshot_hash := px_price_snapshot_hash (le_pricing e.1);
                           pf_fx_rate_version := px_fx_rate_version (le_pricing e.1);
                           pf_unit_conversion_version := px_unit_conversion_version (le_pricing e.1) |};
     rc_fencing_scope_id := uuid_str (lt_fencing_scope_id t);
     rc_fencing_epoch_at_post := u64_wrap (lt_fencing_epoch_at_post t);
     rc_decision_id := uuid_str (lt_decision_id t); rc_ttl_expires_at := Some (timestamp_of (rn_ttl_expires_at r));
     rc_current_state := reservation_state_str (rn_current_state r) |}.

Definition query_context_inner (req : QueryReservationContextRequest) : handler (Outcome ReservationContext) :=
  _ ← lift (ensure (negb (is_empty (qr_tenant_id req) || is_empty (qr_reservation_id req)))
        (InvalidRequest "tenant_id + reservation_id required"));
  tenant ← lift (parse_id (qr_tenant_id req) "tenant_id");
  id ← lift (parse_id (qr_reservation_id req) "reservation_id");
  found ← query (internal "reservations lookup") (fetch (reservation_source tenant id));
  rt ← lift (ok_or found (ReservationNotFound ("reservation_id " +:+ uuid_str id +:+ " not found for tenant "
                                               +:+ uuid_str tenant)));
  let '(r, t) := rt in
  let source := rn_source_ledger_transaction_id r in
  n ← query (internal "multi-reservation count")
        (fetch (fun s => Z.of_nat (length (reservations_of tenant source s))));
  _ ← lift (ensure (n <=? 1) (MultiReservationCommitDeferred
        ("source_ledger_transaction " +:+ uuid_str source +:+ " created " +:+ z_str n
         +:+ " reservations; CommitEstimatedSet RPC is a future slice")));
  entry ← query (internal "ledger_entries lookup") (fetch (fun s => pg_limit1 (reserve_entries tenant id s)));
  e ← lift (ok_or entry (Internal ("no reserved_hold credit entry for reservation " +:+ uuid_str id)));
  mret (Success (reservation_context tenant id r t e)).

Definition query_reservation_context (req : QueryReservationContextRequest)
    : prog ledgerE (result Status (Outcome ReservationContext)) :=
  respond (query_context_inner req).

(** ** [query_budget_state] *)

Record BudgetState := {
  bs_available_atomic : Z;
  bs_reserved_hold_atomic : Z;
  bs_committed_spend_atomic : Z;
  bs_debt_atomic : Z;
  bs_adjustment_atomic : Z;
  bs_refund_credit_atomic : Z;
}.

(** Between the bounds of the window, those that it has. *)
Definition in_window (window : uuid) (snapshot : Z) (s : LedgerTables) (e : LedgerEntry) : bool :=
  (le_effective_at e <=? snapshot)
  && match budget_window_instances s !! window with
     | Some w =>
         match wi_boundary_start w with Some b => b <=? le_effective_at e | None => true end
         && match wi_boundary_end w with Some b => le_effective_at e <? b | None => true end
     | None => false
     end.

(** The entries of a kind of account of a budget, in its window, up to the snapshot. *)
Definition budget_entry (tenant budget window unit : uuid) (snapshot : Z) (kind : AccountKind) (s : LedgerTables)
    (e : LedgerEntry) : bool :=
  match find (fun a => bool_decide (la_ledger_account_id a = le_ledger_account_id e)) (ledger_accounts s) with
  | Some a =>
      bool_decide (le_tenant_id e = tenant) && bool_decide (la_budget_id a = budget)
      && bool_decide (le_window_instance_id e = window) && bool_decide (la_unit_id a = unit)
      && bool_decide (la_account_kind a = kind) && in_window window snapshot s e
  | None => false
  end.

(** Credits minus debits of the accounts of credit, debits minus credits of debt and
    adjustment. *)
Definition budget_state (tenant budget window unit : uuid) (snapshot : Z) (s : LedgerTables) : BudgetState :=
  let credit kind := net (budget_entry tenant budget window unit snapshot kind s) (ledger_entries s) in
  {| bs_available_atomic := credit AvailableBudget; bs_reserved_hold_atomic := credit ReservedHold;
     bs_committed_spend_atomic := credit CommittedSpend; bs_debt_atomic := - credit Debt;
     bs_adjustment_atomic := - credit Adjustment; bs_refund_credit_atomic := credit RefundCredit |}.

(** The reservations still held, and the commits that no provider reported on. *)
Definition reservation_count (tenant budget window unit : uuid) (s : LedgerTables) : Z :=
  Z.of_nat (length (List.filter (fun kv : uuid * ReservationRow =>
    bool_decide (rn_tenant_id kv.2 = tenant) && bool_decide (rn_budget_id kv.2 = budget)
    && bool_decide (rn_window_instance_id kv.2 = window) && bool_decide (rn_current_state kv.2 = Reserved)
    && existsb (fun e => bool_decide (le_reservation_id e = Some kv.1)
                         && existsb (fun a => bool_decide (la_ledger_account_id a = le_ledger_account_id e)
                                              && bool_decide (la_unit_id a = unit)) (ledger_accounts s))
         (ledger_entries s)) (map_to_list (reservations s)))).

Definition commit_count (tenant budget window unit : uuid) (s : LedgerTables) : Z :=
  Z.of_nat (length (List.filter (fun kv : uuid * CommitRow =>
    bool_decide (cm_tenant_id kv.2 = tenant) && bool_decide (cm_budget_id kv.2 = budget)
    && bool_decide (rn_window_instance_id <$> reservations s !! cm_reservation_id kv.2 = Some window)
    && bool_decide (cm_unit_id kv.2 = unit) && bool_decide (cm_latest_state kv.2 = Estimated))
    (map_to_list (commits s)))).

Record BudgetStateResponse := {
  br_state : BudgetState;
  br_reservation_count : Z;
  br_commit_count : Z;
  br_as_of : Timestamp;
}.

Definition query_budget_inner (req : QueryBudgetStateRequest) : handler BudgetStateResponse :=
  _ ← lift (ensure (negb (is_empty (qb_tenant_id req) || is_empty (qb_budget_id req)
                          || is_empty (qb_window_instance_id req) || is_empty (qb_unit_id req)))
        (InvalidRequest "tenant_id + budget_id + window_instance_id + unit_id required"));
  tenant ← lift (parse_id (qb_tenant_id req) "tenant_id");
  budget ← lift (parse_id (qb_budget_id req) "budget_id");
  window ← lift (parse_id (qb_window_instance_id req) "window_instance_id");
  unit_id ← lift (parse_id (qb_unit_id req) "unit_id");
  at_ ← lift (ok_or (qb_snapshot_at req) (InvalidRequest "snapshot_at required (Ledger §8)"));
  snapshot ← lift (ok_or (from_timestamp (seconds at_) (u32_wrap (nanos at_)))
               (InvalidRequest "snapshot_at out of range"));
  state ← query (internal "query budget state") (fetch (budget_state tenant budget window unit_id snapshot));
  n ← query (internal "reservation_count") (fetch (reservation_count tenant budget window unit_id));
  m ← query (internal "commit_count") (fetch (commit_count tenant budget window unit_id));
  mret {| br_state := state; br_reservation_count := n; br_commit_count := m;
          br_as_of := timestamp_of snapshot |}.

Definition query_budget_state (req : QueryBudgetStateRequest) : prog ledgerE (result Status BudgetStateResponse) :=
  pbind (query_budget_inner req) (fun r => Ret
    match r with
    | Ok b => Ok b
    | Err (Internal msg) => Err (grpc "internal" msg)
    | Err (Db e) => Err (grpc "unavailable" ("db: " +:+ sqlx_display e))
    | Err (InvalidRequest d) => Err (grpc "invalid_argument" d)
    | Err other => Err (to_status other)
    end).

(** ** Approvals *)

Definition approval_error {S} (msg : string) : Outcome S :=
  Failure {| pe_code := code_number CODE_UNSPECIFIED; pe_message := msg; pe_summary := EmptyString |}.

Abbreviation approval_handler S := (M ledgerE Status (Outcome S)).

Definition get_approval_for_resume (req : GetApprovalForResumeRequest) : approval_handler ApprovalResumeContext :=
  match uuid_parse (ga_approval_id req), uuid_parse (ga_tenant_id req) with
  | None, _ => mret (approval_error ("[INVALID_REQUEST] approval_id parse: " +:+ uuid_error (ga_approval_id req)))
  | _, None => mret (approval_error ("[INVALID_REQUEST] tenant_id parse: " +:+ uuid_error (ga_tenant_id req)))
  | Some id, Some tenant =>
      found ← act (Sql (fetch (fun s => approval_requests s !! id)));
      match found with
      | Err e => fail (grpc "unavailable" ("db: " +:+ sqlx_display e))
      | Ok None => mret (approval_error ("[NOT_FOUND] approval " +:+ uuid_str id +:+ " not found"))
      | Ok (Some a) =>
          if bool_decide (ap_tenant_id a = tenant) then
            mret (Success {| ac_approval_id := uuid_str id; ac_tenant_id := uuid_str tenant;
                             ac_decision_id := uuid_str (ap_decision_id a);
                             ac_state := approval_state_str (ap_state a);
                             ac_decision_context_json := Some (ap_decision_context a);
                             ac_requested_effect_json := Some (ap_requested_effect a);
                             ac_bundled_ledger_transaction_id :=
                               from_option uuid_str EmptyString (ap_bundled_ledger_transaction_id a) |})
          else mret (approval_error "[PERMISSION_DENIED] tenant_id mismatch")
      end
  end.

Definition mark_approval_bundled (req : MarkApprovalBundledRequest) : approval_handler MarkApprovalBundledSuccess :=
  match uuid_parse (mb_approval_id req), uuid_parse (mb_ledger_transaction_id req) with
  | None, _ => mret (approval_error ("approval_id parse: " +:+ uuid_error (mb_approval_id req)))
  | _, None => mret (approval_error ("ledger_transaction_id parse: " +:+ uuid_error (mb_ledger_transaction_id req)))
  | Some id, Some tx_id =>
      row ← act (Sql (fun _ _ => LedgerDb.mark_approval_bundled id tx_id));
      match row with
      | Ok (first, tx_id) =>
          mret (Success {| mb_was_first_bundling := first; mb_ok_ledger_transaction_id := uuid_str tx_id |})
      | Err (DatabaseError _ msg _) => mret (approval_error msg)
      | Err e => fail (grpc "unavailable" ("db: " +:+ sqlx_display e))
      end
  end.

(** ** [query_decision_outcome] *)

(** One row of the join of an audit row with its transaction. *)
Definition joined (s : LedgerTables) (r : AuditOutboxRow) : option (AuditOutboxRow * LedgerTransaction) :=
  pair r <$> find_by_id (ao_ledger_transaction_id r) s.

(** [ORDER BY key ASC] *)
Fixpoint order_insert {A} (key : A -> Z) (a : A) (l : list A) : list A :=
  match l with
  | [] => [a]
  | b :: l => if key a <=? key b then a :: b :: l else b :: order_insert key a l
  end.
Definition order_by {A} (key : A -> Z) (l : list A) : list A := foldr (order_insert key) [] l.

Definition audit_rows (P : AuditOutboxRow * LedgerTransaction -> bool) (s : LedgerTables)
    : list (AuditOutboxRow * LedgerTransaction) :=
  List.filter P (omap (joined s) (rev (audit_outbox s))).

Definition rows_of_decision (tenant decision : uuid) (s : LedgerTables) : list (AuditOutboxRow * LedgerTransaction) :=
  order_by (fun rt => or_recorded_at (ao_row rt.1)) (audit_rows (fun rt =>
    bool_decide (ao_tenant_id rt.1 = tenant) && bool_decide (ao_decision_id rt.1 = decision)) s).

Definition decision_of_key (tenant : uuid) (key : string) (s : LedgerTables) : option (AuditOutboxRow * LedgerTransaction) :=
  head (order_by (fun rt => lt_recorded_at rt.2) (audit_rows (fun rt =>
    (or_event_type (ao_row rt.1) =?s AUDIT_DECISION_TYPE) && bool_decide (lt_tenant_id rt.2 = tenant)
    && (lt_idempotency_key rt.2 =?s key)
    && (bool_decide (lt_operation_kind rt.2 = OpReserve)
        || bool_decide (lt_operation_kind rt.2 = OpDeniedDecision))) s)).

Definition cloudevent_data_json (payload : json) : option json :=
  match jget "data_b64" payload with
  | Some (JStr raw) => match b64_decode raw with Some bytes => json_from_slice bytes | None => None end
  | _ => None
  end.

Definition field_str (j : option json) (k : string) : string :=
  match j with Some j => default EmptyString (jget k j ≫= j_str) | None => EmptyString end.

Definition string_array (j : option json) (k : string) : list string :=
  match j with
  | Some j => match jget k j with Some (JArr l) => omap j_str l | _ => [] end
  | None => []
  end.

(** The answer for a recorded decision; [replay_metadata]. *)
Definition replay_metadata (stage : Z) (r : AuditOutboxRow) (t : LedgerTransaction) (tx : uuid)
    : QueryDecisionOutcomeResponse :=
  let data := cloudevent_data_json (or_cloudevent_payload (ao_row r)) in
  let reason_codes := string_array data "reason_codes" in
  let stated := field_str data "final_decision" in
  let reserve := bool_decide (lt_operation_kind t = OpReserve) in
  {| qo_stage := stage; qo_ledger_transaction_id := uuid_str tx;
     qo_audit_decision_event_id := uuid_str (ao_audit_decision_event_id r);
     qo_decision_id := uuid_str (lt_decision_id t);
     qo_operation_kind := operation_kind_str (lt_operation_kind t);
     qo_operation_id := if reserve then uuid_str (derive_reservation_set_id (lt_decision_id t))
                        else uuid_str (lt_ledger_transaction_id t);
     qo_projection_ids := snapshot_ids (lt_minimal_replay_response t);
     qo_ttl_expires_at := snapshot_ttl (lt_minimal_replay_response t);
     qo_final_decision := if is_empty stated && reserve then "CONTINUE" else stated;
     qo_matched_rule_ids := string_array data "matched_rules"; qo_reason_codes := reason_codes;
     qo_run_code_triggered := default EmptyString (find (starts_with "RUN_") reason_codes);
     qo_request_fingerprint_hex := field_str data "idempotency_request_fingerprint" |}.

Definition no_decision (stage : Z) (tx : option uuid) : QueryDecisionOutcomeResponse :=
  {| qo_stage := stage; qo_ledger_transaction_id := from_option uuid_str EmptyString tx;
     qo_audit_decision_event_id := EmptyString; qo_decision_id := EmptyString;
     qo_operation_kind := EmptyString; qo_operation_id := EmptyString; qo_projection_ids := [];
     qo_ttl_expires_at := None; qo_final_decision := EmptyString; qo_matched_rule_ids := [];
     qo_reason_codes := []; qo_run_code_triggered := EmptyString; qo_request_fingerprint_hex := EmptyString |}.

Definition STAGE_NOT_FOUND : Z := 1.

(** [reduce_decision_outcome_rows]: the last decision row, and whether there is an
    outcome row. *)
Definition reduce_decision_outcome_rows (rows : list (AuditOutboxRow * LedgerTransaction))
    : QueryDecisionOutcomeResponse :=
  let is_type ty := fun rt : AuditOutboxRow * LedgerTransaction => or_event_type (ao_row rt.1) =?s ty in
  let outcome := find (is_type AUDIT_OUTCOME_TYPE) rows in
  let stage_or none := match outcome with Some _ => STAGE_AUDIT_OUTCOME_RECORDED | None => none end in
  match last (List.filter (is_type AUDIT_DECISION_TYPE) rows) with
  | Some (r, t) =>
      replay_metadata (stage_or STAGE_AUDIT_DECISION_RECORDED) r t (lt_ledger_transaction_id t)
  | None =>
      no_decision (stage_or STAGE_NOT_FOUND)
        ((fun rt : AuditOutboxRow * LedgerTransaction => lt_ledger_transaction_id rt.2) <$> outcome)
  end.

Definition query_decision_outcome (req : QueryDecisionOutcomeRequest)
    : M ledgerE Status QueryDecisionOutcomeResponse :=
  let parse s field := lift (ok_or (uuid_parse s) (grpc "invalid_argument" (field +:+ ": " +:+ uuid_error s))) in
  let failed (e : SqlError) := to_status (map_pg_error e) in
  tenant ← parse (qd_tenant_id req) "tenant_id";
  if negb (is_empty (qd_idempotency_key req)) then
    row ← act (Sql (fetch (decision_of_key tenant (qd_idempotency_key req))));
    match row with
    | Err e => fail (failed e)
    | Ok None => mret (no_decision STAGE_NOT_FOUND None)
    | Ok (Some (r, t)) => mret (replay_metadata STAGE_AUDIT_DECISION_RECORDED r t (lt_ledger_transaction_id t))
    end
  else
    decision ← parse (qd_decision_id req) "decision_id";
    rows ← act (Sql (fetch (rows_of_decision tenant decision)));
    match rows with
    | Err e => fail (failed e)
    | Ok rows => mret (reduce_decision_outcome_rows rows)
    end.

End Handlers.
