(* ===== verification/Posting.v ===== *)
(** * What the ledger's procedures do

    Each stored procedure of [LedgerDb] that succeeds returned an earlier
    transaction with the request's key and hash, and changed nothing, or posted
    one: a transaction row, its entries, its audit row with its key, and the change
    of its reservation and commit rows. The tactic [sp_inv] takes a procedure that
    succeeded apart; the lemmas here say what each statement did. *)

From S2P Require Import Prelude Floats Deps Effects Proto Canonical Ingest Outbox LedgerDb.

Section Statements.
Context `{HU : UuidLib} `{HI : BigIntLib} `{HC : CryptoLib} `{HY : !UuidBytes} `{HG : !PgLib}.

Lemma sp_bind_ok {A B} (m : sp A) (f : A -> sp B) s x :
  (m ≫= f) s = Ok x <-> exists a s1, m s = Ok (a, s1) /\ f a s1 = Ok x.
Proof.
  unfold mbind, sp_bind. destruct (m s) as [[a s1]|e]; split; try done.
  - intros ?. by exists a, s1.
  - intros (a' & s1' & [= <- <-] & ?). done.
  - by intros (? & ? & ? & _).
Qed.

Lemma check_ok b code msg s u s' : check b code msg s = Ok (u, s') -> b = true /\ s' = s.
Proof. unfold check. destruct b; [|done]. by intros [= _ ->]. Qed.

Lemma cast_ok {A} (o : option A) ty text s a s' : cast o ty text s = Ok (a, s') -> o = Some a /\ s' = s.
Proof. unfold cast. destruct o; [|done]. by intros [= -> ->]. Qed.

Lemma sp_lift_ok {A} (r : result SqlError A) s a s' : sp_lift r s = Ok (a, s') -> r = Ok a /\ s' = s.
Proof. unfold sp_lift. destruct r; [|done]. by intros [= -> ->]. Qed.

Lemma existsb_none {A} (f : A -> bool) l a : existsb f l = false -> a ∈ l -> f a = false.
Proof.
  intros He Ha. destruct (f a) eqn:Hf; [|done].
  rewrite <- He. symmetry. apply existsb_exists. exists a. split; [by apply list_elem_of_In|done].
Qed.

Lemma Forall2_elem_l {A B} (R : A -> B -> Prop) l k a : Forall2 R l k -> a ∈ l -> exists b, b ∈ k /\ R a b.
Proof.
  intros HF [i Hi]%list_elem_of_lookup. destruct (Forall2_lookup_l _ _ _ _ _ HF Hi) as (b & Hb & ?).
  exists b. split; [by eapply list_elem_of_lookup_2|done].
Qed.

Lemma Forall2_elem_r {A B} (R : A -> B -> Prop) l k b : Forall2 R l k -> b ∈ k -> exists a, a ∈ l /\ R a b.
Proof.
  intros HF [i Hi]%list_elem_of_lookup. destruct (Forall2_lookup_r _ _ _ _ _ HF Hi) as (a & Ha & ?).
  exists a. split; [by eapply list_elem_of_lookup_2|done].
Qed.

(** A constraint that holds. *)
Lemma constraint_ok (b : bool) code msg name s u s' :
  (if b then mret tt else violates code msg name) s = Ok (u, s') -> b = true /\ s' = s.
Proof. destruct b; [|done]. by intros [= _ ->]. Qed.

Lemma free_ok {A} (o : option A) name s u s' :
  (match o with Some _ => unique_violation name | None => mret tt end) s = Ok (u, s') -> o = None /\ s' = s.
Proof. destruct o; [done|]. by intros [= _ ->]. Qed.

Lemma found_ok {A} (o : option A) code msg s a s' :
  (match o with Some a => mret a | None => raise code msg end) s = Ok (a, s') -> o = Some a /\ s' = s.
Proof. destruct o; [|done]. by intros [= -> ->]. Qed.

End Statements.

(** Taking apart a procedure that succeeded. *)
Ltac sp_step :=
  match goal with
  | H : (_ ≫= _) _ = Ok _ |- _ =>
      let a := fresh "a" in let s := fresh "s" in let H1 := fresh "H" in
      apply sp_bind_ok in H as (a & s & H1 & H)
  | H : select _ _ = Ok _ |- _ => first [injection H as ? ?|injection H as ?]; subst
  | H : update _ _ = Ok _ |- _ => first [injection H as ? ?|injection H as ?]; subst
  | H : mret _ _ = Ok _ |- _ => first [injection H as ? ?|injection H as ?]; subst
  | H : check _ _ _ _ = Ok _ |- _ => apply check_ok in H as [H ->]
  | H : cast _ _ _ _ = Ok _ |- _ => apply cast_ok in H as [H ->]
  | H : cast_uuid _ _ = Ok _ |- _ => apply cast_ok in H as [H ->]
  | H : sp_lift _ _ = Ok _ |- _ => apply sp_lift_ok in H as [H ->]
  | H : (if _ then mret tt else violates _ _ _) _ = Ok _ |- _ => apply constraint_ok in H as [H ->]
  | H : match _ with Some _ => unique_violation _ | None => mret tt end _ = Ok _ |- _ =>
      apply free_ok in H as [H ->]
  | H : match _ with Some _ => mret _ | None => raise _ _ end _ = Ok _ |- _ =>
      apply found_ok in H as [H ->]
  | H : raise _ _ _ = Ok _ |- _ => discriminate H
  | H : violates _ _ _ _ = Ok _ |- _ => discriminate H
  | H : unique_violation _ _ = Ok _ |- _ => discriminate H
  | H : unit |- _ => destruct H
  end.
Ltac sp_inv := repeat sp_step; cbv beta in *.

Section Posting.
Context `{HU : UuidLib} `{HI : BigIntLib} `{HC : CryptoLib} `{HY : !UuidBytes} `{HG : !PgLib}.
Context (month_of : Z -> Z) (mirror_prediction_columns : string -> json -> Z -> result SqlError unit).

(** ** Statements that only add *)

Lemma nextval_spec shard s n s' :
  nextval_per_shard shard s = Ok (n, s') -> exists q, s' = with_sequences q s.
Proof. unfold nextval_per_shard. intros H. sp_inv. destruct (_ !! shard); sp_inv. by eexists. Qed.

Lemma with_sequences_twice q q' (s : LedgerTables) : with_sequences q (with_sequences q' s) = with_sequences q s.
Proof. done. Qed.

Lemma with_sequences_same (s : LedgerTables) : with_sequences (ledger_sequence_allocators s) s = s.
Proof. by destruct s. Qed.

(** A statement that only draws sequence numbers. *)
Definition draws {A} (m : sp A) : Prop := forall s a s', m s = Ok (a, s') -> exists q, s' = with_sequences q s.

Lemma draws_nextval shard : draws (nextval_per_shard shard).
Proof. intros s n s'. apply nextval_spec. Qed.

Lemma draws_ret {A} (a : A) : draws (mret a).
Proof. intros s b s' [= _ <-]. eexists. symmetry. apply with_sequences_same. Qed.

Lemma draws_bind {A B} (m : sp A) (f : A -> sp B) : draws m -> (forall a, draws (f a)) -> draws (m ≫= f).
Proof.
  intros Hm Hf s b s' (a & s1 & H1 & H2)%sp_bind_ok. destruct (Hm _ _ _ H1) as [q ->].
  destruct (Hf _ _ _ _ H2) as [q' ->]. by exists q'.
Qed.

Lemma draws_map {A B} (f : A -> sp B) l : (forall a, draws (f a)) -> draws (sp_map f l).
Proof.
  intros Hf. induction l as [|a l IH]; cbn; [apply draws_ret|]. apply draws_bind; [done|]. intros b.
  apply draws_bind; [done|]. intros bs. apply draws_ret.
Qed.

Lemma sp_map_length {A B} (f : A -> sp B) l s bs s' : sp_map f l s = Ok (bs, s') -> length bs = length l.
Proof. revert s bs s'; induction l as [|a l IH]; intros s bs s' H; cbn in H; sp_inv; [done|]. cbn. by erewrite IH. Qed.

(** A statement that only reads. *)
Lemma sp_map_reads {A B} (f : A -> sp B) (P : A -> B -> Prop) l s bs s' :
  (forall a b s1, f a s = Ok (b, s1) -> s1 = s /\ P a b) ->
  sp_map f l s = Ok (bs, s') -> s' = s /\ Forall2 P l bs.
Proof.
  intros Hf. revert bs s'; induction l as [|a l IH]; intros bs s' H; cbn in H; sp_inv; [by split; [|constructor]|].
  apply Hf in H0 as [-> HP]. apply IH in H1 as [-> HPs]. by split; [|constructor].
Qed.

(** ** The transaction *)

(** The transaction that answers a repeated request. *)
Definition replayed (tx : TransactionJson) (op : OperationKind) (s : LedgerTables) (id : uuid) : Prop :=
  exists t, find_transaction (pt_tenant_id tx) op (pt_idempotency_key tx) s = Some t /\
            lt_request_hash t = pt_request_hash tx /\ id = lt_ledger_transaction_id t.

Lemma unless_replayed_spec tx op k s id s' :
  unless_replayed tx op k s = Ok (id, s') ->
  (replayed tx op s id /\ s' = s) \/
  (find_transaction (pt_tenant_id tx) op (pt_idempotency_key tx) s = None /\ k s = Ok (id, s')).
Proof.
  unfold unless_replayed. intros H. sp_inv. destruct (find_transaction _ _ _ _) as [t|] eqn:Ht; [left|by right].
  sp_inv. split; [|done]. exists t. by apply String.eqb_eq in H0.
Qed.

(** No transaction has the row's id. *)
Definition fresh_id (id : uuid) (s : LedgerTables) : Prop :=
  forall t, t ∈ ledger_transactions s -> lt_ledger_transaction_id t <> id.

Lemma insert_transaction_spec row s b s' :
  insert_transaction row s = Ok (b, s') ->
  if b then find_transaction (lt_tenant_id row) (lt_operation_kind row) (lt_idempotency_key row) s = None /\
            fresh_id (lt_ledger_transaction_id row) s /\
            s' = with_transactions (row :: ledger_transactions s) s
  else s' = s.
Proof.
  unfold insert_transaction. intros H. sp_inv. destruct (find_transaction _ _ _ _) eqn:Ht; sp_inv; [done|].
  destruct (existsb _ _) eqn:He; sp_inv. split; [done|]. split; [|done]. intros t Hin Heq.
  apply (existsb_none _ _ _ He) in Hin. by rewrite bool_decide_true in Hin.
Qed.

Lemma post_or_replay_spec tx row k s id s' :
  lt_tenant_id row = pt_tenant_id tx -> lt_idempotency_key row = pt_idempotency_key tx ->
  post_or_replay tx row k s = Ok (id, s') ->
  (replayed tx (lt_operation_kind row) s id /\ s' = s) \/
  (find_transaction (pt_tenant_id tx) (lt_operation_kind row) (pt_idempotency_key tx) s = None /\
   fresh_id (lt_ledger_transaction_id row) s /\
   k (with_transactions (row :: ledger_transactions s) s) = Ok (id, s')).
Proof.
  intros Ht Hk. unfold post_or_replay. intros H. sp_inv. apply insert_transaction_spec in H0.
  rewrite Ht, Hk in H0. destruct a; [right; by destruct H0 as (? & ? & ->)|]. subst.
  left. by apply unless_replayed_spec in H as [?|[_ ?]].
Qed.

(** ** The entries *)

Lemma insert_entry_spec e s u s' :
  insert_entry e s = Ok (u, s') -> 0 <= le_amount_atomic e /\ s' = with_entries (e :: ledger_entries s) s.
Proof. unfold insert_entry. intros H. destruct (_ <? _) eqn:?; sp_inv. split; [blia|done]. Qed.

(** ** The audit row *)

(** What the audit keys allow. *)
Record audit_fits (now : Z) (tx : TransactionJson) (op : OperationKind) (row : OutboxJson) (s : LedgerTables) : Prop := {
  af_free : audit_outbox_global_keys s !! pt_audit_decision_event_id tx = None;
  af_decision : forall id k, audit_outbox_global_keys s !! id = Some k ->
    ~ (ag_tenant_id k = pt_tenant_id tx /\ ag_decision_id k = pt_decision_id tx /\
       ag_event_type k = oj_event_type row);
  af_sequence : forall id k, audit_outbox_global_keys s !! id = Some k ->
    ~ (ag_tenant_id k = pt_tenant_id tx /\ ag_workload_instance_id k = pt_workload_instance_id tx /\
       ag_producer_sequence k = oj_producer_sequence row);
  af_type : oj_event_type row = AUDIT_DECISION \/ oj_event_type row = AUDIT_OUTCOME;
}.

Lemma unique_in_month_ok index row same s u s' : unique_in_month index row same s = Ok (u, s') -> s' = s.
Proof. unfold unique_in_month. intros H. sp_inv. by destruct (existsb _ _); sp_inv. Qed.

Lemma no_global_key_ok index same s u s' :
  no_global_key index same s = Ok (u, s') ->
  s' = s /\ forall id k, audit_outbox_global_keys s !! id = Some k -> same k = false.
Proof.
  unfold no_global_key. intros H. sp_inv. destruct (existsb _ _) eqn:He; sp_inv. split; [done|].
  intros id k Hk. apply (existsb_none _ _ (id, k) He). by apply elem_of_map_to_list.
Qed.

Lemma record_audit_spec now tx op row s u s' :
  record_audit month_of mirror_prediction_columns now tx op row s = Ok (u, s') ->
  audit_fits now tx op row s /\
  s' = with_outbox (outbox_row month_of now tx row :: audit_outbox s)
         (<[pt_audit_decision_event_id tx := global_key month_of now tx op row]> (audit_outbox_global_keys s)) s.
Proof.
  unfold record_audit, insert_outbox_row, insert_audit_key. intros H. sp_inv.
  repeat match goal with
  | H : unique_in_month _ _ _ _ = Ok _ |- _ => apply unique_in_month_ok in H as ->
  | H : no_global_key _ _ _ = Ok _ |- _ => apply no_global_key_ok in H as [-> ?]
  end. cbn in *. split; [|done].
  constructor; cbn; [done|..].
  - intros id k Hk (Ha & Hb & Hc).
    match goal with Hx : forall i k, _ -> _ && (ag_event_type k =?s _) = false |- _ => specialize (Hx _ _ Hk) end.
    by rewrite Ha, Hb, Hc, String.eqb_refl, !bool_decide_true in *.
  - intros id k Hk (Ha & Hb & Hc).
    match goal with Hx : forall i k, _ -> _ && (ag_producer_sequence k =? _) = false |- _ => specialize (Hx _ _ Hk) end.
    by rewrite Ha, Hb, Hc, String.eqb_refl, Z.eqb_refl, bool_decide_true in *.
  - match goal with H : _ || _ = true |- _ => apply orb_true_iff in H as [?%String.eqb_eq|?%String.eqb_eq] end; auto.
Qed.

(** ** A posting *)

(** The tables with a transaction, its entries and its audit row. *)
Definition posting (q : gmap Z Z) (t : LedgerTransaction) (new : list LedgerEntry) (r : AuditOutboxRow)
    (k : AuditGlobalKey) (s : LedgerTables) : LedgerTables :=
  with_outbox (r :: audit_outbox s) (<[lt_audit_decision_event_id t := k]> (audit_outbox_global_keys s))
    (with_entries (new ++ ledger_entries s)
       (with_transactions (t :: ledger_transactions s) (with_sequences q s))).

(** The lease that the posting was made under. *)
Record fence_held (now : Z) (scope tenant : uuid) (workload : string) (epoch : Z) (f : FencingScope)
    (s : LedgerTables) : Prop := {
  fh_found : fencing_scopes s !! scope = Some f;
  fh_tenant : fs_tenant_id f = tenant;
  fh_owner : fs_active_owner_instance_id f = Some workload;
  fh_running : forall ttl, fs_ttl_expires_at f = Some ttl -> now < ttl;
  fh_epoch : fs_current_epoch f = epoch;
  fh_nonzero : epoch <> 0;
}.

Lemma check_fence_spec now scope tenant workload epoch s f s' :
  check_fence now scope tenant workload epoch s = Ok (f, s') ->
  s' = s /\ fence_held now scope tenant workload epoch f s.
Proof.
  unfold check_fence. intros H. sp_inv. destruct (fencing_scopes _ !! scope) as [c|] eqn:Hc; [|done]. sp_inv.
  split; [done|]. repeat match goal with H : bool_decide _ = true |- _ => apply bool_decide_eq_true in H end.
  constructor; try done; try blia. intros ttl Httl. rewrite Httl in *. blia.
Qed.

(** Every posting: who made it, under which key and lease. *)
Record posted (now : Z) (tx : TransactionJson) (op : OperationKind) (outbox : OutboxJson)
    (t : LedgerTransaction) (s : LedgerTables) : Prop := {
  pd_key : find_transaction (pt_tenant_id tx) op (pt_idempotency_key tx) s = None;
  pd_id : fresh_id (pt_ledger_transaction_id tx) s;
  pd_row : exists effective_at token, t = transaction_row now tx op (lt_fencing_scope_id t) effective_at token;
  pd_scope : pg_uuid (pt_fencing_scope_id tx) = Some (lt_fencing_scope_id t);
  pd_fence : exists f, fence_held now (lt_fencing_scope_id t) (pt_tenant_id tx) (pt_workload_instance_id tx)
                        (pt_fencing_epoch tx) f s;
  pd_audit : audit_fits now tx op outbox s;
}.

Lemma audit_fits_same now tx op row s s' :
  audit_outbox_global_keys s' = audit_outbox_global_keys s ->
  audit_fits now tx op row s -> audit_fits now tx op row s'.
Proof. intros He [? ? ? ?]. constructor; rewrite ?He; done. Qed.

(** The tables after a posting, up to the changes of its own. *)
Definition post (now : Z) (tx : TransactionJson) (op : OperationKind) (outbox : OutboxJson) (q : gmap Z Z)
    (t : LedgerTransaction) (new : list LedgerEntry) (s : LedgerTables) : LedgerTables :=
  posting q t new (outbox_row month_of now tx outbox) (global_key month_of now tx op outbox) s.

(** ** Balances *)

Lemma elem_of_dedup {A} `{EqDecision A} (l : list A) a : a ∈ dedup_by l <-> a ∈ l.
Proof.
  induction l as [|b l IH]; cbn; [done|]. case_bool_decide as Hb; rewrite ?elem_of_cons, IH; [|done].
  split; [by right|]. by intros [->|?].
Qed.

Lemma net_app P l l' : net P (l ++ l') = net P l + net P l'.
Proof. induction l as [|e l IH]; cbn; [done|]. rewrite IH. lia. Qed.

Lemma net_none P l : (forall e, e ∈ l -> P e = false) -> net P l = 0.
Proof.
  induction l as [|e l IH]; intros HP; cbn; [done|]. rewrite HP by (by left). rewrite IH; [done|].
  intros e' ?. apply HP. by right.
Qed.

Lemma net_ext P Q l : (forall e, e ∈ l -> P e = Q e) -> net P l = net Q l.
Proof.
  induction l as [|e l IH]; intros HP; cbn; [done|]. rewrite HP by (by left). rewrite IH; [done|].
  intros e' ?. apply HP. by right.
Qed.

Lemma net_filter P Q l : net P (List.filter Q l) = net (fun e => Q e && P e) l.
Proof. induction l as [|e l IH]; cbn; [done|]. destruct (Q e); cbn; by rewrite IH. Qed.

Lemma assert_balance_spec id s u s' :
  assert_per_unit_balance_now id s = Ok (u, s') ->
  s' = s /\ forall v, net (fun e => of_transaction id e && of_unit v e) (ledger_entries s) = 0.
Proof.
  unfold assert_per_unit_balance_now.
  intros (l & s1 & [= <- <-] & [H ->]%check_ok)%sp_bind_ok. split; [done|]. intros v.
  apply bool_decide_eq_true in H. rewrite <- net_filter.
  destruct (net (of_unit v) (List.filter (of_transaction id) (ledger_entries s)) =? 0) eqn:Hv; [by apply Z.eqb_eq|].
  assert (Hin : v ∈ imbalanced_units id s); [|rewrite H in Hin; by apply elem_of_nil in Hin].
  unfold imbalanced_units. apply list_elem_of_In, filter_In. split; [|by rewrite Hv].
  apply list_elem_of_In, elem_of_dedup.
  destruct (decide (v ∈ le_unit_id <$> List.filter (of_transaction id) (ledger_entries s))) as [?|Hno]; [done|].
  apply Z.eqb_neq in Hv. destruct Hv. apply net_none. intros e He. apply bool_decide_eq_false. intros Hu.
  apply Hno, list_elem_of_fmap. by exists e.
Qed.

Lemma assert_floor_spec id s u s' :
  assert_available_budget_floor id s = Ok (u, s') ->
  s' = s /\ forall a, account_kind_of a s = Some AvailableBudget ->
    net (fun e => of_transaction id e && of_account a e) (ledger_entries s) < 0 -> 0 <= account_balance a s.
Proof.
  unfold assert_available_budget_floor.
  intros (l & s1 & [= <- <-] & [H ->]%check_ok)%sp_bind_ok. split; [done|]. intros a Ha Hneg.
  apply bool_decide_eq_true, fmap_nil_inv in H. destruct (Z.le_gt_cases 0 (account_balance a s)) as [?|Hlow]; [done|].
  assert (Hin : a ∈ exhausted_accounts id s); [|rewrite H in Hin; by apply elem_of_nil in Hin].
  unfold exhausted_accounts. rewrite <- net_filter in Hneg.
  apply list_elem_of_In, filter_In. split; [apply list_elem_of_In, elem_of_dedup|].
  - destruct (decide (a ∈ le_ledger_account_id <$> List.filter (of_transaction id) (ledger_entries s))) as [?|Hno]; [done|].
    rewrite net_none in Hneg; [done|]. intros e He. apply bool_decide_eq_false. intros Hu.
    apply Hno, list_elem_of_fmap. by exists e.
  - rewrite bool_decide_true by done. cbn. apply andb_true_iff. by split; apply Z.ltb_lt.
Qed.

(** ** [post_ledger_transaction] *)

(** The entry that an element of [p_entries] became. *)
Record entry_of (tx : TransactionJson) (s : LedgerTables) (x : EntryJson) (e : LedgerEntry) : Prop := {
  eo_transaction : le_ledger_transaction_id e = pt_ledger_transaction_id tx;
  eo_tenant : le_tenant_id e = pt_tenant_id tx;
  eo_budget : pg_uuid (ej_budget_id x) = Some (le_budget_id e);
  eo_window : pg_uuid (ej_window_instance_id x) = Some (le_window_instance_id e);
  eo_unit : pg_uuid (ej_unit_id x) = Some (le_unit_id e);
  eo_account : find_account (pt_tenant_id tx) (le_budget_id e) (le_window_instance_id e) (le_unit_id e)
                 (ej_account_kind x) s = Some (le_ledger_account_id e);
  eo_direction : le_direction e = ej_direction x;
  eo_amount : pg_numeric38 (ej_amount_atomic x) = Some (le_amount_atomic e);
  eo_nonneg : 0 <= le_amount_atomic e;
  eo_pricing : le_pricing e = ej_pricing x;
  eo_reservation : le_reservation_id e = ej_reservation_id x;
}.

Lemma insert_resolved_each now tx effective_at l s u s' :
  sp_each (insert_resolved now tx effective_at) l s = Ok (u, s') ->
  exists new, s' = with_entries (new ++ ledger_entries s) s /\
    Forall2 (fun x e => exists account, re_ledger_account_id x.1 = Some account /\
                        e = post_entry now tx effective_at x account /\ 0 <= re_amount_atomic x.1) l (rev new).
Proof.
  revert s; induction l as [|x l IH]; intros s H; cbn in H.
  { injection H as _ <-. exists []. split; [by destruct s|constructor]. }
  apply sp_bind_ok in H as (v & s1 & H1 & H). unfold insert_resolved in H1.
  destruct (re_ledger_account_id x.1) as [account|] eqn:Ha; [|done].
  apply insert_entry_spec in H1 as [Hge ->]. destruct (IH _ H) as (new & -> & HF).
  exists (new ++ [post_entry now tx effective_at x account]). cbn [ledger_entries with_entries].
  rewrite <- app_assoc. split; [done|]. rewrite rev_app_distr. cbn. constructor; [|done]. by exists account.
Qed.

(** An element that was resolved. *)
Definition resolved_as (tenant : uuid) (s : LedgerTables) (x : EntryJson) (r : ResolvedEntry) : Prop :=
  re_entry r = x /\ pg_uuid (ej_budget_id x) = Some (re_budget_id r) /\
  pg_uuid (ej_window_instance_id x) = Some (re_window_instance_id r) /\
  pg_uuid (ej_unit_id x) = Some (re_unit_id r) /\
  pg_numeric38 (ej_amount_atomic x) = Some (re_amount_atomic r) /\
  re_ledger_account_id r =
    find_account tenant (re_budget_id r) (re_window_instance_id r) (re_unit_id r) (ej_account_kind x) s.

Lemma resolve_entry_spec tenant x r s s' :
  resolve_entry tenant x s = Ok (r, s') -> s' = s /\ resolved_as tenant s x r.
Proof. unfold resolve_entry. intros H. sp_inv. done. Qed.

Lemma resolve_entries_spec tenant xs rs s s' :
  sp_map (resolve_entry tenant) xs s = Ok (rs, s') -> s' = s /\ Forall2 (resolved_as tenant s) xs rs.
Proof.
  revert rs s'; induction xs as [|x xs IH]; intros rs s' H; cbn in H; [injection H as <- <-; by split|].
  apply sp_bind_ok in H as (r & s1 & [-> Hr]%resolve_entry_spec & H).
  apply sp_bind_ok in H as (rs' & s1 & [-> Hrs]%IH & H). injection H as <- <-. by split; [|constructor].
Qed.

(** What the reservations of a request add. *)
Definition reserves (tx : TransactionJson) (rows : list ReservationJson) (res res' : gmap uuid ReservationRow) : Prop :=
  (forall id r, res !! id = Some r -> res' !! id = Some r) /\
  (forall id r, res' !! id = Some r -> res !! id = Some r \/
     (res !! id = None /\ id ∈ rj_reservation_id <$> rows /\ rn_tenant_id r = pt_tenant_id tx /\
      rn_current_state r = Reserved /\ rn_source_ledger_transaction_id r = pt_ledger_transaction_id tx)) /\
  (forall id, id ∈ rj_reservation_id <$> rows -> is_Some (res' !! id)).

Lemma with_reservations_same (s : LedgerTables) : with_reservations (reservations s) s = s.
Proof. by destruct s. Qed.

Lemma insert_reservations_spec tx rows s u s' :
  sp_each (insert_reservation tx) rows s = Ok (u, s') ->
  exists res, s' = with_reservations res s /\ reserves tx rows (reservations s) res.
Proof.
  revert s; induction rows as [|r rows IH]; intros s H; cbn in H.
  { injection H as _ <-. exists (reservations s). rewrite with_reservations_same. split; [done|].
    split; [done|]. split; [by left|]. by intros id ?%elem_of_nil. }
  apply sp_bind_ok in H as (v & s1 & H1 & H). unfold insert_reservation in H1.
  destruct (IH _ H) as (res & -> & Hkeep & Hnew & Hall).
  assert (Hs1 : exists res1, s1 = with_reservations res1 s /\ reserves tx [r] (reservations s) res1).
  { apply sp_bind_ok in H1 as (b & s2 & [_ ->]%cast_ok & H1). apply sp_bind_ok in H1 as (w & s2 & [_ ->]%cast_ok & H1).
    apply sp_bind_ok in H1 as (ttl & s2 & [_ ->]%cast_ok & H1).
    apply sp_bind_ok in H1 as (o & s2 & [= <- <-] & H1). cbv beta in H1.
    destruct (reservations s !! rj_reservation_id r) as [old|] eqn:Hold; injection H1 as _ <-.
    - exists (reservations s). rewrite with_reservations_same. split; [done|]. split; [done|]. split; [by left|].
      intros id ->%list_elem_of_singleton. by eexists.
    - eexists. split; [done|]. split; [|split].
      + intros id old Hid. by rewrite lookup_insert_ne by congruence.
      + intros id row. rewrite lookup_insert_Some. intros [[<- <-]|[_ ?]]; [right|by left].
        split; [done|]. split; [by left|done].
      + intros id ->%list_elem_of_singleton. by rewrite lookup_insert_eq. }
  destruct Hs1 as (res1 & -> & Hk1 & Hn1 & Ha1). exists res. split; [done|]. cbn in *. split; [|split].
  - eauto.
  - intros id row [Hid|(Hno & Hin & Hrest)]%Hnew.
    + destruct (Hn1 _ _ Hid) as [?|(Hno & Hin & ?)]; [by left|right]. split; [done|].
      split; [|done]. apply list_elem_of_singleton in Hin as ->. by left.
    + right. split; [|split; [by right|done]]. destruct (reservations s !! id) as [old|] eqn:Hold; [|done].
      by rewrite (Hk1 _ _ Hold) in Hno.
  - intros id [->|Hin]%elem_of_cons; [|by apply Hall].
    destruct (Ha1 (rj_reservation_id r)) as [row Hrow]; [by left|]. exists row. by apply Hkeep.
Qed.

(** What [post_ledger_transaction] posts. *)
Record ledger_posted (now : Z) (op : OperationKind) (tx : TransactionJson) (entries : list EntryJson)
    (rows : list ReservationJson) (outbox : OutboxJson) (t : LedgerTransaction) (new : list LedgerEntry)
    (res : gmap uuid ReservationRow) (s : LedgerTables) : Prop := {
  lp_posted : posted now tx op outbox t s;
  lp_entries : Forall2 (entry_of tx s) entries (rev new);
  lp_priced : forall x, x ∈ entries -> ps_price_snapshot_hash <$> pricing_snapshots s !! px_pricing_version (ej_pricing x)
                                       = Some (px_price_snapshot_hash (ej_pricing x));
  lp_balanced : forall u, net (fun e => of_transaction (pt_ledger_transaction_id tx) e && of_unit u e)
                              (new ++ ledger_entries s) = 0;
  lp_floor : forall a, account_kind_of a s = Some AvailableBudget ->
    net (fun e => of_transaction (pt_ledger_transaction_id tx) e && of_account a e) (new ++ ledger_entries s) < 0 ->
    0 <= net (of_account a) (new ++ ledger_entries s);
  lp_reservations : reserves tx rows (reservations s) res;
}.

Lemma unknown_pricing_nil tenant s xs rs :
  Forall2 (resolved_as tenant s) xs rs -> unknown_pricing rs s = [] ->
  forall x, x ∈ xs -> ps_price_snapshot_hash <$> pricing_snapshots s !! px_pricing_version (ej_pricing x)
                      = Some (px_price_snapshot_hash (ej_pricing x)).
Proof.
  intros HF Hun x Hx. destruct (Forall2_elem_l _ _ _ _ HF Hx) as (r & Hr & Hre & _).
  destruct (bool_decide (ps_price_snapshot_hash <$> pricing_snapshots s !! (pricing_key r).1 = Some (pricing_key r).2))
    eqn:Hb; [by apply bool_decide_eq_true in Hb; rewrite <- Hre|].
  assert (Hin : pricing_key r ∈ unknown_pricing rs s); [|rewrite Hun in Hin; by apply elem_of_nil in Hin].
  apply list_elem_of_In, filter_In. rewrite Hb. split; [|done].
  apply list_elem_of_In, elem_of_dedup, list_elem_of_fmap. by exists r.
Qed.

Lemma post_ledger_transaction_spec now op tx entries rows outbox token s id s' :
  post_ledger_transaction month_of mirror_prediction_columns now op tx entries rows outbox token s = Ok (id, s') ->
  (replayed tx op s id /\ s' = s) \/
  exists q t new res, id = pt_ledger_transaction_id tx /\
    s' = with_reservations res (post now tx op outbox q t new s) /\
    ledger_posted now op tx entries rows outbox t new res s.
Proof.
  unfold post_ledger_transaction. intros H. apply sp_bind_ok in H as (scope & s1 & [Hscope ->]%cast_ok & H).
  apply sp_bind_ok in H as (effective_at & s1 & [_ ->]%cast_ok & H).
  apply unless_replayed_spec in H as [?|[Hkey H]]; [by left|right].
  apply sp_bind_ok in H as (f & s1 & [-> Hf]%check_fence_spec & H).
  apply sp_bind_ok in H as (u1 & s1 & Hty & H).
  assert (s1 = s) as ->. { unfold check_scope_type in Hty. destruct op; by sp_inv. }
  apply sp_bind_ok in H as (u2 & s1 & [_ ->]%check_ok & H).
  apply sp_bind_ok in H as (rs & s1 & [-> Hrs]%resolve_entries_spec & H). cbv zeta in H.
  apply sp_bind_ok in H as (u3 & s1 & [_ ->]%check_ok & H).
  apply sp_bind_ok in H as (un & s1 & [= <- <-] & H).
  apply sp_bind_ok in H as (u4 & s1 & [Hun%bool_decide_eq_true ->]%check_ok & H).
  apply sp_bind_ok in H as (u5 & s1 & [_ ->]%check_ok & H).
  apply sp_bind_ok in H as (seqs & s1 & Hseq & H).
  pose proof (sp_map_length _ _ _ _ _ Hseq) as Hlen.
  destruct (draws_map _ _ (fun r => draws_nextval (ej_ledger_shard_id (re_entry r))) _ _ _ Hseq) as [q ->].
  apply post_or_replay_spec in H as [([t [Ht _]] & _)|(_ & Hid & H)]; [| |done..].
  { exfalso. change (find_transaction (pt_tenant_id tx) op (pt_idempotency_key tx) s = Some t) in Ht. congruence. }
  apply sp_bind_ok in H as (u6 & s1 & (new & -> & Hnew)%insert_resolved_each & H).
  apply sp_bind_ok in H as (u7 & s1 & [-> Hbal]%assert_balance_spec & H).
  apply sp_bind_ok in H as (u8 & s1 & [-> Hfloor]%assert_floor_spec & H).
  apply sp_bind_ok in H as (u9 & s1 & [Haud ->]%record_audit_spec & H).
  apply sp_bind_ok in H as (u10 & s1 & (res & -> & Hres)%insert_reservations_spec & H).
  injection H as <- <-. cbn in *. exists q, (transaction_row now tx op scope effective_at (derived_lock_token rs)), new, res.
  split; [done|]. split; [reflexivity|].
  constructor; try done.
  - constructor; try done; [by eexists _, _|by exists f|by eapply audit_fits_same, Haud].
  - clear -Hrs Hnew Hlen. revert seqs Hlen Hnew. generalize (rev new) as l.
    induction Hrs as [|x r xs rs Hr _ IH]; intros l seqs Hlen Hnew.
    { cbn in Hnew. by inversion Hnew. }
    destruct seqs as [|z seqs]; [done|]. cbn in Hnew. inversion Hnew as [|? e ? l' (acct & Ha & -> & Hge) Hl]; subst.
    constructor; [|by eapply IH; [|exact Hl]; injection Hlen].
    destruct Hr as (<- & ? & ? & ? & ? & Hacc). cbn in *. constructor; try done. cbn. by rewrite <- Hacc.
  - by eapply unknown_pricing_nil.
Qed.

(** ** Settling a reservation *)

(** An entry that moves an amount of a reservation, from or to an account. *)
Record settles (tx : TransactionJson) (reserve : LedgerEntry * Account) (reservation : uuid)
    (m : uuid * Direction * Z) (e : LedgerEntry) : Prop := {
  st_transaction : le_ledger_transaction_id e = pt_ledger_transaction_id tx;
  st_account : le_ledger_account_id e = m.1.1;
  st_tenant : le_tenant_id e = pt_tenant_id tx;
  st_budget : le_budget_id e = la_budget_id reserve.2;
  st_window : le_window_instance_id e = le_window_instance_id reserve.1;
  st_unit : le_unit_id e = la_unit_id reserve.2;
  st_direction : le_direction e = m.1.2;
  st_amount : le_amount_atomic e = m.2;
  st_nonneg : 0 <= le_amount_atomic e;
  st_pricing : le_pricing e = le_pricing reserve.1;
  st_reservation : le_reservation_id e = Some reservation;
}.

Lemma settle_entry_settles now tx effective_at reserve reservation kind account direction amount shard seq :
  0 <= amount ->
  settles tx reserve reservation (account, direction, amount)
    (settle_entry now tx effective_at reserve reservation kind account direction amount shard seq).
Proof. by constructor. Qed.

(** The account of a kind beside the one that a reservation credited. *)
Definition beside (tenant : uuid) (reserve : LedgerEntry * Account) (kind : AccountKind) (id : uuid)
    (s : LedgerTables) : Prop :=
  find_account tenant (la_budget_id reserve.2) (le_window_instance_id reserve.1) (la_unit_id reserve.2) kind s
  = Some id.

Lemma account_beside_spec tenant reserve kind s id s' :
  account_beside tenant reserve kind s = Ok (id, s') -> s' = s /\ beside tenant reserve kind id s.
Proof.
  unfold account_beside, beside. destruct reserve as [e a]. cbn.
  intros (o & s1 & [= <- <-] & H)%sp_bind_ok. by destruct (find_account _ _ _ _ _ _); [injection H as -> ->|].
Qed.

Lemma reserve_entry_spec tenant reservation code msg s r s' :
  reserve_entry tenant reservation code msg s = Ok (r, s') ->
  s' = s /\ r ∈ reserve_entries tenant reservation s.
Proof.
  unfold reserve_entry. intros (o & s1 & [= <- <-] & H)%sp_bind_ok.
  pose proof (pg_limit1_spec (reserve_entries tenant reservation s)) as Hl.
  destruct (pg_limit1 _); [|done]. by injection H as <- <-.
Qed.

Lemma check_unit_spec tx reserve s u s' :
  check_unit tx reserve s = Ok (u, s') ->
  s' = s /\ forall text, pt_unit_id tx = Some text -> pg_uuid text = Some (la_unit_id reserve.2).
Proof.
  unfold check_unit. destruct (pt_unit_id tx) as [text|]; [|intros [= _ <-]; by split].
  intros (v & s1 & [Hv ->]%cast_ok & [Hb%bool_decide_eq_true ->]%check_ok)%sp_bind_ok. split; [done|].
  intros text' [= <-]. by rewrite Hv, Hb.
Qed.

Lemma leave_reserved_spec tenant id st s u s' :
  leave_reserved tenant id st s = Ok (u, s') ->
  exists r, find_reservation tenant id s = Some r /\ rn_current_state r = Reserved /\
            s' = with_reservations (<[id := with_state st r]> (reservations s)) s.
Proof.
  unfold leave_reserved. intros (o & s1 & [= <- <-] & H)%sp_bind_ok.
  destruct (find_reservation tenant id s) as [r|]; [|done]. case_bool_decide; [|done].
  injection H as _ <-. by exists r.
Qed.

(** ** [post_commit_estimated_transaction] *)

Definition commit_moves (hold spend available : uuid) (estimated residual : Z) : list (uuid * Direction * Z) :=
  [(hold, Debit, estimated); (spend, Credit, estimated)]
  ++ (if 0 <? residual then [(hold, Debit, residual); (available, Credit, residual)] else []).

Lemma insert_commit_entries_spec (entry : uuid -> Direction -> Z -> Z -> LedgerEntry)
    (P : uuid * Direction * Z -> LedgerEntry -> Prop) hold spend available estimated residual seqs s u s' :
  (forall a d z q, le_amount_atomic (entry a d z q) = z) ->
  (forall a d z q, 0 <= z -> P (a, d, z) (entry a d z q)) ->
  insert_commit_entries entry hold spend available estimated residual seqs s = Ok (u, s') ->
  exists new, s' = with_entries (new ++ ledger_entries s) s /\
              Forall2 P (commit_moves hold spend available estimated residual) (rev new).
Proof.
  intros Hz HP. unfold insert_commit_entries, commit_moves. destruct seqs as [[[a b] c] d].
  intros (u1 & s1 & [H1 ->]%insert_entry_spec & H)%sp_bind_ok.
  apply sp_bind_ok in H as (u2 & s1 & [H2 ->]%insert_entry_spec & H). rewrite Hz in H1, H2.
  destruct (0 <? residual).
  - apply sp_bind_ok in H as (u3 & s1 & [H3 ->]%insert_entry_spec & [H4 ->]%insert_entry_spec).
    rewrite Hz in H3, H4. eexists [_; _; _; _]. split; [reflexivity|]. cbn. repeat constructor; auto.
  - injection H as _ <-. eexists [_; _]. split; [reflexivity|]. cbn. repeat constructor; auto.
Qed.

Record commit_posted (now : Z) (tx : TransactionJson) (reservation : uuid) (estimated : Z) (pricing : Pricing)
    (outbox : OutboxJson) (t : LedgerTransaction) (new : list LedgerEntry) (row : ReservationRow)
    (reserve : LedgerEntry * Account) (s : LedgerTables) : Prop := {
  cp_posted : posted now tx OpCommitEstimated outbox t s;
  cp_row : find_reservation (pt_tenant_id tx) reservation s = Some row;
  cp_reserved : rn_current_state row = Reserved;
  cp_ttl : now < rn_ttl_expires_at row;
  cp_reserve : reserve ∈ reserve_entries (pt_tenant_id tx) reservation s;
  cp_pricing : pricing = le_pricing reserve.1;
  cp_unit : forall text, pt_unit_id tx = Some text -> pg_uuid text = Some (la_unit_id reserve.2);
  cp_amount : 0 < estimated <= le_amount_atomic reserve.1;
  cp_moves : exists hold spend available,
    beside (pt_tenant_id tx) reserve ReservedHold hold s /\ beside (pt_tenant_id tx) reserve CommittedSpend spend s /\
    (estimated < le_amount_atomic reserve.1 -> beside (pt_tenant_id tx) reserve AvailableBudget available s) /\
    Forall2 (settles tx reserve reservation)
      (commit_moves hold spend available estimated (le_amount_atomic reserve.1 - estimated)) (rev new);
  cp_balanced : forall u, net (fun e => of_transaction (pt_ledger_transaction_id tx) e && of_unit u e)
                              (new ++ ledger_entries s) = 0;
}.

(** The commit row of the reservation. *)
Definition commit_row (tx : TransactionJson) (reservation : uuid) (estimated : Z) (reserve : LedgerEntry * Account)
    : CommitRow :=
  {| cm_reservation_id := reservation; cm_tenant_id := pt_tenant_id tx; cm_budget_id := la_budget_id reserve.2;
     cm_unit_id := la_unit_id reserve.2; cm_latest_state := Estimated;
     cm_estimated_amount_atomic := estimated; cm_provider_reported_amount_atomic := None;
     cm_delta_to_reserved_atomic := estimated - le_amount_atomic reserve.1;
     cm_pricing_version := px_pricing_version (le_pricing reserve.1);
     cm_price_snapshot_hash := px_price_snapshot_hash (le_pricing reserve.1) |}.

Lemma insert_commit_spec row s u s' :
  cm_latest_state row = Estimated -> insert_commit row s = Ok (u, s') ->
  exists c, s' = with_commits (<[derive_commit_id (cm_reservation_id row) := c]> (commits s)) s /\
            cm_estimated_amount_atomic c = cm_estimated_amount_atomic row /\ cm_latest_state c = Estimated.
Proof.
  unfold insert_commit. intros Hrow (o & s1 & [= <- <-] & H)%sp_bind_ok.
  destruct (commits s !! _) as [c|] eqn:Hc; [|injection H as _ <-; by exists row].
  apply check_ok in H as [[? ?%bool_decide_eq_true]%andb_true_iff ->]. exists c.
  rewrite insert_id by done. split; [by destruct s|]. split; [blia|done].
Qed.

(** Draws taken when they are needed. *)
Lemma draws_if {A} (b : bool) (m m' : sp A) : draws m -> draws m' -> draws (if b then m else m').
Proof. by destruct b. Qed.

Lemma post_commit_estimated_spec now tx reservation text pricing outbox s id s' :
  post_commit_estimated_transaction month_of mirror_prediction_columns now tx reservation text pricing outbox s
    = Ok (id, s') ->
  exists estimated, pg_numeric text = Some estimated /\
  ((replayed tx OpCommitEstimated s id /\ s' = s) \/
   exists q t new row reserve c, id = pt_ledger_transaction_id tx /\
     s' = with_commits (<[derive_commit_id reservation := c]> (commits s))
            (with_reservations (<[reservation := with_state Committed row]> (reservations s))
               (post now tx OpCommitEstimated outbox q t new s)) /\
     cm_estimated_amount_atomic c = estimated /\ cm_latest_state c = Estimated /\
     commit_posted now tx reservation estimated pricing outbox t new row reserve s).
Proof.
  unfold post_commit_estimated_transaction.
  intros (estimated & s1 & [Hest ->]%cast_ok & H)%sp_bind_ok. exists estimated. split; [done|].
  apply sp_bind_ok in H as (scope & s1 & [Hscope ->]%cast_ok & H).
  apply sp_bind_ok in H as (effective_at & s1 & [_ ->]%cast_ok & H). cbv zeta in H.
  apply unless_replayed_spec in H as [?|[Hkey H]]; [by left|right].
  apply sp_bind_ok in H as (f & s1 & [-> Hf]%check_fence_spec & H).
  apply sp_bind_ok in H as (u1 & s1 & [_ ->]%check_ok & H).
  apply sp_bind_ok in H as (o & s1 & [= <- <-] & H).
  apply sp_bind_ok in H as (row & s1 & [Hrow ->]%found_ok & H).
  apply sp_bind_ok in H as (u2 & s1 & [Hst%bool_decide_eq_true ->]%check_ok & H).
  apply sp_bind_ok in H as (u3 & s1 & [Httl ->]%check_ok & H).
  apply sp_bind_ok in H as (reserve & s1 & [-> Hres]%reserve_entry_spec & H).
  apply sp_bind_ok in H as (u4 & s1 & [Hpr%bool_decide_eq_true ->]%check_ok & H).
  apply sp_bind_ok in H as (u5 & s1 & [-> Hunit]%check_unit_spec & H).
  apply sp_bind_ok in H as (u6 & s1 & [Hpos ->]%check_ok & H).
  apply sp_bind_ok in H as (u7 & s1 & [Hle ->]%check_ok & H).
  apply sp_bind_ok in H as (hold & s1 & [-> Hhold]%account_beside_spec & H).
  apply sp_bind_ok in H as (spend & s1 & [-> Hspend]%account_beside_spec & H).
  apply sp_bind_ok in H as (available & s1 & Hav & H).
  assert (s1 = s /\ (0 < le_amount_atomic reserve.1 - estimated ->
            beside (pt_tenant_id tx) reserve AvailableBudget available s)) as [-> Hav'].
  { destruct (0 <? le_amount_atomic reserve.1 - estimated) eqn:Hr; [by apply account_beside_spec in Hav as [-> ?]|].
    injection Hav as _ <-. split; [done|]. blia. }
  apply sp_bind_ok in H as (a & s1 & [q1 ->]%nextval_spec & H).
  apply sp_bind_ok in H as (b & s1 & [q2 ->]%nextval_spec & H). rewrite with_sequences_twice in H.
  apply sp_bind_ok in H as (c & s1 & Hc & H).
  apply (draws_if _ _ _ (draws_nextval v_shard_id) (draws_ret 0)) in Hc as [q3 ->]. rewrite with_sequences_twice in H.
  apply sp_bind_ok in H as (d & s1 & Hd & H).
  apply (draws_if _ _ _ (draws_nextval v_shard_id) (draws_ret 0)) in Hd as [q ->]. rewrite with_sequences_twice in H.
  apply post_or_replay_spec in H as [([t [Ht _]] & _)|(_ & Hid & H)]; [| |done..].
  { exfalso. change (find_transaction (pt_tenant_id tx) OpCommitEstimated (pt_idempotency_key tx) s = Some t) in Ht.
    congruence. }
  apply sp_bind_ok in H as (u8 & s1 & H8 & H).
  apply (insert_commit_entries_spec _ (settles tx reserve reservation)) in H8 as (new & -> & Hnew);
    [|done|intros; by apply settle_entry_settles].
  apply sp_bind_ok in H as (u9 & s1 & [-> Hbal]%assert_balance_spec & H).
  apply sp_bind_ok in H as (u10 & s1 & [Haud ->]%record_audit_spec & H).
  apply sp_bind_ok in H as (u11 & s1 & (row' & Hrow' & _ & ->)%leave_reserved_spec & H).
  change (find_reservation (pt_tenant_id tx) reservation s = Some row') in Hrow'.
  rewrite Hrow in Hrow'. injection Hrow' as <-.
  apply sp_bind_ok in H as (u12 & s1 & (cr & -> & Hcr)%insert_commit_spec & H); [|done].
  injection H as <- <-. cbn in *. b2p.
  eexists q, (transaction_row now tx OpCommitEstimated scope effective_at _), new, row, reserve, cr.
  split; [done|]. split; [reflexivity|]. split; [apply Hcr|]. split; [apply Hcr|].
  constructor; try done.
  - constructor; try done; [by eexists _, _|by exists f|by eapply audit_fits_same, Haud].
  - exists hold, spend, available. split; [done|]. split; [done|]. split; [|done]. intros ?. apply Hav'. lia.
Qed.

(** ** [post_release_transaction] *)

Definition release_moves (hold available : uuid) (amount : Z) : list (uuid * Direction * Z) :=
  [(hold, Debit, amount); (available, Credit, amount)].

Record release_posted (now : Z) (tx : TransactionJson) (reason : string) (outbox : OutboxJson)
    (t : LedgerTransaction) (new : list LedgerEntry) (reservation : uuid) (row : ReservationRow)
    (reserve : LedgerEntry * Account) (s : LedgerTables) : Prop := {
  rp_posted : posted now tx OpRelease outbox t s;
  rp_row : find_reservation (pt_tenant_id tx) reservation s = Some row;
  rp_only : exists source, source ∈ reserve_transactions (pt_tenant_id tx) (pt_decision_id tx) s /\
              reservations_of (pt_tenant_id tx) source s = [(reservation, row)];
  rp_reserved : rn_current_state row = Reserved;
  rp_ttl : reason = "TTL_EXPIRED" -> rn_ttl_expires_at row <= now;
  rp_reserve : reserve ∈ reserve_entries (pt_tenant_id tx) reservation s;
  rp_moves : exists hold available,
    beside (pt_tenant_id tx) reserve ReservedHold hold s /\ beside (pt_tenant_id tx) reserve AvailableBudget available s /\
    Forall2 (settles tx reserve reservation) (release_moves hold available (le_amount_atomic reserve.1)) (rev new);
  rp_balanced : forall u, net (fun e => of_transaction (pt_ledger_transaction_id tx) e && of_unit u e)
                              (new ++ ledger_entries s) = 0;
}.

Lemma reservation_of_decision_spec tenant decision s r s' :
  reservation_of_decision tenant decision s = Ok (r, s') ->
  s' = s /\ exists source, source ∈ reserve_transactions tenant decision s /\
                           reservations_of tenant source s = [r].
Proof.
  unfold reservation_of_decision. intros (o & s1 & [= <- <-] & H)%sp_bind_ok.
  apply sp_bind_ok in H as (source & s1 & [Hsrc ->]%found_ok & H).
  apply sp_bind_ok in H as (l & s1 & [= <- <-] & H).
  pose proof (pg_limit1_spec (reserve_transactions tenant decision s)) as Hl. rewrite Hsrc in Hl.
  destruct (reservations_of tenant source s) as [|r1 [|r2 l]] eqn:Hr; [done| |done].
  injection H as <- <-. split; [done|]. by exists source.
Qed.

Lemma reservations_of_found tenant source s id row :
  (id, row) ∈ reservations_of tenant source s -> find_reservation tenant id s = Some row.
Proof.
  intros [Hin Hb]%list_elem_of_In%filter_In. apply list_elem_of_In, elem_of_map_to_list in Hin.
  apply andb_true_iff in Hb as [Ht%bool_decide_eq_true _]. unfold find_reservation. rewrite Hin.
  by rewrite bool_decide_true.
Qed.

Lemma post_release_spec now tx set reason outbox s id s' :
  post_release_transaction month_of mirror_prediction_columns now tx set reason outbox s = Ok (id, s') ->
  (replayed tx OpRelease s id /\ s' = s) \/
  exists q t new reservation row reserve, id = pt_ledger_transaction_id tx /\
    s' = with_reservations (<[reservation := with_state ReleasedState row]> (reservations s))
           (post now tx OpRelease outbox q t new s) /\
    release_posted now tx reason outbox t new reservation row reserve s.
Proof.
  unfold post_release_transaction. intros (scope & s1 & [Hscope ->]%cast_ok & H)%sp_bind_ok.
  apply sp_bind_ok in H as (effective_at & s1 & [_ ->]%cast_ok & H). cbv zeta in H.
  apply unless_replayed_spec in H as [?|[Hkey H]]; [by left|].
  apply sp_bind_ok in H as (f & s1 & [-> Hf]%check_fence_spec & H).
  apply sp_bind_ok in H as (u1 & s1 & H1 & H).
  assert (s1 = s) as ->. { destruct (reason =?s "TTL_EXPIRED"); by apply check_ok in H1 as [_ ->]. }
  apply unless_replayed_spec in H as [?|[_ H]]; [by left|right].
  apply sp_bind_ok in H as ([reservation row] & s1 & [-> (source & Hsrc & Honly)]%reservation_of_decision_spec & H).
  apply sp_bind_ok in H as (u2 & s1 & [Hst%bool_decide_eq_true ->]%check_ok & H).
  apply sp_bind_ok in H as (u3 & s1 & [Httl ->]%check_ok & H).
  apply sp_bind_ok in H as (reserve & s1 & [-> Hres]%reserve_entry_spec & H).
  apply sp_bind_ok in H as (hold & s1 & [-> Hhold]%account_beside_spec & H).
  apply sp_bind_ok in H as (available & s1 & [-> Hav]%account_beside_spec & H).
  apply sp_bind_ok in H as (a & s1 & [q1 ->]%nextval_spec & H).
  apply sp_bind_ok in H as (b & s1 & [q ->]%nextval_spec & H). rewrite with_sequences_twice in H.
  apply post_or_replay_spec in H as [([t [Ht _]] & _)|(_ & Hid & H)]; [| |done..].
  { exfalso. change (find_transaction (pt_tenant_id tx) OpRelease (pt_idempotency_key tx) s = Some t) in Ht.
    congruence. }
  apply sp_bind_ok in H as (u4 & s1 & [Hge ->]%insert_entry_spec & H).
  apply sp_bind_ok in H as (u5 & s1 & [_ ->]%insert_entry_spec & H).
  apply sp_bind_ok in H as (u9 & s1 & [-> Hbal]%assert_balance_spec & H).
  apply sp_bind_ok in H as (u10 & s1 & [Haud ->]%record_audit_spec & H).
  apply sp_bind_ok in H as (u11 & s1 & (row' & Hrow' & _ & ->)%leave_reserved_spec & H).
  assert (Hrow : find_reservation (pt_tenant_id tx) reservation s = Some row).
  { apply (reservations_of_found _ source). rewrite Honly. by left. }
  change (find_reservation (pt_tenant_id tx) reservation s = Some row') in Hrow'.
  rewrite Hrow in Hrow'. injection Hrow' as <-. injection H as <- <-. cbn in *.
  eexists q, (transaction_row now tx OpRelease scope effective_at _), [_; _], reservation, row, reserve.
  split; [done|]. split; [reflexivity|]. constructor; try done.
  - constructor; try done; [by eexists _, _|by exists f|by eapply audit_fits_same, Haud].
  - by exists source.
  - intros ->. cbn in Httl. blia.
  - exists hold, available. split; [done|]. split; [done|]. cbn. repeat constructor; done.
Qed.

(** ** [post_denied_decision_transaction] *)

Lemma key_used_by_reserve_spec tx msg s u s' :
  key_used_by_reserve tx msg s = Ok (u, s') ->
  s' = s /\ find_transaction (pt_tenant_id tx) OpReserve (pt_idempotency_key tx) s = None.
Proof.
  unfold key_used_by_reserve. intros (o & s1 & [= <- <-] & [Hb ->]%check_ok)%sp_bind_ok. split; [done|].
  destruct (find_transaction _ _ _ _); [|done]. by rewrite bool_decide_true in Hb by done.
Qed.

Lemma post_denied_decision_spec now tx outbox s id s' :
  post_denied_decision_transaction month_of mirror_prediction_columns now tx outbox s = Ok (id, s') ->
  (replayed tx OpDeniedDecision s id /\ s' = s) \/
  exists t, id = pt_ledger_transaction_id tx /\
    s' = post now tx OpDeniedDecision outbox (ledger_sequence_allocators s) t [] s /\
    posted now tx OpDeniedDecision outbox t s /\
    find_transaction (pt_tenant_id tx) OpReserve (pt_idempotency_key tx) s = None.
Proof.
  unfold post_denied_decision_transaction. intros (scope & s1 & [Hscope ->]%cast_ok & H)%sp_bind_ok.
  apply sp_bind_ok in H as (effective_at & s1 & [_ ->]%cast_ok & H).
  apply unless_replayed_spec in H as [?|[Hkey H]]; [by left|].
  apply sp_bind_ok in H as (u1 & s1 & [-> Hno]%key_used_by_reserve_spec & H).
  apply sp_bind_ok in H as (f & s1 & [-> Hf]%check_fence_spec & H).
  apply sp_bind_ok in H as (u2 & s1 & [_ ->]%check_ok & H).
  apply unless_replayed_spec in H as [?|[_ H]]; [by left|right].
  apply sp_bind_ok in H as (u3 & s1 & [-> _]%key_used_by_reserve_spec & H).
  apply post_or_replay_spec in H as [([t [Ht _]] & _)|(_ & Hid & H)]; [| |done..].
  { exfalso. cbn in Ht. congruence. }
  apply sp_bind_ok in H as (u10 & s1 & [Haud ->]%record_audit_spec & H). injection H as <- <-.
  exists (transaction_row now tx OpDeniedDecision scope effective_at (pt_lock_order_token tx)).
  split; [done|]. split; [by destruct s|]. split; [|done].
  constructor; try done; [by eexists _, _|by exists f|by eapply audit_fits_same, Haud].
Qed.

(** ** [post_provider_reported_transaction] *)

Definition delta_moves (spend available : uuid) (delta : Z) : list (uuid * Direction * Z) :=
  if delta =? 0 then []
  else if 0 <? delta then [(available, Debit, delta); (spend, Credit, delta)]
  else [(spend, Debit, - delta); (available, Credit, - delta)].

Record report_posted (now : Z) (tx : TransactionJson) (reservation : uuid) (amount : Z) (pricing : Pricing)
    (outbox : OutboxJson) (t : LedgerTransaction) (new : list LedgerEntry) (row : ReservationRow)
    (reserve : LedgerEntry * Account) (commit_id : uuid) (commit : CommitRow) (s : LedgerTables) : Prop := {
  vp_posted : posted now tx OpProviderReport outbox t s;
  vp_row : find_reservation (pt_tenant_id tx) reservation s = Some row;
  vp_committed : rn_current_state row = Committed;
  vp_commit : commits s !! commit_id = Some commit;
  vp_tenant : cm_tenant_id commit = pt_tenant_id tx;
  vp_reservation : cm_reservation_id commit = reservation;
  vp_estimated : cm_latest_state commit = Estimated;
  vp_reserve : reserve ∈ reserve_entries (pt_tenant_id tx) reservation s;
  vp_pricing : pricing = le_pricing reserve.1;
  vp_amount : 0 < amount <= le_amount_atomic reserve.1;
  vp_moves : exists spend available,
    (amount <> cm_estimated_amount_atomic commit ->
     beside (pt_tenant_id tx) reserve CommittedSpend spend s /\
     beside (pt_tenant_id tx) reserve AvailableBudget available s) /\
    Forall2 (settles tx reserve reservation)
      (delta_moves spend available (amount - cm_estimated_amount_atomic commit)) (rev new);
  vp_balanced : forall u, net (fun e => of_transaction (pt_ledger_transaction_id tx) e && of_unit u e)
                              (new ++ ledger_entries s) = 0;
}.

(** The accounts a difference moves between. *)
Definition moved_between (tx : TransactionJson) (reserve : LedgerEntry * Account) (moved : option (uuid * uuid * Z * Z))
    (delta : Z) (s : LedgerTables) : Prop :=
  match moved with
  | None => delta = 0
  | Some (spend, available, _, _) =>
      delta <> 0 /\ beside (pt_tenant_id tx) reserve CommittedSpend spend s /\
      beside (pt_tenant_id tx) reserve AvailableBudget available s
  end.

Lemma moved_spec tx reserve delta s moved s' :
  (if delta =? 0 then mret None
   else
     spend ← account_beside (pt_tenant_id tx) reserve CommittedSpend;
     available ← account_beside (pt_tenant_id tx) reserve AvailableBudget;
     a ← nextval_per_shard v_shard_id;
     b ← nextval_per_shard v_shard_id;
     mret (Some (spend, available, a, b))) s = Ok (moved, s') ->
  exists q, s' = with_sequences q s /\ moved_between tx reserve moved delta s.
Proof.
  destruct (delta =? 0) eqn:Hd; intros H.
  { injection H as <- <-. exists (ledger_sequence_allocators s). rewrite with_sequences_same. split; [done|].
    by apply Z.eqb_eq. }
  apply sp_bind_ok in H as (spend & s1 & [-> Hs]%account_beside_spec & H).
  apply sp_bind_ok in H as (available & s1 & [-> Ha]%account_beside_spec & H).
  apply sp_bind_ok in H as (a & s1 & [q1 ->]%nextval_spec & H).
  apply sp_bind_ok in H as (b & s1 & [q ->]%nextval_spec & H). injection H as <- <-.
  exists q. split; [done|]. split; [blia|done].
Qed.

Lemma insert_delta_spec (entry : uuid -> Direction -> Z -> Z -> LedgerEntry) tx reserve reservation moved delta s0 s u s' :
  (forall a d z q, le_amount_atomic (entry a d z q) = z) ->
  (forall a d z q, 0 <= z -> settles tx reserve reservation (a, d, z) (entry a d z q)) ->
  moved_between tx reserve moved delta s0 ->
  insert_delta_entries entry moved delta s = Ok (u, s') ->
  exists new spend available, s' = with_entries (new ++ ledger_entries s) s /\
    (delta <> 0 -> beside (pt_tenant_id tx) reserve CommittedSpend spend s0 /\
                   beside (pt_tenant_id tx) reserve AvailableBudget available s0) /\
    Forall2 (settles tx reserve reservation) (delta_moves spend available delta) (rev new).
Proof.
  intros Hz HP Hm. unfold insert_delta_entries, delta_moves. destruct moved as [[[[spend available] a] b]|].
  - destruct Hm as (Hne & Hm). destruct (delta =? 0) eqn:Hd; [blia|]. destruct (0 <? delta) eqn:Hp;
      intros (u1 & s1 & [H1 ->]%insert_entry_spec & [H2 ->]%insert_entry_spec)%sp_bind_ok;
      rewrite Hz in H1, H2; eexists [_; _], spend, available; (split; [reflexivity|]); (split; [done|]); cbn;
      (constructor; [apply HP; lia|]; constructor; [apply HP; lia|]; constructor).
  - cbn in Hm. subst delta. intros [= _ <-]. exists [], uuid_nil, uuid_nil. split; [by destruct s|].
    split; [done|]. constructor.
Qed.

Lemma post_provider_reported_spec now tx reservation text pricing outbox s id s' :
  post_provider_reported_transaction month_of mirror_prediction_columns now tx reservation text pricing outbox s
    = Ok (id, s') ->
  exists amount, pg_numeric text = Some amount /\
  ((replayed tx OpProviderReport s id /\ s' = s) \/
   exists q t new row reserve commit_id commit, id = pt_ledger_transaction_id tx /\
     s' = with_commits (<[commit_id := provider_reported amount (le_amount_atomic reserve.1) commit]> (commits s))
            (post now tx OpProviderReport outbox q t new s) /\
     report_posted now tx reservation amount pricing outbox t new row reserve commit_id commit s).
Proof.
  unfold post_provider_reported_transaction.
  intros (amount & s1 & [Hamt ->]%cast_ok & H)%sp_bind_ok. exists amount. split; [done|].
  apply sp_bind_ok in H as (scope & s1 & [Hscope ->]%cast_ok & H).
  apply sp_bind_ok in H as (effective_at & s1 & [_ ->]%cast_ok & H). cbv zeta in H.
  apply unless_replayed_spec in H as [?|[Hkey H]]; [by left|].
  apply sp_bind_ok in H as (f & s1 & [-> Hf]%check_fence_spec & H).
  apply sp_bind_ok in H as (u1 & s1 & [_ ->]%check_ok & H).
  apply unless_replayed_spec in H as [?|[_ H]]; [by left|right].
  apply sp_bind_ok in H as (o & s1 & [= <- <-] & H).
  apply sp_bind_ok in H as (row & s1 & [Hrow ->]%found_ok & H).
  apply sp_bind_ok in H as (u2 & s1 & [Hst%bool_decide_eq_true ->]%check_ok & H).
  apply sp_bind_ok in H as (o & s1 & [= <- <-] & H).
  apply sp_bind_ok in H as ([commit_id commit] & s1 & [Hc ->]%found_ok & H).
  pose proof (pg_limit1_spec (commits_of (pt_tenant_id tx) reservation s)) as Hin. rewrite Hc in Hin.
  apply list_elem_of_In, filter_In in Hin as [Hin [Hct%bool_decide_eq_true Hcr%bool_decide_eq_true]%andb_true_iff].
  apply list_elem_of_In, elem_of_map_to_list in Hin. cbn in Hct, Hcr.
  apply sp_bind_ok in H as (u3 & s1 & [Hest%bool_decide_eq_true ->]%check_ok & H).
  apply sp_bind_ok in H as (reserve & s1 & [-> Hres]%reserve_entry_spec & H).
  apply sp_bind_ok in H as (u5 & s1 & [-> _]%check_unit_spec & H).
  apply sp_bind_ok in H as (u4 & s1 & [Hpr%bool_decide_eq_true ->]%check_ok & H).
  apply sp_bind_ok in H as (u6 & s1 & [Hpos ->]%check_ok & H). cbv zeta in H.
  apply sp_bind_ok in H as (u7 & s1 & [Hle ->]%check_ok & H).
  apply sp_bind_ok in H as (moved & s1 & (q & -> & Hm)%moved_spec & H).
  apply post_or_replay_spec in H as [([t [Ht _]] & _)|(_ & Hid & H)]; [| |done..].
  { exfalso. change (find_transaction (pt_tenant_id tx) OpProviderReport (pt_idempotency_key tx) s = Some t) in Ht.
    congruence. }
  apply sp_bind_ok in H as (u8 & s1 & H8 & H).
  apply (insert_delta_spec _ tx reserve reservation moved _ s) in H8 as (new & spend & available & -> & Hb & Hnew);
    [|done|intros; by apply settle_entry_settles|done].
  apply sp_bind_ok in H as (u9 & s1 & [-> Hbal]%assert_balance_spec & H).
  apply sp_bind_ok in H as (u10 & s1 & [Haud ->]%record_audit_spec & H).
  apply sp_bind_ok in H as (u11 & s1 & [= <- <-] & H). injection H as <- <-. cbn in *. b2p.
  eexists q, (transaction_row now tx OpProviderReport scope effective_at _), new, row, reserve, commit_id, commit.
  split; [done|]. split; [reflexivity|]. constructor; try done.
  - constructor; try done; [by eexists _, _|by exists f|by eapply audit_fits_same, Haud].
  - exists spend, available. split; [|done]. intros ?. apply Hb. lia.
Qed.

(** ** Approvals and leases *)

(** The tables but for the approvals. *)
Lemma post_approval_required_spec now fresh tx outbox ctx eff ttl s r s' :
  post_approval_required_decision month_of mirror_prediction_columns now fresh tx outbox ctx eff ttl s = Ok (r, s') ->
  exists s1, post_denied_decision_transaction month_of mirror_prediction_columns now tx outbox s
             = Ok (po_ledger_transaction_id r, s1) /\
    if po_was_first_insert r then
      find_approval (pt_tenant_id tx) (pt_decision_id tx) s1 = None /\ approval_requests s1 !! fresh = None /\
      po_approval_id r = fresh /\
      s' = with_approvals (<[fresh :=
        {| ap_tenant_id := pt_tenant_id tx; ap_decision_id := pt_decision_id tx;
           ap_audit_decision_event_id := pt_audit_decision_event_id tx; ap_state := Pending;
           ap_ttl_expires_at := now + secs ttl; ap_approver_policy := JObj []; ap_requested_effect := eff;
           ap_decision_context := ctx; ap_resolved_at := None; ap_resolved_by_subject := None;
           ap_resolution_reason := None; ap_created_at := now; ap_bundled_ledger_transaction_id := None |}]>
        (approval_requests s1)) (approval_events s1) s1
    else (exists a, find_approval (pt_tenant_id tx) (pt_decision_id tx) s1 = Some (po_approval_id r, a)) /\ s' = s1.
Proof.
  unfold post_approval_required_decision. intros (tx_id & s1 & H1 & H)%sp_bind_ok.
  apply sp_bind_ok in H as (o & s2 & [= <- <-] & H).
  destruct (find_approval (pt_tenant_id tx) (pt_decision_id tx) s1) as [[aid a]|] eqn:Ha.
  { injection H as <- <-. exists s1. split; [done|]. cbn. split; [by exists a|done]. }
  apply sp_bind_ok in H as (u1 & s2 & [_ ->]%constraint_ok & H).
  apply sp_bind_ok in H as (o & s2 & [= <- <-] & H).
  apply sp_bind_ok in H as (u2 & s2 & [Hfree ->]%free_ok & H).
  apply sp_bind_ok in H as (u3 & s2 & [= <- <-] & H). injection H as <- <-. exists s1. by split.
Qed.

(** What a lease call may do to the scopes. *)
Lemma acquire_fencing_lease_spec now scope tenant workload ttl force audit s r s' :
  acquire_fencing_lease now scope tenant workload ttl force audit s = Ok (r, s') ->
  exists f, fencing_scopes s !! scope = Some f /\ fs_tenant_id f = tenant /\
    if lr_granted r then
      s' = with_scopes
             (<[scope := with_lease (lr_new_epoch r) (Some workload) (lr_expires_at r) f]> (fencing_scopes s))
             ({| fe_fencing_scope_id := scope; fe_old_epoch := fs_current_epoch f; fe_new_epoch := lr_new_epoch r;
                 fe_owner_instance_id := workload; fe_action := lr_action r; fe_audit_event_id := audit |}
              :: fencing_scope_events s) s /\
      lr_expires_at r = Some (now + secs ttl) /\
      (lr_new_epoch r = fs_current_epoch f /\ fs_active_owner_instance_id f = Some workload /\
         lease_running now f = true \/
       lr_new_epoch r = fs_current_epoch f + 1 /\ lr_new_epoch r <= i64_max)
    else s' = s /\ lr_new_epoch r = fs_current_epoch f /\ lease_running now f = true /\
         fs_active_owner_instance_id f <> Some workload.
Proof.
  unfold acquire_fencing_lease. intros (u1 & s1 & [_ ->]%check_ok & H)%sp_bind_ok.
  apply sp_bind_ok in H as (u2 & s1 & [_ ->]%check_ok & H).
  apply sp_bind_ok in H as (o & s1 & [= <- <-] & H).
  destruct (fencing_scopes s !! scope) as [f|]; [|done]. exists f. split; [done|].
  apply sp_bind_ok in H as (u3 & s1 & [Ht%bool_decide_eq_true ->]%check_ok & H). split; [done|]. cbv zeta in H.
  destruct (bool_decide (fs_active_owner_instance_id f = Some workload) && lease_running now f) eqn:Hmine.
  { unfold grant_lease in H. apply sp_bind_ok in H as (u4 & s1 & [= <- <-] & H). injection H as <- <-.
    apply andb_true_iff in Hmine as [?%bool_decide_eq_true ?]. cbn. split; [done|]. split; [done|]. by left. }
  destruct (negb (lease_running now f) || _ || force) eqn:Hfree.
  { apply sp_bind_ok in H as (u4 & s1 & [Hmax ->]%check_ok & H). unfold grant_lease in H.
    apply sp_bind_ok in H as (u5 & s1 & [= <- <-] & H). injection H as <- <-. cbn. split; [done|].
    split; [done|]. right. blia. }
  injection H as <- <-. cbn. apply orb_false_iff in Hfree as [[Hrun%negb_false_iff _]%orb_false_iff _].
  split; [done|]. split; [done|]. split; [done|]. rewrite Hrun, andb_true_r in Hmine.
  by apply bool_decide_eq_false in Hmine.
Qed.

End Posting.
