(* ===== verification/Books.v ===== *)
(** * The books of the ledger

    The invariant of the ledger's tables and what keeps it: accounts, transactions
    and idempotency keys are unique; every entry is on an account of its own budget;
    every transaction balances, by unit, and has its audit row and its audit key; the
    entries of a budget sum to zero over its accounts; a hold is paid out at most
    once, after its reservation was settled; a scope's transactions carry its epochs
    in order, one holder to an epoch. [available], [held], [spent] and [funded] are
    the balances of a budget. *)

From S2P Require Import Prelude Floats Deps Effects Proto Canonical Ingest Outbox LedgerDb Posting.

Section Books.
Context `{HU : UuidLib} `{HI : BigIntLib} `{HC : CryptoLib} `{HY : !UuidBytes} `{HG : !PgLib}.
Context (month_of : Z -> Z) (mirror_prediction_columns : string -> json -> Z -> result SqlError unit).

(** ** Budgets and their accounts *)

(** A tenant's budget in a window, in a unit. *)
Record Budget := {
  bg_tenant : uuid;
  bg_budget : uuid;
  bg_window : uuid;
  bg_unit : uuid;
}.
#[export] Instance budget_eq_dec : EqDecision Budget.
Proof. solve_decision. Defined.

Definition budget_of_account (a : Account) : Budget :=
  {| bg_tenant := la_tenant_id a; bg_budget := la_budget_id a; bg_window := la_window_instance_id a;
     bg_unit := la_unit_id a |}.
Definition budget_of_entry (e : LedgerEntry) : Budget :=
  {| bg_tenant := le_tenant_id e; bg_budget := le_budget_id e; bg_window := le_window_instance_id e;
     bg_unit := le_unit_id e |}.

Definition of_budget (b : Budget) (e : LedgerEntry) : bool := bool_decide (budget_of_entry e = b).
Definition of_reservation (r : option uuid) (e : LedgerEntry) : bool := bool_decide (le_reservation_id e = r).

Definition account_of (b : Budget) (kind : AccountKind) (s : LedgerTables) : option uuid :=
  find_account (bg_tenant b) (bg_budget b) (bg_window b) (bg_unit b) kind s.

(** The balance of a budget's account of a kind. *)
Definition balance (b : Budget) (kind : AccountKind) (s : LedgerTables) : Z :=
  from_option (fun id => account_balance id s) 0 (account_of b kind s).

Definition available (b : Budget) (s : LedgerTables) : Z := balance b AvailableBudget s.
Definition held (b : Budget) (s : LedgerTables) : Z := balance b ReservedHold s.
Definition spent (b : Budget) (s : LedgerTables) : Z := balance b CommittedSpend s.
(** What was deposited: the debits of the adjustment account. *)
Definition funded (b : Budget) (s : LedgerTables) : Z := - balance b Adjustment s.

(** ** The invariant *)

(** The kinds of account that the modelled procedures use. *)
Definition used (k : AccountKind) : Prop :=
  k = AvailableBudget \/ k = ReservedHold \/ k = CommittedSpend \/ k = Adjustment.

(** The reservation that an entry is for has left the state [reserved]. *)
Definition settled (res : gmap uuid ReservationRow) (e : LedgerEntry) : Prop :=
  exists id r, le_reservation_id e = Some id /\ res !! id = Some r /\ rn_tenant_id r = le_tenant_id e /\
               rn_current_state r <> Reserved.

(** An entry on an account of its budget. *)
Definition entry_on (e : LedgerEntry) (a : Account) (s : LedgerTables) : Prop :=
  a ∈ ledger_accounts s /\ la_ledger_account_id a = le_ledger_account_id e /\
  budget_of_account a = budget_of_entry e /\ used (la_account_kind a).

Record entry_sound (e : LedgerEntry) (s : LedgerTables) : Prop := {
  es_amount : 0 <= le_amount_atomic e;
  es_transaction : exists t, t ∈ ledger_transactions s /\
                     lt_ledger_transaction_id t = le_ledger_transaction_id e /\ lt_tenant_id t = le_tenant_id e;
  es_account : exists a, entry_on e a s /\
    (la_account_kind a = ReservedHold -> le_direction e = Debit -> settled (reservations s) e);
}.

Definition account_key (a : Account) : Budget * AccountKind := (budget_of_account a, la_account_kind a).
Definition transaction_key (t : LedgerTransaction) : uuid * OperationKind * string :=
  (lt_tenant_id t, lt_operation_kind t, lt_idempotency_key t).

(** The audit row of a transaction, and its key. *)
Definition audit_of (t : LedgerTransaction) (r : AuditOutboxRow) (s : LedgerTables) : Prop :=
  r ∈ audit_outbox s /\ ao_ledger_transaction_id r = lt_ledger_transaction_id t /\
  ao_tenant_id r = lt_tenant_id t /\ ao_decision_id r = lt_decision_id t /\
  ao_audit_decision_event_id r = lt_audit_decision_event_id t /\
  ao_ledger_fencing_epoch r = lt_fencing_epoch_at_post t /\
  exists k, audit_outbox_global_keys s !! lt_audit_decision_event_id t = Some k /\
    ag_audit_outbox_id k = or_audit_outbox_id (ao_row r) /\ ag_tenant_id k = lt_tenant_id t /\
    ag_decision_id k = lt_decision_id t /\ ag_event_type k = or_event_type (ao_row r) /\
    ag_operation_kind k = lt_operation_kind t.

(** The lease that a transaction was posted under: its epoch is not past, and who
    holds the epoch made it. *)
Definition fenced (t : LedgerTransaction) (r : AuditOutboxRow) (s : LedgerTables) : Prop :=
  exists f, fencing_scopes s !! lt_fencing_scope_id t = Some f /\ fs_tenant_id f = lt_tenant_id t /\
    lt_fencing_epoch_at_post t <= fs_current_epoch f /\
    (lt_fencing_epoch_at_post t = fs_current_epoch f ->
     fs_active_owner_instance_id f = Some (ao_workload_instance_id r)).

(** The newest transaction of a scope has the highest epoch. *)
Fixpoint in_epoch_order (l : list LedgerTransaction) : Prop :=
  match l with
  | [] => True
  | t :: l => (forall t', t' ∈ l -> lt_fencing_scope_id t' = lt_fencing_scope_id t ->
                          lt_fencing_epoch_at_post t' <= lt_fencing_epoch_at_post t) /\ in_epoch_order l
  end.

(** One holder to an epoch of a scope. *)
Definition one_holder (s : LedgerTables) : Prop :=
  forall t1 r1 t2 r2, t1 ∈ ledger_transactions s -> t2 ∈ ledger_transactions s ->
    audit_of t1 r1 s -> audit_of t2 r2 s -> lt_fencing_scope_id t1 = lt_fencing_scope_id t2 ->
    lt_fencing_epoch_at_post t1 = lt_fencing_epoch_at_post t2 ->
    ao_workload_instance_id r1 = ao_workload_instance_id r2.

(** One decision event and one outcome event to a decision of a tenant. *)
Definition keys_unique (keys : gmap uuid AuditGlobalKey) : Prop :=
  forall i j k l, keys !! i = Some k -> keys !! j = Some l -> ag_tenant_id k = ag_tenant_id l ->
    ag_decision_id k = ag_decision_id l -> ag_event_type k = ag_event_type l -> i = j.

Record books (s : LedgerTables) : Prop := {
  bk_account_ids : NoDup (la_ledger_account_id <$> ledger_accounts s);
  bk_account_keys : NoDup (account_key <$> ledger_accounts s);
  bk_transaction_ids : NoDup (lt_ledger_transaction_id <$> ledger_transactions s);
  bk_transaction_keys : NoDup (transaction_key <$> ledger_transactions s);
  bk_entries : forall e, e ∈ ledger_entries s -> entry_sound e s;
  bk_balanced : forall id u, net (fun e => of_transaction id e && of_unit u e) (ledger_entries s) = 0;
  bk_conserved : forall b, net (of_budget b) (ledger_entries s) = 0;
  bk_holds : forall a r, a ∈ ledger_accounts s -> la_account_kind a = ReservedHold ->
    0 <= net (fun e => of_account (la_ledger_account_id a) e && of_reservation r e) (ledger_entries s);
  bk_audit : forall t, t ∈ ledger_transactions s -> exists r, audit_of t r s;
  bk_outbox : forall r, r ∈ audit_outbox s -> exists t, t ∈ ledger_transactions s /\ audit_of t r s;
  bk_audit_keys : keys_unique (audit_outbox_global_keys s);
  bk_fenced : forall t r, t ∈ ledger_transactions s -> audit_of t r s -> fenced t r s;
  bk_epochs : in_epoch_order (ledger_transactions s);
  bk_holder : one_holder s;
}.

(** Available budget is never overdrawn. *)
Definition floor (s : LedgerTables) : Prop :=
  forall a, a ∈ ledger_accounts s -> la_account_kind a = AvailableBudget ->
            0 <= account_balance (la_ledger_account_id a) s.

(** ** Accounts *)

Lemma find_key {A B} `{EqDecision B} (f : A -> B) (l : list A) a :
  NoDup (f <$> l) -> a ∈ l -> find (fun x => bool_decide (f x = f a)) l = Some a.
Proof.
  induction l as [|b l IH]; [by intros _ ?%elem_of_nil|]. rewrite fmap_cons, NoDup_cons. intros [Hno Hnd] Hin. cbn.
  case_bool_decide as Hb; [|apply elem_of_cons in Hin as [->|Hin]; [done|auto]].
  apply elem_of_cons in Hin as [->|Hin]; [done|]. destruct Hno. rewrite Hb. apply list_elem_of_fmap. by exists a.
Qed.

Lemma find_same {A} (f g : A -> bool) l : (forall x, f x = g x) -> find f l = find g l.
Proof. intros Hfg. induction l as [|a l IH]; cbn; [done|]. by rewrite Hfg, IH. Qed.

Lemma NoDup_key {A B} (f : A -> B) (l : list A) a b : NoDup (f <$> l) -> a ∈ l -> b ∈ l -> f a = f b -> a = b.
Proof.
  induction l as [|c l IH]; [by intros _ ?%elem_of_nil|]. rewrite fmap_cons, NoDup_cons. intros [Hno Hnd].
  rewrite !elem_of_cons. intros [->|Ha] [->|Hb] Hf; [done|..|auto];
    destruct Hno; [rewrite Hf|rewrite <- Hf]; apply list_elem_of_fmap; eauto.
Qed.

Lemma account_of_elem b kind s id :
  account_of b kind s = Some id ->
  exists a, a ∈ ledger_accounts s /\ la_ledger_account_id a = id /\ budget_of_account a = b /\ la_account_kind a = kind.
Proof.
  unfold account_of, find_account. destruct (find _ _) as [a|] eqn:Hf; [|done]. intros [= <-].
  apply List.find_some in Hf as [Hin Hb]. exists a. split; [by apply list_elem_of_In|]. split; [done|].
  rewrite !andb_true_iff, !bool_decide_eq_true in Hb. destruct Hb as ((((? & ?) & ?) & ?) & ?).
  split; [|done]. destruct b; cbn in *. unfold budget_of_account. by subst.
Qed.

Lemma account_of_intro s a :
  NoDup (account_key <$> ledger_accounts s) -> a ∈ ledger_accounts s ->
  account_of (budget_of_account a) (la_account_kind a) s = Some (la_ledger_account_id a).
Proof.
  intros Hnd Hin. pose proof (find_key account_key _ a Hnd Hin) as Hf. unfold account_of, find_account.
  erewrite find_same; [by rewrite Hf|]. intros x. cbn. unfold account_key, budget_of_account.
  apply eq_bool_prop_intro. rewrite !Is_true_true, !andb_true_iff, !bool_decide_eq_true. split.
  - by intros ((((<- & <-) & <-) & <-) & <-).
  - by intros [= <- <- <- <- <-].
Qed.

Lemma account_kind_of_elem s a :
  NoDup (la_ledger_account_id <$> ledger_accounts s) -> a ∈ ledger_accounts s ->
  account_kind_of (la_ledger_account_id a) s = Some (la_account_kind a).
Proof. intros Hnd Hin. unfold account_kind_of. by rewrite find_key. Qed.

(** The account of an entry is the only one it can be on. *)
Lemma entry_on_unique e a a' s :
  NoDup (la_ledger_account_id <$> ledger_accounts s) -> entry_on e a s -> entry_on e a' s -> a = a'.
Proof. intros Hnd (Ha & Hid & _) (Ha' & Hid' & _). apply (NoDup_key _ _ _ _ Hnd Ha Ha'). congruence. Qed.

(** ** Balances *)

Lemma net_cases P Q l : net P l = net (fun e => P e && Q e) l + net (fun e => P e && negb (Q e)) l.
Proof. induction l as [|e l IH]; cbn; [done|]. rewrite IH. destruct (P e), (Q e); cbn; lia. Qed.

Lemma filter_length_lt {A} (f : A -> bool) l a : a ∈ l -> f a = false -> (length (List.filter f l) < length l)%nat.
Proof.
  induction l as [|b l IH]; [by intros ?%elem_of_nil|]. intros Hin Ha. cbn. pose proof (filter_length_le f l).
  apply elem_of_cons in Hin as [->|Hin]; [rewrite Ha; lia|]. specialize (IH Hin Ha). destruct (f b); cbn; lia.
Qed.

(** A sum is not negative when its groups are not. *)
Lemma net_groups {B} `{EqDecision B} (g : LedgerEntry -> B) P l :
  (forall r, 0 <= net (fun e => P e && bool_decide (g e = r)) l) -> 0 <= net P l.
Proof.
  remember (length l) as n eqn:Hn. revert l Hn. induction (lt_wf n) as [n _ IH]. intros l -> Hg.
  destruct l as [|e l]; [done|]. set (k := e :: l) in *.
  rewrite (net_cases P (fun x => bool_decide (g x = g e)) k).
  assert (Hrest : net (fun x => P x && negb (bool_decide (g x = g e))) k
                  = net P (List.filter (fun x => negb (bool_decide (g x = g e))) k)).
  { rewrite net_filter. apply net_ext. intros x _. apply andb_comm. }
  rewrite Hrest. apply Z.add_nonneg_nonneg; [apply Hg|]. eapply IH; [|done|].
  - apply (filter_length_lt _ _ e); [by left|]. by rewrite bool_decide_true.
  - intros r. rewrite net_filter. destruct (decide (r = g e)) as [->|Hne].
    + rewrite net_none; [done|]. intros x _. by destruct (bool_decide (g x = g e)), (P x).
    + erewrite net_ext; [apply (Hg r)|]. intros x _. cbn. case_bool_decide as Hx; cbn; [|done].
      rewrite Hx, bool_decide_false by congruence. by destruct (P x).
Qed.

(** An entry of the account of a kind of a budget. *)
Definition on (b : Budget) (kind : AccountKind) (s : LedgerTables) (e : LedgerEntry) : bool :=
  match account_of b kind s with Some id => of_account id e | None => false end.

Lemma balance_net b kind s : balance b kind s = net (on b kind s) (ledger_entries s).
Proof.
  unfold balance, on, account_balance. destruct (account_of b kind s); cbn; [done|].
  symmetry. by apply net_none.
Qed.

Lemma on_spec b kind s e a :
  books s -> entry_on e a s -> on b kind s e = bool_decide (budget_of_entry e = b) && bool_decide (la_account_kind a = kind).
Proof.
  intros HB (Ha & Hid & Hbud & _). unfold on. destruct (account_of b kind s) as [id|] eqn:Hacc.
  - apply account_of_elem in Hacc as (a' & Ha' & <- & <- & <-). unfold of_account.
    rewrite <- bool_decide_and. apply bool_decide_ext. rewrite <- Hid, <- Hbud. split; [|intros [Hb Hk]].
    + intros Heq. by rewrite (NoDup_key _ _ _ _ (bk_account_ids _ HB) Ha Ha' Heq).
    + assert (Hkey : account_key a = account_key a') by (unfold account_key; by rewrite Hb, Hk).
      by rewrite (NoDup_key _ _ _ _ (bk_account_keys _ HB) Ha Ha' Hkey).
  - symmetry. rewrite <- bool_decide_and. apply bool_decide_eq_false. intros [<- <-]. rewrite <- Hbud in Hacc.
    rewrite account_of_intro in Hacc; [done|apply HB|done].
Qed.

Lemma net_add (P Q R : LedgerEntry -> bool) l :
  (forall e, e ∈ l -> (if P e then 1 else 0) = (if Q e then 1 else 0) + (if R e then 1 else 0)) ->
  net P l = net Q l + net R l.
Proof.
  induction l as [|e l IH]; intros He; cbn; [done|]. rewrite IH by (intros; apply He; by right).
  assert (He' := He e). rewrite elem_of_cons in He'. specialize (He' (or_introl eq_refl)). destruct (P e), (Q e), (R e); lia.
Qed.

Lemma kinds_sum b s :
  books s ->
  net (of_budget b) (ledger_entries s)
  = balance b AvailableBudget s + balance b ReservedHold s + balance b CommittedSpend s + balance b Adjustment s.
Proof.
  intros HB. rewrite !balance_net.
  rewrite <- (net_add (fun e => on b AvailableBudget s e || on b ReservedHold s e)),
    <- (net_add (fun e => on b AvailableBudget s e || on b ReservedHold s e || on b CommittedSpend s e)),
    <- (net_add (fun e => on b AvailableBudget s e || on b ReservedHold s e || on b CommittedSpend s e
                          || on b Adjustment s e)).
  - apply net_ext. intros e He. destruct (es_account _ _ (bk_entries _ HB e He)) as (a & Ha & _).
    unfold of_budget. rewrite !(on_spec _ _ _ _ a HB Ha). destruct Ha as (_ & _ & _ & Hu).
    destruct (bool_decide (budget_of_entry e = b)); [|done]. by destruct Hu as [->|[->|[->| ->]]].
  - intros e He. destruct (es_account _ _ (bk_entries _ HB e He)) as (a & Ha & _).
    rewrite !(on_spec _ _ _ _ a HB Ha). destruct (bool_decide (budget_of_entry e = b)), (la_account_kind a); done.
  - intros e He. destruct (es_account _ _ (bk_entries _ HB e He)) as (a & Ha & _).
    rewrite !(on_spec _ _ _ _ a HB Ha). destruct (bool_decide (budget_of_entry e = b)), (la_account_kind a); done.
  - intros e He. destruct (es_account _ _ (bk_entries _ HB e He)) as (a & Ha & _).
    rewrite !(on_spec _ _ _ _ a HB Ha). destruct (bool_decide (budget_of_entry e = b)), (la_account_kind a); done.
Qed.

(** Every unit deposited is available, held or spent. *)
Lemma budget_equation b s : books s -> available b s + held b s + spent b s = funded b s.
Proof.
  intros HB. unfold available, held, spent, funded. pose proof (kinds_sum b s HB) as Hk.
  rewrite (bk_conserved _ HB b) in Hk. lia.
Qed.

Lemma held_nonneg b s : books s -> 0 <= held b s.
Proof.
  intros HB. unfold held, balance. destruct (account_of b ReservedHold s) as [id|] eqn:Ha; cbn; [|done].
  apply account_of_elem in Ha as (a & Ha & <- & _ & Hk).
  apply (net_groups le_reservation_id). intros r. by apply (bk_holds _ HB).
Qed.

Lemma available_nonneg b s : floor s -> 0 <= available b s.
Proof.
  intros HF. unfold available, balance. destruct (account_of b AvailableBudget s) as [id|] eqn:Ha; cbn; [|done].
  apply account_of_elem in Ha as (a & Ha & <- & _ & Hk). by apply HF.
Qed.

(** ** A posting keeps the books *)

Lemma find_transaction_none tenant op key s t :
  find_transaction tenant op key s = None -> t ∈ ledger_transactions s -> transaction_key t <> (tenant, op, key).
Proof.
  intros Hf Hin [= <- <- <-]. apply list_elem_of_In in Hin. apply (List.find_none _ _ Hf) in Hin.
  unfold same_key in Hin. by rewrite !bool_decide_true, String.eqb_refl in Hin.
Qed.

Lemma find_transaction_some s t :
  NoDup (transaction_key <$> ledger_transactions s) -> t ∈ ledger_transactions s ->
  find_transaction (lt_tenant_id t) (lt_operation_kind t) (lt_idempotency_key t) s = Some t.
Proof.
  intros Hnd Hin. destruct (find_transaction _ _ _ s) as [t'|] eqn:Hf.
  - apply List.find_some in Hf as [Hin' Hk]. apply list_elem_of_In in Hin'. f_equal.
    apply (NoDup_key transaction_key (ledger_transactions s)); [done..|]. unfold same_key in Hk.
    rewrite !andb_true_iff, !bool_decide_eq_true, String.eqb_eq in Hk. destruct Hk as ((Ht & Ho) & Hkey).
    unfold transaction_key. by rewrite Ht, Ho, Hkey.
  - by destruct (find_transaction_none _ _ _ _ _ Hf Hin).
Qed.

(** A posting of its own: its entries, and what becomes of the reservations. *)
Record proper (tx : TransactionJson) (new : list LedgerEntry) (res : gmap uuid ReservationRow) (s : LedgerTables)
    : Prop := {
  pp_entries : forall e, e ∈ new ->
    le_ledger_transaction_id e = pt_ledger_transaction_id tx /\ le_tenant_id e = pt_tenant_id tx /\
    0 <= le_amount_atomic e /\
    exists a, entry_on e a s /\ (la_account_kind a = ReservedHold -> le_direction e = Debit -> settled res e);
  pp_balanced : forall u, net (fun e => of_transaction (pt_ledger_transaction_id tx) e && of_unit u e)
                              (new ++ ledger_entries s) = 0;
  pp_conserved : forall b, net (of_budget b) new = 0;
  pp_settled : forall id r, reservations s !! id = Some r -> exists r', res !! id = Some r' /\
    rn_tenant_id r' = rn_tenant_id r /\ (rn_current_state r <> Reserved -> rn_current_state r' <> Reserved);
  pp_holds : forall a r, a ∈ ledger_accounts s -> la_account_kind a = ReservedHold ->
    0 <= net (fun e => of_account (la_ledger_account_id a) e && of_reservation r e) (new ++ ledger_entries s);
}.

Section Post.
Context (now : Z) (tx : TransactionJson) (op : OperationKind) (outbox : OutboxJson) (q : gmap Z Z)
  (t : LedgerTransaction) (new : list LedgerEntry) (res : gmap uuid ReservationRow) (com : gmap uuid CommitRow)
  (s : LedgerTables).
Context (HB : books s) (HP : posted now tx op outbox t s).

Let s' := with_commits com (with_reservations res (post month_of now tx op outbox q t new s)).

Lemma posted_ids :
  lt_ledger_transaction_id t = pt_ledger_transaction_id tx /\ lt_tenant_id t = pt_tenant_id tx /\
  transaction_key t = (pt_tenant_id tx, op, pt_idempotency_key tx) /\
  lt_audit_decision_event_id t = pt_audit_decision_event_id tx /\
  lt_fencing_epoch_at_post t = pt_fencing_epoch tx.
Proof using HP. destruct (pd_row _ _ _ _ _ _ HP) as (eff & token & ->). done. Qed.

Lemma posted_new t' : t' ∈ ledger_transactions s -> lt_ledger_transaction_id t' <> lt_ledger_transaction_id t.
Proof using HP. destruct posted_ids as [-> _]. apply HP. Qed.

Lemma audit_of_old t' r : t' ∈ ledger_transactions s -> audit_of t' r s' <-> audit_of t' r s.
Proof using HB HP.
  intros Hin. destruct posted_ids as (_ & _ & _ & Haud & _). unfold audit_of. cbn.
  pose proof (posted_new t' Hin) as Hne. rewrite elem_of_cons. split.
  - intros ([->|Hr] & Hid & H).
    { cbn in Hid. destruct posted_ids as [Heq _]. by rewrite <- Hid, Heq in Hne. }
    destruct H as (? & ? & ? & ? & k & Hk & H). split; [done|]. do 5 (split; [done|]). exists k.
    split; [|done]. destruct (bk_outbox _ HB r Hr) as (t2 & Ht2 & _ & Hid2 & _ & _ & Haud2 & _ & k2 & Hk2 & _).
    assert (t2 = t') as ->.
    { apply (NoDup_key _ _ _ _ (bk_transaction_ids _ HB) Ht2 Hin). congruence. }
    rewrite lookup_insert_ne in Hk; [done|]. intros Heq. rewrite <- Heq, Haud in Hk2.
    by rewrite (af_free _ _ _ _ _ (pd_audit _ _ _ _ _ _ HP)) in Hk2.
  - intros (Hr & ? & ? & ? & ? & ? & k & Hk & H). split; [by right|]. do 5 (split; [done|]). exists k.
    split; [|done]. rewrite lookup_insert_ne; [done|]. intros Heq. rewrite <- Heq, Haud in Hk.
    by rewrite (af_free _ _ _ _ _ (pd_audit _ _ _ _ _ _ HP)) in Hk.
Qed.

Lemma audit_of_new r : audit_of t r s' <-> r = outbox_row month_of now tx outbox.
Proof using HB HP.
  split.
  - intros (Hr & Hid & _). cbn in Hr. apply elem_of_cons in Hr as [->|Hr]; [done|].
    destruct (bk_outbox _ HB r Hr) as (t' & Ht' & _ & Hid' & _). destruct (posted_new t' Ht'). congruence.
  - intros ->. unfold audit_of, s'. destruct (pd_row _ _ _ _ _ _ HP) as (eff & token & Ht). rewrite Ht. cbn.
    split; [by left|]. do 5 (split; [done|]). eexists. split; [by rewrite lookup_insert_eq|]. done.
Qed.

Lemma posted_keys_unique : keys_unique (audit_outbox_global_keys s').
Proof using HB HP.
  destruct posted_ids as (_ & _ & _ & Haud & _).
  intros i j k l. cbn. rewrite !lookup_insert_Some. intros [[<- <-]|[Hi Hk]] [[<- <-]|[Hj Hl]] Ht Hd Hty.
  - done.
  - destruct (af_decision _ _ _ _ _ (pd_audit _ _ _ _ _ _ HP) _ _ Hl). by split_and!.
  - destruct (af_decision _ _ _ _ _ (pd_audit _ _ _ _ _ _ HP) _ _ Hk). by split_and!.
  - by apply (bk_audit_keys _ HB i j k l).
Qed.

(** The lease of the posting. *)
Lemma posted_fence : exists f, fencing_scopes s !! lt_fencing_scope_id t = Some f /\
  fs_tenant_id f = lt_tenant_id t /\ fs_current_epoch f = lt_fencing_epoch_at_post t /\
  fs_active_owner_instance_id f = Some (pt_workload_instance_id tx).
Proof using HP.
  destruct posted_ids as (_ & Ht & _ & _ & He). destruct (pd_fence _ _ _ _ _ _ HP) as (f & [Hf ? ? _ ? _]).
  exists f. rewrite Ht, He. done.
Qed.

(** An earlier transaction of the scope has at most its epoch. *)
Lemma earlier_epoch t' :
  t' ∈ ledger_transactions s -> lt_fencing_scope_id t' = lt_fencing_scope_id t ->
  lt_fencing_epoch_at_post t' <= lt_fencing_epoch_at_post t.
Proof using HB HP.
  intros Hin Hsc. destruct (bk_audit _ HB t' Hin) as [r Hr].
  destruct (bk_fenced _ HB t' r Hin Hr) as (f & Hf & _ & He & _).
  destruct posted_fence as (f' & Hf' & _ & He' & _). rewrite Hsc, Hf' in Hf. injection Hf as ->. lia.
Qed.

(** An earlier transaction of the scope and epoch has its holder. *)
Lemma earlier_holder t' r :
  t' ∈ ledger_transactions s -> audit_of t' r s -> lt_fencing_scope_id t' = lt_fencing_scope_id t ->
  lt_fencing_epoch_at_post t' = lt_fencing_epoch_at_post t -> ao_workload_instance_id r = pt_workload_instance_id tx.
Proof using HB HP.
  intros Hin Hr Hsc He. destruct (bk_fenced _ HB t' r Hin Hr) as (f & Hf & _ & _ & Ho).
  destruct posted_fence as (f' & Hf' & _ & He' & Ho'). rewrite Hsc, Hf' in Hf. injection Hf as ->.
  specialize (Ho ltac:(congruence)). congruence.
Qed.

Lemma posted_holder : one_holder s'.
Proof using HB HP.
  intros t1 r1 t2 r2. cbn. rewrite !elem_of_cons.
  intros [->|H1] [->|H2] Hr1 Hr2 Hsc He.
  - apply audit_of_new in Hr1 as ->. by apply audit_of_new in Hr2 as ->.
  - apply audit_of_new in Hr1 as ->. apply audit_of_old in Hr2; [|done]. symmetry. by apply (earlier_holder t2).
  - apply audit_of_new in Hr2 as ->. apply audit_of_old in Hr1; [|done]. by apply (earlier_holder t1).
  - apply audit_of_old in Hr1, Hr2; [|done..]. by apply (bk_holder _ HB t1 r1 t2 r2).
Qed.

Context (HN : proper tx new res s).

Lemma entry_sound_old e : entry_sound e s -> entry_sound e s'.
Proof using HN.
  intros [Hamt (t' & Ht' & Hid) (a & Ha & Hh)]. constructor; [done|exists t'; split; [by right|done]|].
  exists a. split; [done|]. intros Hk Hd. destruct (Hh Hk Hd) as (id & r & Hrid & Hr & Hten & Hst).
  destruct (pp_settled _ _ _ _ HN id r Hr) as (r' & Hr' & Hten' & Hst'). exists id, r'.
  split; [done|]. split; [done|]. split; [congruence|auto].
Qed.

Lemma post_books : books s'.
Proof using HB HP HN.
  destruct posted_ids as (Hid & Hten & Hkey & _). constructor; cbn.
  - apply HB.
  - apply HB.
  - apply NoDup_cons. split; [|apply HB]. intros (t' & Heq & Hin)%list_elem_of_fmap. by destruct (posted_new t' Hin).
  - apply NoDup_cons. split; [|apply HB]. intros (t' & Heq & Hin)%list_elem_of_fmap. rewrite Hkey in Heq.
    by destruct (find_transaction_none _ _ _ _ _ (pd_key _ _ _ _ _ _ HP) Hin).
  - intros e [He|He]%elem_of_app; [|by apply entry_sound_old, HB].
    destruct (pp_entries _ _ _ _ HN e He) as (He1 & He2 & He3 & a & Ha & Hh). constructor; [done| |by exists a].
    exists t. split; [by left|]. by rewrite He1, He2, Hid, Hten.
  - intros id u. destruct (decide (id = pt_ledger_transaction_id tx)) as [->|Hne]; [apply HN|].
    rewrite net_app, (bk_balanced _ HB), net_none; [done|]. intros e He.
    destruct (pp_entries _ _ _ _ HN e He) as (He1 & _). unfold of_transaction.
    by rewrite bool_decide_false by congruence.
  - intros b. by rewrite net_app, (bk_conserved _ HB), (pp_conserved _ _ _ _ HN).
  - apply HN.
  - intros t' [->|Hin]%elem_of_cons; [eexists; by apply audit_of_new|].
    destruct (bk_audit _ HB t' Hin) as [r Hr]. exists r. by apply audit_of_old.
  - intros r [->|Hr]%elem_of_cons; [exists t; split; [by left|by apply audit_of_new]|].
    destruct (bk_outbox _ HB r Hr) as (t' & Hin & Ha). exists t'. split; [by right|by apply audit_of_old].
  - apply posted_keys_unique.
  - intros t' r [->|Hin]%elem_of_cons Hr.
    + apply audit_of_new in Hr as ->. destruct posted_fence as (f & Hf & Ht & He & Ho).
      exists f. split; [done|]. split; [done|]. split; [lia|done].
    + apply audit_of_old in Hr; [|done]. by apply (bk_fenced _ HB).
  - split; [|apply HB]. intros t' Hin. by apply earlier_epoch.
  - apply posted_holder.
Qed.

End Post.

(** ** Entries on accounts of a kind *)

Lemma net_rev P l : net P (rev l) = net P l.
Proof. induction l as [|e l IH]; cbn; [done|]. rewrite net_app, IH. cbn. lia. Qed.

Lemma entry_on_of e b kind s :
  account_of b kind s = Some (le_ledger_account_id e) -> budget_of_entry e = b -> used kind ->
  exists a, entry_on e a s /\ la_account_kind a = kind.
Proof.
  intros (a & Ha & Hid & Hb & Hk)%account_of_elem Hbe Hu. exists a. split; [|done]. split; [done|].
  split; [done|]. split; [congruence|by rewrite Hk].
Qed.

(** The account of a kind that an account id stands for. *)
Lemma account_kind_unique s a id b kind :
  books s -> a ∈ ledger_accounts s -> account_of b kind s = Some id -> la_ledger_account_id a = id ->
  la_account_kind a = kind /\ budget_of_account a = b.
Proof.
  intros HB Ha (a' & Ha' & <- & <- & <-)%account_of_elem Heq.
  by rewrite (NoDup_key _ _ _ _ (bk_account_ids _ HB) Ha Ha' Heq).
Qed.

(** *** Pairs of entries: [post_ledger_transaction] *)

(** Each pair moves an amount within a budget, from one kind of account to another. *)
Inductive pairs (k1 k2 : AccountKind * Direction) : list EntryJson -> Prop :=
  | pairs_nil : pairs k1 k2 []
  | pairs_cons x y xs :
      (ej_account_kind x, ej_direction x) = k1 -> (ej_account_kind y, ej_direction y) = k2 ->
      ej_budget_id x = ej_budget_id y -> ej_window_instance_id x = ej_window_instance_id y ->
      ej_unit_id x = ej_unit_id y -> ej_amount_atomic x = ej_amount_atomic y ->
      pairs k1 k2 xs -> pairs k1 k2 (x :: y :: xs).

Lemma pairs_kind k1 k2 xs x :
  pairs k1 k2 xs -> x ∈ xs -> (ej_account_kind x, ej_direction x) = k1 \/ (ej_account_kind x, ej_direction x) = k2.
Proof.
  induction 1 as [|y z xs Hy Hz _ _ _ _ _ IH]; [by intros ?%elem_of_nil|].
  rewrite !elem_of_cons. intros [->|[->|?]]; auto.
Qed.

Lemma pairs_conserved k1 k2 xs tx s l b :
  pairs k1 k2 xs -> k1.2 <> k2.2 -> Forall2 (entry_of tx s) xs l -> net (of_budget b) l = 0.
Proof.
  intros Hp Hne. revert l. induction Hp as [|x y xs Hx Hy Hb Hw Hu Ha _ IH]; intros l HF.
  { by inversion HF. }
  inversion HF as [|? e ? l1 He HF1]; subst. inversion HF1 as [|? f ? l2 Hf HF2]; subst. cbn. rewrite IH by done.
  assert (Hbud : budget_of_entry e = budget_of_entry f).
  { unfold budget_of_entry. destruct He, Hf. f_equal; congruence. }
  assert (Hamt : le_amount_atomic e = le_amount_atomic f) by (destruct He, Hf; congruence).
  unfold of_budget. rewrite Hbud. case_bool_decide; [|done]. unfold signed.
  rewrite (eo_direction _ _ _ _ He), (eo_direction _ _ _ _ Hf), Hamt.
  cbn in Hne. destruct (ej_direction x), (ej_direction y); try done; lia.
Qed.

Lemma entry_of_on tx s x e :
  entry_of tx s x e -> used (ej_account_kind x) -> exists a, entry_on e a s /\ la_account_kind a = ej_account_kind x.
Proof.
  intros He Hu. apply (entry_on_of _ (budget_of_entry e)); [|done..]. unfold account_of. cbn.
  rewrite (eo_tenant _ _ _ _ He). apply He.
Qed.

Lemma of_account_on e a a' s :
  books s -> entry_on e a s -> a' ∈ ledger_accounts s -> of_account (la_ledger_account_id a') e = true -> a = a'.
Proof.
  intros HB (Ha & Hid & _) Ha' He%bool_decide_eq_true.
  apply (NoDup_key _ _ _ _ (bk_account_ids _ HB) Ha Ha'). congruence.
Qed.

Lemma net_nonneg P l : (forall e, e ∈ l -> P e = true -> 0 <= signed e) -> 0 <= net P l.
Proof.
  induction l as [|e l IH]; intros He; cbn; [done|]. assert (0 <= net P l) by (apply IH; intros; apply He; [by right|done]).
  specialize (He e). rewrite elem_of_cons in He. destruct (P e); [specialize (He (or_introl eq_refl) eq_refl)|]; lia.
Qed.

(** Entries that no account of kind [reserved_hold] pays. *)
Lemma pairs_proper k1 k2 now op tx entries rows outbox t new res s :
  books s -> pairs k1 k2 entries -> k1.2 <> k2.2 -> used k1.1 -> used k2.1 ->
  k1 <> (ReservedHold, Debit) -> k2 <> (ReservedHold, Debit) ->
  ledger_posted now op tx entries rows outbox t new res s -> proper tx new res s.
Proof.
  intros HB Hp Hne Hu1 Hu2 Hn1 Hn2 [_ HF _ Hbal _ (Hkeep & _ & _)].
  assert (Hent : forall e, e ∈ new -> le_ledger_transaction_id e = pt_ledger_transaction_id tx /\
    le_tenant_id e = pt_tenant_id tx /\ 0 <= le_amount_atomic e /\
    exists a, entry_on e a s /\ (la_account_kind a = ReservedHold -> le_direction e <> Debit)).
  { intros e He. rewrite list_elem_of_In, in_rev, <- list_elem_of_In in He.
    destruct (Forall2_elem_r _ _ _ _ HF He) as (x & Hx & Hxe).
    destruct (pairs_kind _ _ _ _ Hp Hx) as [Hk|Hk]; rewrite <- Hk in *; cbn in *;
      (destruct (entry_of_on _ _ _ _ Hxe) as (a & Ha & Hak); [done|]);
      destruct Hxe; (do 3 (split; [done|])); exists a; (split; [done|]); intros Hh Hd; congruence. }
  constructor.
  - intros e He. destruct (Hent e He) as (? & ? & ? & a & Ha & Hh). do 3 (split; [done|]). exists a.
    split; [done|]. by intros ? ?%Hh.
  - done.
  - intros b. rewrite <- net_rev. by eapply pairs_conserved.
  - intros id r Hr. exists r. split; [by apply Hkeep|done].
  - intros a r Ha Hk. rewrite net_app. apply Z.add_nonneg_nonneg; [|by apply HB].
    apply net_nonneg. intros e He [Hacc _]%andb_true_iff.
    destruct (Hent e He) as (_ & _ & Hge & a' & Ha' & Hh). rewrite (of_account_on e a' a s) in Hh by done.
    specialize (Hh Hk). unfold signed. by destruct (le_direction e).
Qed.

(** *** Moves of a reservation's amount: commits, releases, provider reports *)

Definition signed_move (m : uuid * Direction * Z) : Z := match m.1.2 with Credit => m.2 | Debit => - m.2 end.

Fixpoint total (P : uuid -> bool) (ms : list (uuid * Direction * Z)) : Z :=
  match ms with [] => 0 | m :: ms => (if P m.1.1 then signed_move m else 0) + total P ms end.

Definition budget_of_reserve (tenant : uuid) (r : LedgerEntry * Account) : Budget :=
  {| bg_tenant := tenant; bg_budget := la_budget_id r.2; bg_window := le_window_instance_id r.1;
     bg_unit := la_unit_id r.2 |}.

Section Moves.
Context (tx : TransactionJson) (reserve : LedgerEntry * Account) (reservation : uuid).

Lemma settles_net P Q ms l :
  Forall2 (settles tx reserve reservation) ms l ->
  (forall m e, settles tx reserve reservation m e -> P e = Q m.1.1) -> net P l = total Q ms.
Proof.
  intros HF HP. induction HF as [|m e ms l Hm _ IH]; cbn; [done|]. rewrite IH, (HP m e Hm).
  unfold signed, signed_move. by rewrite (st_direction _ _ _ _ _ Hm), (st_amount _ _ _ _ _ Hm).
Qed.

Lemma settles_budget m e :
  settles tx reserve reservation m e -> budget_of_entry e = budget_of_reserve (pt_tenant_id tx) reserve.
Proof. intros []. unfold budget_of_entry, budget_of_reserve. f_equal; done. Qed.

Lemma settles_conserved ms l b :
  Forall2 (settles tx reserve reservation) ms l -> total (fun _ => true) ms = 0 -> net (of_budget b) l = 0.
Proof.
  intros HF Ht. unfold of_budget. destruct (decide (budget_of_reserve (pt_tenant_id tx) reserve = b)) as [Hb|Hb].
  - rewrite (settles_net _ (fun _ => true) ms l HF); [done|].
    intros m e Hm. by rewrite (settles_budget _ _ Hm), bool_decide_true.
  - apply net_none. intros e He. destruct (Forall2_elem_r _ _ _ _ HF He) as (m & _ & Hm).
    by rewrite (settles_budget _ _ Hm), bool_decide_false.
Qed.

Lemma settles_account a r ms l :
  Forall2 (settles tx reserve reservation) ms l ->
  net (fun e => of_account a e && of_reservation r e) l
  = if bool_decide (r = Some reservation) then total (fun id => bool_decide (id = a)) ms else 0.
Proof.
  intros HF. case_bool_decide as Hr.
  - apply settles_net; [done|]. intros m e Hm. unfold of_account, of_reservation.
    by rewrite (st_account _ _ _ _ _ Hm), (st_reservation _ _ _ _ _ Hm), (bool_decide_true (Some _ = _)), andb_true_r.
  - apply net_none. intros e He. destruct (Forall2_elem_r _ _ _ _ HF He) as (m & _ & Hm).
    unfold of_reservation. rewrite (st_reservation _ _ _ _ _ Hm), (bool_decide_false (Some _ = _)), andb_false_r; [done|].
    congruence.
Qed.

Lemma settles_on m e kind s :
  settles tx reserve reservation m e -> beside (pt_tenant_id tx) reserve kind m.1.1 s -> used kind ->
  exists a, entry_on e a s /\ la_account_kind a = kind.
Proof.
  intros Hm Hb Hu. apply (entry_on_of _ (budget_of_reserve (pt_tenant_id tx) reserve)); [|by apply (settles_budget m)|done].
  rewrite (st_account _ _ _ _ _ Hm). exact Hb.
Qed.

Lemma moves_proper ms new res s :
  books s -> Forall2 (settles tx reserve reservation) ms (rev new) -> total (fun _ => true) ms = 0 ->
  (forall u, net (fun e => of_transaction (pt_ledger_transaction_id tx) e && of_unit u e)
                 (new ++ ledger_entries s) = 0) ->
  (forall id r, reservations s !! id = Some r -> exists r', res !! id = Some r' /\
     rn_tenant_id r' = rn_tenant_id r /\ (rn_current_state r <> Reserved -> rn_current_state r' <> Reserved)) ->
  (forall m, m ∈ ms -> exists kind, used kind /\ beside (pt_tenant_id tx) reserve kind m.1.1 s /\
     (kind = ReservedHold -> exists r, res !! reservation = Some r /\ rn_tenant_id r = pt_tenant_id tx /\
                                       rn_current_state r <> Reserved)) ->
  (forall a, a ∈ ledger_accounts s -> la_account_kind a = ReservedHold ->
     0 <= total (fun id => bool_decide (id = la_ledger_account_id a)) ms
          + net (fun e => of_account (la_ledger_account_id a) e && of_reservation (Some reservation) e)
              (ledger_entries s)) ->
  proper tx new res s.
Proof.
  intros HB HF Htot Hbal Hset Hms Hhold. constructor; [|done| |done|].
  - intros e He. rewrite list_elem_of_In, in_rev, <- list_elem_of_In in He.
    destruct (Forall2_elem_r _ _ _ _ HF He) as (m & Hm & Hme). destruct (Hms m Hm) as (kind & Hu & Hb & Hk).
    destruct (settles_on m e kind s Hme Hb Hu) as (a & Ha & Hak).
    split; [apply Hme|]. split; [apply Hme|]. split; [apply Hme|]. exists a. split; [done|].
    intros Hh _. destruct Hk as (r & Hr & Ht & Hst); [congruence|]. exists reservation, r.
    split; [apply Hme|]. split; [done|]. split; [|done]. by rewrite (st_tenant _ _ _ _ _ Hme).
  - intros b. rewrite <- net_rev. by eapply settles_conserved.
  - intros a r Ha Hk. rewrite net_app, <- (net_rev _ new), (settles_account _ _ ms) by done.
    case_bool_decide as Hr; [subst r; by apply Hhold|]. by apply HB.
Qed.

End Moves.

(** *** What a reservation holds *)

Lemma reserve_entries_elem tenant reservation s r :
  books s -> r ∈ reserve_entries tenant reservation s ->
  r.1 ∈ ledger_entries s /\ entry_on r.1 r.2 s /\ la_account_kind r.2 = ReservedHold /\
  le_tenant_id r.1 = tenant /\ le_reservation_id r.1 = Some reservation /\ le_direction r.1 = Credit.
Proof.
  intros HB (e & He & Hf)%list_elem_of_omap.
  destruct (find _ (ledger_accounts s)) as [a|] eqn:Ha; [|done].
  destruct (_ && _) eqn:Hc in Hf; [|done]. injection Hf as <-. cbn.
  rewrite !andb_true_iff, !bool_decide_eq_true in Hc. destruct Hc as (((Ht & Hr) & Hk) & Hd).
  apply List.find_some in Ha as [Hin Hid%bool_decide_eq_true]. apply list_elem_of_In in Hin.
  destruct (es_account _ _ (bk_entries _ HB e He)) as (a' & Hon & _).
  assert (a' = a) as ->.
  { destruct Hon as (Hin' & Hid' & _). apply (NoDup_key _ _ _ _ (bk_account_ids _ HB) Hin' Hin). congruence. }
  done.
Qed.

Lemma reserve_budget tenant reservation s r :
  books s -> r ∈ reserve_entries tenant reservation s -> budget_of_account r.2 = budget_of_reserve tenant r.
Proof.
  intros HB Hr. destruct (reserve_entries_elem _ _ _ _ HB Hr) as (_ & (_ & _ & Hb & _) & _ & Ht & _ & _).
  destruct r as [e a]. unfold budget_of_account, budget_of_entry, budget_of_reserve in *. cbn in *.
  injection Hb as Ht' _ Hw _. by rewrite Ht', Hw, Ht.
Qed.

(** The hold that [beside] finds is the reservation's own. *)
Lemma beside_hold tenant reservation s r hold :
  books s -> r ∈ reserve_entries tenant reservation s -> beside tenant r ReservedHold hold s ->
  hold = la_ledger_account_id r.2.
Proof.
  intros HB Hr Hb. pose proof (reserve_budget _ _ _ _ HB Hr) as Hbud.
  destruct (reserve_entries_elem _ _ _ _ HB Hr) as (_ & (Ha & _) & Hk & _).
  pose proof (account_of_intro s r.2 (bk_account_keys _ HB) Ha) as Hacc. rewrite Hbud, Hk in Hacc.
  unfold account_of, budget_of_reserve in Hacc. cbn in Hacc. unfold beside in Hb. congruence.
Qed.

Lemma net_covers P l e :
  (forall x, x ∈ l -> P x = true -> 0 <= signed x) -> e ∈ l -> P e = true -> signed e <= net P l.
Proof.
  intros Hx He HP. apply list_elem_of_split in He as (l1 & l2 & ->). rewrite net_app. cbn. rewrite HP.
  assert (0 <= net P l1 /\ 0 <= net P l2) as [? ?]; [|lia].
  split; apply net_nonneg; intros x Hin; apply Hx; rewrite elem_of_app, elem_of_cons; auto.
Qed.

(** A hold that nothing was paid from covers each of its reservation's entries. *)
Lemma hold_covers tenant reservation row s r :
  books s -> r ∈ reserve_entries tenant reservation s ->
  find_reservation tenant reservation s = Some row -> rn_current_state row = Reserved ->
  le_amount_atomic r.1 <= net (fun e => of_account (la_ledger_account_id r.2) e
                                        && of_reservation (Some reservation) e) (ledger_entries s).
Proof.
  intros HB Hr Hrow Hst.
  destruct (reserve_entries_elem _ _ _ _ HB Hr) as (Hin & Hon & Hk & Ht & Hres & Hd).
  transitivity (signed r.1); [unfold signed; by rewrite Hd|]. apply net_covers; [|done|].
  - intros e He [Hacc Hre%bool_decide_eq_true]%andb_true_iff.
    destruct (bk_entries _ HB e He) as [Hge _ (a & Ha & Hset)].
    assert (a = r.2) as -> by (apply (of_account_on e a r.2 s HB Ha); [apply Hon|done]).
    unfold signed. destruct (le_direction e) eqn:Hdir; [|done].
    destruct (Hset Hk eq_refl) as (id & row' & Hid & Hrow' & Hten & Hne). rewrite Hre in Hid. injection Hid as <-.
    unfold find_reservation in Hrow. rewrite Hrow' in Hrow. case_bool_decide; by simplify_eq.
  - destruct Hon as (_ & Hid & _). unfold of_account, of_reservation. by rewrite Hid, Hres, !bool_decide_true.
Qed.

(** ** Each procedure *)

(** Leaving the state [reserved]. *)
Lemma settle_rows tenant id st row s :
  find_reservation tenant id s = Some row -> st <> Reserved ->
  (forall i r, reservations s !! i = Some r -> exists r', <[id := with_state st row]> (reservations s) !! i = Some r' /\
     rn_tenant_id r' = rn_tenant_id r /\ (rn_current_state r <> Reserved -> rn_current_state r' <> Reserved)) /\
  exists r, <[id := with_state st row]> (reservations s) !! id = Some r /\ rn_tenant_id r = tenant /\
            rn_current_state r <> Reserved.
Proof.
  unfold find_reservation. destruct (reservations s !! id) as [r|] eqn:Hr; [|done].
  case_bool_decide as Ht; [|done]. intros [= ->] Hst. split.
  - intros i r' Hi. destruct (decide (id = i)) as [<-|Hne].
    + rewrite lookup_insert_eq. eexists. split; [done|]. rewrite Hr in Hi. by injection Hi as <-.
    + rewrite lookup_insert_ne by done. by exists r'.
  - eexists. split; [by rewrite lookup_insert_eq|]. done.
Qed.

Lemma beside_account tenant reservation s r kind id a :
  books s -> r ∈ reserve_entries tenant reservation s -> beside tenant r kind id s -> a ∈ ledger_accounts s ->
  id = la_ledger_account_id a -> la_account_kind a = kind.
Proof.
  intros HB Hr Hb Ha ->. by destruct (account_kind_unique s a _ (budget_of_reserve tenant r) kind HB Ha Hb eq_refl).
Qed.

(** What a commit and a release take from the hold is what the reservation put there. *)
Lemma hold_pays tenant reservation row s r ms a :
  books s -> r ∈ reserve_entries tenant reservation s ->
  find_reservation tenant reservation s = Some row -> rn_current_state row = Reserved ->
  a ∈ ledger_accounts s -> la_account_kind a = ReservedHold ->
  total (fun id => bool_decide (id = la_ledger_account_id a)) ms
    = (if bool_decide (la_ledger_account_id r.2 = la_ledger_account_id a) then - le_amount_atomic r.1 else 0) ->
  0 <= total (fun id => bool_decide (id = la_ledger_account_id a)) ms
       + net (fun e => of_account (la_ledger_account_id a) e && of_reservation (Some reservation) e)
           (ledger_entries s).
Proof.
  intros HB Hr Hrow Hst Ha Hk ->. case_bool_decide as Heq; [|by apply HB].
  pose proof (hold_covers _ _ _ _ _ HB Hr Hrow Hst) as Hc. rewrite Heq in Hc. lia.
Qed.

Ltac no_account HB Hres :=
  repeat match goal with
  | Hb : beside _ _ ?k ?id _, Ha : ?a ∈ _, Hk : la_account_kind ?a = _ |- context [bool_decide (?id = la_ledger_account_id ?a)] =>
      rewrite (bool_decide_false (id = la_ledger_account_id a))
        by (intros Hid; pose proof (beside_account _ _ _ _ _ _ _ HB Hres Hb Ha Hid); congruence)
  end.

Section Proper.
Context (now : Z) (tx : TransactionJson) (outbox : OutboxJson) (t : LedgerTransaction) (new : list LedgerEntry)
  (s : LedgerTables) (HB : books s).

Lemma commit_proper reservation estimated pricing row reserve :
  commit_posted now tx reservation estimated pricing outbox t new row reserve s ->
  proper tx new (<[reservation := with_state Committed row]> (reservations s)) s.
Proof using HB.
  intros [_ Hrow Hst _ Hres _ _ [Hpos Hle] (hold & spend & av & Hh & Hs & Ha & HF) Hbal].
  destruct (settle_rows _ _ Committed _ _ Hrow ltac:(done)) as [Hset Hnow].
  set (residual := le_amount_atomic reserve.1 - estimated) in *.
  assert (Hav : 0 < residual -> beside (pt_tenant_id tx) reserve AvailableBudget av s) by (intros; apply Ha; lia).
  eapply moves_proper; [done|exact HF|..]; [|done|done| |].
  - unfold commit_moves. destruct (0 <? residual); cbn; unfold signed_move; cbn; lia.
  - intros m Hm. unfold commit_moves in Hm. rewrite !elem_of_app, !elem_of_cons, elem_of_nil in Hm.
    destruct Hm as [[->|[->|[]]]|Hm]; [exists ReservedHold|exists CommittedSpend|].
    + split; [by right; left|]. split; [done|]. intros _. exact Hnow.
    + split; [by right; right; left|]. done.
    + destruct (0 <? residual) eqn:Hr; [|by apply elem_of_nil in Hm]. apply Z.ltb_lt in Hr.
      rewrite !elem_of_cons, elem_of_nil in Hm. destruct Hm as [->|[->|[]]]; [exists ReservedHold|exists AvailableBudget].
      * split; [by right; left|]. split; [done|]. intros _. exact Hnow.
      * split; [by left|]. split; [by apply Hav|done].
  - intros a Hin Hk. apply (hold_pays (pt_tenant_id tx) reservation row _ reserve); [done..|].
    rewrite <- (beside_hold _ _ _ _ _ HB Hres Hh). unfold commit_moves, signed_move.
    destruct (0 <? residual) eqn:Hr; cbn.
    + apply Z.ltb_lt, Hav in Hr. no_account HB Hres. case_bool_decide; unfold residual; cbn; lia.
    + no_account HB Hres. apply Z.ltb_ge in Hr. case_bool_decide; unfold residual in Hr; cbn; lia.
Qed.

Lemma release_proper reason reservation row reserve :
  release_posted now tx reason outbox t new reservation row reserve s ->
  proper tx new (<[reservation := with_state ReleasedState row]> (reservations s)) s.
Proof using HB.
  intros [_ Hrow _ Hst _ Hres (hold & av & Hh & Ha & HF) Hbal].
  destruct (settle_rows _ _ ReleasedState _ _ Hrow ltac:(done)) as [Hset Hnow].
  eapply moves_proper; [done|exact HF|..]; [|done|done| |].
  - unfold release_moves, signed_move. cbn. lia.
  - intros m Hm. unfold release_moves in Hm. rewrite !elem_of_cons, elem_of_nil in Hm.
    destruct Hm as [->|[->|[]]]; [exists ReservedHold|exists AvailableBudget].
    + split; [by right; left|]. split; [done|]. intros _. exact Hnow.
    + split; [by left|]. done.
  - intros a Hin Hk. apply (hold_pays (pt_tenant_id tx) reservation row _ reserve); [done..|].
    rewrite <- (beside_hold _ _ _ _ _ HB Hres Hh). unfold release_moves, signed_move. cbn.
    no_account HB Hres. case_bool_decide; lia.
Qed.

Lemma report_proper reservation amount pricing row reserve commit_id commit :
  report_posted now tx reservation amount pricing outbox t new row reserve commit_id commit s ->
  proper tx new (reservations s) s.
Proof using HB.
  clear month_of mirror_prediction_columns.
  intros [_ _ _ _ _ _ _ Hres _ _ (spend & av & Hb & HF) Hbal]. set (delta := amount - _) in *.
  assert (Hm : delta <> 0 -> beside (pt_tenant_id tx) reserve CommittedSpend spend s /\
                             beside (pt_tenant_id tx) reserve AvailableBudget av s) by (intros; apply Hb; lia).
  eapply moves_proper; [done|exact HF|..]; [|done| | |].
  - unfold delta_moves, signed_move. destruct (delta =? 0), (0 <? delta); cbn; lia.
  - intros i r Hi. by exists r.
  - intros m Hin. unfold delta_moves in Hin. destruct (delta =? 0) eqn:Hd; [by apply elem_of_nil in Hin|].
    apply Z.eqb_neq, Hm in Hd as [Hs Ha].
    destruct (0 <? delta); rewrite !elem_of_cons, elem_of_nil in Hin; destruct Hin as [->|[->|[]]];
      [exists AvailableBudget|exists CommittedSpend|exists CommittedSpend|exists AvailableBudget];
      (split; [unfold used; tauto|done]).
  - intros a Hin Hk. apply Z.add_nonneg_nonneg; [|by apply HB]. unfold delta_moves, signed_move.
    destruct (delta =? 0) eqn:Hd; [done|]. apply Z.eqb_neq, Hm in Hd as [Hs Ha].
    destruct (0 <? delta); cbn; no_account HB Hres; done.
Qed.

End Proper.

(** ** The floor *)

Lemma account_balance_app new s a :
  net (of_account a) (new ++ ledger_entries s) = net (of_account a) new + account_balance a s.
Proof. apply net_app. Qed.

(** Entries of a transaction with a fresh id are the new ones. *)
Lemma net_of_new tx new res s P :
  books s -> fresh_id (pt_ledger_transaction_id tx) s -> proper tx new res s ->
  net (fun e => of_transaction (pt_ledger_transaction_id tx) e && P e) (new ++ ledger_entries s) = net P new.
Proof.
  intros HB Hid HN. rewrite net_app, (net_none _ (ledger_entries s)), Z.add_0_r.
  - apply net_ext. intros e He. destruct (pp_entries _ _ _ _ HN e He) as (Ht & _). unfold of_transaction.
    by rewrite bool_decide_true.
  - intros e He. destruct (es_transaction _ _ (bk_entries _ HB e He)) as (t & Ht & Hte & _).
    unfold of_transaction. rewrite bool_decide_false; [done|]. rewrite <- Hte. by apply Hid.
Qed.

Lemma ledger_floor now op tx entries rows outbox t new res s a :
  books s -> floor s -> proper tx new res s -> ledger_posted now op tx entries rows outbox t new res s ->
  a ∈ ledger_accounts s -> la_account_kind a = AvailableBudget ->
  0 <= net (of_account (la_ledger_account_id a)) (new ++ ledger_entries s).
Proof.
  intros HB HF HN HL Ha Hk. pose proof (lp_floor _ _ _ _ _ _ _ _ _ _ HL (la_ledger_account_id a)) as Hfl.
  pose proof (pd_id _ _ _ _ _ _ (lp_posted _ _ _ _ _ _ _ _ _ _ HL)) as Hid.
  rewrite account_kind_of_elem, Hk, (net_of_new _ _ res) in Hfl; [|done..|apply HB|done].
  destruct (Z.lt_ge_cases (net (of_account (la_ledger_account_id a)) new) 0) as [Hneg|Hge]; [by apply Hfl|].
  rewrite account_balance_app. specialize (HF a Ha Hk). lia.
Qed.

(** Moves that lower no account of available budget. *)
Lemma moves_floor tx reserve reservation ms new s a :
  floor s -> Forall2 (settles tx reserve reservation) ms (rev new) ->
  a ∈ ledger_accounts s -> la_account_kind a = AvailableBudget ->
  0 <= total (fun id => bool_decide (id = la_ledger_account_id a)) ms ->
  0 <= net (of_account (la_ledger_account_id a)) (new ++ ledger_entries s).
Proof.
  intros HF HM Ha Hk Htot. rewrite account_balance_app, <- net_rev.
  rewrite (settles_net _ _ _ _ (fun id => bool_decide (id = la_ledger_account_id a)) _ _ HM).
  - specialize (HF a Ha Hk). lia.
  - intros m e Hm. unfold of_account. by rewrite (st_account _ _ _ _ _ Hm).
Qed.

Lemma commit_floor now tx reservation estimated pricing outbox t new row reserve s a :
  books s -> floor s -> commit_posted now tx reservation estimated pricing outbox t new row reserve s ->
  a ∈ ledger_accounts s -> la_account_kind a = AvailableBudget ->
  0 <= net (of_account (la_ledger_account_id a)) (new ++ ledger_entries s).
Proof.
  intros HB HF [_ _ _ _ Hres _ _ _ (hold & spend & av & Hh & Hs & _ & HM) _] Ha Hk.
  eapply moves_floor; [done|exact HM|done..|]. unfold commit_moves, signed_move.
  destruct (0 <? _) eqn:Hr; cbn; no_account HB Hres; [case_bool_decide; blia|done].
Qed.

Lemma release_floor now tx reason outbox t new reservation row reserve s a :
  books s -> floor s -> release_posted now tx reason outbox t new reservation row reserve s ->
  a ∈ ledger_accounts s -> la_account_kind a = AvailableBudget ->
  0 <= net (of_account (la_ledger_account_id a)) (new ++ ledger_entries s).
Proof.
  intros HB HF [_ _ _ _ _ Hres (hold & av & Hh & _ & HM) _] Ha Hk.
  destruct (reserve_entries_elem _ _ _ _ HB Hres) as (Hin & _ & _ & _ & _ & _).
  pose proof (es_amount _ _ (bk_entries _ HB _ Hin)).
  eapply moves_floor; [done|exact HM|done..|]. unfold release_moves, signed_move. cbn. no_account HB Hres.
  case_bool_decide; lia.
Qed.

(** ** Changes beside the postings *)

(** An audit row up to its forwarding state and its payload. *)
Definition same_row (r r' : AuditOutboxRow) : Prop :=
  ao_audit_decision_event_id r' = ao_audit_decision_event_id r /\ ao_decision_id r' = ao_decision_id r /\
  ao_tenant_id r' = ao_tenant_id r /\ ao_ledger_transaction_id r' = ao_ledger_transaction_id r /\
  ao_ledger_fencing_epoch r' = ao_ledger_fencing_epoch r /\
  ao_workload_instance_id r' = ao_workload_instance_id r /\
  or_audit_outbox_id (ao_row r') = or_audit_outbox_id (ao_row r) /\
  or_event_type (ao_row r') = or_event_type (ao_row r).

(** A lease stays, or its epoch goes up. *)
Definition lease_goes_on (f f' : FencingScope) : Prop :=
  fs_tenant_id f' = fs_tenant_id f /\
  (fs_current_epoch f' = fs_current_epoch f /\ fs_active_owner_instance_id f' = fs_active_owner_instance_id f \/
   fs_current_epoch f < fs_current_epoch f').

Record evolves (s s' : LedgerTables) : Prop := {
  ev_accounts : ledger_accounts s' = ledger_accounts s;
  ev_transactions : ledger_transactions s' = ledger_transactions s;
  ev_entries : ledger_entries s' = ledger_entries s;
  ev_reservations : reservations s' = reservations s;
  ev_keys : audit_outbox_global_keys s' = audit_outbox_global_keys s;
  ev_outbox : Forall2 same_row (audit_outbox s) (audit_outbox s');
  ev_scopes : forall id f, fencing_scopes s !! id = Some f ->
                exists f', fencing_scopes s' !! id = Some f' /\ lease_goes_on f f';
}.

Lemma same_row_refl r : same_row r r.
Proof. by split_and!. Qed.

Lemma lease_refl f : lease_goes_on f f.
Proof. split; [done|]. by left. Qed.

Lemma same_rows l : Forall2 same_row l l.
Proof. induction l; constructor; [apply same_row_refl|done]. Qed.

Lemma audit_of_same t r r' s s' :
  same_row r r' -> r' ∈ audit_outbox s' -> audit_outbox_global_keys s' = audit_outbox_global_keys s ->
  audit_of t r s -> audit_of t r' s'.
Proof.
  intros (E1 & E2 & E3 & E4 & E5 & E6 & E7 & E8) Hr' Hk (Hr & H1 & H2 & H3 & H4 & H5 & k & Hkk & H6 & H7 & H8 & H9 & H10).
  split; [done|]. rewrite Hk, E1, E2, E3, E4, E5. do 5 (split; [done|]). exists k. by rewrite E7, E8.
Qed.

Lemma same_row_sym r r' : same_row r r' -> same_row r' r.
Proof. intros (E1 & E2 & E3 & E4 & E5 & E6 & E7 & E8). by split_and!. Qed.

Section Evolves.
Context (s s' : LedgerTables) (HE : evolves s s').

Lemma audit_back t r' : audit_of t r' s' -> exists r, audit_of t r s /\ same_row r r'.
Proof using HE.
  intros Hr'. destruct (Forall2_elem_r _ _ _ _ (ev_outbox _ _ HE) (proj1 Hr')) as (r & Hr & Hs). exists r.
  split; [|done]. apply (audit_of_same t r' r s' s); [by apply same_row_sym|done| |done]. by rewrite (ev_keys _ _ HE).
Qed.

Lemma audit_on t r : audit_of t r s -> exists r', audit_of t r' s' /\ same_row r r'.
Proof using HE.
  intros Hr. destruct (Forall2_elem_l _ _ _ _ (ev_outbox _ _ HE) (proj1 Hr)) as (r' & Hr' & Hs). exists r'.
  split; [|done]. apply (audit_of_same t r r' s s'); [done|done| |done]. apply HE.
Qed.

Lemma evolves_books : books s -> books s'.
Proof using HE.
  intros HB. destruct HE as [Ha Ht Hen Hres Hk _ Hsc]. constructor; rewrite ?Ha, ?Ht, ?Hen, ?Hk; try apply HB.
  - intros e He. destruct (bk_entries _ HB e He) as [? (t & Htx & ?) (a & (Hin & ?) & Hh)].
    constructor; [done|exists t; by rewrite Ht|]. exists a. split; [by split; rewrite ?Ha|]. by rewrite Hres.
  - intros t Hin. destruct (bk_audit _ HB t Hin) as [r Hr]. destruct (audit_on t r Hr) as (r' & ? & _). by exists r'.
  - intros r' Hr'. destruct (Forall2_elem_r _ _ _ _ (ev_outbox _ _ HE) Hr') as (r & Hr & Hs).
    destruct (bk_outbox _ HB r Hr) as (t & Hin & Hat). exists t. split; [done|].
    apply (audit_of_same t r r' s s'); [done|done|apply HE|done].
  - intros t r' Hin Hr'. destruct (audit_back t r' Hr') as (r & Hr & Hs).
    destruct (bk_fenced _ HB t r Hin Hr) as (f & Hf & Hft & Hle & Ho).
    destruct (Hsc _ _ Hf) as (f' & Hf' & Hten & Hgo). exists f'. split; [done|]. split; [congruence|].
    destruct Hs as (_ & _ & _ & _ & _ & Hw & _). rewrite Hw.
    destruct Hgo as [[He Hown]|Hlt]; [|split; [lia|intros; lia]]. rewrite He, Hown. done.
  - intros t1 r1 t2 r2 H1 H2 Hr1 Hr2 Hs He. rewrite Ht in H1, H2.
    destruct (audit_back _ _ Hr1) as (q1 & Hq1 & (_ & _ & _ & _ & _ & -> & _)).
    destruct (audit_back _ _ Hr2) as (q2 & Hq2 & (_ & _ & _ & _ & _ & -> & _)).
    by apply (bk_holder _ HB t1 q1 t2 q2).
Qed.

Lemma evolves_floor : floor s -> floor s'.
Proof using HE.
  intros HF a. unfold account_balance. rewrite (ev_accounts _ _ HE), (ev_entries _ _ HE). apply HF.
Qed.

End Evolves.

(** ** New accounts *)

(** An account with an id and a key of its own. *)
Definition fresh_account (a : Account) (s : LedgerTables) : Prop :=
  (forall b, b ∈ ledger_accounts s -> la_ledger_account_id b <> la_ledger_account_id a) /\
  account_of (budget_of_account a) (la_account_kind a) s = None.

Lemma fresh_account_empty a s e :
  books s -> fresh_account a s -> e ∈ ledger_entries s -> of_account (la_ledger_account_id a) e = false.
Proof.
  intros HB [Hid _] He. destruct (es_account _ _ (bk_entries _ HB e He)) as (b & (Hb & Hbe & _) & _).
  apply bool_decide_eq_false. rewrite <- Hbe. by apply Hid.
Qed.

Lemma account_books a s :
  books s -> fresh_account a s -> books (with_accounts (a :: ledger_accounts s) s).
Proof.
  intros HB Hfr. pose proof Hfr as [Hid Hkey]. constructor; cbn; try apply HB.
  - apply NoDup_cons. split; [|apply HB]. intros (b & Hb & Hin)%list_elem_of_fmap. by destruct (Hid b Hin).
  - apply NoDup_cons. split; [|apply HB]. intros (b & Hb & Hin)%list_elem_of_fmap.
    pose proof (account_of_intro s b (bk_account_keys _ HB) Hin) as Hacc.
    pose proof (f_equal fst Hb) as Hb1. pose proof (f_equal snd Hb) as Hk. cbn in Hb1, Hk.
    rewrite <- Hb1, <- Hk in Hacc. congruence.
  - intros e He. destruct (bk_entries _ HB e He) as [? ? (b & (Hb & Hrest) & Hh)]. constructor; [done..|].
    exists b. split; [|done]. split; [by right|done].
  - intros b r [->|Hb]%elem_of_cons Hk; [|by apply HB]. rewrite net_none; [done|].
    intros e He. by rewrite (fresh_account_empty a s).
Qed.

Lemma account_floor a s :
  books s -> floor s -> fresh_account a s -> floor (with_accounts (a :: ledger_accounts s) s).
Proof.
  intros HB HF Hfr b [->|Hb]%elem_of_cons Hk; [|by apply HF]. unfold account_balance. cbn.
  rewrite net_none; [done|]. intros e He. by apply (fresh_account_empty a s).
Qed.

End Books.
