(* ===== verification/ControlPlane.v ===== *)
(** * The control plane

    [services/control_plane/src/main.rs]: tenants ([create_tenant], [get_tenant],
    [tombstone_tenant]) and approvals ([list_approvals], [get_approval],
    [resolve_approval]), on the ledger's database. A response is its body or an HTTP
    status. The statements of [create_tenant]'s transaction are one effect; the ids
    and the time it uses are drawn before. Not kept of an approval: what the cost
    advisor's proposals add, and the notification of a resolution. *)

From S2P Require Import Prelude Floats Deps Effects Proto Canonical Ingest Outbox LedgerDb Ledger Auth.

Definition FORBIDDEN : Z := 403.
Definition BAD_REQUEST : Z := 400.
Definition NOT_FOUND : Z := 404.
Definition CONFLICT : Z := 409.
Definition INTERNAL_SERVER_ERROR : Z := 500.

Record CreateTenantReq := {
  ct_name : string;
  ct_opening_deposit_atomic : string;
  ct_budget_unit_kind : string;
}.

Definition default_unit_kind : string := "token".

Definition is_supported_budget_unit_kind (kind : string) : bool :=
  (kind =?s "token") || (kind =?s "usd_micros").

(** The columns of the unit: kind, currency, scale, rounding mode, token kind. *)
Definition unit_columns (kind : string) : option (string * option string * Z * string * option string) :=
  if kind =?s "usd_micros" then Some ("monetary", Some "USD", 6, "half_up", None)
  else if kind =?s "token" then Some ("token", None, 0, "truncate", Some "output_token")
  else None.

(** ** [base64_encode] *)

Definition TABLE : string := "ABCDEFGHIJKLMNOPQRSTUVWXYZabcdefghijklmnopqrstuvwxyz0123456789+/".
Definition table_char (i : Z) : ascii := default "="%char (String.get (Z.to_nat i) TABLE).

(** Three bytes become four characters; what is missing at the end, [=]. *)
Fixpoint base64_encode (bytes : string) : string :=
  match bytes with
  | EmptyString => EmptyString
  | String b0 rest =>
      let at_ (s : string) := match s with String b _ => byte_of b | EmptyString => 0 end in
      match rest with
      | EmptyString =>
          String (table_char (Z.shiftr (byte_of b0) 2))
            (String (table_char (Z.shiftl (Z.land (byte_of b0) 3) 4)) "==")
      | String b1 EmptyString =>
          String (table_char (Z.shiftr (byte_of b0) 2))
            (String (table_char (Z.lor (Z.shiftl (Z.land (byte_of b0) 3) 4) (Z.shiftr (byte_of b1) 4)))
               (String (table_char (Z.shiftl (Z.land (byte_of b1) 15) 2)) "="))
      | String b1 (String b2 rest) =>
          String (table_char (Z.shiftr (byte_of b0) 2))
            (String (table_char (Z.lor (Z.shiftl (Z.land (byte_of b0) 3) 4) (Z.shiftr (byte_of b1) 4)))
               (String (table_char (Z.lor (Z.shiftl (Z.land (byte_of b1) 15) 2) (Z.shiftr (byte_of b2) 6)))
                  (String (table_char (Z.land (byte_of b2) 63)) (base64_encode rest))))
      end
  end.

Section Control.
Context `{HU : UuidLib} `{HI : BigIntLib} `{HC : CryptoLib} `{HY : !UuidBytes} `{HT : ChronoLib}
        `{HJ : JsonLib} `{HB : Base64Lib} `{HG : !PgLib} `{HR : Rfc3339Lib} `{HV : ErrorTexts}.
Context (month_of : Z -> Z) (mirror_prediction_columns : string -> json -> Z -> result SqlError unit).

Abbreviation http A := (M ledgerE Z A).

Definition or_status {E A} (status : Z) (r : result E A) : result Z A :=
  match r with Ok a => Ok a | Err _ => Err status end.

(** [.await.map_err(|_| status)?] *)
Definition sql {A} (status : Z) (stmt : Z -> (nat -> uuid) -> sp A) : http A :=
  r ← act (Sql stmt); lift (or_status status r).

Definition permitted (p : Principal) (q : Permission) : result Z unit := or_status FORBIDDEN (require_permission p q).
Definition in_tenant (p : Principal) (tenant : string) : result Z unit := or_status FORBIDDEN (assert_tenant p tenant).
Definition parse_id (s : string) : result Z uuid := ok_or (uuid_parse s) BAD_REQUEST.

(** ** [create_tenant] *)

Record CreateTenantResp := {
  tr_tenant_id : uuid;
  tr_budget_id : uuid;
  tr_window_instance_id : uuid;
  tr_fencing_scope_id : uuid;
  tr_unit_id : uuid;
  tr_opening_deposit_atomic : string;
  tr_workload_instance_id : string;
  tr_sidecar_config_env : list (string * string);
}.

(** The ids of a new tenant. *)
Record TenantIds := {
  ti_tenant : uuid;
  ti_budget : uuid;
  ti_window : uuid;
  ti_scope : uuid;
  ti_unit : uuid;
}.

Definition same_unit (a b : UnitRow) : bool :=
  bool_decide (un_tenant_id a = un_tenant_id b) && (un_unit_kind a =?s un_unit_kind b)
  && bool_decide (un_currency a = un_currency b) && (un_scale a =? un_scale b)
  && bool_decide (un_token_kind a = un_token_kind b) && bool_decide (un_model_family a = un_model_family b).

(** [ON CONFLICT DO NOTHING] *)
Definition insert_unit (id : uuid) (row : UnitRow) : sp unit :=
  taken ← select (fun s => bool_decide (is_Some (ledger_units s !! id))
                           || existsb (fun kv : uuid * UnitRow => same_unit kv.2 row) (map_to_list (ledger_units s)));
  if (taken : bool) then mret tt else update (fun s => with_units (<[id := row]> (ledger_units s)) s).

Definition insert_window (id : uuid) (row : WindowInstance) : sp unit :=
  taken ← select (fun s => budget_window_instances s !! id);
  _ ← match taken with Some _ => unique_violation "budget_window_instances_pkey" | None => mret tt end;
  update (fun s => with_windows (<[id := row]> (budget_window_instances s)) s).

(** The partial unique indexes of a scope's type. *)
Definition same_scope (a b : FencingScope) : bool :=
  bool_decide (fs_scope_type a = fs_scope_type b) && bool_decide (fs_tenant_id a = fs_tenant_id b)
  && match fs_scope_type a with
     | ScopeReservation => bool_decide (fs_budget_id a = fs_budget_id b)
                           && bool_decide (fs_reservation_id a = fs_reservation_id b)
     | ScopeBudgetWindow => bool_decide (fs_budget_id a = fs_budget_id b)
                            && bool_decide (fs_window_instance_id a = fs_window_instance_id b)
     | ScopeControlPlaneWriter => bool_decide (fs_workload_kind a = fs_workload_kind b)
     end.

Definition insert_scope (id : uuid) (row : FencingScope) : sp unit :=
  taken ← select (fun s => fencing_scopes s !! id);
  _ ← match taken with Some _ => unique_violation "fencing_scopes_pkey" | None => mret tt end;
  same ← select (fun s => existsb (fun kv : uuid * FencingScope => same_scope kv.2 row)
                            (map_to_list (fencing_scopes s)));
  if (same : bool) then unique_violation "fencing_scope_uq"
  else update (fun s => with_scopes (<[id := row]> (fencing_scopes s)) (fencing_scope_events s) s).

Definition insert_account (a : Account) : sp unit :=
  window ← select (fun s => budget_window_instances s !! la_window_instance_id a);
  _ ← (if bool_decide (is_Some window) then mret tt
       else violates "23503" "foreign key violated" "ledger_accounts_window_instance_id_fkey");
  u ← select (fun s => ledger_units s !! la_unit_id a);
  _ ← (if bool_decide (is_Some u) then mret tt
       else violates "23503" "foreign key violated" "ledger_accounts_unit_id_fkey");
  taken ← select (fun s => existsb (fun b => bool_decide (la_ledger_account_id b = la_ledger_account_id a))
                             (ledger_accounts s));
  if (taken : bool) then unique_violation "ledger_accounts_pkey"
  else
    same ← select (find_account (la_tenant_id a) (la_budget_id a) (la_window_instance_id a) (la_unit_id a)
                     (la_account_kind a));
    _ ← match same with Some _ => unique_violation "ledger_accounts_key" | None => mret tt end;
    update (fun s => with_accounts (a :: ledger_accounts s) s).

(** ['infinity'::timestamptz], the largest 64-bit number of microseconds *)
Definition infinity : Z := i64_max * 1000.

(** [ORDER BY deployed_at DESC LIMIT 1] *)
Definition latest_pricing (s : LedgerTables) : option (string * PricingSnapshot) :=
  let all := map_to_list (pricing_snapshots s) in
  pg_limit1 (List.filter (fun x : string * PricingSnapshot =>
    forallb (fun y : string * PricingSnapshot => ps_deployed_at y.2 <=? ps_deployed_at x.2) all) all).

Definition deposit_key (tenant : uuid) : string := "control-plane-deposit-" +:+ uuid_str tenant.

Definition deposit_entries (ids : TenantIds) (amount : string) (pricing : Pricing) : list EntryJson :=
  (fun kd : AccountKind * Direction =>
    {| ej_budget_id := uuid_str (ti_budget ids); ej_window_instance_id := uuid_str (ti_window ids);
       ej_unit_id := uuid_str (ti_unit ids); ej_account_kind := kd.1; ej_direction := kd.2;
       ej_amount_atomic := amount; ej_ledger_shard_id := 1; ej_pricing := pricing; ej_reservation_id := None |})
  <$> [(AvailableBudget, Credit); (Adjustment, Debit)].

Definition deposit_transaction (ids : TenantIds) (id decision audit scope : uuid) (now : Z) : TransactionJson :=
  {| pt_ledger_transaction_id := id; pt_tenant_id := ti_tenant ids;
     pt_idempotency_key := deposit_key (ti_tenant ids); pt_request_hash := sha256 (deposit_key (ti_tenant ids));
     pt_decision_id := decision; pt_audit_decision_event_id := audit; pt_fencing_scope_id := uuid_str scope;
     pt_fencing_epoch := 1; pt_workload_instance_id := "control-plane-runner"; pt_effective_at := now;
     pt_unit_id := None; pt_lock_order_token := EmptyString; pt_minimal_replay_response := JObj [] |}.

Definition quoted (s : string) : string := String (ascii_of_nat 34) (s +:+ String (ascii_of_nat 34) EmptyString).

Definition deposit_payload (amount : string) : string :=
  base64_encode ("{" +:+ quoted "kind" +:+ ":" +:+ quoted "operator_adjustment" +:+ "," +:+ quoted "reason" +:+ ":"
    +:+ quoted "control_plane_opening_deposit" +:+ "," +:+ quoted "amount_atomic" +:+ ":" +:+ quoted amount +:+ "}").

Definition deposit_outbox (outbox_id audit tenant : uuid) (amount : string) : OutboxJson :=
  {| oj_audit_outbox_id := outbox_id; oj_event_type := "spendguard.audit.decision";
     oj_cloudevent_payload := JObj
       [("specversion", JStr "1.0"); ("type", JStr "spendguard.audit.decision"); ("id", JStr (uuid_str audit));
        ("source", JStr "control-plane-runner"); ("tenantid", JStr (uuid_str tenant));
        ("data_b64", JStr (deposit_payload amount)); ("producer_sequence", JInt 1)];
     oj_cloudevent_payload_signature := EmptyString; oj_producer_sequence := 1 |}.

Definition tenant_accounts (ids : TenantIds) (random : nat -> uuid) : list Account :=
  imap (fun i kind =>
    {| la_ledger_account_id := random i; la_tenant_id := ti_tenant ids; la_budget_id := ti_budget ids;
       la_window_instance_id := ti_window ids; la_account_kind := kind; la_unit_id := ti_unit ids |})
    [AvailableBudget; ReservedHold; CommittedSpend; Adjustment].

(** The transaction of [create_tenant]. *)
Definition provision (ids : TenantIds) (unit_row : UnitRow) (workload : string) (writer decision audit outbox_id tx_id : uuid)
    (amount : string) (effective_at : Z) (now : Z) (random : nat -> uuid) : sp uuid :=
  _ ← insert_unit (ti_unit ids) unit_row;
  _ ← insert_window (ti_window ids)
        {| wi_tenant_id := ti_tenant ids; wi_budget_id := ti_budget ids;
           wi_boundary_start := Some (now - secs 3600); wi_boundary_end := Some (now + secs 86400) |};
  _ ← insert_scope (ti_scope ids)
        {| fs_scope_type := ScopeBudgetWindow; fs_tenant_id := ti_tenant ids; fs_budget_id := Some (ti_budget ids);
           fs_reservation_id := None; fs_window_instance_id := Some (ti_window ids); fs_workload_kind := None;
           fs_current_epoch := 1; fs_active_owner_instance_id := Some workload;
           fs_ttl_expires_at := Some infinity |};
  _ ← sp_each insert_account (tenant_accounts ids random);
  _ ← insert_scope writer
        {| fs_scope_type := ScopeControlPlaneWriter; fs_tenant_id := ti_tenant ids; fs_budget_id := None;
           fs_reservation_id := None; fs_window_instance_id := None;
           fs_workload_kind := Some "control_plane_seed"; fs_current_epoch := 1;
           fs_active_owner_instance_id := Some "control-plane-runner"; fs_ttl_expires_at := Some infinity |};
  found ← select latest_pricing;
  pricing ← match found with
            | Some (version, row) =>
                mret {| px_pricing_version := version; px_price_snapshot_hash := ps_price_snapshot_hash row;
                        px_fx_rate_version := ps_fx_rate_version row;
                        px_unit_conversion_version := ps_unit_conversion_version row |}
            | None => (fun _ => Err row_not_found)
            end;
  post_ledger_transaction month_of mirror_prediction_columns now OpAdjustment
    (deposit_transaction ids tx_id decision audit writer effective_at)
    (deposit_entries ids amount pricing) [] (deposit_outbox outbox_id audit (ti_tenant ids) amount) None.

Definition sidecar_config (ids : TenantIds) (workload : string) : list (string * string) :=
  [("SPENDGUARD_SIDECAR_TENANT_ID", uuid_str (ti_tenant ids));
   ("SPENDGUARD_SIDECAR_FENCING_SCOPE_ID", uuid_str (ti_scope ids));
   ("SPENDGUARD_SIDECAR_WORKLOAD_INSTANCE_ID", workload);
   ("SPENDGUARD_SIDECAR_BUDGET_ID", uuid_str (ti_budget ids));
   ("SPENDGUARD_SIDECAR_WINDOW_INSTANCE_ID", uuid_str (ti_window ids));
   ("SPENDGUARD_SIDECAR_UNIT_ID", uuid_str (ti_unit ids))].

Definition create_tenant (p : Principal) (req : CreateTenantReq) : http CreateTenantResp :=
  _ ← lift (permitted p TenantWrite);
  _ ← lift (ensure (negb (is_empty (ct_name req))) BAD_REQUEST);
  _ ← lift (ensure (is_supported_budget_unit_kind (ct_budget_unit_kind req)) BAD_REQUEST);
  tenant ← act UuidNowV7; budget ← act UuidNowV7; window ← act UuidNowV7; scope ← act UuidNowV7;
  unit_id ← act UuidNowV7;
  let workload := "sidecar-" +:+ String.substring 0 8 (uuid_str tenant) in
  let ids := {| ti_tenant := tenant; ti_budget := budget; ti_window := window; ti_scope := scope;
                ti_unit := unit_id |} in
  columns ← lift (ok_or (unit_columns (ct_budget_unit_kind req)) INTERNAL_SERVER_ERROR);
  let '(kind, currency, scale, rounding_mode, token_kind) := columns in
  writer ← act UuidNowV7; decision ← act UuidNowV7; audit ← act UuidNowV7; outbox_id ← act UuidNowV7;
  tx_id ← act UuidNowV7; _ ← act UuidNowV7; _ ← act UuidNowV7;
  now ← act UtcNow;
  _ ← sql INTERNAL_SERVER_ERROR (provision ids
        {| un_tenant_id := tenant; un_unit_kind := kind; un_currency := currency; un_scale := scale;
           un_rounding_mode := rounding_mode; un_token_kind := token_kind;
           un_model_family := (fun _ => "gpt-4") <$> token_kind |}
        workload writer decision audit outbox_id tx_id (ct_opening_deposit_atomic req) now);
  mret {| tr_tenant_id := tenant; tr_budget_id := budget; tr_window_instance_id := window;
          tr_fencing_scope_id := scope; tr_unit_id := unit_id;
          tr_opening_deposit_atomic := ct_opening_deposit_atomic req; tr_workload_instance_id := workload;
          tr_sidecar_config_env := sidecar_config ids workload |}.

(** ** [get_tenant] and [tombstone_tenant] *)

Record BudgetSummary := {
  bm_budget_id : uuid;
  bm_unit_id : uuid;
  bm_available_atomic : string;
  bm_reserved_atomic : string;
  bm_committed_atomic : string;
}.

(** The balance of a tenant's accounts of a kind in a budget and a unit, over all windows. *)
Definition summed (tenant budget unit : uuid) (kind : AccountKind) (s : LedgerTables) : Z :=
  net (fun e => existsb (fun a => bool_decide (la_ledger_account_id a = le_ledger_account_id e)
                                  && bool_decide (la_tenant_id a = tenant) && bool_decide (la_budget_id a = budget)
                                  && bool_decide (la_unit_id a = unit) && bool_decide (la_account_kind a = kind))
                  (ledger_accounts s)) (ledger_entries s).

Definition tenant_budgets (tenant : uuid) (s : LedgerTables) : list BudgetSummary :=
  (fun k : uuid * uuid =>
    {| bm_budget_id := k.1; bm_unit_id := k.2;
       bm_available_atomic := z_str (summed tenant k.1 k.2 AvailableBudget s);
       bm_reserved_atomic := z_str (summed tenant k.1 k.2 ReservedHold s);
       bm_committed_atomic := z_str (summed tenant k.1 k.2 CommittedSpend s) |})
  <$> dedup_by ((fun a => (la_budget_id a, la_unit_id a))
                <$> List.filter (fun a => bool_decide (la_tenant_id a = tenant)) (ledger_accounts s)).

Definition get_tenant (p : Principal) (id : string) : http (uuid * list BudgetSummary) :=
  _ ← lift (permitted p ReadView);
  _ ← lift (in_tenant p id);
  tenant ← lift (parse_id id);
  rows ← sql INTERNAL_SERVER_ERROR (fetch (tenant_budgets tenant));
  _ ← lift (ensure (match rows with [] => false | _ => true end) NOT_FOUND);
  mret (tenant, rows).

(** [UPDATE fencing_scopes SET ttl_expires_at = now() - interval '1 second' ..] *)
Definition expire_scopes (tenant : uuid) (now : Z) : sp unit :=
  update (fun s => with_scopes
    ((fun f => if bool_decide (fs_tenant_id f = tenant) && bool_decide (fs_scope_type f = ScopeBudgetWindow)
               then with_lease (fs_current_epoch f) (fs_active_owner_instance_id f) (Some (now - secs 1)) f
               else f) <$> fencing_scopes s)
    (fencing_scope_events s) s).

Definition tombstone_tenant (p : Principal) (id : string) : http uuid :=
  _ ← lift (permitted p TenantWrite);
  _ ← lift (in_tenant p id);
  tenant ← lift (parse_id id);
  _ ← sql INTERNAL_SERVER_ERROR (fun now _ => expire_scopes tenant now);
  mret tenant.

(** ** Approvals *)

Definition approval_state_parse (st : string) : option ApprovalState :=
  if st =?s "pending" then Some Pending
  else if st =?s "approved" then Some Approved
  else if st =?s "denied" then Some LedgerDb.Denied
  else if st =?s "expired" then Some LedgerDb.Expired
  else if st =?s "cancelled" then Some Cancelled
  else None.

(** An approval and its id. *)
Definition list_rows (tenant : uuid) (st : ApprovalState) (limit : Z) (s : LedgerTables) : list (uuid * ApprovalRow) :=
  take (Z.to_nat limit) (order_by (fun kv : uuid * ApprovalRow => - ap_created_at kv.2)
    (List.filter (fun kv : uuid * ApprovalRow => bool_decide (ap_tenant_id kv.2 = tenant)
                                                 && bool_decide (ap_state kv.2 = st))
       (map_to_list (approval_requests s)))).

Definition list_approvals (p : Principal) (tenant_id : string) (st : option string) (limit : option Z)
    : http (list (uuid * ApprovalRow)) :=
  _ ← lift (permitted p ApprovalResolve);
  _ ← lift (in_tenant p tenant_id);
  tenant ← lift (parse_id tenant_id);
  st ← lift (ok_or (approval_state_parse (default "pending" st)) BAD_REQUEST);
  sql INTERNAL_SERVER_ERROR (fetch (list_rows tenant st (clamp 1 200 (default 50 limit)))).

(** The last twenty events of an approval. *)
Definition recent_events (id : uuid) (s : LedgerTables) : list ApprovalEvent :=
  take 20 (order_by (fun e => - ae_occurred_at e)
    (List.filter (fun e => bool_decide (ae_approval_id e = id)) (approval_events s))).

Definition get_approval (p : Principal) (id : string) : http (uuid * ApprovalRow * list ApprovalEvent) :=
  _ ← lift (permitted p ApprovalResolve);
  id ← lift (parse_id id);
  found ← sql INTERNAL_SERVER_ERROR (fetch (fun s => approval_requests s !! id));
  a ← lift (ok_or found FORBIDDEN);
  _ ← lift (in_tenant p (uuid_str (ap_tenant_id a)));
  events ← sql INTERNAL_SERVER_ERROR (fetch (recent_events id));
  mret (id, a, events).

(** The states a user may ask for. *)
Definition resolve_target (st : string) : result Z ApprovalState :=
  if st =?s "approved" then Ok Approved
  else if st =?s "denied" then Ok LedgerDb.Denied
  else if st =?s "cancelled" then Ok Cancelled
  else Err BAD_REQUEST.

(** Who may resolve an approval, by its policy. *)
Definition approver_admitted (policy : json) (p : Principal) : bool :=
  match parse_approver_policy policy with
  | NoRestriction => true
  | Restrict required => existsb (fun r => existsb (String.eqb r) (roles p)) required
  | Malformed => false
  end.

Definition resolve_approval (p : Principal) (id target reason : string)
    : http (ApprovalState * bool * option uuid) :=
  _ ← lift (permitted p ApprovalResolve);
  id ← lift (parse_id id);
  target ← lift (resolve_target target);
  _ ← lift (ensure (negb (is_empty (trim reason))) BAD_REQUEST);
  found ← sql INTERNAL_SERVER_ERROR (fetch (fun s => approval_requests s !! id));
  a ← lift (ok_or found FORBIDDEN);
  _ ← lift (in_tenant p (uuid_str (ap_tenant_id a)));
  _ ← (if bool_decide (ap_state a = Pending) then
         now ← act UtcNow; lift (ensure (now <? ap_ttl_expires_at a) CONFLICT)
       else mret tt);
  _ ← lift (ensure (approver_admitted (ap_approver_policy a) p) FORBIDDEN);
  sql CONFLICT (fun now random =>
    resolve_approval_request now (random 0%nat) id target (Some (subject p)) (Some (issuer p)) (Some reason)).

End Control.
