(* ===== verification/LedgerRun.v ===== *)
(** * Running the ledger's handlers

    What the effects of the ledger's and the control plane's handlers do to the
    database, and rules to show that the handlers keep an invariant of it and change
    it only by a relation, whatever else runs: [keeps] of a statement, [safe] of a
    program, [follows] when its answer matters. *)

From S2P Require Import Prelude Floats Deps Effects Proto Canonical Ingest Outbox LedgerDb Ledger Posting Auth ControlPlane.

Section Run.
Context `{HU : UuidLib} `{HI : BigIntLib} `{HC : CryptoLib} `{HY : !UuidBytes} `{HT : ChronoLib}
        `{HJ : JsonLib} `{HB : Base64Lib} `{HG : !PgLib} `{HR : Rfc3339Lib} `{HV : ErrorTexts}.

(** ** What the effects do *)

(** A statement commits or raises; or the connection fails, before the commit or
    after it; or the server refuses it. *)
Definition runs_sql {A} (m : sp A) (s : LedgerTables) (x : result SqlError A) (s' : LedgerTables) : Prop :=
  match m s with
  | Ok (a, s1) => (x = Ok a /\ s' = s1) \/ (exists e, x = Err e /\ (s' = s \/ s' = s1))
  | Err e => (exists e', x = Err e') /\ s' = s
  end.

Definition handle_ledger (X : Type) (e : ledgerE X) (s : LedgerTables) : X -> LedgerTables -> Prop :=
  match e in ledgerE X return X -> LedgerTables -> Prop with
  | Sql stmt => fun x s' => exists now random, runs_sql (stmt now random) s x s'
  | UuidNowV7 => fun _ s' => s' = s
  | UtcNow => fun _ s' => s' = s
  end.

(** ** Statements that leave a part of the tables alone *)

Definition leaves {B} (f : LedgerTables -> B) {A} (m : sp A) : Prop := forall s a s', m s = Ok (a, s') -> f s' = f s.

Lemma leaves_bind {B A C} (f : LedgerTables -> B) (m : sp A) (k : A -> sp C) :
  leaves f m -> (forall a, leaves f (k a)) -> leaves f (m ≫= k).
Proof. intros Hm Hk s b s' (a & s1 & H1 & H2)%sp_bind_ok. by rewrite (Hk _ _ _ _ H2), (Hm _ _ _ H1). Qed.

Lemma leaves_each {B A} (f : LedgerTables -> B) (k : A -> sp unit) l : (forall a, leaves f (k a)) -> leaves f (sp_each k l).
Proof. intros Hk. induction l as [|a l IH]; [by intros s u s' [= _ <-]|by apply leaves_bind]. Qed.

Lemma leaves_select {B A} (f : LedgerTables -> B) (g : LedgerTables -> A) : leaves f (select g).
Proof. by intros s a s' [= _ <-]. Qed.

Lemma leaves_ret {B A} (f : LedgerTables -> B) (a : A) : leaves f (mret a).
Proof. by intros s b s' [= _ <-]. Qed.

Lemma leaves_update {B} (f : LedgerTables -> B) g : (forall s, f (g s) = f s) -> leaves f (update g).
Proof. intros Hg s u s' [= _ <-]. apply Hg. Qed.

(** ** Statements

    [Inv] holds between statements; [G] is what a statement may change. *)

Context (Inv : LedgerTables -> Prop) (G : LedgerTables -> LedgerTables -> Prop) {HGP : PreOrder G}.
#[local] Set Default Proof Using "Type HGP".

(** A statement that keeps the invariant; [T]: what its result tells. *)
Definition keeps {A} (stmt : Z -> (nat -> uuid) -> sp A) (T : A -> LedgerTables -> Prop) : Prop :=
  forall now random s a s', Inv s -> stmt now random s = Ok (a, s') ->
    Inv s' /\ G s s' /\ T a s'.

Lemma keeps_fetch {A} (f : LedgerTables -> A) : keeps (fetch f) (fun a s => a = f s).
Proof. intros now random s a s' HI' [= <- <-]. by split. Qed.

Lemma keeps_fetch_one {A} (f : LedgerTables -> option A) : keeps (fetch_one f) (fun a s => f s = Some a).
Proof. intros now random s a s' HI'. unfold fetch_one. destruct (f s) eqn:Hf; [|done]. by intros [= <- <-]. Qed.

Definition sp_keeps {A} (m : sp A) : Prop :=
  forall s a s', Inv s -> m s = Ok (a, s') -> Inv s' /\ G s s'.

Lemma sp_keeps_bind {A B} (m : sp A) (f : A -> sp B) :
  sp_keeps m -> (forall a, sp_keeps (f a)) -> sp_keeps (m ≫= f).
Proof.
  intros Hm Hf s b s' HI' (a & s1 & H1 & H2)%sp_bind_ok. destruct (Hm _ _ _ HI' H1) as [HI1 Hg1].
  destruct (Hf a _ _ _ HI1 H2) as [HI2 Hg2]. split; [done|by etrans].
Qed.

Lemma sp_keeps_each {A} (f : A -> sp unit) l : (forall a, sp_keeps (f a)) -> sp_keeps (sp_each f l).
Proof.
  intros Hf. induction l as [|a l IH]; [by intros s u s' HI' [= _ <-]|]. by apply sp_keeps_bind.
Qed.

(** ** Handlers *)

Abbreviation ledger_follows Q p := (follows handle_ledger Inv G G Q p).

Lemma follows_sql {A R} (stmt : Z -> (nat -> uuid) -> sp A) T (k : result SqlError A -> prog ledgerE R) Q s :
  keeps stmt T ->
  (forall a s', G s s' -> T a s' -> ledger_follows Q (k (Ok a)) s') ->
  (forall e s', G s s' -> ledger_follows Q (k (Err e)) s') ->
  ledger_follows Q (Vis (Sql stmt) k) s.
Proof.
  intros HK Hok Herr s1 x s2 Hr HI' (now & random & Hx). unfold runs_sql in Hx.
  destruct (stmt now random s1) as [[a s3]|e] eqn:Hs.
  - destruct (HK _ _ _ _ _ HI' Hs) as (HI3 & Hg & Htold). destruct Hx as [[-> ->]|(e & -> & [->| ->])].
    + split; [done|]. split; [done|]. apply Hok; [by etrans|done].
    + split; [done|]. split; [done|]. by apply Herr.
    + split; [done|]. split; [done|]. apply Herr. by etrans.
  - destruct Hx as [[e' ->] ->]. split; [done|]. split; [done|]. by apply Herr.
Qed.

Lemma follows_query {A B D} (f : SqlError -> D) (stmt : Z -> (nat -> uuid) -> sp A) T (k : A -> M ledgerE D B) Q s :
  keeps stmt T -> (forall a s', G s s' -> T a s' -> ledger_follows Q (k a) s') ->
  (forall e s', Q (Err e) s') ->
  ledger_follows Q ((r ← act (Sql stmt); lift (match r with Ok a => Ok a | Err e => Err (f e) end)) ≫= k) s.
Proof. intros HK Hok Herr. eapply follows_sql; [exact HK|exact Hok|]. intros e s' _. apply Herr. Qed.

Lemma follows_uuid {B D} (k : uuid -> M ledgerE D B) Q s :
  (forall x s', G s s' -> ledger_follows Q (k x) s') -> ledger_follows Q (act UuidNowV7 ≫= k) s.
Proof. intros Hk s1 x s2 Hr HI' ->. split; [done|]. split; [done|]. by apply Hk. Qed.

Lemma follows_now {B D} (k : Z -> M ledgerE D B) Q s :
  (forall x s', G s s' -> ledger_follows Q (k x) s') -> ledger_follows Q (act UtcNow ≫= k) s.
Proof. intros Hk s1 x s2 Hr HI' ->. split; [done|]. split; [done|]. by apply Hk. Qed.

Lemma follows_lift {A B D} (r : result D A) (k : A -> M ledgerE D B) Q s :
  (forall a, r = Ok a -> ledger_follows Q (k a) s) -> (forall e s', Q (Err e) s') -> ledger_follows Q (lift r ≫= k) s.
Proof. intros Hk He. destruct r; cbn; [by apply Hk|apply He]. Qed.

(** What an outcome that names a transaction promises. *)
Definition outcome_names {D S} (id_of : S -> string) (N : string -> LedgerTables -> Prop) (r : result D (Outcome S))
    (s : LedgerTables) : Prop :=
  match r with
  | Ok (Success x) => N (id_of x) s
  | Ok (Replayed rp) => N (rp_ledger_transaction_id rp) s
  | _ => True
  end.

Lemma respond_follows {S} (m : M ledgerE DomainError (Outcome S)) (id_of : S -> string) (N : string -> LedgerTables -> Prop) s :
  ledger_follows (outcome_names id_of N) m s -> ledger_follows (outcome_names id_of N) (respond m) s.
Proof.
  intros Hm. unfold respond. apply follows_pbind. eapply follows_weaken; [|exact Hm].
  intros [o|e] s' Hr; cbn; [exact Hr|]. by destruct e.
Qed.

(** *** A handler of whose answer nothing is claimed *)

(** Each effect keeps the invariant, whatever is answered. *)
Definition safe {R} (p : prog ledgerE R) : Prop := forall s, ledger_follows (fun _ _ => True) p s.

Lemma safe_ret {R} (r : R) : safe (Ret r).
Proof. done. Qed.

Lemma safe_pbind {A B} (p : prog ledgerE A) (f : A -> prog ledgerE B) :
  safe p -> (forall a, safe (f a)) -> safe (pbind p f).
Proof. intros Hp Hf s. apply follows_pbind. eapply follows_weaken; [|apply Hp]. intros a s' _. apply Hf. Qed.

Lemma safe_bind {A B D} (p : M ledgerE D A) (f : A -> M ledgerE D B) :
  safe p -> (forall a, safe (f a)) -> safe (p ≫= f).
Proof. intros Hp Hf. apply safe_pbind; [done|]. intros [a|e]; [apply Hf|apply safe_ret]. Qed.

Lemma safe_sql {A D} (stmt : Z -> (nat -> uuid) -> sp A) T : keeps stmt T -> safe (act (Sql stmt) : M ledgerE D _).
Proof. intros HK s. by eapply follows_sql. Qed.

Lemma safe_query {A} f (stmt : Z -> (nat -> uuid) -> sp A) T : keeps stmt T -> safe (query f stmt).
Proof. intros HK. apply safe_bind; [by eapply safe_sql|]. intros r. apply safe_ret. Qed.

Lemma safe_http {A} status (stmt : Z -> (nat -> uuid) -> sp A) T : keeps stmt T -> safe (sql status stmt).
Proof. intros HK. apply safe_bind; [by eapply safe_sql|]. intros r. apply safe_ret. Qed.

Lemma safe_uuid {D} : safe (act UuidNowV7 : M ledgerE D _).
Proof. intros s s1 x s2 Hr HI' ->. by split_and!. Qed.

Lemma safe_now {D} : safe (act UtcNow : M ledgerE D _).
Proof. intros s s1 x s2 Hr HI' ->. by split_and!. Qed.

End Run.

(** ** Automation *)

(** The steps of a handler that are the same everywhere. *)
Ltac follows_step :=
  match goal with
  | |- follows _ _ ?G _ _ (lift _ ≫= _) _ => apply (follows_lift _ G); [intros ? ?|done]
  | |- follows _ _ ?G _ _ (act UuidNowV7 ≫= _) _ => apply (follows_uuid _ G); intros ? ? _
  | |- follows _ _ ?G _ _ (act UtcNow ≫= _) _ => apply (follows_now _ G); intros ? ? _
  end.
Ltac follows_steps := repeat (follows_step; cbv zeta).

Ltac safe_step :=
  match goal with
  | |- safe _ ?G (_ ≫= _) => apply (safe_bind _ G); [|intros ?]
  | |- safe _ ?G (pbind _ _) => apply (safe_pbind _ G); [|intros ?]
  | |- safe _ ?G (act UuidNowV7) => apply (safe_uuid _ G)
  | |- safe _ ?G (act UtcNow) => apply (safe_now _ G)
  | |- safe _ ?G (query _ (fetch_one _)) => eapply (safe_query _ G), (keeps_fetch_one _ G)
  | |- safe _ ?G (query _ (fetch _)) => eapply (safe_query _ G), (keeps_fetch _ G)
  | |- safe _ ?G (act (Sql (fetch _))) => eapply (safe_sql _ G), (keeps_fetch _ G)
  | |- safe _ ?G (sql _ (fetch _)) => eapply (safe_http _ G), (keeps_fetch _ G)
  | |- safe _ ?G (respond _) => unfold respond
  | |- safe _ ?G (Ret _) => apply (safe_ret _ G)
  | |- safe _ ?G (mret _) => apply (safe_ret _ G)
  | |- safe _ ?G (lift _) => apply (safe_ret _ G)
  | |- safe _ ?G (fail _) => apply (safe_ret _ G)
  | |- safe _ ?G (match ?x with _ => _ end) => destruct x
  end.
Ltac safe_steps := repeat (safe_step; cbv zeta).

Ltac leaves_step :=
  match goal with
  | |- leaves _ (_ ≫= _) => apply leaves_bind; [|intros ?]
  | |- leaves _ (sp_each _ _) => apply leaves_each; intros ?
  | |- leaves _ (select _) => apply leaves_select
  | |- leaves _ (mret _) => apply leaves_ret
  | |- leaves _ (update _) => apply leaves_update; reflexivity
  | |- leaves _ (match ?x with _ => _ end) => destruct x
  | |- leaves _ (insert_unit _ _) => unfold insert_unit
  | |- leaves _ (insert_window _ _) => unfold insert_window
  | |- leaves _ (insert_scope _ _) => unfold insert_scope
  | |- leaves _ (insert_account _) => unfold insert_account
  | |- leaves _ (fun _ => Err _) => done
  | |- leaves _ (unique_violation _) => done
  | |- leaves _ (violates _ _ _) => done
  end.
