(* ===== verification/Balances.v ===== *)
(** * The balances that are answered

    Two readers recompute a budget's balances from the entries: the ledger's
    [query_budget_state], within a window and up to a snapshot, and the control
    plane's [get_tenant], over all windows. Both agree with the balances of the
    accounts that the postings check ([state_is_balance], [summary_is_balance]). *)

From S2P Require Import Prelude Floats Deps Effects Proto Canonical Ingest Outbox LedgerDb Ledger Posting Books Auth ControlPlane.

Section Balances.
Context `{HU : UuidLib} `{HI : BigIntLib} `{HC : CryptoLib} `{HY : !UuidBytes} `{HT : ChronoLib}
        `{HJ : JsonLib} `{HB : Base64Lib} `{HG : !PgLib} `{HR : Rfc3339Lib} `{HV : ErrorTexts}.

Lemma net_false l : net (fun _ => false) l = 0.
Proof. by apply net_none. Qed.

(** ** [query_budget_state] *)

(** An entry counts when it took effect by the snapshot, and between the bounds
    that the window has: from the start on, and before the end. *)
Definition counted (b : Budget) (snapshot : Z) (s : LedgerTables) (e : LedgerEntry) : Prop :=
  le_effective_at e <= snapshot /\
  match budget_window_instances s !! bg_window b with
  | Some w => default True ((fun t => t <= le_effective_at e) <$> wi_boundary_start w) /\
              default True ((fun t => le_effective_at e < t) <$> wi_boundary_end w)
  | None => False
  end.

#[global] Instance counted_dec b snapshot s e : Decision (counted b snapshot s e).
Proof.
  unfold counted. destruct (_ !! _) as [w|]; [destruct (wi_boundary_start w), (wi_boundary_end w)|]; cbn; apply _.
Defined.

Lemma in_window_spec b snapshot s e :
  in_window (bg_window b) snapshot s e = bool_decide (counted b snapshot s e).
Proof.
  apply eq_bool_prop_intro. rewrite bool_decide_spec, Is_true_true. unfold in_window, counted.
  destruct (_ !! _) as [w|]; rewrite andb_true_iff, Z.leb_le; [|naive_solver].
  rewrite andb_true_iff. destruct (wi_boundary_start w), (wi_boundary_end w); cbn;
    rewrite ?Z.leb_le, ?Z.ltb_lt; tauto.
Qed.

(** The amounts that the entries [l] have on a side of the budget's account of a kind. *)
Definition posted (b : Budget) (kind : AccountKind) (d : Direction) (l : list LedgerEntry) (s : LedgerTables) : Z :=
  match account_of b kind s with
  | Some id => foldr Z.add 0 (le_amount_atomic <$>
                 filter (fun e => le_ledger_account_id e = id /\ le_direction e = d) l)
  | None => 0
  end.

Lemma net_posted b kind l s : net (on b kind s) l = posted b kind Credit l s - posted b kind Debit l s.
Proof.
  unfold on, posted. destruct (account_of b kind s) as [id|]; [|by rewrite net_false].
  induction l as [|e l IH]; [done|]. cbn [net]. rewrite IH, !filter_cons. unfold of_account, signed.
  case_bool_decide as Hid; destruct (le_direction e) eqn:Hd;
    repeat case_decide; cbn [fmap list_fmap foldr]; naive_solver lia.
Qed.

Lemma find_entry_account s e a :
  books s -> entry_on e a s ->
  find (fun a => bool_decide (la_ledger_account_id a = le_ledger_account_id e)) (ledger_accounts s) = Some a.
Proof.
  intros Hbk (Ha & Hid & _). pose proof (find_key la_ledger_account_id _ a (bk_account_ids _ Hbk) Ha) as Hf.
  by rewrite Hid in Hf.
Qed.

Lemma budget_entry_on b snapshot kind s e :
  books s -> e ∈ ledger_entries s ->
  budget_entry (bg_tenant b) (bg_budget b) (bg_window b) (bg_unit b) snapshot kind s e =
  bool_decide (counted b snapshot s e) && on b kind s e.
Proof.
  intros Hbk He. destruct (es_account _ _ (bk_entries _ Hbk e He)) as (a & Ha & _).
  unfold budget_entry. rewrite (find_entry_account _ _ _ Hbk Ha), (on_spec _ _ _ _ _ Hbk Ha), in_window_spec.
  destruct Ha as (_ & _ & Hbud & _). apply (f_equal bg_budget) in Hbud as Hb. apply (f_equal bg_unit) in Hbud as Hu.
  cbn in Hb, Hu. rewrite Hb, Hu. apply eq_bool_prop_intro. rewrite !Is_true_true, !andb_true_iff, !bool_decide_eq_true.
  unfold budget_of_entry. destruct b. cbn. split; [intuition congruence|]. intros (? & [= <- <- <- <-] & ?). tauto.
Qed.

Lemma unused_posted b kind l s :
  books s -> (forall e, e ∈ l -> e ∈ ledger_entries s) -> ~ used kind ->
  posted b kind Credit l s - posted b kind Debit l s = 0.
Proof.
  intros Hbk Hl Hn. rewrite <- net_posted. apply net_none. intros e He%Hl.
  destruct (es_account _ _ (bk_entries _ Hbk e He)) as (a & Ha & _). rewrite (on_spec _ _ _ _ _ Hbk Ha).
  destruct Ha as (_ & _ & _ & Hu). rewrite (bool_decide_false (la_account_kind a = kind)) by congruence.
  by rewrite andb_false_r.
Qed.

Lemma net_counted b snapshot kind s :
  books s ->
  let kept := filter (counted b snapshot s) (ledger_entries s) in
  net (budget_entry (bg_tenant b) (bg_budget b) (bg_window b) (bg_unit b) snapshot kind s) (ledger_entries s) =
  posted b kind Credit kept s - posted b kind Debit kept s.
Proof.
  intros Hbk kept. rewrite <- net_posted. subst kept.
  rewrite (net_ext _ (fun e => bool_decide (counted b snapshot s e) && on b kind s e))
    by (intros; by apply budget_entry_on).
  induction (ledger_entries s) as [|e l IH]; [done|]. cbn [net]. rewrite filter_cons, IH.
  case_bool_decide; by rewrite ?decide_True, ?decide_False by done.
Qed.

(** C24: what [query_budget_state] answers is what the postings went by, up to the
    snapshot. Of the entries on the budget's accounts it sums those that took effect by
    the snapshot, from the start of the window on and before its end: credits less
    debits of what is available, held and spent, debits less credits of what was
    deposited; debt and refunds, which no procedure here posts, are zero. When that
    leaves no entry of the budget out, the answer is the balances that the postings
    check. *)
Theorem state_is_balance b snapshot s :
  books s ->
  let answer := budget_state (bg_tenant b) (bg_budget b) (bg_window b) (bg_unit b) snapshot s in
  let kept := filter (counted b snapshot s) (ledger_entries s) in
  let credit kind := posted b kind Credit kept s - posted b kind Debit kept s in
  answer = {| bs_available_atomic := credit AvailableBudget; bs_reserved_hold_atomic := credit ReservedHold;
              bs_committed_spend_atomic := credit CommittedSpend; bs_debt_atomic := 0;
              bs_adjustment_atomic := - credit Adjustment; bs_refund_credit_atomic := 0 |} /\
  ((forall e, e ∈ ledger_entries s -> budget_of_entry e = b -> counted b snapshot s e) ->
   answer = {| bs_available_atomic := available b s; bs_reserved_hold_atomic := held b s;
               bs_committed_spend_atomic := spent b s; bs_debt_atomic := 0;
               bs_adjustment_atomic := funded b s; bs_refund_credit_atomic := 0 |}).
Proof.
  intros Hbk answer kept credit.
  assert (Ha : answer = {| bs_available_atomic := credit AvailableBudget; bs_reserved_hold_atomic := credit ReservedHold;
              bs_committed_spend_atomic := credit CommittedSpend; bs_debt_atomic := 0;
              bs_adjustment_atomic := - credit Adjustment; bs_refund_credit_atomic := 0 |}).
  { assert (Hno : forall kind, ~ used kind -> credit kind = 0).
    { intros kind. apply unused_posted; [done|]. by intros e [_ ?]%list_elem_of_filter. }
    subst answer. unfold budget_state. rewrite !(net_counted b) by done. fold kept.
    fold (credit AvailableBudget) (credit ReservedHold) (credit CommittedSpend) (credit Adjustment)
         (credit Debt) (credit RefundCredit).
    by rewrite (Hno Debt), (Hno RefundCredit) by (unfold used; intuition done). }
  split; [exact Ha|]. intros Hall. rewrite Ha. unfold available, held, spent, funded.
  assert (Hb : forall kind, credit kind = balance b kind s).
  { intros kind. subst credit kept. cbn beta zeta. rewrite <- (net_counted b) by done. rewrite balance_net. apply net_ext.
    intros e He. rewrite budget_entry_on by done. destruct (on b kind s e) eqn:Hon; [|by rewrite andb_false_r].
    rewrite bool_decide_true; [done|]. apply Hall; [done|].
    destruct (es_account _ _ (bk_entries _ Hbk e He)) as (a & Hac & _). rewrite (on_spec _ _ _ _ _ Hbk Hac) in Hon.
    by apply andb_true_iff in Hon as [?%bool_decide_eq_true _]. }
  by rewrite !Hb.
Qed.

(** ** [get_tenant] *)

Definition summary_account (tenant budget unit : uuid) (kind : AccountKind) (a : Account) : bool :=
  bool_decide (la_tenant_id a = tenant) && bool_decide (la_budget_id a = budget)
  && bool_decide (la_unit_id a = unit) && bool_decide (la_account_kind a = kind).

Fixpoint sum_balances (s : LedgerTables) (l : list Account) : Z :=
  match l with [] => 0 | a :: l => account_balance (la_ledger_account_id a) s + sum_balances s l end.

Lemma existsb_net (P : Account -> bool) l es :
  NoDup (la_ledger_account_id <$> l) ->
  net (fun e => existsb (fun a => bool_decide (la_ledger_account_id a = le_ledger_account_id e) && P a) l) es =
  foldr (fun a z => net (of_account (la_ledger_account_id a)) es + z) 0 (List.filter P l).
Proof.
  induction l as [|a l IH]; intros Hnd; [by apply net_none|]. rewrite fmap_cons, NoDup_cons in Hnd.
  destruct Hnd as [Hno Hnd]. cbn. specialize (IH Hnd).
  rewrite (net_add _ (fun e => bool_decide (la_ledger_account_id a = le_ledger_account_id e) && P a)
             (fun e => existsb (fun a => bool_decide (la_ledger_account_id a = le_ledger_account_id e) && P a) l)).
  - rewrite IH. destruct (P a); cbn; f_equal.
    + apply net_ext. intros e _. rewrite andb_true_r. unfold of_account. by apply bool_decide_ext.
    + rewrite (net_ext _ (fun _ => false)); [by rewrite net_false|]. intros e _. apply andb_false_r.
  - intros e _. case_bool_decide as Hid; cbn; [|by destruct (existsb _ _)].
    assert (existsb (fun a => bool_decide (la_ledger_account_id a = le_ledger_account_id e) && P a) l = false) as ->.
    { apply not_true_iff_false. intros (a' & Hin & Ha')%existsb_exists.
      apply andb_true_iff in Ha' as [Ha'%bool_decide_eq_true _]. apply Hno. rewrite Hid, <- Ha'.
      apply list_elem_of_fmap. exists a'. split; [done|by apply list_elem_of_In]. }
    by destruct (P a).
Qed.

(** The control plane's figures for a tenant are the ledger's: a row is of a
    budget and unit that the tenant has accounts in, and has the sums, over the
    windows, of the balances of the accounts. *)
Theorem summary_is_balance tenant s m :
  books s -> m ∈ tenant_budgets tenant s ->
  let total kind := sum_balances s (List.filter (summary_account tenant (bm_budget_id m) (bm_unit_id m) kind)
                                      (ledger_accounts s)) in
  (exists a, a ∈ ledger_accounts s /\ la_tenant_id a = tenant /\ la_budget_id a = bm_budget_id m /\
             la_unit_id a = bm_unit_id m) /\
  bm_available_atomic m = z_str (total AvailableBudget) /\ bm_reserved_atomic m = z_str (total ReservedHold) /\
  bm_committed_atomic m = z_str (total CommittedSpend).
Proof.
  intros Hbk ([bud u] & -> & Hin)%list_elem_of_fmap. cbn.
  assert (Hsum : forall kind, summed tenant bud u kind s =
    sum_balances s (List.filter (summary_account tenant bud u kind) (ledger_accounts s))).
  { intros kind. unfold summed. rewrite (net_ext _ (fun e => existsb (fun a =>
      bool_decide (la_ledger_account_id a = le_ledger_account_id e) && summary_account tenant bud u kind a)
      (ledger_accounts s))).
    - rewrite (existsb_net (summary_account tenant bud u kind)) by apply Hbk.
      clear Hin. induction (List.filter _ _) as [|a l IH]; cbn; [done|by rewrite IH].
    - intros e _. clear Hin. induction (ledger_accounts s) as [|a l IH]; cbn [existsb]; [done|]. rewrite IH. f_equal.
      unfold summary_account. by rewrite !andb_assoc. }
  rewrite !Hsum. split; [|done].
  apply (proj1 (elem_of_dedup _ _)) in Hin. apply list_elem_of_fmap in Hin as (a & [= -> ->] & Ha). exists a.
  apply list_elem_of_In, filter_In in Ha as [Ha Ht%bool_decide_eq_true]. by rewrite list_elem_of_In.
Qed.

End Balances.
