(* ===== verification/Cap.v ===== *)
(** * The spend cap

    The ledger's and the control plane's handlers, run interleaved, statement by
    statement, over one database, with outages that cut off a statement before or
    after it committed and with the other writers of the tables (invoice reconciliation
    and session reservations are not modelled): the books balance
    ([ledger_books]), available budget is never overdrawn as long as no provider report
    runs ([hard_cap]), and an answer that names a transaction names the one the
    request's key has ([answers_backed]). *)

From S2P Require Import Prelude Floats Deps Effects Proto Canonical Ingest Outbox LedgerDb Ledger Posting Books Auth ControlPlane LedgerRun.

Section Cap.
Context `{HU : UuidLib} `{HI : BigIntLib} `{HC : CryptoLib} `{HY : !UuidBytes} `{HT : ChronoLib}
        `{HJ : JsonLib} `{HB : Base64Lib} `{HG : !PgLib} `{HR : Rfc3339Lib} `{HV : ErrorTexts}.
Context (month_of : Z -> Z) (mirror_prediction_columns : string -> json -> Z -> result SqlError unit).

(** The other writers: pricing snapshots, forwarding states and redacted payloads,
    and whatever else leaves the books alone. *)
Definition background (s s' : LedgerTables) : Prop := evolves s s'.

(** ** The invariant, and what only grows *)

(** [capped]: without provider reports. *)
Definition ledger_inv (capped : bool) (s : LedgerTables) : Prop := books s /\ (capped = true -> floor s).

Definition grows (s s' : LedgerTables) : Prop :=
  (exists new, ledger_transactions s' = new ++ ledger_transactions s) /\
  (exists new, ledger_entries s' = new ++ ledger_entries s) /\
  (exists new, ledger_accounts s' = new ++ ledger_accounts s).

#[local] Instance grows_preorder : PreOrder grows.
Proof.
  split.
  - intros s. split_and!; by exists [].
  - intros s1 s2 s3 ((t & Ht) & (e & He) & (a & Ha)) ((t' & Ht') & (e' & He') & (a' & Ha')). split_and!.
    + exists (t' ++ t). by rewrite Ht', Ht, app_assoc.
    + exists (e' ++ e). by rewrite He', He, app_assoc.
    + exists (a' ++ a). by rewrite Ha', Ha, app_assoc.
Qed.

Lemma evolves_grows s s' : evolves s s' -> grows s s'.
Proof. intros HE. split_and!; exists []; apply HE. Qed.

Lemma evolves_inv capped s s' : ledger_inv capped s -> evolves s s' -> ledger_inv capped s' /\ grows s s'.
Proof.
  intros [HBk HF] HE. split; [|by apply evolves_grows]. split; [by eapply evolves_books|].
  intros Hc. by eapply evolves_floor, HF.
Qed.

Section Inv.
Context (capped : bool).
Abbreviation keeps := (LedgerRun.keeps (ledger_inv capped) grows).
Abbreviation sp_keeps := (LedgerRun.sp_keeps (ledger_inv capped) grows).
Abbreviation safe := (LedgerRun.safe (ledger_inv capped) grows).

(** The request's transaction is there. *)
Definition posted_as (tx : TransactionJson) (op : OperationKind) (id : uuid) (s : LedgerTables) : Prop :=
  exists t, t ∈ ledger_transactions s /\ transaction_key t = (pt_tenant_id tx, op, pt_idempotency_key tx) /\
            lt_ledger_transaction_id t = id /\ lt_request_hash t = pt_request_hash tx.

Lemma replayed_as tx op s id : replayed tx op s id -> posted_as tx op id s.
Proof.
  intros (t & Hf & Hh & ->). apply List.find_some in Hf as [Hin Hk]. exists t.
  split; [by apply list_elem_of_In|]. split; [|done]. unfold same_key in Hk.
  rewrite !andb_true_iff, !bool_decide_eq_true, String.eqb_eq in Hk. destruct Hk as ((? & ?) & ?).
  unfold transaction_key. congruence.
Qed.

Lemma post_inv now tx op outbox q t new res com s :
  ledger_inv capped s -> posted now tx op outbox t s -> proper tx new res s ->
  (capped = true -> forall a, a ∈ ledger_accounts s -> la_account_kind a = AvailableBudget ->
     0 <= net (of_account (la_ledger_account_id a)) (new ++ ledger_entries s)) ->
  let s' := with_commits com (with_reservations res (post month_of now tx op outbox q t new s)) in
  ledger_inv capped s' /\ grows s s' /\ posted_as tx op (pt_ledger_transaction_id tx) s'.
Proof.
  intros [HBk HF] HP HN Hfl s'. split; [split|split].
  - by apply post_books.
  - exact Hfl.
  - split_and!; [by exists [t]|by exists new|by exists []].
  - destruct (posted_ids _ _ _ _ _ _ HP) as (Hid & _ & Hkey & _). exists t. split; [by left|].
    split; [done|]. split; [done|]. by destruct (pd_row _ _ _ _ _ _ HP) as (eff & token & ->).
Qed.

Lemma keeps_post_ledger k1 k2 op tx entries rows outbox token :
  pairs k1 k2 entries -> k1.2 <> k2.2 -> used k1.1 -> used k2.1 ->
  k1 <> (ReservedHold, Debit) -> k2 <> (ReservedHold, Debit) ->
  keeps (fun now _ => post_ledger_transaction month_of mirror_prediction_columns now op tx entries rows outbox token)
    (posted_as tx op).
Proof.
  intros Hp Hne Hu1 Hu2 Hn1 Hn2 now random s id s' HI' Hpost.
  apply post_ledger_transaction_spec in Hpost as [[Hr ->]|(q & t & new & res & -> & -> & HL)].
  { split; [done|]. split; [done|]. by apply replayed_as. }
  destruct HI' as [HBk HF]. pose proof (pairs_proper _ _ _ _ _ _ _ _ _ _ _ _ HBk Hp Hne Hu1 Hu2 Hn1 Hn2 HL) as HN.
  apply (post_inv now tx op outbox q t new res (commits s) s); [done|apply HL|done|].
  intros Hc a Ha Hk. eapply ledger_floor; [done|by apply HF|done|exact HL|done|done].
Qed.

Lemma keeps_commit tx reservation text pricing outbox :
  keeps (fun now _ => post_commit_estimated_transaction month_of mirror_prediction_columns now tx reservation text
                        pricing outbox) (posted_as tx OpCommitEstimated).
Proof.
  intros now random s id s' HI' (estimated & _ & [[Hr ->]|Hpost])%post_commit_estimated_spec.
  { split; [done|]. split; [done|]. by apply replayed_as. }
  destruct Hpost as (q & t & new & row & reserve & c & -> & -> & _ & _ & HP). destruct HI' as [HBk HF].
  apply post_inv; [done|apply HP|by eapply commit_proper|].
  intros Hc a Ha Hk. eapply commit_floor; [done|by apply HF|exact HP|done|done].
Qed.

Lemma keeps_release tx set reason outbox :
  keeps (fun now _ => post_release_transaction month_of mirror_prediction_columns now tx set reason outbox)
    (posted_as tx OpRelease).
Proof.
  intros now random s id s' HI' [[Hr ->]|Hpost]%post_release_spec.
  { split; [done|]. split; [done|]. by apply replayed_as. }
  destruct Hpost as (q & t & new & reservation & row & reserve & -> & -> & HP). destruct HI' as [HBk HF].
  set (res := <[reservation := with_state ReleasedState row]> (reservations s)).
  change (with_reservations res _) with
    (with_commits (commits s) (with_reservations res (post month_of now tx OpRelease outbox q t new s))).
  apply post_inv; [done|apply HP|by eapply release_proper|].
  intros Hc a Ha Hk. eapply release_floor; [done|by apply HF|exact HP|done|done].
Qed.

(** A posting without entries. *)
Lemma empty_proper tx s : books s -> fresh_id (pt_ledger_transaction_id tx) s -> proper tx [] (reservations s) s.
Proof.
  intros HBk Hid. constructor; cbn.
  - by intros e ?%elem_of_nil.
  - apply HBk.
  - done.
  - intros id r Hr. by exists r.
  - apply HBk.
Qed.

Lemma keeps_denied tx outbox :
  keeps (fun now _ => post_denied_decision_transaction month_of mirror_prediction_columns now tx outbox)
    (posted_as tx OpDeniedDecision).
Proof.
  intros now random s id s' HI' [[Hr ->]|(t & -> & -> & HP & _)]%post_denied_decision_spec.
  { split; [done|]. split; [done|]. by apply replayed_as. }
  destruct HI' as [HBk HF].
  apply (post_inv now tx OpDeniedDecision outbox (ledger_sequence_allocators s) t [] (reservations s) (commits s) s);
    [done|done|by apply empty_proper, HP|]. intros Hc. apply HF, Hc.
Qed.

Lemma keeps_report tx reservation text pricing outbox :
  capped = false ->
  keeps (fun now _ => post_provider_reported_transaction month_of mirror_prediction_columns now tx reservation text
                        pricing outbox) (posted_as tx OpProviderReport).
Proof.
  intros Hcap now random s id s' HI' (amount & _ & [[Hr ->]|Hpost])%post_provider_reported_spec.
  { split; [done|]. split; [done|]. by apply replayed_as. }
  destruct Hpost as (q & t & new & row & reserve & cid & c & -> & -> & HP). destruct HI' as [HBk HF].
  apply (post_inv now tx OpProviderReport outbox q t new (reservations s) _ s); [done|apply HP|by eapply report_proper|].
  by rewrite Hcap.
Qed.

(** *** Statements that post nothing *)

Lemma evolves_refl s : evolves s s.
Proof.
  constructor; try done; [apply same_rows|]. intros id f Hf. exists f. split; [done|apply lease_refl].
Qed.

(** A change of tables that the books do not read. *)
Ltac evolves_frame :=
  constructor; try done; [apply same_rows|];
  let id := fresh in let f := fresh in let Hf := fresh in
  intros id f Hf; exists f; split; [exact Hf|apply lease_refl].

Lemma evolves_approvals a ev s : evolves s (with_approvals a ev s).
Proof. evolves_frame. Qed.

Lemma evolves_scopes f ev s :
  (forall id g, fencing_scopes s !! id = Some g -> exists g', f !! id = Some g' /\ lease_goes_on g g') ->
  evolves s (with_scopes f ev s).
Proof. intros Hf. constructor; try done. apply same_rows. Qed.

Lemma inv_approvals a ev s :
  ledger_inv capped s -> ledger_inv capped (with_approvals a ev s) /\ grows s (with_approvals a ev s).
Proof. intros HI'. by apply (evolves_inv capped s), evolves_approvals. Qed.

Lemma keeps_approval_required fresh tx outbox ctx eff ttl :
  keeps (fun now random => post_approval_required_decision month_of mirror_prediction_columns now (fresh random) tx
                             outbox ctx eff ttl) (fun r => posted_as tx OpDeniedDecision (po_ledger_transaction_id r)).
Proof.
  intros now random s r s' HI' (s1 & Hd & Ha)%post_approval_required_spec.
  destruct (keeps_denied tx outbox now random s _ s1 HI' Hd) as (HI1 & Hg & Ht).
  destruct (po_was_first_insert r).
  - destruct Ha as (_ & _ & _ & ->). edestruct inv_approvals as [HI2 Hg2]; [exact HI1|].
    split; [exact HI2|]. split; [etrans; [exact Hg|exact Hg2]|done].
  - destruct Ha as [_ ->]. done.
Qed.

Lemma keeps_lease scope tenant workload ttl force audit :
  keeps (fun now _ => LedgerDb.acquire_fencing_lease now scope tenant workload ttl force audit) (fun _ _ => True).
Proof.
  intros now random s r s' HI' (f & Hf & _ & Hr)%acquire_fencing_lease_spec.
  destruct (lr_granted r); [|by destruct Hr as [-> _]]. destruct Hr as (-> & _ & Hepoch).
  assert (HE : evolves s (with_scopes
    (<[scope := with_lease (lr_new_epoch r) (Some workload) (lr_expires_at r) f]> (fencing_scopes s))
    ({| fe_fencing_scope_id := scope; fe_old_epoch := fs_current_epoch f; fe_new_epoch := lr_new_epoch r;
        fe_owner_instance_id := workload; fe_action := lr_action r; fe_audit_event_id := audit |}
     :: fencing_scope_events s) s)).
  { apply evolves_scopes. intros id g Hg. destruct (decide (scope = id)) as [<-|Hne].
    - rewrite lookup_insert_eq. rewrite Hf in Hg. injection Hg as <-. eexists. split; [done|]. split; [done|]. cbn.
      destruct Hepoch as [(-> & -> & _)|[-> _]]; [by left|right; lia].
    - rewrite lookup_insert_ne by done. exists g. split; [done|apply lease_refl]. }
  by destruct (evolves_inv capped s _ HI' HE) as [? ?].
Qed.

Lemma lock_approval_ok id s a s' : lock_approval id s = Ok (a, s') -> s' = s.
Proof. unfold lock_approval. intros (o & s1 & [= <- <-] & H)%sp_bind_ok. by apply found_ok in H as [_ ->]. Qed.

Lemma keeps_bundled id tx_id : keeps (fun _ _ => LedgerDb.mark_approval_bundled id tx_id) (fun _ _ => True).
Proof.
  intros now random s r s' HI' H. apply sp_bind_ok in H as (a & s1 & ->%lock_approval_ok & H).
  apply sp_bind_ok in H as (u & s1 & [_ ->]%check_ok & H).
  destruct (ap_bundled_ledger_transaction_id a) as [b|].
  - apply sp_bind_ok in H as (v & s1 & [_ ->]%check_ok & H). by injection H as <- <-.
  - apply sp_bind_ok in H as (v & s1 & [= <- <-] & H). injection H as <- <-.
    edestruct inv_approvals as [HI2 Hg2]; [exact HI'|]. split; [exact HI2|]. by split.
Qed.

(** A resolution touches the approvals only. *)
Lemma resolve_approval_request_spec now fresh id target subject issuer reason s r s' :
  resolve_approval_request now fresh id target subject issuer reason s = Ok (r, s') ->
  s' = s \/ exists a ev, s' = with_approvals a ev s.
Proof.
  unfold resolve_approval_request. intros H. apply sp_bind_ok in H as (a & s1 & ->%lock_approval_ok & H).
  case_bool_decide; [injection H as _ <-; by left|]. right.
  apply sp_bind_ok in H as (u1 & s1 & [_ ->]%check_ok & H). apply sp_bind_ok in H as (u2 & s1 & [_ ->]%check_ok & H).
  apply sp_bind_ok in H as (u3 & s1 & [_ ->]%check_ok & H). cbv zeta in H.
  apply sp_bind_ok in H as (u4 & s1 & [_ ->]%constraint_ok & H).
  apply sp_bind_ok in H as (u5 & s1 & H5 & H).
  assert (s1 = s) as -> by (destruct (_ && _) in H5; [done|by injection H5 as _ <-]).
  apply sp_bind_ok in H as (taken & s1 & [= <- <-] & H). apply sp_bind_ok in H as (u6 & s1 & H6 & H).
  assert (s1 = s) as -> by (destruct (existsb _ _) in H6; [done|by injection H6 as _ <-]).
  apply sp_bind_ok in H as (u7 & s1 & [= <- <-] & H). injection H as _ <-. by eexists _, _.
Qed.

Lemma keeps_resolve fresh id target subject issuer reason :
  keeps (fun now random => resolve_approval_request now (fresh random) id target subject issuer reason)
    (fun _ _ => True).
Proof.
  intros now random s r s' HI' [->|(a & ev & ->)]%resolve_approval_request_spec; [by split_and!|].
  by destruct (inv_approvals a ev s HI').
Qed.

Lemma keeps_expire tenant : keeps (fun now _ => expire_scopes tenant now) (fun _ _ => True).
Proof.
  intros now random s u s' HI' [= _ <-].
  match goal with |- ledger_inv _ (with_scopes ?f ?ev s) /\ _ => assert (HE : evolves s (with_scopes f ev s)) end.
  { apply evolves_scopes. intros id g Hg. rewrite lookup_fmap, Hg. cbn. eexists. split; [done|].
    destruct (_ && _); [|apply lease_refl]. split; [done|]. by left. }
  by destruct (evolves_inv capped s _ HI' HE) as [? ?].
Qed.

(** *** A new tenant *)

Lemma sp_keeps_reads {A} (m : sp A) : (forall s a s', m s = Ok (a, s') -> s' = s) -> sp_keeps m.
Proof. intros Hm s a s' HI' ->%Hm. by split. Qed.

Lemma insert_unit_keeps id row : sp_keeps (insert_unit id row).
Proof.
  intros s u s' HI' H. unfold insert_unit in H. apply sp_bind_ok in H as (b & s1 & [= <- <-] & H).
  destruct (_ || _) in H; [by injection H as _ <-|]. injection H as _ <-.
  apply evolves_inv; [done|]. evolves_frame.
Qed.

Lemma insert_window_keeps id row : sp_keeps (insert_window id row).
Proof.
  intros s u s' HI' H. unfold insert_window in H. apply sp_bind_ok in H as (b & s1 & [= <- <-] & H).
  apply sp_bind_ok in H as (v & s1 & [_ ->]%free_ok & H). injection H as _ <-.
  apply evolves_inv; [done|]. evolves_frame.
Qed.

Lemma insert_scope_keeps id row : sp_keeps (insert_scope id row).
Proof.
  intros s u s' HI' H. unfold insert_scope in H. apply sp_bind_ok in H as (b & s1 & [= <- <-] & H).
  apply sp_bind_ok in H as (v & s1 & [Hfree ->]%free_ok & H).
  apply sp_bind_ok in H as (same & s1 & [= <- <-] & H). destruct (existsb _ _) in H; [done|]. injection H as _ <-.
  apply evolves_inv; [done|]. apply evolves_scopes. intros i g Hg. exists g.
  split; [|apply lease_refl]. rewrite lookup_insert_ne; [done|]. intros <-. congruence.
Qed.

Lemma insert_account_keeps a : sp_keeps (insert_account a).
Proof.
  intros s u s' [HBk HF] H. unfold insert_account in H. apply sp_bind_ok in H as (w & s1 & [= <- <-] & H).
  apply sp_bind_ok in H as (v & s1 & [_ ->]%constraint_ok & H). apply sp_bind_ok in H as (w & s1 & [= <- <-] & H).
  apply sp_bind_ok in H as (v' & s1 & [_ ->]%constraint_ok & H). apply sp_bind_ok in H as (tk & s1 & [= <- <-] & H).
  destruct (existsb _ _) eqn:He in H; [done|]. apply sp_bind_ok in H as (o & s1 & [= <- <-] & H).
  apply sp_bind_ok in H as (v2 & s1 & [Hno ->]%free_ok & H). injection H as _ <-.
  assert (Hfr : fresh_account a s).
  { split; [|exact Hno]. intros b Hb Heq. apply (existsb_none _ _ _ He) in Hb. by rewrite bool_decide_true in Hb. }
  split; [split|].
  - by apply account_books.
  - intros Hc. apply account_floor; [done|by apply HF|done].
  - split_and!; [by exists []|by exists []|by exists [a]].
Qed.

(** The deposit credits available budget from the adjustment account. *)
Lemma deposit_pairs ids amount pricing :
  pairs (AvailableBudget, Credit) (Adjustment, Debit) (deposit_entries ids amount pricing).
Proof. by repeat constructor. Qed.

Lemma keeps_provision ids row workload writer decision audit outbox_id tx_id amount effective_at :
  keeps (provision month_of mirror_prediction_columns ids row workload writer decision audit outbox_id tx_id amount
           effective_at) (fun _ _ => True).
Proof.
  intros now random s a s' HI' H.
  enough (HK : sp_keeps (provision month_of mirror_prediction_columns ids row workload writer decision audit outbox_id
                           tx_id amount effective_at now random))
    by (destruct (HK s a s' HI' H); by split_and!).
  unfold provision. apply (sp_keeps_bind _ grows); [apply insert_unit_keeps|intros _].
  apply (sp_keeps_bind _ grows); [apply insert_window_keeps|intros _]. apply (sp_keeps_bind _ grows); [apply insert_scope_keeps|intros _].
  apply (sp_keeps_bind _ grows); [apply (sp_keeps_each _ grows), insert_account_keeps|intros _].
  apply (sp_keeps_bind _ grows); [apply insert_scope_keeps|intros _].
  apply (sp_keeps_bind _ grows); [by apply sp_keeps_reads; intros ??? [= _ <-]|intros found].
  apply (sp_keeps_bind _ grows); [apply sp_keeps_reads; destruct found as [[v r]|]; by intros ??? [=]|intros pricing].
  intros s1 id s2 HI1 Hp.
  destruct (keeps_post_ledger _ _ OpAdjustment (deposit_transaction ids tx_id decision audit writer effective_at) _ []
              (deposit_outbox outbox_id audit (ti_tenant ids) amount) None (deposit_pairs ids amount pricing)
              ltac:(done) ltac:(unfold used; tauto) ltac:(unfold used; tauto) ltac:(done) ltac:(done)
              now random s1 id s2 HI1 Hp) as (? & ? & _). by split.
Qed.

(** *** A reservation's claims *)

Lemma claims_pairs claims ids pricing :
  pairs (AvailableBudget, Debit) (ReservedHold, Credit) (build_entries_payload claims ids pricing).
Proof.
  unfold build_entries_payload. revert ids; induction claims as [|c claims IH]; intros [|id ids]; cbn;
    by constructor.
Qed.

Lemma keeps_reserve tx claims ids pricing rows outbox token :
  keeps (fun now _ => post_ledger_transaction month_of mirror_prediction_columns now OpReserve tx
                        (build_entries_payload claims ids pricing) rows outbox token) (posted_as tx OpReserve).
Proof. eapply keeps_post_ledger; [apply claims_pairs|..]; cbn; unfold used; try done; tauto. Qed.

(** ** The handlers *)

Abbreviation ledger_follows Q p := (follows handle_ledger (ledger_inv capped) grows grows Q p).

(** What identifies a request: tenant, operation, idempotency key and hash. *)
Record Stamp := {
  sm_tenant : string;
  sm_operation : OperationKind;
  sm_key : string;
  sm_hash : string;
}.

Definition stamp (tenant : string) (op : OperationKind) (i : option Idempotency)
    (hash : Idempotency -> result DomainError string) : option Stamp :=
  match i with
  | Some i =>
      match hash i with
      | Ok h => Some {| sm_tenant := tenant; sm_operation := op; sm_key := idem_key i; sm_hash := h |}
      | Err _ => None
      end
  | None => None
  end.

(** The transaction that the request's key has, for this very request. *)
Definition stamped (o : option Stamp) (t : LedgerTransaction) : Prop :=
  exists st, o = Some st /\ uuid_parse (sm_tenant st) = Some (lt_tenant_id t) /\ lt_operation_kind t = sm_operation st /\
             lt_idempotency_key t = sm_key st /\ lt_request_hash t = sm_hash st.

Definition names (o : option Stamp) (id : string) (s : LedgerTables) : Prop :=
  exists t, t ∈ ledger_transactions s /\ stamped o t /\ uuid_str (lt_ledger_transaction_id t) = id.

Lemma names_grows o id s s' : grows s s' -> names o id s -> names o id s'.
Proof.
  intros ((new & Ht) & _) (t & Hin & H). exists t. split; [|done]. rewrite Ht. apply elem_of_app. by right.
Qed.

Lemma posted_names o st tx id s :
  o = Some st -> uuid_parse (sm_tenant st) = Some (pt_tenant_id tx) -> pt_idempotency_key tx = sm_key st ->
  pt_request_hash tx = sm_hash st -> posted_as tx (sm_operation st) id s -> names o (uuid_str id) s.
Proof.
  intros Ho Hp Hk Hh (t & Hin & Hkey & <- & Hhash). injection Hkey as Ht Hop Hik. exists t.
  split; [done|]. split; [|done]. exists st. rewrite Ht. by split_and!; congruence.
Qed.

Lemma parse_uuid_ok x field u : parse_uuid x field = Ok u -> uuid_parse x = Some u.
Proof. apply ok_or_ok. Qed.

Lemma replay_follows {S} id f (k : LedgerTransaction -> Replay) (id_of : S -> string) (N : string -> LedgerTables -> Prop) s :
  (forall t, lt_ledger_transaction_id t = id -> rp_ledger_transaction_id (k t) = uuid_str id) ->
  (forall s s', grows s s' -> N (uuid_str id) s -> N (uuid_str id) s') -> N (uuid_str id) s ->
  forall find, (forall t s, find s = Some t -> lt_ledger_transaction_id t = id) ->
  ledger_follows (outcome_names id_of N)
    ((t ← query f (fetch_one find); mret (k t)) ≫= fun r : Replay => mret (Replayed r) : M ledgerE DomainError (Outcome S)) s.
Proof.
  intros Hk Hmono HN find Hfind. apply follows_pbind. eapply (follows_query _ grows); [apply (keeps_fetch_one _ grows)| |done].
  intros t s1 Hg Hf. cbn. rewrite (Hk t (Hfind _ _ Hf)).
  exact (Hmono _ _ Hg HN).
Qed.

Lemma find_by_id_id id s t : find_by_id id s = Some t -> lt_ledger_transaction_id t = id.
Proof. unfold find_by_id. intros [_ H]%List.find_some. by apply bool_decide_eq_true in H. Qed.

Lemma require_idempotency_ok o i : require_idempotency o = Ok i -> o = Some i.
Proof. unfold require_idempotency. intros H. mon_inv H. congruence. Qed.

(** *** The handlers that post *)

Definition reserve_stamp (req : ReserveSetRequest) : option Stamp :=
  stamp (rr_tenant_id req) OpReserve (rr_idempotency req) (reserve_request_hash req).

Definition commit_stamp (req : CommitEstimatedRequest) : option Stamp :=
  stamp (cr_tenant_id req) OpCommitEstimated (cr_idempotency req) (fun i =>
    amount ← require_amount "estimated_amount_atomic" (cr_estimated_amount_atomic req);
    commit_request_hash req amount (idem_request_hash i)).

Definition release_stamp (req : ReleaseRequest) : option Stamp :=
  stamp (rl_tenant_id req) OpRelease (rl_idempotency req) (fun i =>
    reason ← reason_str (rl_reason req); release_request_hash req reason (idem_request_hash i)).

Definition denied_stamp (req : RecordDeniedDecisionRequest) : option Stamp :=
  stamp (rd_tenant_id req) OpDeniedDecision (rd_idempotency req) (fun _ => Ok (denied_request_hash req)).

Definition report_stamp (req : ProviderReportRequest) : option Stamp :=
  stamp (pv_tenant_id req) OpProviderReport (pv_idempotency req) (fun i =>
    amount ← require_amount "provider_reported_amount_atomic" (pv_provider_reported_amount_atomic req);
    provider_request_hash req amount (idem_request_hash i)).

(** The statement posted the request's transaction, or found it. *)
Lemma answer_follows {S} (id_of : S -> string) o (id returned : uuid)
    (success replay : M ledgerE DomainError (Outcome S)) s :
  names o (uuid_str returned) s ->
  (names o (uuid_str id) s -> ledger_follows (outcome_names id_of (names o)) success s) ->
  (names o (uuid_str returned) s -> ledger_follows (outcome_names id_of (names o)) replay s) ->
  ledger_follows (outcome_names id_of (names o)) (if bool_decide (returned = id) then success else replay) s.
Proof. intros HN Hs Hr. case_bool_decide; [subst; auto|auto]. Qed.

Ltac request_facts :=
  repeat match goal with
  | H : parse_uuid _ _ = Ok _ |- _ => apply parse_uuid_ok in H
  | H : require_idempotency _ = Ok _ |- _ => apply require_idempotency_ok in H
  end.

(** The posted transaction bears the request's stamp. *)
Ltac stamped_by stamp_of :=
  eapply posted_names;
    [ unfold stamp_of, stamp; repeat (match goal with H : _ = Ok _ |- _ => rewrite H | H : _ = Some _ |- _ => rewrite H end; cbn);
      reflexivity | | | | eassumption ];
    [ eassumption | reflexivity | reflexivity ].

Lemma reserve_set_follows req s :
  ledger_follows (outcome_names rs_ok_ledger_transaction_id (names (reserve_stamp req)))
    (reserve_set month_of mirror_prediction_columns req) s.
Proof.
  apply (respond_follows _ grows). unfold reserve_set_inner. follows_steps. eapply (follows_query _ grows); [apply keeps_reserve| |done].
  intros returned s2 _ Hp. request_facts.
  eapply answer_follows; [stamped_by reserve_stamp|done|].
  intros HN. eapply replay_follows; [|apply names_grows|exact HN|intros ? ?; apply find_by_id_id].
  by intros t <-.
Qed.

(** What a commit or a report answers. *)
Lemma settle_follows o id returned reservation s :
  names o (uuid_str returned) s ->
  ledger_follows (outcome_names cs_ledger_transaction_id (names o))
    (if bool_decide (returned = id) then success ← settle_success id reservation; mret (Success success)
     else replay ← settle_replay returned reservation; mret (Replayed replay)) s.
Proof.
  intros HN. eapply answer_follows; [exact HN| |].
  - intros HN'. apply follows_pbind. unfold settle_success. eapply (follows_query _ grows); [apply (keeps_fetch_one _ grows)| |done].
    intros delta s1 Hg _. cbn. by eapply names_grows.
  - intros HN'. eapply replay_follows; [|apply names_grows|exact HN'|intros ? ?; apply find_by_id_id]. by intros t <-.
Qed.

Lemma commit_estimated_follows req s :
  ledger_follows (outcome_names cs_ledger_transaction_id (names (commit_stamp req)))
    (commit_estimated month_of mirror_prediction_columns req) s.
Proof.
  apply (respond_follows _ grows). unfold commit_estimated_inner. follows_steps.
  eapply (follows_query _ grows); [apply keeps_commit| |done]. intros returned s2 _ Hp. request_facts.
  apply settle_follows. stamped_by commit_stamp.
Qed.

Lemma provider_report_follows req s :
  capped = false ->
  ledger_follows (outcome_names cs_ledger_transaction_id (names (report_stamp req)))
    (provider_report month_of mirror_prediction_columns req) s.
Proof.
  intros Hcap. apply (respond_follows _ grows). unfold provider_report_inner. follows_steps.
  eapply (follows_query _ grows); [by apply keeps_report| |done]. intros returned s2 _ Hp. request_facts.
  apply settle_follows. stamped_by report_stamp.
Qed.

Lemma ledger_release_follows req s :
  ledger_follows (outcome_names rl_ok_ledger_transaction_id (names (release_stamp req)))
    (release month_of mirror_prediction_columns req) s.
Proof.
  apply (respond_follows _ grows). unfold release_inner. follows_steps.
  eapply (follows_query _ grows); [apply keeps_release| |done]. intros returned s2 _ Hp. request_facts.
  eapply answer_follows; [stamped_by release_stamp|done|].
  intros HN. eapply (follows_query _ grows); [apply (keeps_fetch_one _ grows)| |done].
  intros t s3 Hg <-%find_by_id_id. cbn. by eapply names_grows.
Qed.

Lemma find_denied_id id s t : find_denied id s = Some t -> lt_ledger_transaction_id t = id.
Proof.
  unfold find_denied. destruct (find_by_id id s) as [u|] eqn:Hf; [|done]. case_bool_decide; [|done].
  intros [= <-]. by eapply find_by_id_id.
Qed.

Lemma record_denied_follows req s :
  ledger_follows (outcome_names rd_ok_ledger_transaction_id (names (denied_stamp req)))
    (record_denied_decision month_of mirror_prediction_columns req) s.
Proof.
  apply (respond_follows _ grows). unfold record_denied_inner. follows_steps. destruct (approval_payload req) as [[ctx eff]|].
  - cbv zeta. eapply (follows_query _ grows); [apply (keeps_approval_required (fun random => random 0%nat))| |done].
    intros out s2 _ Hp. request_facts.
    assert (HN : names (denied_stamp req) (uuid_str (po_ledger_transaction_id out)) s2) by (cbn beta in Hp; stamped_by denied_stamp).
    destruct (po_was_first_insert out && bool_decide (po_ledger_transaction_id out = x)) eqn:Hfirst.
    + apply andb_true_iff in Hfirst as [_ <-%bool_decide_eq_true]. exact HN.
    + eapply replay_follows; [|apply names_grows|exact HN|intros ? ?; apply find_denied_id]. by intros t <-.
  - eapply (follows_query _ grows); [apply keeps_denied| |done]. intros returned s2 _ Hp. request_facts.
    eapply answer_follows; [stamped_by denied_stamp|done|].
    intros HN. eapply replay_follows; [|apply names_grows|exact HN|intros ? ?; apply find_denied_id]. by intros t <-.
Qed.

(** *** The other handlers *)

Lemma acquire_fencing_lease_safe req : safe (acquire_fencing_lease req).
Proof. unfold acquire_fencing_lease, acquire_inner. safe_steps. eapply (safe_query _ grows), keeps_lease. Qed.

Lemma query_reservation_context_safe req : safe (query_reservation_context req).
Proof. unfold query_reservation_context, query_context_inner. safe_steps. Qed.

Lemma query_budget_state_safe req : safe (query_budget_state req).
Proof. unfold query_budget_state, query_budget_inner. safe_steps. Qed.

Lemma get_approval_for_resume_safe req : safe (get_approval_for_resume req).
Proof. unfold get_approval_for_resume. safe_steps. Qed.

Lemma mark_approval_bundled_safe req : safe (mark_approval_bundled req).
Proof. unfold mark_approval_bundled. safe_steps. eapply (safe_sql _ grows), keeps_bundled. Qed.

Lemma query_decision_outcome_safe req : safe (query_decision_outcome req).
Proof. unfold query_decision_outcome. safe_steps. Qed.

Lemma create_tenant_safe p req : safe (create_tenant month_of mirror_prediction_columns p req).
Proof. unfold create_tenant. safe_steps. eapply (safe_http _ grows), keeps_provision. Qed.

Lemma get_tenant_safe p id : safe (get_tenant p id).
Proof. unfold get_tenant. safe_steps. Qed.

Lemma tombstone_tenant_safe p id : safe (tombstone_tenant p id).
Proof.
  unfold tombstone_tenant. safe_steps. eapply (safe_http _ grows). intros now random. apply (keeps_expire _ now random).
Qed.

Lemma list_approvals_safe p tenant st limit : safe (list_approvals p tenant st limit).
Proof. unfold list_approvals. safe_steps. Qed.

Lemma get_approval_safe p id : safe (get_approval p id).
Proof. unfold get_approval. safe_steps. Qed.

Lemma resolve_approval_safe p id target reason : safe (resolve_approval p id target reason).
Proof. unfold resolve_approval. safe_steps. eapply (safe_http _ grows), (keeps_resolve (fun random => random 0%nat)). Qed.

End Inv.

(** ** Calls *)

Inductive Call :=
  | ReserveSet (req : ReserveSetRequest)
  | CommitEstimated (req : CommitEstimatedRequest)
  | Release (req : ReleaseRequest)
  | RecordDeniedDecision (req : RecordDeniedDecisionRequest)
  | ProviderReport (req : ProviderReportRequest)
  | AcquireFencingLease (req : AcquireFencingLeaseRequest)
  | QueryReservationContext (req : QueryReservationContextRequest)
  | QueryBudgetState (req : QueryBudgetStateRequest)
  | QueryDecisionOutcome (req : QueryDecisionOutcomeRequest)
  | GetApprovalForResume (req : GetApprovalForResumeRequest)
  | MarkApprovalBundled (req : MarkApprovalBundledRequest)
  | CreateTenant (p : Principal) (req : CreateTenantReq)
  | GetTenant (p : Principal) (id : string)
  | TombstoneTenant (p : Principal) (id : string)
  | ListApprovals (p : Principal) (tenant : string) (st : option string) (limit : option Z)
  | GetApproval (p : Principal) (id : string)
  | ResolveApproval (p : Principal) (id target reason : string).

(** An answer: with the transaction that it names, or of another call. *)
Inductive Answer :=
  | Posted (r : result Status (Outcome string))
  | Done {R} (r : R).

Definition map_outcome {A B} (f : A -> B) (r : result Status (Outcome A)) : result Status (Outcome B) :=
  match r with
  | Ok (Success x) => Ok (Success (f x))
  | Ok (Replayed rp) => Ok (Replayed rp)
  | Ok (Failure e) => Ok (Failure e)
  | Err e => Err e
  end.

Definition posted_by {A} (f : A -> string) (p : prog ledgerE (result Status (Outcome A))) : prog ledgerE Answer :=
  pbind p (fun r => Ret (Posted (map_outcome f r))).
Definition done_by {R} (p : prog ledgerE R) : prog ledgerE Answer := pbind p (fun r => Ret (Done r)).

Definition serve (c : Call) : prog ledgerE Answer :=
  match c with
  | ReserveSet req => posted_by rs_ok_ledger_transaction_id (reserve_set month_of mirror_prediction_columns req)
  | CommitEstimated req => posted_by cs_ledger_transaction_id (commit_estimated month_of mirror_prediction_columns req)
  | Release req => posted_by rl_ok_ledger_transaction_id (release month_of mirror_prediction_columns req)
  | RecordDeniedDecision req =>
      posted_by rd_ok_ledger_transaction_id (record_denied_decision month_of mirror_prediction_columns req)
  | ProviderReport req => posted_by cs_ledger_transaction_id (provider_report month_of mirror_prediction_columns req)
  | AcquireFencingLease req => done_by (acquire_fencing_lease req)
  | QueryReservationContext req => done_by (query_reservation_context req)
  | QueryBudgetState req => done_by (query_budget_state req)
  | QueryDecisionOutcome req => done_by (query_decision_outcome req)
  | GetApprovalForResume req => done_by (get_approval_for_resume req)
  | MarkApprovalBundled req => done_by (mark_approval_bundled req)
  | CreateTenant p req => done_by (create_tenant month_of mirror_prediction_columns p req)
  | GetTenant p id => done_by (get_tenant p id)
  | TombstoneTenant p id => done_by (tombstone_tenant p id)
  | ListApprovals p tenant st limit => done_by (list_approvals p tenant st limit)
  | GetApproval p id => done_by (get_approval p id)
  | ResolveApproval p id target reason => done_by (resolve_approval p id target reason)
  end.

(** The request that a posting answer is to. *)
Definition call_stamp (c : Call) : option Stamp :=
  match c with
  | ReserveSet req => reserve_stamp req
  | CommitEstimated req => commit_stamp req
  | Release req => release_stamp req
  | RecordDeniedDecision req => denied_stamp req
  | ProviderReport req => report_stamp req
  | _ => None
  end.

(** *** Any invariant that the statements keep *)

Section CallsKeep.
Context (Inv : LedgerTables -> Prop) (G : LedgerTables -> LedgerTables -> Prop) {HGP : PreOrder G}.
Abbreviation keeps stmt := (LedgerRun.keeps Inv G stmt (fun _ _ => True)).

(** The statements of the handlers, with the audit rows they hand over. *)
Record calls_keep : Prop := {
  ck_post : forall op tx entries rows id type evt seq token, keeps (fun now _ =>
    post_ledger_transaction month_of mirror_prediction_columns now op tx entries rows (outbox_json id type evt seq) token);
  ck_commit : forall tx reservation text pricing id type evt seq, keeps (fun now _ =>
    post_commit_estimated_transaction month_of mirror_prediction_columns now tx reservation text pricing
      (outbox_json id type evt seq));
  ck_release : forall tx set reason id type evt seq, keeps (fun now _ =>
    post_release_transaction month_of mirror_prediction_columns now tx set reason (outbox_json id type evt seq));
  ck_denied : forall tx id type evt seq, keeps (fun now _ =>
    post_denied_decision_transaction month_of mirror_prediction_columns now tx (outbox_json id type evt seq));
  ck_approval : forall tx id type evt seq ctx eff ttl, keeps (fun now random =>
    post_approval_required_decision month_of mirror_prediction_columns now (random 0%nat) tx
      (outbox_json id type evt seq) ctx eff ttl);
  ck_report : forall tx reservation text pricing id type evt seq, keeps (fun now _ =>
    post_provider_reported_transaction month_of mirror_prediction_columns now tx reservation text pricing
      (outbox_json id type evt seq));
  ck_lease : forall scope tenant workload ttl force audit, keeps (fun now _ =>
    LedgerDb.acquire_fencing_lease now scope tenant workload ttl force audit);
  ck_bundled : forall id tx_id, keeps (fun _ _ => LedgerDb.mark_approval_bundled id tx_id);
  ck_resolve : forall id target subject issuer reason, keeps (fun now random =>
    resolve_approval_request now (random 0%nat) id target subject issuer reason);
  ck_expire : forall tenant, keeps (fun now _ => expire_scopes tenant now);
  ck_provision : forall ids row workload writer decision audit outbox_id tx_id amount effective_at, keeps
    (provision month_of mirror_prediction_columns ids row workload writer decision audit outbox_id tx_id amount
       effective_at);
}.

Context (HK : calls_keep).
#[local] Set Default Proof Using "HGP HK".

Lemma posted_by_safe {A} (f : A -> string) p : safe Inv G p -> safe Inv G (posted_by f p).
Proof. intros Hp. apply (safe_pbind _ G); [done|]. intros a. apply (safe_ret _ G). Qed.

Lemma done_by_safe {R} (p : prog ledgerE R) : safe Inv G p -> safe Inv G (done_by p).
Proof. intros Hp. apply (safe_pbind _ G); [done|]. intros a. apply (safe_ret _ G). Qed.

Ltac post_step :=
  first [ eapply (safe_query _ G); first
            [ apply ck_post | apply ck_commit | apply ck_release | apply ck_approval | apply ck_denied
            | apply ck_report | apply ck_lease ]; apply HK
        | eapply (safe_sql _ G), ck_bundled, HK
        | eapply (safe_http _ G); first
            [ apply ck_provision; apply HK | apply ck_resolve; apply HK
            | intros now random; apply (ck_expire HK _ now random) ] ].

Lemma serve_safe c : safe Inv G (serve c).
Proof.
  destruct c; cbn [serve]; first [apply posted_by_safe|apply done_by_safe].
  - unfold reserve_set, reserve_set_inner, post_transaction, reserve_replay. safe_steps. post_step.
  - unfold commit_estimated, commit_estimated_inner, settle_success, settle_replay. safe_steps. post_step.
  - unfold release, release_inner. safe_steps. post_step.
  - unfold record_denied_decision, record_denied_inner, denied_replay. safe_steps; post_step.
  - unfold provider_report, provider_report_inner, settle_success, settle_replay. safe_steps. post_step.
  - unfold acquire_fencing_lease, acquire_inner. safe_steps. post_step.
  - unfold query_reservation_context, query_context_inner. safe_steps.
  - unfold query_budget_state, query_budget_inner. safe_steps.
  - unfold query_decision_outcome. safe_steps.
  - unfold get_approval_for_resume. safe_steps.
  - unfold mark_approval_bundled. safe_steps. post_step.
  - unfold create_tenant. safe_steps. post_step.
  - unfold get_tenant. safe_steps.
  - unfold tombstone_tenant. safe_steps. post_step.
  - unfold list_approvals. safe_steps.
  - unfold get_approval. safe_steps.
  - unfold resolve_approval. safe_steps. post_step.
Qed.

(** Interleaved calls keep the invariant and change the tables by [G]. *)
Lemma calls_keep_inv background calls s log s' ps' :
  (forall s1 s2, Inv s1 -> background s1 s2 -> Inv s2 /\ G s1 s2) ->
  Inv s -> pool_run handle_ledger background (s, serve <$> calls) log (s', ps') -> Inv s' /\ G s s'.
Proof.
  intros Hother HS Hrun.
  destruct (pool_follows handle_ledger (fun s' => Inv s' /\ G s s') background
    (fun _ => G) (fun _ => G) (fun _ _ _ => True) s (serve <$> calls) log s' ps') as (H & _ & _); try done.
  - intros s1 s2 [HS1 Hg1] Ho. destruct (Hother s1 s2 HS1 Ho) as [HS2 Hg2]. split; [split; [done|by etrans]|done].
  - intros i p (c & -> & Hc)%list_lookup_fmap_Some_1. apply follows_inv_and; [intros s1 s2 ? ?; by etrans|].
    eapply follows_weaken; [|apply serve_safe]. done.
Qed.

End CallsKeep.

Definition is_report (c : Call) : bool := match c with ProviderReport _ => true | _ => false end.

(** The transaction that an answer names. *)
Definition answered_id (a : Answer) : option string :=
  match a with
  | Posted (Ok (Success id)) => Some id
  | Posted (Ok (Replayed rp)) => Some (rp_ledger_transaction_id rp)
  | _ => None
  end.

Definition backed (c : Call) (a : Answer) (s : LedgerTables) : Prop :=
  forall id, answered_id a = Some id -> names (call_stamp c) id s.

Section Serve.
Context (capped : bool).

Lemma posted_by_follows {A} c (f : A -> string) p s :
  follows handle_ledger (ledger_inv capped) grows grows (outcome_names f (names (call_stamp c))) p s ->
  follows handle_ledger (ledger_inv capped) grows grows (backed c) (posted_by f p) s.
Proof.
  intros Hp. apply follows_pbind. eapply follows_weaken; [|exact Hp].
  intros [[x|rp|e]|e] s' Hr id Hid; cbn in *; by simplify_eq.
Qed.

Lemma done_by_follows {R} c (p : prog ledgerE R) s :
  safe (ledger_inv capped) grows p -> follows handle_ledger (ledger_inv capped) grows grows (backed c) (done_by p) s.
Proof. intros Hp. apply follows_pbind. eapply follows_weaken; [|apply Hp]. by intros r s' _ id Hid. Qed.

Lemma ledger_serve_follows c s :
  (capped = true -> is_report c = false) ->
  follows handle_ledger (ledger_inv capped) grows grows (backed c) (serve c) s.
Proof.
  intros Hc. destruct c; cbn [serve].
  - apply posted_by_follows, reserve_set_follows.
  - apply posted_by_follows, commit_estimated_follows.
  - apply posted_by_follows, ledger_release_follows.
  - apply posted_by_follows, record_denied_follows.
  - apply posted_by_follows, provider_report_follows. destruct capped; [by specialize (Hc eq_refl)|done].
  - apply done_by_follows, acquire_fencing_lease_safe.
  - apply done_by_follows, query_reservation_context_safe.
  - apply done_by_follows, query_budget_state_safe.
  - apply done_by_follows, query_decision_outcome_safe.
  - apply done_by_follows, get_approval_for_resume_safe.
  - apply done_by_follows, mark_approval_bundled_safe.
  - apply done_by_follows, create_tenant_safe.
  - apply done_by_follows, get_tenant_safe.
  - apply done_by_follows, tombstone_tenant_safe.
  - apply done_by_follows, list_approvals_safe.
  - apply done_by_follows, get_approval_safe.
  - apply done_by_follows, resolve_approval_safe.
Qed.

End Serve.

(** ** What interleaved calls do *)

Lemma ledger_calls_inv capped calls s log s' ps' :
  ledger_inv capped s -> Forall (fun c => capped = true -> is_report c = false) calls ->
  pool_run handle_ledger background (s, serve <$> calls) log (s', ps') ->
  ledger_inv capped s' /\ grows s s'.
Proof.
  intros HI' Hcalls Hrun. set (Inv := fun s' => ledger_inv capped s' /\ grows s s').
  destruct (pool_follows handle_ledger Inv background (fun _ => grows) (fun _ => grows)
    (fun _ _ _ => True) s (serve <$> calls) log s' ps') as (H & _ & _); try done.
  - intros _. apply grows_preorder.
  - intros s1 s2 [HI1 Hg1] HE. destruct (evolves_inv capped s1 s2 HI1 HE) as [HI2 Hg2].
    split; [split; [done|by etrans]|done].
  - intros i p (c & -> & Hc)%list_lookup_fmap_Some_1. apply follows_inv_and; [intros s1 s2 ? ?; by etrans|].
    eapply follows_weaken; [|apply ledger_serve_follows]; [done|]. rewrite Forall_forall in Hcalls.
    apply Hcalls. by eapply list_elem_of_lookup_2.
Qed.

Lemma calls_backed calls s log s' ps' i c a :
  books s -> pool_run handle_ledger background (s, serve <$> calls) log (s', ps') ->
  calls !! i = Some c -> ps' !! i = Some (Ret a) -> backed c a s'.
Proof.
  intros HB' Hrun Hc Ha.
  destruct (pool_follows handle_ledger (ledger_inv false) background (fun _ => grows) (fun _ => grows)
    (fun i a s' => forall c, calls !! i = Some c -> backed c a s') s (serve <$> calls) log s' ps')
    as (_ & _ & Hps); try done.
  - intros _. apply grows_preorder.
  - intros j x s1 s2 Hg Hx c' Hc' id Hid. by eapply names_grows, Hx.
  - intros s1 s2 HI1 HE. by destruct (evolves_inv false s1 s2 HI1 HE).
  - intros j p (c' & -> & Hc')%list_lookup_fmap_Some_1.
    eapply follows_weaken; [|by apply (ledger_serve_follows false)]. intros x s1 Hx c2 Hc2. by simplify_eq.
  - by apply (Hps i _ Ha c Hc).
Qed.

Lemma calls_books calls s log s' ps' :
  books s -> pool_run handle_ledger background (s, serve <$> calls) log (s', ps') -> books s' /\ grows s s'.
Proof.
  intros HB' Hrun. destruct (ledger_calls_inv false calls s log s' ps') as [[? _] ?]; [by split| |done|done].
  by apply Forall_forall.
Qed.

(** C2: the hard spend cap, without provider reports and invoices. Any reservations,
    estimated commits, releases, denials, leases, queries and approval calls of the
    ledger, and any tenant and approval calls of the control plane (the [Call]s but
    [ProviderReport]), interleaved statement by statement, with outages that cut off a
    statement before or after its commit, and with other writers that leave the books
    alone: no budget's available balance is ever below zero, no hold is overdrawn, and
    what is available, held and spent is together what was deposited. So spending plus
    what is on hold never exceeds the deposits. Provider reports and the ledger's
    InvoiceReconcile, which is not modelled, debit the available balance without asking
    for its floor; the cap is not claimed where they run, nor beside session
    reservations. *)
Theorem hard_cap calls s log s' ps' b :
  books s -> floor s -> Forall (fun c => is_report c = false) calls ->
  pool_run handle_ledger background (s, serve <$> calls) log (s', ps') ->
  0 <= available b s' /\ 0 <= held b s' /\ available b s' + held b s' + spent b s' = funded b s' /\
  spent b s' + held b s' <= funded b s'.
Proof.
  intros HB' HF Hcalls Hrun. destruct (ledger_calls_inv true calls s log s' ps') as [[HB2 HF2] _]; [by split| |done|].
  { eapply Forall_impl; [exact Hcalls|done]. }
  pose proof (available_nonneg b s' (HF2 eq_refl)). pose proof (held_nonneg b s' HB2).
  pose proof (budget_equation b s' HB2). lia.
Qed.

(** C4: the books balance. In every such interleaving, provider reports included,
    transactions, entries and accounts are only ever added; each transaction
    balances, unit by unit; a budget's entries sum to zero over its accounts; no hold
    is paid out beyond what its reservation put there. *)
Theorem ledger_books calls s log s' ps' :
  books s -> pool_run handle_ledger background (s, serve <$> calls) log (s', ps') ->
  (exists ts es, ledger_transactions s' = ts ++ ledger_transactions s /\ ledger_entries s' = es ++ ledger_entries s) /\
  (forall id u, net (fun e => of_transaction id e && of_unit u e) (ledger_entries s') = 0) /\
  (forall b, available b s' + held b s' + spent b s' = funded b s' /\ 0 <= held b s') /\
  (forall a r, a ∈ ledger_accounts s' -> la_account_kind a = ReservedHold ->
    0 <= net (fun e => of_account (la_ledger_account_id a) e && of_reservation r e) (ledger_entries s')).
Proof.
  intros HB' Hrun. destruct (calls_books _ _ _ _ _ HB' Hrun) as [HB2 ((ts & Hts) & (es & Hes) & _)].
  split; [by exists ts, es|]. split; [apply HB2|]. split; [|apply HB2].
  intros b. split; [by apply budget_equation|by apply held_nonneg].
Qed.

(** C6: a key is used once. In every such interleaving, when a posting call has
    been answered with a transaction, first or as a repetition, that transaction is in
    the ledger and is this very request's: its tenant, operation, idempotency key and
    request hash. So two calls of a tenant with the same operation and key that are
    both answered name the same transaction, and were the same request. *)
Theorem key_used_once calls s log s' ps' i j ci cj ai aj idi idj si sj :
  books s -> pool_run handle_ledger background (s, serve <$> calls) log (s', ps') ->
  calls !! i = Some ci -> calls !! j = Some cj -> ps' !! i = Some (Ret ai) -> ps' !! j = Some (Ret aj) ->
  answered_id ai = Some idi -> answered_id aj = Some idj ->
  call_stamp ci = Some si -> call_stamp cj = Some sj ->
  uuid_parse (sm_tenant si) = uuid_parse (sm_tenant sj) -> sm_operation si = sm_operation sj ->
  sm_key si = sm_key sj ->
  idi = idj /\ sm_hash si = sm_hash sj /\
  exists t, t ∈ ledger_transactions s' /\ stamped (Some si) t /\ uuid_str (lt_ledger_transaction_id t) = idi.
Proof.
  intros HB' Hrun Hi Hj Hai Haj Hidi Hidj Hsi Hsj Ht Hop Hk.
  pose proof (calls_backed _ _ _ _ _ _ _ _ HB' Hrun Hi Hai idi Hidi) as (t & Hin & Hst & Hid).
  pose proof (calls_backed _ _ _ _ _ _ _ _ HB' Hrun Hj Haj idj Hidj) as (t' & Hin' & Hst' & Hid').
  rewrite Hsi in Hst. rewrite Hsj in Hst'. pose proof Hst as (si' & [= <-] & Hten & Ho & Hkey & Hh).
  destruct Hst' as (sj' & [= <-] & Hten' & Ho' & Hkey' & Hh').
  destruct (calls_books _ _ _ _ _ HB' Hrun) as [HB2 _].
  assert (t = t') as <-.
  { apply (NoDup_key _ _ _ _ (bk_transaction_keys _ HB2) Hin Hin'). unfold transaction_key. congruence. }
  split; [congruence|]. split; [congruence|]. by exists t.
Qed.

(** C9: no split brain. In every such interleaving, with leases expiring, being
    taken over and forced: the transactions of a fencing scope come in the order of
    their epochs, and those of one epoch all come from one workload; none was posted
    under an epoch that the scope had not reached. *)
Theorem no_split_brain calls s log s' ps' :
  books s -> pool_run handle_ledger background (s, serve <$> calls) log (s', ps') ->
  in_epoch_order (ledger_transactions s') /\
  (forall t1 t2 r1 r2, t1 ∈ ledger_transactions s' -> t2 ∈ ledger_transactions s' ->
    audit_of t1 r1 s' -> audit_of t2 r2 s' -> lt_fencing_scope_id t1 = lt_fencing_scope_id t2 ->
    lt_fencing_epoch_at_post t1 = lt_fencing_epoch_at_post t2 ->
    ao_workload_instance_id r1 = ao_workload_instance_id r2) /\
  (forall t, t ∈ ledger_transactions s' -> exists f, fencing_scopes s' !! lt_fencing_scope_id t = Some f /\
    fs_tenant_id f = lt_tenant_id t /\ lt_fencing_epoch_at_post t <= fs_current_epoch f).
Proof.
  intros HB' Hrun. destruct (calls_books _ _ _ _ _ HB' Hrun) as [HB2 _].
  split; [apply HB2|]. split; [intros t1 t2 r1 r2; apply HB2|]. intros t Hin.
  destruct (bk_audit _ HB2 t Hin) as [r Hr]. destruct (bk_fenced _ HB2 t r Hin Hr) as (f & Hf & Hten & He & _).
  by exists f.
Qed.

(** C10: no effect without its audit. In every such interleaving: each transaction
    has an audit row of its tenant, decision and epoch, and the key of its event;
    each audit row has its transaction; and no two events of a decision have the
    same type. *)
Theorem no_effect_without_audit calls s log s' ps' :
  books s -> pool_run handle_ledger background (s, serve <$> calls) log (s', ps') ->
  (forall t, t ∈ ledger_transactions s' -> exists r, audit_of t r s') /\
  (forall r, r ∈ audit_outbox s' -> exists t, t ∈ ledger_transactions s' /\ audit_of t r s') /\
  keys_unique (audit_outbox_global_keys s').
Proof.
  intros HB' Hrun. destruct (calls_books _ _ _ _ _ HB' Hrun) as [HB2 _]. split; [apply HB2|]. split; apply HB2.
Qed.

End Cap.
