(* ===== verification/TtlSweeper.v ===== *)
(** * The TTL sweeper

    [services/ttl_sweeper/src]: the leader polls for reservations whose time is over
    ([poll.rs]) and has the ledger release each ([sweep.rs], [canonical.rs],
    [audit.rs]). The hash that it states is the one the ledger computes
    ([release_hash_agrees]); every reservation found is asked for once, whatever
    becomes of the others ([cycle_sweeps_all]). *)

From S2P Require Import Prelude Floats Deps Effects Proto Sidecar Canonical Ingest Outbox LedgerDb Ledger Posting Books.

Section TtlSweeper.
Context `{HU : UuidLib} `{HI : BigIntLib} `{HC : CryptoLib} `{HY : !UuidBytes} `{HT : ChronoLib}
        `{HJ : JsonLib} `{HB : Base64Lib} `{HG : !PgLib} `{HR : Rfc3339Lib} `{HV : ErrorTexts}.

(** Of [Config]. *)
Record Config := {
  tc_tenant_id : uuid;
  tc_fencing_scope_id : string;
  tc_workload_instance_id : string;
  tc_fencing_initial_epoch : Z;
  tc_batch_size : Z;
  (** the signer's key *)
  tc_key_id : string;
}.

Record ExpiredRow := {
  er_reservation_id : uuid;
  er_tenant_id : uuid;
  er_source_ledger_transaction_id : uuid;
  er_original_decision_id : uuid;
  er_ttl_expires_at : Z;
}.

(** ** [poll.rs] *)

(** One row of the join. *)
Definition expired_row (tenant : uuid) (now : Z) (s : LedgerTables) (kv : uuid * ReservationRow) : option ExpiredRow :=
  let '(id, r) := kv in
  match find_by_id (rn_source_ledger_transaction_id r) s with
  | Some t =>
      if bool_decide (lt_tenant_id t = rn_tenant_id r) && bool_decide (rn_tenant_id r = tenant)
         && bool_decide (rn_current_state r = Reserved) && (rn_ttl_expires_at r <=? now)
      then Some {| er_reservation_id := id; er_tenant_id := rn_tenant_id r;
                   er_source_ledger_transaction_id := rn_source_ledger_transaction_id r;
                   er_original_decision_id := lt_decision_id t; er_ttl_expires_at := rn_ttl_expires_at r |}
      else None
  | None => None
  end.

Definition fetch_expired (tenant : uuid) (batch_size : Z) (now : Z) (s : LedgerTables) : list ExpiredRow :=
  take (Z.to_nat batch_size)
    (order_by er_ttl_expires_at (omap (expired_row tenant now s) (map_to_list (reservations s)))).

(** ** [canonical.rs] *)

Definition release_hash (tenant_id reservation_set_id decision_id : uuid) (reason : string) : string :=
  sha256 ("v1:release:business_intent:" +:+ uuid_str tenant_id +:+ "|reservation_set|"
          +:+ uuid_str reservation_set_id +:+ "|decision|" +:+ uuid_str decision_id +:+ "|reason|" +:+ reason).

(** The sweeper's copy of the ledger's derivation. *)
Definition sweeper_reservation_set_id (decision_id : uuid) : uuid :=
  let buf := String.substring 0 16 (sha256 (uuid_bytes decision_id +:+ ":reservation_set")) in
  let buf := set_byte 6 (fun b => Z.lor (Z.land b 15) 64) buf in
  uuid_from_bytes (set_byte 8 (fun b => Z.lor (Z.land b 63) 128) buf).

(** ** [sweep.rs] *)

Inductive SweepOutcome := Released | Replay | Refused | TransportError | MissingOutcome.

Definition is_success (o : SweepOutcome) : bool :=
  match o with Released | Replay => true | _ => false end.

Definition REASON_STR : string := "TTL_EXPIRED".
(** [Reason::TtlExpired] *)
Definition TTL_EXPIRED : Z := 1.

Inductive sweeperE : Type -> Type :=
  | FetchExpired (tenant : uuid) (batch_size : Z) : sweeperE (result SqlError (list ExpiredRow))
  | NextSeq : sweeperE Z
  | EventId : sweeperE uuid
  | SweeperNow : sweeperE Z
  | SignBytes (event : CloudEvent) : sweeperE (result SignError string)
  | CallRelease (req : ReleaseRequest) : sweeperE (result Status (option (Outcome ReleaseSuccess))).

Abbreviation sweeper A := (M sweeperE string A).

Definition sweep_data (row : ExpiredRow) : json :=
  JObj [("reason", JStr REASON_STR); ("reservation_id", JStr (uuid_str (er_reservation_id row)));
        ("ttl_expires_at", JStr (to_rfc3339 (er_ttl_expires_at row)))].

Definition cloud_event (cfg : Config) (row : ExpiredRow) (id : uuid) (now seq : Z) (key signature : string) : CloudEvent :=
  {| ce_specversion := "1.0"; ce_type := AUDIT_OUTCOME_TYPE;
     ce_source := "ttl-sweeper://" +:+ uuid_str (er_tenant_id row) +:+ "/" +:+ tc_workload_instance_id cfg;
     ce_id := uuid_str id; ce_time := Some (timestamp_of now); ce_datacontenttype := "application/json";
     ce_data := sweep_data row; ce_tenant_id := uuid_str (er_tenant_id row); ce_run_id := EmptyString;
     ce_decision_id := uuid_str (er_original_decision_id row); ce_schema_bundle_id := EmptyString;
     ce_producer_id := "ttl-sweeper:" +:+ tc_workload_instance_id cfg; ce_producer_sequence := seq;
     ce_producer_signature := signature; ce_signing_key_id := key;
     ce_predicted_a_tokens := 0; ce_predicted_b_tokens := 0; ce_predicted_c_tokens := 0;
     ce_reserved_strategy := EmptyString; ce_prediction_strategy_used := EmptyString;
     ce_prediction_policy_used := EmptyString; ce_tokenizer_tier := EmptyString;
     ce_tokenizer_version_id := EmptyString; ce_prediction_confidence := S754_zero false;
     ce_prediction_sample_size := 0; ce_cold_start_layer_used := EmptyString;
     ce_run_projection_at_decision_atomic := 0; ce_run_predicted_remaining_steps := 0;
     ce_run_steps_completed_so_far := 0; ce_actual_input_tokens := 0; ce_actual_output_tokens := 0;
     ce_delta_b_ratio := S754_zero false; ce_delta_c_ratio := S754_zero false |}.

(** [sign_cloudevent_in_place]: over the event with its key and no signature. *)
Definition sign_event (cfg : Config) (row : ExpiredRow) (id : uuid) (now seq : Z) : sweeper CloudEvent :=
  sig ← act (SignBytes (cloud_event cfg row id now seq (tc_key_id cfg) EmptyString));
  match sig with
  | Ok bytes => mret (cloud_event cfg row id now seq (tc_key_id cfg) bytes)
  | Err (ModeUnavailable msg) => fail ("signing mode unavailable: " +:+ msg)
  | Err (OtherSignError msg) => fail ("signing failed: " +:+ msg)
  end.

Definition release_request (cfg : Config) (row : ExpiredRow) (evt : CloudEvent) (seq : Z) : ReleaseRequest :=
  let set := sweeper_reservation_set_id (er_original_decision_id row) in
  {| rl_tenant_id := uuid_str (er_tenant_id row); rl_reservation_set_id := uuid_str set;
     rl_idempotency := Some {| idem_key := "ttl_release:" +:+ uuid_str (er_reservation_id row);
                               idem_request_hash := release_hash (er_tenant_id row) set
                                                      (er_original_decision_id row) REASON_STR |};
     rl_fencing := Some {| fc_epoch := u64_wrap (tc_fencing_initial_epoch cfg);
                           fc_scope_id := tc_fencing_scope_id cfg;
                           fc_workload_instance_id := tc_workload_instance_id cfg |};
     rl_reason := TTL_EXPIRED; rl_audit_event := Some evt;
     rl_decision_id := uuid_str (er_original_decision_id row); rl_producer_sequence := seq |}.

Definition outcome_of (answer : result Status (option (Outcome ReleaseSuccess))) : SweepOutcome :=
  match answer with
  | Ok (Some (Success _)) => Released
  | Ok (Some (Replayed _)) => Replay
  | Ok (Some (Failure _)) => Refused
  | Ok None => MissingOutcome
  | Err _ => TransportError
  end.

Definition sweep_one (cfg : Config) (row : ExpiredRow) : sweeper SweepOutcome :=
  seq ← act NextSeq;
  id ← act EventId;
  now ← act SweeperNow;
  evt ← sign_event cfg row id now seq;
  answer ← act (CallRelease (release_request cfg row evt seq));
  mret (outcome_of answer).

(** ** A cycle of [main]'s loop *)

Record Metrics := {
  loop_processed : Z;
  loop_error : Z;
  loop_skipped : Z;
  swept_ok : Z;
  swept_err : Z;
}.

Definition add_swept (ok : bool) (m : Metrics) : Metrics :=
  {| loop_processed := loop_processed m; loop_error := loop_error m; loop_skipped := loop_skipped m;
     swept_ok := swept_ok m + (if ok then 1 else 0); swept_err := swept_err m + (if ok then 0 else 1) |}.
Definition inc_processed (m : Metrics) : Metrics :=
  {| loop_processed := loop_processed m + 1; loop_error := loop_error m; loop_skipped := loop_skipped m;
     swept_ok := swept_ok m; swept_err := swept_err m |}.
Definition inc_error (m : Metrics) : Metrics :=
  {| loop_processed := loop_processed m; loop_error := loop_error m + 1; loop_skipped := loop_skipped m;
     swept_ok := swept_ok m; swept_err := swept_err m |}.
Definition inc_skipped (m : Metrics) : Metrics :=
  {| loop_processed := loop_processed m; loop_error := loop_error m; loop_skipped := loop_skipped m + 1;
     swept_ok := swept_ok m; swept_err := swept_err m |}.

(** A failure to sign or a refusal does not stop the others. *)
Fixpoint sweep_rows (cfg : Config) (rows : list ExpiredRow) (m : Metrics) : sweeper Metrics :=
  match rows with
  | [] => mret m
  | row :: rows =>
      r ← attempt (sweep_one cfg row);
      sweep_rows cfg rows (add_swept (match r with Ok o => is_success o | Err _ => false end) m)
  end.

(** [leads]: the lease is held and its end has not passed. *)
Definition sweep_cycle (cfg : Config) (leads : bool) (m : Metrics) : sweeper Metrics :=
  if leads then
    found ← act (FetchExpired (tc_tenant_id cfg) (tc_batch_size cfg));
    match found with
    | Ok rows => sweep_rows cfg rows (inc_processed m)
    | Err _ => mret (inc_error m)
    end
  else mret (inc_skipped m).

(** ** What it does *)

(** C29: the two hashes are one. The ledger recomputes the hash of a release from the
    request and refuses one that states another: the hash, and the set's id, that the
    sweeper computes on its own are those that the ledger computes, so no sweep is ever
    refused as a different request under its key. *)
Theorem release_hash_agrees cfg row evt seq :
  let req := release_request cfg row evt seq in
  reason_str (rl_reason req) = Ok REASON_STR /\
  (exists i, rl_idempotency req = Some i /\ idem_key i = "ttl_release:" +:+ uuid_str (er_reservation_id row) /\
     release_request_hash req REASON_STR (idem_request_hash i) = Ok (idem_request_hash i) /\
     release_request_hash req REASON_STR EmptyString = Ok (idem_request_hash i)) /\
  uuid_parse (rl_reservation_set_id req) = Some (derive_reservation_set_id (er_original_decision_id row)).
Proof.
  split; [done|]. split.
  - eexists. split; [reflexivity|]. split; [reflexivity|]. cbn -[sha256 release_hash].
    unfold release_request_hash, check_request_hash. cbn -[sha256 release_hash].
    assert (Hlen : slen (release_hash (er_tenant_id row) (sweeper_reservation_set_id (er_original_decision_id row))
                           (er_original_decision_id row) REASON_STR) = 32).
    { unfold slen, release_hash. by rewrite sha256_length. }
    split; [|done]. destruct (is_empty _) eqn:He; [by apply is_empty_spec in He; rewrite He in Hlen|].
    rewrite Hlen. cbn -[sha256 release_hash]. fold (release_hash (er_tenant_id row)
      (sweeper_reservation_set_id (er_original_decision_id row)) (er_original_decision_id row) REASON_STR).
    by rewrite String.eqb_refl.
  - cbn. apply uuid_parse_str.
Qed.

(** The reservations that a history asked to release. *)
Definition asked (ev : event sweeperE) : option string :=
  match ev with Ev e _ => match e with CallRelease req => idem_key <$> rl_idempotency req | _ => None end end.
Definition released (ev : event sweeperE) : bool :=
  match ev with
  | Ev e x =>
      match e in sweeperE X return X -> bool with
      | CallRelease _ => fun answer => is_success (outcome_of answer)
      | _ => fun _ => false
      end x
  end.
Definition signs (ev : event sweeperE) : bool :=
  match ev with
  | Ev e x =>
      match e in sweeperE X return X -> bool with
      | SignBytes _ => fun r => match r with Ok _ => true | Err _ => false end
      | _ => fun _ => true
      end x
  end.

Definition key_of (row : ExpiredRow) : string := "ttl_release:" +:+ uuid_str (er_reservation_id row).

(** A row: its one request, if its event could be signed, and whether it was released. *)
Lemma sweep_one_exec cfg row t r :
  exec (sweep_one cfg row) t r ->
  length (List.filter released t) = (if match r with Ok o => is_success o | Err _ => false end then 1 else 0)%nat /\
  (forallb signs t = true -> omap asked t = [key_of row]).
Proof.
  cbn. intros (seq & t1 & -> & id & t2 & -> & now & t3 & -> & sig & t4 & -> & H).
  destruct sig as [bytes|[msg|msg]]; cbn in H.
  - destruct H as (answer & t5 & -> & -> & ->). cbn. by destruct (is_success (outcome_of answer)).
  - destruct H as [-> ->]. done.
  - destruct H as [-> ->]. done.
Qed.

(** The sweep goes through. A cycle's rows are swept to the end, whatever the
    signer and the ledger answer: each row's event that could be signed makes one
    request to release it, in the order of the rows; a row counts as released exactly
    if the ledger answered that it released it, then or before, and as an error
    otherwise. *)
Theorem cycle_sweeps_all cfg rows m t r :
  exec (sweep_rows cfg rows m) t r ->
  exists m', r = Ok m' /\
    swept_ok m' = swept_ok m + Z.of_nat (length (List.filter released t)) /\
    swept_ok m' + swept_err m' = swept_ok m + swept_err m + Z.of_nat (length rows) /\
    (forallb signs t = true -> omap asked t = key_of <$> rows).
Proof.
  revert m t; induction rows as [|row rows IH]; intros m t H.
  - destruct H as [-> ->]. exists m. split; [done|]. cbn. split; [lia|]. by split; [lia|].
  - cbn [sweep_rows] in H. unfold mbind, M_bind, attempt in H. rewrite !exec_pbind in H.
    destruct H as (t1 & t2 & x & -> & H1 & H2). rewrite exec_pbind in H1.
    destruct H1 as (t3 & t4 & o & -> & H1 & H4). destruct H4 as [-> ->]. cbn in H2.
    apply sweep_one_exec in H1 as [Hrel Hask]. apply IH in H2 as (m' & -> & Hok & Hsum & Hrows).
    exists m'. split; [done|]. rewrite app_nil_r, List.filter_app, length_app, Nat2Z.inj_add, Hrel. cbn [length].
    split; [|split].
    + rewrite Hok. cbn. destruct o as [oc|e]; cbn; [destruct (is_success oc)|]; lia.
    + rewrite Hsum. cbn. destruct o as [oc|e]; cbn; [destruct (is_success oc)|]; lia.
    + rewrite forallb_app, andb_true_iff. intros [Hs1 Hs2]. rewrite omap_app, (Hask Hs1), (Hrows Hs2). done.
Qed.

Lemma order_insert_perm {A} (key : A -> Z) a l : order_insert key a l ≡ₚ a :: l.
Proof.
  induction l as [|b l IH]; cbn; [done|]. destruct (key a <=? key b); [done|]. rewrite IH. apply Permutation_swap.
Qed.

Lemma order_by_perm {A} (key : A -> Z) l : order_by key l ≡ₚ l.
Proof. unfold order_by. induction l as [|a l IH]; cbn; [done|]. by rewrite order_insert_perm, IH. Qed.

(** What is over is swept. Every row that the poll finds is a reservation of
    the tenant that is still reserved and whose end has come; and when fewer than a
    batch are found, all of these whose transaction is there are found. *)
Theorem poll_finds_expired tenant batch_size now s :
  let rows := fetch_expired tenant batch_size now s in
  (forall row, row ∈ rows -> exists r, reservations s !! er_reservation_id row = Some r /\ rn_tenant_id r = tenant /\
     rn_current_state r = Reserved /\ rn_ttl_expires_at r <= now /\ er_tenant_id row = tenant) /\
  ((length rows < Z.to_nat batch_size)%nat -> forall id r t, reservations s !! id = Some r -> rn_tenant_id r = tenant ->
     rn_current_state r = Reserved -> rn_ttl_expires_at r <= now ->
     find_by_id (rn_source_ledger_transaction_id r) s = Some t -> lt_tenant_id t = tenant ->
     exists row, row ∈ rows /\ er_reservation_id row = id).
Proof.
  cbn. unfold fetch_expired. set (found := omap (expired_row tenant now s) (map_to_list (reservations s))). split.
  - intros row Hrow. apply elem_of_take in Hrow as (i & Hrow & _). apply list_elem_of_lookup_2 in Hrow.
    rewrite order_by_perm in Hrow. apply list_elem_of_omap in Hrow as ([id r] & Hin & Hr).
    apply elem_of_map_to_list in Hin. cbn in Hr. destruct (find_by_id _ s) as [t|]; [|done].
    destruct (_ && _) eqn:Hc in Hr; [|done]. injection Hr as <-. cbn.
    rewrite !andb_true_iff, !bool_decide_eq_true, Z.leb_le in Hc. destruct Hc as (((Ht & Hten) & Hst) & Hle).
    by exists r.
  - intros Hlen id r t Hr Hten Hst Hle Hf Ht. rewrite length_take in Hlen.
    exists {| er_reservation_id := id; er_tenant_id := rn_tenant_id r;
              er_source_ledger_transaction_id := rn_source_ledger_transaction_id r;
              er_original_decision_id := lt_decision_id t; er_ttl_expires_at := rn_ttl_expires_at r |}.
    split; [|done]. rewrite take_ge by lia. rewrite order_by_perm. apply list_elem_of_omap. exists (id, r).
    split; [by apply elem_of_map_to_list|]. cbn. rewrite Hf, !bool_decide_true by congruence.
    by rewrite (proj2 (Z.leb_le _ _) Hle).
Qed.

End TtlSweeper.
