(* ===== verification/Lifecycle.v ===== *)
(** * The life of a reservation

    In any interleaving of the ledger's and the control plane's calls a reservation
    that was made stays, is the same but for its state, and leaves the state
    [reserved] once, for [committed] or [released] ([reservation_settled_once]). *)

From S2P Require Import Prelude Floats Deps Effects Proto Canonical Ingest Outbox LedgerDb Ledger Posting Books Auth ControlPlane LedgerRun Cap.

Section Lifecycle.
Context `{HU : UuidLib} `{HI : BigIntLib} `{HC : CryptoLib} `{HY : !UuidBytes} `{HT : ChronoLib}
        `{HJ : JsonLib} `{HB : Base64Lib} `{HG : !PgLib} `{HR : Rfc3339Lib} `{HV : ErrorTexts}.
Context (month_of : Z -> Z) (mirror_prediction_columns : string -> json -> Z -> result SqlError unit).

(** A step of a reservation's life. *)
Inductive settle_step : ReservationState -> ReservationState -> Prop :=
  | settle_stays st : settle_step st st
  | settle_commits : settle_step Reserved Committed
  | settle_releases : settle_step Reserved ReleasedState.

#[local] Instance settle_step_preorder : PreOrder settle_step.
Proof. split; [constructor|]. intros a b c H1 H2. destruct H1; [done|..]; inversion H2; constructor. Qed.

Definition reservations_go_on (s s' : LedgerTables) : Prop :=
  forall id r, reservations s !! id = Some r -> exists st, settle_step (rn_current_state r) st /\
    reservations s' !! id = Some (with_state st r).

Lemma with_same_state r : with_state (rn_current_state r) r = r.
Proof. by destruct r. Qed.

#[local] Instance reservations_go_on_preorder : PreOrder reservations_go_on.
Proof.
  split.
  - intros s id r Hr. exists (rn_current_state r). rewrite with_same_state. split; [constructor|done].
  - intros s1 s2 s3 H1 H2 id r Hr. destruct (H1 _ _ Hr) as (st & Hst & Hr2).
    destruct (H2 _ _ Hr2) as (st' & Hst' & Hr3). exists st'. split; [by etrans|done].
Qed.

Lemma same_reservations s s' : reservations s' = reservations s -> reservations_go_on s s'.
Proof.
  intros Heq id r Hr. exists (rn_current_state r). rewrite with_same_state, Heq. split; [constructor|done].
Qed.

Abbreviation keeps stmt := (LedgerRun.keeps (fun _ => True) reservations_go_on stmt (fun _ _ => True)).

Lemma goes_on_keeps {A} (stmt : Z -> (nat -> uuid) -> sp A) :
  (forall now random s a s', stmt now random s = Ok (a, s') -> reservations_go_on s s') -> keeps stmt.
Proof. intros Hs now random s a s' _ H. split; [done|]. split; [by eapply Hs|done]. Qed.

(** A reservation that was reserved is settled. *)
Lemma settle_goes_on id row st s s' :
  reservations s !! id = Some row -> rn_current_state row = Reserved -> settle_step Reserved st ->
  reservations s' = <[id := with_state st row]> (reservations s) -> reservations_go_on s s'.
Proof.
  intros Hrow Hres Hst Heq i r Hr. rewrite Heq. destruct (decide (id = i)) as [<-|Hne].
  - rewrite Hrow in Hr. injection Hr as <-. exists st. rewrite lookup_insert_eq, Hres. by split.
  - exists (rn_current_state r). rewrite lookup_insert_ne, with_same_state by done. split; [constructor|done].
Qed.

Lemma find_reservation_some tenant id s r : find_reservation tenant id s = Some r -> reservations s !! id = Some r.
Proof. unfold find_reservation. destruct (reservations s !! id) as [q|]; [|done]. by case_bool_decide; intros [= <-]. Qed.

Lemma post_goes_on now op tx entries rows outbox token s a s' :
  post_ledger_transaction month_of mirror_prediction_columns now op tx entries rows outbox token s = Ok (a, s') ->
  reservations_go_on s s'.
Proof.
  intros [[_ ->]|(q & t & new & res & _ & -> & HL)]%post_ledger_transaction_spec; [reflexivity|].
  intros id r Hr. exists (rn_current_state r). rewrite with_same_state. split; [constructor|]. cbn.
  destruct HL as [_ _ _ _ _ (Hkeep & _)]. by apply Hkeep.
Qed.

Lemma commit_goes_on now tx reservation text pricing outbox s a s' :
  post_commit_estimated_transaction month_of mirror_prediction_columns now tx reservation text pricing outbox s
  = Ok (a, s') -> reservations_go_on s s'.
Proof.
  intros (est & _ & [[_ ->]|Hp])%post_commit_estimated_spec; [reflexivity|].
  destruct Hp as (q & t & new & row & reserve & c & _ & -> & _ & _ & HP).
  eapply settle_goes_on; [eapply find_reservation_some, HP|apply HP|apply settle_commits|reflexivity].
Qed.

Lemma release_goes_on now tx set reason outbox s a s' :
  post_release_transaction month_of mirror_prediction_columns now tx set reason outbox s = Ok (a, s') ->
  reservations_go_on s s'.
Proof.
  intros [[_ ->]|Hp]%post_release_spec; [reflexivity|].
  destruct Hp as (q & t & new & reservation & row & reserve & _ & -> & HP).
  eapply settle_goes_on; [eapply find_reservation_some, HP|apply HP|apply settle_releases|reflexivity].
Qed.

Lemma denied_goes_on now tx outbox s a s' :
  post_denied_decision_transaction month_of mirror_prediction_columns now tx outbox s = Ok (a, s') ->
  reservations s' = reservations s.
Proof. by intros [[_ ->]|(t & _ & -> & _)]%post_denied_decision_spec. Qed.

Lemma frame_goes_on {A} (stmt : Z -> (nat -> uuid) -> sp A) :
  (forall now random, leaves reservations (stmt now random)) -> keeps stmt.
Proof. intros Hs. apply goes_on_keeps. intros now random s a s' H. by apply same_reservations, (Hs _ _ _ _ _ H). Qed.

Lemma reservations_keep : calls_keep month_of mirror_prediction_columns (fun _ => True) reservations_go_on.
Proof.
  constructor; intros.
  - apply goes_on_keeps. intros now random s a s'. apply post_goes_on.
  - apply goes_on_keeps. intros now random s a s'. apply commit_goes_on.
  - apply goes_on_keeps. intros now random s a s'. apply release_goes_on.
  - apply frame_goes_on. intros now random s a s'. apply denied_goes_on.
  - apply frame_goes_on. intros now random s r s' (s1 & Hd%denied_goes_on & Ha)%post_approval_required_spec.
    by destruct (po_was_first_insert r); [destruct Ha as (_ & _ & _ & ->)|destruct Ha as [_ ->]].
  - apply frame_goes_on. intros now random s a s' (amount & _ & [[_ ->]|Hp])%post_provider_reported_spec; [done|].
    by destruct Hp as (q & t & new & row & reserve & cid & c & _ & -> & _).
  - apply frame_goes_on. intros now random s r s' (f & _ & _ & Hr)%acquire_fencing_lease_spec.
    by destruct (lr_granted r); [destruct Hr as (-> & _)|destruct Hr as [-> _]].
  - apply frame_goes_on. intros now random. unfold LedgerDb.mark_approval_bundled, lock_approval, check.
    repeat first [leaves_step|done].
  - apply frame_goes_on. by intros now random s r s' [->|(a & ev & ->)]%resolve_approval_request_spec.
  - apply frame_goes_on. by intros now random s a s' [= _ <-].
  - apply goes_on_keeps. intros now random. unfold provision.
    assert (Hseq : forall {A B} (m : sp A) (k : A -> sp B), leaves reservations m ->
      (forall a s b s', k a s = Ok (b, s') -> reservations_go_on s s') ->
      forall s b s', (m ≫= k) s = Ok (b, s') -> reservations_go_on s s').
    { intros A B m k Hm Hk s2 b s3 (x & s1 & H1 & H2)%sp_bind_ok. etrans; [|by eapply Hk].
      apply same_reservations. by eapply Hm. }
    do 7 (apply Hseq; [repeat leaves_step|intros ?]). intros s b s'. apply post_goes_on.
Qed.

(** C16: a reservation is settled once. Calls of the ledger's and the control plane's
    RPCs run interleaved, with outages: a reservation keeps its tenant, budget, window,
    end and key, is never removed or made anew, and may leave the state [reserved] once,
    for [committed] or [released]; from these there is no way on. So of a commit, a
    release and the sweep of an expired reservation that race, one at most takes
    effect. *)
Theorem reservation_settled_once calls s log s' ps' id r :
  pool_run handle_ledger (fun s1 s2 => reservations s2 = reservations s1)
    (s, serve month_of mirror_prediction_columns <$> calls) log (s', ps') ->
  reservations s !! id = Some r ->
  exists st, settle_step (rn_current_state r) st /\ reservations s' !! id = Some (with_state st r).
Proof.
  intros Hrun. destruct (calls_keep_inv _ _ _ _ reservations_keep
    (fun s1 s2 => reservations s2 = reservations s1) calls s log s' ps') as [_ Hgo]; [|done|done|apply Hgo].
  intros s1 s2 _ Hsame. split; [done|by apply same_reservations].
Qed.

End Lifecycle.
