(* ===== verification/Approvals.v ===== *)
(** * Approvals

    What the ledger's and the control plane's handlers make of the approval requests,
    interleaved with each other and with the expiry of approvals: a state machine whose
    terminal states are final ([approvals_final]), whose resolutions are on record, and
    whose restriction to an approver's role never holds anyone back
    ([approver_unrestricted]). *)

From S2P Require Import Prelude Floats Deps Effects Proto Canonical Ingest Outbox LedgerDb Ledger Posting Books Auth ControlPlane LedgerRun Cap.

Section Approvals.
Context `{HU : UuidLib} `{HI : BigIntLib} `{HC : CryptoLib} `{HY : !UuidBytes} `{HT : ChronoLib}
        `{HJ : JsonLib} `{HB : Base64Lib} `{HG : !PgLib} `{HR : Rfc3339Lib} `{HV : ErrorTexts}.
Context (month_of : Z -> Z) (mirror_prediction_columns : string -> json -> Z -> result SqlError unit).

(** ** The state machine *)

(** The event that resolved an approval. *)
Definition resolved_on_record (id : uuid) (a : ApprovalRow) (evs : list ApprovalEvent) : Prop :=
  exists e, e ∈ evs /\ ae_approval_id e = id /\ ae_from_state e = Pending /\ ae_to_state e = ap_state a /\
            ae_actor_subject e = ap_resolved_by_subject a /\ is_Some (ae_actor_subject e) /\
            ae_resolution_reason e = ap_resolution_reason a /\ Some (ae_occurred_at e) = ap_resolved_at a.

Record approval_sound (id : uuid) (a : ApprovalRow) (evs : list ApprovalEvent) : Prop := {
  as_policy : ap_approver_policy a = JObj [];
  as_bundled : is_Some (ap_bundled_ledger_transaction_id a) -> ap_state a = Approved;
  as_record : ap_state a <> Pending -> resolved_on_record id a evs;
}.

Definition approvals_sound (s : LedgerTables) : Prop :=
  forall id a, approval_requests s !! id = Some a -> approval_sound id a (approval_events s).

(** What is asked stays; a terminal state and a bundled transaction are final. *)
Record goes_on (a a' : ApprovalRow) : Prop := {
  go_request : ap_tenant_id a' = ap_tenant_id a /\ ap_decision_id a' = ap_decision_id a /\
               ap_requested_effect a' = ap_requested_effect a /\ ap_decision_context a' = ap_decision_context a /\
               ap_ttl_expires_at a' = ap_ttl_expires_at a;
  go_state : ap_state a <> Pending ->
             ap_state a' = ap_state a /\ ap_resolved_by_subject a' = ap_resolved_by_subject a /\
             ap_resolution_reason a' = ap_resolution_reason a /\ ap_resolved_at a' = ap_resolved_at a;
  go_bundled : is_Some (ap_bundled_ledger_transaction_id a) ->
               ap_bundled_ledger_transaction_id a' = ap_bundled_ledger_transaction_id a;
}.

Definition approvals_go_on (s s' : LedgerTables) : Prop :=
  (forall id a, approval_requests s !! id = Some a ->
     exists a', approval_requests s' !! id = Some a' /\ goes_on a a') /\
  exists new, approval_events s' = new ++ approval_events s.

#[local] Instance goes_on_preorder : PreOrder goes_on.
Proof.
  split; [by constructor|]. intros a b c [R1 S1 B1] [R2 S2 B2]. constructor.
  - intuition congruence.
  - intros Hp. destruct (S1 Hp) as (H1 & H2 & H3 & H4). destruct S2 as (H5 & H6 & H7 & H8); [congruence|].
    split_and!; congruence.
  - intros Hb. specialize (B1 Hb). rewrite B2; [done|by rewrite B1].
Qed.

#[local] Instance approvals_go_on_preorder : PreOrder approvals_go_on.
Proof.
  split.
  - intros s. split; [|by exists []]. intros id a Ha. exists a. split; [done|reflexivity].
  - intros s1 s2 s3 [H1 (n1 & E1)] [H2 (n2 & E2)]. split.
    + intros id a Ha. destruct (H1 _ _ Ha) as (b & Hb & G1). destruct (H2 _ _ Hb) as (c & Hc & G2).
      exists c. split; [done|by etrans].
    + exists (n2 ++ n1). by rewrite E2, E1, app_assoc.
Qed.

(** *** Steps *)

Definition same_approvals (s s' : LedgerTables) : Prop :=
  approval_requests s' = approval_requests s /\ approval_events s' = approval_events s.

Lemma same_approvals_ok s s' : approvals_sound s -> same_approvals s s' -> approvals_sound s' /\ approvals_go_on s s'.
Proof.
  intros HS [Hr He]. split.
  - intros id a. rewrite Hr, He. apply HS.
  - split; [|by exists []]. intros id a Ha. exists a. rewrite Hr. split; [done|reflexivity].
Qed.

Lemma sound_more id a evs new : approval_sound id a evs -> approval_sound id a (new ++ evs).
Proof.
  intros [Hp Hb Hr]. constructor; [done..|]. intros Hs. destruct (Hr Hs) as (e & He & H). exists e.
  split; [apply elem_of_app; by right|done].
Qed.

(** One row is written, and events are added. *)
Lemma approval_step id a new s :
  approvals_sound s -> approval_sound id a (new ++ approval_events s) ->
  (forall b, approval_requests s !! id = Some b -> goes_on b a) ->
  let s' := with_approvals (<[id := a]> (approval_requests s)) (new ++ approval_events s) s in
  approvals_sound s' /\ approvals_go_on s s'.
Proof.
  intros HS Ha Hgo s'. split; [|split; [|by exists new]].
  - intros i b. cbn. rewrite lookup_insert_Some. intros [[<- <-]|[Hne Hi]]; [done|]. by apply sound_more, HS.
  - intros i b Hi. cbn. destruct (decide (id = i)) as [<-|Hne].
    + exists a. rewrite lookup_insert_eq. split; [done|by apply Hgo].
    + exists b. rewrite lookup_insert_ne by done. split; [done|reflexivity].
Qed.

Lemma resolve_step now fresh id target subject issuer reason s r s' :
  approvals_sound s -> resolve_approval_request now fresh id target subject issuer reason s = Ok (r, s') ->
  approvals_sound s' /\ approvals_go_on s s'.
Proof.
  intros HS H. unfold resolve_approval_request in H. apply sp_bind_ok in H as (a & s1 & Hl & H).
  assert (Hs1 := lock_approval_ok _ _ _ _ Hl). subst s1.
  assert (Ha : approval_requests s !! id = Some a).
  { unfold lock_approval in Hl. apply sp_bind_ok in Hl as (o & s1 & [= <- <-] & Hl). by apply found_ok in Hl as [? _]. }
  case_bool_decide; [injection H as _ <-; by apply same_approvals_ok|].
  apply sp_bind_ok in H as (u1 & s1 & [Hp%bool_decide_eq_true ->]%check_ok & H).
  apply sp_bind_ok in H as (u2 & s1 & [Ht ->]%check_ok & H). apply sp_bind_ok in H as (u3 & s1 & [_ ->]%check_ok & H).
  cbv zeta in H. apply sp_bind_ok in H as (u4 & s1 & [Hactor ->]%constraint_ok & H).
  apply sp_bind_ok in H as (u5 & s1 & H5 & H).
  assert (s1 = s) as -> by (destruct (_ && _) in H5; [done|by injection H5 as _ <-]).
  apply sp_bind_ok in H as (taken & s1 & [= <- <-] & H). apply sp_bind_ok in H as (u6 & s1 & H6 & H).
  assert (s1 = s) as -> by (destruct (existsb _ _) in H6; [done|by injection H6 as _ <-]).
  apply sp_bind_ok in H as (u7 & s1 & [= <- <-] & H). injection H as _ <-.
  apply andb_true_iff in Hactor as [Hsub%bool_decide_eq_true _].
  apply (approval_step id _ [_]); [done| |].
  - destruct (HS _ _ Ha) as [Hpol Hb _]. constructor; cbn; [done| |].
    + intros Hbb. apply Hb in Hbb. congruence.
    + intros _. eexists. split; [by left|]. cbn. by rewrite Hp.
  - intros b Hb. rewrite Ha in Hb. injection Hb as <-. by constructor.
Qed.

Lemma bundle_step id tx_id s r s' :
  approvals_sound s -> LedgerDb.mark_approval_bundled id tx_id s = Ok (r, s') ->
  approvals_sound s' /\ approvals_go_on s s'.
Proof.
  intros HS H. apply sp_bind_ok in H as (a & s1 & Hl & H). assert (Hs1 := lock_approval_ok _ _ _ _ Hl). subst s1.
  assert (Ha : approval_requests s !! id = Some a).
  { unfold lock_approval in Hl. apply sp_bind_ok in Hl as (o & s1 & [= <- <-] & Hl). by apply found_ok in Hl as [? _]. }
  apply sp_bind_ok in H as (u & s1 & [Hst%bool_decide_eq_true ->]%check_ok & H).
  destruct (ap_bundled_ledger_transaction_id a) as [b|] eqn:Hb.
  - apply sp_bind_ok in H as (v & s1 & [_ ->]%check_ok & H). injection H as _ <-. by apply same_approvals_ok.
  - apply sp_bind_ok in H as (v & s1 & [= <- <-] & H). injection H as _ <-.
    apply (approval_step id (with_bundled tx_id a) []); [done| |].
    + destruct (HS _ _ Ha) as [Hpol _ Hrec]. by constructor.
    + intros c Hc. rewrite Ha in Hc. injection Hc as <-. constructor; [done..|]. rewrite Hb. by intros [? ?].
Qed.

(** *** Postings leave the approvals alone *)

Abbreviation keeps := (LedgerRun.keeps approvals_sound approvals_go_on).

Lemma approval_frame_keeps {A} (stmt : Z -> (nat -> uuid) -> sp A) :
  (forall now random s a s', stmt now random s = Ok (a, s') -> same_approvals s s') -> keeps stmt (fun _ _ => True).
Proof.
  intros Hf now random s a s' HS H. destruct (same_approvals_ok s s' HS) as [H1 H2]; [by eapply Hf|]. by split_and!.
Qed.

Lemma post_ledger_frame op tx entries rows outbox token :
  keeps (fun now _ => post_ledger_transaction month_of mirror_prediction_columns now op tx entries rows outbox token)
    (fun _ _ => True).
Proof.
  apply approval_frame_keeps. intros now random s a s' [[_ ->]|(q & t & new & res & _ & -> & _)]%post_ledger_transaction_spec;
    by split.
Qed.

Lemma post_commit_frame tx reservation text pricing outbox :
  keeps (fun now _ => post_commit_estimated_transaction month_of mirror_prediction_columns now tx reservation text
                        pricing outbox) (fun _ _ => True).
Proof.
  apply approval_frame_keeps. intros now random s a s' (est & _ & [[_ ->]|Hp])%post_commit_estimated_spec; [by split|].
  by destruct Hp as (q & t & new & row & reserve & c & _ & -> & _).
Qed.

Lemma post_release_frame tx set reason outbox :
  keeps (fun now _ => post_release_transaction month_of mirror_prediction_columns now tx set reason outbox)
    (fun _ _ => True).
Proof.
  apply approval_frame_keeps. intros now random s a s' [[_ ->]|Hp]%post_release_spec; [by split|].
  by destruct Hp as (q & t & new & reservation & row & reserve & _ & -> & _).
Qed.

Lemma post_denied_same now tx outbox s a s' :
  post_denied_decision_transaction month_of mirror_prediction_columns now tx outbox s = Ok (a, s') -> same_approvals s s'.
Proof. by intros [[_ ->]|(t & _ & -> & _)]%post_denied_decision_spec. Qed.

Lemma post_denied_frame tx outbox :
  keeps (fun now _ => post_denied_decision_transaction month_of mirror_prediction_columns now tx outbox)
    (fun _ _ => True).
Proof. apply approval_frame_keeps. intros now random s a s'. apply post_denied_same. Qed.

Lemma post_report_frame tx reservation text pricing outbox :
  keeps (fun now _ => post_provider_reported_transaction month_of mirror_prediction_columns now tx reservation text
                        pricing outbox) (fun _ _ => True).
Proof.
  apply approval_frame_keeps. intros now random s a s' (amount & _ & [[_ ->]|Hp])%post_provider_reported_spec; [by split|].
  by destruct Hp as (q & t & new & row & reserve & cid & c & _ & -> & _).
Qed.

Lemma lease_frame scope tenant workload ttl force audit :
  keeps (fun now _ => LedgerDb.acquire_fencing_lease now scope tenant workload ttl force audit) (fun _ _ => True).
Proof.
  apply approval_frame_keeps. intros now random s r s' (f & _ & _ & Hr)%acquire_fencing_lease_spec.
  destruct (lr_granted r); [by destruct Hr as (-> & _)|by destruct Hr as [-> _]].
Qed.

(** A new approval is pending. *)
Lemma approval_required_keeps fresh tx outbox ctx eff ttl :
  keeps (fun now random => post_approval_required_decision month_of mirror_prediction_columns now (fresh random) tx
                             outbox ctx eff ttl) (fun _ _ => True).
Proof.
  intros now random s r s' HS (s1 & Hd%post_denied_same & Ha)%post_approval_required_spec.
  destruct (same_approvals_ok _ _ HS Hd) as [HS1 Hg1]. destruct (po_was_first_insert r).
  - destruct Ha as (_ & Hfree & _ & ->).
    match goal with |- context [<[_ := ?row]> _] => destruct (approval_step (fresh random) row [] s1) as [HS2 Hg2] end.
    + done.
    + by constructor; [|intros [? ?]|].
    + intros b Hb. congruence.
    + split; [exact HS2|]. split; [etrans; [exact Hg1|exact Hg2]|done].
  - destruct Ha as [_ ->]. by split_and!.
Qed.

Lemma bundled_keeps id tx_id : keeps (fun _ _ => LedgerDb.mark_approval_bundled id tx_id) (fun _ _ => True).
Proof. intros now random s r s' HS H. by destruct (bundle_step _ _ _ _ _ HS H). Qed.

Lemma resolve_keeps fresh id target subject issuer reason :
  keeps (fun now random => resolve_approval_request now (fresh random) id target subject issuer reason)
    (fun _ _ => True).
Proof. intros now random s r s' HS H. by destruct (resolve_step _ _ _ _ _ _ _ _ _ _ HS H). Qed.

Lemma expire_frame tenant : keeps (fun now _ => expire_scopes tenant now) (fun _ _ => True).
Proof. apply approval_frame_keeps. by intros now random s a s' [= _ <-]. Qed.

(** *** A new tenant *)

Lemma provision_frame ids row workload writer decision audit outbox_id tx_id amount effective_at :
  keeps (provision month_of mirror_prediction_columns ids row workload writer decision audit outbox_id tx_id amount
           effective_at) (fun _ _ => True).
Proof.
  apply approval_frame_keeps. intros now random s a s' H.
  assert (HF : leaves (fun s => (approval_requests s, approval_events s))
    (provision month_of mirror_prediction_columns ids row workload writer decision audit outbox_id tx_id amount
       effective_at now random)).
  { unfold provision. repeat leaves_step.
    by intros s1 id s2 [[_ ->]|(q & t & new & res & _ & -> & _)]%post_ledger_transaction_spec. }
  apply HF in H. by injection H.
Qed.

(** ** Interleaved calls *)

Lemma approvals_keep : calls_keep month_of mirror_prediction_columns approvals_sound approvals_go_on.
Proof.
  constructor; intros.
  - apply post_ledger_frame.
  - apply post_commit_frame.
  - apply post_release_frame.
  - apply post_denied_frame.
  - apply (approval_required_keeps (fun random => random 0%nat)).
  - apply post_report_frame.
  - apply lease_frame.
  - apply bundled_keeps.
  - apply (resolve_keeps (fun random => random 0%nat)).
  - apply expire_frame.
  - apply provision_frame.
Qed.

(** Others resolve approvals, such as those whose time is over, or leave them alone. *)
Definition approval_background (s s' : LedgerTables) : Prop :=
  same_approvals s s' \/
  exists now fresh id target subject issuer reason r,
    resolve_approval_request now fresh id target subject issuer reason s = Ok (r, s').

Lemma approval_calls calls s log s' ps' :
  approvals_sound s ->
  pool_run handle_ledger approval_background (s, serve month_of mirror_prediction_columns <$> calls) log (s', ps') ->
  approvals_sound s' /\ approvals_go_on s s'.
Proof.
  intros HS Hrun. eapply (calls_keep_inv _ _ _ _ approvals_keep); [|exact HS|exact Hrun].
  intros s1 s2 HS1 [Hsame|(now & fresh & id & target & subject & issuer & reason & r & Hr)];
    [by apply same_approvals_ok|by eapply resolve_step].
Qed.

(** C20: an approval is decided once, and used once. Calls of the ledger's and the
    control plane's RPCs run interleaved, with outages, while others resolve approvals
    too. An approval keeps what was asked and until when; once it is approved, denied,
    expired or cancelled, that, who did it, why and when stay as they are, and the event
    is on record; once it is bundled with a transaction it stays with that one, and only
    an approved one is. *)
Theorem approvals_final calls s log s' ps' id a :
  approvals_sound s ->
  pool_run handle_ledger approval_background (s, serve month_of mirror_prediction_columns <$> calls) log (s', ps') ->
  approval_requests s !! id = Some a ->
  exists a', approval_requests s' !! id = Some a' /\
    (ap_tenant_id a' = ap_tenant_id a /\ ap_decision_id a' = ap_decision_id a /\
     ap_requested_effect a' = ap_requested_effect a /\ ap_decision_context a' = ap_decision_context a /\
     ap_ttl_expires_at a' = ap_ttl_expires_at a) /\
    (ap_state a <> Pending ->
     ap_state a' = ap_state a /\ ap_resolved_by_subject a' = ap_resolved_by_subject a /\
     ap_resolution_reason a' = ap_resolution_reason a /\ ap_resolved_at a' = ap_resolved_at a) /\
    (is_Some (ap_bundled_ledger_transaction_id a) ->
     ap_bundled_ledger_transaction_id a' = ap_bundled_ledger_transaction_id a) /\
    (is_Some (ap_bundled_ledger_transaction_id a') -> ap_state a' = Approved) /\
    (ap_state a' <> Pending -> resolved_on_record id a' (approval_events s')).
Proof.
  intros HS Hrun Ha. destruct (approval_calls _ _ _ _ _ HS Hrun) as [HS' [Hgo _]].
  destruct (Hgo id a Ha) as (a' & Ha' & [H1 H2 H3]). destruct (HS' id a' Ha') as [_ H4 H5]. by exists a'.
Qed.

(** No approval is reserved to a role. Whatever role a contract's rule names for
    its approver, in every such interleaving the approvals have no restriction on who
    may approve, so the check that [resolve_approval] makes lets every principal
    pass. *)
Theorem approver_unrestricted calls s log s' ps' id a p :
  approvals_sound s ->
  pool_run handle_ledger approval_background (s, serve month_of mirror_prediction_columns <$> calls) log (s', ps') ->
  approval_requests s' !! id = Some a -> approver_admitted (ap_approver_policy a) p = true.
Proof.
  intros HS Hrun Ha. destruct (approval_calls _ _ _ _ _ HS Hrun) as [HS' _].
  destruct (HS' id a Ha) as [-> _ _]. done.
Qed.

End Approvals.
