(* ===== verification/Retention.v ===== *)
(** * The retention sweeper

    [services/retention_sweeper/src/lib.rs], with the procedure and the trigger of
    [services/ledger/migrations/0064]: the sweeps redact what is past its tenant's
    retention in audit rows and in recorded provider usage. They change nothing else
    ([redaction_only]), and an audit row of the ledger they never redact: what a row
    keeps of an event's data is not where they look ([prompts_never_redacted]). *)

From S2P Require Import Prelude Floats Deps Effects Proto Canonical Ingest Outbox LedgerDb Ledger Posting Books Auth ControlPlane LedgerRun Cap.

(** PostgreSQL's [text::BOOLEAN]. *)
Class PgBool := {
  pg_bool : string -> option bool;
  pg_bool_true : pg_bool "true" = Some true;
}.

Section Retention.
Context `{HU : UuidLib} `{HI : BigIntLib} `{HC : CryptoLib} `{HY : !UuidBytes} `{HT : ChronoLib}
        `{HJ : JsonLib} `{HB : Base64Lib} `{HG : !PgLib} `{HR : Rfc3339Lib} `{HV : ErrorTexts} `{HO : PgBool}.

(** ** Tables *)

(** Of [tenant_data_policy]. *)
Record DataPolicy := {
  prompt_retention_days : Z;
  provider_raw_retention_days : Z;
}.

(** Of [provider_usage_records]. *)
Record UsageRecord := {
  ur_tenant_id : uuid;
  ur_received_at : Z;
  ur_raw_payload : option json;
}.

Inductive SweepKind := PromptRedaction | ProviderRawRedaction | TombstoneCheck.

Definition sweep_kind_str (k : SweepKind) : string :=
  match k with
  | PromptRedaction => "prompt_redaction"
  | ProviderRawRedaction => "provider_raw_redaction"
  | TombstoneCheck => "tombstone_check"
  end.

Record SweepOutcome := {
  so_sweep_kind : SweepKind;
  so_rows_examined : Z;
  so_rows_redacted : Z;
  so_rows_failed : Z;
  so_started_at : Z;
  so_finished_at : Z;
}.

(** A row of [retention_sweeper_log]. *)
Record SweepLog := {
  sl_outcome : string;
  sl_sweep : SweepOutcome;
}.

Record RetentionTables := {
  rt_ledger : LedgerTables;
  tenant_data_policy : gmap uuid DataPolicy;
  provider_usage_records : gmap uuid UsageRecord;
  retention_sweeper_log : list SweepLog;
}.

Definition with_ledger l (s : RetentionTables) : RetentionTables :=
  {| rt_ledger := l; tenant_data_policy := tenant_data_policy s;
     provider_usage_records := provider_usage_records s; retention_sweeper_log := retention_sweeper_log s |}.
Definition with_usage u (s : RetentionTables) : RetentionTables :=
  {| rt_ledger := rt_ledger s; tenant_data_policy := tenant_data_policy s;
     provider_usage_records := u; retention_sweeper_log := retention_sweeper_log s |}.

(** ** The marker *)

Definition redacted_marker (now : Z) : json :=
  JObj [("_redacted", JBool true); ("redacted_at", JStr (to_rfc3339 now))].

(** [(value->>'_redacted')::BOOLEAN], false when there is none. *)
Definition is_redacted (value : option json) : result SqlError bool :=
  let cast text := ok_or (pg_bool text)
    (DatabaseError (Some "22P02") ("invalid input syntax for type boolean: " +:+ text) None) in
  match value ≫= jget "_redacted" with
  | None | Some JNull => Ok false
  | Some (JBool true) => cast "true"
  | Some (JBool false) => cast "false"
  | Some (JStr text) => cast text
  | Some v => cast (json_to_vec v)
  end.

(** [jsonb_set(target, '{key}', value, true)] *)
Definition jsonb_set (key : string) (value target : json) : result SqlError json :=
  match target with
  | JObj o => Ok (JObj (obj_insert key value o))
  | JArr _ => Err (DatabaseError (Some "22P02") "path element is not an integer" None)
  | _ => Err (DatabaseError (Some "22023") "cannot set path in scalar" None)
  end.

(** ** [redact_audit_outbox_data] (0064) *)

(** ['^[0-9a-f]{64}$'] *)
Definition is_hex_digest (s : string) : bool :=
  (slen s =? 64) && forallb (fun c => let b := byte_of c in ((48 <=? b) && (b <=? 57)) || ((97 <=? b) && (b <=? 102)))
                      (list_ascii_of_string s).

Definition redacted_payload (marker : json) (digest : string) (payload : json) : result SqlError json :=
  p ← jsonb_set "data" marker payload; jsonb_set "_data_sha256_hex" (JStr digest) p.

Definition with_payload (payload : json) (r : AuditOutboxRow) : AuditOutboxRow :=
  {| ao_entry :=
       {| oe_row :=
            {| or_recorded_month := or_recorded_month (ao_row r); or_audit_outbox_id := or_audit_outbox_id (ao_row r);
               or_event_type := or_event_type (ao_row r); or_cloudevent_payload := payload;
               or_cloudevent_payload_signature := or_cloudevent_payload_signature (ao_row r);
               or_producer_sequence := or_producer_sequence (ao_row r);
               or_recorded_at := or_recorded_at (ao_row r) |};
          oe_pending_forward := oe_pending_forward (ao_entry r); oe_forwarded_at := oe_forwarded_at (ao_entry r);
          oe_forward_attempts := oe_forward_attempts (ao_entry r);
          oe_last_forward_error := oe_last_forward_error (ao_entry r) |};
     ao_audit_decision_event_id := ao_audit_decision_event_id r; ao_decision_id := ao_decision_id r;
     ao_tenant_id := ao_tenant_id r; ao_ledger_transaction_id := ao_ledger_transaction_id r;
     ao_ledger_fencing_epoch := ao_ledger_fencing_epoch r; ao_workload_instance_id := ao_workload_instance_id r;
     ao_idempotency_key := ao_idempotency_key r |}.

Definition payload_of (r : AuditOutboxRow) : json := or_cloudevent_payload (ao_row r).

(** The update of one row; the trigger lets this change of the payload pass. *)
Definition redact_row (id : uuid) (marker : json) (digest : string) (r : AuditOutboxRow) : result SqlError AuditOutboxRow :=
  if bool_decide (or_audit_outbox_id (ao_row r) = id) then
    done_ ← is_redacted (jget "data" (payload_of r));
    if (done_ : bool) then Ok r
    else p ← redacted_payload marker digest (payload_of r); Ok (with_payload p r)
  else Ok r.

Fixpoint map_rows (f : AuditOutboxRow -> result SqlError AuditOutboxRow) (l : list AuditOutboxRow)
    : result SqlError (list AuditOutboxRow) :=
  match l with [] => Ok [] | r :: l => r ← f r; l ← map_rows f l; Ok (r :: l) end.

Definition statement (A : Type) : Type := RetentionTables -> result SqlError (A * RetentionTables).

Definition redact_audit_outbox_data (id : uuid) (marker : json) (digest : string) : statement unit := fun s =>
  marked ← is_redacted (Some marker);
  _ ← ensure marked (DatabaseError (Some "22023") "redact_audit_outbox_data: marker must be the redaction marker" None);
  _ ← ensure (is_hex_digest digest)
        (DatabaseError (Some "22023") "redact_audit_outbox_data: digest must be a lowercase 64-char hex SHA-256" None);
  rows ← map_rows (redact_row id marker digest) (audit_outbox (rt_ledger s));
  Ok (tt, with_ledger (with_outbox rows (audit_outbox_global_keys (rt_ledger s)) (rt_ledger s)) s).

(** ** The candidates *)

Definition day : Z := secs 86400.

(** [WHERE] over a list of rows; the first part decides whether the cast is made. *)
Fixpoint select_where {A B} (P : A -> option B) (redacted : B -> result SqlError bool) (l : list A)
    : result SqlError (list B) :=
  match l with
  | [] => Ok []
  | a :: l =>
      rest ← select_where P redacted l;
      match P a with
      | Some b => r ← redacted b; Ok (if (r : bool) then rest else b :: rest)
      | None => Ok rest
      end
  end.

(** [ORDER BY .. LIMIT batch] *)
Definition first_rows {A} (key : A -> Z) (batch : Z) (l : list A) : result SqlError (list A) :=
  if batch <? 0 then Err (DatabaseError (Some "2201W") "LIMIT must not be negative" None)
  else Ok (take (Z.to_nat batch) (order_by key l)).

Definition read {A} (f : RetentionTables -> result SqlError A) : statement A := fun s =>
  match f s with Ok a => Ok (a, s) | Err e => Err e end.

Definition prompt_candidate (now : Z) (s : RetentionTables) (r : AuditOutboxRow) : option (Z * uuid * json) :=
  match tenant_data_policy s !! ao_tenant_id r, jget "data" (payload_of r) with
  | Some p, Some data =>
      if (0 <? prompt_retention_days p)
         && (or_recorded_at (ao_row r) <? now - prompt_retention_days p * day)
      then Some (or_recorded_at (ao_row r), or_audit_outbox_id (ao_row r), data) else None
  | _, _ => None
  end.

Definition candidates {A} (P : A -> option (Z * uuid * json)) (batch : Z) (l : list A)
    : result SqlError (list (Z * uuid * json)) :=
  found ← select_where P (fun c : Z * uuid * json => is_redacted (Some c.2)) l;
  first_rows (fun c : Z * uuid * json => c.1.1) batch found.

Definition prompt_candidates (batch now : Z) : statement (list (Z * uuid * json)) :=
  read (fun s => candidates (prompt_candidate now s) batch (audit_outbox (rt_ledger s))).

Definition usage_candidate (now : Z) (s : RetentionTables) (kv : uuid * UsageRecord) : option (Z * uuid * json) :=
  match tenant_data_policy s !! ur_tenant_id kv.2, ur_raw_payload kv.2 with
  | Some p, Some raw =>
      if (0 <? provider_raw_retention_days p)
         && (ur_received_at kv.2 <? now - provider_raw_retention_days p * day)
      then Some (ur_received_at kv.2, kv.1, raw) else None
  | _, _ => None
  end.

Definition usage_candidates (batch now : Z) : statement (list (Z * uuid * json)) :=
  read (fun s => candidates (usage_candidate now s) batch (map_to_list (provider_usage_records s))).

Definition redact_usage (id : uuid) (marker : json) : statement unit := fun s =>
  Ok (tt, with_usage (alter (fun r => {| ur_tenant_id := ur_tenant_id r; ur_received_at := ur_received_at r;
                                         ur_raw_payload := Some marker |}) id (provider_usage_records s)) s).

(** ** The sweeps *)

Inductive retentionE : Type -> Type :=
  | Statement {A} (stmt : Z -> statement A) : retentionE (result SqlError A)
  | SweepNow : retentionE Z.

Abbreviation sweep A := (M retentionE SqlError A).

Definition run_statement {A} (stmt : Z -> statement A) : sweep A := r ← act (Statement stmt); lift r.

(** Rows redacted and failed. *)
Fixpoint redact_each {A} (redact : Z -> A -> statement unit) (l : list A) (ok failed : Z) : sweep (Z * Z) :=
  match l with
  | [] => mret (ok, failed)
  | a :: l =>
      now ← act SweepNow;
      r ← act (Statement (fun _ => redact now a));
      match r with
      | Ok _ => redact_each redact l (ok + 1) failed
      | Err _ => redact_each redact l ok (failed + 1)
      end
  end.

Definition outcome (kind : SweepKind) (started : Z) (examined : nat) (counts : Z * Z) (finished : Z) : SweepOutcome :=
  {| so_sweep_kind := kind; so_rows_examined := Z.of_nat examined; so_rows_redacted := counts.1;
     so_rows_failed := counts.2; so_started_at := started; so_finished_at := finished |}.

Definition redact_prompt (now : Z) (c : Z * uuid * json) : statement unit :=
  redact_audit_outbox_data c.1.2 (redacted_marker now) (hex_encode (sha256 (json_to_vec c.2))).

Definition sweep_audit_outbox_prompts (batch_size : Z) : sweep SweepOutcome :=
  started ← act SweepNow;
  rows ← run_statement (prompt_candidates batch_size);
  counts ← redact_each redact_prompt rows 0 0;
  finished ← act SweepNow;
  mret (outcome PromptRedaction started (length rows) counts finished).

Definition sweep_provider_usage_raw (batch_size : Z) : sweep SweepOutcome :=
  started ← act SweepNow;
  rows ← run_statement (usage_candidates batch_size);
  counts ← redact_each (fun now (c : Z * uuid * json) => redact_usage c.1.2 (redacted_marker now)) rows 0 0;
  finished ← act SweepNow;
  mret (outcome ProviderRawRedaction started (length rows) counts finished).

Definition outcome_text (o : SweepOutcome) : string :=
  if so_rows_failed o =? 0 then "success"
  else if 0 <? so_rows_redacted o then "partial_failure"
  else "permanent_failure".

Definition log_sweep (o : SweepOutcome) : sweep unit :=
  run_statement (fun _ s => Ok (tt,
    {| rt_ledger := rt_ledger s; tenant_data_policy := tenant_data_policy s;
       provider_usage_records := provider_usage_records s;
       retention_sweeper_log := {| sl_outcome := outcome_text o; sl_sweep := o |} :: retention_sweeper_log s |})).

(** One cycle of [main]'s loop, as the leader: what a sweep reports is logged, and its
    failure does not stop the other. *)
Definition log_attempt (r : result SqlError SweepOutcome) : sweep unit :=
  match r with
  | Ok o => _ ← attempt (log_sweep o); mret tt
  | Err _ => mret tt
  end.

Definition sweep_cycle (batch_size : Z) : sweep unit :=
  prompts ← attempt (sweep_audit_outbox_prompts batch_size);
  _ ← log_attempt prompts;
  usage ← attempt (sweep_provider_usage_raw batch_size);
  log_attempt usage.

(** ** What a sweep may change *)

(** A statement commits or raises; or the connection fails, before or after. *)
Definition handle_retention (X : Type) (e : retentionE X) (s : RetentionTables) : X -> RetentionTables -> Prop :=
  match e in retentionE X return X -> RetentionTables -> Prop with
  | Statement stmt => fun x s' => exists now,
      match stmt now s with
      | Ok (a, s1) => (x = Ok a /\ s' = s1) \/ (exists e, x = Err e /\ (s' = s \/ s' = s1))
      | Err e => (exists e', x = Err e') /\ s' = s
      end
  | SweepNow => fun _ s' => s' = s
  end.

(** A payload whose data went and whose other members stayed. *)
Definition payload_redacted (p p' : json) : Prop :=
  is_redacted (jget "data" p') = Ok true /\
  forall k, k <> "data" -> k <> "_data_sha256_hex" -> jget k p' = jget k p.

Definition row_redacted (r r' : AuditOutboxRow) : Prop :=
  r' = r \/ exists p, r' = with_payload p r /\ payload_redacted (payload_of r) p.

Definition usage_redacted (u u' : UsageRecord) : Prop :=
  ur_tenant_id u' = ur_tenant_id u /\ ur_received_at u' = ur_received_at u /\
  (ur_raw_payload u' = ur_raw_payload u \/ is_redacted (ur_raw_payload u') = Ok true).

Record redacts (s s' : RetentionTables) : Prop := {
  rd_policy : tenant_data_policy s' = tenant_data_policy s;
  rd_log : exists new, retention_sweeper_log s' = new ++ retention_sweeper_log s;
  rd_ledger : exists rows, rt_ledger s' = with_outbox rows (audit_outbox_global_keys (rt_ledger s)) (rt_ledger s);
  rd_rows : Forall2 row_redacted (audit_outbox (rt_ledger s)) (audit_outbox (rt_ledger s'));
  rd_usage : forall id, option_Forall2 usage_redacted (provider_usage_records s !! id) (provider_usage_records s' !! id);
}.

Lemma row_redacted_refl r : row_redacted r r.
Proof. by left. Qed.

Lemma usage_redacted_refl u : usage_redacted u u.
Proof. split; [done|]. split; [done|]. by left. Qed.

Lemma rows_redacted_refl l : Forall2 row_redacted l l.
Proof. induction l; constructor; [apply row_redacted_refl|done]. Qed.

Lemma ledger_same l : l = with_outbox (audit_outbox l) (audit_outbox_global_keys l) l.
Proof. by destruct l. Qed.

Lemma usages_redacted_refl (m : gmap uuid UsageRecord) id : option_Forall2 usage_redacted (m !! id) (m !! id).
Proof. destruct (m !! id); constructor. apply usage_redacted_refl. Qed.

Lemma redacts_refl s : redacts s s.
Proof.
  constructor; [done|by exists []| |apply rows_redacted_refl|intros id; apply usages_redacted_refl].
  eexists. apply ledger_same.
Qed.

(** The marker is one. *)
Lemma marker_redacted now : is_redacted (Some (redacted_marker now)) = Ok true.
Proof. unfold is_redacted. cbn. by rewrite pg_bool_true. Qed.

Lemma jget_insert k k' v o :
  jget k (JObj (obj_insert k' v o)) = if decide (k = k') then Some v else jget k (JObj o).
Proof.
  unfold obj_insert. cbn. case_decide as Hk; [done|]. rewrite al_get_remove. by rewrite decide_False.
Qed.

Lemma redacted_payload_ok marker digest p p' :
  is_redacted (Some marker) = Ok true -> redacted_payload marker digest p = Ok p' -> payload_redacted p p'.
Proof.
  intros Hm H. unfold redacted_payload in H. destruct p as [| | | | | |o]; try done. cbn -[obj_insert] in H.
  injection H as <-. split.
  - rewrite !jget_insert. by rewrite decide_False, decide_True by done.
  - intros k Hk Hk'. rewrite !jget_insert. by rewrite !decide_False by done.
Qed.

Lemma map_rows_ok f l l' :
  map_rows f l = Ok l' -> Forall2 (fun r r' => f r = Ok r') l l'.
Proof.
  revert l'; induction l as [|r l IH]; cbn; intros l' H; [by injection H as <-; constructor|].
  destruct (f r) as [r'|] eqn:Hf; [|done]. cbn in H. destruct (map_rows f l) as [l1|]; [|done]. cbn in H.
  injection H as <-. constructor; [done|by apply IH].
Qed.

Lemma redact_row_ok id marker digest r r' :
  is_redacted (Some marker) = Ok true -> redact_row id marker digest r = Ok r' -> row_redacted r r'.
Proof.
  intros Hm H. unfold redact_row in H. case_bool_decide; [|by injection H as <-; left].
  destruct (is_redacted (jget "data" (payload_of r))) as [[]|]; [by injection H as <-; left| |done]. cbn in H.
  destruct (redacted_payload _ _ _) as [p|] eqn:Hp; [|done]. injection H as <-. right. exists p.
  split; [done|by eapply redacted_payload_ok].
Qed.

Definition only_redacts {A} (m : statement A) : Prop := forall s a s', m s = Ok (a, s') -> redacts s s'.

Lemma redact_prompt_redacts now c : only_redacts (redact_prompt now c).
Proof.
  intros s u s' H. unfold redact_prompt, redact_audit_outbox_data in H. rewrite marker_redacted in H. cbn in H.
  destruct (is_hex_digest _); [|done]. cbn in H. destruct (map_rows _ _) as [rows|] eqn:Hr; [|done].
  injection H as _ <-. constructor; cbn; [done|by exists []|by exists rows| |intros id; apply usages_redacted_refl].
  apply map_rows_ok in Hr. eapply Forall2_impl; [exact Hr|]. intros r r'. apply redact_row_ok, marker_redacted.
Qed.

Lemma redact_usage_redacts now (c : Z * uuid * json) : only_redacts (redact_usage c.1.2 (redacted_marker now)).
Proof.
  intros s u s' [= _ <-]. constructor; cbn; [done|by exists []| |apply rows_redacted_refl|].
  - eexists. apply ledger_same.
  - intros id. destruct (decide (c.1.2 = id)) as [<-|Hne]; [|rewrite lookup_alter_ne by done; apply usages_redacted_refl].
    rewrite lookup_alter_eq. destruct (provider_usage_records s !! c.1.2); constructor. split; [done|]. split; [done|].
    right. apply marker_redacted.
Qed.

Lemma read_redacts {A} (f : RetentionTables -> result SqlError A) : only_redacts (read f).
Proof. intros s a s' H. unfold read in H. destruct (f s); [|done]. injection H as _ <-. apply redacts_refl. Qed.

(** *** Programs of such statements *)

Definition sweeps {R} (p : prog retentionE R) : Prop :=
  forall s, follows handle_retention (fun _ => True) (fun _ _ => True) redacts (fun _ _ => True) p s.

Lemma sweeps_pbind {A B} (p : prog retentionE A) (f : A -> prog retentionE B) :
  sweeps p -> (forall a, sweeps (f a)) -> sweeps (pbind p f).
Proof. intros Hp Hf s. apply follows_pbind. eapply follows_weaken; [|apply Hp]. intros a s' _. apply Hf. Qed.

Lemma sweeps_ret {R} (r : R) : sweeps (Ret r).
Proof. done. Qed.

Lemma sweeps_bind {A B} (p : sweep A) (f : A -> sweep B) : sweeps p -> (forall a, sweeps (f a)) -> sweeps (p ≫= f).
Proof. intros Hp Hf. apply sweeps_pbind; [done|]. intros [a|e]; [apply Hf|apply sweeps_ret]. Qed.

Lemma sweeps_statement {A} (stmt : Z -> statement A) : (forall now, only_redacts (stmt now)) -> sweeps (act (Statement stmt) : sweep _).
Proof.
  intros Hs s s1 x s2 _ _ (now & Hx). enough (redacts s1 s2) by done.
  destruct (stmt now s1) as [[a s3]|e] eqn:Hst; [|destruct Hx as [_ ->]; apply redacts_refl].
  apply Hs in Hst. destruct Hx as [[_ ->]|(e & _ & [->| ->])]; [done|apply redacts_refl|done].
Qed.

Lemma sweeps_now : sweeps (act SweepNow : sweep _).
Proof. intros s s1 x s2 _ _ ->. split; [apply redacts_refl|done]. Qed.

Lemma redact_each_sweeps {A} (redact : Z -> A -> statement unit) l ok failed :
  (forall now a, only_redacts (redact now a)) -> sweeps (redact_each redact l ok failed).
Proof.
  intros Hr. revert ok failed; induction l as [|a l IH]; intros ok failed; [apply sweeps_ret|].
  apply sweeps_bind; [apply sweeps_now|intros now]. apply sweeps_bind; [apply sweeps_statement; intros _; apply Hr|].
  intros [u|e]; apply IH.
Qed.

Lemma attempt_sweeps {A} (p : sweep A) : sweeps p -> sweeps (attempt p : sweep _).
Proof. intros Hp. apply sweeps_pbind; [done|intros r; apply sweeps_ret]. Qed.

Lemma prompts_sweeps batch : sweeps (sweep_audit_outbox_prompts batch).
Proof.
  apply sweeps_bind; [apply sweeps_now|intros started].
  apply sweeps_bind; [apply sweeps_bind; [apply sweeps_statement; intros now; apply read_redacts|intros r; apply sweeps_ret]|].
  intros rows. apply sweeps_bind; [apply redact_each_sweeps, redact_prompt_redacts|intros counts].
  apply sweeps_bind; [apply sweeps_now|intros finished; apply sweeps_ret].
Qed.

Lemma usage_sweeps batch : sweeps (sweep_provider_usage_raw batch).
Proof.
  apply sweeps_bind; [apply sweeps_now|intros started].
  apply sweeps_bind; [apply sweeps_bind; [apply sweeps_statement; intros now; apply read_redacts|intros r; apply sweeps_ret]|].
  intros rows. apply sweeps_bind; [apply redact_each_sweeps, redact_usage_redacts|intros counts].
  apply sweeps_bind; [apply sweeps_now|intros finished; apply sweeps_ret].
Qed.

Lemma log_attempt_sweeps r : sweeps (log_attempt r).
Proof.
  destruct r as [o|e]; [|apply sweeps_ret]. apply sweeps_bind; [apply attempt_sweeps|intros u; apply sweeps_ret].
  apply sweeps_bind; [apply sweeps_statement|intros x; apply sweeps_ret]. intros now s u s' [= _ <-].
  constructor; cbn; [done|by eexists [_]| |apply rows_redacted_refl|intros id; apply usages_redacted_refl].
  eexists. apply ledger_same.
Qed.

Lemma redacts_evolves s s' : redacts s s' -> evolves (rt_ledger s) (rt_ledger s').
Proof.
  intros [_ _ [rows Hl] Hrows _]. rewrite Hl in *. constructor; try done.
  - eapply Forall2_impl; [exact Hrows|]. intros r r' [->|(p & -> & _)]; [apply same_row_refl|by split_and!].
  - intros id f Hf. exists f. split; [done|apply lease_refl].
Qed.

(** C31: redaction and nothing else. Whatever else happens to the tables meanwhile,
    and however its statements fail, each step of a cycle of the retention sweeper
    leaves every row where it is: of an audit row it may change the payload, to one
    with the marker for its data and all other members the same; of a usage record the
    raw payload, to the marker; its log only grows. So the ledger's books, which do not
    depend on payloads, are as before. *)
Theorem redaction_only batch s :
  follows handle_retention (fun _ => True) (fun _ _ => True)
    (fun s s' => redacts s s' /\ (books (rt_ledger s) -> books (rt_ledger s')) /\
                 (floor (rt_ledger s) -> floor (rt_ledger s')))
    (fun _ _ => True) (sweep_cycle batch) s.
Proof.
  assert (Hs : sweeps (sweep_cycle batch)).
  { apply sweeps_bind; [apply attempt_sweeps, prompts_sweeps|intros prompts].
    apply sweeps_bind; [apply log_attempt_sweeps|intros _].
    apply sweeps_bind; [apply attempt_sweeps, usage_sweeps|intros usage; apply log_attempt_sweeps]. }
  specialize (Hs s). revert Hs. generalize (sweep_cycle batch). intros p; revert s.
  induction p as [r|X e k IH]; intros s; cbn; [done|]. intros Hk s1 x s2 Hr HI' Hh.
  destruct (Hk s1 x s2 Hr HI' Hh) as (Hg & _ & Hf). split; [|split; [done|by apply IH]].
  split; [done|]. pose proof (redacts_evolves _ _ Hg). split; intros; [by eapply evolves_books|by eapply evolves_floor].
Qed.

(** ** What the ledger stores of an event's data *)

Context (month_of : Z -> Z) (mirror_prediction_columns : string -> json -> Z -> result SqlError unit).

(** No audit row has a member [data]. *)
Definition no_data (s : LedgerTables) : Prop :=
  forall r, r ∈ audit_outbox s -> jget "data" (payload_of r) = None.

#[local] Instance any_preorder : PreOrder (fun _ _ : LedgerTables => True).
Proof. by split. Qed.

Abbreviation keeps := (LedgerRun.keeps no_data (fun _ _ => True)).

Definition outbox_only {A} (m : sp A) (outbox : OutboxJson) : Prop :=
  forall s a s', m s = Ok (a, s') ->
    audit_outbox s' = audit_outbox s \/
    exists r, payload_of r = oj_cloudevent_payload outbox /\ audit_outbox s' = r :: audit_outbox s.

Lemma outbox_keeps {A} (stmt : Z -> (nat -> uuid) -> sp A) outbox :
  jget "data" (oj_cloudevent_payload outbox) = None -> (forall now random, outbox_only (stmt now random) outbox) ->
  keeps stmt (fun _ _ => True).
Proof.
  intros Hno Hs now random s a s' HN H. split; [|done]. destruct (Hs now random s a s' H) as [Hsame|(r & Hr & Hnew)].
  - intros q. rewrite Hsame. apply HN.
  - intros q. rewrite Hnew, elem_of_cons. intros [->|Hq]; [by rewrite Hr|by apply HN].
Qed.

Lemma payload_frame_keeps {A} (stmt : Z -> (nat -> uuid) -> sp A) :
  (forall now random s a s', stmt now random s = Ok (a, s') -> audit_outbox s' = audit_outbox s) ->
  keeps stmt (fun _ _ => True).
Proof. intros Hs now random s a s' HN H. split; [|done]. intros q. rewrite (Hs _ _ _ _ _ H). apply HN. Qed.

Ltac outbox_new := right; eexists; split; [|reflexivity]; reflexivity.

Lemma post_ledger_outbox now op tx entries rows outbox token :
  outbox_only (post_ledger_transaction month_of mirror_prediction_columns now op tx entries rows outbox token) outbox.
Proof.
  intros s a s' [[_ ->]|(q & t & new & res & _ & -> & _)]%post_ledger_transaction_spec; [by left|outbox_new].
Qed.

Lemma post_denied_outbox now tx outbox :
  outbox_only (post_denied_decision_transaction month_of mirror_prediction_columns now tx outbox) outbox.
Proof. intros s a s' [[_ ->]|(t & _ & -> & _)]%post_denied_decision_spec; [by left|outbox_new]. Qed.

(** The payload of a row is [cloudevent_payload], which has the data as [data_b64]. *)
Lemma outbox_json_no_data id type evt seq : jget "data" (oj_cloudevent_payload (outbox_json id type evt seq)) = None.
Proof. reflexivity. Qed.

Lemma reserve_outbox_keeps op tx entries rows id type evt seq token :
  keeps (fun now _ => post_ledger_transaction month_of mirror_prediction_columns now op tx entries rows
                        (outbox_json id type evt seq) token) (fun _ _ => True).
Proof. eapply outbox_keeps; [apply outbox_json_no_data|]. intros now random. apply post_ledger_outbox. Qed.

Lemma commit_outbox_keeps tx reservation text pricing id type evt seq :
  keeps (fun now _ => post_commit_estimated_transaction month_of mirror_prediction_columns now tx reservation text
                        pricing (outbox_json id type evt seq)) (fun _ _ => True).
Proof.
  eapply outbox_keeps; [apply (outbox_json_no_data id type evt seq)|].
  intros now random s a s' (est & _ & [[_ ->]|Hp])%post_commit_estimated_spec; [by left|].
  destruct Hp as (q & t & new & row & reserve & c & _ & -> & _). outbox_new.
Qed.

Lemma release_outbox_keeps tx set reason id type evt seq :
  keeps (fun now _ => post_release_transaction month_of mirror_prediction_columns now tx set reason
                        (outbox_json id type evt seq)) (fun _ _ => True).
Proof.
  eapply outbox_keeps; [apply (outbox_json_no_data id type evt seq)|].
  intros now random s a s' [[_ ->]|Hp]%post_release_spec; [by left|].
  destruct Hp as (q & t & new & reservation & row & reserve & _ & -> & _). outbox_new.
Qed.

Lemma report_outbox_keeps tx reservation text pricing id type evt seq :
  keeps (fun now _ => post_provider_reported_transaction month_of mirror_prediction_columns now tx reservation text
                        pricing (outbox_json id type evt seq)) (fun _ _ => True).
Proof.
  eapply outbox_keeps; [apply (outbox_json_no_data id type evt seq)|].
  intros now random s a s' (amount & _ & [[_ ->]|Hp])%post_provider_reported_spec; [by left|].
  destruct Hp as (q & t & new & row & reserve & cid & c & _ & -> & _). outbox_new.
Qed.

Lemma denied_outbox_keeps tx id type evt seq :
  keeps (fun now _ => post_denied_decision_transaction month_of mirror_prediction_columns now tx
                        (outbox_json id type evt seq)) (fun _ _ => True).
Proof. eapply outbox_keeps; [apply outbox_json_no_data|]. intros now random. apply post_denied_outbox. Qed.

Lemma approval_outbox_keeps (fresh : (nat -> uuid) -> uuid) tx id type evt seq ctx eff ttl :
  keeps (fun now random => post_approval_required_decision month_of mirror_prediction_columns now (fresh random) tx
                             (outbox_json id type evt seq) ctx eff ttl) (fun _ _ => True).
Proof.
  eapply outbox_keeps; [apply (outbox_json_no_data id type evt seq)|].
  intros now random s r s' (s1 & Hd%post_denied_outbox & Ha)%post_approval_required_spec.
  destruct (po_was_first_insert r); [by destruct Ha as (_ & _ & _ & ->)|by destruct Ha as [_ ->]].
Qed.

Lemma lease_outbox scope tenant workload ttl force audit :
  keeps (fun now _ => LedgerDb.acquire_fencing_lease now scope tenant workload ttl force audit) (fun _ _ => True).
Proof.
  apply payload_frame_keeps. intros now random s r s' (f & _ & _ & Hr)%acquire_fencing_lease_spec.
  destruct (lr_granted r); [by destruct Hr as (-> & _)|by destruct Hr as [-> _]].
Qed.

Lemma bundled_outbox id tx_id : keeps (fun _ _ => LedgerDb.mark_approval_bundled id tx_id) (fun _ _ => True).
Proof.
  apply payload_frame_keeps. intros now random s r s' H. apply sp_bind_ok in H as (a & s1 & ->%lock_approval_ok & H).
  apply sp_bind_ok in H as (u & s1 & [_ ->]%check_ok & H).
  destruct (ap_bundled_ledger_transaction_id a) as [b|].
  - apply sp_bind_ok in H as (v & s1 & [_ ->]%check_ok & H). by injection H as _ <-.
  - apply sp_bind_ok in H as (v & s1 & [= <- <-] & H). by injection H as _ <-.
Qed.

Lemma resolve_outbox (fresh : (nat -> uuid) -> uuid) id target subject issuer reason :
  keeps (fun now random => resolve_approval_request now (fresh random) id target subject issuer reason)
    (fun _ _ => True).
Proof. apply payload_frame_keeps. by intros now random s r s' [->|(a & ev & ->)]%resolve_approval_request_spec. Qed.

Lemma expire_outbox tenant : keeps (fun now _ => expire_scopes tenant now) (fun _ _ => True).
Proof. apply payload_frame_keeps. by intros now random s a s' [= _ <-]. Qed.

Lemma provision_outbox ids row workload writer decision audit outbox_id tx_id amount effective_at :
  keeps (provision month_of mirror_prediction_columns ids row workload writer decision audit outbox_id tx_id amount
           effective_at) (fun _ _ => True).
Proof.
  apply (outbox_keeps _ (deposit_outbox outbox_id audit (ti_tenant ids) amount)); [done|]. intros now random.
  assert (Hseq : forall {A B} (m : sp A) (k : A -> sp B) o, leaves audit_outbox m -> (forall a, outbox_only (k a) o) ->
                   outbox_only (m ≫= k) o).
  { intros A B m k o Hm Hk s b s' (a & s1 & H1 & H2)%sp_bind_ok. rewrite <- (Hm _ _ _ H1). by eapply Hk. }
  unfold provision. do 7 (apply Hseq; [repeat leaves_step|intros ?]). apply post_ledger_outbox.
Qed.

Lemma payloads_keep : calls_keep month_of mirror_prediction_columns no_data (fun _ _ => True).
Proof.
  constructor; intros.
  - apply reserve_outbox_keeps.
  - apply commit_outbox_keeps.
  - apply release_outbox_keeps.
  - apply denied_outbox_keeps.
  - apply (approval_outbox_keeps (fun random => random 0%nat)).
  - apply report_outbox_keeps.
  - apply lease_outbox.
  - apply bundled_outbox.
  - apply (resolve_outbox (fun random => random 0%nat)).
  - apply expire_outbox.
  - apply provision_outbox.
Qed.

(** Others change no payload, such as the forwarder. *)
Definition payload_background (s s' : LedgerTables) : Prop :=
  payload_of <$> audit_outbox s' = payload_of <$> audit_outbox s.

Lemma no_data_payloads s s' : payload_background s s' -> no_data s -> no_data s'.
Proof.
  intros Hp HN r Hr. assert (Hin : payload_of r ∈ (payload_of <$> audit_outbox s')) by (apply list_elem_of_fmap; by exists r).
  rewrite Hp in Hin. apply list_elem_of_fmap in Hin as (q & -> & Hq). by apply HN.
Qed.

(** No row is a candidate. *)
Lemma no_candidates s now batch rows s' :
  no_data (rt_ledger s) -> prompt_candidates batch now s = Ok (rows, s') -> rows = [] /\ s' = s.
Proof.
  intros HN H. unfold prompt_candidates, read, candidates in H.
  assert (Hw : select_where (prompt_candidate now s) (fun c : Z * uuid * json => is_redacted (Some c.2))
                 (audit_outbox (rt_ledger s)) = Ok []).
  { revert HN. unfold no_data. generalize (audit_outbox (rt_ledger s)). intros l; induction l as [|r l IH]; intros HN;
      cbn; [done|].
    rewrite IH by (intros q Hq; apply HN; by right). cbn. unfold prompt_candidate. rewrite HN by (by left).
    by destruct (tenant_data_policy s !! ao_tenant_id r). }
  rewrite Hw in H. cbn in H. unfold first_rows in H. destruct (batch <? 0); [done|]. cbn in H.
  rewrite take_nil in H. by injection H as <- <-.
Qed.

(** C30: prompts are never redacted. The ledger's calls, the control plane's, in
    any interleaving, store what an event carries as [data_b64]: no audit row has a
    member [data]. So whatever the tenants' policies are and however old the rows,
    and whatever calls run beside it, a sweep of the prompts examines no row, redacts
    none, and changes nothing; it reports success. *)
Theorem prompts_never_redacted calls s log s' ps' batch t :
  no_data s -> pool_run handle_ledger payload_background (s, serve month_of mirror_prediction_columns <$> calls) log (s', ps') ->
  rt_ledger t = s' ->
  follows handle_retention (fun t => no_data (rt_ledger t)) (fun _ _ => True) (fun t1 t2 => t2 = t1)
    (fun r _ => match r with
                | Ok o => so_rows_examined o = 0 /\ so_rows_redacted o = 0 /\ outcome_text o = "success"
                | Err _ => True
                end) (sweep_audit_outbox_prompts batch) t /\ no_data (rt_ledger t).
Proof.
  intros HN Hrun Ht. split.
  - intros s1 x s2 _ H1 ->. split; [done|]. split; [done|]. cbn. intros s3 y s4 _ H3 (now & Hy).
    destruct (prompt_candidates batch now s3) as [[rows s5]|e] eqn:Hc; [|by destruct Hy as [[e' ->] ->]].
    apply no_candidates in Hc as [-> ->]; [|done]. destruct Hy as [[-> ->]|(e & -> & [->| ->])]; [|done..].
    split; [done|]. split; [done|]. cbn. intros s6 z s7 _ H6 ->. done.
  - rewrite Ht. eapply (calls_keep_inv _ _ _ _ payloads_keep payload_background); [|exact HN|exact Hrun].
    intros s1 s2 H1 Hp. split; [by eapply no_data_payloads|done].
Qed.

End Retention.
