(* ===== verification/CapDemo.v ===== *)
(** * A run of the ledger

    Concrete libraries, an executable meaning of the handlers' effects, and calls
    that run interleaved over an empty database: a tenant is created with 100 units,
    reserves, commits and releases. They are the witnesses of [Cap]. *)

From S2P Require Import Prelude Floats Deps Effects Proto Canonical Ingest Outbox LedgerDb Ledger Chain Posting Books Auth ControlPlane LedgerRun Balances Cap Lifecycle Approvals Retention TtlSweeper.
Import Demo.
#[export] Existing Instances ChainDemo.demo_json ChainDemo.demo_base64.

#[export] Instance demo_pg : PgLib.
Proof.
  refine {| pg_uuid := demo_uuid_parse; pg_numeric38 := parse_signed; pg_numeric := parse_signed;
            pg_timestamp := Some; pg_timestamp_text := z_str; pg_limit1 := fun A l => head l;
            pg_partition_index := fun index _ => index |}.
  - done.
  - intros z z' Hz. cbn in Hz. rewrite parse_signed_z_str in Hz. congruence.
  - intros A [|a l]; [done|]. by left.
Defined.

#[export] Instance demo_rfc3339 : Rfc3339Lib :=
  {| to_rfc3339 := z_str; parse_from_rfc3339 := parse_signed; parse_to_rfc3339 := parse_signed_z_str |}.

#[export] Instance demo_errors : ErrorTexts := {| uuid_error := fun s => s; bigint_error := fun s => s |}.

Definition no_mirror (type : string) (payload : json) (at_ : Z) : result SqlError unit := Ok tt.

(** ** Running a schedule *)

Definition clock : Z := secs 1000.

(** The effect number [n]: fresh ids are [g0], [g1], ..., the random ones of a statement [r0.0], ... *)
Definition ledger_step (n : nat) (X : Type) (e : ledgerE X) (s : LedgerTables) : X * LedgerTables :=
  match e in ledgerE X return X * LedgerTables with
  | Sql stmt =>
      match stmt clock (fun i => "r" +:+ z_str (Z.of_nat n) +:+ "." +:+ z_str (Z.of_nat i)) s with
      | Ok (a, s') => (Ok a, s')
      | Err err => (Err err, s)
      end
  | UuidNowV7 => ("g" +:+ z_str (Z.of_nat n), s)
  | UtcNow => (clock, s)
  end.

Lemma ledger_step_handle n X (e : ledgerE X) s :
  handle_ledger X e s (ledger_step n X e s).1 (ledger_step n X e s).2.
Proof.
  destruct e as [A stmt| |]; cbn; [|done..].
  exists clock, (fun i => "r" +:+ z_str (Z.of_nat n) +:+ "." +:+ z_str (Z.of_nat i)). unfold runs_sql.
  destruct (stmt clock _ s) as [[a s']|err]; [by left|]. split; [by exists err|done].
Qed.

(** Handlers by number; each performs one effect when its turn comes. *)
Fixpoint drive (n : nat) (order : list nat) (c : LedgerTables * list (prog ledgerE Answer))
    : list (nat * event ledgerE) * (LedgerTables * list (prog ledgerE Answer)) :=
  match order with
  | [] => ([], c)
  | i :: order =>
      match c.2 !! i with
      | Some (Vis e k) =>
          let r := ledger_step n _ e c.1 in
          let rest := drive (S n) order (r.2, <[i := k r.1]> c.2) in
          ((i, Ev e r.1) :: rest.1, rest.2)
      | _ => drive n order c
      end
  end.

Lemma drive_run other n order c : pool_run handle_ledger other c (drive n order c).1 (drive n order c).2.
Proof.
  revert n c; induction order as [|i order IH]; intros n c; cbn; [constructor|].
  destruct (c.2 !! i) as [[a|X e k]|] eqn:Hi; [apply IH| |apply IH]. cbn.
  eapply (pool_cons _ _ _ [_]); [|apply IH]. destruct c as [s ps]. apply pool_thread; [done|apply ledger_step_handle].
Qed.

(** ** The calls *)

Definition empty_tables : LedgerTables :=
  {| pricing_snapshots := {[ "p1" := {| ps_price_snapshot_hash := "ph"; ps_fx_rate_version := "f1";
                                        ps_unit_conversion_version := "c1"; ps_deployed_at := 0 |} ]};
     ledger_units := ∅; budget_window_instances := ∅; ledger_accounts := [];
     ledger_sequence_allocators := {[ 1 := 0 ]}; fencing_scopes := ∅; fencing_scope_events := [];
     ledger_transactions := []; ledger_entries := []; reservations := ∅; commits := ∅; audit_outbox := [];
     audit_outbox_global_keys := ∅; approval_requests := ∅; approval_events := [] |}.

Lemma empty_books : books empty_tables.
Proof.
  constructor; cbn; try done; try (by intros ? ?%elem_of_nil); try apply NoDup_nil_2.
  - by intros t r ?%elem_of_nil.
  - by intros t1 r1 t2 r2 ?%elem_of_nil.
Qed.

Lemma empty_floor : floor empty_tables.
Proof. by intros a ?%elem_of_nil. Qed.

Definition operator : Principal :=
  {| issuer := "idp"; subject := "alice"; groups := []; tenant_ids := ["ug0"]; roles := ["admin"]; mode := "jwt" |}.

Definition create : Call :=
  CreateTenant operator {| ct_name := "acme"; ct_opening_deposit_atomic := "100"; ct_budget_unit_kind := "token" |}.

(** The tenant's budget, by the ids drawn. *)
Definition acme : Budget := {| bg_tenant := "g0"; bg_budget := "g1"; bg_window := "g2"; bg_unit := "g4" |}.
Definition tokens : UnitRef :=
  {| unit_id := "ug4"; unit_kind := 0; token_kind := EmptyString; model_family := EmptyString |}.
Definition lease : Fencing := {| fc_epoch := 1; fc_scope_id := "ug3"; fc_workload_instance_id := "sidecar-ug0" |}.
Definition freeze : PricingFreeze :=
  {| pf_pricing_version := "p1"; pf_price_snapshot_hash := "ph"; pf_fx_rate_version := "f1";
     pf_unit_conversion_version := "c1" |}.

Definition audit_event (type id decision : string) : CloudEvent :=
  {| ce_specversion := "1.0"; ce_type := type; ce_source := "spendguard://sidecar"; ce_id := id;
     ce_time := None; ce_datacontenttype := "application/json"; ce_data := JObj []; ce_tenant_id := "ug0";
     ce_run_id := EmptyString; ce_decision_id := decision; ce_schema_bundle_id := EmptyString;
     ce_producer_id := "sidecar:a"; ce_producer_sequence := 1; ce_producer_signature := EmptyString;
     ce_signing_key_id := EmptyString; ce_predicted_a_tokens := 0; ce_predicted_b_tokens := 0;
     ce_predicted_c_tokens := 0; ce_reserved_strategy := EmptyString;
     ce_prediction_strategy_used := EmptyString; ce_prediction_policy_used := EmptyString;
     ce_tokenizer_tier := EmptyString; ce_tokenizer_version_id := EmptyString;
     ce_prediction_confidence := S754_zero false; ce_prediction_sample_size := 0;
     ce_cold_start_layer_used := EmptyString; ce_run_projection_at_decision_atomic := 0;
     ce_run_predicted_remaining_steps := 0; ce_run_steps_completed_so_far := 0; ce_actual_input_tokens := 0;
     ce_actual_output_tokens := 0; ce_delta_b_ratio := S754_zero false; ce_delta_c_ratio := S754_zero false |}.

Definition keyed (key : string) : option Idempotency := Some {| idem_key := key; idem_request_hash := EmptyString |}.

Definition reserve (decision key amount : string) (seq : Z) : Call :=
  ReserveSet
    {| rr_tenant_id := "ug0"; rr_decision_id := "u" +:+ decision; rr_audit_decision_event_id := "ue" +:+ decision;
       rr_producer_sequence := seq; rr_idempotency := keyed key; rr_fencing := Some lease;
       rr_claims := [{| bc_budget_id := "ug1"; bc_unit := Some tokens; bc_amount_atomic := amount;
                        bc_direction := 1; bc_window_instance_id := "ug2" |}];
       rr_ttl_expires_at := Some {| seconds := 2000; nanos := 0 |};
       rr_audit_event := Some (audit_event AUDIT_DECISION_TYPE ("ue" +:+ decision) ("u" +:+ decision));
       rr_pricing := Some freeze; rr_contract_bundle := None; rr_lock_order_token := None |}.

Definition reservation_of (decision : string) : string := uuid_str (derive_reservation_id (HU := demo_uuid) decision 0).

Definition commit (decision key amount : string) (seq : Z) : Call :=
  CommitEstimated
    {| cr_tenant_id := "ug0"; cr_reservation_id := reservation_of decision; cr_estimated_amount_atomic := amount;
       cr_unit := Some tokens; cr_idempotency := keyed key; cr_fencing := Some lease; cr_pricing := Some freeze;
       cr_audit_event := Some (audit_event AUDIT_OUTCOME_TYPE ("uo" +:+ decision) ("u" +:+ decision));
       cr_decision_id := "u" +:+ decision; cr_producer_sequence := seq |}.

(** The tenant's other scope, which the control plane owns. *)
Definition report (decision settled_for key amount : string) (seq : Z) : Call :=
  ProviderReport
    {| pv_tenant_id := "ug0"; pv_reservation_id := reservation_of settled_for; pv_provider_reported_amount_atomic := amount;
       pv_unit := Some tokens; pv_idempotency := keyed key;
       pv_fencing := Some {| fc_epoch := 1; fc_scope_id := "ug5"; fc_workload_instance_id := "control-plane-runner" |};
       pv_pricing := Some freeze;
       pv_audit_event := Some (audit_event AUDIT_DECISION_TYPE ("ue" +:+ decision) ("u" +:+ decision));
       pv_decision_id := "u" +:+ decision; pv_producer_sequence := seq; pv_provider_response_metadata := "evt" |}.

Abbreviation server := (serve ChainDemo.month_of no_mirror).

Definition run (calls : list Call) (order : list nat) := drive 0 order (empty_tables, server <$> calls).
Definition after (calls : list Call) (order : list nat) : LedgerTables := (run calls order).2.1.
Definition answer (calls : list Call) (order : list nat) (i : nat) : option (result Status (Outcome string)) :=
  match (run calls order).2.2 !! i with Some (Ret (Posted r)) => Some r | _ => None end.
Definition balances (s : LedgerTables) : Z * Z * Z * Z :=
  (available acme s, held acme s, spent acme s, funded acme s).

Lemma run_run other calls order :
  pool_run handle_ledger other (empty_tables, server <$> calls) (run calls order).1
    ((run calls order).2.1, (run calls order).2.2).
Proof. unfold run. rewrite <- surjective_pairing. apply drive_run. Qed.

(** ** The run *)

(** A reservation, its repetition, a commit, and a reservation of all that is left. *)
Definition calls : list Call :=
  [create; reserve "d1" "k1" "60" 1; reserve "d1" "k1" "60" 1; commit "d1" "k2" "10" 2; reserve "d3" "k3" "90" 3].
Definition order : list nat := repeat 0%nat 14 ++ [1; 2; 1; 2; 1; 2; 1; 2; 2; 2; 2]%nat ++ repeat 3%nat 6 ++ repeat 4%nat 6.

Example run_balances : balances (after calls order) = (0, 90, 10, 100).
Proof. vm_compute. done. Qed.

Definition posted_id (o : option (result Status (Outcome string))) : option string :=
  match o with
  | Some (Ok (Success id)) => Some id
  | Some (Ok (Replayed rp)) => Some (rp_ledger_transaction_id rp)
  | _ => None
  end.

Example the_run_answers : (fun i => posted_id (answer calls order i)) <$> [1; 2; 3; 4]%nat
                      = [Some "ug14"; Some "ug14"; Some "ug23"; Some "ug27"].
Proof. vm_compute. done. Qed.

(** One reservation more does not fit. *)
Definition over : list Call := calls ++ [reserve "d4" "k4" "1" 4].
Definition over_order : list nat := order ++ repeat 5%nat 6.

Example refused :
  balances (after over over_order) = (0, 90, 10, 100) /\
  match answer over over_order 5 with
  | Some (Ok (Failure e)) => pe_code e = code_number BUDGET_EXHAUSTED
  | _ => False
  end.
Proof. vm_compute. done. Qed.

Lemma hard_cap_witness :
  0 <= available acme (after calls order) /\ spent acme (after calls order) + held acme (after calls order) = 100.
Proof.
  destruct (hard_cap ChainDemo.month_of no_mirror calls empty_tables (run calls order).1 (after calls order)
              (run calls order).2.2 acme empty_books empty_floor) as (H & _).
  - repeat constructor.
  - apply run_run.
  - split; [exact H|]. vm_compute. done.
Defined.

Lemma ledger_books_witness :
  available acme (after calls order) + held acme (after calls order) + spent acme (after calls order) = 100.
Proof.
  destruct (ledger_books ChainDemo.month_of no_mirror calls empty_tables (run calls order).1 (after calls order)
              (run calls order).2.2 empty_books (run_run _ _ _)) as (_ & _ & H & _).
  destruct (H acme) as [-> _]. vm_compute. done.
Defined.

Definition reserve_stamp_of (c : Call) : Stamp :=
  default {| sm_tenant := EmptyString; sm_operation := OpReserve; sm_key := EmptyString; sm_hash := EmptyString |}
    (call_stamp c).

Lemma key_used_once_witness :
  exists t, t ∈ ledger_transactions (after calls order) /\ uuid_str (lt_ledger_transaction_id t) = "ug14".
Proof.
  destruct ((run calls order).2.2 !! 1%nat) as [p1|] eqn:H1; [|by vm_compute in H1].
  destruct ((run calls order).2.2 !! 2%nat) as [p2|] eqn:H2; [|by vm_compute in H2].
  vm_compute in H1, H2. injection H1 as <-. injection H2 as <-.
  edestruct (key_used_once ChainDemo.month_of no_mirror calls empty_tables (run calls order).1 (after calls order)
              (run calls order).2.2 1%nat 2%nat) as (_ & _ & t & Hin & _ & Hid).
  - apply empty_books.
  - apply run_run.
  - reflexivity.
  - reflexivity.
  - vm_compute. reflexivity.
  - vm_compute. reflexivity.
  - reflexivity.
  - reflexivity.
  - vm_compute. reflexivity.
  - vm_compute. reflexivity.
  - done.
  - done.
  - done.
  - by exists t.
Defined.

Lemma no_split_brain_witness : in_epoch_order (ledger_transactions (after calls order)).
Proof.
  by destruct (no_split_brain ChainDemo.month_of no_mirror calls empty_tables (run calls order).1 (after calls order)
              (run calls order).2.2 empty_books (run_run _ _ _)).
Defined.

Lemma no_effect_without_audit_witness :
  length (audit_outbox (after calls order)) = 4%nat /\ keys_unique (audit_outbox_global_keys (after calls order)).
Proof.
  split; [by vm_compute|].
  by destruct (no_effect_without_audit ChainDemo.month_of no_mirror calls empty_tables (run calls order).1
              (after calls order) (run calls order).2.2 empty_books (run_run _ _ _)) as (_ & _ & H).
Defined.

(** ** What the cap does not cover *)

(** The provider reports 60 for the reservation that was committed at 10. *)
Definition overdrawing : list Call := calls ++ [report "d5" "d1" "k5" "60" 2].
Definition overdrawing_order : list nat := order ++ repeat 5%nat 6.

(** A provider report is not capped. The tenant deposited 100; after a
    commit of 10 out of a hold of 60, a hold of the 90 that are left, and a report
    that the first call cost 60, its available budget is -50. The lowered balance is
    not checked: the report's procedure does not call the check of the floor. *)
Theorem report_overdraws :
  posted_id (answer overdrawing overdrawing_order 5) = Some "ug31" /\
  balances (after overdrawing overdrawing_order) = (-50, 90, 60, 100).
Proof. vm_compute. done. Qed.

(** *** A tenant that was tombstoned *)

Definition acquire (workload : string) : Call :=
  AcquireFencingLease
    {| al_fencing_scope_id := "ug3"; al_tenant_id := "ug0"; al_workload_instance_id := workload;
       al_ttl_seconds := 60; al_force := false; al_audit_event_id := EmptyString |}.

Definition in_epoch (epoch : Z) (workload : string) (c : Call) : Call :=
  match c with
  | ReserveSet req =>
      ReserveSet
        {| rr_tenant_id := rr_tenant_id req; rr_decision_id := rr_decision_id req;
           rr_audit_decision_event_id := rr_audit_decision_event_id req;
           rr_producer_sequence := rr_producer_sequence req; rr_idempotency := rr_idempotency req;
           rr_fencing := Some {| fc_epoch := epoch; fc_scope_id := "ug3"; fc_workload_instance_id := workload |};
           rr_claims := rr_claims req; rr_ttl_expires_at := rr_ttl_expires_at req;
           rr_audit_event := rr_audit_event req; rr_pricing := rr_pricing req;
           rr_contract_bundle := rr_contract_bundle req; rr_lock_order_token := rr_lock_order_token req |}
  | c => c
  end.

Definition tombstoned : list Call :=
  [create; TombstoneTenant operator "ug0"; reserve "d1" "k1" "60" 1; acquire "sidecar-new";
   in_epoch 2 "sidecar-new" (reserve "d2" "k2" "60" 1)].
Definition tombstoned_order : list nat :=
  repeat 0%nat 14 ++ [1%nat] ++ repeat 2%nat 4 ++ [3%nat] ++ repeat 4%nat 4.

(** A tombstoned tenant goes on. After the tombstone a reservation under the
    old lease is refused, but a sidecar that asks for the lease gets it, and its
    reservation is posted. *)
Theorem tombstone_is_no_barrier :
  match answer tombstoned tombstoned_order 2 with
  | Some (Ok (Failure e)) => pe_code e = code_number FENCING_EPOCH_STALE
  | _ => False
  end /\
  posted_id (answer tombstoned tombstoned_order 4) = Some "ug20" /\
  balances (after tombstoned tombstoned_order) = (40, 60, 0, 100).
Proof. vm_compute. done. Qed.

(** *** Approvals *)

Definition ask (decision key : string) (seq : Z) : Call :=
  RecordDeniedDecision
    {| rd_tenant_id := "ug0"; rd_decision_id := "u" +:+ decision; rd_audit_decision_event_id := "ue" +:+ decision;
       rd_producer_sequence := seq; rd_idempotency := keyed key; rd_fencing := Some lease; rd_attempted_claims := [];
       rd_matched_rule_ids := ["needs-cfo"]; rd_reason_codes := []; rd_final_decision := "REQUIRE_APPROVAL";
       rd_audit_event := Some (audit_event AUDIT_DECISION_TYPE ("ue" +:+ decision) ("u" +:+ decision));
       rd_contract_bundle := None; rd_pricing := None; rd_decision_context_json := Some (JObj []);
       rd_requested_effect_json := Some (JObj []); rd_approval_ttl_seconds := 600 |}.

Definition asked : list Call := [create; ask "d1" "k1" 1; ask "d2" "k1" 2].
Definition asked_order : list nat := repeat 0%nat 14 ++ repeat 1%nat 6 ++ repeat 2%nat 6.

(** One request, two approvals. A decision that needs approval is recorded,
    and the same request, with its idempotency key, comes again under a new decision
    id. It is answered as a repetition, with the first transaction; but there are now
    two pending approvals, and one of them is of a decision without a transaction. *)
Theorem repeated_request_asks_twice :
  (fun i => posted_id (answer asked asked_order i)) <$> [1; 2]%nat = [Some "ug14"; Some "ug14"] /\
  ((fun kv : string * ApprovalRow => (ap_decision_id kv.2, ap_state kv.2))
     <$> map_to_list (approval_requests (after asked asked_order))) = [("d1", Pending); ("d2", Pending)] /\
  length (ledger_transactions (after asked asked_order)) = 2%nat.
Proof. vm_compute. done. Qed.

(** Someone with the role of an approver resolves the first, then tries again. *)
Definition approver : Principal :=
  {| issuer := "idp"; subject := "carol"; groups := []; tenant_ids := ["ug0"]; roles := ["approver"]; mode := "jwt" |}.
Definition resolving : list Call :=
  [ResolveApproval approver "ur17.0" "approved" "fine"; ResolveApproval approver "ur17.0" "denied" "no"].
Definition resolved := drive 100 [0; 0; 0; 1; 1]%nat (after asked asked_order, server <$> resolving).

Definition approval_states (s : LedgerTables) : list (string * ApprovalState * option string) :=
  (fun kv : string * ApprovalRow => (kv.1, ap_state kv.2, ap_resolved_by_subject kv.2)) <$> map_to_list (approval_requests s).

Example resolved_once :
  approval_states resolved.2.1 = [("r17.0", Approved, Some "carol"); ("r21.0", Pending, None)] /\
  length (approval_events resolved.2.1) = 1%nat.
Proof. vm_compute. done. Qed.

Lemma empty_approvals : approvals_sound empty_tables.
Proof. done. Qed.

Lemma asked_sound : approvals_sound (after asked asked_order).
Proof.
  eapply (approval_calls ChainDemo.month_of no_mirror asked empty_tables (run asked asked_order).1 _ (run asked asked_order).2.2).
  - apply empty_approvals.
  - unfold after, run. rewrite <- surjective_pairing. apply drive_run.
Qed.

Lemma approvals_final_witness :
  exists a, approval_requests resolved.2.1 !! "r17.0" = Some a /\ ap_ttl_expires_at a = secs 1600.
Proof.
  destruct (approval_requests (after asked asked_order) !! "r17.0") as [a|] eqn:Ha; [|by vm_compute in Ha].
  edestruct (approvals_final ChainDemo.month_of no_mirror resolving (after asked asked_order) resolved.1 resolved.2.1
              resolved.2.2 "r17.0" a asked_sound) as (a' & Ha' & (_ & _ & _ & _ & Httl) & _).
  - rewrite <- surjective_pairing. apply drive_run.
  - exact Ha.
  - exists a'. split; [exact Ha'|]. rewrite Httl. vm_compute in Ha. by injection Ha as <-.
Defined.

Lemma approver_unrestricted_witness :
  exists a, approval_requests (after asked asked_order) !! "r17.0" = Some a /\
            approver_admitted (ap_approver_policy a) approver = true.
Proof.
  destruct (approval_requests (after asked asked_order) !! "r17.0") as [a|] eqn:Ha; [|by vm_compute in Ha].
  exists a. split; [done|].
  apply (approver_unrestricted ChainDemo.month_of no_mirror [] (after asked asked_order) [] (after asked asked_order)
           [] "r17.0" a approver asked_sound); [constructor|exact Ha].
Defined.

(** *** Balances *)

Lemma run_books : books (after calls order).
Proof. by destruct (calls_books _ _ _ _ _ _ _ empty_books (run_run _ calls order)). Qed.

(** The budget at the time of its last entry, and before its window. *)
Lemma state_is_balance_witness :
  budget_state (bg_tenant acme) (bg_budget acme) (bg_window acme) (bg_unit acme) (secs 1001) (after calls order) =
  {| bs_available_atomic := 0; bs_reserved_hold_atomic := 90; bs_committed_spend_atomic := 10;
     bs_debt_atomic := 0; bs_adjustment_atomic := 100; bs_refund_credit_atomic := 0 |} /\
  budget_state (bg_tenant acme) (bg_budget acme) (bg_window acme) (bg_unit acme) 0 (after calls order) =
  {| bs_available_atomic := 0; bs_reserved_hold_atomic := 0; bs_committed_spend_atomic := 0;
     bs_debt_atomic := 0; bs_adjustment_atomic := 0; bs_refund_credit_atomic := 0 |}.
Proof.
  split.
  - rewrite (proj2 (state_is_balance acme (secs 1001) (after calls order) run_books)); [by vm_compute|].
    assert (Hall : forallb (fun e => bool_decide (counted acme (secs 1001) (after calls order) e))
      (ledger_entries (after calls order)) = true) by (vm_compute; done).
    intros e He _. apply (bool_decide_eq_true (counted acme (secs 1001) (after calls order) e)).
    exact (proj1 (forallb_forall _ _) Hall e (proj1 (list_elem_of_In _ _) He)).
  - rewrite (proj1 (state_is_balance acme 0 (after calls order) run_books)). by vm_compute.
Defined.

Definition acme_row : BudgetSummary :=
  {| bm_budget_id := "g1"; bm_unit_id := "g4"; bm_available_atomic := "0"; bm_reserved_atomic := "90";
     bm_committed_atomic := "10" |}.

Example acme_rows : tenant_budgets (bg_tenant acme) (after calls order) = [acme_row].
Proof. vm_compute. reflexivity. Qed.

Lemma summary_is_balance_witness :
  z_str (sum_balances (after calls order)
           (List.filter (summary_account (bg_tenant acme) (bg_budget acme) (bg_unit acme) ReservedHold) (ledger_accounts (after calls order)))) = "90".
Proof.
  destruct (summary_is_balance (bg_tenant acme) (after calls order) acme_row run_books) as (_ & _ & H & _).
  - rewrite acme_rows. by left.
  - symmetry. exact H.
Defined.

(** *** Retention *)

#[export] Instance demo_bool : PgBool :=
  {| pg_bool := fun s => if s =?s "true" then Some true else if s =?s "false" then Some false else None;
     pg_bool_true := eq_refl |}.

(** The run's tables, under a policy that keeps prompts for a day. *)
Definition retained : RetentionTables :=
  {| rt_ledger := after calls order;
     tenant_data_policy := {[ "g0" := {| prompt_retention_days := 1; provider_raw_retention_days := 1 |} ]};
     provider_usage_records := ∅; retention_sweeper_log := [] |}.

Lemma prompts_never_redacted_witness :
  no_data (rt_ledger retained) /\ length (audit_outbox (rt_ledger retained)) = 4%nat.
Proof.
  split; [|by vm_compute].
  apply (prompts_never_redacted ChainDemo.month_of no_mirror calls empty_tables (run calls order).1 (after calls order)
           (run calls order).2.2 500 retained); [by intros r ?%elem_of_nil|apply run_run|reflexivity].
Defined.

(** *** The life of a reservation *)

Definition reserved : LedgerTables := after [create; reserve "d1" "k1" "60" 1] (repeat 0%nat 14 ++ repeat 1%nat 4).
Definition committed := drive 18 (repeat 0%nat 6) (reserved, server <$> [commit "d1" "k2" "10" 2]).
Definition reservation_id : string := derive_reservation_id (HU := demo_uuid) "d1" 0.

Example committed_state :
  rn_current_state <$> reservations reserved !! reservation_id = Some Reserved /\
  rn_current_state <$> reservations committed.2.1 !! reservation_id = Some Committed.
Proof. vm_compute. done. Qed.

Lemma reservation_settled_once_witness :
  exists r st, settle_step Reserved st /\ reservations committed.2.1 !! reservation_id = Some (with_state st r).
Proof.
  destruct committed_state as [H _]. destruct (reservations reserved !! reservation_id) as [r|] eqn:Hr; [|done].
  injection H as Hst.
  destruct (reservation_settled_once ChainDemo.month_of no_mirror [commit "d1" "k2" "10" 2] reserved committed.1
              committed.2.1 committed.2.2 reservation_id r) as (st & Hstep & Hr').
  - rewrite <- surjective_pairing. apply drive_run.
  - exact Hr.
  - exists r, st. rewrite Hst in Hstep. by split.
Defined.

(** *** A sweep *)

Definition sweeper_cfg : TtlSweeper.Config :=
  {| tc_tenant_id := "g0"; tc_fencing_scope_id := "ug5"; tc_workload_instance_id := "control-plane-runner";
     tc_fencing_initial_epoch := 1; tc_batch_size := 10; tc_key_id := "k" |}.

(** The sweeper, two thousand seconds later. *)
Definition found : list ExpiredRow := fetch_expired (bg_tenant acme) 10 (secs 3000) reserved.

Definition swept_row : ExpiredRow :=
  {| er_reservation_id := reservation_id; er_tenant_id := bg_tenant acme; er_source_ledger_transaction_id := "g14";
     er_original_decision_id := "d1"; er_ttl_expires_at := secs 2000 |}.

Example found_row : found = [swept_row].
Proof. vm_compute. reflexivity. Qed.

Definition sweep_event (signature : string) : CloudEvent :=
  cloud_event sweeper_cfg swept_row "s1" (secs 3000) 2 "k" signature.
Definition sweep_request : ReleaseRequest := release_request sweeper_cfg swept_row (sweep_event "sig") 2.

Definition swept_trace : list (event sweeperE) :=
  [Ev NextSeq 2; Ev EventId "s1"; Ev SweeperNow (secs 3000); Ev (SignBytes (sweep_event EmptyString)) (Ok "sig");
   Ev (CallRelease sweep_request)
     (Ok (Some (Success {| rl_ok_ledger_transaction_id := "uh0"; rl_ok_released_reservation_ids := [] |})))].

Definition no_metrics : Metrics :=
  {| loop_processed := 0; loop_error := 0; loop_skipped := 0; swept_ok := 0; swept_err := 0 |}.

Lemma swept_exec : exec (sweep_rows sweeper_cfg [swept_row] no_metrics) swept_trace (Ok (add_swept true no_metrics)).
Proof. cbn. do 5 (eexists _, _; split; [reflexivity|]). done. Qed.

Lemma cycle_sweeps_all_witness : swept_ok (add_swept true no_metrics) = 1.
Proof.
  destruct (cycle_sweeps_all sweeper_cfg [swept_row] no_metrics _ _ swept_exec) as (m & Hm & Hok & _).
  injection Hm as <-. exact Hok.
Defined.

(** What the ledger makes of the request: the hold goes back. *)
Definition late_step (X : Type) (e : ledgerE X) (s : LedgerTables) : X * LedgerTables :=
  match e in ledgerE X return X * LedgerTables with
  | Sql stmt =>
      match stmt (secs 3000) (fun i => "r" +:+ z_str (Z.of_nat i)) s with
      | Ok (a, s') => (Ok a, s')
      | Err err => (Err err, s)
      end
  | UuidNowV7 => ("h0", s)
  | UtcNow => (secs 3000, s)
  end.

Definition swept := schedule late_step (repeat 0%nat 8) (reserved, [server (Release sweep_request)]).

Example hold_given_back :
  balances reserved = (40, 60, 0, 100) /\ balances swept.2.1 = (100, 0, 0, 100) /\
  rn_current_state <$> reservations swept.2.1 !! reservation_id = Some ReleasedState.
Proof. vm_compute. done. Qed.
