(* ===== verification/Sse.v ===== *)
(** * Streams of server-sent events

    [services/egress_proxy/src/forward.rs]: what the egress proxy reads out of a
    streamed answer. The upstream's chunks go to the client, and a copy of each to
    a task that cuts them into events at blank lines ([find_event_boundary]),
    parses the data of every event and keeps the last token count that one
    reports. The theorem compares this loop over chunks with a reference
    definition that reads the whole stream byte by byte. *)

From S2P Require Import Prelude Deps Proto Canonical.

Abbreviation bytes := (list ascii).

Definition LF : ascii := "010"%char.
Definition CR : ascii := "013"%char.

(** ** Text: the standard library's functions on byte slices and strings *)

(** [buf.windows(w.len()).position(|x| x == w)] for a [w] that is not empty. *)
Fixpoint window_position (w buf : bytes) : option nat :=
  match buf with
  | [] => None
  | _ :: rest => if decide (take (length w) buf = w) then Some 0%nat
                 else S <$> window_position w rest
  end.

(** [str::from_utf8]: well-formed UTF-8, without surrogates or overlong forms. *)
Definition between (lo hi z : Z) : bool := (lo <=? z) && (z <=? hi).
Definition continuation (z : Z) : bool := between 128 191 z.

Definition utf8_pair (x y : Z) : bool := between 194 223 x && continuation y.
Definition utf8_triple (x y z : Z) : bool :=
  continuation z &&
  (if x =? 224 then between 160 191 y
   else if x =? 237 then between 128 159 y
   else between 225 239 x && continuation y).
Definition utf8_quadruple (x y z w : Z) : bool :=
  continuation z && continuation w &&
  (if x =? 240 then between 144 191 y
   else if x =? 244 then between 128 143 y
   else between 241 243 x && continuation y).

Fixpoint utf8_valid (l : bytes) : bool :=
  match l with
  | [] => true
  | a :: l =>
      if byte_of a <? 128 then utf8_valid l
      else match l with
           | [] => false
           | b :: l =>
               if utf8_pair (byte_of a) (byte_of b) then utf8_valid l
               else match l with
                    | [] => false
                    | c :: l =>
                        if utf8_triple (byte_of a) (byte_of b) (byte_of c) then utf8_valid l
                        else match l with
                             | [] => false
                             | d :: l =>
                                 utf8_quadruple (byte_of a) (byte_of b) (byte_of c) (byte_of d)
                                   && utf8_valid l
                             end
                    end
           end
  end.

(** [str::lines]: lines end with LF or CRLF, which is not part of them; [cur] is the
    line so far, reversed. *)
Definition line_of (cur : bytes) : bytes :=
  match cur with
  | c :: cur' => if decide (c = CR) then rev cur' else rev cur
  | [] => []
  end.

Fixpoint lines_from (cur l : bytes) : list bytes :=
  match l with
  | [] => if decide (cur = []) then [] else [rev cur]
  | c :: l => if decide (c = LF) then line_of cur :: lines_from [] l else lines_from (c :: cur) l
  end.

Definition lines (l : bytes) : list bytes := lines_from [] l.

(** [str::strip_prefix] and [str::trim_start]. *)
Definition strip_prefix (p l : bytes) : option bytes :=
  if decide (take (length p) l = p) then Some (drop (length p) l) else None.

Definition trim_start (l : bytes) : bytes := strip false (length l) l.

(** ** Events *)

Definition opt_min (a b : option nat) : option nat :=
  match a, b with
  | Some a, Some b => Some (Nat.min a b)
  | Some a, None => Some a
  | None, Some b => Some b
  | None, None => None
  end.

Definition find_event_boundary (buf : bytes) : option nat :=
  let lf := window_position [LF; LF] buf in
  let crlf := window_position [CR; LF; CR; LF] buf in
  opt_min lf crlf.

Inductive ApiKind := ChatCompletions | Responses.

(** The JSON text of an event: its [data:] lines joined; [None] at the [[DONE]]
    sentinel. *)
Fixpoint data_payload (ls : list bytes) : option bytes :=
  match ls with
  | [] => Some []
  | line :: ls =>
      match strip_prefix (list_ascii_of_string "data:") line with
      | None => data_payload ls
      | Some l =>
          let l := trim_start l in
          if decide (l = list_ascii_of_string "[DONE]") then None
          else payload ← data_payload ls; Some (l ++ payload)
      end
  end.

Section Sse.
Context `{JsonLib}.

Definition event_json (event : bytes) : option json :=
  if utf8_valid event then
    match data_payload (lines event) with
    | None => None
    | Some payload =>
        if decide (payload = []) then None else json_from_slice (string_of_list_ascii payload)
    end
  else None.

Definition parse_usage_from_event (event : bytes) : option Z :=
  v ← event_json event;
  u ← jget "usage" v;
  t ← jget "total_tokens" u;
  j_i64 t.

Definition parse_usage_from_responses_event (event : bytes) : option Z :=
  v ← event_json event;
  r ← jget "response" v;
  u ← jget "usage" r;
  t ← jget "total_tokens" u;
  j_i64 t.

Definition event_usage (api_kind : ApiKind) : bytes -> option Z :=
  match api_kind with
  | ChatCompletions => parse_usage_from_event
  | Responses => parse_usage_from_responses_event
  end.

(** ** The parser task *)

Inductive UsageOutcome :=
  | Parsed (tokens : Z)
  | ClosedNoUsage
  | Errored.

(** The inner loop: events are taken off the buffer while it has one. *)
Fixpoint drain_events (api_kind : ApiKind) (fuel : nat) (buffer : bytes) (last_usage : option Z)
    : bytes * option Z :=
  match fuel with
  | O => (buffer, last_usage)
  | S fuel =>
      match find_event_boundary buffer with
      | None => (buffer, last_usage)
      | Some boundary =>
          let event_bytes := take boundary buffer in
          let buffer := drop boundary buffer in
          let sep_len := if (boundary <? length buffer)%nat && bool_decide (take 2 buffer = [CR; LF])
                         then 4%nat else 2%nat in
          let buffer := drop (Nat.min sep_len (length buffer)) buffer in
          let last_usage := match event_usage api_kind event_bytes with
                            | Some usage => Some usage
                            | None => last_usage
                            end in
          drain_events api_kind fuel buffer last_usage
      end
  end.

(** The loop over the channel, whose end is the end of the list; a turn takes at
    least two bytes off the buffer. *)
Fixpoint parse_chunks (api_kind : ApiKind) (rx : list (result string bytes)) (buffer : bytes)
    (last_usage : option Z) : UsageOutcome :=
  match rx with
  | [] => match last_usage with Some tokens => Parsed tokens | None => ClosedNoUsage end
  | Err _ :: _ => Errored
  | Ok chunk :: rx =>
      let buffer := buffer ++ chunk in
      let '(buffer, last_usage) := drain_events api_kind (length buffer) buffer last_usage in
      parse_chunks api_kind rx buffer last_usage
  end.

Definition parse_usage_from_sse_stream (api_kind : ApiKind) (rx : list (result string bytes))
    : UsageOutcome :=
  parse_chunks api_kind rx [] None.

(** ** The reference: the stream as one text, read byte by byte

    [acc] is what has been read since the last event, reversed. *)
Definition ended_event (acc : bytes) : option bytes :=
  if decide (take 2 acc = [LF; LF]) then Some (rev (drop 2 acc))
  else if decide (take 4 acc = [LF; CR; LF; CR]) then Some (rev (drop 4 acc))
  else None.

Fixpoint scan_events (acc l : bytes) : list bytes * bytes :=
  match l with
  | [] => ([], acc)
  | c :: l =>
      match ended_event (c :: acc) with
      | Some event => let '(events, acc) := scan_events [] l in (event :: events, acc)
      | None => scan_events (c :: acc) l
      end
  end.

(** The token count that the last event to report one reports. *)
Definition last_reported (api_kind : ApiKind) (text : bytes) : option Z :=
  last (omap (event_usage api_kind) (scan_events [] text).1).

(** The text of a stream that did not break; [None] for one that did. *)
Definition stream_text (rx : list (result string bytes)) : option bytes :=
  @concat ascii <$> mapM (fun r => match r with Ok b => Some b | Err _ => None end) rx.

Definition stream_usage (api_kind : ApiKind) (rx : list (result string bytes)) : UsageOutcome :=
  match stream_text rx with
  | None => Errored
  | Some text => match last_reported api_kind text with
                 | Some tokens => Parsed tokens
                 | None => ClosedNoUsage
                 end
  end.


(** ** The first event of a buffer *)

(** Where the first event ends, and the length of its separator. *)
Fixpoint first_end (l : bytes) : option (nat * nat) :=
  match l with
  | [] => None
  | _ :: rest =>
      if decide (take 2 l = [LF; LF]) then Some (0, 2)%nat
      else if decide (take 4 l = [CR; LF; CR; LF]) then Some (0, 4)%nat
      else prod_map S id <$> first_end rest
  end.

Lemma boundary_first l : find_event_boundary l = fst <$> first_end l.
Proof.
  induction l as [|c l IH]; [done|]. cbn [first_end]. unfold find_event_boundary in *.
  cbn [window_position length].
  destruct (decide (take 2 (c :: l) = [LF; LF])) as [E|_].
  - by destruct (decide _), (window_position [CR; LF; CR; LF] l).
  - destruct (decide (take 4 (c :: l) = _)) as [E|_].
    + by destruct (window_position [LF; LF] l).
    + destruct (first_end l) as [[k s]|]; cbn in *;
        destruct (window_position [LF; LF] l), (window_position _ l); cbn in *; simplify_eq; done.
Qed.

(** What is at the end of the first event. *)
Lemma first_end_sep l k s :
  first_end l = Some (k, s) ->
  (s = 2%nat /\ take 2 (drop k l) = [LF; LF]) \/ (s = 4%nat /\ take 4 (drop k l) = [CR; LF; CR; LF]).
Proof.
  revert k s; induction l as [|c l IH]; intros k s; [done|]. cbn [first_end].
  repeat case_decide; [intros [= <- <-]; auto..|].
  intros ([k' s'] & Hl & [= -> ->])%fmap_Some. cbn. auto.
Qed.

(** Two windows that differ, when the texts agree where they are compared. *)
Ltac windows x :=
  intros ?; destruct x as [|? [|? [|? ?]]]; cbn in *;
  repeat match goal with H : context [take 0 ?l] |- _ => change (take 0 l) with (@nil ascii) in H end;
  congruence.

Lemma first_end_cons c l k s :
  take 2 (c :: l) <> [LF; LF] -> take 4 (c :: l) <> [CR; LF; CR; LF] ->
  first_end l = Some (k, s) -> first_end (c :: l) = Some (S k, s).
Proof. intros H2 H4 E. cbn [first_end]. rewrite decide_False, decide_False, E by done. done. Qed.

Lemma first_end_cons_None c l :
  first_end (c :: l) = None <->
  take 2 (c :: l) <> [LF; LF] /\ take 4 (c :: l) <> [CR; LF; CR; LF] /\ first_end l = None.
Proof.
  cbn [first_end]. destruct (decide _) as [E|]; [by split; [|intros [[] _]]|].
  destruct (decide _) as [E|]; [by split; [|intros (_ & [] & _)]|].
  rewrite fmap_None. by split; [|intros (_ & _ & ?)].
Qed.

Lemma first_end_lf x l :
  first_end (x ++ [LF]) = None -> first_end (x ++ LF :: LF :: l) = Some (length x, 2%nat).
Proof.
  induction x as [|c x IH]; [done|]. rewrite <- !app_comm_cons, first_end_cons_None.
  intros (H2 & H4 & Hx). cbn [length]. apply first_end_cons; [windows x|windows x|auto].
Qed.

Lemma first_end_crlf x l :
  first_end (x ++ [CR; LF; CR]) = None ->
  first_end (x ++ CR :: LF :: CR :: LF :: l) = Some (length x, 4%nat).
Proof.
  induction x as [|c x IH]; [done|]. rewrite <- !app_comm_cons, first_end_cons_None.
  intros (H2 & H4 & Hx). cbn [length]. apply first_end_cons; [windows x|windows x|auto].
Qed.

Lemma take_app_full {A} n (x y p : list A) : length p = n -> take n x = p -> take n (x ++ y) = p.
Proof.
  intros Hl Hx. rewrite take_app_le; [done|]. apply (f_equal length) in Hx.
  rewrite length_take in Hx. lia.
Qed.

Lemma ended_event_cons c acc d :
  ended_event (c :: acc ++ [d]) = None -> ended_event (c :: acc) = None.
Proof.
  unfold ended_event. intros Hd.
  destruct (decide (take 2 (c :: acc) = _)) as [E|_].
  { by rewrite decide_True in Hd by exact (take_app_full 2 (c :: acc) [d] [LF; LF] eq_refl E). }
  destruct (decide (take 4 (c :: acc) = _)) as [E|_]; [|done].
  apply (take_app_full 4 (c :: acc) [d] [LF; CR; LF; CR] eq_refl) in E. cbn [app] in E.
  rewrite (decide_True _ _ E) in Hd. by destruct (decide _).
Qed.

(** Reading a byte that does not end an event ends none. *)
Lemma first_end_snoc x c :
  first_end x = None -> ended_event (c :: rev x) = None -> first_end (x ++ [c]) = None.
Proof.
  induction x as [|d x IH]; [intros _ _; by apply first_end_cons_None|].
  rewrite <- app_comm_cons. cbn [rev]. intros (H2 & H4 & Hx)%first_end_cons_None Hc. apply first_end_cons_None.
  pose proof (IH Hx (ended_event_cons _ _ _ Hc)) as IHx. clear IH. revert Hc. unfold ended_event.
  destruct (decide _) as [|Hc2]; [done|]. destruct (decide _) as [|Hc4]; [done|]. intros _.
  split_and!; [windows x|windows x|done].
Qed.

Lemma ended_event_spec acc event :
  ended_event acc = Some event ->
  (acc = LF :: LF :: rev event) \/ (acc = LF :: CR :: LF :: CR :: rev event).
Proof.
  unfold ended_event. destruct (decide _) as [E|_]; [|destruct (decide _) as [E|_]; [|done]];
    intros [= <-]; rewrite rev_involutive; [left|right].
  - rewrite <- (take_drop 2 acc) at 1. by rewrite E.
  - rewrite <- (take_drop 4 acc) at 1. by rewrite E.
Qed.

(** Scanning cuts where the first event ends. *)
Lemma scan_first acc l :
  first_end (rev acc) = None ->
  scan_events acc l =
    match first_end (rev acc ++ l) with
    | None => ([], rev l ++ acc)
    | Some (k, s) =>
        let '(events, rest) := scan_events [] (drop (k + s) (rev acc ++ l)) in
        (take k (rev acc ++ l) :: events, rest)
    end.
Proof.
  revert acc; induction l as [|c l IH]; intros acc Hacc; [by rewrite app_nil_r, Hacc|].
  cbn [scan_events]. destruct (ended_event (c :: acc)) as [event|] eqn:Hc.
  - apply ended_event_spec in Hc as [[= -> ->]|[= -> ->]]; cbn [rev] in Hacc |- *;
      rewrite rev_involutive, <- ?app_assoc in *; cbn [app] in *.
    + rewrite first_end_lf by done.
      rewrite take_app_length, drop_app, drop_ge by lia. replace (_ - _)%nat with 2%nat by lia. done.
    + rewrite first_end_crlf by done.
      rewrite take_app_length, drop_app, drop_ge by lia. replace (_ - _)%nat with 4%nat by lia. done.
  - rewrite IH; cbn [rev]; [by rewrite <- !app_assoc|].
    apply first_end_snoc; [done|by rewrite rev_involutive].
Qed.

(** The reference reads the chunks one after the other. *)
Lemma scan_events_app acc l1 l2 :
  scan_events acc (l1 ++ l2) =
    ((scan_events acc l1).1 ++ (scan_events (scan_events acc l1).2 l2).1,
     (scan_events (scan_events acc l1).2 l2).2).
Proof.
  revert acc; induction l1 as [|c l1 IH]; intros acc; cbn [app scan_events fst snd].
  - by destruct (scan_events acc l2).
  - destruct (ended_event (c :: acc)); [|apply IH]. rewrite IH. by destruct (scan_events [] l1).
Qed.

Lemma scan_rest acc l : first_end (rev acc) = None -> first_end (rev (scan_events acc l).2) = None.
Proof.
  revert acc; induction l as [|c l IH]; intros acc Hacc; [done|]. cbn [scan_events].
  destruct (ended_event (c :: acc)) as [event|] eqn:Hc.
  - specialize (IH [] eq_refl). by destruct (scan_events [] l).
  - apply IH. cbn [rev]. apply first_end_snoc; [done|by rewrite rev_involutive].
Qed.

Lemma scan_resume acc l : first_end (rev acc) = None -> scan_events acc l = scan_events [] (rev acc ++ l).
Proof.
  intros Hacc. rewrite scan_events_app.
  assert (scan_events [] (rev acc) = ([], acc)) as ->.
  { rewrite scan_first by done. cbn [rev app]. by rewrite Hacc, rev_involutive, app_nil_r. }
  cbn [fst snd app]. by destruct (scan_events acc l).
Qed.

(** ** Line ends at the start of a buffer do not matter

    The code drops two bytes of a four-byte separator when the event before it is
    longer than what is left of the buffer: the other CRLF stays in front of the
    next event. *)
Fixpoint skip_blank (l : bytes) : bytes :=
  match l with
  | [] => []
  | a :: l' =>
      if decide (a = LF) then skip_blank l'
      else match l' with
           | [] => l
           | b :: l'' => if decide (a = CR /\ b = LF) then skip_blank l'' else l
           end
  end.

Lemma blank_ind (P : bytes -> Prop) :
  (forall y, (forall z, (length z <= length y)%nat -> P z) -> P (LF :: y)) ->
  (forall y, (forall z, (length z <= length y)%nat -> P z) -> P (CR :: LF :: y)) ->
  (forall x, skip_blank x = x -> P x) -> forall x, P x.
Proof.
  intros Hlf Hcrlf Hx x. induction x as [x IH] using (induction_ltof1 _ (@length ascii)).
  destruct x as [|a x]; [by apply Hx|]. destruct (decide (a = LF)) as [->|Ha].
  { apply Hlf. intros z Hz. apply IH. unfold ltof. cbn. lia. }
  destruct x as [|b x]; [apply Hx; cbn; by rewrite decide_False|].
  destruct (decide (a = CR /\ b = LF)) as [[-> ->]|Hab].
  - apply Hcrlf. intros z Hz. apply IH. unfold ltof. cbn. lia.
  - apply Hx. cbn [skip_blank]. by rewrite !decide_False.
Qed.

Lemma skip_blank_app x y : skip_blank (x ++ y) = skip_blank (skip_blank x ++ y).
Proof.
  induction x as [x IH|x IH|x Hx] using blank_ind; [| |by rewrite Hx];
    exact (IH x (Nat.le_refl _)).
Qed.

Lemma event_usage_lf api_kind e : event_usage api_kind (LF :: e) = event_usage api_kind e.
Proof. by destruct api_kind. Qed.

Lemma event_usage_crlf api_kind e : event_usage api_kind (CR :: LF :: e) = event_usage api_kind e.
Proof. by destruct api_kind. Qed.

(** The counts reported in a text, and what is left of it. *)
Definition reads (api_kind : ApiKind) (x : bytes) : list Z * bytes :=
  (omap (event_usage api_kind) (scan_events [] x).1, skip_blank (rev (scan_events [] x).2)).

Lemma reads_first api_kind x :
  reads api_kind x =
    match first_end x with
    | None => ([], skip_blank x)
    | Some (k, s) =>
        (option_list (event_usage api_kind (take k x)) ++ (reads api_kind (drop (k + s) x)).1,
         (reads api_kind (drop (k + s) x)).2)
    end.
Proof.
  unfold reads at 1. rewrite scan_first by done. cbn [rev app].
  destruct (first_end x) as [[k s]|]; cbn [fst snd]; [|by rewrite app_nil_r, rev_involutive].
  unfold reads. destruct (scan_events [] _) as [events rest]. cbn. by destruct (event_usage _ _).
Qed.

Lemma reads_quiet api_kind x k s :
  first_end x = Some (k, s) -> event_usage api_kind (take k x) = None ->
  reads api_kind x = reads api_kind (drop (k + s) x).
Proof. intros E Hu. by rewrite reads_first, E, Hu. Qed.

Lemma reads_lf_lf api_kind y : reads api_kind (LF :: LF :: y) = reads api_kind y.
Proof. apply (reads_quiet _ (LF :: LF :: y) 0 2); [done|by destruct api_kind]. Qed.

Lemma reads_crlf_lf api_kind y : reads api_kind (CR :: LF :: LF :: y) = reads api_kind y.
Proof. apply (reads_quiet _ (CR :: LF :: LF :: y) 1 2); [done|by destruct api_kind]. Qed.

Lemma reads_crlf_crlf api_kind y : reads api_kind (CR :: LF :: CR :: LF :: y) = reads api_kind y.
Proof. apply (reads_quiet _ (CR :: LF :: CR :: LF :: y) 0 4); [done|by destruct api_kind]. Qed.

(** A line end in front of a text that does not start with one joins the first
    event, whose lines gain an empty one. *)
Lemma reads_lf api_kind y : take 1 y <> [LF] -> reads api_kind (LF :: y) = reads api_kind y.
Proof.
  intros Hy. rewrite reads_first, (reads_first _ y). destruct (first_end y) as [[k s]|] eqn:E.
  - rewrite (first_end_cons LF y k s) by (done || windows y).
    cbn [take]. by rewrite event_usage_lf.
  - assert (first_end (LF :: y) = None) as ->; [|done].
    apply first_end_cons_None. split_and!; [windows y|windows y|done].
Qed.

Lemma reads_crlf api_kind y :
  take 1 y <> [LF] -> take 2 y <> [CR; LF] -> reads api_kind (CR :: LF :: y) = reads api_kind y.
Proof.
  intros Hy Hy'. rewrite reads_first, (reads_first _ y). destruct (first_end y) as [[k s]|] eqn:E.
  - rewrite (first_end_cons CR (LF :: y) (S k) s); [..|apply first_end_cons; [windows y|windows y|done]];
      [|done|windows y].
    cbn [take]. by rewrite event_usage_crlf.
  - assert (first_end (CR :: LF :: y) = None) as ->; [|done].
    rewrite !first_end_cons_None. split_and!; [done|windows y|windows y|windows y|done].
Qed.

Lemma reads_skip_blank api_kind x : reads api_kind x = reads api_kind (skip_blank x).
Proof.
  induction x as [y IH|y IH|x Hx] using blank_ind; [| |by rewrite Hx].
  - change (skip_blank (LF :: y)) with (skip_blank y). rewrite <- IH by done.
    destruct (decide (take 1 y = [LF])) as [Hy|Hy]; [|by apply reads_lf].
    destruct y as [|? y]; [done|]. injection Hy as ->. rewrite reads_lf_lf.
    trans (reads api_kind (skip_blank y)); [apply IH; cbn; lia|]. symmetry. exact (IH (LF :: y) (Nat.le_refl _)).
  - change (skip_blank (CR :: LF :: y)) with (skip_blank y). rewrite <- IH by done.
    destruct (decide (take 1 y = [LF])) as [Hy|Hy].
    { destruct y as [|? y]; [done|]. injection Hy as ->. rewrite reads_crlf_lf.
      trans (reads api_kind (skip_blank y)); [apply IH; cbn; lia|]. symmetry.
      exact (IH (LF :: y) (Nat.le_refl _)). }
    destruct (decide (take 2 y = [CR; LF])) as [Hy'|Hy']; [|by apply reads_crlf].
    destruct y as [|? [|? y]]; [done..|]. injection Hy' as -> ->.
    rewrite reads_crlf_crlf.
    trans (reads api_kind (skip_blank y)); [apply IH; cbn; lia|]. symmetry.
    exact (IH (CR :: LF :: y) (Nat.le_refl _)).
Qed.

Lemma reads_same_skip api_kind x y : skip_blank x = skip_blank y -> reads api_kind x = reads api_kind y.
Proof. intros E. by rewrite reads_skip_blank, E, <- reads_skip_blank. Qed.

(** Reading on. *)
Lemma reads_app api_kind x y :
  (reads api_kind (x ++ y)).1 =
    (reads api_kind x).1 ++ (reads api_kind ((reads api_kind x).2 ++ y)).1.
Proof.
  rewrite (reads_same_skip api_kind ((reads api_kind x).2 ++ y) (rev (scan_events [] x).2 ++ y)).
  - unfold reads. cbn [fst snd]. rewrite scan_events_app. cbn [fst snd].
    rewrite (scan_resume (scan_events [] x).2) by by apply scan_rest. by rewrite omap_app.
  - unfold reads. cbn [snd]. by rewrite <- skip_blank_app.
Qed.

(** ** The loop of the code *)

(** The last of the counts [us], or else the one known before. *)
Definition update_last (last_usage : option Z) (us : list Z) : option Z :=
  match last us with Some u => Some u | None => last_usage end.

Lemma update_last_app l us vs : update_last l (us ++ vs) = update_last (update_last l us) vs.
Proof. unfold update_last. rewrite last_app. by destruct (last vs), (last us). Qed.

(** Whatever length the code takes the separator to have, line ends apart the rest
    is the right one, and shorter. *)
Lemma separator_dropped b k s (long : bool) :
  first_end b = Some (k, s) ->
  let rest := drop k b in
  let sep_len := if long && bool_decide (take 2 rest = [CR; LF]) then 4%nat else 2%nat in
  skip_blank (drop (Nat.min sep_len (length rest)) rest) = skip_blank (drop (k + s) b) /\
  (length (drop (Nat.min sep_len (length rest)) rest) < length b)%nat.
Proof.
  intros E. cbn zeta. rewrite <- drop_drop.
  assert (length (drop k b) <= length b)%nat by (rewrite length_drop; lia).
  destruct (first_end_sep _ _ _ E) as [[-> Hs]|[-> Hs]]; revert Hs H0;
    generalize (drop k b); intros r Hs Hr.
  - destruct r as [|? [|? r]]; [done..|]. injection Hs as -> ->. rewrite andb_false_r. cbn in *.
    split; [done|rewrite drop_0; lia].
  - destruct r as [|? [|? [|? [|? r]]]]; [done..|]. injection Hs as -> -> -> ->.
    destruct long; cbn [andb take]; rewrite ?bool_decide_true by done; (split; [done|rewrite length_drop; cbn in *; lia]).
Qed.

Lemma drain_reads api_kind fuel b l :
  (length b <= fuel)%nat ->
  let '(b', l') := drain_events api_kind fuel b l in
  first_end b' = None /\ skip_blank b' = (reads api_kind b).2 /\ l' = update_last l (reads api_kind b).1.
Proof.
  revert b l; induction fuel as [|fuel IH]; intros b l Hb.
  { destruct b; [|cbn in Hb; lia]. done. }
  cbn [drain_events]. rewrite boundary_first, (reads_first _ b).
  destruct (first_end b) as [[k s]|] eqn:E; [|done]. cbn [fmap option_fmap option_map fst].
  destruct (separator_dropped b k s (k <? length (drop k b))%nat E) as [Hs Hl].
  set (b1 := drop (Nat.min _ _) _) in *. specialize (IH b1 (match event_usage api_kind (take k b) with
    Some usage => Some usage | None => l end) ltac:(lia)).
  destruct (drain_events api_kind fuel b1 _) as [b' l']. destruct IH as (Hb' & Hr & ->).
  rewrite <- (reads_same_skip _ _ _ Hs), update_last_app. split; [done|]. split; [done|].
  by destruct (event_usage api_kind (take k b)).
Qed.

Lemma stream_text_cons chunk rx : stream_text (Ok chunk :: rx) = app chunk <$> stream_text rx.
Proof. unfold stream_text. cbn. by destruct (mapM _ rx). Qed.

Lemma parse_chunks_spec api_kind rx b l :
  first_end b = None ->
  parse_chunks api_kind rx b l =
    match stream_text rx with
    | None => Errored
    | Some text => match update_last l (reads api_kind (b ++ text)).1 with
                   | Some tokens => Parsed tokens
                   | None => ClosedNoUsage
                   end
    end.
Proof.
  revert b l; induction rx as [|[chunk|e] rx IH]; intros b l Hb; cbn [parse_chunks]; [| |done].
  - change (stream_text []) with (Some (@nil ascii)). cbn match. by rewrite app_nil_r, reads_first, Hb.
  - rewrite stream_text_cons.
    pose proof (drain_reads api_kind (length (b ++ chunk)) (b ++ chunk) l (Nat.le_refl _)) as Hd.
    destruct (drain_events api_kind _ _ l) as [b' l']. destruct Hd as (Hb' & Hr & ->).
    rewrite (IH _ _ Hb'). destruct (stream_text rx) as [text|]; [|done].
    cbn [fmap option_fmap option_map]. rewrite app_assoc.
    rewrite (reads_app api_kind (b ++ chunk) text), update_last_app, <- Hr.
    rewrite (reads_same_skip api_kind (skip_blank b' ++ text) (b' ++ text)); [done|].
    by rewrite <- skip_blank_app.
Qed.

(** C25: what is charged for a stream does not depend on how it was cut into chunks.
    For every sequence of chunks, the outcome of the proxy's parser is the outcome of
    reading the whole text of the stream byte by byte: the count of the last complete
    event that reports one, or that none does, and an error exactly when the stream
    broke. In particular events, separators, lines and characters may be split over
    any number of chunks. *)
Theorem usage_of_chunks api_kind rx : parse_usage_from_sse_stream api_kind rx = stream_usage api_kind rx.
Proof.
  unfold parse_usage_from_sse_stream, stream_usage, last_reported. rewrite parse_chunks_spec by done.
  destruct (stream_text rx) as [text|]; [|done]. unfold update_last, reads. cbn [fst app].
  by destruct (last _).
Qed.

End Sse.
