(* ===== verification/Routing.v ===== *)
(** * The routing table of the proxies

    [crates/spendguard-provider-routing/src/lib.rs]: which provider serves an
    inbound path, the URL of its upstream and where the model's name is. The regular
    expressions of the table are sequences of literals and of captures [([^c]+)];
    the literal after a capture starts with [c], so that the greedy match of a
    capture is its only one. The tokenizer kinds and the usage extractors of the
    table, which the forwarding code does not use, are left out. *)

From S2P Require Import Prelude Deps Proto Canonical.

Inductive ProviderKind := OpenAi | Anthropic | Bedrock | Vertex | AzureOpenAi.

Inductive RequestShape :=
  | OpenAiChatCompletions | OpenAiResponses | AnthropicMessages
  | BedrockInvokeModel | VertexGenerateContent | AzureOpenAiChatCompletions.

(** A piece of a path pattern: literal text, or a capture that ends before [c]. *)
Inductive Piece :=
  | Lit (text : string)
  | Until (c : ascii).

Record ProviderConfig := {
  pv_kind : ProviderKind;
  pv_inbound_path_pattern : list Piece;
  pv_upstream_url_template : string;
  pv_request_shape : RequestShape;
}.

(** ** Matching *)

Definition drop_string (n : nat) (s : string) : string :=
  String.substring n (String.length s - n) s.

Definition str_strip_prefix (p s : string) : option string :=
  if String.prefix p s then Some (drop_string (String.length p) s) else None.

(** The longest prefix without [c], and the rest. *)
Fixpoint span_until (c : ascii) (s : string) : string * string :=
  match s with
  | EmptyString => (EmptyString, EmptyString)
  | String d s' => if decide (d = c) then (EmptyString, s)
                   else let '(w, rest) := span_until c s' in (String d w, rest)
  end.

(** [captures]: the texts of the capture groups, when the whole path matches. *)
Fixpoint captures (p : list Piece) (path : string) : option (list string) :=
  match p with
  | [] => if is_empty path then Some [] else None
  | Lit text :: p => str_strip_prefix text path ≫= captures p
  | Until c :: p =>
      let '(w, rest) := span_until c path in
      if is_empty w then None else cons w <$> captures p rest
  end.

(** [str::replace] of a text that is not empty; [skip] bytes of a match remain. *)
Fixpoint replace_from (pat by_ : string) (skip : nat) (s : string) : string :=
  match s with
  | EmptyString => EmptyString
  | String c s' =>
      match skip with
      | S skip => replace_from pat by_ skip s'
      | O => if String.prefix pat s
             then by_ +:+ replace_from pat by_ (String.length pat - 1) s'
             else String c (replace_from pat by_ 0 s')
      end
  end.

Definition str_replace (pat by_ s : string) : string := replace_from pat by_ 0 s.

Fixpoint fill_template (i : Z) (groups : list string) (url : string) : string :=
  match groups with
  | [] => url
  | g :: groups => fill_template (i + 1) groups (str_replace ("{" +:+ z_str i +:+ "}") g url)
  end.

Definition upstream_url_for (cfg : ProviderConfig) (path : string) : string :=
  match captures (pv_inbound_path_pattern cfg) path with
  | None => pv_upstream_url_template cfg
  | Some groups => fill_template 0 groups (pv_upstream_url_template cfg)
  end.

(** ** The table *)

Definition ROUTING_TABLE : list ProviderConfig :=
  [{| pv_kind := OpenAi; pv_inbound_path_pattern := [Lit "/v1/chat/completions"];
      pv_upstream_url_template := "https://api.openai.com/v1/chat/completions";
      pv_request_shape := OpenAiChatCompletions |};
   {| pv_kind := OpenAi; pv_inbound_path_pattern := [Lit "/v1/responses"];
      pv_upstream_url_template := "https://api.openai.com/v1/responses";
      pv_request_shape := OpenAiResponses |};
   {| pv_kind := Anthropic; pv_inbound_path_pattern := [Lit "/v1/messages"];
      pv_upstream_url_template := "https://api.anthropic.com/v1/messages";
      pv_request_shape := AnthropicMessages |};
   {| pv_kind := Bedrock; pv_inbound_path_pattern := [Lit "/model/"; Until "/"; Lit "/invoke"];
      pv_upstream_url_template := "https://bedrock-runtime.us-east-1.amazonaws.com/model/{0}/invoke";
      pv_request_shape := BedrockInvokeModel |};
   {| pv_kind := Vertex;
      pv_inbound_path_pattern :=
        [Lit "/v1/projects/"; Until "/"; Lit "/locations/"; Until "/";
         Lit "/publishers/google/models/"; Until ":"; Lit ":generateContent"];
      pv_upstream_url_template :=
        "https://{1}-aiplatform.googleapis.com/v1/projects/{0}/locations/{1}/publishers/google/models/{2}:generateContent";
      pv_request_shape := VertexGenerateContent |};
   {| pv_kind := AzureOpenAi;
      pv_inbound_path_pattern := [Lit "/openai/deployments/"; Until "/"; Lit "/chat/completions"];
      pv_upstream_url_template :=
        "https://AZURE_RESOURCE.openai.azure.com/openai/deployments/{0}/chat/completions";
      pv_request_shape := AzureOpenAiChatCompletions |}].

(** First match wins. *)
Definition route (path : string) : option ProviderConfig :=
  List.find (fun cfg => match captures (pv_inbound_path_pattern cfg) path with
                        | Some _ => true | None => false end) ROUTING_TABLE.

Definition resolve_model_id (cfg : ProviderConfig) (path : string) (body : json) : string :=
  match pv_request_shape cfg with
  | BedrockInvokeModel =>
      default "unknown" (captures (pv_inbound_path_pattern cfg) path ≫= head)
  | _ => default "unknown" (jget "model" body ≫= j_str)
  end.

Example vertex_url :
  (fun cfg => upstream_url_for cfg "/v1/projects/p/locations/us/publishers/google/models/m:generateContent")
    <$> route "/v1/projects/p/locations/us/publishers/google/models/m:generateContent" =
  Some "https://us-aiplatform.googleapis.com/v1/projects/p/locations/us/publishers/google/models/m:generateContent".
Proof. reflexivity. Qed.

Example bedrock_model :
  (fun cfg => resolve_model_id cfg "/model/anthropic.claude/invoke" JNull)
    <$> route "/model/anthropic.claude/invoke" = Some "anthropic.claude".
Proof. reflexivity. Qed.

(** The two paths that are forwarded lead to OpenAI. *)
Lemma route_openai :
  (fun cfg => (pv_request_shape cfg, upstream_url_for cfg "/v1/chat/completions"))
    <$> route "/v1/chat/completions" =
    Some (OpenAiChatCompletions, "https://api.openai.com/v1/chat/completions") /\
  (fun cfg => (pv_request_shape cfg, upstream_url_for cfg "/v1/responses"))
    <$> route "/v1/responses" = Some (OpenAiResponses, "https://api.openai.com/v1/responses").
Proof. split; reflexivity. Qed.
