(* ===== verification/Egress.v ===== *)
(** * The egress proxy

    [services/egress_proxy/src: decision.rs, forward.rs, main.rs, providers], and
    the identifiers of [services/ids/src/lib.rs]. A client sends its OpenAI request
    here. The proxy estimates the call's cost ([estimate_call_cost]), asks the
    sidecar for a decision ([build_decision_request]), forwards the request on
    CONTINUE and nothing else, and settles the reservation by what the upstream
    answered: [forward_openai_request] is the handler, [stream_tasks] what it leaves
    running behind a streamed answer, [serve_openai] both. *)

From S2P Require Import Prelude Floats Deps Effects Proto Canonical Predict Sse Routing.

(** ** Third-party code *)

(** The blake2 crate: [Blake2b<U16>]. *)
Class Blake2Lib := {
  blake2b_128 : string -> string;
  blake2b_128_length s : String.length (blake2b_128 s) = 16%nat;
}.

(** ** HTTP *)

Abbreviation HeaderMap := (list (string * string)).

(** [HeaderValue::to_str]: visible ASCII and tabs. *)
Definition visible (c : ascii) : bool :=
  ((32 <=? byte_of c) && (byte_of c <? 127)) || (byte_of c =? 9).

Definition to_str (v : string) : option string :=
  if forallb visible (list_ascii_of_string v) then Some v else None.

(** [headers.get(name).and_then(|v| v.to_str().ok())]; names are in lower case. *)
Definition header (headers : HeaderMap) (name : string) : option string :=
  al_get name headers ≫= to_str.

Inductive Body :=
  | Full (b : bytes)
  | Tee.

Record HttpResponse := {
  hr_status : Z;
  hr_headers : HeaderMap;
  hr_body : Body;
}.

(** What goes upstream, and the head of what comes back. *)
Record UpstreamRequest := {
  ur_url : string;
  ur_headers : HeaderMap;
  ur_body : string;
}.

Record UpstreamHead := {
  uh_status : Z;
  uh_headers : HeaderMap;
}.

(** [StatusCode::is_success]. *)
Definition http_success (status : Z) : bool := (200 <=? status) && (status <? 300).

Definition MAX_BODY_BYTES : Z := 16 * 1024 * 1024.

Definition needs_include_usage_injection (k : ApiKind) : bool :=
  match k with ChatCompletions => true | Responses => false end.

Definition inbound_path (k : ApiKind) : string :=
  match k with ChatCompletions => "/v1/chat/completions" | Responses => "/v1/responses" end.

(** [trim_end_matches(c)]. *)
Fixpoint trim_start_char (c : ascii) (l : list ascii) : list ascii :=
  match l with d :: l' => if decide (d = c) then trim_start_char c l' else l | [] => [] end.

Definition trim_end_char (c : ascii) (s : string) : string :=
  string_of_list_ascii (rev (trim_start_char c (rev (list_ascii_of_string s)))).

Definition trim_char (c : ascii) (s : string) : string :=
  trim_end_char c (string_of_list_ascii (trim_start_char c (list_ascii_of_string s))).

Definition starts_with_any (ps : list string) (s : string) : bool := existsb (fun p => starts_with p s) ps.

Definition should_forward_header (name : string) : bool :=
  let lower := to_lower name in
  if existsb (String.eqb lower) ["authorization"; "host"; "content-length"; "content-type"] then false
  else if starts_with "x-spendguard-" lower then false
  else existsb (String.eqb lower)
         ["openai-organization"; "openai-project"; "openai-beta"; "user-agent"; "accept"].

Definition should_forward_sse_response_header (name : string) : bool :=
  existsb (String.eqb name)
    ["content-type"; "cache-control"; "openai-organization"; "openai-version";
     "openai-processing-ms"; "x-request-id"].

Definition build_passthrough (head : UpstreamHead) (upstream_body : bytes) : HttpResponse :=
  {| hr_status := uh_status head;
     hr_headers := match al_get "content-type" (uh_headers head) with
                   | Some ct => [("content-type", ct)]
                   | None => []
                   end;
     hr_body := Full upstream_body |}.

Definition sse_response (head : UpstreamHead) : HttpResponse :=
  let forwarded := List.filter (fun h => should_forward_sse_response_header h.1) (uh_headers head) in
  {| hr_status := uh_status head;
     hr_headers := forwarded ++ match al_get "cache-control" (uh_headers head) with
                                | Some _ => []
                                | None => [("cache-control", "no-cache, no-transform")]
                                end;
     hr_body := Tee |}.

(** ** Errors *)

Inductive ForwardError :=
  | BodyTooLarge (size limit : Z)
  | MalformedJson (m : string)
  | MissingAuth
  | MissingIdentification
  | UpstreamFailed (m : string)
  | UnexpectedContentType (ct : string)
  | SidecarUnavailable (m : string)
  | Blocked (decision_id : string) (reason_codes matched_rule_ids : list string)
  | UnsupportedDecision (decision_id : string) (reason_codes : list string)
  | Skipped (decision_id : string)
  | TenantSpoofing
  | Internal (m : string).

(** The status, the code, the message, [Retry-After] and the details. *)
Definition error_parts (e : ForwardError) : Z * string * string * option string * option json :=
  match e with
  | BodyTooLarge size limit =>
      (413, "spendguard_body_too_large",
       "body too large (" +:+ z_str size +:+ " bytes > " +:+ z_str limit +:+ " max)", None, None)
  | MalformedJson m => (400, "spendguard_malformed_json", "malformed JSON body: " +:+ m, None, None)
  | MissingAuth =>
      (401, "spendguard_missing_authorization", "missing Authorization header", None, None)
  | MissingIdentification =>
      (400, "spendguard_missing_identification",
       "missing identification — set SPENDGUARD_PROXY_DEFAULT_* env or X-SpendGuard-* headers", None, None)
  | UpstreamFailed m => (502, "spendguard_upstream_failure", "upstream HTTP error: " +:+ m, None, None)
  | UnexpectedContentType ct =>
      (502, "spendguard_unexpected_streaming_response",
       "upstream returned unexpected Content-Type: " +:+ ct, None, None)
  | SidecarUnavailable m =>
      (502, "spendguard_sidecar_unavailable", "SpendGuard sidecar unavailable: " +:+ m, None, None)
  | Blocked decision_id reason_codes matched_rule_ids =>
      (429, "spendguard_blocked", "request blocked by SpendGuard policy", Some "86400",
       Some (JObj [("decision_id", JStr decision_id); ("reason_codes", JArr (JStr <$> reason_codes));
                   ("matched_rule_ids", JArr (JStr <$> matched_rule_ids))]))
  | UnsupportedDecision decision_id reason_codes =>
      (503, "spendguard_unsupported_decision",
       "egress-proxy mode does not support REQUIRE_APPROVAL/DEGRADE; use SDK wrapper", None,
       Some (JObj [("decision_id", JStr decision_id); ("reason_codes", JArr (JStr <$> reason_codes));
                   ("hint", JStr "use SDK wrapper for approval / degrade flows")]))
  | Skipped decision_id =>
      (429, "spendguard_skipped", "SpendGuard returned SKIP for this trigger boundary", None,
       Some (JObj [("decision_id", JStr decision_id)]))
  | TenantSpoofing =>
      (403, "spendguard_tenant_spoofing_rejected",
       "X-SpendGuard-Tenant-Id does not match proxy startup tenant; set SPENDGUARD_PROXY_MULTI_TENANT=true for multi-tenant deployments",
       None, None)
  | Internal m => (500, "spendguard_internal_error", "internal: " +:+ m, None, None)
  end.

Definition into_response `{JsonLib} (e : ForwardError) : HttpResponse :=
  let '(status, code, message, retry_after, extra_details) := error_parts e in
  let error_obj := [("code", JStr code); ("type", JStr code); ("message", JStr message)] ++
                   match extra_details with Some d => [("details", d)] | None => [] end in
  {| hr_status := status;
     hr_headers := match retry_after with Some r => [("retry-after", r)] | None => [] end
                   ++ [("content-type", "application/json")];
     hr_body := Full (list_ascii_of_string (json_to_vec (JObj [("error", JObj error_obj)]))) |}.

(** ** Identifiers: [services/ids] *)

(** [BTreeMap::insert]. *)
Fixpoint btree_insert (k : string) (v : json) (m : list (string * json)) : list (string * json) :=
  match m with
  | [] => [(k, v)]
  | (k', v') :: m' =>
      if k =?s k' then (k, v) :: m'
      else if String.leb k k' then (k, v) :: m
      else (k', v') :: btree_insert k v m'
  end.

Fixpoint sort_keys (value : json) : json :=
  match value with
  | JObj map =>
      JObj ((fix go (m : list (string * json)) (sorted : list (string * json)) :=
               match m with
               | [] => sorted
               | (k, v) :: m => go m (btree_insert k (sort_keys v) sorted)
               end) map [])
  | JArr items => JArr (List.map sort_keys items)
  | other => other
  end.

(** ** The estimate of a call's cost *)

Record Message := { tm_role : string; tm_content : string }.

Record TokenizeRequest := {
  tq_model : string;
  tq_messages : list Message;
  tq_raw_text : string;
  tq_request_id : string;
}.

Record TokenizeResponse := {
  tr_input_tokens : Z;
  tr_tier : string;
  tr_tokenizer_version_id : string;
}.

Record EstimateInputs := {
  ei_body : json;
  ei_model : string;
  ei_tenant_id : string;
  ei_agent_id : string;
  ei_run_id : string;
  ei_decision_id : string;
  ei_step_id : string;
  ei_prediction_policy : string;
  ei_header_override_tokens : option Z;
  ei_planned_steps_hint : Z;
}.

Definition j_arr (j : json) : option (list json) := match j with JArr l => Some l | _ => None end.
Definition j_bool (j : json) : option bool := match j with JBool b => Some b | _ => None end.
Definition is_some {A} (o : option A) : bool := match o with Some _ => true | None => false end.

Definition classify_prompt (body : json) : string :=
  let messages := jget "messages" body ≫= j_arr in
  let has_tools := is_some (jget "tools" body) || is_some (jget "tool_choice" body) in
  let total_chars :=
    match messages with
    | None => 0
    | Some m => foldr Z.add 0 (slen <$> omap (fun msg => jget "content" msg ≫= j_str) m)
    end in
  if has_tools then "tool_calling"
  else if 4000 <? total_chars then "chat_long"
  else "chat_short".

Definition input_tokens_with_override (tok_response : TokenizeResponse) (header_override : option Z) : Z :=
  match header_override with
  | Some v => Z.max v 1
  | None => Z.max (tr_input_tokens tok_response) 1
  end.

Definition serialize_messages_for_tokenizer (body : json) : list Message :=
  match jget "messages" body ≫= j_arr with
  | None => []
  | Some arr =>
      (fun m => {| tm_role := default "user" (jget "role" m ≫= j_str);
                   tm_content := default EmptyString (jget "content" m ≫= j_str) |}) <$> arr
  end.

Definition compute_strategy_a_local (input_tokens max_tokens_requested model_context_window : Z) : Z :=
  let cw_ceiling := Z.max (model_context_window - input_tokens) 0 in
  let user_ceiling := if 0 <? max_tokens_requested then max_tokens_requested else i64_max in
  Z.max (Z.min cw_ceiling user_ceiling) 1.

Definition lookup_model_context_window (model : string) : Z :=
  let m := to_lower model in
  if starts_with_any ["gpt-4o"; "o1"; "o3"] m then 128000
  else if starts_with "gpt-4-turbo" m then 128000
  else if starts_with "gpt-4" m then 8192
  else if starts_with "gpt-3.5-turbo" m then 16385
  else if starts_with_any ["claude-3-5"; "claude-3"] m then 200000
  else if starts_with "gemini-1.5" m then 1000000
  else 8000.

Definition parse_model_family (body : json) : string := default "unknown" (jget "model" body ≫= j_str).

(** The four run columns of an estimate, from the projector's answer or unset. *)
Definition with_projection (project : option ProjectResponse) (e : ClaimEstimate) : ClaimEstimate :=
  match project with
  | None => e
  | Some p =>
      {| est_tokenizer_tier := est_tokenizer_tier e; est_tokenizer_version_id := est_tokenizer_version_id e;
         est_input_tokens := est_input_tokens e; est_predicted_a_tokens := est_predicted_a_tokens e;
         est_predicted_b_tokens := est_predicted_b_tokens e; est_predicted_c_tokens := est_predicted_c_tokens e;
         est_reserved_strategy := est_reserved_strategy e;
         est_prediction_strategy_used := est_prediction_strategy_used e;
         est_prediction_policy_used := est_prediction_policy_used e;
         est_prediction_confidence := est_prediction_confidence e;
         est_prediction_sample_size := est_prediction_sample_size e;
         est_cold_start_layer_used := est_cold_start_layer_used e;
         est_classifier_version := est_classifier_version e; est_fingerprint_version := est_fingerprint_version e;
         est_prompt_class_fingerprint := est_prompt_class_fingerprint e;
         est_run_projection_at_decision_atomic := pr_run_projection_at_decision_atomic p;
         est_run_predicted_remaining_steps := pr_run_predicted_remaining_steps p;
         est_run_steps_completed_so_far := pr_run_steps_completed_so_far p;
         est_run_code_triggered := pr_emitted_code p;
         est_model := est_model e; est_prompt_class := est_prompt_class e |}
  end.

Definition build_estimate_from_predictor (tok_resp : TokenizeResponse) (input_tokens : Z)
    (model prompt_class prediction_policy : string) (predict : PredictResponse)
    (project : option ProjectResponse) : ClaimEstimate :=
  with_projection project
  {| est_tokenizer_tier := tr_tier tok_resp; est_tokenizer_version_id := tr_tokenizer_version_id tok_resp;
     est_input_tokens := input_tokens;
     est_predicted_a_tokens := rp_predicted_a_tokens predict;
     est_predicted_b_tokens := default 0 (rp_predicted_b_tokens predict);
     est_predicted_c_tokens := default 0 (rp_predicted_c_tokens predict);
     est_reserved_strategy := rp_reserved_strategy predict;
     est_prediction_strategy_used := rp_prediction_strategy_used predict;
     est_prediction_policy_used := if is_empty (rp_prediction_policy_used predict) then prediction_policy
                                   else rp_prediction_policy_used predict;
     est_prediction_confidence := default (S754_zero false) (rp_confidence predict);
     est_prediction_sample_size := default 0 (rp_sample_size predict);
     est_cold_start_layer_used := default EmptyString (rp_cold_start_layer_used predict);
     est_classifier_version := rp_classifier_version predict;
     est_fingerprint_version := rp_fingerprint_version predict;
     est_prompt_class_fingerprint := rp_prompt_class_fingerprint_used predict;
     est_run_projection_at_decision_atomic := 0; est_run_predicted_remaining_steps := -1;
     est_run_steps_completed_so_far := 0; est_run_code_triggered := EmptyString;
     est_model := model; est_prompt_class := prompt_class |}.

Definition build_estimate_fallback_a (tokenizer_tier tokenizer_version_id : string) (input_tokens : Z)
    (model prompt_class : string) (strategy_a_local : Z) (prediction_policy : string)
    (project : option ProjectResponse) : ClaimEstimate :=
  with_projection project
  {| est_tokenizer_tier := tokenizer_tier; est_tokenizer_version_id := tokenizer_version_id;
     est_input_tokens := input_tokens; est_predicted_a_tokens := strategy_a_local;
     est_predicted_b_tokens := 0; est_predicted_c_tokens := 0; est_reserved_strategy := "A";
     est_prediction_strategy_used := "A"; est_prediction_policy_used := prediction_policy;
     est_prediction_confidence := S754_zero false; est_prediction_sample_size := 0;
     est_cold_start_layer_used := EmptyString; est_classifier_version := EmptyString;
     est_fingerprint_version := EmptyString; est_prompt_class_fingerprint := EmptyString;
     est_run_projection_at_decision_atomic := 0; est_run_predicted_remaining_steps := -1;
     est_run_steps_completed_so_far := 0; est_run_code_triggered := EmptyString;
     est_model := model; est_prompt_class := prompt_class |}.

(** ** Pricing: [runtime.env] *)

Record PricingSnapshot := {
  ps_pricing : PricingFreeze;
  ps_mtime : option Z;
}.

(** [split_once(c)]. *)
Fixpoint split_once (c : ascii) (s : string) : option (string * string) :=
  match s with
  | EmptyString => None
  | String d s => if decide (d = c) then Some (EmptyString, s)
                  else prod_map (String d) id <$> split_once c s
  end.

(** One line: comments and empty lines are skipped, quotes around a value removed. *)
Definition env_line (line : string) : option (string * string) :=
  let trimmed := trim line in
  if starts_with "#" trimmed || is_empty trimmed then None
  else
    let body := default trimmed (str_strip_prefix "export " trimmed) in
    '(k, v) ← split_once "="%char body;
    Some (trim k, trim_char "039"%char (trim_char "034"%char (trim v))).

(** The map of the file: a later binding replaces an earlier one. *)
Definition env_map (contents : string) : list (string * string) :=
  rev (omap env_line (string_of_list_ascii <$> lines (list_ascii_of_string contents))).

Definition pricing_of_env `{HexLib} (contents : string) : result string PricingFreeze :=
  let map := env_map contents in
  let price_snapshot_hash_hex :=
    default EmptyString (match al_get "SPENDGUARD_SIDECAR_PRICE_SNAPSHOT_HASH_HEX" map with
                         | Some h => Some h
                         | None => al_get "SPENDGUARD_SCHEMA_BUNDLE_HASH_HEX" map
                         end) in
  snapshot_hash_bytes ←
    (if is_empty price_snapshot_hash_hex then Ok EmptyString
     else match hex_decode price_snapshot_hash_hex with
          | Some b => Ok b
          | None => Err ("price_snapshot_hash_hex not valid hex: " +:+ price_snapshot_hash_hex)
          end);
  mret {| pf_pricing_version := default "demo-pricing-v1" (al_get "SPENDGUARD_SIDECAR_PRICING_VERSION" map);
          pf_price_snapshot_hash := snapshot_hash_bytes;
          pf_fx_rate_version := default "demo-fx-v1" (al_get "SPENDGUARD_SIDECAR_FX_RATE_VERSION" map);
          pf_unit_conversion_version :=
            default "demo-units-v1" (al_get "SPENDGUARD_SIDECAR_UNIT_CONVERSION_VERSION" map) |}.

Definition default_pricing : PricingFreeze :=
  {| pf_pricing_version := EmptyString; pf_price_snapshot_hash := EmptyString;
     pf_fx_rate_version := EmptyString; pf_unit_conversion_version := EmptyString |}.

(** ** Effects *)

Section Proxy.
Context `{HU : UuidLib} `{HC : CryptoLib} {HX : HexLib} {HUB : UuidBytes} `{HJ : JsonLib} `{HB : Blake2Lib}.
(** The text of serde_json's error on an input that it refuses. *)
Context (json_error : string -> string).

(** A call to another service answers its response or the text of its error. The
    pricing snapshot is a shared cell; [FileMetadata] is [fs::metadata] and then
    [modified]; [TeeStream] is what the parser's channel carried until its sender
    was dropped - at the end of the upstream's answer, or when the client went away -
    and nothing if the parser died. *)
Inductive egressE : Type -> Type :=
  | NewUuid : egressE uuid
  | Clock : egressE Z
  | Tokenize (req : TokenizeRequest) : egressE (result string TokenizeResponse)
  | CallPredict (req : PredictRequest) : egressE (result string PredictResponse)
  | CallProject (req : ProjectRequest) : egressE (result string ProjectResponse)
  | PricingLoad : egressE PricingSnapshot
  | PricingStore (snapshot : PricingSnapshot) : egressE unit
  | FileMetadata : egressE (option (option Z))
  | FileRead : egressE (result string string)
  | RequestDecision (req : DecisionRequest) : egressE (result string DecisionResponse)
  | SendUpstream (req : UpstreamRequest) : egressE (result string UpstreamHead)
  | ReadBody : egressE (result string bytes)
  | TeeStream : egressE (option (list (result string bytes)))
  | EmitTraceEvents (ev : TraceEvent) : egressE (result string unit)
  | ReadAck : egressE (result string (option TraceEventAck))
  | ConfirmPublishOutcome (req : PublishOutcomeRequest) : egressE (result string PublishOutcomeResponse)
  | Sleep (d : Z) : egressE unit.

(** A program of the proxy that may fail with a [D]. *)
Definition Eg (D A : Type) : Type := @M egressE D A.
Definition actE {D A} (e : egressE A) : Eg D A := act e.
Definition callE {A} (e : egressE (result string A)) : Eg string A := call e.
Definition failE {D A} (e : D) : Eg D A := fail e.
Definition retE {D A} (a : A) : Eg D A := mret a.
Definition liftE {D A} (r : result D A) : Eg D A := lift r.

(** The result of a program as a value. *)
Definition tried {D D' A} (m : Eg D A) : Eg D' (result D A) := pbind m (fun r => Ret (Ok r)).

(** ** Decision requests *)

Definition default_call_signature_jcs (body : json) : string :=
  hex_encode (blake2b_128 (json_to_vec (sort_keys body))).

Definition derive_uuid_from_signature (signature scope : string) : uuid :=
  let buf := blake2b_128 (scope +:+ "|" +:+ signature) in
  let buf := set_byte 6 (fun b => Z.lor (Z.land b 15) 64) buf in
  let buf := set_byte 8 (fun b => Z.lor (Z.land b 63) 128) buf in
  uuid_from_bytes buf.

Record DecisionInputs := {
  di_tenant_id : string;
  di_budget_id : string;
  di_window_instance_id : string;
  di_run_id : string;
  di_body_bytes : string;
  di_model_family : string;
  di_estimated_tokens : Z;
  di_unit_id : string;
  di_explicit_idempotency_key : option string;
  di_claim_estimate : option ClaimEstimate;
}.

Definition TRIGGER_LLM_CALL_PRE : Z := 3.

Definition token_unit (unit_id model_family : string) : UnitRef :=
  {| unit_id := unit_id; unit_kind := KIND_TOKEN; token_kind := "output_token"; model_family := model_family |}.

(** The key of the request: the caller's, or a fresh one per attempt. *)
Definition idempotency_key_of {D} (explicit : option string) (signature : string) : Eg D string :=
  if is_empty (default EmptyString explicit) then
    now ← actE Clock;
    let nanos := if now <? 0 then EmptyString else z_str now in
    retE (hex_encode (String.substring 0 8 (blake2b_128 (signature +:+ "|" +:+ nanos))))
  else retE (default EmptyString explicit).

Definition build_decision_request (inputs : DecisionInputs) : Eg string DecisionRequest :=
  body_json ← liftE (ok_or (json_from_slice (di_body_bytes inputs))
                       "body not valid JSON for signature derivation");
  let signature := default_call_signature_jcs body_json in
  let step_id := di_run_id inputs +:+ ":call:" +:+ String.substring 0 16 signature in
  let llm_call_id := derive_uuid_from_signature signature "llm_call_id" in
  decision_id ← actE NewUuid;
  idempotency_key ← idempotency_key_of (di_explicit_idempotency_key inputs) signature;
  let unit := token_unit (di_unit_id inputs) (di_model_family inputs) in
  let claim := {| bc_budget_id := di_budget_id inputs; bc_unit := Some unit;
                  bc_amount_atomic := z_str (di_estimated_tokens inputs);
                  bc_direction := DIRECTION_DEBIT;
                  bc_window_instance_id := di_window_instance_id inputs |} in
  retE {| dr_session_id := "egress-proxy:" +:+ di_run_id inputs;
          dr_trigger := TRIGGER_LLM_CALL_PRE;
          dr_ids := Some {| ids_run_id := di_run_id inputs; ids_step_id := step_id;
                            ids_llm_call_id := uuid_str llm_call_id; ids_tool_call_id := EmptyString;
                            ids_decision_id := uuid_str decision_id |};
          dr_route := "llm.call";
          dr_inputs := Some {| in_projected_claims := [claim]; in_projected_unit := Some unit;
                               in_runtime_metadata := None;
                               in_claim_estimate := di_claim_estimate inputs |};
          dr_idempotency := Some {| idem_key := idempotency_key; idem_request_hash := EmptyString |};
          dr_planned_steps_hint := 0;
          dr_reservation_source := 0 |}.

(** ** The proxy's state *)

Record AppState := {
  app_tenant_id : string;
  app_pricing_cache : bool;
  app_output_predictor : bool;
  app_run_cost_projector : bool;
  app_env : string -> option string;
}.

(** [PricingCache::get_fresh] and [read_pricing_snapshot]. *)
Definition read_pricing_snapshot {D} : Eg D (result string PricingSnapshot) :=
  meta ← actE FileMetadata;
  contents ← actE FileRead;
  retE (text ← contents; pricing ← pricing_of_env text;
        mret {| ps_pricing := pricing; ps_mtime := mjoin meta |}).

Definition get_fresh {D} : Eg D PricingFreeze :=
  cached ← actE PricingLoad;
  meta ← actE FileMetadata;
  match meta with
  | None => retE (ps_pricing cached)
  | Some on_disk_mtime =>
      if decide (on_disk_mtime = ps_mtime cached) then retE (ps_pricing cached)
      else
        read ← read_pricing_snapshot;
        match read with
        | Ok fresh => _ ← actE (PricingStore fresh); retE (ps_pricing fresh)
        | Err _ => retE (ps_pricing cached)
        end
  end.

Definition estimate_call_cost {D} (app : AppState) (inputs : EstimateInputs) : Eg D ClaimEstimate :=
  tok ← actE (Tokenize {| tq_model := ei_model inputs;
                          tq_messages := serialize_messages_for_tokenizer (ei_body inputs);
                          tq_raw_text := EmptyString; tq_request_id := ei_decision_id inputs |});
  let tok_resp := match tok with
                  | Ok r => r
                  | Err _ => {| tr_input_tokens := 0; tr_tier := "T3"; tr_tokenizer_version_id := EmptyString |}
                  end in
  let input_tokens := input_tokens_with_override tok_resp (ei_header_override_tokens inputs) in
  let prompt_class := classify_prompt (ei_body inputs) in
  let max_tokens_requested :=
    default 0 (match jget "max_tokens" (ei_body inputs) with
               | Some v => Some v
               | None => jget "max_output_tokens" (ei_body inputs)
               end ≫= j_i64) in
  let model_context_window := lookup_model_context_window (ei_model inputs) in
  let predict_req :=
    {| rq_tenant_id := ei_tenant_id inputs; rq_model := ei_model inputs; rq_agent_id := ei_agent_id inputs;
       rq_prompt_class := prompt_class; rq_input_tokens := input_tokens;
       rq_max_tokens_requested := max_tokens_requested; rq_model_context_window := model_context_window;
       rq_prediction_policy := ei_prediction_policy inputs; rq_decision_id := ei_decision_id inputs;
       rq_run_id := ei_run_id inputs; rq_prompt_class_fingerprint := EmptyString |} in
  let strategy_a_local :=
    compute_strategy_a_local input_tokens max_tokens_requested model_context_window in
  predict_result ← (if app_output_predictor app then actE (CallPredict predict_req)
                    else retE (Err "output_predictor client not configured"));
  project_result ←
    (if app_run_cost_projector app then
       actE (CallProject
         {| Proto.pq_tenant_id := ei_tenant_id inputs; Proto.pq_run_id := ei_run_id inputs;
            Proto.pq_agent_id := ei_agent_id inputs; Proto.pq_model := ei_model inputs; Proto.pq_step_id := ei_step_id inputs;
            Proto.pq_decision_id := ei_decision_id inputs; Proto.pq_this_call_reservation_atomic := strategy_a_local;
            Proto.pq_unit_id := EmptyString; Proto.pq_budget_remaining_atomic := i64_max;
            Proto.pq_planned_steps_hint := ei_planned_steps_hint inputs; Proto.pq_planned_tools_hint := 0 |})
     else retE (Err "projector client not configured"));
  let project := match project_result with Ok p => Some p | Err _ => None end in
  retE (match predict_result with
        | Ok p => build_estimate_from_predictor tok_resp input_tokens (ei_model inputs) prompt_class
                    (ei_prediction_policy inputs) p project
        | Err _ => build_estimate_fallback_a (tr_tier tok_resp) (tr_tokenizer_version_id tok_resp)
                     input_tokens (ei_model inputs) prompt_class strategy_a_local
                     (ei_prediction_policy inputs) project
        end).

(** The amount to reserve: the chosen strategy's prediction. *)
Definition reserved_tokens (e : ClaimEstimate) : Z :=
  if (est_reserved_strategy e =?s "B") && (0 <? est_predicted_b_tokens e) then est_predicted_b_tokens e
  else if (est_reserved_strategy e =?s "C") && (0 <? est_predicted_c_tokens e) then est_predicted_c_tokens e
  else Z.max (est_predicted_a_tokens e) 1.

(** ** Settlement *)

(** What is kept from the decision for the settlement. *)
Record PostCtx := {
  pc_session_id : string;
  pc_run_id : string;
  pc_step_id : string;
  pc_llm_call_id : string;
  pc_decision_id : string;
  pc_effect_hash : string;
  pc_reservation_id : string;
  pc_unit : UnitRef;
  pc_pricing : PricingFreeze;
}.

Definition build_commit_payload (reservation_id : string) (unit : UnitRef) (usage_tokens : Z)
    : LlmCallPostPayload :=
  {| lp_reservation_id := reservation_id; lp_provider_reported_amount_atomic := EmptyString;
     lp_unit := Some unit; lp_pricing := None; lp_provider_event_id := EmptyString;
     lp_outcome := LLM_SUCCESS; lp_estimated_amount_atomic := z_str usage_tokens;
     lp_actual_input_tokens := None; lp_actual_output_tokens := None;
     lp_delta_b_ratio := None; lp_delta_c_ratio := None |}.

Definition build_release_payload (reservation_id : string) (unit : UnitRef) (outcome : Z)
    : LlmCallPostPayload :=
  {| lp_reservation_id := reservation_id; lp_provider_reported_amount_atomic := EmptyString;
     lp_unit := Some unit; lp_pricing := None; lp_provider_event_id := EmptyString;
     lp_outcome := outcome; lp_estimated_amount_atomic := EmptyString;
     lp_actual_input_tokens := None; lp_actual_output_tokens := None;
     lp_delta_b_ratio := None; lp_delta_c_ratio := None |}.

(** The event around a payload; the seconds and the nanoseconds of its time are two
    readings of the clock. *)
Definition post_event {D} (c : PostCtx) (payload : LlmCallPostPayload) : Eg D TraceEvent :=
  t ← actE Clock;
  t' ← actE Clock;
  retE {| te_session_id := pc_session_id c;
          te_ids := Some {| ids_run_id := pc_run_id c; ids_step_id := pc_step_id c;
                            ids_llm_call_id := pc_llm_call_id c; ids_tool_call_id := EmptyString;
                            ids_decision_id := pc_decision_id c |};
          te_kind := EVENT_LLM_CALL_POST;
          te_event_time := Some {| seconds := t / NANOS; nanos := t' mod NANOS |};
          te_llm_call_post := Some payload |}.

Definition commit_on_success (c : PostCtx) (usage_tokens : Z) : Eg string unit :=
  event ← post_event c (build_commit_payload (pc_reservation_id c) (pc_unit c) usage_tokens);
  _ ← callE (EmitTraceEvents event);
  _ ← callE ReadAck;
  _ ← callE (ConfirmPublishOutcome
               {| po_session_id := pc_session_id c; po_decision_id := pc_decision_id c;
                  po_effect_hash := pc_effect_hash c; po_outcome := OUTCOME_APPLIED;
                  po_adapter_error := EmptyString |});
  retE tt.

Definition COMMIT_RETRY_ATTEMPTS : nat := 2.
Definition COMMIT_RETRY_BACKOFF : Z := millis 50.

(** [more]: the attempts after this one. *)
Fixpoint commit_attempts (c : PostCtx) (usage_tokens : Z) (more : nat) (backoff : Z) : Eg string unit :=
  r ← tried (commit_on_success c usage_tokens);
  match r with
  | Ok _ => retE tt
  | Err e => match more with
             | O => failE e
             | S more => _ ← actE (Sleep backoff); commit_attempts c usage_tokens more (backoff * 2)
             end
  end.

Definition commit_on_success_with_retry (c : PostCtx) (usage_tokens : Z) : Eg string unit :=
  commit_attempts c usage_tokens COMMIT_RETRY_ATTEMPTS COMMIT_RETRY_BACKOFF.

Definition release_on_upstream_error {D} (c : PostCtx) (outcome : Z) : Eg D unit :=
  event ← post_event c (build_release_payload (pc_reservation_id c) (pc_unit c) outcome);
  sent ← actE (EmitTraceEvents event);
  match sent with
  | Ok _ => _ ← actE ReadAck; retE tt
  | Err _ => retE tt
  end.

Definition release_on_proxy_internal_error {D} (c : PostCtx) : Eg D unit :=
  _ ← actE (ConfirmPublishOutcome
              {| po_session_id := pc_session_id c; po_decision_id := pc_decision_id c;
                 po_effect_hash := pc_effect_hash c; po_outcome := OUTCOME_APPLY_FAILED;
                 po_adapter_error := "proxy-internal commit failure" |});
  retE tt.

(** ** The handler *)

Definition env_flag (env : string -> option string) (name : string) : bool :=
  match env name with Some v => (v =?s "true") || (v =?s "1") | None => false end.

(** [resolve_budget_id], [resolve_window_instance_id] and [resolve_unit_id]. *)
Definition resolve_id (env : string -> option string) (headers : HeaderMap) (name var : string) : string :=
  default EmptyString (match header headers name with Some v => Some v | None => env var end).

Definition resolve_budget_id env headers : string :=
  resolve_id env headers "x-spendguard-budget-id" "SPENDGUARD_PROXY_DEFAULT_BUDGET_ID".
Definition resolve_window_instance_id env headers : string :=
  resolve_id env headers "x-spendguard-window-instance-id" "SPENDGUARD_PROXY_DEFAULT_WINDOW_INSTANCE_ID".
Definition resolve_unit_id env headers : string :=
  resolve_id env headers "x-spendguard-unit-id" "SPENDGUARD_PROXY_DEFAULT_UNIT_ID".

Definition header_int (headers : HeaderMap) (name : string) : option Z := header headers name ≫= parse_i64.

Definition parse_usage_tokens (body : bytes) : option Z :=
  v ← json_from_slice (string_of_list_ascii body);
  u ← jget "usage" v;
  t ← jget "total_tokens" u;
  j_i64 t.

Definition resolve_upstream_url (env : string -> option string) (api_kind : ApiKind) : string :=
  let base := match env "SPENDGUARD_PROXY_OPENAI_BASE_URL" with
              | Some s => let s := trim_end_char "/"%char (trim s) in if is_empty s then None else Some s
              | None => None
              end in
  match base with
  | Some base_url =>
      base_url +:+ "/" +:+ match api_kind with ChatCompletions => "chat/completions" | Responses => "responses" end
  | None =>
      match api_kind with
      | ChatCompletions => match route "/v1/chat/completions" with
                           | Some cfg => upstream_url_for cfg "/v1/chat/completions"
                           | None => "https://api.openai.com/v1/chat/completions"
                           end
      | Responses => match route "/v1/responses" with
                     | Some cfg => upstream_url_for cfg "/v1/responses"
                     | None => "https://api.openai.com/v1/responses"
                     end
      end
  end.

Definition is_streaming (parsed : json) : bool := default false (jget "stream" parsed ≫= j_bool).

(** The body that goes upstream: the client's bytes, except that a streamed chat
    request asks for its usage. *)
Definition body_for_upstream (api_kind : ApiKind) (parsed : json) (body : string) : result ForwardError string :=
  if is_streaming parsed && needs_include_usage_injection api_kind then
    match parsed with
    | JObj opts_obj =>
        match default (JObj []) (al_get "stream_options" opts_obj) with
        | JObj stream_options_obj =>
            let already_set := default false (al_get "include_usage" stream_options_obj ≫= j_bool) in
            let stream_options_obj := if already_set then stream_options_obj
                                      else obj_insert "include_usage" (JBool true) stream_options_obj in
            Ok (json_to_vec (JObj (obj_insert "stream_options" (JObj stream_options_obj) opts_obj)))
        | _ => Err (MalformedJson "stream_options is not an object")
        end
    | _ => Err (MalformedJson "body root not an object")
    end
  else Ok body.

(** The tenant: another than the proxy's own only for a proxy of many tenants. *)
Definition resolve_tenant (app : AppState) (headers : HeaderMap) : result ForwardError string :=
  match header headers "x-spendguard-tenant-id" with
  | Some header_tid =>
      if header_tid =?s app_tenant_id app then Ok (app_tenant_id app)
      else if env_flag (app_env app) "SPENDGUARD_PROXY_MULTI_TENANT" then Ok header_tid
      else Err TenantSpoofing
  | None => Ok (app_tenant_id app)
  end.

Definition header_override (app : AppState) (headers : HeaderMap) : option Z :=
  if env_flag (app_env app) "SPENDGUARD_PROXY_TRUST_ESTIMATE_HEADER"
  then header_int headers "x-spendguard-estimated-tokens"
  else None.

Definition parse_i32 (s : string) : option Z :=
  v ← parse_signed s; if is_i32 v then Some v else None.

Definition planned_steps_hint_of (headers : HeaderMap) : Z :=
  Z.max (default 0 (header headers "x-spendguard-planned-steps-hint" ≫= parse_i32)) 0.

Definition model_of (api_kind : ApiKind) (parsed : json) : string :=
  match route (inbound_path api_kind) with
  | Some cfg => resolve_model_id cfg (inbound_path api_kind) parsed
  | None => parse_model_family parsed
  end.

(** [Decision::try_from]. *)
Inductive DecisionKind :=
  | DUnspecified | DContinue | DDegrade | DSkip | DStop | DRequireApproval | DStopRunProjection.

Definition decision_of (z : Z) : DecisionKind :=
  match z with
  | 1 => DContinue | 2 => DDegrade | 3 => DSkip | 4 => DStop | 5 => DRequireApproval
  | 6 => DStopRunProjection | _ => DUnspecified
  end.

(** Only CONTINUE goes on. *)
Definition admit_decision (resp : DecisionResponse) : result ForwardError unit :=
  match decision_of (rs_decision resp) with
  | DContinue => Ok tt
  | DStop | DStopRunProjection =>
      Err (Blocked (rs_decision_id resp) (rs_reason_codes resp) (rs_matched_rule_ids resp))
  | DRequireApproval | DDegrade => Err (UnsupportedDecision (rs_decision_id resp) (rs_reason_codes resp))
  | DSkip => Err (Skipped (rs_decision_id resp))
  | DUnspecified => Err (SidecarUnavailable ("unknown decision variant: " +:+ z_str (rs_decision resp)))
  end.

(** The client names itself when the request does not: [ForwardState::new] and the
    [version] of Cargo.toml. The other headers of reqwest's own making (Host, Accept,
    Content-Length) are not modelled. *)
Definition USER_AGENT : string := "spendguard-egress-proxy/0.1.0-alpha".

Definition with_user_agent (sent : HeaderMap) : HeaderMap :=
  match al_get "user-agent" sent with
  | Some _ => sent
  | None => sent ++ [("user-agent", USER_AGENT)]
  end.

Definition upstream_request (app : AppState) (api_kind : ApiKind) (headers : HeaderMap) (auth body : string)
    : UpstreamRequest :=
  {| ur_url := resolve_upstream_url (app_env app) api_kind;
     ur_headers := with_user_agent
                     ([("content-type", "application/json"); ("authorization", auth)]
                      ++ List.filter (fun h => should_forward_header h.1) headers);
     ur_body := body |}.

Definition post_ctx (run_id : string) (inputs : DecisionInputs) (req : DecisionRequest)
    (resp : DecisionResponse) (pricing : PricingFreeze) : PostCtx :=
  let ids := default {| ids_run_id := EmptyString; ids_step_id := EmptyString; ids_llm_call_id := EmptyString;
                        ids_tool_call_id := EmptyString; ids_decision_id := EmptyString |} (dr_ids req) in
  {| pc_session_id := "egress-proxy:" +:+ run_id; pc_run_id := ids_run_id ids;
     pc_step_id := ids_step_id ids; pc_llm_call_id := ids_llm_call_id ids;
     pc_decision_id := rs_decision_id resp; pc_effect_hash := rs_effect_hash resp;
     pc_reservation_id := default EmptyString (head (rs_reservation_ids resp));
     pc_unit := token_unit (di_unit_id inputs) (di_model_family inputs); pc_pricing := pricing |}.

(** What a handler that has answered left running: the parser and the commit task of
    a stream. *)
Record Detached := {
  dt_ctx : PostCtx;
  dt_api_kind : ApiKind;
  dt_reserved_estimate : Z;
}.

(** ** After the send: the answer of the upstream decides the settlement *)

Definition is_sse (head : UpstreamHead) : bool :=
  match header (uh_headers head) "content-type" with
  | Some ct => starts_with "text/event-stream" ct
  | None => false
  end.

Definition after_send (api_kind : ApiKind) (streaming : bool) (c : PostCtx) (estimated_tokens : Z)
    (sent : result string UpstreamHead) : Eg ForwardError (HttpResponse * option Detached) :=
  match sent with
  | Err e => _ ← release_on_upstream_error c LLM_PROVIDER_ERROR; failE (UpstreamFailed e)
  | Ok head =>
      if streaming && is_sse head && http_success (uh_status head) then
        retE (sse_response head,
              Some {| dt_ctx := c; dt_api_kind := api_kind; dt_reserved_estimate := estimated_tokens |})
      else if negb streaming && is_sse head then
        _ ← release_on_upstream_error c LLM_PROVIDER_ERROR;
        failE (UnexpectedContentType (default EmptyString (header (uh_headers head) "content-type")))
      else
        read ← actE ReadBody;
        match read with
        | Err e => failE (UpstreamFailed e)
        | Ok upstream_body =>
            if negb (http_success (uh_status head)) then
              _ ← release_on_upstream_error c LLM_PROVIDER_ERROR;
              retE (build_passthrough head upstream_body, None)
            else
              let usage_tokens := default estimated_tokens (parse_usage_tokens upstream_body) in
              _ ← tried (commit_on_success_with_retry c usage_tokens);
              retE (build_passthrough head upstream_body, None)
        end
  end.

(** The handler up to the send: what will be sent, and what the settlement needs. *)
Record Prepared := {
  pp_request : UpstreamRequest;
  pp_ctx : PostCtx;
  pp_is_streaming : bool;
  pp_estimated_tokens : Z;
}.

Definition prepare_request (app : AppState) (headers : HeaderMap) (body : string) (api_kind : ApiKind)
    : Eg ForwardError Prepared :=
  _ ← liftE (ensure (slen body <=? MAX_BODY_BYTES) (BodyTooLarge (slen body) MAX_BODY_BYTES));
  parsed ← liftE (ok_or (json_from_slice body) (MalformedJson (json_error body)));
  upstream_body ← liftE (body_for_upstream api_kind parsed body);
  auth ← liftE (ok_or (header headers "authorization") MissingAuth);
  run_id ← match header headers "x-spendguard-run-id" with
           | Some r => retE r
           | None => u ← actE NewUuid; retE (uuid_str u)
           end;
  tenant_id ← liftE (resolve_tenant app headers);
  let budget_id := resolve_budget_id (app_env app) headers in
  let window_instance_id := resolve_window_instance_id (app_env app) headers in
  let unit_id := resolve_unit_id (app_env app) headers in
  let model_str := model_of api_kind parsed in
  preview ← actE NewUuid;
  claim_estimate ← estimate_call_cost app
    {| ei_body := parsed; ei_model := model_str; ei_tenant_id := tenant_id;
       ei_agent_id := default EmptyString (header headers "x-spendguard-agent-id");
       ei_run_id := run_id; ei_decision_id := uuid_str preview; ei_step_id := run_id +:+ ":call:preview";
       ei_prediction_policy := "STRICT_CEILING"; ei_header_override_tokens := header_override app headers;
       ei_planned_steps_hint := planned_steps_hint_of headers |};
  let inputs :=
    {| di_tenant_id := tenant_id; di_budget_id := budget_id; di_window_instance_id := window_instance_id;
       di_run_id := run_id; di_body_bytes := body; di_model_family := model_str;
       di_estimated_tokens := reserved_tokens claim_estimate; di_unit_id := unit_id;
       di_explicit_idempotency_key := header headers "x-spendguard-idempotency-key";
       di_claim_estimate := Some claim_estimate |} in
  _ ← liftE (ensure (negb (is_empty budget_id || is_empty window_instance_id || is_empty unit_id))
               MissingIdentification);
  built ← tried (build_decision_request inputs);
  decision_req ← liftE (match built with Ok r => Ok r | Err e => Err (Internal e) end);
  answer ← actE (RequestDecision decision_req);
  decision_resp ← liftE (match answer with Ok r => Ok r | Err status => Err (SidecarUnavailable status) end);
  _ ← liftE (admit_decision decision_resp);
  pricing ← (if app_pricing_cache app then get_fresh else retE default_pricing);
  retE {| pp_request := upstream_request app api_kind headers auth upstream_body;
          pp_ctx := post_ctx run_id inputs decision_req decision_resp pricing;
          pp_is_streaming := is_streaming parsed;
          pp_estimated_tokens := di_estimated_tokens inputs |}.

Definition forward_openai_request (app : AppState) (headers : HeaderMap) (body : string) (api_kind : ApiKind)
    : Eg ForwardError (HttpResponse * option Detached) :=
  prepared ← prepare_request app headers body api_kind;
  sent ← actE (SendUpstream (pp_request prepared));
  after_send api_kind (pp_is_streaming prepared) (pp_ctx prepared) (pp_estimated_tokens prepared) sent.

(** ** Behind a stream: the parser's outcome decides the settlement *)

Definition commit_tokens_of (reserved_estimate : Z) (usage : option UsageOutcome) : option Z :=
  match usage with
  | Some (Parsed tokens) => Some tokens
  | Some ClosedNoUsage => Some (Z.max reserved_estimate 1)
  | Some Errored | None => None
  end.

Definition stream_tasks {D} (d : Detached) : Eg D unit :=
  received ← actE TeeStream;
  let usage := parse_usage_from_sse_stream (dt_api_kind d) <$> received in
  match commit_tokens_of (dt_reserved_estimate d) usage with
  | Some tokens =>
      r ← tried (commit_on_success (dt_ctx d) tokens);
      match r with
      | Ok _ => retE tt
      | Err _ => release_on_proxy_internal_error (dt_ctx d)
      end
  | None => release_on_upstream_error (dt_ctx d) LLM_PROVIDER_ERROR
  end.

(** A request from its arrival to the end of its tasks; [chat_completions] and
    [responses] are its two kinds. *)
Definition serve_openai (app : AppState) (headers : HeaderMap) (body : string) (api_kind : ApiKind)
    : Eg ForwardError HttpResponse :=
  answered ← forward_openai_request app headers body api_kind;
  let '(response, detached) := answered in
  match detached with
  | None => retE response
  | Some d => _ ← stream_tasks d; retE response
  end.

End Proxy.
