(* ===== verification/EgressRun.v ===== *)
(** * What the egress proxy forwards, and how it settles

    Theorems about [Egress.serve_openai]: nothing goes upstream but a request that
    the sidecar answered with CONTINUE, and what follows the answer of the upstream
    is the settlement of the reservation. [EgressDemo] runs requests. *)

From S2P Require Import Prelude Floats Deps Effects Proto Canonical Predict Sse Routing Egress.

Section Facts.
Context `{HU : UuidLib} `{HC : CryptoLib} {HX : HexLib} {HUB : UuidBytes} `{HJ : JsonLib} `{HB : Blake2Lib}.
Context (json_error : string -> string).

Abbreviation serve := (serve_openai json_error).
Abbreviation forward := (forward_openai_request json_error).

(** ** What a request does to the outside *)

Inductive act :=
  | ADecided (req : DecisionRequest) (answer : result string DecisionResponse)
  | ASent (req : UpstreamRequest) (answer : result string UpstreamHead)
  | ARead (answer : result string bytes)
  | AStreamed (answer : option (list (result string bytes)))
  | APosted (reservation_id : string) (outcome : Z) (amount : string)
  | AConfirmed (decision_id : string) (outcome : Z).

Definition act_of (ev : event egressE) : option act :=
  match ev with
  | Ev e x =>
      match e in egressE X return X -> option act with
      | RequestDecision req => fun x => Some (ADecided req x)
      | SendUpstream q => fun x => Some (ASent q x)
      | ReadBody => fun x => Some (ARead x)
      | TeeStream => fun x => Some (AStreamed x)
      | EmitTraceEvents ev => fun _ =>
          (fun p => APosted (lp_reservation_id p) (lp_outcome p) (lp_estimated_amount_atomic p))
            <$> te_llm_call_post ev
      | ConfirmPublishOutcome req => fun _ => Some (AConfirmed (po_decision_id req) (po_outcome req))
      | _ => fun _ => None
      end x
  end.

Definition acts (t : list (event egressE)) : list act := omap act_of t.

Lemma acts_app t t' : acts (t ++ t') = acts t ++ acts t'.
Proof. apply omap_app. Qed.

Lemma acts_decided req x t : acts (Ev (RequestDecision req) x :: t) = ADecided req x :: acts t.
Proof. done. Qed.

(** Effects that are no acts. *)
Definition silent (X : Type) (e : egressE X) : Prop := forall x, act_of (Ev e x) = None.

Lemma silent_acts {D A} (m : Eg D A) t r : all_effects silent m -> exec m t r -> acts t = [].
Proof.
  intros Hm Ht. pose proof (all_effects_exec _ _ _ _ Hm Ht) as Hs. clear Ht.
  induction Hs as [|[X e x] t He Hs IH]; [done|]. unfold acts in *. cbn [omap list_omap].
  by rewrite (He x).
Qed.

(** A silent step of an execution. *)
Lemma exec_silent {D A B} (m : Eg D A) (f : A -> Eg D B) t r :
  all_effects silent m -> exec (m ≫= f) t r ->
  (exists a t1 t2, exec m t1 (Ok a) /\ exec (f a) t2 r /\ acts t = acts t2) \/
  (acts t = [] /\ exists e, r = Err e).
Proof.
  intros Hm [(t1 & t2 & a & -> & H1 & H2)|(e & -> & H)]%exec_bind; [left|right].
  - exists a, t1, t2. by rewrite acts_app, (silent_acts _ _ _ Hm H1).
  - by rewrite (silent_acts _ _ _ Hm H); eauto.
Qed.

Lemma silent_lift {D A} (x : result D A) : all_effects silent (liftE x : Eg D A).
Proof. done. Qed.

Lemma silent_ret {D A} (a : A) : all_effects silent (retE a : Eg D A).
Proof. done. Qed.

Lemma silent_act {D A} (e : egressE A) : silent A e -> all_effects silent (actE e : Eg D A).
Proof. by split. Qed.

Lemma silent_bind {D A B} (m : Eg D A) (f : A -> Eg D B) :
  all_effects silent m -> (forall a, all_effects silent (f a)) -> all_effects silent (m ≫= f).
Proof. apply all_effects_bind. Qed.

Lemma silent_estimate {D} app inputs : all_effects silent (estimate_call_cost app inputs : Eg D ClaimEstimate).
Proof.
  unfold estimate_call_cost. repeat (apply silent_bind; [|intros ?]); try done.
  all: case_match; try done.
Qed.

Lemma silent_fresh {D} : all_effects silent (get_fresh : Eg D PricingFreeze).
Proof.
  unfold get_fresh, read_pricing_snapshot. apply silent_bind; [done|intros cached].
  apply silent_bind; [done|intros [m|]]; [|done]. case_decide; [done|].
  apply silent_bind; [|intros [fresh|e]; [|done]].
  - repeat (apply silent_bind; [done|intros ?]). done.
  - apply silent_bind; [done|by intros ?].
Qed.

Lemma silent_build inputs : all_effects silent (build_decision_request inputs).
Proof.
  unfold build_decision_request, idempotency_key_of. apply silent_bind; [done|intros j].
  apply silent_bind; [done|intros u]. apply silent_bind; [|by intros ?].
  repeat case_match; try done; (apply silent_bind; [done|by intros ?]).
Qed.

Lemma silent_tried {D D' A} (m : Eg D A) :
  all_effects silent m -> all_effects silent (tried m : Eg D' (result D A)).
Proof. intros Hm. by apply all_effects_pbind. Qed.

Lemma exec_tried {D D' A} (m : Eg D A) t r :
  exec (tried m : Eg D' (result D A)) t r <-> exists x, r = Ok x /\ exec m t x.
Proof.
  unfold tried. rewrite exec_pbind. split.
  - intros (t1 & t2 & x & -> & H & -> & ->). rewrite app_nil_r. eauto.
  - intros (x & -> & H). exists t, [], x. by rewrite app_nil_r.
Qed.

Lemma exec_lift_ok {D A B} (x : result D A) (f : A -> Eg D B) t r :
  exec (liftE x ≫= f) t r <->
  match x with Ok a => exec (f a) t r | Err e => t = [] /\ r = Err e end.
Proof. by destruct x. Qed.

Lemma exec_ret_bind {D A B} (a : A) (f : A -> Eg D B) t r : exec (retE a ≫= f) t r <-> exec (f a) t r.
Proof. done. Qed.

Lemma exec_act_bind {D A B} (e : egressE A) (f : A -> Eg D B) t r :
  exec (actE e ≫= f) t r <-> exists x t', t = Ev e x :: t' /\ exec (f x) t' r.
Proof. done. Qed.

(** ** Settlements *)

(** One attempt at a commit: the post, and if that went through the confirmation. *)
Definition attempt_acts (c : PostCtx) (usage : Z) (l : list act) : Prop :=
  let post := APosted (pc_reservation_id c) LLM_SUCCESS (z_str usage) in
  l = [post] \/ l = [post; AConfirmed (pc_decision_id c) OUTCOME_APPLIED].

Lemma commit_acts c usage t r :
  exec (commit_on_success c usage) t r -> attempt_acts c usage (acts t) /\ (is_ok r = true -> length (acts t) = 2%nat).
Proof.
  unfold attempt_acts. intros (t0 & t1 & -> & t0' & t2 & -> & x & t3 & -> & H).
  destruct x as [[]|e]; [|destruct H as [-> ->]; by split; [left|]].
  destruct H as (a & t4 & -> & H). destruct a as [a|e]; [|destruct H as [-> ->]; by split; [left|]].
  destruct H as (p & t5 & -> & H). destruct p as [p|e]; destruct H as [-> ->]; by split; [right|].
Qed.

(** The retries: one to [n] attempts. *)
Definition attempts_acts (c : PostCtx) (usage : Z) (n : nat) (l : list act) : Prop :=
  exists attempts, l = concat attempts /\ (1 <= length attempts <= n)%nat /\
    Forall (attempt_acts c usage) attempts.

Lemma attempts_exec c usage more backoff t r :
  exec (commit_attempts c usage more backoff) t r -> attempts_acts c usage (S more) (acts t).
Proof.
  revert backoff t; induction more as [|more IH]; intros backoff t; cbn [commit_attempts];
    intros [(t1 & t2 & [[]|e] & -> & (x & [= <-] & [Ha _]%commit_acts)%exec_tried & H)|
            (e & _ & (x & [=] & _)%exec_tried)]%exec_bind; rewrite acts_app.
  1,2,3: destruct H as [-> ->]; rewrite app_nil_r; exists [acts t1]; cbn; rewrite app_nil_r;
    (split; [done|]); (split; [lia|]); by constructor.
  apply exec_act_bind in H as ([] & t3 & -> & (attempts & Hc & Hn & Hf)%IH).
  exists (acts t1 :: attempts). cbn. rewrite <- Hc. split; [done|]. split; [lia|]. by constructor.
Qed.

Definition release_acts (c : PostCtx) : list act := [APosted (pc_reservation_id c) LLM_PROVIDER_ERROR EmptyString].

Lemma release_exec {D} c t (r : result D unit) :
  exec (release_on_upstream_error c LLM_PROVIDER_ERROR) t r -> acts t = release_acts c /\ r = Ok tt.
Proof.
  intros (t0 & t1 & -> & t0' & t2 & -> & x & t3 & -> & H).
  destruct x as [[]|e]; [|by destruct H as [-> ->]]. by destruct H as (a & t4 & -> & -> & ->).
Qed.

Lemma release_internal_exec {D} c t (r : result D unit) :
  exec (release_on_proxy_internal_error c) t r ->
  acts t = [AConfirmed (pc_decision_id c) OUTCOME_APPLY_FAILED] /\ r = Ok tt.
Proof. by intros (x & t1 & -> & -> & ->). Qed.

(** ** What an answer says

    Read off the documents and the head, without the proxy's own readers. *)

Definition member (k : string) (j v : json) : Prop := exists o, j = JObj o /\ al_get k o = Some v.

Definition says_total (j : json) (n : Z) : Prop :=
  exists u, member "usage" j u /\ member "total_tokens" u (JInt n) /\ i64_min <= n <= i64_max.

Definition body_reports (body : bytes) (n : Z) : Prop :=
  exists j, json_from_slice (string_of_list_ascii body) = Some j /\ says_total j n.

Definition event_reports (api_kind : ApiKind) (event : bytes) (n : Z) : Prop :=
  exists j, event_json event = Some j /\
    match api_kind with
    | ChatCompletions => says_total j n
    | Responses => exists r, member "response" j r /\ says_total r n
    end.

Definition succeeded (head : UpstreamHead) : Prop := 200 <= uh_status head < 300.

Definition event_stream (head : UpstreamHead) : Prop :=
  exists ct, al_get "content-type" (uh_headers head) = Some ct /\ starts_with "text/event-stream" ct = true /\
    Forall (fun c => 32 <= byte_of c < 127 \/ byte_of c = 9) (list_ascii_of_string ct).

(** What is charged for an answer: its total, or else what was reserved. *)
Definition answer_charge (reserved : Z) (body : bytes) (n : Z) : Prop :=
  body_reports body n \/ (forall m, ~ body_reports body m) /\ n = reserved.

(** What is charged for a stream that ended: the total that the last event of its
    text to report one reports, or else what was reserved, at least 1. *)
Definition stream_charge (api_kind : ApiKind) (reserved : Z) (chunks : list bytes) (n : Z) : Prop :=
  let events := (scan_events [] (concat chunks)).1 in
  (exists before event after, events = before ++ event :: after /\ event_reports api_kind event n /\
     Forall (fun e => forall m, ~ event_reports api_kind e m) after) \/
  Forall (fun e => forall m, ~ event_reports api_kind e m) events /\ n = Z.max reserved 1.

Lemma jget_member k j v : jget k j = Some v <-> member k j v.
Proof.
  unfold member. destruct j; cbn; try (split; [done|by intros (? & [=] & _)]).
  split; [eauto|]. by intros (? & [= <-] & ?).
Qed.

Lemma j_i64_int t n : j_i64 t = Some n <-> t = JInt n /\ i64_min <= n <= i64_max.
Proof.
  destruct t; cbn; try (split; [done|by intros [[=] _]]).
  destruct (is_i64 z) eqn:Hz; unfold is_i64 in Hz; split.
  - intros [= <-]. split; [done|]. apply andb_true_iff in Hz. lia.
  - by intros [[= ->] _].
  - done.
  - intros [[= ->] Hn]. apply andb_false_iff in Hz. lia.
Qed.

Lemma total_says j n :
  (u ← jget "usage" j; t ← jget "total_tokens" u; j_i64 t) = Some n <-> says_total j n.
Proof.
  unfold says_total. rewrite bind_Some. split.
  - intros (u & Hu%jget_member & (t & Ht%jget_member & [-> Hn]%j_i64_int)%bind_Some). eauto.
  - intros (u & Hu%jget_member & Ht%jget_member & Hn). exists u. split; [done|]. apply bind_Some.
    exists (JInt n). split; [done|]. by apply j_i64_int.
Qed.

Lemma usage_reports body n : parse_usage_tokens body = Some n <-> body_reports body n.
Proof.
  unfold parse_usage_tokens, body_reports. rewrite bind_Some. by setoid_rewrite total_says.
Qed.

Lemma event_usage_reports k event n : event_usage k event = Some n <-> event_reports k event n.
Proof.
  destruct k; unfold event_reports; cbn;
    unfold parse_usage_from_event, parse_usage_from_responses_event; rewrite bind_Some.
  - by setoid_rewrite total_says.
  - setoid_rewrite bind_Some. setoid_rewrite jget_member at 1. by setoid_rewrite total_says.
Qed.

Lemma answer_charged reserved body : answer_charge reserved body (default reserved (parse_usage_tokens body)).
Proof.
  unfold answer_charge. destruct (parse_usage_tokens body) as [n|] eqn:Hn; cbn.
  - left. by apply usage_reports.
  - right. split; [|done]. intros m Hm%usage_reports. congruence.
Qed.

Lemma none_reports k events :
  omap (event_usage k) events = [] <-> Forall (fun e => forall m, ~ event_reports k e m) events.
Proof.
  induction events as [|e events IH]; [done|]. rewrite Forall_cons, <- IH. cbn.
  destruct (event_usage k e) as [n|] eqn:He.
  - split; [done|]. intros [Hno _]. by apply event_usage_reports, Hno in He.
  - split; [|by intros [_ ?]]. intros ?. split; [|done]. intros m Hm%event_usage_reports. congruence.
Qed.

Lemma stream_charged k reserved chunks n :
  commit_tokens_of reserved (Some (match last_reported k (concat chunks) with
                                   | Some tokens => Parsed tokens | None => ClosedNoUsage end)) = Some n ->
  stream_charge k reserved chunks n.
Proof.
  unfold last_reported, stream_charge. cbn zeta. generalize (scan_events [] (concat chunks)).1. intros events.
  induction events as [|e events IH] using rev_ind.
  { intros [= <-]. right. split; [constructor|done]. }
  rewrite omap_app. cbn. destruct (event_usage k e) as [m|] eqn:He.
  - rewrite last_snoc. intros [= ->]. left. exists events, e, []. split; [done|]. split; [|constructor].
    by apply event_usage_reports.
  - rewrite app_nil_r. intros [(b & ev & a & -> & Hev & Ha)|[Hall ->]]%IH.
    + left. exists b, ev, (a ++ [e]). rewrite <- app_assoc. split; [done|]. split; [done|].
      apply Forall_app. split; [done|]. apply none_reports. cbn. by rewrite He.
    + right. split; [|done]. apply Forall_app. split; [done|]. apply none_reports. cbn. by rewrite He.
Qed.

Lemma http_success_spec head : http_success (uh_status head) = true <-> succeeded head.
Proof. unfold http_success, succeeded. rewrite andb_true_iff. lia. Qed.

Lemma http_success_fail head : http_success (uh_status head) = false <-> ~ succeeded head.
Proof. rewrite <- http_success_spec. by destruct (http_success _). Qed.

Lemma is_sse_spec head : is_sse head = true <-> event_stream head.
Proof.
  unfold is_sse, event_stream, header, to_str.
  assert (Hv : forall ct, forallb visible (list_ascii_of_string ct) = true <->
    Forall (fun c => 32 <= byte_of c < 127 \/ byte_of c = 9) (list_ascii_of_string ct)).
  { intros ct. rewrite forallb_forall, List.Forall_forall. split; intros Hc c Hin%Hc; unfold visible in *;
      [apply orb_true_iff in Hin as [[? ?]%andb_true_iff|?]; [left|right]; lia|].
    apply orb_true_iff. rewrite andb_true_iff. destruct Hin; [left|right]; lia. }
  destruct (al_get "content-type" (uh_headers head)) as [ct|]; cbn.
  2:{ split; [done|]. by intros (? & [=] & _). }
  destruct (forallb visible (list_ascii_of_string ct)) eqn:Hct.
  - split; [|by intros (? & [= <-] & ? & _)]. intros Hs. exists ct. split_and!; [done..|]. by apply Hv.
  - split; [done|]. intros (? & [= <-] & _ & Hall). apply Hv in Hall. congruence.
Qed.

Lemma is_sse_not head : is_sse head = false <-> ~ event_stream head.
Proof. rewrite <- is_sse_spec. by destruct (is_sse head). Qed.

(** ** The settlement that an answer of the upstream leads to

    [settled c k streaming reserved sent l r]: after the answer [sent] the acts are
    [l] and the client gets [r]. Each of the cases says which answers lead to it; a
    post is one that was made, whatever became of it. *)
Inductive settled (c : PostCtx) (api_kind : ApiKind) (streaming : bool) (reserved : Z) :
    result string UpstreamHead -> list act -> result ForwardError HttpResponse -> Prop :=
  (** No answer, or a stream nobody asked for: a release is posted. *)
  | settled_unreachable e :
      settled c api_kind streaming reserved (Err e) (release_acts c) (Err (UpstreamFailed e))
  | settled_unasked head ct :
      streaming = false -> event_stream head ->
      settled c api_kind streaming reserved (Ok head) (release_acts c) (Err (UnexpectedContentType ct))
  (** An error of the provider: a release is posted, the error passed on. *)
  | settled_refused head body :
      ~ succeeded head -> (streaming = true \/ ~ event_stream head) ->
      settled c api_kind streaming reserved (Ok head) (ARead (Ok body) :: release_acts c)
        (Ok (build_passthrough head body))
  (** An answer: its total, or else the reserved amount, is posted as a commit in up to
      three attempts, and no release is; the client gets the answer in any case. *)
  | settled_answered head body n l :
      succeeded head -> ~ event_stream head -> answer_charge reserved body n -> attempts_acts c n 3 l ->
      settled c api_kind streaming reserved (Ok head) (ARead (Ok body) :: l)
        (Ok (build_passthrough head body))
  (** An answer whose body could not be read: nothing is posted. *)
  | settled_unread head e :
      ~ event_stream head \/ streaming = true /\ ~ succeeded head ->
      settled c api_kind streaming reserved (Ok head) [ARead (Err e)] (Err (UpstreamFailed e))
  (** A stream that ended: the total of its text, or else the reserved amount, is posted
      as a commit once; if that does not go through the effect is reported as failed. *)
  | settled_stream head chunks n l back :
      streaming = true -> event_stream head -> succeeded head ->
      stream_charge api_kind reserved chunks n -> attempt_acts c n l ->
      (back = [] /\ length l = 2%nat \/ back = [AConfirmed (pc_decision_id c) OUTCOME_APPLY_FAILED]) ->
      settled c api_kind streaming reserved (Ok head) (AStreamed (Some (Ok <$> chunks)) :: l ++ back)
        (Ok (sse_response head))
  (** A stream that broke, or whose parser died: a release is posted. *)
  | settled_broken head rx :
      streaming = true -> event_stream head -> succeeded head ->
      (forall rx', rx = Some rx' -> exists e, Err e ∈ rx') ->
      settled c api_kind streaming reserved (Ok head) (AStreamed rx :: release_acts c)
        (Ok (sse_response head)).

Lemma stream_text_ok rx text : stream_text rx = Some text -> exists chunks, rx = Ok <$> chunks /\ text = concat chunks.
Proof.
  unfold stream_text. intros (chunks & Hm & ->)%fmap_Some. exists chunks. split; [|done].
  revert chunks Hm; induction rx as [|[b|e] rx IH]; intros chunks; cbn; [by intros [= <-]| |done].
  destruct (mapM _ rx) as [l|]; [|done]. cbn. intros [= <-]. by rewrite (IH l eq_refl).
Qed.

Lemma stream_text_broken rx : stream_text rx = None -> exists e, Err e ∈ rx.
Proof.
  unfold stream_text. intros Hn%fmap_None. induction rx as [|[b|e] rx IH]; cbn in Hn; [done| |].
  - destruct (mapM _ rx) as [l|]; [done|]. destruct (IH eq_refl) as [e He]. exists e. by right.
  - exists e. by left.
Qed.

Lemma stream_tasks_exec {D} d t (r : result D unit) :
  exec (stream_tasks d) t r ->
  r = Ok tt /\ exists rx l, acts t = AStreamed rx :: l /\
    match commit_tokens_of (dt_reserved_estimate d) (parse_usage_from_sse_stream (dt_api_kind d) <$> rx) with
    | Some n => exists posts back, l = posts ++ back /\ attempt_acts (dt_ctx d) n posts /\
        (back = [] /\ length posts = 2%nat \/ back = [AConfirmed (pc_decision_id (dt_ctx d)) OUTCOME_APPLY_FAILED])
    | None => l = release_acts (dt_ctx d)
    end.
Proof.
  intros (rx & t1 & -> & H). cbn [pbind] in H.
  destruct (commit_tokens_of (dt_reserved_estimate d) _) as [n|] eqn:Hn.
  - apply exec_bind in H as [(t2 & t3 & a & -> & (x & [= ->] & [Ha Hl]%commit_acts)%exec_tried & H)|
                             (e & _ & (x & [=] & _)%exec_tried)].
    destruct x as [[]|e].
    + destruct H as [-> ->]. split; [done|]. exists rx, (acts t2). rewrite Hn, (app_nil_r t2). split; [done|].
      exists (acts t2), []. rewrite app_nil_r. split; [done|]. split; [done|]. left. auto.
    + apply release_internal_exec in H as [H ->]. split; [done|]. exists rx, (acts t2 ++ acts t3).
      split; [cbn; by rewrite acts_app|]. rewrite Hn. exists (acts t2), (acts t3). split; [done|]. split; [done|]. by right.
  - apply release_exec in H as [H ->]. split; [done|]. exists rx, (acts t1). split; [done|]. by rewrite Hn.
Qed.

(** What an upstream's answer does, with the tasks behind a stream. *)
Lemma after_send_exec api_kind streaming c reserved sent t1 r1 :
  exec (after_send api_kind streaming c reserved sent) t1 r1 ->
  match r1 with
  | Err e => settled c api_kind streaming reserved sent (acts t1) (Err e)
  | Ok (response, None) => settled c api_kind streaming reserved sent (acts t1) (Ok response)
  | Ok (response, Some d) =>
      acts t1 = [] /\ streaming = true /\ d = {| dt_ctx := c; dt_api_kind := api_kind; dt_reserved_estimate := reserved |} /\
      exists head, sent = Ok head /\ event_stream head /\ succeeded head /\ response = sse_response head
  end.
Proof.
  unfold after_send. destruct sent as [head|e].
  2:{ intros [(t2 & t3 & a & -> & [Ha _]%release_exec & -> & ->)|(e' & _ & [_ [=]]%release_exec)]%exec_bind.
      rewrite acts_app, Ha. constructor. }
  destruct (streaming && is_sse head && http_success (uh_status head)) eqn:Hs.
  { intros [-> ->]. apply andb_true_iff in Hs as [[-> Hsse%is_sse_spec]%andb_true_iff Hok%http_success_spec]. eauto 10. }
  destruct (negb streaming && is_sse head) eqn:Hu.
  { apply andb_true_iff in Hu as [->%negb_true_iff Hsse%is_sse_spec].
    intros [(t2 & t3 & a & -> & [Ha _]%release_exec & -> & ->)|(e' & _ & [_ [=]]%release_exec)]%exec_bind.
    rewrite acts_app, Ha. by apply settled_unasked. }
  assert (Hread : ~ event_stream head \/ streaming = true /\ ~ succeeded head).
  { rewrite <- is_sse_not, <- http_success_fail. destruct streaming, (is_sse head), (http_success (uh_status head)); auto. }
  intros (read & t2 & -> & H). cbn [pbind] in H. destruct read as [body|e]; [|destruct H as [-> ->]; by constructor].
  destruct (negb (http_success (uh_status head))) eqn:Hok.
  - apply negb_true_iff, http_success_fail in Hok. revert H.
    intros [(t3 & t4 & a & -> & [Ha _]%release_exec & -> & ->)|(e' & _ & [_ [=]]%release_exec)]%exec_bind.
    cbn. rewrite acts_app, Ha. apply settled_refused; [done|]. destruct Hread as [?|[? _]]; auto.
  - apply negb_false_iff, http_success_spec in Hok. revert H.
    intros [(t3 & t4 & a & -> & (x & _ & Hx)%exec_tried & -> & ->)|(e' & _ & (x & [=] & _)%exec_tried)]%exec_bind.
    rewrite app_nil_r. eapply (settled_answered _ _ _ _ head body _ (acts t3)); [done| |apply answer_charged|].
    { by destruct Hread as [?|[_ ?]]. }
    exact (attempts_exec c _ COMMIT_RETRY_ATTEMPTS COMMIT_RETRY_BACKOFF t3 x Hx).
Qed.

Lemma settled_stream_exec api_kind c reserved head t2 (r2 : result ForwardError unit) :
  event_stream head -> succeeded head ->
  exec (stream_tasks {| dt_ctx := c; dt_api_kind := api_kind; dt_reserved_estimate := reserved |}) t2 r2 ->
  r2 = Ok tt /\ settled c api_kind true reserved (Ok head) (acts t2) (Ok (sse_response head)).
Proof.
  intros Hsse Hok (-> & rx & l & -> & H)%stream_tasks_exec. split; [done|]. cbn in H.
  destruct rx as [rx|]; cbn [fmap option_fmap option_map] in H.
  - rewrite usage_of_chunks in H. unfold stream_usage in H.
    destruct (stream_text rx) as [text|] eqn:Ht.
    + apply stream_text_ok in Ht as (chunks & -> & ->).
      pose proof (stream_charged api_kind reserved chunks) as Hch.
      destruct (last_reported api_kind (concat chunks)) as [m|]; cbn in H, Hch;
        destruct H as (posts & back & -> & Ha & Hb); eapply settled_stream; eauto.
    + cbn in H. subst l. apply settled_broken; try done. intros rx' [= <-]. by apply stream_text_broken.
  - cbn in H. subst l. by apply settled_broken.
Qed.

(** ** What is sent *)

Lemma reserved_positive e : 1 <= reserved_tokens e.
Proof. unfold reserved_tokens. repeat case_match; try lia; b2p; lia. Qed.

(** The request [req] asks to reserve [n] tokens, in a budget. *)
Definition asks_for (n : Z) (req : DecisionRequest) : Prop :=
  1 <= n /\ exists c, in_projected_claims <$> dr_inputs req = Some [c] /\ bc_amount_atomic c = z_str n /\
    bc_direction c = DIRECTION_DEBIT /\ is_empty (bc_budget_id c) = false.

(** The client asks for a stream. *)
Definition wants_stream (parsed : json) : Prop := member "stream" parsed (JBool true).

(** [body] is the document [parsed] that asks for its usage too, all else unchanged. *)
Definition with_usage (parsed : json) (body : string) : Prop :=
  exists obj obj' options options', parsed = JObj obj /\ body = json_to_vec (JObj obj') /\
    (al_get "stream_options" obj = Some (JObj options) \/ al_get "stream_options" obj = None /\ options = []) /\
    al_get "stream_options" obj' = Some (JObj options') /\
    al_get "include_usage" options' = Some (JBool true) /\
    (forall k, k <> "stream_options" -> al_get k obj' = al_get k obj) /\
    (forall k, k <> "include_usage" -> al_get k options' = al_get k options).

(** A header of the request that goes upstream. *)
Inductive sent_header (headers : HeaderMap) (auth : string) : string * string -> Prop :=
  | sent_type : sent_header headers auth ("content-type", "application/json")
  | sent_auth : sent_header headers auth ("authorization", auth)
  | sent_own name value :
      (name, value) ∈ headers ->
      to_lower name ∈ ["openai-organization"; "openai-project"; "openai-beta"; "user-agent"; "accept"] ->
      sent_header headers auth (name, value)
  | sent_agent :
      al_get "user-agent" headers = None ->
      sent_header headers auth ("user-agent", "spendguard-egress-proxy/0.1.0-alpha").

(** What is prepared once the sidecar answered [req] with [resp]. *)
Record admitted (app : AppState) (headers : HeaderMap) (body : string) (api_kind : ApiKind)
    (req : DecisionRequest) (resp : DecisionResponse) (p : Prepared) : Prop := {
  ad_decision : rs_decision resp = 1;
  ad_claim : asks_for (pp_estimated_tokens p) req;
  ad_reservation : pc_reservation_id (pp_ctx p) = default EmptyString (head (rs_reservation_ids resp));
  ad_decision_id : pc_decision_id (pp_ctx p) = rs_decision_id resp;
  ad_headers : exists auth, al_get "authorization" headers = Some auth /\
    filter (fun h : string * string => to_lower h.1 = "authorization") (ur_headers (pp_request p)) = [("authorization", auth)] /\
    Forall (sent_header headers auth) (ur_headers (pp_request p));
  ad_private :
    Forall (fun h : string * string => starts_with "x-spendguard-" (to_lower h.1) = false) (ur_headers (pp_request p));
  ad_body : exists parsed, json_from_slice body = Some parsed /\
    (pp_is_streaming p = true <-> wants_stream parsed) /\
    (wants_stream parsed -> api_kind = ChatCompletions -> with_usage parsed (ur_body (pp_request p))) /\
    (~ wants_stream parsed \/ api_kind = Responses -> ur_body (pp_request p) = body);
}.

Lemma streaming_wanted parsed : is_streaming parsed = true <-> wants_stream parsed.
Proof.
  unfold is_streaming, wants_stream. rewrite <- jget_member.
  destruct (jget "stream" parsed) as [j|]; cbn; [|done].
  destruct j; cbn; try done. split; [by intros ->|by intros [= ->]].
Qed.

Lemma insert_get k v o : al_get k (obj_insert k v o) = Some v.
Proof. unfold obj_insert. cbn. by rewrite decide_True. Qed.

Lemma insert_get_ne k k' v o : k' <> k -> al_get k' (obj_insert k v o) = al_get k' o.
Proof. intros Hne. unfold obj_insert. cbn. rewrite decide_False by done. by rewrite al_get_remove, decide_False. Qed.

Lemma body_sent api_kind parsed body up :
  body_for_upstream api_kind parsed body = Ok up ->
  (wants_stream parsed -> api_kind = ChatCompletions -> with_usage parsed up) /\
  (~ wants_stream parsed \/ api_kind = Responses -> up = body).
Proof.
  unfold body_for_upstream. rewrite <- streaming_wanted. destruct (is_streaming parsed); cbn.
  2:{ intros [= <-]. by split. }
  destruct api_kind; cbn; [|intros [= <-]; by split].
  intros Hup. split; [intros _ _|by intros [[]|[=]]].
  destruct parsed as [| | | | | |obj]; try done. unfold with_usage.
  destruct (al_get "stream_options" obj) as [so|] eqn:Hso; cbn in Hup.
  - destruct so as [| | | | | |options]; try done. injection Hup as <-.
    eexists obj, _, options, _. split; [done|]. split; [done|]. split; [by left|].
    split; [apply insert_get|]. split; [|split; [intros; by apply insert_get_ne|]].
    + destruct (al_get "include_usage" options) as [j|] eqn:Hj; cbn; [|apply insert_get].
      destruct j; cbn; try apply insert_get. destruct b; [done|apply insert_get].
    + intros k Hk. destruct (default false _); [done|by apply insert_get_ne].
  - injection Hup as <-. eexists obj, _, [], _. split; [done|]. split; [done|]. split; [by right|].
    split; [apply insert_get|]. cbn. split; [apply insert_get|].
    split; intros k Hk; by apply insert_get_ne.
Qed.

Lemma build_asks inputs t req :
  exec (build_decision_request inputs) t (Ok req) -> 1 <= di_estimated_tokens inputs ->
  is_empty (di_budget_id inputs) = false -> asks_for (di_estimated_tokens inputs) req.
Proof.
  unfold build_decision_request. intros H Hn Hb.
  apply exec_bind_ok in H as (t1 & t2 & j & -> & _ & H).
  apply exec_bind_ok in H as (t3 & t4 & u & -> & _ & H).
  apply exec_bind_ok in H as (t5 & t6 & k & -> & _ & [-> [= ->]]). split; [done|]. cbn. eauto 10.
Qed.

Lemma forwarded_headers_private (headers : HeaderMap) :
  Forall (fun h : string * string => starts_with "x-spendguard-" (to_lower h.1) = false)
    (List.filter (fun h : string * string => should_forward_header h.1) headers).
Proof.
  apply List.Forall_forall. intros h [_ Hh]%filter_In. unfold should_forward_header in Hh.
  destruct (existsb _ _); [done|]. by destruct (starts_with _ (to_lower h.1)).
Qed.

Lemma forwarded_headers_no_auth (headers : HeaderMap) :
  filter (fun h : string * string => to_lower h.1 = "authorization") (List.filter (fun h : string * string => should_forward_header h.1) headers) = [].
Proof.
  induction headers as [|h headers IH]; [done|]. cbn [List.filter].
  destruct (should_forward_header h.1) eqn:Hh; [|done]. rewrite filter_cons_False; [done|].
  intros Ha. unfold should_forward_header in Hh. by rewrite Ha in Hh.
Qed.

(** The headers that are passed on, and the user agent. *)
Lemma agent_get (headers : HeaderMap) :
  al_get "user-agent" (List.filter (fun h : string * string => should_forward_header h.1) headers) =
    al_get "user-agent" headers.
Proof.
  induction headers as [|[k v] headers IH]; [done|]. cbn. destruct (should_forward_header k) eqn:Hk; cbn.
  - by rewrite IH.
  - rewrite decide_False; [done|]. by intros <-.
Qed.

Lemma request_headers app api_kind headers auth body :
  let sent := ur_headers (upstream_request app api_kind headers auth body) in
  let passed := List.filter (fun h : string * string => should_forward_header h.1) headers in
  sent = [("content-type", "application/json"); ("authorization", auth)] ++ passed ++
    match al_get "user-agent" headers with Some _ => [] | None => [("user-agent", USER_AGENT)] end.
Proof.
  cbn zeta. unfold upstream_request, with_user_agent. cbn [ur_headers].
  set (passed := List.filter _ headers).
  change (al_get "user-agent" ([("content-type", "application/json"); ("authorization", auth)] ++ passed))
    with (al_get "user-agent" passed). subst passed.
  rewrite <- (agent_get headers). destruct (al_get "user-agent" _); [by rewrite app_nil_r|done].
Qed.

Lemma passed_header headers auth h :
  h ∈ List.filter (fun h : string * string => should_forward_header h.1) headers -> sent_header headers auth h.
Proof.
  intros [Hin Hh]%list_elem_of_In%filter_In. destruct h as [name value]. apply sent_own; [by apply list_elem_of_In|].
  unfold should_forward_header in Hh. cbn [fst] in Hh. cbn zeta in Hh.
  destruct (existsb _ ["authorization"; _; _; _]); [done|]. destruct (starts_with _ _); [done|].
  apply existsb_exists in Hh as (x & Hx%list_elem_of_In & ->%String.eqb_eq). done.
Qed.

Lemma request_sent_headers app api_kind headers auth body :
  let sent := ur_headers (upstream_request app api_kind headers auth body) in
  filter (fun h : string * string => to_lower h.1 = "authorization") sent = [("authorization", auth)] /\
  Forall (sent_header headers auth) sent /\
  Forall (fun h : string * string => starts_with "x-spendguard-" (to_lower h.1) = false) sent.
Proof.
  cbn zeta. rewrite request_headers. split_and!.
  - rewrite !filter_app, forwarded_headers_no_auth. by destruct (al_get "user-agent" headers).
  - apply Forall_app. split; [by repeat constructor|]. apply Forall_app. split.
    + apply Forall_forall. intros h. apply passed_header.
    + destruct (al_get "user-agent" headers) eqn:Ha; constructor; [|constructor]. by apply sent_agent.
  - apply Forall_app. split; [by repeat constructor|]. apply Forall_app. split; [apply forwarded_headers_private|].
    destruct (al_get "user-agent" headers); by repeat constructor.
Qed.

Lemma prepare_exec app headers body api_kind t r :
  exec (prepare_request json_error app headers body api_kind) t r ->
  match r with
  | Err e => acts t = [] \/ exists req answer, acts t = [ADecided req answer]
  | Ok p => exists req resp, acts t = [ADecided req (Ok resp)] /\ admitted app headers body api_kind req resp p
  end.
Proof.
  unfold prepare_request. rewrite exec_lift_ok. destruct (ensure _ _) as [_|e]; [|intros [-> ->]; by left].
  rewrite exec_lift_ok. destruct (json_from_slice body) as [parsed|] eqn:Hp; cbn [ok_or];
    [|intros [-> ->]; by left].
  rewrite exec_lift_ok. destruct (body_for_upstream api_kind parsed body) as [up|e] eqn:Hup;
    [|intros [-> ->]; by left].
  rewrite exec_lift_ok. destruct (header headers "authorization") as [auth|] eqn:Hauth; cbn [ok_or];
    [|intros [-> ->]; by left].
  intros H. apply exec_silent in H as [(run_id & t1 & t2 & _ & H & ->)|[-> [e ->]]]; [|by left|].
  2:{ destruct (header headers "x-spendguard-run-id"); [apply silent_ret|]. apply silent_bind; [by apply silent_act|intros u; apply silent_ret]. }
  revert H. rewrite exec_lift_ok. destruct (resolve_tenant app headers) as [tenant|e]; [|intros [-> ->]; by left].
  intros H. apply exec_silent in H as [(preview & t3 & t4 & _ & H & ->)|[-> [e ->]]]; [|by left|done].
  apply exec_silent in H as [(est & t5 & t6 & _ & H & ->)|[-> [e ->]]]; [|by left|apply silent_estimate].
  cbn zeta in H. revert H. rewrite exec_lift_ok.
  destruct (negb _) eqn:Hids; [|intros [-> ->]; by left]. cbn [ensure].
  intros H. apply exec_silent in H as [(built & t7 & t8 & Hb & H & ->)|[-> [e ->]]];
    [|by left|apply silent_tried, silent_build].
  apply exec_tried in Hb as (x & [= <-] & Hb). revert H. rewrite exec_lift_ok.
  destruct built as [req|e]; [|intros [-> ->]; by left].
  intros (answer & t9 & -> & H). cbn [pbind] in H. revert H. rewrite exec_lift_ok.
  destruct answer as [resp|status]; [|intros [-> ->]; right; eauto].
  rewrite exec_lift_ok. destruct (admit_decision resp) as [[]|e] eqn:Hadm; [|intros [-> ->]; right; eauto].
  intros H. apply exec_silent in H as [(pricing & t10 & t11 & _ & [-> ->] & Ht)|[Ht [e ->]]];
    [|right; rewrite acts_decided, Ht; eauto|].
  2:{ destruct (app_pricing_cache app); [apply silent_fresh|done]. }
  exists req, resp. split; [by rewrite acts_decided, Ht|].
  assert (rs_decision resp = 1) as Hc.
  { unfold admit_decision in Hadm. destruct (rs_decision resp) as [|[[[]|[]|]|[[]|[]|]|]|]; done. }
  pose proof (request_sent_headers app api_kind headers auth up) as (Hauths & Hsent & Hprivate).
  apply body_sent in Hup.
  apply negb_true_iff, orb_false_iff in Hids as [[Hbid _]%orb_false_iff _].
  constructor; cbn [pp_request pp_ctx pp_is_streaming pp_estimated_tokens]; try done.
  - eapply build_asks in Hb; [done|apply reserved_positive|done].
  - exists auth. split_and!; [|done|done]. unfold header in Hauth.
    apply bind_Some in Hauth as (v & Hv & Hs). unfold to_str in Hs. case_match; by simplify_eq.
  - exists parsed. split; [done|]. split; [apply streaming_wanted|]. done.
Qed.

(** Nothing is sent before that. *)
Definition unsent (X : Type) (e : egressE X) : Prop :=
  match e with SendUpstream _ => False | _ => True end.

Lemma prepare_sends_nothing app headers body api_kind :
  all_effects unsent (prepare_request json_error app headers body api_kind).
Proof.
  unfold prepare_request, estimate_call_cost, build_decision_request, idempotency_key_of, get_fresh,
    read_pricing_snapshot, tried.
  repeat first [ done | apply all_effects_bind; [|intros ?] | apply all_effects_pbind; [|intros ?] | case_match ].
Qed.

(** Nor after it. *)
Ltac all_unsent := repeat first
  [ done | apply all_effects_bind; [|intros ?] | apply all_effects_pbind; [|intros ?] | case_match ].

Lemma release_unsent {D} c outcome : all_effects unsent (release_on_upstream_error c outcome : Eg D unit).
Proof. unfold release_on_upstream_error, post_event. all_unsent. Qed.

Lemma commit_unsent c usage : all_effects unsent (commit_on_success c usage).
Proof. unfold commit_on_success, post_event. all_unsent. Qed.

Lemma attempts_unsent c usage more backoff : all_effects unsent (commit_attempts c usage more backoff).
Proof.
  revert backoff; induction more as [|more IH]; intros backoff; cbn [commit_attempts];
    (apply all_effects_bind; [apply all_effects_pbind; [apply commit_unsent|done]|intros [[]|e]; [done|]]).
  - done.
  - apply all_effects_bind; [done|intros ?]. apply IH.
Qed.

Lemma after_send_unsent api_kind streaming c reserved sent :
  all_effects unsent (after_send api_kind streaming c reserved sent).
Proof.
  unfold after_send, tried. destruct sent as [head|e].
  2:{ apply all_effects_bind; [apply release_unsent|done]. }
  case_match; [done|]. case_match; [apply all_effects_bind; [apply release_unsent|done]|].
  apply all_effects_bind; [done|intros [body|e]; [|done]].
  case_match; (apply all_effects_bind; [|done]); [apply release_unsent|].
  apply all_effects_pbind; [apply attempts_unsent|done].
Qed.

Lemma stream_tasks_unsent {D} d : all_effects unsent (stream_tasks d : Eg D unit).
Proof.
  unfold stream_tasks, tried. apply all_effects_bind; [done|intros rx]. cbn zeta.
  case_match; [|apply release_unsent].
  apply all_effects_bind; [apply all_effects_pbind; [apply commit_unsent|done]|].
  intros [[]|e]; [done|]. unfold release_on_proxy_internal_error. by apply all_effects_bind.
Qed.

(** ** The theorems *)

Definition gate (app : AppState) (headers : HeaderMap) (body : string) (api_kind : ApiKind)
    (h : list (event egressE)) (ev : event egressE) : Prop :=
  match ev with
  | Ev e _ =>
      match e with
      | SendUpstream q =>
          exists req resp p, acts h = [ADecided req (Ok resp)] /\ q = pp_request p /\
            admitted app headers body api_kind req resp p
      | _ => True
      end
  end.

Lemma unsent_gate app headers body api_kind h X (e : egressE X) x :
  unsent X e -> gate app headers body api_kind h (Ev e x).
Proof. by destruct e. Qed.

(** C14: the proxy only forwards what the sidecar let through. At whatever point a
    request is cut off, if it went upstream then before that, and as the only thing
    done to the outside, the sidecar was asked once and answered CONTINUE, for a
    claim of at least one token in a budget. What goes upstream carries the client's
    own Authorization header once; the others that the proxy sets are the JSON content
    type, the client's own among five that are passed on, and its user agent when the
    client names none: no X-SpendGuard header. Its body is the client's, byte for
    byte, except that a streamed chat is encoded again with [include_usage] set and
    nothing else changed. *)
Theorem upstream_gated app headers body api_kind t1 q x t2 :
  prefix (serve app headers body api_kind) (t1 ++ Ev (SendUpstream q) x :: t2) ->
  exists req resp p, acts t1 = [ADecided req (Ok resp)] /\ q = pp_request p /\
    admitted app headers body api_kind req resp p.
Proof.
  apply (upholds_prefix (gate app headers body api_kind) []). unfold serve_openai, forward_openai_request.
  pose proof (unsent_gate app headers body api_kind) as Hu.
  apply upholds_bind; [apply upholds_bind|].
  - eapply upholds_all; [exact Hu|apply prepare_sends_nothing].
  - intros t p Hp%prepare_exec. destruct Hp as (req & resp & Ht & Hadm). intros sent. split; [by exists req, resp, p|].
    cbn [pbind]. eapply upholds_all; [exact Hu|apply after_send_unsent].
  - intros t [response [d|]] _; [|done]. apply upholds_bind; [|done].
    eapply upholds_all; [exact Hu|apply stream_tasks_unsent].
Qed.

Lemma sent_acts app headers body api_kind t1 p sent t2 :
  exec (prepare_request json_error app headers body api_kind) t1 (Ok p) ->
  exists req resp,
    acts (t1 ++ Ev (SendUpstream (pp_request p)) sent :: t2) =
      ADecided req (Ok resp) :: ASent (pp_request p) sent :: acts t2 /\
    admitted app headers body api_kind req resp p.
Proof. intros (req & resp & Ht & Hadm)%prepare_exec. exists req, resp. split; [|done]. by rewrite acts_app, Ht. Qed.


End Facts.

(** ** Concrete requests *)

Module EgressDemo.

(** Toy documents, in place of serde_json: two request bodies by name, and a number
    for an answer that reports it as its usage. *)
Definition chat (streaming : bool) : json :=
  JObj [("model", JStr "gpt-4o"); ("max_tokens", JInt 100); ("stream", JBool streaming);
        ("messages", JArr [JObj [("role", JStr "user"); ("content", JStr "hello")]])].

Definition demo_parse (s : string) : option json :=
  if s =?s "chat" then Some (chat false)
  else if s =?s "chat-stream" then Some (chat true)
  else (fun n => JObj [("usage", JObj [("total_tokens", JInt n)])]) <$> parse_i64 s.

#[local] Instance demo_json : JsonLib := {| json_from_slice := demo_parse; json_to_vec := fun _ => "json" |}.

(** A toy digest: the first 16 bytes, padded. *)
Definition pad16 (s : string) : string := String.substring 0 16 (s +:+ "0000000000000000").

#[local] Instance demo_blake : Blake2Lib.
Proof.
  refine {| blake2b_128 := pad16 |}. intros s. apply Demo.substring_length.
  rewrite Demo.string_length_app. cbn. lia.
Defined.

#[local] Existing Instances Demo.demo_uuid Demo.demo_crypto Demo.demo_hex Demo.demo_uuid_bytes.

Definition app : AppState :=
  {| app_tenant_id := "tenant"; app_pricing_cache := true; app_output_predictor := false;
     app_run_cost_projector := false;
     app_env := fun v => if v =?s "SPENDGUARD_PROXY_DEFAULT_UNIT_ID" then Some "unit" else None |}.

Definition headers : HeaderMap :=
  [("authorization", "Bearer key"); ("x-spendguard-run-id", "run"); ("x-spendguard-budget-id", "budget");
   ("x-spendguard-window-instance-id", "window"); ("user-agent", "demo")].

Definition continue : DecisionResponse :=
  {| rs_decision_id := "d1"; rs_audit_decision_event_id := "a1"; rs_decision := 1; rs_reason_codes := [];
     rs_matched_rule_ids := []; rs_effect_hash := "e1"; rs_ledger_transaction_id := "tx1";
     rs_reservation_ids := ["r1"]; rs_ttl_expires_at := None; rs_approval_request_id := EmptyString;
     rs_terminal := false; rs_run_code_triggered := EmptyString; rs_subscription_meter := None |}.

Definition head_of (content_type : string) : UpstreamHead :=
  {| uh_status := 200; uh_headers := [("content-type", content_type)] |}.

(** The world: what the provider answers, and how the sidecar takes a post. *)
Record World := {
  w_head : UpstreamHead;
  w_body : result string bytes;
  w_stream : list (result string bytes);
  w_emit : result string unit;
  w_ack : Z;
}.

Definition answer (w : World) (X : Type) (e : egressE X) : X :=
  match e in egressE X return X with
  | NewUuid => "x"
  | Clock => secs 1700000000
  | Tokenize _ => Ok {| tr_input_tokens := 7; tr_tier := "T2"; tr_tokenizer_version_id := "v1" |}
  | CallPredict _ => Err "unreachable"
  | CallProject _ => Err "unreachable"
  | PricingLoad => {| ps_pricing := default_pricing; ps_mtime := Some 1 |}
  | PricingStore _ => tt
  | FileMetadata => Some (Some 2)
  | FileRead => Ok "export SPENDGUARD_SIDECAR_PRICING_VERSION = 'p7' "
  | RequestDecision _ => Ok continue
  | SendUpstream _ => Ok (w_head w)
  | ReadBody => w_body w
  | TeeStream => Some (w_stream w)
  | EmitTraceEvents _ => w_emit w
  | ReadAck => Ok (Some {| ta_event_id := "ev"; ta_status := w_ack w; ta_error := None |})
  | ConfirmPublishOutcome _ => Ok {| pu_audit_outcome_event_id := "o"; pu_recorded_at := None |}
  | Sleep _ => tt
  end.

Definition plain : World :=
  {| w_head := head_of "application/json"; w_body := Ok (list_ascii_of_string "21"); w_stream := [];
     w_emit := Ok tt; w_ack := ACK_ACCEPTED |}.

Definition served (w : World) (body : string) :=
  run (answer w) (serve_openai (fun _ => EmptyString) app headers body ChatCompletions).

Definition chat_run := served plain "chat".

(** The request is gated: its send comes after the CONTINUE, and nothing else does. *)
Lemma upstream_gated_witness :
  exists t1 q x t2, chat_run.1 = t1 ++ Ev (SendUpstream q) x :: t2 /\
    exists req resp p, acts t1 = [ADecided req (Ok resp)] /\ q = pp_request p /\
      admitted app headers "chat" ChatCompletions req resp p.
Proof.
  destruct (nth_error chat_run.1 10) as [ev|] eqn:Hev; [|vm_compute in Hev; discriminate].
  assert (Hs : chat_run.1 = take 10 chat_run.1 ++ ev :: drop 11 chat_run.1).
  { vm_compute in Hev. injection Hev as <-. vm_compute. reflexivity. }
  assert (Hq : exists q x, ev = Ev (SendUpstream q) x).
  { vm_compute in Hev. injection Hev as <-. eexists _, _. reflexivity. }
  destruct Hq as (q & x & ->).
  exists (take 10 chat_run.1), q, x, (drop 11 chat_run.1). split; [exact Hs|].
  apply (upstream_gated (fun _ => EmptyString) app headers "chat" ChatCompletions (take 10 chat_run.1) q x
           (drop 11 chat_run.1)).
  rewrite <- Hs. eapply exec_prefix, run_exec.
Defined.


(** Whatever the sidecar says of the post, the proxy takes it as done: here the
    commit is rejected, and confirmed as applied all the same. *)
Example rejected_commit_confirmed :
  let refused := {| w_head := head_of "application/json"; w_body := Ok (list_ascii_of_string "121");
                    w_stream := []; w_emit := Ok tt; w_ack := ACK_REJECTED |} in
  drop 3 (acts (served refused "chat").1) =
    [APosted "r1" LLM_SUCCESS "121"; AConfirmed "d1" OUTCOME_APPLIED].
Proof. vm_compute. reflexivity. Qed.

(** The tokens that are committed are all those of the call, the prompt's included,
    while the reservation is for the output's: the 121 tokens above are more than the
    100 that were reserved. *)

(** An answer whose body is lost leaves the reservation as it is. *)
Example unread_unsettled :
  let lost := {| w_head := head_of "application/json"; w_body := Err "reset"; w_stream := [];
                 w_emit := Ok tt; w_ack := ACK_ACCEPTED |} in
  drop 2 (acts (served lost "chat").1) = [ARead (Err "reset")].
Proof. vm_compute. reflexivity. Qed.

(** A sidecar that cannot be reached after an answer: three attempts, nothing given
    back; after a stream: one attempt, and the reservation is given back. *)
Definition crlf : string := String CR (String LF EmptyString).

Definition event_text (data : string) : bytes :=
  list_ascii_of_string ("event: message" +:+ crlf +:+ "data: " +:+ data +:+ crlf +:+ crlf).

Definition cut (n : nat) (l : bytes) : list (result string bytes) := [Ok (take n l); Ok (drop n l)].

Definition down (rx : list (result string bytes)) (content_type : string) : World :=
  {| w_head := head_of content_type; w_body := Ok (list_ascii_of_string "21"); w_stream := rx;
     w_emit := Err "unavailable"; w_ack := ACK_ACCEPTED |}.

Example answer_kept :
  drop 3 (acts (served (down [] "application/json") "chat").1) =
    [APosted "r1" LLM_SUCCESS "21"; APosted "r1" LLM_SUCCESS "21"; APosted "r1" LLM_SUCCESS "21"].
Proof. vm_compute. reflexivity. Qed.

Example stream_given_back :
  drop 3 (acts (served (down (cut 37 (event_text "21" ++ event_text "[DONE]")) "text/event-stream") "chat-stream").1) =
    [APosted "r1" LLM_SUCCESS "21"; AConfirmed "d1" OUTCOME_APPLY_FAILED].
Proof. vm_compute. reflexivity. Qed.

(** A stream without usage is charged what was reserved, a broken one nothing. *)
Example stream_floor :
  drop 3 (acts (served (down (cut 5 (event_text "[DONE]")) "text/event-stream") "chat-stream").1) =
    [APosted "r1" LLM_SUCCESS "100"; AConfirmed "d1" OUTCOME_APPLY_FAILED] /\
  drop 3 (acts (served (down [Ok (event_text "21"); Err "reset"] "text/event-stream") "chat-stream").1) =
    [APosted "r1" LLM_PROVIDER_ERROR EmptyString].
Proof. split; vm_compute; reflexivity. Qed.

End EgressDemo.
